(* ===== verification/_CoqProject ===== *)
-Q . S2P
Prelude.v
Text.v
Table.v
Decimal.v
Dict.v
Json.v
Coro.v
TargetAlloc.v
TargetAllocSpec.v
TargetAllocLoops.v
Outbox.v
OutboxInv.v
OutboxSpec.v
OutboxConsumers.v
OutboxWorker.v
OutboxWorkerInv.v
OutboxWorkerSpec.v
OutboxConsumersSpec.v
OutboxDelivery.v
Exports.v
ExportsSpec.v
ExportService.v
ExportServiceSpec.v
Grile.v
GrileSpec.v
GrileMonthly.v
GrileMonthlyInv.v
GrileMonthlySpec.v
GrileMonthlyRuns.v
GrileReset.v
GrileResetLogic.v
GrileResetSpec.v
GrileResetEnds.v
GrileReconcile.v
GrileReconcileSpec.v
GrileResetRuns.v
GrileCalendar.v
GrileCalendarInv.v
GrileCalendarSpec.v
GrileEarnings.v
GrileEarningsSpec.v
Promo.v
PromoSpec.v
SalesText.v
SalesManifest.v
SalesGen.v
SalesPromotion.v
SalesFlow.v
SalesInv.v
SalesPromotionInv.v
SalesFlowInv.v
SalesSpec.v
SalesGuards.v
SalesRuns.v
Scenarios.v
ScenarioService.v
ScenarioSpec.v
ScenarioHandlers.v
TargetProposal.v
TargetProposalSpec.v
CampaignMoney.v
CampaignMoneySpec.v
CampaignCents.v
CampaignAgents.v
CampaignSpec.v
SalaryApproval.v
SalaryImport.v
SalarySpec.v
SalaryInv.v
SalaryRuns.v
Jwks.v
JwksSpec.v
Oidc.v
Session.v
SessionInv.v
SessionLock.v
SessionSpec.v
SessionEnds.v
SessionLogin.v
SessionRuns.v
