(* ===== verification/Prelude.v ===== *)
(** * UniHub Retail: a verified model of the backend's transactional core

    The program is the Python backend of a retail chain (src/backend): PostgreSQL
    repositories whose calls are transactions, services that compose them, workers that
    run long jobs, and pure calculations on money and units.  This development translates
    its core logic and proves what each part promises.

    ** The program and how its parts interact

    A monthly sales report is imported as a sales generation: reserved, staged, validated,
    promoted to be the live rows of its month, rolled back if wrong.  A promotion emits an
    event into the transactional outbox, which delivers it to its consumers at least once
    and records the effect once.  Targets of the stores for a month are estimated from
    past seasons, allocated under floors and caps, saved as a scenario, corrected by managers, and finalized into the
    official targets.  Campaigns compute promotions and incentives of stores and divide them
    among agents to the cent.  At the end of a month the Grile closeout archives and clears
    the stores' sheets under fenced, recoverable executions: every sheet is backed up,
    cleared and read back, and restored when something fails; a reconciler settles what a
    dead process left behind.  Reports are exported by
    capacity-limited, leased operations whose artifacts are checked before download.  The
    outbox dispatcher claims events and runs their consumers under a lease that a heartbeat
    renews.  The monthly salaries of both companies are imported as one batch that an
    independent reviewer has signed.  Browsers hold a session cookie; the sessions live
    encrypted in Valkey and are refreshed with the identity provider, one process at a time;
    its tokens are checked against signing keys that each process caches.  During the month
    managers keep the calendar of the stores' teams: the roster, dated transfers, scheduled
    and closed days, opening hours, pay inputs and targets, every edit fenced by a revision;
    attendance and provisional earnings are projected from it and from the published sales.

    ** Files, in dependency order

    - Prelude (this file): results, sums, lists, the stable sort of Python with total
      orders as type classes (TotalLeb, TotalCmp), tactics (inv_res, bool_prop,
      split_bools) and the hint database fuel.
    - Text: ASCII classes and the regular expressions used as guards; Table: one SQL table
      behind a trigger and a CHECK; Decimal: Python's decimal arithmetic with its contexts
      and rounding modes, with equality of values as a setoid; Dict: ordered dictionaries;
      Json: decoded JSON values and their equality; Coro: coroutines whose requests may
      raise, be shielded or be interrupted, their runs in a world and rules for assertions
      that hold at every request.
    - TargetAlloc, TargetAllocSpec, TargetAllocLoops
      (services/target_calculator/calculations.py): the two allocators, their exactness and
      their loops.
    - Scenarios (repositories/target_calculator_scenarios.py, schema_v2.sql, migration 036),
      ScenarioService (the handlers of services/target_calculator/service.py and the step
      relation), ScenarioSpec, ScenarioHandlers.
    - TargetProposal (proposal.py, proposal_rows.py, seasonality.py and rules.py of
      services/target_calculator), TargetProposalSpec: a proposal from the request to the
      saved draft.
    - Outbox (repositories/transactional_outbox.py, services/outbox_replay.py, migration
      069), OutboxInv, OutboxSpec.
    - OutboxConsumers (the consumers of services/grile_outbox_delivery.py and
      services/outbox_worker.py), OutboxWorker (the delivery coroutine, its heartbeat and the
      dispatch), OutboxWorkerInv, OutboxWorkerSpec, OutboxConsumersSpec (against the class
      KeyedConsumers), OutboxDelivery (the ledger of effects that the dispatcher
      implements, an undisturbed delivery, and runs).
    - Exports, ExportsSpec (repositories/export_operations.py, migrations 055 and 065);
      ExportService, ExportServiceSpec (services/export_operations.py,
      services/exports/artifact.py).
    - Grile, GrileSpec (grile/domain, grile/adapters/retry.py); GrileMonthly,
      GrileMonthlyInv, GrileMonthlySpec, GrileMonthlyRuns (repositories/grile_monthly_*.py,
      migrations 012, 028, 044).
    - GrileReset (services/grile_monthly_reset_*.py, grile_monthly_integrity.py,
      grile_monthly_google_api.py and the parts of grile_monthly_types.py, _registry.py and
      _artifacts.py they use), GrileResetLogic (what a run keeps), GrileResetSpec,
      GrileResetEnds; GrileReconcile, GrileReconcileSpec
      (services/grile_monthly_reconciler.py); GrileResetRuns (runs of both).
    - GrileCalendar (repositories/grile_calendar.py, grile_transfers.py,
      grile_store_team.py, grile_compensation.py, grile_target_settings.py,
      grile/calendar_models.py, base_salary.py, roster_history.py, the handlers of
      services/grile_calendar.py, migrations 070 to 081), GrileCalendarInv,
      GrileCalendarSpec (with runs).
    - GrileEarnings (grile/calendar_projection.py, earnings_rules.py, earnings_projection.py,
      earnings_dashboard.py, repositories/grile_earnings.py), GrileEarningsSpec (attendance,
      credited sales, commissions and runs).
    - Promo, PromoSpec (services/promo_allocation.py, promo_types.py, promo_same_model.py).
    - CampaignMoney (services/campaigns/money.py), CampaignAgents (aggregation.py and the
      accumulator of incentives.py), CampaignMoneySpec, CampaignCents, CampaignSpec.
    - SalesText (the canonical text of staged rows, which determines them), SalesManifest
      (validation, manifest and replace policy of services/sales_generation.py and
      sales_import_parsing.py), SalesGen (tables, triggers of migrations 033, 037, 040, 043,
      reservation, staging, fencing, recovery), SalesPromotion (promotion and rollback),
      SalesFlow (the import and the promotion job, the step relation), with the invariants
      SalesInv, SalesPromotionInv, SalesFlowInv (with SalesRowInv), the properties SalesSpec and
      SalesGuards and the runs SalesRuns.
    - SalaryApproval (salary_import_approval.py), SalaryImport
      (scripts/import_salary_records.py, salary_import_persistence.py, salary_identity.py,
      migrations 023, 024, 034, 045), SalarySpec, SalaryInv, SalaryRuns.
    - Jwks (oidc_verifier.py, the times of oidc_settings.py), JwksSpec: the cache
      of signing keys as tasks of one event loop; Oidc (auth.py,
      session_runtime_helpers.py), Session (session_auth.py as a machine of
      coroutines over Valkey), SessionInv (identities and stale reads), SessionLock (the
      refresh lock), SessionSpec, SessionEnds, SessionLogin, SessionRuns (an executable
      semantics of the steps and runs of it).

    ** How the code is modelled

    A Record db per component holds its tables as finite maps; a repository call is a
    function from the database to a result: the new database with the returned value, or
    the exception, and then the transaction is rolled back.  CHECK constraints, unique
    indexes, foreign keys and triggers are part of the calls that meet them.  The clock of
    a transaction is an argument.  Row locks and advisory locks make a call one atomic step;
    a read that no lock protects is an argument of the call that uses it, any value the row
    has had (the head a reservation saw), or a step of its own (the session a request was
    served and looks at later);
    a step relation lets all calls run with any arguments in any order, and reachable
    states are those of its runs.  Pure functions are functions; loops without a structural
    measure take fuel, with an error for running out that is proved never to occur.
    Decimals keep coefficient and exponent, so that rounding and overflow are those of the
    code; NUMERIC columns are integers in their last place, INTEGER columns are bounded.

    ** What the theorems show

    - Sales: the live rows of a month are those of its head; a promotion replaces one month
      and nothing else, and only while the head is the one the generation expects; exactly
      the ready generations are promoted; a rollback undone restores; failed jobs give their
      claim back, cancelled ones leave it to the recovery; stale workers are powerless; the
      staging text determines the rows; validated rows fit their columns; the outbox
      announces the promotion ledger one to one (the refinement that composes the two
      components).  A reservation that read a head of the past blocks its month (a bug, with
      its run).
    - Outbox: one event per aggregate in delivery, ordered claims, lost claims stay lost,
      receipts are effective once, retries follow the schedule.  The dispatcher refines a
      ledger of effects: answers of the registered consumers, each once, and done only with
      one; completions are counted once; a delivery that lost its lease is silent; every delivery
      ends; an undisturbed one completes; a generation hash with a run of 13 digits blocks
      its aggregate forever (a bug).
    - Salaries: nothing is written without a trusted signature over exactly the batch by
      someone else than the operator; an approval works once; an applied month is the batch,
      to the cent; an unlucky file digest is refused (a bug).
    - Sessions: requests act for whoever logged in; one refresh at a time across processes;
      only a logout ends a usable session; a quiet logout is final, one that meets a refresh,
      or a request that was served the session before, may not be (a bug, with its runs); a login flow opens one session; a refresh ends.
    - Signing keys: a key handed out is the provider's latest, within the cache or the stale
      time; the provider is spared whatever key ids arrive; every task is answered.
    - Calendar: one worker per store and day, none on a closed day, one day per agent and
      date outside the team leaders; of two edits of one revision the later is refused.
      Composed with it: attendance counts every scheduled day once; published sales are
      credited to one worker or to nobody; commissions rise with sales; the revision of the
      earnings depends on the process that computes it (a bug, with its run).
    - Grile closeout: unique active work per month, single use of approvals and of clear
      intents, no effect after a lease is lost, refinement of the domain's transition table.
      The live reset, at whatever request it is interrupted and whatever others do to the
      database: a clear follows its backup and its intent; the outcome it reports tells what
      happened to every sheet; it ends.  The reconciler clears nothing, restores checked
      backups over empty sheets only, and settles an operation only on evidence; stores on
      the third template it can never settle (a bug).
    - Scenarios: one scenario per month, budgets met, finalized scenarios frozen, revisions
      pin contents, publication of exactly the approved targets, a passed check is honoured.
      A saved proposal covers its cohort, keeps every bound and meets its budget; a store
      with net returns makes the calculation fail unexplained (a bug, with its run).
    - Campaigns: units and cents of the agents add up to their store's, shares are fair and
      do not depend on input order, the loops over cents equal a closed form and end.
    - Target allocators, exports and promotions: exact totals within bounds, termination,
      capacity, final states, verified downloads, exact shares.

    Further theorems are proved in the same files beside these: the effects of other calls,
    the error branches and termination results.

    ** Bounds and fuel

    The binary search of the allocator takes the number of breakpoints as fuel, the rounding
    loops a number of passes (two suffice); the loops over cents take the amount to be moved
    plus one, since every pass moves at least one cent.  Amounts are assumed below the 28
    digits of the decimal context where a theorem says so.  Session times are milliseconds of
    one clock; the deadlines and lock times are those of the code.  A Google request is tried
    six times, a destructive one once; the live reset asks at most 70 requests a store and 12
    more.

    ** Not modelled, and why

    Reading spreadsheets, writing XLSX, child processes, the ARQ queue, HTTP routing and
    metrics are input and output around the modelled core.  Google Sheets and the files of
    the reset answer anything; its path without a Google adapter and the orchestrator that
    leases an operation and commits its outcome are left out.  Queries
    that only select and aggregate (dashboards, reports, HR, store P&L) are SQL text.
    Forecast models call numerical packages.  Hashes, JSON text, the reporting rebuild and
    str.casefold are parameters, as are Fernet, Ed25519 and the verification of JWTs.  Deadlocks,
    replication and the durability of PostgreSQL are assumed away by atomic transactions.  The
    rule registry and the profitability of Target proposals are parameters of the proposal;
    the import of store P&L, contests, CRM and visits are left out. *)

From stdpp Require Export base gmap strings list sorting.
From Stdlib Require Export ZArith Lia Bool.
From Stdlib Require Import OrderedTypeEx.

#[export] Set Warnings "-notation-overridden".

Declare Scope retail_scope.
Delimit Scope retail_scope with retail.

(** ** Results: a Python call returns a value or raises *)

Inductive res (E A : Type) : Type :=
| Ok (a : A)
| Err (e : E).
Arguments Ok {E A} a.
Arguments Err {E A} e.

#[global] Instance res_ret E : MRet (res E) := λ A a, Ok a.
#[global] Instance res_bind E : MBind (res E) := λ A B f m,
  match m with Ok a => f a | Err e => Err e end.
#[global] Instance res_fmap E : FMap (res E) := λ A B f m,
  match m with Ok a => Ok (f a) | Err e => Err e end.

(** [raise_if b e] is the guard [if b: raise e]. *)
Definition raise_if {E} (b : bool) (e : E) : res E () :=
  if b then Err e else Ok ().

(** Change of error type when one component calls another one. *)
Definition lift_err {E F A} (f : E → F) (m : res E A) : res F A :=
  match m with Ok a => Ok a | Err e => Err (f e) end.

Definition is_ok {E A} (m : res E A) : bool :=
  match m with Ok _ => true | Err _ => false end.

(** The list comprehension [[f(x) for x in l]] whose body may raise. *)
Fixpoint mapR {E A B} (f : A → res E B) (l : list A) : res E (list B) :=
  match l with
  | [] => Ok []
  | x :: l' => y ← f x; ys ← mapR f l'; Ok (y :: ys)
  end.

(** The loop [for x in l: s = f(s, x)] whose body may raise. *)
Fixpoint foldR {E S A} (f : S → A → res E S) (s : S) (l : list A) : res E S :=
  match l with
  | [] => Ok s
  | x :: l' => s' ← f s x; foldR f s' l'
  end.

Lemma bind_Ok {E A B} (m : res E A) (k : A → res E B) b :
  (m ≫= k) = Ok b ↔ ∃ a, m = Ok a ∧ k a = Ok b.
Proof.
  destruct m as [a|e]; cbn; [|split; [done|by intros (? & ? & _)]].
  split; [by exists a|by intros (? & [= <-] & ?)].
Qed.

Lemma bind_Err {E A B} (m : res E A) (k : A → res E B) e :
  (m ≫= k) = Err e ↔ m = Err e ∨ ∃ a, m = Ok a ∧ k a = Err e.
Proof.
  destruct m as [a|e']; cbn; split.
  - intros H. right. by exists a.
  - by intros [?|(? & [= <-] & ?)].
  - intros [= ->]. by left.
  - by intros [[= ->]|(? & ? & ?)].
Qed.

Lemma raise_if_Ok {E} (b : bool) (e : E) u : raise_if b e = Ok u ↔ b = false.
Proof. destruct b, u; cbn; naive_solver. Qed.

Lemma raise_if_Err {E} (b : bool) (e e' : E) : raise_if b e = Err e' ↔ b = true ∧ e = e'.
Proof. destruct b; cbn; split; [by intros [= ->]|by intros [_ ->]|done|by intros []]. Qed.

Lemma mapR_Ok {E A B} (f : A → res E B) l ys :
  mapR f l = Ok ys ↔ Forall2 (λ x y, f x = Ok y) l ys.
Proof.
  revert ys; induction l as [|x l IH]; intros ys; cbn.
  - split; [intros [= <-]; constructor | inversion 1; done].
  - split.
    + intros (y & Hy & (zs & Hzs & [= <-])%bind_Ok)%bind_Ok.
      constructor; [done|]. by apply IH.
    + inversion 1 as [|? y ? zs Hy Hzs]; subst.
      rewrite Hy; cbn. apply IH in Hzs as ->. done.
Qed.

Lemma mapR_length {E A B} (f : A → res E B) l ys : mapR f l = Ok ys → length ys = length l.
Proof. intros H%mapR_Ok. symmetry. by eapply Forall2_length. Qed.

(** Invariant rule for the loop [foldR]. *)
Lemma foldR_inv {E S A} (I : list A → S → Prop) (f : S → A → res E S) l s s' :
  (∀ done x t t', I done t → f t x = Ok t' → I (done ++ [x]) t') →
  I [] s → foldR f s l = Ok s' → I l s'.
Proof.
  intros Hstep. revert s s'.
  cut (∀ pre s s', I pre s → foldR f s l = Ok s' → I (pre ++ l) s').
  { intros H s s' Hi Hf. by apply (H [] s s'). }
  induction l as [|x l IH]; intros pre s s' Hi; cbn.
  - intros [= <-]. by rewrite app_nil_r.
  - intros (t & Ht & Hf)%bind_Ok.
    replace (pre ++ x :: l) with ((pre ++ [x]) ++ l) by by rewrite <- app_assoc.
    eapply IH; eauto.
Qed.

(** A loop whose body never raises [e] never raises [e]. *)
Lemma bind_avoids {E A B} (e : E) (m : res E A) (f : A → res E B) :
  m ≠ Err e → (∀ a, m = Ok a → f a ≠ Err e) → (m ≫= f) ≠ Err e.
Proof. intros Hm Hf [H|(a & Ha & H)]%bind_Err; [done|by apply Hf in H]. Qed.

Lemma foldR_avoids {E S A} (e : E) (f : S → A → res E S) s l :
  (∀ s a, f s a ≠ Err e) → foldR f s l ≠ Err e.
Proof.
  intros Hf. revert s. induction l as [|a l IH]; intros s; cbn; [done|].
  apply bind_avoids; [apply Hf|intros t _; apply IH].
Qed.

Lemma mapR_avoids {E A B} (e : E) (f : A → res E B) l :
  (∀ a, a ∈ l → f a ≠ Err e) → mapR f l ≠ Err e.
Proof.
  induction l as [|a l IH]; intros Hf; cbn; [done|].
  apply bind_avoids; [apply Hf; by left|]. intros b _.
  apply bind_avoids; [apply IH; intros x Hx; apply Hf; by right|done].
Qed.

(** A loop whose body succeeds on every element succeeds. *)
Lemma mapR_total {E A B} (f : A → res E B) (P : A → B → Prop) l :
  (∀ x, x ∈ l → ∃ y, f x = Ok y ∧ P x y) → ∃ ys, mapR f l = Ok ys ∧ Forall2 P l ys.
Proof.
  induction l as [|x l IH]; intros H; cbn; [exists []; by split|].
  destruct (H x) as (y & -> & Hy); [by left|]. cbn.
  destruct IH as (ys & -> & Hys); [intros z Hz; apply H; by right|]. cbn.
  exists (y :: ys). by split; [|constructor].
Qed.

(** [fuel] collects the lemmas that an operation never runs out of fuel. *)
Create HintDb fuel.

(** [inv_res] opens every successful bind of the context. *)
Ltac inv_res :=
  repeat match goal with
  | H : (_ ≫= _) = Ok _ |- _ =>
      let a := fresh "v" in let Ha := fresh "Hv" in
      apply bind_Ok in H as (a & Ha & H)
  | H : raise_if _ _ = Ok _ |- _ => apply raise_if_Ok in H
  | H : Ok _ = Ok _ |- _ => injection H as H; try subst
  | H : Err _ = Ok _ |- _ => discriminate H
  | H : Ok _ = Err _ |- _ => discriminate H
  | H : Err _ = Err _ |- _ => injection H as H; try subst
  end.

(** [bool_prop] turns the boolean tests of the code into propositions. *)
Ltac bool_prop :=
  repeat match goal with
  | H : negb _ = true |- _ => apply negb_true_iff in H
  | H : negb _ = false |- _ => apply negb_false_iff in H
  | H : _ && _ = true |- _ => apply andb_true_iff in H as [? H]
  | H : _ || _ = false |- _ => apply orb_false_iff in H as [? H]
  | H : (_ <? _)%Z = true |- _ => apply Z.ltb_lt in H
  | H : (_ <? _)%Z = false |- _ => apply Z.ltb_ge in H
  | H : (_ <=? _)%Z = true |- _ => apply Z.leb_le in H
  | H : (_ <=? _)%Z = false |- _ => apply Z.leb_gt in H
  | H : (_ =? _)%Z = true |- _ => apply Z.eqb_eq in H
  | H : (_ =? _)%Z = false |- _ => apply Z.eqb_neq in H
  | H : bool_decide _ = true |- _ => apply bool_decide_eq_true in H
  | H : bool_decide _ = false |- _ => apply bool_decide_eq_false in H
  end.

(** [split_bools] opens the conjunctions of boolean tests in the context. *)
Ltac split_bools :=
  repeat match goal with
  | H : _ && _ = true |- _ => apply andb_true_iff in H as [? ?]
  | H : bool_decide _ = true |- _ => apply bool_decide_eq_true in H
  | H : (_ =? _)%Z = true |- _ => apply Z.eqb_eq in H
  | H : (_ <=? _)%Z = true |- _ => apply Z.leb_le in H
  | H : (_ <? _)%Z = true |- _ => apply Z.ltb_lt in H
  end.

(** ** Lists *)

Lemma elem_of_concat {A} (x : A) ls : x ∈ concat ls ↔ ∃ l, x ∈ l ∧ l ∈ ls.
Proof. rewrite list_elem_of_In, in_concat. setoid_rewrite list_elem_of_In. naive_solver. Qed.

Lemma existsb_false_lookup {A} (f : A → bool) l i x :
  existsb f l = false → l !! i = Some x → f x = false.
Proof.
  intros Hf Hx. destruct (f x) eqn:Hfx; [|done].
  assert (existsb f l = true) as Ht; [|congruence].
  apply existsb_exists. exists x. split; [|done].
  apply list_elem_of_In. by eapply list_elem_of_lookup_2.
Qed.

Lemma elem_of_filterb {A} (f : A → bool) x l : x ∈ List.filter f l ↔ x ∈ l ∧ f x = true.
Proof. by rewrite !list_elem_of_In, filter_In. Qed.

Lemma Forall_filter_nil {A} (P : A → bool) l :
  List.filter P l = [] ↔ Forall (λ x, P x = false) l.
Proof.
  induction l as [|x l IH]; cbn; [split; [constructor|done]|].
  rewrite Forall_cons, <- IH. destruct (P x); split; try done; [by intros [? _]|by intros [_ ?]].
Qed.

Lemma filter_all {A} (P : A → bool) l : Forall (λ x, P x = true) l → List.filter P l = l.
Proof. induction 1 as [|x l Hx _ IH]; cbn; [done|]. by rewrite Hx, IH. Qed.

Lemma filter_none {A} (P : A → bool) l : Forall (λ x, P x = false) l → List.filter P l = [].
Proof. apply Forall_filter_nil. Qed.

Lemma existsb_false_in {A} (f : A → bool) l x : existsb f l = false → In x l → f x = false.
Proof.
  intros Hf Hx. destruct (f x) eqn:Hfx; [|done].
  assert (existsb f l = true) by (apply existsb_exists; eauto). congruence.
Qed.

Lemma Forall2_right {A B} (P : A → B → Prop) (Q : B → Prop) l k :
  (∀ x y, P x y → Q y) → Forall2 P l k → Forall Q k.
Proof. intros HPQ. induction 1; constructor; eauto. Qed.

(** Removing the members of a duplicate-free sublist and adding them back. *)
Lemma split_perm `{EqDecision A} (b l : list A) :
  NoDup b → NoDup l → (∀ x, x ∈ b → x ∈ l) →
  b ++ List.filter (λ x, negb (bool_decide (x ∈ b))) l ≡ₚ l.
Proof.
  intros Hb Hl Hin.
  assert (Hf : ∀ x, x ∈ List.filter (λ x, negb (bool_decide (x ∈ b))) l ↔ x ∈ l ∧ x ∉ b).
  { intros x. rewrite list_elem_of_In, filter_In, <- list_elem_of_In, negb_true_iff.
    by rewrite bool_decide_eq_false. }
  apply NoDup_Permutation.
  - apply NoDup_app. split_and!; [done| |].
    + intros x Hx. rewrite Hf. tauto.
    + by apply NoDup_ListNoDup, List.NoDup_filter, NoDup_ListNoDup.
  - done.
  - intros x. rewrite elem_of_app, Hf. specialize (Hin x). destruct (decide (x ∈ b)); tauto.
Qed.

Lemma NoDup_fmap_filter {A B} (f : A → B) (P : A → bool) l :
  NoDup (f <$> l) → NoDup (f <$> List.filter P l).
Proof.
  induction l as [|x l IH]; cbn; [done|]. rewrite NoDup_cons. intros [Hx Hn].
  destruct (P x); cbn; [|by apply IH]. apply NoDup_cons. split; [|by apply IH].
  contradict Hx. apply list_elem_of_fmap in Hx as (y & Hy & Hin%list_elem_of_In%filter_In).
  apply list_elem_of_fmap. exists y. split; [done|]. by apply list_elem_of_In, Hin.
Qed.

(** Two members of a list with the same image, when images are distinct. *)
Lemma list_fmap_NoDup_inj {A B} (f : A → B) l x y :
  NoDup (f <$> l) → x ∈ l → y ∈ l → f x = f y → x = y.
Proof.
  intros Hn [i Hi]%list_elem_of_lookup [j Hj]%list_elem_of_lookup Hf.
  assert (i = j) as ->; [|congruence].
  eapply (NoDup_lookup _ i j (f x) Hn); rewrite list_lookup_fmap; [by rewrite Hi|].
  rewrite Hj, Hf. done.
Qed.

(** ** Integer sums *)

Fixpoint sumZ (l : list Z) : Z :=
  match l with [] => 0%Z | z :: l' => (z + sumZ l')%Z end.

Section SumZ.
Local Open Scope Z_scope.

Lemma sumZ_app l k : sumZ (l ++ k) = sumZ l + sumZ k.
Proof. induction l; cbn; lia. Qed.

Lemma sumZ_nonneg l : Forall (λ z, 0 <= z) l → 0 <= sumZ l.
Proof. induction 1; cbn; lia. Qed.

Lemma sumZ_le {A} (f g : A → Z) l :
  Forall (λ x, f x <= g x) l → sumZ (f <$> l) <= sumZ (g <$> l).
Proof. induction 1; cbn; lia. Qed.

Lemma sumZ_add {A} (f g : A → Z) l :
  sumZ ((λ x, f x + g x) <$> l) = sumZ (f <$> l) + sumZ (g <$> l).
Proof. induction l; cbn; lia. Qed.

Lemma sumZ_mul_l {A} (c : Z) (f : A → Z) l :
  sumZ ((λ x, c * f x) <$> l) = c * sumZ (f <$> l).
Proof. induction l; cbn; lia. Qed.

Lemma sumZ_const {A} (c : Z) (l : list A) :
  sumZ ((λ _, c) <$> l) = c * Z.of_nat (length l).
Proof. induction l; cbn in *; lia. Qed.

Lemma sumZ_abs l : Z.abs (sumZ l) <= sumZ (Z.abs <$> l).
Proof. induction l; cbn in *; lia. Qed.

Lemma sumZ_elem l z : Forall (λ x, 0 <= x) l → z ∈ l → z <= sumZ l.
Proof.
  induction 1 as [|x l Hx Hl IH]; [by rewrite elem_of_nil|].
  pose proof (sumZ_nonneg _ Hl). rewrite elem_of_cons. intros [->|Hz]; cbn; [lia|].
  specialize (IH Hz); lia.
Qed.

Lemma sumZ_filter_le {A} (f : A → Z) (P : A → bool) l :
  (∀ x, 0 <= f x) → sumZ (f <$> List.filter P l) <= sumZ (f <$> l).
Proof. intros Hf. induction l as [|x l IH]; cbn; [done|]. pose proof (Hf x). destruct (P x); cbn; lia. Qed.

Lemma sumZ_insert {A} (f : A → Z) l i x y :
  l !! i = Some x → sumZ (f <$> <[i:=y]> l) = sumZ (f <$> l) - f x + f y.
Proof.
  revert i. induction l as [|a l IH]; intros [|i]; [done..|intros [= ->]; cbn; lia|].
  intros Hi%IH. change (<[S i:=y]> (a :: l)) with (a :: <[i:=y]> l).
  rewrite !fmap_cons. cbn [sumZ]. lia.
Qed.

#[global] Instance sumZ_perm : Proper (Permutation ==> eq) sumZ.
Proof. induction 1; cbn in *; lia. Qed.
End SumZ.

(** ** Total orders as boolean tests, and the stable sort of Python's [sorted] *)

Class TotalLeb {A} (le : A → A → bool) : Prop := {
  leb_total x y : le x y = true ∨ le y x = true;
  leb_trans x y z : le x y = true → le y z = true → le x z = true;
}.

Section Sort.
Context {A : Type} (le : A → A → bool).

Fixpoint insert_sorted (x : A) (l : list A) : list A :=
  match l with
  | [] => [x]
  | y :: l' => if le x y then x :: l else y :: insert_sorted x l'
  end.

(** Inserting from the right keeps the order of the elements that compare
    equal, as Python's stable sort does. *)
Definition sorted_by (l : list A) : list A := foldr insert_sorted [] l.

Lemma insert_sorted_perm x l : insert_sorted x l ≡ₚ x :: l.
Proof.
  induction l as [|y l IH]; cbn; [done|].
  destruct (le x y); [done|]. rewrite IH. apply Permutation_swap.
Qed.

Lemma sorted_by_perm l : sorted_by l ≡ₚ l.
Proof. induction l; cbn; [done|]. rewrite insert_sorted_perm. by f_equiv. Qed.

Lemma sorted_by_length l : length (sorted_by l) = length l.
Proof. by rewrite sorted_by_perm. Qed.

Lemma elem_of_sorted_by x l : x ∈ sorted_by l ↔ x ∈ l.
Proof. by rewrite sorted_by_perm. Qed.

Context `{!TotalLeb le}.

Lemma insert_sorted_sorted x l :
  StronglySorted (λ a b, le a b = true) l →
  StronglySorted (λ a b, le a b = true) (insert_sorted x l).
Proof.
  induction 1 as [|y l Hl IH Hy]; cbn; [by repeat constructor|].
  destruct (le x y) eqn:Hxy.
  - constructor; [by constructor|]. constructor; [done|].
    eapply Forall_impl; [done|]. intros z Hz; cbn. by eapply leb_trans.
  - constructor; [done|]. rewrite insert_sorted_perm. constructor; [|done].
    destruct (leb_total x y); congruence.
Qed.

Lemma sorted_by_sorted l : StronglySorted (λ a b, le a b = true) (sorted_by l).
Proof. induction l; cbn; [constructor|]. by apply insert_sorted_sorted. Qed.
End Sort.

(** Comparison of key tuples: lexicographic, component by component. *)
Definition lex_leb {A} (cmp1 : A → A → comparison) (le2 : A → A → bool) (x y : A) : bool :=
  match cmp1 x y with Lt => true | Eq => le2 x y | Gt => false end.

(** A comparison that is reversed by swapping and whose "not greater" is
    transitive: enough for [lex_leb] to be a total order. *)
Class TotalCmp {A} (cmp : A → A → comparison) : Prop := {
  cmp_antisym x y : cmp y x = CompOpp (cmp x y);
  cmp_le_trans x y z : cmp x y ≠ Gt → cmp y z ≠ Gt → cmp x z ≠ Gt;
}.
Arguments cmp_antisym {A} cmp {_} x y.
Arguments cmp_le_trans {A} cmp {_} x y z _ _.

Section Lex.
Context {A : Type} (cmp1 : A → A → comparison) (le2 : A → A → bool).
Context `{!TotalCmp cmp1, !TotalLeb le2}.

Lemma cmp_Eq_trans x y z : cmp1 x y = Eq → cmp1 x z = cmp1 y z.
Proof.
  intros Hxy.
  assert (Hyx : cmp1 y x = Eq) by by rewrite (cmp_antisym cmp1), Hxy.
  assert (H1 : cmp1 y z ≠ Gt → cmp1 x z ≠ Gt) by (apply (cmp_le_trans cmp1); congruence).
  assert (H2 : cmp1 x z ≠ Gt → cmp1 y z ≠ Gt) by (apply (cmp_le_trans cmp1); congruence).
  assert (H3 : cmp1 z y ≠ Gt → cmp1 z x ≠ Gt)
    by (intros H; apply (cmp_le_trans cmp1 z y x H); congruence).
  assert (H4 : cmp1 z x ≠ Gt → cmp1 z y ≠ Gt)
    by (intros H; apply (cmp_le_trans cmp1 z x y H); congruence).
  rewrite (cmp_antisym cmp1 x z), (cmp_antisym cmp1 y z) in H3, H4.
  destruct (cmp1 x z), (cmp1 y z); cbn in *; try done; exfalso;
    first [by apply H1|by apply H2|by apply H3|by apply H4].
Qed.

#[global] Instance lex_leb_total : TotalLeb (lex_leb cmp1 le2).
Proof.
  split; unfold lex_leb.
  - intros x y. rewrite (cmp_antisym cmp1 x y).
    destruct (cmp1 x y); cbn; [apply leb_total|tauto|tauto].
  - intros x y z.
    destruct (cmp1 x y) eqn:Hxy; [|destruct (cmp1 y z) eqn:Hyz; try done|done].
    + rewrite (cmp_Eq_trans _ _ z Hxy). destruct (cmp1 y z); [apply leb_trans|done|done].
    + intros _ _. assert (Hzy : cmp1 z y = Eq) by by rewrite (cmp_antisym cmp1), Hyz.
      rewrite (cmp_antisym cmp1), (cmp_Eq_trans _ _ x Hzy), (cmp_antisym cmp1), Hxy. done.
    + intros _ _. pose proof (cmp_le_trans cmp1 x y z) as Hle.
      rewrite Hxy, Hyz in Hle. destruct (cmp1 x z) eqn:Hxz; [|done|naive_solver].
      assert (Hzx : cmp1 z x = Eq) by by rewrite (cmp_antisym cmp1), Hxz.
      pose proof (cmp_Eq_trans _ _ y Hzx) as He.
      rewrite (cmp_antisym cmp1 y z), Hyz, Hxy in He. done.
Qed.
End Lex.

(** Sort keys: a comparison pulled back along a key function, descending keys. *)
Definition cmp_on {A B} (f : A → B) (cmp : B → B → comparison) (x y : A) : comparison :=
  cmp (f x) (f y).
Definition leb_on {A B} (f : A → B) (le : B → B → bool) (x y : A) : bool := le (f x) (f y).
Definition cmp_desc {A} (cmp : A → A → comparison) (x y : A) : comparison := cmp y x.

#[global] Typeclasses Opaque lex_leb cmp_on leb_on cmp_desc Z.compare Z.leb Nat.leb
  String.compare String.leb.

#[global] Instance cmp_on_total {A B} (f : A → B) cmp `{!TotalCmp cmp} : TotalCmp (cmp_on f cmp).
Proof. split; unfold cmp_on; intros; [apply (cmp_antisym cmp)|by eapply (cmp_le_trans cmp)]. Qed.

#[global] Instance leb_on_total {A B} (f : A → B) le `{!TotalLeb le} : TotalLeb (leb_on f le).
Proof. split; unfold leb_on; intros; [apply leb_total|by eapply leb_trans]. Qed.

#[global] Instance cmp_desc_total {A} (cmp : A → A → comparison) `{!TotalCmp cmp} :
  TotalCmp (cmp_desc cmp).
Proof. split; unfold cmp_desc; intros; [apply (cmp_antisym cmp)|by eapply (cmp_le_trans cmp)]. Qed.

#[global] Instance Zcompare_total : TotalCmp Z.compare.
Proof.
  split; [intros; apply Z.compare_antisym|].
  intros x y z. rewrite !Z.compare_ngt_iff; lia.
Qed.

#[global] Instance Zleb_total : TotalLeb Z.leb.
Proof. split; intros; rewrite ?Z.leb_le in *; lia. Qed.

#[global] Instance natleb_total : TotalLeb Nat.leb.
Proof. split; intros; rewrite ?Nat.leb_le in *; lia. Qed.

Lemma string_compare_refl s : String.compare s s = Eq.
Proof.
  pose proof (String.compare_antisym s s) as H. destruct (String.compare s s); done.
Qed.

#[global] Instance string_compare_total : TotalCmp String.compare.
Proof.
  split; [intros x y; apply String.compare_antisym|].
  intros x y z H1 H2 H3.
  assert (Hlt : ∀ a b, String.compare a b = Lt ↔ String_as_OT.lt a b).
  { intros a b. rewrite <- String_as_OT.cmp_lt. done. }
  assert (Hzx : String.compare z x = Lt) by by rewrite String.compare_antisym, H3.
  destruct (String.compare x y) eqn:Hxy; [|clear H1|done].
  - apply String.compare_eq_iff in Hxy as ->. done.
  - destruct (String.compare y z) eqn:Hyz; [|clear H2|done].
    + apply String.compare_eq_iff in Hyz as ->. congruence.
    + apply Hlt in Hxy, Hyz, Hzx.
      pose proof (String_as_OT.lt_trans _ _ _ Hxy Hyz) as Hxz.
      pose proof (String_as_OT.lt_trans _ _ _ Hxz Hzx) as Hxx.
      by apply String_as_OT.lt_not_eq in Hxx.
Qed.

#[global] Instance stringleb_total : TotalLeb String.leb.
Proof.
  split; unfold String.leb.
  - intros x y. rewrite (String.compare_antisym y x).
    destruct (String.compare x y); cbn; tauto.
  - intros x y z H1 H2. pose proof (cmp_le_trans String.compare x y z) as H.
    destruct (String.compare x y), (String.compare y z); try done;
      destruct (String.compare x z); naive_solver.
Qed.

(** ** Sorting what is sorted, and prefixes of sorted lists *)

Lemma sorted_by_id {A} (le : A → A → bool) l :
  StronglySorted (λ a b, le a b = true) l → sorted_by le l = l.
Proof.
  induction 1 as [|x l Hl IH Hx]; cbn; [done|].
  change (foldr (insert_sorted le) [] l) with (sorted_by le l). rewrite IH.
  destruct Hx as [|y l Hy _]; cbn; [done|]. by rewrite Hy.
Qed.

(** Two sorted permutations agree when equal keys mean equal elements. *)
Lemma sorted_perm_eq {A} (le : A → A → bool) (l k : list A) :
  StronglySorted (λ a b, le a b = true) l → StronglySorted (λ a b, le a b = true) k → l ≡ₚ k →
  (∀ x y, x ∈ l → y ∈ l → le x y = true → le y x = true → x = y) → l = k.
Proof.
  intros Hl. revert k. induction Hl as [|x l Hl IH Hx]; intros k Hk Hp Hanti.
  { by apply Permutation_nil_l in Hp. }
  destruct k as [|y k]; [by apply Permutation_nil_r in Hp|].
  apply StronglySorted_inv in Hk as [Hk Hy].
  rewrite List.Forall_forall in Hx, Hy.
  assert (x = y) as <-.
  { assert (Hyl : y ∈ x :: l) by (rewrite Hp; by left). assert (Hxk : x ∈ y :: k) by (rewrite <- Hp; by left).
    apply elem_of_cons in Hyl as [-> |Hyl]; [done|]. apply elem_of_cons in Hxk as [-> |Hxk]; [done|].
    apply Hanti; [by left|by right|apply Hx; by apply list_elem_of_In|apply Hy; by apply list_elem_of_In]. }
  f_equal. apply IH; [done|by apply Permutation_cons_inv in Hp|].
  intros a b Ha Hb. apply Hanti; by right.
Qed.

Lemma StronglySorted_fmap {A B} (R : A → A → Prop) (S : B → B → Prop) (f : A → B) l :
  (∀ x y, R x y → S (f x) (f y)) → StronglySorted R l → StronglySorted S (f <$> l).
Proof.
  intros HRS. induction 1 as [|x l Hl IH Hx]; cbn; constructor; [done|].
  apply Forall_fmap. eapply Forall_impl; [done|]. auto.
Qed.

Lemma StronglySorted_filter {A} (R : A → A → Prop) (P : A → bool) l :
  StronglySorted R l → StronglySorted R (List.filter P l).
Proof.
  induction 1 as [|x l Hl IH Hx]; cbn; [constructor|].
  destruct (P x); [|done]. constructor; [done|].
  apply List.Forall_forall. intros y [Hy _]%filter_In.
  by eapply List.Forall_forall in Hx.
Qed.

Lemma StronglySorted_take {A} (R : A → A → Prop) n l :
  StronglySorted R l → StronglySorted R (take n l).
Proof.
  intros H. revert n. induction H as [|x l Hl IH Hx]; intros [|n]; cbn; try constructor; [done|].
  by apply Forall_take.
Qed.

(** What the prefix left out comes no earlier than anything in it. *)
Lemma StronglySorted_left_out {A} (R : A → A → Prop) n l x y :
  StronglySorted R l → x ∈ take n l → y ∈ l → y ∉ take n l → R x y.
Proof.
  intros H. revert n. induction H as [|z l Hl IH Hz]; intros [|n]; cbn;
    rewrite ?elem_of_nil, ?elem_of_cons; try tauto.
  intros [->|Hx] [->|Hy] Hny; try (by destruct Hny; left).
  - rewrite List.Forall_forall in Hz. apply Hz. by apply list_elem_of_In.
  - apply (IH n); [done..|]. contradict Hny. by right.
Qed.

Lemma take_full {A} n (l : list A) y : y ∈ l → y ∉ take n l → length (take n l) = n.
Proof.
  intros Hy Hny. rewrite length_take. destruct (decide (n ≤ length l)%nat); [lia|].
  rewrite take_ge in Hny by lia. done.
Qed.

(** ** Strings *)

Lemma string_app_cons c s t : String c s +:+ t = String c (s +:+ t).
Proof. reflexivity. Qed.

Lemma string_app_empty s : s +:+ "" = s.
Proof. induction s as [|c s IH]; [done|]. by rewrite string_app_cons, IH. Qed.

Lemma string_app_assoc s t u : s +:+ (t +:+ u) = (s +:+ t) +:+ u.
Proof. induction s as [|c s IH]; [done|]. by rewrite !string_app_cons, IH. Qed.

Lemma string_length_app s t : String.length (s +:+ t) = (String.length s + String.length t)%nat.
Proof. induction s as [|c s IH]; [done|]. rewrite string_app_cons. cbn. by rewrite IH. Qed.

Lemma string_concat_cons s l : String.concat "" (s :: l) = s +:+ String.concat "" l.
Proof. destruct l; cbn; [by rewrite string_app_empty|done]. Qed.
