(* ===== verification/Text.v ===== *)
(** Character classes and the anchored patterns ([re.fullmatch]) with which the
    repositories validate owners, error codes, digests and keys. *)

From Stdlib Require Import Ascii.
From S2P Require Import Prelude.

Definition in_range (lo hi c : ascii) : bool :=
  Nat.leb (nat_of_ascii lo) (nat_of_ascii c) && Nat.leb (nat_of_ascii c) (nat_of_ascii hi).

Definition is_lower : ascii → bool := in_range "a" "z".
Definition is_upper : ascii → bool := in_range "A" "Z".
Definition is_digit : ascii → bool := in_range "0" "9".
Definition is_alpha (c : ascii) : bool := is_lower c || is_upper c.
Definition is_alnum (c : ascii) : bool := is_alpha c || is_digit c.
Definition is_hex (c : ascii) : bool := is_digit c || in_range "a" "f" c.

(** Membership of a character in a literal set such as [._-]. *)
Definition one_of (set : string) (c : ascii) : bool :=
  existsb (Ascii.eqb c) (String.list_ascii_of_string set).

Definition all_chars (p : ascii → bool) (s : string) : bool :=
  forallb p (String.list_ascii_of_string s).

(** [^[p]{lo,hi}$] *)
Definition run_match (p : ascii → bool) (lo hi : nat) (s : string) : bool :=
  all_chars p s && Nat.leb lo (String.length s) && Nat.leb (String.length s) hi.

(** [^[p][q]{0,hi}$] *)
Definition head_match (p q : ascii → bool) (hi : nat) (s : string) : bool :=
  match s with
  | EmptyString => false
  | String c s' => p c && run_match q 0 hi s'
  end.

(** [take_run p n l]: the rest of [l] after [n] characters of class [p]. *)
Fixpoint take_run (p : ascii → bool) (n : nat) (l : list ascii) : option (list ascii) :=
  match n, l with
  | O, _ => Some l
  | S n', c :: l' => if p c then take_run p n' l' else None
  | S _, [] => None
  end.

(** A sequence of runs, such as the groups of a UUID. *)
Fixpoint take_runs (ps : list ((ascii → bool) * nat)) (l : list ascii) : option (list ascii) :=
  match ps with
  | [] => Some l
  | (p, n) :: ps' => match take_run p n l with Some l' => take_runs ps' l' | None => None end
  end.

(** [(^|[^edge]) ps ([^edge]|$)] found anywhere in the text. *)
Fixpoint search_runs (edge : ascii → bool) (ps : list ((ascii → bool) * nat))
    (before : bool) (l : list ascii) : bool :=
  (before && match take_runs ps l with
             | Some [] => true
             | Some (c :: _) => negb (edge c)
             | None => false
             end)
  || match l with [] => false | c :: l' => search_runs edge ps (negb (edge c)) l' end.

(** Case-insensitive hexadecimal digits, and one given letter in either case. *)
Definition is_hex_ci (c : ascii) : bool := is_hex c || in_range "A" "F" c.

(** The personal identifiers no key may contain: a run of exactly 13 digits, an
    [sp1_] pseudonym, a UUID. *)
Definition has_personal_code (s : string) : bool :=
  let l := String.list_ascii_of_string s in
  search_runs is_digit [(is_digit, 13%nat)] true l
  || search_runs (λ _, false)
       [(one_of "sS", 1%nat); (one_of "pP", 1%nat); (one_of "1", 1%nat); (one_of "_", 1%nat);
        (is_hex_ci, 64%nat)] true l
  || search_runs is_hex_ci
       [(is_hex_ci, 8%nat); (one_of "-", 1%nat); (is_hex_ci, 4%nat); (one_of "-", 1%nat);
        (is_hex_ci, 4%nat); (one_of "-", 1%nat); (is_hex_ci, 4%nat); (one_of "-", 1%nat);
        (is_hex_ci, 12%nat)] true l.

(** [str.strip()] on blank ASCII characters. *)
Definition is_space (c : ascii) : bool :=
  let n := nat_of_ascii c in
  (Nat.leb 9 n && Nat.leb n 13) || (Nat.leb 28 n && Nat.leb n 32).

Fixpoint lstrip (l : list ascii) : list ascii :=
  match l with
  | [] => []
  | c :: l' => if is_space c then lstrip l' else l
  end.

Definition strip (s : string) : string :=
  String.string_of_list_ascii (rev (lstrip (rev (lstrip (String.list_ascii_of_string s))))).

(** The maximal runs of a class: [re.findall("[p]+", s)], and [s.split()] for
    the characters that are not blank. *)
Fixpoint runs (p : ascii → bool) (current : list ascii) (l : list ascii) : list (list ascii) :=
  match l with
  | [] => match current with [] => [] | _ => [rev current] end
  | c :: l' =>
      if p c then runs p (c :: current) l'
      else match current with [] => runs p [] l' | _ => rev current :: runs p [] l' end
  end.
Definition words (p : ascii → bool) (s : string) : list string :=
  String.string_of_list_ascii <$> runs p [] (String.list_ascii_of_string s).

(** A wider character class accepts what a narrower one accepts. *)
Lemma run_match_mono (p q : ascii → bool) lo hi s :
  (∀ c, p c = true → q c = true) → run_match p lo hi s = true → run_match q lo hi s = true.
Proof.
  intros Hpq. unfold run_match, all_chars. rewrite !andb_true_iff, !forallb_forall.
  intros [[Hall ?] ?]. auto.
Qed.

Lemma head_match_mono (p q q' : ascii → bool) hi s :
  (∀ c, q c = true → q' c = true) → head_match p q hi s = true → head_match p q' hi s = true.
Proof.
  destruct s as [|c s]; cbn; [done|]. intros Hq. rewrite !andb_true_iff.
  intros [? ?]. split; [done|]. by eapply run_match_mono.
Qed.
