(* ===== verification/Table.v ===== *)
(** A keyed SQL table whose rows are updated behind a BEFORE UPDATE trigger and a
    CHECK constraint, shared by the repositories that have such a table. *)

From S2P Require Import Prelude.

Section Table.
Context {R E : Type} (guard : R → R → bool) (check : R → bool) (trigger_error check_error : E).

Notation table := (gmap Z R).

(** [UPDATE t SET f WHERE key = k]: no row, no effect. *)
Definition update_key (k : Z) (f : R → R) (t : table) : res E table :=
  match t !! k with
  | None => Ok t
  | Some r =>
      _ ← raise_if (negb (guard r (f r))) trigger_error;
      _ ← raise_if (negb (check (f r))) check_error;
      Ok (<[k := f r]> t)
  end.

(** [UPDATE t SET f WHERE p], row by row over the keys selected first. *)
Definition update_keys (ks : list Z) (f : R → R) (t : table) : res E table :=
  foldR (λ t' k, update_key k f t') t ks.

Definition select_keys (p : R → bool) (t : table) : list Z :=
  fst <$> List.filter (λ kr, p kr.2) (map_to_list t).

(** [UPDATE t SET f WHERE key = k AND p RETURNING t.*]. *)
Definition update_returning (k : Z) (p : R → bool) (f : R → R) (t : table)
    : res E (option R * table) :=
  match t !! k with
  | Some r => if p r then t' ← update_key k f t; Ok (Some (f r), t') else Ok (None, t)
  | None => Ok (None, t)
  end.

Lemma update_key_Ok k f t t' :
  update_key k f t = Ok t' →
  (t !! k = None ∧ t' = t) ∨
  ∃ r, t !! k = Some r ∧ guard r (f r) = true ∧ check (f r) = true ∧ t' = <[k := f r]> t.
Proof.
  unfold update_key. destruct (t !! k) as [r|] eqn:Hr; [|intros [= <-]; by left].
  intros H. inv_res. bool_prop. right. by exists r.
Qed.

Lemma update_returning_Ok k p f t o t' :
  update_returning k p f t = Ok (o, t') →
  (o = None ∧ t' = t ∧ ∀ r, t !! k = Some r → p r = false) ∨
  ∃ r, t !! k = Some r ∧ p r = true ∧ guard r (f r) = true ∧ check (f r) = true ∧
       o = Some (f r) ∧ t' = <[k := f r]> t.
Proof.
  unfold update_returning. destruct (t !! k) as [r|] eqn:Hr.
  - destruct (p r) eqn:Hp; intros H; inv_res; simplify_eq.
    + right. exists r. apply update_key_Ok in Hv as [[? _]|(x & Hx & ? & ? & ->)]; [congruence|].
      assert (x = r) as -> by congruence. done.
    + left. split_and!; [done..|]. by intros x [= <-].
  - intros [= <- <-]. left. done.
Qed.

Lemma update_returning_run k p f t r :
  t !! k = Some r → p r = true → guard r (f r) = true → check (f r) = true →
  update_returning k p f t = Ok (Some (f r), <[k := f r]> t).
Proof.
  intros Hr Hp Hg Hc. unfold update_returning. rewrite Hr, Hp. unfold update_key.
  by rewrite Hr, Hg, Hc.
Qed.

Lemma update_returning_none k p f t :
  (∀ r, t !! k = Some r → p r = false) → update_returning k p f t = Ok (None, t).
Proof.
  intros Hp. unfold update_returning. destruct (t !! k) as [r|]; [|done]. by rewrite (Hp r eq_refl).
Qed.

Lemma update_returning_not_error e k p f t :
  (∀ r, t !! k = Some r → p r = true → guard r (f r) = true ∧ (check (f r) = true ∨ check_error ≠ e)) →
  update_returning k p f t ≠ Err e.
Proof.
  intros Hok H. unfold update_returning, update_key in H.
  destruct (t !! k) as [r|]; [|done]. destruct (p r) eqn:Hp; [|done].
  destruct (Hok r eq_refl Hp) as [Hg Hc]. rewrite Hg in H. cbn in H.
  destruct (check (f r)); cbn in H; [done|]. injection H as ->. by destruct Hc.
Qed.

Lemma elem_of_select_keys p t k : k ∈ select_keys p t ↔ ∃ r, t !! k = Some r ∧ p r = true.
Proof.
  unfold select_keys. rewrite list_elem_of_fmap. split.
  - intros ([j r] & -> & [Hin Hp]%list_elem_of_In%filter_In).
    apply list_elem_of_In, elem_of_map_to_list in Hin. by exists r.
  - intros (r & Hr & Hp). exists (k, r). split; [done|].
    apply list_elem_of_In, filter_In. by rewrite <- list_elem_of_In, elem_of_map_to_list.
Qed.

Lemma NoDup_select_keys p t : NoDup (select_keys p t).
Proof. apply NoDup_fmap_filter, NoDup_fst_map_to_list. Qed.

Lemma update_key_lookup k f t t' i :
  update_key k f t = Ok t' → t' !! i = (if decide (i = k) then f <$> t !! i else t !! i).
Proof.
  intros [(Hr & ->)|(r & Hr & _ & _ & ->)]%update_key_Ok; case_decide; subst; try done.
  - by rewrite Hr.
  - by rewrite lookup_insert_eq, Hr.
  - by rewrite lookup_insert_ne.
Qed.

Lemma update_keys_lookup ks f t t' :
  NoDup ks → update_keys ks f t = Ok t' →
  ∀ i, t' !! i = (if decide (i ∈ ks) then f <$> t !! i else t !! i).
Proof.
  unfold update_keys. intros Hnd. revert t. induction Hnd as [|k ks Hk Hnd IH]; intros t; cbn.
  - by intros [= <-].
  - intros (t1 & H1 & H2)%bind_Ok i. rewrite (IH _ H2), (update_key_lookup _ _ _ _ i H1).
    clear IH. repeat case_decide; set_solver.
Qed.

(** Each updated row was accepted. *)
Lemma update_keys_accepted ks f t t' k r :
  NoDup ks → update_keys ks f t = Ok t' → k ∈ ks → t !! k = Some r →
  guard r (f r) = true ∧ check (f r) = true.
Proof.
  unfold update_keys. intros Hnd. revert t. induction Hnd as [|x ks Hx Hnd IH]; intros t; cbn.
  - intros _ Hin. by apply elem_of_nil in Hin.
  - intros (t1 & H1 & H2)%bind_Ok [->|Hin]%elem_of_cons Hr.
    + apply update_key_Ok in H1 as [[? _]|(y & Hy & ? & ? & _)]; [congruence|].
      assert (y = r) as -> by congruence. done.
    + apply (IH _ H2); [done|]. rewrite (update_key_lookup _ _ _ _ k H1), decide_False; [done|].
      by intros ->.
Qed.

Lemma update_keys_Err ks f t e :
  update_keys ks f t = Err e → e = trigger_error ∨ e = check_error.
Proof.
  unfold update_keys. revert t. induction ks as [|k ks IH]; intros t; cbn; [done|].
  intros [H|(t1 & _ & H)]%bind_Err; [|by eapply IH].
  unfold update_key in H. destruct (t !! k) as [x|]; [|done].
  destruct (guard x (f x)), (check (f x)); cbn in H; inv_res; auto.
Qed.

Lemma update_keys_run ks f t :
  NoDup ks → (∀ k r, k ∈ ks → t !! k = Some r → guard r (f r) = true ∧ check (f r) = true) →
  ∃ t', update_keys ks f t = Ok t'.
Proof.
  unfold update_keys. intros Hnd. revert t. induction Hnd as [|x ks Hx Hnd IH]; intros t Hok; cbn.
  - by eexists.
  - destruct (update_key x f t) as [t1|e] eqn:H1; cbn.
    + apply IH. intros k r Hk Hr. apply (Hok k); [by right|].
      rewrite (update_key_lookup _ _ _ _ k H1), decide_False in Hr; [done|]. by intros ->.
    + exfalso. unfold update_key in H1. destruct (t !! x) as [r|] eqn:Hr; [|done].
      destruct (Hok x r) as [Hg Hc]; [by left|done|]. by rewrite Hg, Hc in H1.
Qed.
End Table.
