(* ===== verification/Decimal.v ===== *)
(** Python's [decimal] module, as far as the Retail sources use it.

    A finite [Decimal] is an integer coefficient and a base-ten exponent.  Every
    operation takes the context precision [p] explicitly: 28 in the default
    context, 60 inside the allocator's [localcontext].  Addition,
    multiplication and division return the exact result rounded to [p] digits
    with ROUND_HALF_EVEN; [quantize] rounds to a given exponent with an explicit
    mode and raises when the result does not fit in [p] digits; comparisons are
    exact.  Not represented: NaN and infinities, the sign of zero, and the
    exponent limits (999999 in absolute value) of the context. *)

From Stdlib Require Import QArith Qpower Lqa.
From S2P Require Import Prelude.

Local Open Scope Z_scope.

Record dec := Dec { coef : Z; dexp : Z }.

#[global] Instance dec_eq_dec : EqDecision dec.
Proof. solve_decision. Defined.

#[global] Instance dec_inhabited : Inhabited dec := populate (Dec 0 0).

Inductive signal := InvalidOperation | DivisionByZero.

(** Default precision of the context, and the allocator's local precision. *)
Definition prec28 : Z := 28.
Definition prec60 : Z := 60.

Definition pow10 (n : Z) : Z := 10 ^ n.

Inductive rounding := HALF_EVEN | HALF_UP | FLOOR | DOWN.

(** [rdiv m a b] rounds the quotient [a / b] of an integer and a positive
    integer to an integer. *)
Definition rdiv (m : rounding) (a b : Z) : Z :=
  let q := Z.abs a / b in
  let r := Z.abs a mod b in
  match m with
  | FLOOR => a / b
  | DOWN => Z.sgn a * q
  | HALF_UP => Z.sgn a * (if b <=? 2 * r then q + 1 else q)
  | HALF_EVEN =>
      Z.sgn a * (if 2 * r <? b then q
                 else if b <? 2 * r then q + 1
                 else if Z.even q then q else q + 1)
  end.

(** Number of decimal digits of a non-negative integer (one for zero). *)
Fixpoint ndigits_aux (fuel : nat) (z : Z) : Z :=
  match fuel with
  | O => 1
  | S fuel' => if z <? 10 then 1 else 1 + ndigits_aux fuel' (z / 10)
  end.
Definition ndigits (z : Z) : Z := ndigits_aux (Z.to_nat (Z.log2 (Z.abs z))) (Z.abs z).

(** Rounding a coefficient to at most [p] digits; a carry out of the top digit
    moves one place into the exponent. *)
Definition fix_prec (p : Z) (d : dec) : dec :=
  if Z.abs (coef d) <? pow10 p then d
  else
    let drop := ndigits (coef d) - p in
    let c := rdiv HALF_EVEN (coef d) (pow10 drop) in
    if Z.abs c <? pow10 p then Dec c (dexp d + drop)
    else Dec (c / 10) (dexp d + drop + 1).

(** The coefficient of [d] at an exponent [e <= dexp d]. *)
Definition scaled (d : dec) (e : Z) : Z := coef d * pow10 (dexp d - e).

Definition dadd (p : Z) (a b : dec) : dec :=
  let e := Z.min (dexp a) (dexp b) in fix_prec p (Dec (scaled a e + scaled b e) e).
Definition dneg (a : dec) : dec := Dec (- coef a) (dexp a).
Definition dsub (p : Z) (a b : dec) : dec := dadd p a (dneg b).
Definition dabs (p : Z) (a : dec) : dec := fix_prec p (Dec (Z.abs (coef a)) (dexp a)).
Definition dmul (p : Z) (a b : dec) : dec :=
  fix_prec p (Dec (coef a * coef b) (dexp a + dexp b)).

(** Strips trailing zeros of an exact quotient up to the ideal exponent. *)
Fixpoint strip_zeros (fuel : nat) (c e ideal : Z) : dec :=
  match fuel with
  | O => Dec c e
  | S fuel' =>
      if (e <? ideal) && (c mod 10 =? 0) then strip_zeros fuel' (c / 10) (e + 1) ideal
      else Dec c e
  end.

Definition ddiv (p : Z) (a b : dec) : res signal dec :=
  if coef b =? 0 then
    Err (if coef a =? 0 then InvalidOperation else DivisionByZero)
  else if coef a =? 0 then Ok (Dec 0 (dexp a - dexp b))
  else
    let shift := ndigits (coef b) - ndigits (coef a) + p + 1 in
    let e := dexp a - dexp b - shift in
    let num := Z.abs (coef a) * (if 0 <=? shift then pow10 shift else 1) in
    let den := Z.abs (coef b) * (if 0 <=? shift then 1 else pow10 (- shift)) in
    let q := num / den in
    let r := num mod den in
    let s := Z.sgn (coef a) * Z.sgn (coef b) in
    Ok (fix_prec p
      (if r =? 0 then
         let d := strip_zeros (Z.to_nat (p + 2)) q e (dexp a - dexp b) in
         Dec (s * coef d) (dexp d)
       else Dec (s * (if q mod 5 =? 0 then q + 1 else q)) e)).

(** [a.quantize(Decimal((0, 1, e)), rounding=m)] *)
Definition quantize (p : Z) (m : rounding) (e : Z) (a : dec) : res signal dec :=
  let c := if e <=? dexp a then scaled a e else rdiv m (coef a) (pow10 (e - dexp a)) in
  if Z.abs c <? pow10 p then Ok (Dec c e) else Err InvalidOperation.

(** [a % b], with the sign of the dividend. *)
Definition drem (p : Z) (a b : dec) : res signal dec :=
  if coef b =? 0 then Err InvalidOperation
  else
    let e := Z.min (dexp a) (dexp b) in
    let x := Z.abs (scaled a e) in
    let y := Z.abs (scaled b e) in
    if x / y <? pow10 p then Ok (fix_prec p (Dec (Z.sgn (coef a) * (x mod y)) e))
    else Err InvalidOperation.

(** [a.to_integral_value(rounding=m)] and [int(a)] *)
Definition to_integral (m : rounding) (a : dec) : Z :=
  if 0 <=? dexp a then scaled a 0 else rdiv m (coef a) (pow10 (- dexp a)).
Definition to_int (a : dec) : Z := to_integral DOWN a.

Definition of_int (z : Z) : dec := Dec z 0.
Definition d0 : dec := of_int 0.
Definition d1 : dec := of_int 1.

Definition dcompare (a b : dec) : comparison :=
  let e := Z.min (dexp a) (dexp b) in Z.compare (scaled a e) (scaled b e).
Definition dltb (a b : dec) : bool := match dcompare a b with Lt => true | _ => false end.
Definition dleb (a b : dec) : bool := match dcompare a b with Gt => false | _ => true end.
Definition deqb (a b : dec) : bool := match dcompare a b with Eq => true | _ => false end.
(** [bool(a)] *)
Definition dbool (a : dec) : bool := negb (coef a =? 0).
(** [max] and [min] return the first of two equal arguments. *)
Definition dmax (a b : dec) : dec := if dltb a b then b else a.
Definition dmin (a b : dec) : dec := if dltb b a then b else a.

(** [sum(l, Decimal("0"))] in a context of precision [p]. *)
Definition dsum (p : Z) (l : list dec) : dec := foldl (dadd p) d0 l.

#[global] Arguments pow10 : simpl never.
#[global] Arguments fix_prec : simpl never.
#[global] Arguments dadd : simpl never.
#[global] Arguments dsub : simpl never.
#[global] Arguments dmul : simpl never.
#[global] Arguments ddiv : simpl never.
#[global] Arguments drem : simpl never.
#[global] Arguments quantize : simpl never.
#[global] Arguments dsum : simpl never.
#[global] Arguments rdiv : simpl never.
#[global] Arguments dltb : simpl never.
#[global] Arguments dleb : simpl never.
#[global] Arguments deqb : simpl never.

(** ** Values *)

Definition dval (d : dec) : Q := inject_Z (coef d) * (10 # 1) ^ dexp d.

Declare Scope dec_scope.
Delimit Scope dec_scope with dec.
Notation "⟦ d ⟧" := (dval d) (at level 0, format "⟦ d ⟧").

(** Two decimals are equivalent when they compare equal. *)
#[global] Instance dec_equiv : Equiv dec := λ a b, (⟦a⟧ == ⟦b⟧)%Q.

#[global] Instance dec_equivalence : Equivalence (≡@{dec}).
Proof.
  unfold equiv, dec_equiv.
  split; [intros x; reflexivity|intros x y; by symmetry|intros x y z; by etransitivity].
Qed.

Lemma pow10_pos n : 0 <= n → 0 < pow10 n.
Proof. intros. unfold pow10. apply Z.pow_pos_nonneg; lia. Qed.

Lemma pow10_add a b : 0 <= a → 0 <= b → pow10 (a + b) = pow10 a * pow10 b.
Proof. intros. unfold pow10. by rewrite Z.pow_add_r. Qed.

Lemma pow10_mono a b : 0 <= a <= b → pow10 a <= pow10 b.
Proof. intros. unfold pow10. apply Z.pow_le_mono_r; lia. Qed.

Lemma Qpow10_pos e : (0 < (10 # 1) ^ e)%Q.
Proof. apply Qpower_0_lt. done. Qed.

Lemma Qpow10_Z n : 0 <= n → ((10 # 1) ^ n == inject_Z (pow10 n))%Q.
Proof. intros. unfold pow10. by rewrite Zpower_Qpower. Qed.

Lemma Qpow10_add a b : ((10 # 1) ^ (a + b) == (10 # 1) ^ a * (10 # 1) ^ b)%Q.
Proof. apply Qpower_plus. done. Qed.

(** The coefficient at a lower exponent represents the same value. *)
Lemma scaled_val d e : e <= dexp d → (⟦d⟧ == inject_Z (scaled d e) * (10 # 1) ^ e)%Q.
Proof.
  intros He. unfold dval, scaled. rewrite inject_Z_mult, <- Qpow10_Z by lia.
  replace (dexp d) with ((dexp d - e) + e) at 1 by lia. rewrite Qpow10_add. ring.
Qed.

Lemma Qmult_pos_compare x y z : (0 < z)%Q → Qcompare (x * z) (y * z) = Qcompare x y.
Proof.
  intros Hz. destruct (Qcompare_spec x y) as [H|H|H].
  - apply Qeq_alt. by rewrite H.
  - apply Qlt_alt. by apply Qmult_lt_r.
  - apply Qgt_alt. by apply Qmult_lt_r.
Qed.

Lemma inject_Z_compare x y : Qcompare (inject_Z x) (inject_Z y) = Z.compare x y.
Proof. unfold Qcompare, inject_Z; cbn. by rewrite !Z.mul_1_r. Qed.

Lemma dcompare_val a b : dcompare a b = Qcompare ⟦a⟧ ⟦b⟧.
Proof.
  unfold dcompare. set (e := Z.min (dexp a) (dexp b)).
  rewrite (Qcompare_comp _ _ (scaled_val a e ltac:(lia)) _ _ (scaled_val b e ltac:(lia))).
  rewrite Qmult_pos_compare by apply Qpow10_pos. by rewrite inject_Z_compare.
Qed.

Lemma dltb_val a b : dltb a b = true ↔ (⟦a⟧ < ⟦b⟧)%Q.
Proof. unfold dltb. rewrite dcompare_val, Qlt_alt. destruct (⟦a⟧ ?= ⟦b⟧)%Q; naive_solver. Qed.

Lemma dleb_val a b : dleb a b = true ↔ (⟦a⟧ <= ⟦b⟧)%Q.
Proof. unfold dleb. rewrite dcompare_val, Qle_alt. destruct (⟦a⟧ ?= ⟦b⟧)%Q; naive_solver. Qed.

Lemma deqb_val a b : deqb a b = true ↔ a ≡ b.
Proof.
  unfold deqb, equiv, dec_equiv. rewrite dcompare_val, Qeq_alt.
  destruct (⟦a⟧ ?= ⟦b⟧)%Q; naive_solver.
Qed.

Lemma dltb_false a b : dltb a b = false ↔ (⟦b⟧ <= ⟦a⟧)%Q.
Proof.
  unfold dltb. rewrite dcompare_val.
  destruct (Qcompare_spec ⟦a⟧ ⟦b⟧); split; try done; lra.
Qed.

#[global] Instance dcompare_total : TotalCmp dcompare.
Proof.
  split; intros x y; rewrite ?dcompare_val.
  - by rewrite <- Qcompare_antisym.
  - intros z. rewrite !dcompare_val, <- !Qle_alt. apply Qle_trans.
Qed.

#[global] Instance dcompare_proper : Proper ((≡) ==> (≡) ==> eq) dcompare.
Proof. intros a b Hab c d Hcd. rewrite !dcompare_val. by apply Qcompare_comp. Qed.

(** ** Amounts in cents: decimals of exponent -2 *)

Definition cents (z : Z) : dec := Dec z (-2).

Lemma cents_val z : (⟦cents z⟧ == inject_Z z / 100)%Q.
Proof. unfold dval, cents; cbn. reflexivity. Qed.

Lemma dcompare_cents a b : dcompare (cents a) (cents b) = Z.compare a b.
Proof. unfold dcompare, scaled, cents; cbn. by rewrite !Z.mul_1_r. Qed.

Lemma dltb_cents a b : dltb (cents a) (cents b) = (a <? b).
Proof. unfold dltb. by rewrite dcompare_cents. Qed.

Lemma dleb_cents a b : dleb (cents a) (cents b) = (a <=? b).
Proof. unfold dleb. by rewrite dcompare_cents. Qed.

Lemma dltb_0_cents z : dltb d0 (cents z) = (0 <? z).
Proof. unfold dltb, dcompare, scaled; cbn. change (pow10 0) with 1. by rewrite Z.mul_1_r. Qed.

Lemma deqb_cents a b : deqb (cents a) (cents b) = (a =? b).
Proof. unfold deqb. rewrite dcompare_cents, Z.eqb_compare. done. Qed.

Lemma fix_prec_small p d : Z.abs (coef d) < pow10 p → fix_prec p d = d.
Proof. intros H. unfold fix_prec. by rewrite (proj2 (Z.ltb_lt _ _) H). Qed.

Lemma dadd_cents p a b : Z.abs (a + b) < pow10 p → dadd p (cents a) (cents b) = cents (a + b).
Proof.
  intros H. unfold dadd, scaled, cents; cbn. rewrite !Z.mul_1_r.
  by apply fix_prec_small.
Qed.

Lemma dneg_cents a : dneg (cents a) = cents (- a).
Proof. done. Qed.

Lemma dsub_cents p a b : Z.abs (a - b) < pow10 p → dsub p (cents a) (cents b) = cents (a - b).
Proof. intros H. unfold dsub. rewrite dneg_cents. by apply dadd_cents. Qed.

Lemma dadd_0_cents p a : Z.abs a < pow10 p → dadd p d0 (cents a) = cents a.
Proof.
  intros H. unfold dadd, scaled, cents, d0, of_int; cbn. rewrite !Z.mul_1_r.
  by apply fix_prec_small.
Qed.

Lemma quantize_cents p m a :
  Z.abs a < pow10 p → quantize p m (-2) (cents a) = Ok (cents a).
Proof.
  intros H. unfold quantize, scaled, cents; cbn. rewrite Z.mul_1_r.
  by rewrite (proj2 (Z.ltb_lt _ _) H).
Qed.

Lemma quantize_cents_inv p m a d : quantize p m (-2) (cents a) = Ok d → d = cents a.
Proof.
  unfold quantize, scaled, cents; cbn. change (pow10 0) with 1. rewrite Z.mul_1_r.
  case_match; by intros [= <-].
Qed.

Lemma quantize_Ok p m e a d :
  quantize p m e a = Ok d → dexp d = e ∧ Z.abs (coef d) < pow10 p.
Proof.
  unfold quantize. case_match eqn:Hb; intros; inv_res; cbn. by apply Z.ltb_lt in Hb.
Qed.

(** Sums of amounts in cents are exact as long as no partial sum overflows the
    precision. *)
Lemma dsum_cents_aux p l acc :
  Z.abs acc + sumZ (Z.abs <$> l) < pow10 p →
  foldl (dadd p) (cents acc) (cents <$> l) = cents (acc + sumZ l).
Proof.
  revert acc; induction l as [|a l IH]; intros acc Hp; cbn in *; [by rewrite Z.add_0_r|].
  pose proof (sumZ_nonneg (Z.abs <$> l)
    ltac:(apply Forall_fmap, Forall_true; intros; cbn; lia)).
  rewrite dadd_cents by lia. rewrite IH by lia. by rewrite Z.add_assoc.
Qed.

Lemma dsum_cents p l :
  l ≠ [] → sumZ (Z.abs <$> l) < pow10 p → dsum p (cents <$> l) = cents (sumZ l).
Proof.
  intros Hl Hp. destruct l as [|a l]; [done|]. unfold dsum; cbn in *.
  pose proof (sumZ_nonneg (Z.abs <$> l)
    ltac:(apply Forall_fmap, Forall_true; intros; cbn; lia)).
  rewrite dadd_0_cents by lia. by apply dsum_cents_aux.
Qed.

(** ** Exactness bounds of the rounding functions *)

Lemma rdiv_half_up_nonneg a b :
  0 <= a → 0 < b → rdiv HALF_UP a b = (2 * a + b) / (2 * b).
Proof.
  intros Ha Hb. unfold rdiv. rewrite Z.abs_eq by lia.
  pose proof (Z.div_mod a b ltac:(lia)) as Hdm. pose proof (Z.mod_pos_bound a b Hb) as Hr.
  set (q := a / b) in *. set (r := a mod b) in *.
  assert (Hq : (2 * a + b) / (2 * b) = if b <=? 2 * r then q + 1 else q).
  { symmetry. destruct (Z.leb_spec b (2 * r)).
    - apply Z.div_unique with (2 * r - b); nia.
    - apply Z.div_unique with (2 * r + b); nia. }
  rewrite Hq. destruct (Z.eq_dec a 0) as [->|].
  - subst q r. rewrite Z.div_0_l, Z.mod_0_l by lia.
    destruct (Z.leb_spec b (2 * 0)); lia.
  - rewrite Z.sgn_pos by lia. by rewrite Z.mul_1_l.
Qed.

(** Rounding half up moves a value by at most half a unit. *)
Lemma rdiv_half_up_error a b :
  0 < b → Z.abs (2 * a - 2 * b * rdiv HALF_UP a b) <= b.
Proof.
  intros Hb. unfold rdiv.
  pose proof (Z.div_mod (Z.abs a) b ltac:(lia)). pose proof (Z.mod_pos_bound (Z.abs a) b Hb).
  destruct (Z.leb_spec b (2 * (Z.abs a mod b))); destruct (Z.sgn_spec a) as [[]|[[]|[]]];
    rewrite ?H2, ?H3; nia.
Qed.

Lemma rdiv_floor a b : rdiv FLOOR a b = a / b.
Proof. done. Qed.

(** ** Digits, and what rounding to the precision can and cannot do *)

Lemma ndigits_aux_spec fuel z :
  0 < z < 2 ^ (Z.of_nat fuel + 1) →
  pow10 (ndigits_aux fuel z - 1) <= z < pow10 (ndigits_aux fuel z) ∧ 1 <= ndigits_aux fuel z.
Proof.
  revert z; induction fuel as [|fuel IH]; intros z Hz; cbn [ndigits_aux].
  { change (2 ^ (Z.of_nat 0 + 1)) with 2 in Hz. change (pow10 1) with 10.
    change (pow10 (1 - 1)) with 1. lia. }
  destruct (Z.ltb_spec z 10).
  { change (pow10 1) with 10. change (pow10 (1 - 1)) with 1. lia. }
  assert (Hpow : 2 ^ (Z.of_nat (S fuel) + 1) = 2 * 2 ^ (Z.of_nat fuel + 1)).
  { rewrite <- Z.pow_succ_r by lia. f_equal. lia. }
  pose proof (Z.div_mod z 10 ltac:(lia)). pose proof (Z.mod_pos_bound z 10 ltac:(lia)).
  destruct (IH (z / 10)) as [Hb Hn1]; [lia|].
  set (n := ndigits_aux fuel (z / 10)) in *.
  assert (Hs : pow10 (1 + n) = 10 * pow10 n) by (rewrite pow10_add; [done|lia|lia]).
  replace (1 + n - 1) with (1 + (n - 1)) by lia.
  rewrite (pow10_add 1 (n - 1)), Hs by lia. change (pow10 1) with 10. lia.
Qed.

Lemma ndigits_spec z :
  z ≠ 0 → pow10 (ndigits z - 1) <= Z.abs z < pow10 (ndigits z) ∧ 1 <= ndigits z.
Proof.
  intros Hz. unfold ndigits. apply ndigits_aux_spec.
  rewrite Z2Nat.id by apply Z.log2_nonneg. rewrite Z.add_1_r.
  pose proof (Z.log2_spec (Z.abs z)). lia.
Qed.

Lemma ndigits_gt p z : 0 <= p → pow10 p <= Z.abs z → p < ndigits z.
Proof.
  intros Hp Hz. pose proof (pow10_pos p Hp).
  destruct (ndigits_spec z) as [Hd H1]; [lia|].
  destruct (Z.lt_ge_cases p (ndigits z)); [done|].
  pose proof (pow10_mono (ndigits z) p). lia.
Qed.

(** Every rounding mode keeps the integer part of the quotient or moves away
    from zero by one unit. *)
Lemma rdiv_half_even_lower a b : 0 < b → Z.abs a / b <= Z.abs (rdiv HALF_EVEN a b).
Proof.
  intros Hb. unfold rdiv. pose proof (Z.div_pos (Z.abs a) b ltac:(lia) Hb) as Hq.
  destruct (Z.eq_dec a 0) as [->|Ha]; [cbn; by rewrite Z.div_0_l by lia|].
  repeat case_match; destruct (Z.sgn_spec a) as [[? ->]|[[? ?]|[? ->]]]; lia.
Qed.

(** Rounding away digits leaves a coefficient of full length, so the value no
    longer fits at the original exponent. *)
Lemma fix_prec_big p d :
  1 <= p → pow10 p <= Z.abs (coef d) →
  dexp d < dexp (fix_prec p d) ∧ pow10 p <= Z.abs (scaled (fix_prec p d) (dexp d)).
Proof.
  intros Hp Hbig. unfold fix_prec.
  rewrite (proj2 (Z.ltb_ge _ _) Hbig).
  pose proof (pow10_pos p ltac:(lia)).
  pose proof (ndigits_gt p (coef d) ltac:(lia) Hbig) as Hgt.
  destruct (ndigits_spec (coef d)) as [[Hlo _] _]; [lia|].
  set (drop := ndigits (coef d) - p) in *.
  set (c := rdiv HALF_EVEN (coef d) (pow10 drop)).
  assert (Hc : pow10 (p - 1) <= Z.abs c).
  { etransitivity; [|apply rdiv_half_even_lower, pow10_pos; lia].
    apply Z.div_le_lower_bound; [apply pow10_pos; lia|].
    rewrite <- pow10_add by lia. etransitivity; [|exact Hlo]. apply pow10_mono. lia. }
  assert (Hp1 : pow10 p = 10 * pow10 (p - 1)).
  { replace p with (1 + (p - 1)) at 1 by lia. rewrite pow10_add by lia. done. }
  pose proof (pow10_pos (p - 1) ltac:(lia)).
  assert (Hd1 : 10 <= pow10 drop).
  { change 10 with (pow10 1). apply pow10_mono. lia. }
  clearbody c. unfold scaled. destruct (Z.ltb_spec (Z.abs c) (pow10 p)); cbn; (split; [lia|]);
    rewrite Z.abs_mul.
  - replace (dexp d + drop - dexp d) with drop by lia.
    rewrite (Z.abs_eq (pow10 drop)), Hp1, Z.mul_comm by lia.
    apply Z.mul_le_mono_nonneg; lia.
  - replace (dexp d + drop + 1 - dexp d) with (drop + 1) by lia.
    rewrite pow10_add by lia. change (pow10 1) with 10.
    pose proof (Z.div_mod c 10 ltac:(lia)). pose proof (Z.mod_pos_bound c 10 ltac:(lia)).
    assert (pow10 (p - 1) <= Z.abs (c / 10)) by lia.
    rewrite (Z.abs_eq (pow10 drop * 10)), Hp1, Z.mul_comm by lia.
    apply Z.mul_le_mono_nonneg; lia.
Qed.

Lemma quantize_fix_cents p m z d :
  1 <= p → quantize p m (-2) (fix_prec p (cents z)) = Ok d → d = cents z.
Proof.
  intros Hp. destruct (Z.lt_ge_cases (Z.abs z) (pow10 p)) as [Hs|Hs].
  { rewrite fix_prec_small by done. rewrite quantize_cents by done. by intros [= <-]. }
  destruct (fix_prec_big p (cents z) Hp Hs) as [He Hb]; cbn in He, Hb.
  unfold quantize. rewrite (proj2 (Z.leb_le _ _)) by lia.
  rewrite (proj2 (Z.ltb_ge _ _)) by done. done.
Qed.

(** A sum or difference of amounts that survives [money] is exact. *)
Lemma quantize_dadd_cents p m a b d :
  1 <= p → quantize p m (-2) (dadd p (cents a) (cents b)) = Ok d → d = cents (a + b).
Proof.
  intros Hp. unfold dadd, scaled; cbn. rewrite !Z.mul_1_r. by apply quantize_fix_cents.
Qed.

Lemma quantize_dsub_cents p m a b d :
  1 <= p → quantize p m (-2) (dsub p (cents a) (cents b)) = Ok d → d = cents (a - b).
Proof. intros Hp. unfold dsub. rewrite dneg_cents. by apply quantize_dadd_cents. Qed.

Lemma cents_coef d : dexp d = -2 → d = cents (coef d).
Proof. destruct d; cbn. by intros ->. Qed.

Lemma rdiv_half_even_nonpos a b : 0 < b → a <= 0 → rdiv HALF_EVEN a b <= 0.
Proof.
  intros Hb Ha. unfold rdiv. pose proof (Z.div_pos (Z.abs a) b ltac:(lia) Hb).
  apply Z.mul_nonpos_nonneg; [lia|]. repeat case_match; lia.
Qed.

Lemma fix_prec_nonpos p d : 1 <= p → coef d <= 0 → coef (fix_prec p d) <= 0.
Proof.
  intros Hp Hd. unfold fix_prec. case_match eqn:Hlt; [done|]. bool_prop.
  pose proof (ndigits_gt p (coef d) ltac:(lia) Hlt).
  pose proof (pow10_pos (ndigits (coef d) - p) ltac:(lia)) as Hpos.
  pose proof (rdiv_half_even_nonpos _ _ Hpos Hd).
  case_match; cbn; [done|]. apply Z.div_le_upper_bound; lia.
Qed.

Lemma dval_nonpos d : coef d <= 0 → (⟦d⟧ <= 0)%Q.
Proof.
  intros Hd. unfold dval. pose proof (Qpow10_pos (dexp d)).
  assert (inject_Z (coef d) <= 0)%Q by (unfold Qle, inject_Z; cbn; lia). nra.
Qed.

Lemma dsub_cents_at_least p a b :
  1 <= p → dleb (cents 1) (dsub p (cents a) (cents b)) = true → b + 1 <= a.
Proof.
  intros Hp H%dleb_val. destruct (Z.le_gt_cases (b + 1) a) as [|Hlt]; [done|]. exfalso.
  assert (Hn : (⟦dsub p (cents a) (cents b)⟧ <= 0)%Q).
  { apply dval_nonpos. unfold dsub, dadd, scaled; cbn. apply fix_prec_nonpos; [done|].
    cbn. change (pow10 (-2 - Z.min (-2) (-2))) with 1. lia. }
  rewrite cents_val in H. change (inject_Z 1 / 100)%Q with (1 # 100)%Q in H. lra.
Qed.

(** Rounding half up to cents never goes below an amount in cents that was not
    above the value. *)
Lemma quantize_half_up_ge p d f z :
  dltb d (cents f) = false → quantize p HALF_UP (-2) d = Ok (cents z) → f <= z.
Proof.
  intros Hge. unfold quantize. case_match; [|done]. intros [= Hz]. revert Hz.
  unfold dltb, dcompare, scaled in *; cbn in Hge.
  destruct (Z.leb_spec (-2) (dexp d)) as [He|He].
  - rewrite (Z.min_r (dexp d)) in Hge by lia. change (pow10 (-2 - -2)) with 1 in Hge.
    intros <-. rewrite Z.mul_1_r in Hge.
    destruct (Z.compare_spec (coef d * pow10 (dexp d - -2)) f); done || lia.
  - rewrite (Z.min_l (dexp d)), Z.sub_diag in Hge by lia. change (pow10 0) with 1 in Hge.
    pose proof (pow10_pos (-2 - dexp d) ltac:(lia)) as Hp.
    pose proof (rdiv_half_up_error (coef d) (pow10 (-2 - dexp d)) Hp) as Herr.
    intros <-. set (b := pow10 (-2 - dexp d)) in *. set (q := rdiv _ _ _) in *.
    assert (f * b <= coef d).
    { destruct (Z.compare_spec (coef d * 1) (f * b)); done || lia. }
    clearbody q b. nia.
Qed.
