(* ===== verification/Dict.v ===== *)
(** Python dictionaries whose insertion order matters: association lists with distinct
    keys, where an assignment replaces the value in place or appends the key. *)

From S2P Require Import Prelude.

Local Open Scope Z_scope.

Section Dict.
Context {K V : Type} `{EqDecision K}.
Implicit Types (d : list (K * V)) (k : K).

(** [d.get(k)] *)
Fixpoint dget (k : K) (d : list (K * V)) : option V :=
  match d with
  | [] => None
  | (k', v) :: d' => if decide (k = k') then Some v else dget k d'
  end.

(** [d[k] = v] *)
Fixpoint dput (k : K) (v : V) (d : list (K * V)) : list (K * V) :=
  match d with
  | [] => [(k, v)]
  | (k', v') :: d' => if decide (k = k') then (k, v) :: d' else (k', v') :: dput k v d'
  end.

Lemma dget_dput k v d j : dget j (dput k v d) = if decide (j = k) then Some v else dget j d.
Proof.
  induction d as [|[k' v'] d IH]; cbn; [done|].
  destruct (decide (k = k')) as [<-|]; cbn; [by repeat case_decide|].
  rewrite IH. repeat case_decide; by subst.
Qed.

Lemma dget_here k v d : dget k ((k, v) :: d) = Some v.
Proof. cbn. by rewrite decide_True. Qed.
Lemma dget_there k k' v d : k ≠ k' → dget k ((k', v) :: d) = dget k d.
Proof. intros Hne. cbn. by rewrite decide_False. Qed.

Lemma dput_keys k v d :
  (dput k v d).*1 = if decide (k ∈ d.*1) then d.*1 else d.*1 ++ [k].
Proof.
  induction d as [|[k' v'] d IH]; cbn; [by rewrite decide_False by apply not_elem_of_nil|].
  destruct (decide (k = k')) as [<-|Hne]; cbn; [by rewrite decide_True by (by left)|].
  rewrite IH. repeat case_decide; cbn; try done; exfalso; set_solver.
Qed.

Lemma dput_NoDup k v d : NoDup d.*1 → NoDup (dput k v d).*1.
Proof.
  intros H. rewrite dput_keys. case_decide; [done|]. apply NoDup_app. split_and!; [done| |].
  - by intros x Hx ->%list_elem_of_singleton.
  - apply NoDup_singleton.
Qed.

Lemma elem_of_dput_keys k v d j : j ∈ (dput k v d).*1 ↔ j = k ∨ j ∈ d.*1.
Proof.
  rewrite dput_keys. case_decide; [|rewrite elem_of_app, list_elem_of_singleton; tauto].
  split; [by right|by intros [-> |]].
Qed.

Lemma dget_None k d : dget k d = None ↔ k ∉ d.*1.
Proof.
  induction d as [|[k' v] d IH]; cbn; [split; [intros _; apply not_elem_of_nil|done]|].
  rewrite not_elem_of_cons. case_decide; naive_solver.
Qed.

Lemma dget_is_Some k d : is_Some (dget k d) ↔ k ∈ d.*1.
Proof. rewrite <- not_eq_None_Some, dget_None. split; [apply dec_stable|by intros ? ?]. Qed.

Lemma dget_elem k v d : NoDup d.*1 → (k, v) ∈ d ↔ dget k d = Some v.
Proof.
  intros Hnd. induction d as [|[k' w] d IH]; cbn in *; [by rewrite elem_of_nil|].
  apply NoDup_cons in Hnd as [Hk Hnd]. rewrite elem_of_cons, IH by done.
  case_decide; subst.
  - split; [|intros [= ->]; by left]. intros [[= ->]|H]; [done|].
    destruct Hk. apply dget_is_Some. by eexists.
  - split; [|by right]. by intros [[= -> ->]|].
Qed.

(** A dictionary is the list of its keys with their values. *)
Lemma dict_expand d (f : K * V → Z) :
  NoDup d.*1 → sumZ (f <$> d) = sumZ ((λ k, default 0 (f ∘ (k,.) <$> dget k d)) <$> d.*1).
Proof.
  intros Hnd. induction d as [|[k v] d IH]; cbn; [done|]. apply NoDup_cons in Hnd as [Hk Hnd].
  rewrite decide_True by done. cbn. f_equal. rewrite IH by done. f_equal.
  apply list_fmap_ext. intros ? j Hj%list_elem_of_lookup_2. rewrite decide_False; [done|]. by intros ->.
Qed.
End Dict.

(** ** Counters *)

Section Counter.
Context {K : Type} `{EqDecision K}.

(** [d[k] = d.get(k, 0) + z] *)
Definition dadd_to (k : K) (z : Z) (d : list (K * Z)) : list (K * Z) :=
  dput k (default 0 (dget k d) + z) d.

Definition dtotal (d : list (K * Z)) : Z := sumZ d.*2.

(** The total over the keys that satisfy [P]. *)
Definition dtotal_if (P : K → bool) (d : list (K * Z)) : Z :=
  sumZ ((λ x, if P x.1 then x.2 else 0) <$> d).

Lemma dput_total_if P k z d :
  dtotal_if P (dput k z d) = dtotal_if P d + (if P k then z - default 0 (dget k d) else 0).
Proof.
  unfold dtotal_if. induction d as [|[k' v] d IH]; cbn; [destruct (P k); lia|].
  destruct (decide (k = k')) as [<-|]; cbn; [destruct (P k); lia|rewrite IH; lia].
Qed.

Lemma dadd_to_total_if P k z d :
  dtotal_if P (dadd_to k z d) = dtotal_if P d + (if P k then z else 0).
Proof. unfold dadd_to. rewrite dput_total_if. destruct (P k); lia. Qed.

Lemma dtotal_if_true (d : list (K * Z)) : dtotal_if (λ _, true) d = dtotal d.
Proof. reflexivity. Qed.

Lemma dput_total k z (d : list (K * Z)) : dtotal (dput k z d) = dtotal d + z - default 0 (dget k d).
Proof. rewrite <- dtotal_if_true, dput_total_if. rewrite (dtotal_if_true d). lia. Qed.

Lemma dadd_to_total k z (d : list (K * Z)) : dtotal (dadd_to k z d) = dtotal d + z.
Proof. unfold dadd_to. rewrite dput_total. lia. Qed.
End Counter.

(** Lookups with literal keys in a literal dictionary. *)
Ltac dget_fields :=
  repeat match goal with
  | |- context [dget ?k ((?k, _) :: _)] => rewrite dget_here
  | |- context [dget ?k ((_, _) :: _)] => rewrite (dget_there k) by done
  | H : context [dget ?k ((?k, _) :: _)] |- _ => rewrite dget_here in H
  | H : context [dget ?k ((_, _) :: _)] |- _ => rewrite (dget_there k) in H by done
  end.
