(* ===== verification/Json.v ===== *)
(** JSON values as Python's [json] module decodes them, their fields and their
    equality. *)

From Stdlib Require Import QArith.
From S2P Require Import Prelude Dict.

Local Open Scope Z_scope.

Inductive json :=
| JNull
| JBool (b : bool)
| JInt (z : Z)
| JReal (q : Q)
| JStr (s : string)
| JArr (items : list json)
| JObj (fields : list (string * json)).

Definition jget (key : string) (fields : list (string * json)) : json :=
  default JNull (dget key fields).

Definition jnumber (v : json) : option Q :=
  match v with
  | JBool b => Some (inject_Z (Z.b2z b))
  | JInt z => Some (inject_Z z)
  | JReal q => Some q
  | _ => None
  end.

(** [d.get(key, d0)]. *)
Definition jget_or (key : string) (d0 : json) (fields : list (string * json)) : json :=
  default d0 (dget key fields).

(** [bool(v)]. *)
Definition truthy (v : json) : bool :=
  match v with
  | JNull => false
  | JBool b => b
  | JInt z => negb (z =? 0)
  | JReal q => negb (Qeq_bool q 0)
  | JStr s => negb (bool_decide (s = ""%string))
  | JArr l => match l with [] => false | _ => true end
  | JObj f => match f with [] => false | _ => true end
  end.

(** Python's [==]: numbers by value, objects whatever the order of their keys. *)
Fixpoint json_eqb (a b : json) : bool :=
  match a, b with
  | JNull, JNull => true
  | JStr s, JStr t => bool_decide (s = t)
  | JArr l, JArr k =>
      (fix go l k := match l, k with
                     | [], [] => true
                     | x :: l', y :: k' => json_eqb x y && go l' k'
                     | _, _ => false
                     end) l k
  | JObj f, JObj g =>
      Nat.eqb (length f) (length g)
      && (fix go f := match f with
                      | [] => true
                      | (k, v) :: f' =>
                          match dget k g with Some w => json_eqb v w | None => false end && go f'
                      end) f
  | _, _ => match jnumber a, jnumber b with Some p, Some q => Qeq_bool p q | _, _ => false end
  end.

Lemma json_eqb_str v s : json_eqb v (JStr s) = true → v = JStr s.
Proof. destruct v; cbn; try done. by intros ->%bool_decide_eq_true. Qed.

Lemma json_eqb_str_l v s : json_eqb (JStr s) v = true → v = JStr s.
Proof. destruct v; cbn; try done. by intros ->%bool_decide_eq_true. Qed.

Lemma json_eqb_get f g k v :
  json_eqb (JObj f) (JObj g) = true → dget k f = Some v →
  ∃ w, dget k g = Some w ∧ json_eqb v w = true.
Proof.
  cbn [json_eqb]. intros [_ H]%andb_true_iff. revert H.
  induction f as [|[k' v'] f IH]; cbn; [done|].
  intros [H1 H2]%andb_true_iff. destruct (decide (k = k')) as [<-|].
  - intros [= <-]. destruct (dget k g) as [w|]; [|done]. by exists w.
  - by apply IH.
Qed.

Lemma json_eqb_int_trans a b z :
  json_eqb a b = true → json_eqb b (JInt z) = true → json_eqb a (JInt z) = true.
Proof.
  destruct a, b; cbn; rewrite ?andb_false_r; try done;
    intros H1%Qeq_bool_iff H2%Qeq_bool_iff;
    apply Qeq_bool_iff; by etransitivity.
Qed.
