(* ===== verification/Coro.v ===== *)
(** Coroutines: programs that stop at every request to the world outside them
    and go on with its answer, with the exceptions, the [try] and the shielded
    tasks of the [asyncio] code; their runs against a world that others change in
    between, and a program logic for them. *)

From S2P Require Import Prelude.

Module Coro.

Section Coroutines.
(** The requests, the type of the answer to each, the exceptions. *)
Context {Port : Type} {ans : Port → Type} {X : Type}.

(** A request is answered by a value or an exception.  A [Patient] one is made
    by a task that another waits for behind a shield: [None] means that the wait
    was cancelled and the task goes on by itself. *)
Inductive request := Req (p : Port) | Patient (q : request).

Fixpoint answer (q : request) : Type :=
  match q with Req p => res X (ans p) | Patient q => option (answer q) end.

Inductive coro (A : Type) : Type :=
| Done (r : res X A)
| Await (q : request) (k : answer q → coro A).
Arguments Done {A} r.
Arguments Await {A} q k.

(** The result of [m], value or exception, handled by [f]. *)
Fixpoint handle {A B} (m : coro A) (f : res X A → coro B) : coro B :=
  match m with
  | Done r => f r
  | Await q k => Await q (λ a, handle (k a) f)
  end.

#[global] Instance coro_ret : MRet coro := λ A a, Done (Ok a).
#[global] Instance coro_bind : MBind coro := λ A B f m,
  handle m (λ r, match r with Ok a => f a | Err e => Done (Err e) end).

Definition raise {A} (e : X) : coro A := Done (Err e).
Definition lift {A} (r : res X A) : coro A := Done r.

(** [try: m; except e: h(e)]. *)
Definition try_ {A} (m : coro A) (h : X → coro A) : coro A :=
  handle m (λ r, match r with Ok a => Done (Ok a) | Err e => h e end).

Definition call (p : Port) : coro (ans p) := Await (Req p) Done.

(** [await asyncio.shield(create_task(m))]. *)
Fixpoint shielded {A} (m : coro A) : coro (option (res X A)) :=
  match m with
  | Done r => Done (Ok (Some r))
  | Await q k =>
      Await (Patient q) (λ a, match a with None => Done (Ok None) | Some b => shielded (k b) end)
  end.

(** [for x in l: m(x)]. *)
Fixpoint for_each {A} (l : list A) (m : A → coro ()) : coro () :=
  match l with [] => mret () | x :: l' => m x ≫= λ _, for_each l' m end.

(** The loop [for x in l: s = m(s, x)]. *)
Fixpoint fold_coro {S A} (m : S → A → coro S) (s : S) (l : list A) : coro S :=
  match l with [] => mret s | x :: l' => m s x ≫= λ t, fold_coro m t l' end.

Fixpoint port_of (q : request) : Port := match q with Req p => p | Patient q => port_of q end.

(** Every request of [m], whatever the answers, satisfies [P]. *)
Fixpoint asks {A} (P : Port → Prop) (m : coro A) : Prop :=
  match m with
  | Done _ => True
  | Await q k => P (port_of q) ∧ ∀ a, asks P (k a)
  end.

Lemma asks_any {A} (m : coro A) : asks (λ _, True) m.
Proof. induction m; cbn; auto. Qed.

Lemma asks_handle {A B} P (m : coro A) (f : res X A → coro B) :
  asks P m → (∀ r, asks P (f r)) → asks P (handle m f).
Proof. intros Hm Hf. induction m as [r|q k IH]; cbn; [apply Hf|]. destruct Hm. auto. Qed.

Lemma asks_bind {A B} P (m : coro A) (f : A → coro B) :
  asks P m → (∀ a, asks P (f a)) → asks P (m ≫= f).
Proof. intros Hm Hf. apply asks_handle; [done|]. intros [a|e]; [apply Hf|exact I]. Qed.

Lemma asks_shielded {A} P (m : coro A) : asks P m → asks P (shielded m).
Proof.
  induction m as [r|q k IH]; cbn; [done|]. intros [Hq Hk]. split; [done|].
  intros [a|]; [by apply IH|done].
Qed.

Lemma asks_fold {S A} P (m : S → A → coro S) s l :
  (∀ s x, asks P (m s x)) → asks P (fold_coro m s l).
Proof.
  intros H. revert s. induction l as [|x l IH]; intros s; cbn; [done|].
  apply asks_bind; [apply H|done].
Qed.

(** At most [n] requests, whatever the answers. *)
Fixpoint bounded {A} (n : nat) (m : coro A) {struct m} : Prop :=
  match m with
  | Done _ => True
  | Await q k => match n with O => False | S n' => ∀ a, bounded n' (k a) end
  end.

Lemma bounded_mono {A} n n' (m : coro A) : bounded n m → n <= n' → bounded n' m.
Proof.
  revert n n'. induction m as [r|q k IH]; intros [|n] [|n'] Hm Hl; cbn in *; try done; try lia.
  intros a. eapply IH; [apply Hm|lia].
Qed.

Lemma bounded_handle {A B} n n' (m : coro A) (f : res X A → coro B) :
  bounded n m → (∀ r, bounded n' (f r)) → bounded (n + n') (handle m f).
Proof.
  intros Hm Hf. revert n Hm. induction m as [r|q k IH]; intros n Hm; cbn.
  - eapply bounded_mono; [apply Hf|lia].
  - destruct n as [|n]; [done|]. cbn. intros a. by apply IH.
Qed.

Lemma bounded_assoc {A B C} n (m : coro A) (f : res X A → coro B) (g : res X B → coro C) :
  bounded n (handle m (λ r, handle (f r) g)) → bounded n (handle (handle m f) g).
Proof.
  revert n. induction m as [r|q k IH]; intros n; [done|]. destruct n as [|n]; cbn; [done|].
  intros H a. by apply IH.
Qed.

Lemma bounded_bind {A B} n n' (m : coro A) (f : A → coro B) :
  bounded n m → (∀ a, bounded n' (f a)) → bounded (n + n') (m ≫= f).
Proof. intros Hm Hf. apply bounded_handle; [done|]. intros [a|e]; [apply Hf|exact I]. Qed.

Lemma bounded_shielded {A} n (m : coro A) : bounded n m → bounded n (shielded m).
Proof.
  revert n. induction m as [r|q k IH]; intros [|n]; cbn; try done.
  intros H [a|]; [by apply IH|done].
Qed.

Lemma bounded_for_each {A} n (l : list A) (m : A → coro ()) :
  (∀ x, x ∈ l → bounded n (m x)) → bounded (n * length l) (for_each l m).
Proof.
  induction l as [|x l IH]; intros H; cbn; [done|]. rewrite Nat.mul_succ_r, Nat.add_comm.
  apply bounded_bind; [apply H; by left|]. intros _. apply IH. intros y Hy. apply H. by right.
Qed.

Lemma bounded_fold {S A} n (m : S → A → coro S) s l :
  (∀ s x, bounded n (m s x)) → bounded (n * length l) (fold_coro m s l).
Proof.
  intros H. revert s. induction l as [|x l IH]; intros s; cbn; [done|].
  rewrite Nat.mul_succ_r, Nat.add_comm. apply bounded_bind; [apply H|]. intros t. apply IH.
Qed.

(** ** Runs *)

Section World.
(** The world, what others may do to it between two requests, and how it may
    answer one. *)
Context {W : Type} (env : W → W → Prop) (reply : ∀ p, W → res X (ans p) → W → Prop).

Fixpoint replies (q : request) (w : W) : answer q → W → Prop :=
  match q with
  | Req p => reply p w
  | Patient q => λ a w', match a with None => w' = w | Some b => replies q w b w' end
  end.

Inductive step {A} : coro A * W → coro A * W → Prop :=
| StepAwait q k w w1 a w2 :
    env w w1 → replies q w1 a w2 → step (Await q k, w) (k a, w2).

Definition runs {A} : coro A * W → coro A * W → Prop := rtc step.

(** [I] holds after every answer, and [Q] of the result and of the world then. *)
Fixpoint wp {A} (I : W → Prop) (m : coro A) (Q : res X A → W → Prop) (w : W) : Prop :=
  match m with
  | Done r => Q r w
  | Await q k => ∀ w1 a w2, env w w1 → replies q w1 a w2 → I w2 ∧ wp I (k a) Q w2
  end.

Lemma wp_mono {A} (I I' : W → Prop) (m : coro A) (Q Q' : res X A → W → Prop) w :
  (∀ w, I w → I' w) → (∀ r w, Q r w → Q' r w) → wp I m Q w → wp I' m Q' w.
Proof.
  intros HI HQ. revert w. induction m as [r|q k IH]; intros w; cbn; [by apply HQ|].
  intros H w1 a w2 He Hr. destruct (H w1 a w2 He Hr). auto.
Qed.

Lemma wp_weaken {A} (I : W → Prop) (m : coro A) (Q Q' : res X A → W → Prop) w :
  wp I m Q w → (∀ r w, Q r w → Q' r w) → wp I m Q' w.
Proof. intros H HQ. by eapply wp_mono; [|exact HQ|exact H]. Qed.

Lemma wp_handle {A B} (I : W → Prop) (m : coro A) (f : res X A → coro B) Q w :
  wp I m (λ r w, wp I (f r) Q w) w → wp I (handle m f) Q w.
Proof.
  revert w. induction m as [r|q k IH]; intros w; cbn; [done|].
  intros H w1 a w2 He Hr. destruct (H w1 a w2 He Hr). auto.
Qed.

Lemma wp_bind {A B} (I : W → Prop) (m : coro A) (f : A → coro B) Q w :
  wp I m (λ r w, match r with Ok a => wp I (f a) Q w | Err e => Q (Err e) w end) w →
  wp I (m ≫= f) Q w.
Proof. intros H. apply wp_handle. eapply wp_mono; [done| |exact H]. by intros [a|e] w'. Qed.

Lemma wp_call (I : W → Prop) p (Q : res X (ans p) → W → Prop) w :
  (∀ w1 a w2, env w w1 → reply p w1 a w2 → I w2 ∧ Q a w2) → wp I (call p) Q w.
Proof. done. Qed.

(** A shielded task is done, or left to itself after some of its requests. *)
Lemma wp_shielded {A} (I : W → Prop) (m : coro A) (Q : res X (option (res X A)) → W → Prop) w :
  (∀ w w1, env w w1 → I w → I w1) → I w →
  wp I m (λ r, Q (Ok (Some r))) w → (∀ w, I w → Q (Ok None) w) → wp I (shielded m) Q w.
Proof.
  intros HI Hw H HQ. revert w Hw H. induction m as [r|q k IH]; intros w Hw; cbn; [done|].
  intros H w1 [a|] w2 He Hr; cbn in Hr.
  - destruct (H w1 a w2 He Hr). auto.
  - subst w2. split; [by eapply HI|]. cbn. apply HQ. by eapply HI.
Qed.

Lemma wp_conj {A} (I I' : W → Prop) (m : coro A) (Q Q' : res X A → W → Prop) w :
  wp I m Q w → wp I' m Q' w → wp (λ w, I w ∧ I' w) m (λ r w, Q r w ∧ Q' r w) w.
Proof.
  revert w. induction m as [r|q k IH]; intros w; cbn; [done|].
  intros H H' w1 a w2 He Hr. destruct (H w1 a w2 He Hr), (H' w1 a w2 He Hr). auto.
Qed.

(** A stronger result under an assumption that the safe run does not need. *)
Lemma wp_imp {A} (P : Prop) (I I' : W → Prop) (m : coro A) (Q Q' : res X A → W → Prop) w :
  wp I m Q w → (P → wp I' m Q' w) → wp I m (λ r w, Q r w ∧ (P → Q' r w)) w.
Proof.
  revert w. induction m as [r|q k IH]; intros w; cbn; [done|].
  intros H H' w1 a w2 He Hr. destruct (H w1 a w2 He Hr). split; [done|].
  apply IH; [done|]. intros HP. by apply (H' HP w1 a w2).
Qed.

(** An invariant that the answers to the requests of [m] keep. *)
Lemma wp_asks {A} (P : Port → Prop) (I : W → Prop) (m : coro A) w :
  (∀ w w1, env w w1 → I w → I w1) →
  (∀ p w a w', P p → reply p w a w' → I w → I w') →
  asks P m → I w → wp I m (λ _, I) w.
Proof.
  intros He Hr. assert (∀ q w a w', P (port_of q) → replies q w a w' → I w → I w') as Hq.
  { intros q. induction q as [p|q IH]; cbn; [eauto|].
    intros w0 [a|] w' Hp; [by apply IH|by intros ->]. }
  revert w. induction m as [r|q k IH]; intros w; cbn; [done|].
  intros [Hp Hk] Hi w1 a w2 Hw Ha.
  assert (I w2) by eauto. eauto.
Qed.

(** The rules are sound for every run. *)
Lemma wp_step {A} (I : W → Prop) (Q : res X A → W → Prop) (x y : coro A * W) :
  step x y → wp I x.1 Q x.2 → I y.2 ∧ wp I y.1 Q y.2.
Proof. intros [q k w w1 a w2 He Hr] H. by apply (H w1). Qed.

Lemma wp_runs {A} (I : W → Prop) (Q : res X A → W → Prop) (x y : coro A * W) :
  runs x y → I x.2 → wp I x.1 Q x.2 → I y.2 ∧ wp I y.1 Q y.2.
Proof.
  induction 1 as [x|x y z Hs _ IH]; [done|]. intros _ H.
  destruct (wp_step _ _ _ _ Hs H). auto.
Qed.

Lemma wp_adequate {A} (I : W → Prop) (Q : res X A → W → Prop) (m : coro A) w r w' :
  wp I m Q w → I w → runs (m, w) (Done r, w') → Q r w'.
Proof. intros H Hi R. by destruct (wp_runs I Q _ _ R Hi H) as [_ ?]. Qed.

Lemma runs_bounded {A} n (m : coro A) w m' w' :
  bounded n m → runs (m, w) (m', w') → ∃ k, k <= n ∧ nsteps step k (m, w) (m', w') ∧ bounded (n - k) m'.
Proof.
  intros Hb [k H]%rtc_nsteps. exists k.
  assert (k <= n ∧ bounded (n - k) m') as [? ?]; [|done].
  revert n m w Hb H. induction k as [|k IH]; intros n m w Hb H.
  - inversion H; subst. rewrite Nat.sub_0_r. split; [lia|done].
  - inversion H as [|? ? y ? Hs H']; subst. inversion Hs; subst.
    destruct n as [|n]; [done|]. destruct (IH n _ _ (Hb a) H'). split; [lia|done].
Qed.

End World.
End Coroutines.

Arguments coro {Port} ans X A.
Arguments Done {Port ans X A} r.
Arguments Await {Port ans X A} q k.

End Coro.
