(* ===== verification/TargetAlloc.v ===== *)
(** The Target Calculator's allocation primitives
    (backend/services/target_calculator/calculations.py).

    A budget is distributed over the stores of a cohort in proportion to their
    weights, inside per-store floors and caps, to the cent.  [Row] is the part
    of a store's dictionary the allocator reads and writes; every function that
    mutates the rows in Python returns the new rows here.  All arithmetic is
    [Decimal] arithmetic at the precision of the running context: 28 digits by
    default, 60 inside the [localcontext] of the box solver. *)

From S2P Require Import Prelude Decimal.

Local Open Scope Z_scope.

Inductive reason := Proportional | AtFloor | AtCap | AtFloorCap.

Record row := Row {
  site_code : string;
  calculated_weight : dec;
  floor_target : dec;
  cap_target : dec;
  proposed_target : dec;
  is_floor_limited : bool;
  is_cap_limited : bool;
  allocation_reason : reason;
  flags : list string;
}.

#[global] Instance row_inhabited : Inhabited row :=
  populate (Row "" d0 d0 d0 d0 false false Proportional []).

Inductive alloc_error :=
| TargetBudgetInfeasible (requested floor_total : dec) (cap_total : option dec)
| CapBelowFloor
| NegativeWeight
| IndexError
| KeyError
| OutOfFuel
| DecimalError (s : signal).

Definition MONEY : dec := Dec 1 (-2).

Definition lift_dec {A} : res signal A → res alloc_error A := lift_err DecimalError.

(** [money(value)] for a value that already is a [Decimal]. *)
Definition money (d : dec) : res alloc_error dec := lift_dec (quantize prec28 HALF_UP (-2) d).

(** [raise TargetBudgetInfeasibleError(...)], whose constructor rounds its
    arguments. *)
Definition infeasible {A} (requested floor_total : dec) (cap_total : option dec)
    : res alloc_error A :=
  r ← money requested;
  f ← money floor_total;
  match cap_total with
  | None => Err (TargetBudgetInfeasible r f None)
  | Some c => c' ← money c; Err (TargetBudgetInfeasible r f (Some c'))
  end.

(** ** Row updates *)

Definition set_proposed (r : row) (d : dec) : row :=
  Row (site_code r) (calculated_weight r) (floor_target r) (cap_target r) d
      (is_floor_limited r) (is_cap_limited r) (allocation_reason r) (flags r).
Definition set_floor (r : row) (d : dec) : row :=
  Row (site_code r) (calculated_weight r) d (cap_target r) (proposed_target r)
      (is_floor_limited r) (is_cap_limited r) (allocation_reason r) (flags r).
Definition set_cap (r : row) (d : dec) : row :=
  Row (site_code r) (calculated_weight r) (floor_target r) d (proposed_target r)
      (is_floor_limited r) (is_cap_limited r) (allocation_reason r) (flags r).
Definition set_state (r : row) (fl cl : bool) (why : reason) (fs : list string) : row :=
  Row (site_code r) (calculated_weight r) (floor_target r) (cap_target r)
      (proposed_target r) fl cl why fs.

Definition add_flag (f : string) (fs : list string) : list string :=
  if bool_decide (f ∈ fs) then fs else fs ++ [f].

Definition mark_bound (r : row) (floor cap : bool) : row :=
  let r := if floor
    then set_state r true (is_cap_limited r) AtFloor (add_flag "FLOOR_APPLIED" (flags r))
    else r in
  if cap
  then set_state r (is_floor_limited r) true AtCap (add_flag "CAP_APPLIED" (flags r))
  else r.

Definition is_bound_flag (f : string) : bool :=
  bool_decide (f = "FLOOR_APPLIED"%string) || bool_decide (f = "CAP_APPLIED"%string).

Definition reset_bound_state (r : row) : row :=
  set_state r false false Proportional
    (List.filter (λ f, negb (is_bound_flag f)) (flags r)).

Definition mark_final_bounds (r : row) : row :=
  let at_floor := deqb (proposed_target r) (floor_target r) in
  let at_cap := deqb (proposed_target r) (cap_target r) in
  set_state r at_floor at_cap
    (if at_floor && at_cap then AtFloorCap
     else if at_floor then AtFloor
     else if at_cap then AtCap
     else Proportional)
    (flags r ++ (if at_floor then ["FLOOR_APPLIED"%string] else [])
             ++ (if at_cap then ["CAP_APPLIED"%string] else [])).

(** One iteration of the loop of [_normalize_bounds]; the accumulator is the
    list of rows already normalized and the two running totals. *)
Definition normalize_step (include_caps : bool) (acc : list row * dec * option dec) (r : row)
    : res alloc_error (list row * dec * option dec) :=
  let '(done, floor_total, cap_total) := acc in
  f ← money (floor_target r);
  let r := set_floor r f in
  let floor_total := dadd prec28 floor_total f in
  if include_caps then
    c ← money (cap_target r);
    let r := set_cap r c in
    raise_if (dltb c f) CapBelowFloor ;;
    Ok (done ++ [r], floor_total, Some (dadd prec28 (default d0 cap_total) c))
  else Ok (done ++ [r], floor_total, cap_total).

Definition normalize_bounds (rows : list row) (include_caps : bool)
    : res alloc_error (list row * dec * option dec) :=
  foldR (normalize_step include_caps)
    ([], d0, if include_caps then Some d0 else None) rows.

(** ** Distribution of a rounding difference *)

(** A candidate of the loop: its capacity, its site code and its index. *)
Definition candidate : Type := dec * string * nat.

Definition candidate_leb : candidate → candidate → bool :=
  lex_leb (cmp_on (λ c, c.1.1) (cmp_desc dcompare))
    (lex_leb (cmp_on (λ c, c.1.2) String.compare) (leb_on snd Nat.leb)).

Definition row_capacity (increase include_caps : bool) (remaining : dec) (r : row) : dec :=
  if increase && include_caps then dsub prec28 (cap_target r) (proposed_target r)
  else if negb increase then dsub prec28 (proposed_target r) (floor_target r)
  else remaining.

Fixpoint collect_candidates (increase include_caps : bool) (remaining : dec)
    (index : nat) (rows : list row) : res alloc_error (list candidate) :=
  match rows with
  | [] => Ok []
  | r :: rows' =>
      capacity ← money (row_capacity increase include_caps remaining r);
      cs ← collect_candidates increase include_caps remaining (S index) rows';
      Ok (if dltb d0 capacity then (capacity, site_code r, index) :: cs else cs)
  end.

(** The inner [for] loop; [true] in the result is the early [return]. *)
Fixpoint distribute (increase include_caps : bool) (rows : list row) (remaining : dec)
    (cs : list candidate) : res alloc_error (list row * dec * bool) :=
  match cs with
  | [] => Ok (rows, remaining, false)
  | (capacity, _, index) :: cs' =>
      let r := rows !!! index in
      let step := dmin capacity remaining in
      p ← money (if increase then dadd prec28 (proposed_target r) step
                 else dsub prec28 (proposed_target r) step);
      remaining' ← money (dsub prec28 remaining step);
      let r := set_proposed r p in
      let r := if include_caps && deqb p (cap_target r) then mark_bound r false true else r in
      let r := if deqb p (floor_target r) then mark_bound r true false else r in
      let rows' := <[index := r]> rows in
      if negb (dbool remaining') then Ok (rows', remaining', true)
      else distribute increase include_caps rows' remaining' cs'
  end.

(** The [while remaining > 0] loop. *)
Fixpoint rounding_loop (fuel : nat) (increase include_caps : bool) (requested : dec)
    (rows : list row) (remaining : dec) : res alloc_error (list row) :=
  match fuel with
  | O => Err OutOfFuel
  | S fuel' =>
      if negb (dltb d0 remaining) then Ok rows
      else
        cs ← collect_candidates increase include_caps remaining 0 rows;
        match cs with
        | [] =>
            '(rows', floor_total, cap_total) ← normalize_bounds rows include_caps;
            infeasible requested floor_total cap_total
        | _ =>
            '(rows', remaining', returned) ←
              distribute increase include_caps rows remaining (sorted_by candidate_leb cs);
            if (returned : bool) then Ok rows'
            else rounding_loop fuel' increase include_caps requested rows' remaining'
        end
  end.

Definition proposed_total (rows : list row) : dec := dsum prec28 (proposed_target <$> rows).

Definition apply_rounding_difference (fuel : nat) (rows : list row) (requested : dec)
    (include_caps : bool) : res alloc_error (list row) :=
  difference ← money (dsub prec28 requested (proposed_total rows));
  if negb (dbool difference) then Ok rows
  else rounding_loop fuel (dltb d0 difference) include_caps requested rows
         (dabs prec28 difference).

(** ** The box solver: [sum(clip(multiplier * weight, floor, cap)) == target] *)

(** A dictionary from row indices to amounts, in insertion order. *)
Definition alloc : Type := list (nat * dec).

Definition alloc_get (a : alloc) (i : nat) : option dec :=
  (λ x : nat * (nat * dec), x.2.2) <$> list_find (λ kv, kv.1 = i) a.

Definition stable_indices (rows : list row) (indices : list nat) : list nat :=
  sorted_by (lex_leb (cmp_on (λ i, site_code (rows !!! i)) String.compare) Nat.leb) indices.

Definition clip_box_value (r : row) (v : dec) : dec :=
  if dltb v (floor_target r) then floor_target r
  else if dltb (cap_target r) v then cap_target r
  else v.

Definition box_allocations_at (rows : list row) (ordered : list nat) (weights : nat → dec)
    (multiplier : dec) : alloc :=
  (λ i, (i, clip_box_value (rows !!! i) (dmul prec60 multiplier (weights i)))) <$> ordered.

Definition decimal_breakpoint_equal (left right : dec) : bool :=
  dleb (dabs prec60 (dsub prec60 left right)) (Dec 1 (-30)).

(** The first stable index whose allocation absorbs the residual inside its box. *)
Definition reconcile_box_residual (rows : list row) (a : alloc) (active : list nat)
    (target : dec) : option alloc :=
  let residual := dsub prec60 target (dsum prec60 (snd <$> a)) in
  if negb (dbool residual) then Some a
  else
    (fix go (idx : list nat) : option alloc :=
       match idx with
       | [] => None
       | i :: idx' =>
           let adjusted := dadd prec60 (default d0 (alloc_get a i)) residual in
           if dleb (floor_target (rows !!! i)) adjusted && dleb adjusted (cap_target (rows !!! i))
           then Some ((λ kv, if Nat.eqb kv.1 i then (i, adjusted) else kv) <$> a)
           else go idx'
       end) (stable_indices rows active).

Definition solve_box_interval (rows : list row) (ordered : list nat) (weights : nat → dec)
    (target previous_point point : dec) : res alloc_error (option alloc) :=
  midpoint ← lift_dec (ddiv prec60 (dadd prec60 previous_point point) (of_int 2));
  let at_mid i := dmul prec60 midpoint (weights i) in
  let is_active i := dltb (floor_target (rows !!! i)) (at_mid i)
                     && dltb (at_mid i) (cap_target (rows !!! i)) in
  let active := List.filter is_active ordered in
  match active with
  | [] => Ok None
  | _ =>
      let fixed_total := dsum prec60
        ((λ i, if dleb (at_mid i) (floor_target (rows !!! i))
               then floor_target (rows !!! i) else cap_target (rows !!! i))
         <$> List.filter (λ i, negb (is_active i)) ordered) in
      let active_weight := dsum prec60 (weights <$> active) in
      multiplier ← lift_dec (ddiv prec60 (dsub prec60 target fixed_total) active_weight);
      Ok (reconcile_box_residual rows (box_allocations_at rows ordered weights multiplier)
            active target)
  end.

(** A Python set of decimals keeps one element per value. *)
Fixpoint dedup_dec (l : list dec) : list dec :=
  match l with
  | [] => []
  | d :: l' => d :: List.filter (λ x, negb (deqb d x)) (dedup_dec l')
  end.

Definition prepare_breakpoints (rows : list row) (ordered : list nat) (weights : nat → dec)
    : res alloc_error (list dec) :=
  points ← mapR (λ '(bound, i), lift_dec (ddiv prec60 bound (weights i)))
    (ordered ≫= λ i, [(floor_target (rows !!! i), i); (cap_target (rows !!! i), i)]);
  Ok (sorted_by dleb (dedup_dec points)).

Definition allocations_total (rows : list row) (ordered : list nat) (weights : nat → dec)
    (point : dec) : dec * alloc :=
  let a := box_allocations_at rows ordered weights point in
  (dsum prec60 (snd <$> a), a).

Fixpoint binary_search_breakpoint_index (fuel : nat) (rows : list row) (ordered : list nat)
    (weights : nat → dec) (breakpoints : list dec) (target : dec) (lower upper : nat)
    : res alloc_error nat :=
  match fuel with
  | O => Err OutOfFuel
  | S fuel' =>
      if (1 <? Z.of_nat upper - Z.of_nat lower) then
        let middle := Nat.div (lower + upper) 2 in
        match breakpoints !! middle with
        | None => Err IndexError
        | Some point =>
            let middle_total := (allocations_total rows ordered weights point).1 in
            if decimal_breakpoint_equal target middle_total then Ok middle
            else if dltb middle_total target
            then binary_search_breakpoint_index fuel' rows ordered weights breakpoints
                   target middle upper
            else binary_search_breakpoint_index fuel' rows ordered weights breakpoints
                   target lower middle
        end
      else Ok lower
  end.

Definition resolve_two_breakpoint_pair (rows : list row) (ordered : list nat)
    (weights : nat → dec) (breakpoints : list dec) (lower upper : nat)
    (target floor_total cap_total : dec) : res alloc_error (option alloc) :=
  match breakpoints !! lower, breakpoints !! upper with
  | Some previous_point, Some point =>
      let '(previous_total, previous_allocations) :=
        allocations_total rows ordered weights previous_point in
      let '(point_total, point_allocations) := allocations_total rows ordered weights point in
      if decimal_breakpoint_equal target previous_total then Ok (Some previous_allocations)
      else if decimal_breakpoint_equal target point_total then Ok (Some point_allocations)
      else if decimal_breakpoint_equal point_total previous_total
      then infeasible target floor_total (Some cap_total)
      else solve_box_interval rows ordered weights target previous_point point
  | _, _ => Err IndexError
  end.

Definition solve_positive_box (rows : list row) (indices : list nat) (target : dec)
    (weights : nat → dec) : res alloc_error alloc :=
  let ordered := stable_indices rows indices in
  let floor_total := dsum prec28 ((λ i, floor_target (rows !!! i)) <$> ordered) in
  let cap_total := dsum prec28 ((λ i, cap_target (rows !!! i)) <$> ordered) in
  if deqb target floor_total then Ok ((λ i, (i, floor_target (rows !!! i))) <$> ordered)
  else if deqb target cap_total then Ok ((λ i, (i, cap_target (rows !!! i))) <$> ordered)
  else if dltb target floor_total || dltb cap_total target
  then infeasible target floor_total (Some cap_total)
  else
    breakpoints ← prepare_breakpoints rows ordered weights;
    match breakpoints with
    | [] => Err IndexError
    | first :: _ =>
        let '(lower_total, lower_allocations) := allocations_total rows ordered weights first in
        if decimal_breakpoint_equal target lower_total then Ok lower_allocations
        else if dltb target lower_total
        then Ok ((λ i, (i, floor_target (rows !!! i))) <$> ordered)
        else
          lower ← binary_search_breakpoint_index (length breakpoints) rows ordered weights
                    breakpoints target 0 (length breakpoints - 1);
          found ← resolve_two_breakpoint_pair rows ordered weights breakpoints lower (S lower)
                    target floor_total cap_total;
          match found with
          | Some a => Ok a
          | None => infeasible target floor_total (Some cap_total)
          end
    end.

Definition indices_where (P : row → bool) (rows : list row) : list nat :=
  List.filter (λ i, P (rows !!! i)) (seq 0 (length rows)).

Definition solve_box_allocations (rows : list row) (requested : dec) : res alloc_error alloc :=
  let positive := indices_where (λ r, dltb d0 (calculated_weight r)) rows in
  let zero := indices_where (λ r, deqb (calculated_weight r) d0) rows in
  if negb (Nat.eqb (length positive + length zero) (length rows)) then Err NegativeWeight
  else match positive with
  | [] => solve_positive_box rows zero requested (λ _, d1)
  | _ =>
      let positive_cap_total := dsum prec28 ((λ i, cap_target (rows !!! i)) <$> positive) in
      let zero_floor_total := dsum prec28 ((λ i, floor_target (rows !!! i)) <$> zero) in
      let weighted_limit := dadd prec28 positive_cap_total zero_floor_total in
      if dleb requested weighted_limit then
        a ← solve_positive_box rows positive (dsub prec28 requested zero_floor_total)
              (λ i, calculated_weight (rows !!! i));
        Ok (((λ i, (i, floor_target (rows !!! i))) <$> zero) ++ a)
      else
        a ← solve_positive_box rows zero (dsub prec28 requested positive_cap_total) (λ _, d1);
        Ok (((λ i, (i, cap_target (rows !!! i))) <$> positive) ++ a)
  end.

(** ** Cents by largest remainder *)

Definition increment_base (bases : alloc) (i : nat) : alloc :=
  (λ kv, if Nat.eqb kv.1 i then (i, dadd prec28 kv.2 MONEY) else kv) <$> bases.

Fixpoint write_proposed (index : nat) (rows : list row) (bases : alloc)
    : res alloc_error (list row) :=
  match rows with
  | [] => Ok []
  | r :: rows' =>
      match alloc_get bases index with
      | None => Err KeyError
      | Some d => rs ← write_proposed (S index) rows' bases; Ok (set_proposed r d :: rs)
      end
  end.

(** The rows with room for one more cent, by descending remainder, then by site
    code, then by index. *)
Definition residual_candidates (rows : list row) (bases assigned : alloc) : list candidate :=
  sorted_by candidate_leb
    ((λ x, (dsub prec28 x.2.2 x.1.2, site_code (rows !!! x.1.1), x.1.1))
     <$> List.filter (λ x, dleb MONEY (dsub prec28 (cap_target (rows !!! x.1.1)) x.1.2))
          (zip bases assigned)).

Definition round_bounded_allocations (rows : list row) (assigned : alloc)
    (requested floor_total cap_total : dec) : res alloc_error (list row) :=
  bases ← mapR (λ '(i, v), b ← lift_dec (quantize prec28 FLOOR (-2) v); Ok (i, b)) assigned;
  let rounded_total := dsum prec28 (snd <$> bases) in
  let residual := dsub prec28 requested rounded_total in
  if dltb residual d0 then infeasible requested floor_total (Some cap_total)
  else
    rest ← lift_dec (drem prec28 residual MONEY);
    if dbool rest then infeasible requested floor_total (Some cap_total)
    else
      quotient ← lift_dec (ddiv prec28 residual MONEY);
      let residual_cents := to_int quotient in
      let candidates := residual_candidates rows bases assigned in
      if Z.of_nat (length candidates) <? residual_cents
      then infeasible requested floor_total (Some cap_total)
      else
        let chosen := snd <$> take (Z.to_nat residual_cents) candidates in
        write_proposed 0 rows (foldl increment_base bases chosen).

(** ** The two public allocators *)

Fixpoint mark_floors (rows : list row) (assigned : alloc) (budget : dec) (below : list nat)
    : list row * alloc * dec :=
  match below with
  | [] => (rows, assigned, budget)
  | i :: below' =>
      let f := floor_target (rows !!! i) in
      mark_floors (<[i := mark_bound (rows !!! i) true false]> rows)
        (assigned ++ [(i, f)]) (dsub prec28 budget f) below'
  end.

(** The [while remaining] loop: fix the stores below their floor, redistribute. *)
Fixpoint floors_loop (fuel : nat) (rows : list row) (remaining : list nat) (assigned : alloc)
    (budget : dec) : res alloc_error (list row * alloc) :=
  match fuel with
  | O => Err OutOfFuel
  | S fuel' =>
      match remaining with
      | [] => Ok (rows, assigned)
      | _ =>
          let weight_total := dsum prec28 ((λ i, calculated_weight (rows !!! i)) <$> remaining) in
          allocations ← mapR (λ i,
            v ← lift_dec
              (if dltb d0 weight_total
               then ddiv prec28 (dmul prec28 budget (calculated_weight (rows !!! i))) weight_total
               else ddiv prec28 budget (of_int (Z.of_nat (length remaining))));
            Ok (i, v)) remaining;
          let below := fst <$> List.filter
            (λ '(i, v), dltb v (floor_target (rows !!! i))) allocations in
          match below with
          | [] => Ok (rows, assigned ++ allocations)
          | _ =>
              let '(rows', assigned', budget') := mark_floors rows assigned budget below in
              floors_loop fuel' rows' (List.filter (λ i, negb (bool_decide (i ∈ below))) remaining)
                assigned' budget'
          end
      end
  end.

Fixpoint write_money (index : nat) (rows : list row) (assigned : alloc)
    : res alloc_error (list row) :=
  match rows with
  | [] => Ok []
  | r :: rows' =>
      match alloc_get assigned index with
      | None => Err KeyError
      | Some d =>
          p ← money d; rs ← write_money (S index) rows' assigned; Ok (set_proposed r p :: rs)
      end
  end.

Definition allocate_with_floors (rows : list row) (requested : dec)
    : res alloc_error (list row) :=
  match rows with
  | [] => Ok []
  | _ =>
      requested_total ← money requested;
      '(rows, floor_total, _) ← normalize_bounds rows false;
      if dltb requested_total floor_total then infeasible requested_total floor_total None
      else
        '(rows, assigned) ←
          floors_loop (S (length rows)) rows (seq 0 (length rows)) [] requested_total;
        rows ← write_money 0 rows assigned;
        rows ← apply_rounding_difference 2 rows requested_total false;
        if negb (deqb (proposed_total rows) requested_total)
        then infeasible requested_total floor_total None
        else Ok rows
  end.

Definition out_of_box (r : row) : bool :=
  dltb (proposed_target r) (floor_target r) || dltb (cap_target r) (proposed_target r).

Definition allocate_with_bounds (rows : list row) (requested : dec)
    : res alloc_error (list row) :=
  match rows with
  | [] => Ok []
  | _ =>
      requested_total ← money requested;
      '(rows, floor_total, cap_total) ← normalize_bounds rows true;
      let cap_total := default d0 cap_total in
      if dltb requested_total floor_total || dltb cap_total requested_total
      then infeasible requested_total floor_total (Some cap_total)
      else
        let rows := reset_bound_state <$> rows in
        assigned ← solve_box_allocations rows requested_total;
        rows ← round_bounded_allocations rows assigned requested_total floor_total cap_total;
        let rows := mark_final_bounds <$> rows in
        if negb (deqb (proposed_total rows) requested_total) || existsb out_of_box rows
        then infeasible requested_total floor_total (Some cap_total)
        else Ok rows
  end.
