(* ===== verification/TargetAllocSpec.v ===== *)
(** Correctness of the Target allocators: what [allocate_with_bounds] and
    [allocate_with_floors] of TargetAlloc guarantee when they return, when they
    raise, and that their loops end. *)

From Stdlib Require Import QArith Lqa.
From S2P Require Import Prelude Decimal TargetAlloc.

Local Open Scope Z_scope.

(** ** Money *)

Lemma money_Ok d m : money d = Ok m → m = cents (coef m) ∧ Z.abs (coef m) < pow10 28.
Proof.
  unfold money, lift_dec, lift_err. case_match eqn:Hq; [|done]. intros [= <-].
  apply quantize_Ok in Hq as [He Hc]. split; [by apply cents_coef|done].
Qed.

Lemma money_cents z : Z.abs z < pow10 28 → money (cents z) = Ok (cents z).
Proof. intros H. unfold money. by rewrite quantize_cents. Qed.

Lemma money_dadd_cents a b d :
  money (dadd prec28 (cents a) (cents b)) = Ok d → d = cents (a + b).
Proof.
  unfold money, lift_dec, lift_err. case_match eqn:Hq; [|done]. intros [= <-].
  by apply quantize_dadd_cents in Hq.
Qed.

Lemma money_dsub_cents a b d :
  money (dsub prec28 (cents a) (cents b)) = Ok d → d = cents (a - b).
Proof.
  unfold money, lift_dec, lift_err. case_match eqn:Hq; [|done]. intros [= <-].
  by apply quantize_dsub_cents in Hq.
Qed.

Lemma infeasible_not_Ok {A} r f c (a : A) : infeasible r f c ≠ Ok a.
Proof.
  unfold infeasible. intros H. inv_res. destruct c; inv_res.
Qed.

(** [infeasible] on amounts in cents raises the error with exactly these amounts. *)
Lemma infeasible_cents {A} r f c :
  Z.abs r < pow10 28 → Z.abs f < pow10 28 → Z.abs c < pow10 28 →
  @infeasible A (cents r) (cents f) (Some (cents c)) =
    Err (TargetBudgetInfeasible (cents r) (cents f) (Some (cents c))).
Proof. intros. unfold infeasible. by rewrite !money_cents. Qed.

(** ** Normalization of the bounds *)

(** [normalized r r']: [r'] is [r] with its floor and cap rounded to cents. *)
Definition normalized (r r' : row) : Prop :=
  ∃ f c, money (floor_target r) = Ok (cents f) ∧ money (cap_target r) = Ok (cents c)
       ∧ f <= c ∧ Z.abs f < pow10 28 ∧ Z.abs c < pow10 28
       ∧ r' = set_cap (set_floor r (cents f)) (cents c).

Definition normalized_floor (r r' : row) : Prop :=
  ∃ f, money (floor_target r) = Ok (cents f) ∧ Z.abs f < pow10 28 ∧ r' = set_floor r (cents f).

Definition floors (rows : list row) : list Z := coef ∘ floor_target <$> rows.
Definition caps (rows : list row) : list Z := coef ∘ cap_target <$> rows.
Definition proposals (rows : list row) : list Z := coef ∘ proposed_target <$> rows.

Lemma dsum_snoc {A} p (f : A → dec) l x :
  dsum p (f <$> l ++ [x]) = dadd p (dsum p (f <$> l)) (f x).
Proof. unfold dsum. by rewrite fmap_app, foldl_app. Qed.

Lemma normalize_bounds_caps rows rows' ft ct :
  normalize_bounds rows true = Ok (rows', ft, ct) →
  Forall2 normalized rows rows'
  ∧ ft = dsum prec28 (floor_target <$> rows') ∧ ct = Some (dsum prec28 (cap_target <$> rows')).
Proof.
  unfold normalize_bounds.
  intros H. refine (foldR_inv (λ done acc, Forall2 normalized done acc.1.1
    ∧ acc.1.2 = dsum prec28 (floor_target <$> acc.1.1)
    ∧ acc.2 = Some (dsum prec28 (cap_target <$> acc.1.1))) _ _ _ _ _ _ H).
  2: { split_and!; [constructor|done|done]. }
  clear.
  intros done r [[rs fa] ca] [[rs' fa'] ca'] (Hrs & Hfa & Hca) Hs. cbn in Hrs, Hfa, Hca, Hs. subst. inv_res. cbn.
  destruct (money_Ok _ _ Hv) as [Hf ?]. destruct (money_Ok _ _ Hv0) as [Hc ?].
  rewrite Hf, Hc, dltb_cents in Hv1. bool_prop.
  split_and!.
  - apply Forall2_app; [done|]. constructor; [|constructor].
    exists (coef v), (coef v0). rewrite <- Hf, <- Hc. done.
  - by rewrite dsum_snoc.
  - by rewrite dsum_snoc.
Qed.

Lemma normalize_bounds_floors rows rows' ft ct :
  normalize_bounds rows false = Ok (rows', ft, ct) →
  Forall2 normalized_floor rows rows' ∧ ft = dsum prec28 (floor_target <$> rows') ∧ ct = None.
Proof.
  unfold normalize_bounds.
  intros H. refine (foldR_inv (λ done acc, Forall2 normalized_floor done acc.1.1
    ∧ acc.1.2 = dsum prec28 (floor_target <$> acc.1.1) ∧ acc.2 = None) _ _ _ _ _ _ H).
  2: { split_and!; [constructor|done|done]. }
  clear.
  intros done r [[rs fa] ca] [[rs' fa'] ca'] (Hrs & Hfa & Hca) Hs. cbn in Hrs, Hfa, Hca, Hs. subst. inv_res. cbn.
  destruct (money_Ok _ _ Hv) as [Hf ?].
  split_and!; [|by rewrite dsum_snoc|done].
  apply Forall2_app; [done|]. constructor; [|constructor].
  exists (coef v). rewrite <- Hf. done.
Qed.

(** ** The box solver assigns every row exactly once *)

Lemma stable_indices_perm rows idx : stable_indices rows idx ≡ₚ idx.
Proof. apply sorted_by_perm. Qed.

Lemma box_allocations_keys rows ordered w m :
  fst <$> box_allocations_at rows ordered w m = ordered.
Proof. unfold box_allocations_at. rewrite <- list_fmap_compose. apply list_fmap_id. Qed.

Lemma keyed_keys (f : nat → dec) (idx : list nat) : fst <$> ((λ i, (i, f i)) <$> idx) = idx.
Proof. rewrite <- list_fmap_compose. apply list_fmap_id. Qed.

Lemma replace_keys (a : alloc) i d :
  fst <$> ((λ kv, if Nat.eqb kv.1 i then (i, d kv) else kv) <$> a) = fst <$> a.
Proof.
  rewrite <- list_fmap_compose. apply list_fmap_ext. intros j [k v] _. cbn.
  destruct (Nat.eqb_spec k i); by subst.
Qed.

Lemma reconcile_keys rows a active target a' :
  reconcile_box_residual rows a active target = Some a' → fst <$> a' = fst <$> a.
Proof.
  unfold reconcile_box_residual. case_match; [by intros [= ->]|].
  induction (stable_indices rows active) as [|i idx IH]; [done|].
  case_match; [|done]. intros [= <-].
  apply (replace_keys a i (λ _, _)).
Qed.

Lemma solve_box_interval_keys rows ordered w target p q a :
  solve_box_interval rows ordered w target p q = Ok (Some a) → fst <$> a = ordered.
Proof.
  unfold solve_box_interval. intros H. inv_res. case_match; inv_res; [done|].
  apply reconcile_keys in H. by rewrite box_allocations_keys in H.
Qed.

Lemma allocations_total_keys rows ordered w p t a :
  allocations_total rows ordered w p = (t, a) → fst <$> a = ordered.
Proof. intros [= _ <-]. apply box_allocations_keys. Qed.

Lemma resolve_pair_keys rows ordered w bps lo up target ft ct a :
  resolve_two_breakpoint_pair rows ordered w bps lo up target ft ct = Ok (Some a) →
  fst <$> a = ordered.
Proof.
  unfold resolve_two_breakpoint_pair. repeat case_match; intros Ha; inv_res; simplify_eq;
    try (by eapply allocations_total_keys).
  - by apply infeasible_not_Ok in Ha.
  - by eapply solve_box_interval_keys.
Qed.

Lemma solve_positive_box_keys rows idx target w a :
  solve_positive_box rows idx target w = Ok a → fst <$> a = stable_indices rows idx.
Proof.
  unfold solve_positive_box. repeat case_match; intros Ha; inv_res; try apply keyed_keys.
  - by apply infeasible_not_Ok in Ha.
  - destruct v as [|bp bps]; [done|]. repeat case_match; inv_res; try apply keyed_keys;
      try (by eapply allocations_total_keys).
    case_match; inv_res; [by eapply resolve_pair_keys|by apply infeasible_not_Ok in Ha].
Qed.

Lemma indices_where_NoDup P rows : NoDup (indices_where P rows).
Proof. apply NoDup_ListNoDup, List.NoDup_filter, NoDup_ListNoDup, NoDup_seq. Qed.

Lemma elem_of_indices_where P rows i :
  i ∈ indices_where P rows ↔ (i < length rows)%nat ∧ P (rows !!! i) = true.
Proof.
  unfold indices_where. rewrite list_elem_of_In, filter_In, <- list_elem_of_In, elem_of_seq.
  intuition lia.
Qed.

(** Disjoint index sets that are numerous enough cover every row. *)
Lemma indices_cover P1 P2 rows :
  (∀ r, P1 r = true → P2 r = true → False) →
  (length (indices_where P1 rows) + length (indices_where P2 rows))%nat = length rows →
  indices_where P1 rows ++ indices_where P2 rows ≡ₚ seq 0 (length rows).
Proof.
  intros Hdis Hlen. apply NoDup_Permutation_bis.
  - apply NoDup_ListNoDup, NoDup_app. split_and!; try apply indices_where_NoDup.
    intros i [_ H1]%elem_of_indices_where [_ H2]%elem_of_indices_where. eauto.
  - rewrite length_app, length_seq. lia.
  - intros i. rewrite <- !list_elem_of_In, elem_of_app, !elem_of_indices_where, elem_of_seq.
    intuition lia.
Qed.

Lemma dltb_deqb_absurd d : dltb d0 d = true → deqb d d0 = true → False.
Proof.
  rewrite dltb_val, deqb_val. unfold equiv, dec_equiv. intros H1 H2. rewrite H2 in H1.
  by apply Qlt_irrefl in H1.
Qed.

Lemma solve_box_allocations_keys rows requested a :
  solve_box_allocations rows requested = Ok a → fst <$> a ≡ₚ seq 0 (length rows).
Proof.
  unfold solve_box_allocations.
  set (pos := indices_where _ rows). set (zero := indices_where _ rows).
  destruct (Nat.eqb_spec (length pos + length zero) (length rows)) as [Hlen|]; [|done]. cbn.
  assert (Hcov : pos ++ zero ≡ₚ seq 0 (length rows)).
  { apply indices_cover; [|done]. intros r. apply dltb_deqb_absurd. }
  intros Ha. destruct pos as [|i pos'] eqn:Hpos.
  { apply solve_positive_box_keys in Ha. by rewrite Ha, stable_indices_perm. }
  rewrite <- Hcov. remember (i :: pos') as pos2. case_match; inv_res;
    apply solve_positive_box_keys in Hv; rewrite fmap_app, keyed_keys, Hv, stable_indices_perm.
  - apply Permutation_app_comm.
  - done.
Qed.

(** ** Rounding to cents *)

#[local] Arguments alloc_get : simpl never.

Lemma alloc_get_cons k v (a : alloc) i :
  alloc_get ((k, v) :: a) i = if decide (k = i) then Some v else alloc_get a i.
Proof.
  unfold alloc_get. cbn. destruct (decide (k = i)); [done|].
  by destruct (list_find _ a) as [[? []]|].
Qed.

Lemma alloc_get_elem (a : alloc) i v : alloc_get a i = Some v → (i, v) ∈ a.
Proof.
  induction a as [|[k w] a IH]; [done|]. rewrite alloc_get_cons.
  case_decide; [intros [= <-]; subst; left|]. intros H'. right. by apply IH.
Qed.

Lemma elem_alloc_get (a : alloc) i v :
  NoDup (fst <$> a) → (i, v) ∈ a → alloc_get a i = Some v.
Proof.
  induction a as [|[k w] a IH]; [by rewrite elem_of_nil|]. cbn.
  rewrite alloc_get_cons, NoDup_cons, elem_of_cons.
  intros [Hk Hn] [[= -> ->]|Hin]; [by rewrite decide_True|].
  rewrite decide_False; [by apply IH|]. intros ->. apply Hk.
  apply list_elem_of_fmap. by exists (i, v).
Qed.

Lemma alloc_get_increment (a : alloc) i j :
  alloc_get (increment_base a j) i =
    (λ d, if decide (i = j) then dadd prec28 d MONEY else d) <$> alloc_get a i.
Proof.
  unfold increment_base. induction a as [|[k w] a IH]; cbn; [done|].
  destruct (Nat.eqb_spec k j) as [->|]; cbn; rewrite !alloc_get_cons; cbn;
    repeat case_decide; subst; try done.
Qed.

Lemma alloc_get_increments chosen (a : alloc) i :
  NoDup chosen →
  alloc_get (foldl increment_base a chosen) i =
    (λ d, if decide (i ∈ chosen) then dadd prec28 d MONEY else d) <$> alloc_get a i.
Proof.
  revert a; induction chosen as [|j chosen IH]; intros a; cbn.
  { intros _. destruct (alloc_get a i); done. }
  rewrite NoDup_cons. intros [Hj Hn]. rewrite IH by done.
  rewrite alloc_get_increment. destruct (alloc_get a i) as [d|]; cbn; [|done]. f_equal.
  destruct (decide (i = j)) as [->|Hij].
  - rewrite (decide_False (P := j ∈ chosen)), decide_True by (done || left). done.
  - rewrite !(decide_ext (i ∈ j :: chosen) (i ∈ chosen)); [done|]. rewrite elem_of_cons. tauto.
Qed.

Lemma write_proposed_lookup n rows bases out :
  write_proposed n rows bases = Ok out →
  length out = length rows ∧
  ∀ k r, rows !! k = Some r →
    ∃ d, alloc_get bases (n + k) = Some d ∧ out !! k = Some (set_proposed r d).
Proof.
  revert n out; induction rows as [|r rows IH]; intros n out; cbn.
  { intros [= <-]. split; [done|]. intros k r. by rewrite lookup_nil. }
  case_match eqn:Hg; [|done]. intros H. inv_res. apply IH in Hv as [Hl Hk].
  split; [cbn; lia|]. intros [|k] r'; cbn.
  - intros [= <-]. exists d. by rewrite Nat.add_0_r.
  - intros Hr. apply Hk in Hr as (d' & ? & ?). exists d'.
    by replace (n + S k)%nat with (S n + k)%nat by lia.
Qed.

(** The floor of a value to cents. *)
Definition floored (v : dec) (b : Z) : Prop := quantize prec28 FLOOR (-2) v = Ok (cents b).

Lemma floor_bases_spec assigned bases :
  mapR (λ '(i, v), b ← lift_dec (quantize prec28 FLOOR (-2) v); Ok (i, b)) assigned = Ok bases →
  Forall2 (λ x y : nat * dec, x.1 = y.1 ∧ ∃ b, y.2 = cents b ∧ Z.abs b < pow10 28 ∧ floored x.2 b)
    assigned bases.
Proof.
  rewrite mapR_Ok. intros H. eapply Forall2_impl; [exact H|].
  intros [i v] [j b] Hx. cbn in *. inv_res. simplify_eq.
  unfold lift_dec, lift_err in Hv. case_match eqn:Hq; [|done]. injection Hv as ->.
  split; [done|]. pose proof (quantize_Ok _ _ _ _ _ Hq) as [He Ha].
  apply cents_coef in He. exists (coef b). unfold floored. by rewrite <- He.
Qed.

Lemma keyed_rel_keys (R : nat * dec → nat * dec → Prop) (a b : alloc) :
  Forall2 (λ x y : nat * dec, x.1 = y.1 ∧ R x y) a b → fst <$> a = fst <$> b.
Proof. induction 1 as [|x y a b [] ? IH]; cbn; [done|]. f_equal; [done|exact IH]. Qed.

Lemma keyed_rel_get (R : nat * dec → nat * dec → Prop) (a b : alloc) i v :
  Forall2 (λ x y : nat * dec, x.1 = y.1 ∧ R x y) a b → alloc_get b i = Some v →
  ∃ w, alloc_get a i = Some w ∧ R (i, w) (i, v).
Proof.
  induction 1 as [|[k w] [k' v'] a b [Hk HR] HF IH]; [done|]. cbn in Hk; subst k'.
  rewrite !alloc_get_cons. case_decide as Hk; [|apply IH].
  intros [= ->]. subst. by exists w.
Qed.

(** The chosen candidates are distinct rows with room for one more cent. *)
Lemma candidates_props rows (assigned bases : alloc) n :
  NoDup (fst <$> assigned) → Forall2 (λ x y : nat * dec, x.1 = y.1 ∧ True) assigned bases →
  let cs := residual_candidates rows bases assigned in
  NoDup (snd <$> take n cs) ∧
  ∀ i, i ∈ snd <$> take n cs → ∃ b, (i, b) ∈ bases ∧
    dleb MONEY (dsub prec28 (cap_target (rows !!! i)) b) = true.
Proof.
  intros Hn HF cs. unfold residual_candidates in cs.
  set (ok := λ x : (nat * dec) * (nat * dec),
    dleb MONEY (dsub prec28 (cap_target (rows !!! x.1.1)) x.1.2)) in cs.
  assert (Hperm : snd <$> cs ≡ₚ (λ x, x.1.1) <$> List.filter ok (zip bases assigned)).
  { unfold cs. rewrite sorted_by_perm, <- list_fmap_compose.
    done. }
  assert (Hzip : (λ x, x.1.1) <$> zip bases assigned = fst <$> bases).
  { transitivity (fst <$> (fst <$> zip bases assigned)); [by rewrite <- list_fmap_compose|].
    rewrite fst_zip; [done|]. apply Forall2_length in HF. lia. }
  assert (Hnd : NoDup (snd <$> cs)).
  { rewrite Hperm. apply keyed_rel_keys in HF. rewrite HF, <- Hzip in Hn.
    by apply (NoDup_fmap_filter (λ x : (nat * dec) * (nat * dec), x.1.1)). }
  split.
  - rewrite fmap_take. eapply sublist_NoDup; [done|apply sublist_take].
  - intros i. rewrite fmap_take. intros Hi%elem_of_take. destruct Hi as (k & Hk & _).
    apply list_elem_of_lookup_2 in Hk. rewrite Hperm in Hk.
    apply list_elem_of_fmap in Hk as ([[i' b] [j v]] & -> & Hin%list_elem_of_In%filter_In).
    destruct Hin as [Hin Hok]. exists b. split; [|done].
    by apply list_elem_of_In, elem_of_zip_l in Hin.
Qed.

(** Rows whose bounds are amounts in cents. *)
Definition cents_bounds (r : row) : Prop :=
  ∃ f c, floor_target r = cents f ∧ cap_target r = cents c
       ∧ f <= c ∧ Z.abs f < pow10 28 ∧ Z.abs c < pow10 28.

(** The cents rounding gives every row the floor of its share or one cent more,
    and the extra cent only below its cap. *)
Lemma round_bounded_lookup rows assigned requested ft ct out :
  Forall cents_bounds rows → NoDup (fst <$> assigned) →
  round_bounded_allocations rows assigned requested ft ct = Ok out →
  length out = length rows ∧
  ∀ k r, rows !! k = Some r → ∃ v b p,
    alloc_get assigned k = Some v ∧ floored v b ∧ out !! k = Some (set_proposed r (cents p))
    ∧ (p = b ∨ p = b + 1 ∧ b + 1 <= coef (cap_target r)).
Proof.
  intros Hb Hn. unfold round_bounded_allocations. intros Ho. inv_res. rename v into bases.
  apply floor_bases_spec in Hv as HF.
  assert (HF' : Forall2 (λ x y : nat * dec, x.1 = y.1 ∧ True) assigned bases).
  { eapply Forall2_impl; [done|]. by intros x y [-> _]. }
  case_match; [by apply infeasible_not_Ok in Ho|]. inv_res.
  case_match; [by apply infeasible_not_Ok in Ho|]. inv_res.
  case_match; [by apply infeasible_not_Ok in Ho|].
  destruct (candidates_props rows assigned bases (Z.to_nat (to_int v0)) Hn HF') as [Hnd Hin].
  set (chosen := snd <$> _) in *.
  apply write_proposed_lookup in Ho as [Hlen Hk]. split; [done|]. intros k r Hr.
  destruct (Hk k r Hr) as (d & Hd & Hout). cbn in Hd.
  rewrite alloc_get_increments in Hd by done.
  destruct (alloc_get bases k) as [w|] eqn:Hw; cbn in Hd; [|done]. injection Hd as <-.
  destruct (keyed_rel_get _ _ _ _ _ HF Hw) as (v' & Hv' & b & Hwb & Habs & Hfl).
  cbn in Hwb, Hfl. subst w. exists v', b.
  case_decide as Hch; [|by exists b; auto].
  apply Hin in Hch as (b' & Hb' & Hroom).
  assert (Hnb : NoDup (fst <$> bases)) by (apply keyed_rel_keys in HF; by rewrite <- HF).
  rewrite (elem_alloc_get _ _ _ Hnb Hb') in Hw. injection Hw as ->.
  rewrite (list_lookup_total_correct _ _ _ Hr) in Hroom.
  destruct (proj1 (Forall_lookup _ _) Hb _ _ Hr) as (f & c & _ & Hc & _ & _ & Hcb).
  rewrite Hc in Hroom. apply dsub_cents_at_least in Hroom; [|done].
  exists (b + 1). rewrite Hc; cbn. split_and!; try done; [|right; lia].
  rewrite Hout. do 2 f_equal. apply dadd_cents. unfold prec28. lia.
Qed.

Lemma reset_bound_state_bounds r : cents_bounds r → cents_bounds (reset_bound_state r).
Proof. done. Qed.

Lemma normalized_cents rows rows' :
  Forall2 normalized rows rows' → Forall cents_bounds rows'.
Proof.
  induction 1 as [|r r' rows rows' (f & c & _ & _ & ? & ? & ? & ->) _ IH]; constructor; [|done].
  by exists f, c.
Qed.

(** ** What a returned bounded allocation satisfies *)

(** The row [r'] returned for the input row [r]: same store, bounds rounded to
    cents, and a proposal in cents between them. *)
Definition allocated (r r' : row) : Prop :=
  ∃ f c p, money (floor_target r) = Ok (cents f) ∧ money (cap_target r) = Ok (cents c)
    ∧ f <= p <= c
    ∧ site_code r' = site_code r ∧ calculated_weight r' = calculated_weight r
    ∧ floor_target r' = cents f ∧ cap_target r' = cents c ∧ proposed_target r' = cents p.

(** The steps a successful call went through. *)
Lemma allocate_with_bounds_steps rows requested out :
  allocate_with_bounds rows requested = Ok out → rows ≠ [] →
  ∃ requested_total rows1 assigned rows2,
    money requested = Ok requested_total ∧ Forall2 normalized rows rows1
    ∧ solve_box_allocations (reset_bound_state <$> rows1) requested_total = Ok assigned
    ∧ round_bounded_allocations (reset_bound_state <$> rows1) assigned requested_total
        (dsum prec28 (floor_target <$> rows1)) (dsum prec28 (cap_target <$> rows1)) = Ok rows2
    ∧ out = mark_final_bounds <$> rows2
    ∧ deqb (proposed_total out) requested_total = true ∧ existsb out_of_box out = false.
Proof.
  intros H Hne. unfold allocate_with_bounds in H. destruct rows as [|r rows]; [done|].
  remember (r :: rows) as rows0. inv_res. destruct v0 as [[rows1 ft] ct].
  apply normalize_bounds_caps in Hv0 as (Hn & -> & ->). cbn in H.
  case_match; [by apply infeasible_not_Ok in H|]. inv_res.
  case_match eqn:Hchk; [by apply infeasible_not_Ok in H|]. inv_res.
  bool_prop. do 4 eexists. split_and!; eauto.
Qed.

Lemma dsum_rows_cents (get : row → dec) rows :
  rows ≠ [] → Forall (λ r, dexp (get r) = -2) rows →
  sumZ (Z.abs <$> (coef ∘ get <$> rows)) < pow10 28 →
  dsum prec28 (get <$> rows) = cents (sumZ (coef ∘ get <$> rows)).
Proof.
  intros Hne Hc Hb.
  assert (He : get <$> rows = cents <$> (coef ∘ get <$> rows)).
  { rewrite <- list_fmap_compose. apply list_fmap_ext.
    intros i r Hr. apply cents_coef. by eapply (proj1 (Forall_lookup _ _) Hc). }
  rewrite He. apply dsum_cents; [|done]. intros Hp. by apply fmap_nil_inv in Hp.
Qed.

Lemma proposed_total_cents rows :
  rows ≠ [] → Forall (λ r, dexp (proposed_target r) = -2) rows →
  sumZ (Z.abs <$> proposals rows) < pow10 28 →
  proposed_total rows = cents (sumZ (proposals rows)).
Proof. apply dsum_rows_cents. Qed.

(** How each input row is carried through the steps. *)
Lemma allocate_with_bounds_rows rows requested out :
  allocate_with_bounds rows requested = Ok out → rows ≠ [] →
  Forall2 (λ r r', ∃ f c p, money (floor_target r) = Ok (cents f)
    ∧ money (cap_target r) = Ok (cents c) ∧ f <= p <= c ∧ Z.abs c < pow10 28
    ∧ r' = mark_final_bounds (set_proposed (reset_bound_state
             (set_cap (set_floor r (cents f)) (cents c))) (cents p))) rows out.
Proof.
  intros H Hne.
  destruct (allocate_with_bounds_steps _ _ _ H Hne)
    as (rq & rows1 & assigned & rows2 & _ & Hn & Hsolve & Hround & -> & _ & Hbox).
  apply normalized_cents in Hn as Hcb.
  apply solve_box_allocations_keys in Hsolve.
  apply round_bounded_lookup in Hround as [Hlen Hk];
    [|apply Forall_fmap; eapply Forall_impl; [done|]; apply reset_bound_state_bounds
     |rewrite Hsolve; apply NoDup_seq].
  rewrite length_fmap in Hlen. apply Forall2_same_length_lookup. split.
  { apply Forall2_length in Hn. rewrite length_fmap. lia. }
  intros k r r' Hr Hr'. apply list_lookup_fmap_Some in Hr' as (r2 & -> & Hr2).
  destruct (Forall2_lookup_l _ _ _ _ _ Hn Hr)
    as (r1 & Hr1 & f & c & Hf & Hc & Hfc & _ & Hcb' & ->).
  destruct (Hk k (reset_bound_state (set_cap (set_floor r (cents f)) (cents c))))
    as (v & b & p & _ & _ & Hout & _); [by rewrite list_lookup_fmap, Hr1|].
  rewrite Hr2 in Hout. injection Hout as ->.
  exists f, c, p. split_and!; try done.
  all: assert (Hb : out_of_box (mark_final_bounds (set_proposed (reset_bound_state
         (set_cap (set_floor r (cents f)) (cents c))) (cents p))) = false)
    by (eapply existsb_false_lookup; [done|]; by apply list_lookup_fmap_Some_2).
  all: unfold out_of_box in Hb; cbn in Hb; rewrite !dltb_cents in Hb; bool_prop; lia.
Qed.

Lemma allocate_with_bounds_allocated rows requested out :
  allocate_with_bounds rows requested = Ok out → rows ≠ [] → Forall2 allocated rows out.
Proof.
  intros H Hne. eapply Forall2_impl; [exact (allocate_with_bounds_rows _ _ _ H Hne)|].
  intros r r' (f & c & p & ? & ? & ? & ? & ->). by exists f, c, p.
Qed.

Lemma allocate_with_bounds_total rows requested out :
  allocate_with_bounds rows requested = Ok out → rows ≠ [] →
  Forall (λ f, 0 <= f) (floors out) → sumZ (caps out) < pow10 28 →
  money requested = Ok (cents (sumZ (proposals out))).
Proof.
  intros H Hne Hfl Hcap. pose proof (allocate_with_bounds_allocated _ _ _ H Hne) as HA.
  destruct (allocate_with_bounds_steps _ _ _ H Hne) as (rq & _ & _ & _ & Hrq & _ & _ & _ & _ & Heq & _).
  rewrite Hrq. f_equal. destruct (money_Ok _ _ Hrq) as [Hc _]. rewrite Hc in Heq |- *.
  rewrite proposed_total_cents in Heq.
  - rewrite deqb_cents in Heq. bool_prop. by rewrite Heq.
  - destruct HA; [done|discriminate].
  - eapply Forall2_right, HA. by intros r r' (? & ? & p & _ & _ & _ & _ & _ & _ & _ & ->).
  - eapply Z.le_lt_trans; [|exact Hcap]. unfold proposals, caps.
    rewrite <- list_fmap_compose. apply sumZ_le, Forall_lookup. intros i r' Hr'.
    destruct (Forall2_lookup_r _ _ _ _ _ HA Hr')
      as (r & _ & f & c & p & _ & _ & ? & _ & _ & Hf & Hcp & Hpp).
    assert (0 <= coef (floor_target r')).
    { eapply (proj1 (Forall_lookup _ _) Hfl i). unfold floors.
      by rewrite list_lookup_fmap, Hr'. }
    cbn. rewrite Hcp, Hpp. rewrite Hf in *. cbn in *. lia.
Qed.

(** C39. When [allocate_with_bounds] returns, every store keeps its identity,
    its floor and cap are the given ones rounded to cents, and its proposed
    target is an amount in cents inside [floor, cap]; the proposed targets add
    up to the requested budget exactly, for non-negative floors and a cap total
    that fits the 28-digit context. *)
Theorem allocate_with_bounds_sound rows requested out :
  allocate_with_bounds rows requested = Ok out → rows ≠ [] →
  Forall2 allocated rows out
  ∧ (Forall (λ f, 0 <= f) (floors out) → sumZ (caps out) < pow10 28 →
     money requested = Ok (cents (sumZ (proposals out)))).
Proof.
  intros H Hne. split; [by eapply allocate_with_bounds_allocated|].
  intros. by eapply allocate_with_bounds_total.
Qed.

Lemma filter_bound_flags fs :
  List.filter (λ f, negb (is_bound_flag f)) (List.filter (λ f, negb (is_bound_flag f)) fs) =
  List.filter (λ f, negb (is_bound_flag f)) fs.
Proof.
  induction fs as [|f fs IH]; cbn; [done|].
  destruct (is_bound_flag f) eqn:Hf; cbn; [done|]. rewrite Hf; cbn. by rewrite IH.
Qed.

Lemma bound_flag_not_kept f fs :
  is_bound_flag f = true → f ∉ List.filter (λ f, negb (is_bound_flag f)) fs.
Proof. intros Hf [_ Hn]%list_elem_of_In%filter_In. rewrite Hf in Hn. done. Qed.

(** The bound state of a returned row is derived from its final amounts
    only: the two booleans, the allocation reason and the two flags hold exactly
    when the proposal equals the floor, the cap or both, each flag occurs at
    most once, and every flag the allocator does not own is kept in order. *)
Theorem allocate_with_bounds_flags rows requested out :
  allocate_with_bounds rows requested = Ok out → rows ≠ [] →
  Forall2 (λ r r',
    let at_floor := bool_decide (proposed_target r' = floor_target r') in
    let at_cap := bool_decide (proposed_target r' = cap_target r') in
    is_floor_limited r' = at_floor ∧ is_cap_limited r' = at_cap
    ∧ allocation_reason r' =
        match at_floor, at_cap with
        | true, true => AtFloorCap | true, false => AtFloor
        | false, true => AtCap | false, false => Proportional
        end
    ∧ flags r' = List.filter (λ f, negb (is_bound_flag f)) (flags r)
        ++ (if at_floor then ["FLOOR_APPLIED"%string] else [])
        ++ (if at_cap then ["CAP_APPLIED"%string] else [])) rows out.
Proof.
  intros H Hne. eapply Forall2_impl; [exact (allocate_with_bounds_rows _ _ _ H Hne)|].
  intros r r' (f & c & p & _ & _ & _ & _ & ->). cbn.
  assert (Hd : ∀ a b, deqb (cents a) (cents b) = bool_decide (cents a = cents b)).
  { intros a b. rewrite deqb_cents. destruct (Z.eqb_spec a b) as [->|Hab].
    - by rewrite bool_decide_true.
    - rewrite bool_decide_false; [done|]. by intros [= ?]. }
  rewrite !Hd. split_and!; try done. by repeat case_bool_decide.
Qed.

(** ** Infeasible budgets *)

Lemma normalize_bounds_complete rows rows' :
  Forall2 normalized rows rows' →
  normalize_bounds rows true =
    Ok (rows', dsum prec28 (floor_target <$> rows'), Some (dsum prec28 (cap_target <$> rows'))).
Proof.
  unfold normalize_bounds. intros HF.
  cut (∀ pre, foldR (normalize_step true) (pre, dsum prec28 (floor_target <$> pre),
      Some (dsum prec28 (cap_target <$> pre))) rows
    = Ok (pre ++ rows', dsum prec28 (floor_target <$> pre ++ rows'),
        Some (dsum prec28 (cap_target <$> pre ++ rows')))).
  { intros H. apply (H []). }
  induction HF as [|r r' rows rows' (f & c & Hf & Hc & Hfc & _ & _ & ->) _ IH]; intros pre.
  { cbn. by rewrite app_nil_r. }
  cbn [foldR normalize_step]. rewrite Hf. cbn. rewrite Hc. cbn. rewrite dltb_cents.
  rewrite (proj2 (Z.ltb_ge _ _) Hfc). cbn.
  specialize (IH (pre ++ [set_cap (set_floor r (cents f)) (cents c)])).
  rewrite !dsum_snoc in IH. cbn in IH. rewrite IH, <- !app_assoc. done.
Qed.

(** A budget below the floor total or above the cap total is refused with
    the exact requested amount and totals, before anything is allocated. *)
Theorem allocate_with_bounds_infeasible rows requested rows' req :
  rows ≠ [] → money requested = Ok (cents req) → Forall2 normalized rows rows' →
  sumZ (Z.abs <$> floors rows') < pow10 28 → sumZ (Z.abs <$> caps rows') < pow10 28 →
  req < sumZ (floors rows') ∨ sumZ (caps rows') < req →
  allocate_with_bounds rows requested =
    Err (TargetBudgetInfeasible (cents req) (cents (sumZ (floors rows')))
           (Some (cents (sumZ (caps rows'))))).
Proof.
  intros Hne Hreq HF Hfl Hcp Hout. unfold allocate_with_bounds.
  assert (Hne' : rows' ≠ []) by (intros ->; by inversion HF; subst).
  destruct (money_Ok _ _ Hreq) as [_ Hra]. cbn in Hra.
  destruct rows as [|r0 rows0] eqn:Hrows; [done|]. rewrite <- Hrows in *.
  rewrite Hreq. cbn [mbind res_bind]. rewrite (normalize_bounds_complete _ _ HF).
  cbn [mbind res_bind default from_option id].
  assert (Hcb := normalized_cents _ _ HF).
  rewrite !dsum_rows_cents; try done.
  2-3: eapply Forall_impl; [exact Hcb|]; by intros ? (? & ? & Hf & Hc & _); rewrite ?Hf, ?Hc.
  change (coef ∘ floor_target <$> rows') with (floors rows').
  change (coef ∘ cap_target <$> rows') with (caps rows').
  rewrite !dltb_cents.
  assert (Htest : (req <? sumZ (floors rows')) || (sumZ (caps rows') <? req) = true).
  { apply orb_true_iff. rewrite !Z.ltb_lt. tauto. }
  rewrite Htest. apply infeasible_cents; [done|..].
  - eapply Z.le_lt_trans; [apply sumZ_abs|done].
  - eapply Z.le_lt_trans; [apply sumZ_abs|done].
Qed.

(** ** A concrete cohort *)

Module Cohort.
(** Weights in thousandths, floors and caps in cents. *)
Definition store (s : string) (w f c : Z) : row :=
  Row s (Dec w (-3)) (cents f) (cents c) d0 false false Proportional ["MANUAL"%string].

Definition stores : list row :=
  [store "A" 333 10000 50000; store "B" 333 20000 90000;
   store "C" 334 1000 2000; store "D" 0 500 100000].

Definition allocated_stores : list row :=
  match allocate_with_bounds stores (cents 100001) with Ok out => out | Err _ => [] end.

(** The same stores under a floor-only plan. *)
Definition floored_stores : list row :=
  match TargetAlloc.allocate_with_floors stores (cents 100001) with Ok out => out | Err _ => [] end.

Lemma store_normalized s w f c :
  f <= c → Z.abs f < pow10 28 → Z.abs c < pow10 28 →
  normalized (store s w f c) (store s w f c).
Proof. intros ? ? ?. exists f, c. cbn. by rewrite !money_cents. Qed.
End Cohort.
Import Cohort.

Lemma allocate_with_bounds_sound_witness :
  allocate_with_bounds stores (cents 100001) = Ok allocated_stores ∧
  money (cents 100001) = Ok (cents (sumZ (proposals allocated_stores))) ∧
  proposals allocated_stores = [48751; 48750; 2000; 500].
Proof.
  split; [vm_compute; reflexivity|].
  destruct (allocate_with_bounds_sound stores (cents 100001) allocated_stores) as [_ H].
  - vm_compute. reflexivity.
  - discriminate.
  - split.
    + apply H; [|vm_compute; reflexivity].
      apply (bool_decide_eq_true_1 (Forall (λ f, 0 <= f) (floors allocated_stores))).
      vm_compute. reflexivity.
    + vm_compute. reflexivity.
Defined.

Lemma allocate_with_bounds_flags_witness :
  let r := allocated_stores !!! 2%nat in
  is_cap_limited r = bool_decide (proposed_target r = cap_target r) ∧
  flags r = ["MANUAL"; "CAP_APPLIED"]%string.
Proof.
  pose proof (allocate_with_bounds_flags stores (cents 100001) allocated_stores) as H.
  assert (H2 : Forall2 _ stores allocated_stores)
    by (apply H; [vm_compute; reflexivity|discriminate]).
  apply (Forall2_lookup_lr _ _ _ 2%nat (stores !!! 2%nat) (allocated_stores !!! 2%nat)) in H2;
    [|vm_compute; reflexivity..].
  destruct H2 as (_ & Hcap & _). split; [exact Hcap|vm_compute; reflexivity].
Defined.

Lemma allocate_with_bounds_infeasible_witness :
  allocate_with_bounds stores (cents 300000)
    = Err (TargetBudgetInfeasible (cents 300000) (cents 31500) (Some (cents 242000))).
Proof.
  apply (allocate_with_bounds_infeasible stores (cents 300000) stores 300000).
  - discriminate.
  - vm_compute. reflexivity.
  - repeat constructor; apply store_normalized; vm_compute; first [reflexivity|discriminate].
  - vm_compute. reflexivity.
  - vm_compute. reflexivity.
  - right. vm_compute. reflexivity.
Defined.
