(* ===== verification/TargetAllocLoops.v ===== *)
(** The loops of the Target allocators: they end, the binary search brackets
    the budget, and the floor allocator respects every floor. *)

From S2P Require Import Prelude Decimal TargetAlloc TargetAllocSpec.
Import Cohort.

Local Open Scope Z_scope.

Lemma money_not_fuel d : money d ≠ Err OutOfFuel.
Proof. unfold money, lift_dec, lift_err. by case_match. Qed.

Lemma infeasible_not_fuel {A} r f c : @infeasible A r f c ≠ Err OutOfFuel.
Proof.
  unfold infeasible. intros [H|(r' & _ & [H|(f' & _ & H)]%bind_Err)]%bind_Err;
    [by apply money_not_fuel in H..|].
  destruct c; [|done].
  apply bind_Err in H as [H|(c' & _ & H)]; [by apply money_not_fuel in H|done].
Qed.

Lemma lift_dec_not_fuel {A} (m : res signal A) : lift_dec m ≠ Err OutOfFuel.
Proof. by destruct m. Qed.

#[export] Hint Resolve infeasible_not_fuel money_not_fuel lift_dec_not_fuel : fuel.

(** [no_fuel] closes goals [m ≠ Err OutOfFuel] by following the binds. *)
Ltac no_fuel :=
  repeat first
    [ discriminate
    | solve [auto with fuel]
    | match goal with
      | |- (?m ≫= _) ≠ Err OutOfFuel =>
          let E := fresh "E" in
          destruct m eqn:E; cbn [mbind res_bind];
          [|intros [= ->]; revert E; change (m ≠ Err OutOfFuel)]
      | |- (if ?b then _ else _) ≠ _ => destruct b
      | |- (let '(_, _) := ?p in _) ≠ _ => destruct p
      | |- match ?p with _ => _ end ≠ _ => destruct p
      end ].

Lemma normalize_bounds_not_fuel rows b : normalize_bounds rows b ≠ Err OutOfFuel.
Proof.
  apply foldR_avoids. intros [[done ft] ct] r. unfold normalize_step. no_fuel.
  unfold raise_if. by case_match.
Qed.

(** ** The binary search *)

Section BinarySearch.
Context (rows : list row) (ordered : list nat) (weights : nat → dec).
Context (breakpoints : list dec) (target : dec).

(** The computed total of the clipped allocations at the k-th breakpoint. *)
Definition total_at (k : nat) : dec :=
  (allocations_total rows ordered weights (breakpoints !!! k)).1.

Let search fuel lo up :=
  binary_search_breakpoint_index fuel rows ordered weights breakpoints target lo up.

Lemma binary_search_not_fuel fuel lo up :
  (up - lo < fuel)%nat → search fuel lo up ≠ Err OutOfFuel.
Proof.
  subst search. revert lo up; induction fuel as [|fuel IH]; intros lo up Hf; [lia|].
  cbn [binary_search_breakpoint_index].
  destruct (Z.ltb_spec 1 (Z.of_nat up - Z.of_nat lo)); [|done].
  pose proof (Nat.div_mod_eq (lo + up) 2). pose proof (Nat.mod_upper_bound (lo + up) 2 ltac:(lia)).
  repeat case_match; try done; apply IH; lia.
Qed.

Lemma binary_search_bracket_aux fuel lo up :
  (lo < up < length breakpoints)%nat → (up - lo < fuel)%nat →
  dltb (total_at lo) target = true → dltb (total_at up) target = false →
  ∃ i, search fuel lo up = Ok i ∧ (lo <= i < up)%nat
     ∧ (decimal_breakpoint_equal target (total_at i) = true
        ∨ dltb (total_at i) target = true ∧ dltb (total_at (S i)) target = false).
Proof.
  subst search. revert lo up; induction fuel as [|fuel IH]; intros lo up Hb Hf Hlo Hup; [lia|].
  cbn [binary_search_breakpoint_index].
  destruct (Z.ltb_spec 1 (Z.of_nat up - Z.of_nat lo)) as [Hgt|Hle].
  2: { exists lo. replace up with (S lo) in Hup by lia. split_and!; [done|lia|lia|tauto]. }
  pose proof (Nat.div_mod_eq (lo + up) 2). pose proof (Nat.mod_upper_bound (lo + up) 2 ltac:(lia)).
  set (mid := ((lo + up) / 2)%nat) in *.
  destruct (lookup_lt_is_Some_2 breakpoints mid) as [pt Hpt]; [lia|]. rewrite Hpt.
  assert (Ht : (allocations_total rows ordered weights pt).1 = total_at mid).
  { unfold total_at. by rewrite (list_lookup_total_correct _ _ _ Hpt). }
  rewrite Ht. destruct (decimal_breakpoint_equal target (total_at mid)) eqn:Heq.
  { exists mid. split_and!; [done|lia|lia|by left]. }
  destruct (dltb (total_at mid) target) eqn:Hmid.
  - destruct (IH mid up) as (i & ? & ? & ?); [lia|lia|done|done|].
    exists i. split_and!; [done|lia|lia|done].
  - destruct (IH lo mid) as (i & ? & ? & ?); [lia|lia|done|done|].
    exists i. split_and!; [done|lia|lia|done].
Qed.
End BinarySearch.

(** Between two breakpoints whose totals bracket the budget, the binary
    search returns within its iteration bound an index whose total equals the
    budget up to division dust, or whose total is below it while the next
    breakpoint's total is not: the interval the box solver interpolates in. *)
Theorem binary_search_bracket rows ordered weights breakpoints target lo up :
  let total k := total_at rows ordered weights breakpoints k in
  (lo < up < length breakpoints)%nat →
  dltb (total lo) target = true → dltb (total up) target = false →
  ∃ i, binary_search_breakpoint_index (length breakpoints) rows ordered weights breakpoints
         target lo up = Ok i
     ∧ (lo <= i < up)%nat
     ∧ (decimal_breakpoint_equal target (total i) = true
        ∨ dltb (total i) target = true ∧ dltb (total (S i)) target = false).
Proof. intros total Hb. apply binary_search_bracket_aux; lia. Qed.

Lemma solve_positive_box_not_fuel rows idx target w :
  solve_positive_box rows idx target w ≠ Err OutOfFuel.
Proof.
  unfold solve_positive_box. no_fuel.
  - unfold resolve_two_breakpoint_pair, solve_box_interval. no_fuel.
  - apply binary_search_not_fuel. cbn. lia.
  - unfold prepare_breakpoints. no_fuel. apply mapR_avoids. intros [] _. no_fuel.
Qed.

(** ** Distribution of the rounding difference *)

(** [moved increase r r' d]: only the proposal and the bound marks of [r]
    changed, the proposal by [d] cents up or down. *)
Definition moved (increase : bool) (r r' : row) (d : Z) : Prop :=
  proposed_target r' = cents (coef (proposed_target r) + (if increase then d else - d))
  ∧ floor_target r' = floor_target r ∧ cap_target r' = cap_target r
  ∧ site_code r' = site_code r ∧ calculated_weight r' = calculated_weight r.

(** A candidate is offered for a row with a proposal in cents, with a positive
    capacity in cents. *)
Definition good_candidate (rows : list row) (c : candidate) : Prop :=
  ∃ r k, rows !! c.2 = Some r ∧ c.1.1 = cents k ∧ 0 < k ∧ dexp (proposed_target r) = -2.

Definition capacity_of (c : candidate) : Z := coef (c.1.1).

(** The first candidate of a pass absorbs the whole difference, and the pass
    returns, or it is moved by exactly its capacity. *)
Lemma distribute_cons increase include_caps k site i cs rows m r result :
  rows !! i = Some r → dexp (proposed_target r) = -2 → 0 < k → 0 < m →
  distribute increase include_caps rows (cents m) ((cents k, site, i) :: cs) = Ok result →
  ∃ r', moved increase r r' (Z.min k m) ∧
    if m <=? k then result = (<[i := r']> rows, cents 0, true)
    else distribute increase include_caps (<[i := r']> rows) (cents (m - k)) cs = Ok result.
Proof.
  intros Hr He Hk Hm. cbn [distribute]. rewrite (list_lookup_total_correct _ _ _ Hr).
  assert (Hstep : dmin (cents k) (cents m) = cents (Z.min k m)).
  { unfold dmin. rewrite dltb_cents. destruct (Z.ltb_spec m k); f_equal; lia. }
  rewrite Hstep. apply cents_coef in He. rewrite He. intros H. inv_res.
  assert (Hp : v = cents (coef (proposed_target r)
      + (if increase then Z.min k m else - Z.min k m))).
  { destruct increase; [by apply money_dadd_cents|by apply money_dsub_cents]. }
  apply money_dsub_cents in Hv0. subst v v0.
  match type of H with context [<[i := ?x]> rows] => set (r' := x) in H end.
  exists r'. split.
  { unfold r', moved. by repeat case_match. }
  clearbody r'. unfold dbool in H; cbn in H. destruct (Z.leb_spec m k) as [Hle|Hgt].
  - rewrite Z.min_r, Z.sub_diag in H by lia. cbn in H. by injection H as <-.
  - rewrite Z.min_l in H by lia. rewrite (proj2 (Z.eqb_neq _ _)) in H by lia. done.
Qed.

Lemma good_candidate_insert rows cs i r' :
  i ∉ (snd <$> cs) → Forall (good_candidate rows) cs →
  Forall (good_candidate (<[i := r']> rows)) cs.
Proof.
  intros Hi Hg. apply Forall_forall. intros c Hc.
  destruct (proj1 (Forall_forall _ _) Hg c Hc) as (r & k & Hr & ? & ? & ?).
  exists r, k. split_and!; try done. rewrite list_lookup_insert_ne; [done|].
  intros ->. apply Hi. by apply list_elem_of_fmap_2.
Qed.

(** What a pass does to one row. *)
Definition pass_effect (increase returned : bool) (cs : list candidate) (i : nat) (r r' : row)
    : Prop :=
  (r' = r ∧ (returned = false → i ∉ (snd <$> cs)))
  ∨ ∃ c d, c ∈ cs ∧ c.2 = i ∧ moved increase r r' d ∧ 0 < d <= capacity_of c
         ∧ (returned = false → d = capacity_of c).

(** One pass moves every offered row by at most its capacity and no other row;
    a pass that does not return early moves each by exactly its capacity, and
    then every capacity was below the difference. *)
Lemma distribute_moves increase include_caps cs rows m out rem returned :
  NoDup (snd <$> cs) → Forall (good_candidate rows) cs → 0 < m →
  distribute increase include_caps rows (cents m) cs = Ok (out, rem, returned) →
  length out = length rows
  ∧ (∀ i r, rows !! i = Some r →
      ∃ r', out !! i = Some r' ∧ pass_effect increase returned cs i r r')
  ∧ (returned = false → (∃ m', rem = cents m' ∧ 0 < m') ∧ Forall (λ c, capacity_of c < m) cs).
Proof.
  revert rows m; induction cs as [|[[cap s] i] cs IH]; intros rows m Hnd Hg Hm.
  { cbn. intros [= <- <- <-]. split_and!; [done| |by eauto].
    intros i r Hr. exists r. split; [done|]. left. split; [done|]. by intros _ ?%elem_of_nil. }
  apply NoDup_cons in Hnd as [Hi Hnd].
  apply Forall_cons in Hg as [(r0 & k & Hr0 & Hk & Hkp & He) Hg].
  cbn in Hr0, Hk, Hi. subst cap. intros H.
  destruct (distribute_cons _ _ _ _ _ _ _ _ _ _ Hr0 He Hkp Hm H) as (r1 & Hmv & Hrest).
  assert (Hlen : (i < length rows)%nat) by by eapply lookup_lt_Some.
  destruct (Z.leb_spec m k) as [Hle|Hgt].
  - injection Hrest as -> -> ->. split_and!; [by rewrite length_insert| |done].
    intros j r Hr. destruct (decide (j = i)) as [->|Hji].
    + simplify_eq. exists r1. rewrite list_lookup_insert_eq by done. split; [done|]. right.
      exists (cents k, s, i), (Z.min k m). unfold capacity_of; cbn. split_and!; try done; [left|lia|lia].
    + exists r. rewrite list_lookup_insert_ne by done. split; [done|]. by left.
  - apply IH in Hrest as (Hl & Heff & Hret); [|done|by apply good_candidate_insert|lia].
    rewrite length_insert in Hl. split; [done|]. split.
    + intros j r Hr. destruct (decide (j = i)) as [->|Hji].
      * simplify_eq. destruct (Heff i r1) as (r' & Ho & [[-> _]|(c & d & Hc & Hci & _)]);
          [by rewrite list_lookup_insert_eq| |].
        -- exists r1. split; [done|]. right. exists (cents k, s, i), (Z.min k m).
           unfold capacity_of; cbn. split_and!; try done; [left|lia|lia|lia].
        -- exfalso. apply Hi. rewrite <- Hci. by apply list_elem_of_fmap_2.
      * destruct (Heff j r) as (r' & Ho & He'); [by rewrite list_lookup_insert_ne|].
        exists r'. split; [done|]. destruct He' as [[-> Hn]|(c & d & Hc & ?)].
        -- left. split; [done|]. intros Hf. cbn. rewrite not_elem_of_cons. by auto.
        -- right. exists c, d. split; [by right|done].
    + intros Hf. destruct (Hret Hf) as [Hm' Hall]. split; [done|].
      constructor; [done|]. eapply Forall_impl; [done|]. cbn. lia.
Qed.

(** Rows whose amounts are in cents (the cap only when caps are in force). *)
Definition cents_row (include_caps : bool) (r : row) : Prop :=
  dexp (floor_target r) = -2 ∧ dexp (proposed_target r) = -2
  ∧ (include_caps = true → dexp (cap_target r) = -2).

(** The room of a row, in cents, when [m] cents are left to distribute. *)
Definition slack (increase include_caps : bool) (m : Z) (r : row) : Z :=
  if increase && include_caps then coef (cap_target r) - coef (proposed_target r)
  else if negb increase then coef (proposed_target r) - coef (floor_target r)
  else m.

Lemma money_row_capacity increase include_caps m r d :
  cents_row include_caps r → money (row_capacity increase include_caps (cents m) r) = Ok d →
  d = cents (slack increase include_caps m r).
Proof.
  intros (Hf & Hp & Hc). unfold row_capacity, slack.
  apply cents_coef in Hf, Hp. destruct increase, include_caps; cbn; intros H.
  - specialize (Hc eq_refl). apply cents_coef in Hc. rewrite Hc, Hp in H.
    by apply money_dsub_cents.
  - unfold money, lift_dec, lift_err in H. case_match eqn:Hq; [|done].
    injection H as ->. by apply quantize_cents_inv in Hq.
  - rewrite Hp, Hf in H. by apply money_dsub_cents.
  - rewrite Hp, Hf in H. by apply money_dsub_cents.
Qed.

Lemma collect_candidates_spec increase include_caps m n rows cs :
  Forall (cents_row include_caps) rows →
  collect_candidates increase include_caps (cents m) n rows = Ok cs →
  NoDup (snd <$> cs) ∧ ∀ c, c ∈ cs ↔ ∃ j r, rows !! j = Some r
    ∧ c = (cents (slack increase include_caps m r), site_code r, (n + j)%nat)
    ∧ 0 < slack increase include_caps m r.
Proof.
  intros Hr. revert n cs; induction Hr as [|r rows Hr Hrs IH]; intros n cs; cbn.
  { intros [= <-]. split; [constructor|]. intros c. rewrite elem_of_nil.
    split; [done|]. by intros (j & r & Hj & _). }
  intros H. inv_res. apply money_row_capacity in Hv; [|done]. subst v.
  apply IH in Hv0 as [Hnd Hin].
  rewrite dltb_0_cents. assert (Hsplit : ∀ (P : nat → row → Prop),
    (∃ j r', (r :: rows) !! j = Some r' ∧ P j r') ↔
    P O r ∨ ∃ j r', rows !! j = Some r' ∧ P (S j) r').
  { intros P. split.
    - intros ([|j] & r' & Hj & HP); [left; by injection Hj as ->|right; eauto].
    - intros [HP|(j & r' & Hj & HP)]; [by exists O, r|by exists (S j), r']. }
  assert (Hfresh : n ∉ (snd <$> v0)).
  { intros (c & Hc & (j & r' & _ & -> & _)%Hin)%list_elem_of_fmap. cbn in Hc. lia. }
  setoid_rewrite Hsplit. rewrite Nat.add_0_r. setoid_rewrite Nat.add_succ_r.
  destruct (Z.ltb_spec 0 (slack increase include_caps m r)) as [Hp|Hp].
  - split; [by constructor|]. intros c. rewrite elem_of_cons, Hin. cbn. tauto.
  - split; [done|]. intros c. rewrite Hin. cbn. split; [tauto|].
    intros [[_ ?]|?]; [lia|done].
Qed.

Lemma collect_good increase include_caps m rows cs :
  Forall (cents_row include_caps) rows →
  collect_candidates increase include_caps (cents m) 0 rows = Ok cs →
  NoDup (snd <$> sorted_by candidate_leb cs)
  ∧ Forall (good_candidate rows) (sorted_by candidate_leb cs).
Proof.
  intros Hr Hc. destruct (collect_candidates_spec _ _ _ _ _ _ Hr Hc) as [Hnd Hin].
  rewrite sorted_by_perm. split; [done|]. apply Forall_forall. intros c Hcin.
  apply Hin in Hcin as (j & r & Hj & -> & Hpos).
  exists r, (slack increase include_caps m r). split_and!; try done.
  by destruct (proj1 (Forall_lookup _ _) Hr _ _ Hj) as (_ & ? & _).
Qed.

(** [keeps r r']: a row after the distribution. *)
Definition keeps (r r' : row) : Prop :=
  floor_target r' = floor_target r ∧ cap_target r' = cap_target r
  ∧ site_code r' = site_code r ∧ calculated_weight r' = calculated_weight r
  ∧ dexp (proposed_target r') = -2
  ∧ (coef (floor_target r) <= coef (proposed_target r) →
     coef (floor_target r) <= coef (proposed_target r')).

#[global] Instance keeps_trans : Transitive keeps.
Proof.
  intros r1 r2 r3. unfold keeps. intros (-> & -> & -> & -> & _ & H1) (-> & -> & -> & -> & ? & H2). tauto.
Qed.

Lemma keeps_cents include_caps r r' : cents_row include_caps r → keeps r r' → cents_row include_caps r'.
Proof. unfold cents_row. intros (? & ? & ?) (-> & -> & _ & _ & ? & _). tauto. Qed.

Lemma pass_keeps increase include_caps m rows cs out rem returned :
  Forall (cents_row include_caps) rows → 0 < m →
  collect_candidates increase include_caps (cents m) 0 rows = Ok cs →
  distribute increase include_caps rows (cents m) (sorted_by candidate_leb cs)
    = Ok (out, rem, returned) →
  Forall2 keeps rows out.
Proof.
  intros Hr Hm Hc Hd. destruct (collect_good _ _ _ _ _ Hr Hc) as [Hnd Hg].
  destruct (collect_candidates_spec _ _ _ _ _ _ Hr Hc) as [_ Hin].
  destruct (distribute_moves _ _ _ _ _ _ _ _ Hnd Hg Hm Hd) as (Hl & Heff & _).
  apply Forall2_same_length_lookup. split; [done|]. intros i r r' Hi Hi'.
  destruct (proj1 (Forall_lookup _ _) Hr _ _ Hi) as (Hf & Hp & _).
  destruct (Heff i r Hi) as (r2 & Hi2 & [[-> _]|(c & d & Hcs & Hci & Hmv & Hd' & _)]);
    rewrite Hi' in Hi2; injection Hi2 as ->; [by split_and!|].
  rewrite elem_of_sorted_by in Hcs. apply Hin in Hcs as (j & r3 & Hj & -> & Hpos).
  cbn in Hci; subst j. rewrite Hi in Hj; injection Hj as <-.
  destruct Hmv as (Hpr & ? & ? & ? & ?). split_and!; try done; rewrite Hpr; [done|]. cbn.
  unfold capacity_of in Hd'; cbn in Hd'. unfold slack in Hd'.
  destruct increase; cbn in *; lia.
Qed.

Lemma rounding_loop_keeps fuel increase include_caps requested rows m out :
  Forall (cents_row include_caps) rows →
  rounding_loop fuel increase include_caps requested rows (cents m) = Ok out →
  Forall2 keeps rows out.
Proof.
  revert rows m; induction fuel as [|fuel IH]; intros rows m Hr; cbn; [done|].
  rewrite dltb_0_cents. intros H.
  assert (Hrefl : Forall2 keeps rows rows).
  { apply Forall_Forall2_diag. eapply Forall_impl; [done|]. by intros r (? & ? & _); split_and!. }
  destruct (Z.ltb_spec 0 m) as [Hm|Hm]; [|by injection H as <-].
  cbn in H. inv_res. destruct v as [|c cs] eqn:Hcs; inv_res.
  { destruct v0 as [[? ?] ?]. by apply infeasible_not_Ok in H. }
  rewrite <- Hcs in *. destruct v0 as [[rows' rem] returned].
  pose proof (pass_keeps _ _ _ _ _ _ _ _ Hr Hm Hv Hv0) as Hk.
  destruct returned; [by injection H as <-|].
  destruct (collect_good _ _ _ _ _ Hr Hv) as [Hnd Hg].
  destruct (distribute_moves _ _ _ _ _ _ _ _ Hnd Hg Hm Hv0) as (_ & _ & Hret).
  destruct (Hret eq_refl) as [(m' & -> & Hm') _].
  apply IH in H.
  - by etransitivity.
  - apply Forall_lookup. intros i r' Hi. destruct (Forall2_lookup_r _ _ _ _ _ Hk Hi) as (r & Hir & ?).
    eapply keeps_cents; [|done]. by eapply (proj1 (Forall_lookup _ _) Hr).
Qed.

(** After a pass that did not return early no row has any room left. *)
Lemma second_pass_empty increase include_caps m rows cs out rem cs' :
  Forall (cents_row include_caps) rows → 0 < m → cs ≠ [] →
  collect_candidates increase include_caps (cents m) 0 rows = Ok cs →
  distribute increase include_caps rows (cents m) (sorted_by candidate_leb cs)
    = Ok (out, rem, false) →
  collect_candidates increase include_caps rem 0 out = Ok cs' → cs' = [].
Proof.
  intros Hr Hm Hne Hc Hd Hc'. destruct (collect_good _ _ _ _ _ Hr Hc) as [Hnd Hg].
  destruct (collect_candidates_spec _ _ _ _ _ _ Hr Hc) as [_ Hin].
  pose proof (pass_keeps _ _ _ _ _ _ _ _ Hr Hm Hc Hd) as Hk.
  destruct (distribute_moves _ _ _ _ _ _ _ _ Hnd Hg Hm Hd) as (Hl & Heff & Hret).
  destruct (Hret eq_refl) as [(m' & -> & Hm') Hlt].
  assert (Hr' : Forall (cents_row include_caps) out).
  { apply Forall_lookup. intros i r' Hi. destruct (Forall2_lookup_r _ _ _ _ _ Hk Hi) as (r & Hir & ?).
    eapply keeps_cents; [|done]. by eapply (proj1 (Forall_lookup _ _) Hr). }
  destruct (collect_candidates_spec _ _ _ _ _ _ Hr' Hc') as [_ Hin'].
  destruct cs' as [|c' cs']; [done|]. exfalso.
  destruct (proj1 (Hin' c') ltac:(left)) as (i & r' & Hi & _ & Hpos).
  destruct (lookup_lt_is_Some_2 rows i) as [r Hri]; [by rewrite <- Hl; eapply lookup_lt_Some|].
  destruct (increase && negb include_caps) eqn:Hmode.
  - (* without caps every capacity is the whole difference *)
    destruct cs as [|c cs]; [done|].
    assert (Hcin : c ∈ sorted_by candidate_leb (c :: cs)) by (apply elem_of_sorted_by; left).
    pose proof (proj1 (Forall_forall _ _) Hlt c Hcin) as Hcm.
    apply elem_of_sorted_by, Hin in Hcin as (j & rj & _ & -> & _).
    unfold capacity_of, slack in Hcm. destruct increase, include_caps; cbn in *; try done; lia.
  - destruct (Heff i r Hri) as (r2 & Hi2 & Hcase). rewrite Hi in Hi2. injection Hi2 as <-.
    destruct Hcase as [[-> Hnot]|(c & d & Hcs & Hci & Hmv & _ & Hex)].
    + apply (Hnot eq_refl). apply list_elem_of_fmap.
      exists (cents (slack increase include_caps m r), site_code r, i). split; [done|].
      apply elem_of_sorted_by, Hin. exists i, r. split_and!; try done.
      unfold slack in *. destruct increase, include_caps; cbn in *; done || lia.
    + rewrite (Hex eq_refl) in Hmv. apply elem_of_sorted_by, Hin in Hcs as (j & rj & Hj & -> & _).
      cbn in Hci; subst j. rewrite Hri in Hj; injection Hj as <-.
      destruct Hmv as (Hp & Hf & Hcp & _). unfold capacity_of in Hp.
      unfold slack in *. rewrite Hp, ?Hf, ?Hcp in Hpos.
      destruct increase, include_caps; cbn in *; done || lia.
Qed.

(** The rounding-difference loop of amounts in cents makes at most two
    passes: it returns or raises, and never runs out of iterations. *)
Theorem rounding_loop_two_passes increase include_caps requested rows m :
  Forall (cents_row include_caps) rows →
  rounding_loop 2 increase include_caps requested rows (cents m) ≠ Err OutOfFuel.
Proof.
  intros Hr. cbn [rounding_loop]. rewrite dltb_0_cents.
  destruct (Z.ltb_spec 0 m) as [Hm0|]; cbn [negb]; [|done].
  assert (Hcf : ∀ m' n rows', collect_candidates increase include_caps m' n rows' ≠ Err OutOfFuel).
  { intros m' n rows'. revert n; induction rows' as [|r rows' IH]; intros n; cbn; [done|]. no_fuel. }
  assert (Hdf : ∀ cs rows' rem, distribute increase include_caps rows' rem cs ≠ Err OutOfFuel).
  { intros cs; induction cs as [|[[cp st] i] cs IH]; intros rows' rem; cbn; [done|]. no_fuel. }
  destruct (collect_candidates increase include_caps (cents m) 0 rows) as [cs|e] eqn:Hcs;
    cbn [mbind res_bind]; [|intros [= ->]; by apply Hcf in Hcs].
  assert (Hempty : ∀ rs, (normalize_bounds rs include_caps ≫= λ '(_, ft, ct),
            infeasible (A := list row) requested ft ct) ≠ Err OutOfFuel).
  { intros rs. no_fuel. by apply normalize_bounds_not_fuel. }
  destruct cs as [|c cs0] eqn:Hc; [apply Hempty|].
  assert (Hne : cs ≠ []) by by rewrite Hc. rewrite <- Hc in *. clear Hc.
  destruct (distribute _ _ _ _ _) as [[[rows' rem] [|]]|e] eqn:Hd; cbn [mbind res_bind];
    [done| |intros [= ->]; by apply Hdf in Hd].
  destruct (dltb d0 rem); cbn [negb]; [|done].
  destruct (collect_candidates _ _ rem _ _) as [cs'|e] eqn:Hcs'; cbn [mbind res_bind];
    [|intros [= ->]; by apply Hcf in Hcs'].
  rewrite (second_pass_empty _ _ _ _ _ _ _ _ Hr Hm0 Hne Hcs Hd Hcs').
  apply Hempty.
Qed.

(** ** The floor allocator *)

Definition same_bounds (r r' : row) : Prop :=
  floor_target r' = floor_target r ∧ cap_target r' = cap_target r
  ∧ site_code r' = site_code r ∧ calculated_weight r' = calculated_weight r.

#[global] Instance same_bounds_equiv : Equivalence same_bounds.
Proof.
  split; unfold same_bounds.
  - by intros r.
  - by intros r r' (-> & -> & -> & ->).
  - by intros r1 r2 r3 (-> & -> & -> & ->) (-> & -> & -> & ->).
Qed.

Lemma same_bounds_floor rows rows' i :
  Forall2 same_bounds rows rows' → floor_target (rows' !!! i) = floor_target (rows !!! i).
Proof.
  intros HF. rewrite !list_lookup_total_alt.
  destruct (rows !! i) as [r|] eqn:Hr.
  - by destruct (Forall2_lookup_l _ _ _ _ _ HF Hr) as (r' & -> & Hf & _).
  - apply lookup_ge_None in Hr. rewrite (Forall2_length _ _ _ HF) in Hr.
    by rewrite lookup_ge_None_2.
Qed.

Lemma mark_floors_spec below rows assigned budget rows' assigned' budget' :
  mark_floors rows assigned budget below = (rows', assigned', budget') →
  Forall2 same_bounds rows rows'
  ∧ assigned' = assigned ++ ((λ i, (i, floor_target (rows !!! i))) <$> below).
Proof.
  revert rows assigned budget; induction below as [|i below IH]; intros rows assigned budget; cbn.
  { intros [= <- <- <-]. split; [reflexivity|]. by rewrite app_nil_r. }
  set (rows1 := <[i := _]> rows).
  assert (H1 : Forall2 same_bounds rows rows1).
  { unfold rows1. destruct (decide (i < length rows)%nat) as [Hi|Hi].
    - destruct (lookup_lt_is_Some_2 rows i Hi) as [r Hr].
      rewrite <- (list_insert_id rows i r Hr) at 1. apply Forall2_insert; [reflexivity|].
      by rewrite (list_lookup_total_correct _ _ _ Hr).
    - rewrite list_insert_ge by lia. reflexivity. }
  clearbody rows1. intros [HF ->]%IH. split; [by etransitivity|].
  rewrite <- app_assoc. cbn. do 2 f_equal. apply list_fmap_ext.
  intros j k _. by rewrite (same_bounds_floor _ _ _ H1).
Qed.

Lemma filter_lt {A} (P : A → bool) l x :
  x ∈ l → P x = false → (length (List.filter P l) < length l)%nat.
Proof.
  intros Hx HP. induction l as [|y l IH]; [by apply elem_of_nil in Hx|].
  pose proof (List.filter_length_le P l). cbn.
  apply elem_of_cons in Hx as [->|Hx]; [rewrite HP; lia|].
  specialize (IH Hx). destruct (P y); cbn; lia.
Qed.

(** The shares computed for one round, in the order of the remaining rows. *)
Lemma shares_keys (f : nat → res alloc_error dec) remaining allocations :
  mapR (λ i, v ← f i; Ok (i, v)) remaining = Ok allocations → fst <$> allocations = remaining.
Proof.
  rewrite mapR_Ok. induction 1 as [|i [j v] is' al H _ IH]; cbn; [done|].
  inv_res. by simplify_eq.
Qed.

Lemma below_subset (rows : list row) (allocations : list (nat * dec)) i :
  i ∈ fst <$> List.filter (λ '(i, v), dltb v (floor_target (rows !!! i))) allocations →
  i ∈ fst <$> allocations.
Proof.
  rewrite !list_elem_of_fmap. intros (x & -> & Hx%list_elem_of_In%filter_In).
  exists x. split; [done|]. by apply list_elem_of_In, Hx.
Qed.

Lemma floors_loop_not_fuel fuel rows remaining assigned budget :
  (length remaining < fuel)%nat → floors_loop fuel rows remaining assigned budget ≠ Err OutOfFuel.
Proof.
  revert rows remaining assigned budget; induction fuel as [|fuel IH];
    intros rows remaining assigned budget Hf; [lia|]. cbn [floors_loop].
  destruct remaining as [|i0 rest] eqn:Hrem; [done|]. rewrite <- Hrem in *.
  destruct (mapR _ _) as [allocations|e] eqn:Hm; cbn [mbind res_bind].
  2: { intros [= ->]. revert Hm. apply mapR_avoids. intros i _. no_fuel. }
  destruct (fst <$> _) as [|b below] eqn:Hb; [done|]. rewrite <- Hb.
  destruct (mark_floors _ _ _ _) as [[rows' assigned'] budget'].
  apply IH. assert (Hin : b ∈ remaining).
  { rewrite <- (shares_keys _ _ _ Hm). eapply below_subset. rewrite Hb. left. }
  eapply Nat.lt_le_trans; [apply (filter_lt _ _ b Hin)|lia].
  rewrite Hb, bool_decide_true; [done|]. left.
Qed.

(** The loop assigns every remaining row once, never below its floor, and
    changes nothing of the rows but their bound marks. *)
Lemma floors_loop_spec fuel rows remaining assigned budget rows' assigned' :
  NoDup remaining → floors_loop fuel rows remaining assigned budget = Ok (rows', assigned') →
  Forall2 same_bounds rows rows' ∧
  ∃ added, assigned' = assigned ++ added ∧ fst <$> added ≡ₚ remaining
    ∧ Forall (λ x, dltb x.2 (floor_target (rows !!! x.1)) = false) added.
Proof.
  revert rows remaining assigned budget; induction fuel as [|fuel IH];
    intros rows remaining assigned budget Hnd; [done|]. cbn [floors_loop].
  destruct remaining as [|i0 rest] eqn:Hrem.
  { intros [= <- <-]. split; [reflexivity|]. exists []. by rewrite app_nil_r. }
  rewrite <- Hrem in *. intros H. apply bind_Ok in H as (al & Hal & H).
  apply shares_keys in Hal as Hkeys.
  set (below := fst <$> _) in H.
  assert (Hbelow : ∀ i v, (i, v) ∈ al → i ∉ below → dltb v (floor_target (rows !!! i)) = false).
  { intros i v Hin Hn. destruct (dltb v _) eqn:Hlt; [|done]. exfalso. apply Hn.
    apply list_elem_of_fmap. exists (i, v). split; [done|]. by apply list_elem_of_In, filter_In;
      rewrite <- list_elem_of_In. }
  destruct below as [|b below'] eqn:Hb.
  { injection H as <- <-. split; [reflexivity|]. exists al. split_and!; [done|by rewrite Hkeys|].
    apply Forall_forall. intros [i v] Hin. apply (Hbelow i v Hin). by apply not_elem_of_nil. }
  rewrite <- Hb in *. destruct (mark_floors _ _ _ _) as [[rows1 assigned1] budget1] eqn:Hmark.
  apply mark_floors_spec in Hmark as [Hsame ->]. apply IH in H as (Hsame' & added & -> & Hperm & Hge);
    [|by apply NoDup_ListNoDup, List.NoDup_filter, NoDup_ListNoDup].
  split; [by etransitivity|].
  exists (((λ i, (i, floor_target (rows !!! i))) <$> below) ++ added). split_and!.
  - by rewrite app_assoc.
  - rewrite fmap_app, keyed_keys, Hperm. subst below. rewrite <- Hkeys in Hnd |- *.
    apply split_perm; [by apply NoDup_fmap_filter|done|]. intros i. apply below_subset.
  - apply Forall_app. split.
    + apply Forall_fmap, Forall_true. intros i. cbn. apply dltb_false, QArith_base.Qle_refl.
    + eapply Forall_impl; [exact Hge|]. intros x. cbn. by rewrite (same_bounds_floor _ _ _ Hsame).
Qed.

Lemma write_money_lookup n rows assigned out :
  write_money n rows assigned = Ok out →
  length out = length rows ∧
  ∀ k r, rows !! k = Some r → ∃ d p,
    alloc_get assigned (n + k) = Some d ∧ money d = Ok p ∧ out !! k = Some (set_proposed r p).
Proof.
  revert n out; induction rows as [|r rows IH]; intros n out; cbn.
  { intros [= <-]. split; [done|]. intros k r. by rewrite lookup_nil. }
  case_match eqn:Hg; [|done]. intros H. inv_res. apply IH in Hv0 as [Hl Hk].
  split; [cbn; lia|]. intros [|k] r'; cbn.
  - intros [= <-]. exists d, v. by rewrite Nat.add_0_r.
  - intros Hr. apply Hk in Hr as (d' & p & ? & ? & ?). exists d', p.
    by replace (n + S k)%nat with (S n + k)%nat by lia.
Qed.

(** The row a floor allocation has reached before the rounding difference. *)
Definition floored_row (r r' : row) : Prop :=
  ∃ f p, money (floor_target r) = Ok (cents f) ∧ floor_target r' = cents f
    ∧ proposed_target r' = cents p ∧ f <= p
    ∧ cap_target r' = cap_target r ∧ site_code r' = site_code r
    ∧ calculated_weight r' = calculated_weight r.

Lemma floored_row_cents rows rows' : Forall2 floored_row rows rows' → Forall (cents_row false) rows'.
Proof.
  apply Forall2_right. intros r r' (f & p & _ & Hf & Hp & _). split_and!; [by rewrite Hf|by rewrite Hp|done].
Qed.

Lemma floors_phase rows rows1 rows2 rows3 assigned fuel budget :
  Forall2 normalized_floor rows rows1 →
  floors_loop fuel rows1 (seq 0 (length rows1)) [] budget = Ok (rows2, assigned) →
  write_money 0 rows2 assigned = Ok rows3 →
  Forall2 floored_row rows rows3.
Proof.
  intros Hn Hl Hw. apply floors_loop_spec in Hl as (Hsame & added & -> & Hperm & Hge);
    [|apply NoDup_seq]. cbn in Hw.
  apply write_money_lookup in Hw as [Hlen Hk]. apply Forall2_same_length_lookup. split.
  { apply Forall2_length in Hn, Hsame. lia. }
  intros k r r' Hr Hr'.
  destruct (Forall2_lookup_l _ _ _ _ _ Hn Hr) as (r1 & Hr1 & f & Hf & _ & ->).
  destruct (Forall2_lookup_l _ _ _ _ _ Hsame Hr1) as (r2 & Hr2 & Hf2 & Hc2 & Hs2 & Hw2).
  destruct (Hk k r2 Hr2) as (d & p & Hd & Hp & Hout). cbn in Hd.
  rewrite Hr' in Hout. injection Hout as ->.
  destruct (money_Ok _ _ Hp) as [Hpc _].
  exists f, (coef p). cbn in *. rewrite Hf2, Hc2, Hs2, Hw2. split_and!; try done.
  apply alloc_get_elem in Hd. pose proof (proj1 (Forall_forall _ _) Hge _ Hd) as Hfloor.
  cbn in Hfloor. rewrite (list_lookup_total_correct _ _ _ Hr1) in Hfloor. cbn in Hfloor.
  rewrite Hpc in Hp. unfold money, lift_dec, lift_err in Hp. case_match eqn:Hq; [|done].
  injection Hp as ->. by eapply quantize_half_up_ge.
Qed.

Lemma dabs_cents p z : Z.abs z < pow10 p → dabs p (cents z) = cents (Z.abs z).
Proof. intros H. unfold dabs. apply fix_prec_small. cbn. lia. Qed.

Lemma apply_rounding_keeps fuel rows requested include_caps out :
  Forall (cents_row include_caps) rows →
  apply_rounding_difference fuel rows requested include_caps = Ok out →
  Forall2 keeps rows out.
Proof.
  intros Hr H. unfold apply_rounding_difference in H. inv_res.
  destruct (money_Ok _ _ Hv) as [Hc Hb].
  case_match; [|rewrite Hc, dabs_cents in H by done; by eapply rounding_loop_keeps].
  injection H as <-. apply Forall_Forall2_diag. eapply Forall_impl; [done|].
  by intros r (? & ? & _); split_and!.
Qed.

(** When [allocate_with_floors] returns, every store keeps its identity and
    gets an amount in cents that is at least its floor, and the amounts add up
    to the requested budget exactly (non-negative floors, a total that fits the
    28-digit context). *)
Theorem allocate_with_floors_sound rows requested out :
  allocate_with_floors rows requested = Ok out → rows ≠ [] →
  Forall2 floored_row rows out
  ∧ (Forall (λ f, 0 <= f) (floors out) → sumZ (proposals out) < pow10 28 →
     money requested = Ok (cents (sumZ (proposals out)))).
Proof.
  intros H Hne. unfold allocate_with_floors in H. destruct rows as [|r0 rows0] eqn:Hrows; [done|].
  rewrite <- Hrows in *. clear Hrows. inv_res. destruct v0 as [[rows1 ft] ct].
  apply normalize_bounds_floors in Hv0 as (Hn & -> & ->).
  case_match; [by apply infeasible_not_Ok in H|]. inv_res. destruct v0 as [rows2 assigned].
  inv_res. case_match eqn:Hsum; [by apply infeasible_not_Ok in H|]. inv_res. bool_prop.
  rename v0 into rows3. pose proof (floors_phase _ _ _ _ _ _ _ Hn Hv0 Hv1) as HF3.
  pose proof (apply_rounding_keeps _ _ _ _ _ (floored_row_cents _ _ HF3) Hv2) as Hk.
  assert (HF : Forall2 floored_row rows out).
  { apply Forall2_same_length_lookup. split.
    - apply Forall2_length in HF3, Hk. lia.
    - intros i r r' Hr Hr'.
      destruct (Forall2_lookup_l _ _ _ _ _ HF3 Hr) as (r3 & Hr3 & f & p & ? & Hf & Hp & ? & ? & ? & ?).
      destruct (Forall2_lookup_lr _ _ _ _ _ _ Hk Hr3 Hr') as (Hf' & Hc' & Hs' & Hw' & He' & Hge).
      apply cents_coef in He'. exists f, (coef (proposed_target r')).
      rewrite Hf', Hc', Hs', Hw', Hf. split_and!; try done.
      rewrite Hf, Hp in Hge. cbn in Hge. by apply Hge. }
  split; [done|]. intros Hfl Hb. rewrite Hv. f_equal.
  destruct (money_Ok _ _ Hv) as [Hc _]. rewrite Hc in Hsum |- *.
  rewrite proposed_total_cents in Hsum.
  - rewrite deqb_cents in Hsum. bool_prop. by rewrite Hsum.
  - destruct HF; [done|discriminate].
  - eapply Forall2_right, HF. by intros r r' (? & ? & _ & _ & -> & _).
  - eapply Z.le_lt_trans; [|exact Hb]. unfold proposals. rewrite <- list_fmap_compose.
    apply sumZ_le, Forall_lookup. intros i r' Hr'.
    destruct (Forall2_lookup_r _ _ _ _ _ HF Hr') as (r & _ & f & p & _ & Hf & Hp & ? & _).
    assert (0 <= coef (floor_target r')).
    { eapply (proj1 (Forall_lookup _ _) Hfl i). unfold floors. by rewrite list_lookup_fmap, Hr'. }
    cbn. rewrite Hp. rewrite Hf in *. cbn in *. lia.
Qed.

Lemma apply_rounding_not_fuel rows requested include_caps :
  Forall (cents_row include_caps) rows →
  apply_rounding_difference 2 rows requested include_caps ≠ Err OutOfFuel.
Proof.
  intros Hr. unfold apply_rounding_difference.
  destruct (money _) as [d|e] eqn:Hm; cbn [mbind res_bind];
    [|intros [= ->]; by apply money_not_fuel in Hm].
  destruct (money_Ok _ _ Hm) as [Hd Hb]. case_match; [done|].
  rewrite Hd, dabs_cents by done. by apply rounding_loop_two_passes.
Qed.

Lemma write_money_not_fuel n rows assigned : write_money n rows assigned ≠ Err OutOfFuel.
Proof.
  revert n; induction rows as [|r rows IH]; intros n; cbn; [done|]. no_fuel.
Qed.

Lemma write_proposed_not_fuel n rows bases : write_proposed n rows bases ≠ Err OutOfFuel.
Proof.
  revert n; induction rows as [|r rows IH]; intros n; cbn; [done|]. no_fuel.
Qed.

(** Both allocators terminate: the iteration bounds given to the floor
    loop, the two-pass rounding loop and the binary search are never exhausted,
    whatever the rows, weights and budget. *)
Theorem allocators_terminate rows requested :
  allocate_with_floors rows requested ≠ Err OutOfFuel
  ∧ allocate_with_bounds rows requested ≠ Err OutOfFuel.
Proof.
  split.
  - unfold allocate_with_floors. destruct rows as [|r0 rows0] eqn:Hrows; [done|].
    rewrite <- Hrows. clear Hrows. no_fuel.
    + apply apply_rounding_not_fuel. eapply floored_row_cents, floors_phase; [|done|done].
      by eapply proj1, normalize_bounds_floors.
    + apply write_money_not_fuel.
    + apply floors_loop_not_fuel. rewrite length_seq. lia.
    + apply normalize_bounds_not_fuel.
  - unfold allocate_with_bounds. destruct rows as [|r0 rows0] eqn:Hrows; [done|].
    rewrite <- Hrows. clear Hrows. no_fuel.
    + unfold round_bounded_allocations. no_fuel; [apply write_proposed_not_fuel|].
      apply mapR_avoids. intros [] _. no_fuel.
    + unfold solve_box_allocations. no_fuel; apply solve_positive_box_not_fuel.
    + apply normalize_bounds_not_fuel.
Qed.

(** ** Concrete runs *)

Lemma binary_search_bracket_witness :
  ∃ i, binary_search_breakpoint_index 4 stores [0; 1; 2]%nat
         (λ i, calculated_weight (stores !!! i))
         [cents 0; cents 4000000; cents 10000000; cents 30000000] (cents 50000) 0 3 = Ok i.
Proof.
  destruct (binary_search_bracket stores [0; 1; 2]%nat (λ i, calculated_weight (stores !!! i))
      [cents 0; cents 4000000; cents 10000000; cents 30000000] (cents 50000) 0 3) as (i & H & _).
  - cbn. lia.
  - vm_compute. reflexivity.
  - vm_compute. reflexivity.
  - exists i. exact H.
Defined.

Lemma rounding_loop_two_passes_witness :
  let rows := (λ r, set_proposed r (floor_target r)) <$> stores in
  rounding_loop 2 true true (cents 100001) rows (cents 3) ≠ Err OutOfFuel.
Proof.
  apply (rounding_loop_two_passes true true (cents 100001)
           ((λ r, set_proposed r (floor_target r)) <$> stores) 3).
  unfold stores. cbn.
  repeat (apply Forall_cons_2; [unfold cents_row; split_and!; intros; reflexivity|]). constructor.
Defined.

Lemma allocate_with_floors_sound_witness :
  allocate_with_floors stores (cents 100001) = Ok floored_stores ∧
  money (cents 100001) = Ok (cents (sumZ (proposals floored_stores))).
Proof.
  split; [vm_compute; reflexivity|].
  destruct (allocate_with_floors_sound stores (cents 100001) floored_stores) as [_ H].
  - vm_compute. reflexivity.
  - discriminate.
  - apply H; [|vm_compute; reflexivity].
    apply (bool_decide_eq_true_1 (Forall (λ f, 0 <= f) (floors floored_stores))).
    vm_compute. reflexivity.
Defined.
