(* ===== verification/Outbox.v ===== *)
(** The transactional outbox: [repositories/transactional_outbox.py] over the
    tables, CHECK constraints and triggers of migration 069, and the admin
    replay of [services/outbox_replay.py].

    The database is an explicit state: the events by id, the append-only
    consumer receipts, the append-only replay audit.  One repository call is one
    transaction, so it is a function from the state to either an exception, and
    then the state is rolled back, or a result and a new state.  Every UPDATE
    goes through the table's CHECK constraint and the BEFORE UPDATE trigger.
    Instants are microseconds. *)

From S2P Require Import Prelude Text.

Local Open Scope Z_scope.

Module Outbox.

(** ** Data *)

Inductive event_state := Pending | Processing | Completed | Dead.
#[global] Instance event_state_eq : EqDecision event_state.
Proof. solve_decision. Defined.

(** The canonical JSON payload the producer builds. *)
Record payload := Payload {
  p_source_hash : string;
  p_cutoff : option Z;
  p_month : string;
}.
#[global] Instance payload_eq : EqDecision payload.
Proof. solve_decision. Defined.

(** The columns of an event no UPDATE may change. *)
Record identity := Identity {
  id : Z;
  event_type : string;
  aggregate_type : string;
  aggregate_id : string;
  generation_hash : string;
  revision : Z;
  aggregate_sequence : Z;
  event_key : string;
  body : payload;
  payload_sha256 : string;
  occurred_at : Z;
  created_at : Z;
}.
#[global] Instance identity_eq : EqDecision identity.
Proof. solve_decision. Defined.

Record OutboxEvent := Event {
  ident : identity;
  state : event_state;
  attempt_count : Z;
  available_at : Z;
  claim_owner : option string;
  claim_epoch : Z;
  lease_until : option Z;
  claimed_at : option Z;
  last_error_code : option string;
  last_error_at : option Z;
  updated_at : Z;
  completed_at : option Z;
  dead_at : option Z;
  replay_count : Z;
}.

Record receipt := Receipt {
  r_event : Z;
  r_consumer : string;
  r_generation_key : string;
  r_effect_sha256 : string;
  r_received_at : Z;
}.

Record replay_audit := Replay {
  a_event : Z;
  a_number : Z;
  a_previous_attempts : Z;
  a_previous_dead_at : Z;
  a_reason : string;
  a_actor_sha256 : string;
  a_requested_at : Z;
}.

Record db := Db {
  events : gmap Z OutboxEvent;
  receipts : list receipt;
  audits : list replay_audit;
}.

Definition empty_db : db := Db ∅ [] [].

Inductive outbox_error :=
| ValueError (message : string)
| StaleClaim
| ConsumerReceiptConflict
| DomainGenerationReceiptConflict
| ReceiptNotObservable
| EventNotFound
| NotExactDead
| ChangedDuringReplay
| ProducerRejected (message : string)
| DbViolation (constraint : string).

(** A [datetime]: only an aware one denotes an instant. *)
Inductive datetime := Aware (instant : Z) | Naive (wall : Z).

Definition require_aware (value : datetime) (field : string) : res outbox_error Z :=
  match value with
  | Aware t => Ok t
  | Naive _ => Err (ValueError (field +:+ " must be timezone-aware"))
  end.

Definition second : Z := 1000000.

(** ** Patterns *)

Definition RETRY_DELAYS_SECONDS : list Z := [5; 30; 120; 300; 900; 1800; 3600; 3600].

Definition owner_re : string → bool := run_match (λ c, is_alnum c || one_of "._-" c) 1 128.
Definition error_re : string → bool :=
  head_match is_lower (λ c, is_lower c || is_digit c || one_of "_.-" c) 79.
Definition consumer_re : string → bool := error_re.
Definition generation_key_re : string → bool :=
  head_match is_alpha (λ c, is_alnum c || one_of "._:-" c) 239.
Definition sha256_re : string → bool := run_match is_hex 64 64.

(** ** CHECK constraint and trigger of the events table *)

(** Which columns a state must and must not carry. *)
Definition state_shape (e : OutboxEvent) : bool :=
  match state e, claim_owner e, lease_until e, completed_at e, dead_at e with
  | Pending, None, None, None, None => true
  | Processing, Some _, Some _, None, None =>
      (0 <? claim_epoch e) && bool_decide (is_Some (claimed_at e))
  | Completed, None, None, Some _, None => true
  | Dead, None, None, None, Some _ => attempt_count e =? 8
  | _, _, _, _, _ => false
  end.

Definition error_shape (e : OutboxEvent) : bool :=
  negb (attempt_count e =? 0)
  || match last_error_code e, last_error_at e with None, None => true | _, _ => false end.

Definition row_check (e : OutboxEvent) : bool :=
  (0 <=? attempt_count e) && (attempt_count e <=? 8)
  && (0 <=? claim_epoch e) && (0 <=? replay_count e)
  && match claim_owner e with None => true | Some o => owner_re o end
  && match last_error_code e with None => true | Some c => error_re c end
  && state_shape e && error_shape e.

(** [guard_retail_outbox_event_mutation]: may [old] be replaced by [new]? *)
Definition guard_update (log : list replay_audit) (old new : OutboxEvent) : bool :=
  bool_decide (ident old = ident new)
  && (updated_at old <=? updated_at new) && (claim_epoch old <=? claim_epoch new)
  && match state old with
     | Completed => false
     | Pending =>
         bool_decide (state new = Processing)
         && (claim_epoch old <? claim_epoch new)
         && (attempt_count new =? attempt_count old + 1)
         && (replay_count new =? replay_count old)
     | Processing =>
         match state new with
         | Processing =>
             bool_decide (claim_owner new = claim_owner old)
             && (claim_epoch new =? claim_epoch old)
             && (attempt_count new =? attempt_count old)
             && (replay_count new =? replay_count old)
         | _ =>
             (claim_epoch new =? claim_epoch old)
             && (attempt_count new =? attempt_count old)
             && (replay_count new =? replay_count old)
         end
     | Dead =>
         bool_decide (state new = Pending)
         && (replay_count new =? replay_count old + 1)
         && (attempt_count new =? 0)
         && (claim_epoch new =? claim_epoch old)
         && match last_error_code new, last_error_at new with None, None => true | _, _ => false end
         && existsb (λ r, (a_event r =? id (ident old))
                     && (a_number r =? replay_count new)
                     && (a_previous_attempts r =? attempt_count old)
                     && bool_decide (Some (a_previous_dead_at r) = dead_at old)) log
     end.

(** [UPDATE retail_outbox_events SET ... WHERE id = $1]. *)
Definition update_row (eid : Z) (set : OutboxEvent → OutboxEvent) (d : db) : res outbox_error db :=
  match events d !! eid with
  | None => Ok d
  | Some e =>
      let e' := set e in
      _ ← raise_if (negb (guard_update (audits d) e e'))
            (DbViolation "trg_retail_outbox_events_guard");
      _ ← raise_if (negb (row_check e')) (DbViolation "retail_outbox_events_check");
      Ok (Db (<[eid := e']> (events d)) (receipts d) (audits d))
  end.

(** An UPDATE of several rows, whose WHERE clause was evaluated beforehand. *)
Definition update_rows (eids : list Z) (set : OutboxEvent → OutboxEvent) (d : db) : res outbox_error db :=
  foldR (λ d' eid, update_row eid set d') d eids.

(** ** Producer *)

Section Producer.
(** pgcrypto's digest of the payload text, and the CHECK constraints on the
    immutable columns: SQL and C code, arguments of the model. *)
Context (payload_digest : identity → payload → string) (identity_check : identity → bool).

Definition same_aggregate (a b : identity) : bool :=
  bool_decide (aggregate_type a = aggregate_type b)
  && bool_decide (aggregate_id a = aggregate_id b).

Definition max_sequence (i : identity) (d : db) : Z :=
  foldr Z.max 0 (aggregate_sequence <$>
    List.filter (same_aggregate i) ((λ p, ident p.2) <$> map_to_list (events d))).

Definition with_sequence (n : Z) (digest : string) (i : identity) : identity :=
  Identity (id i) (event_type i) (aggregate_type i) (aggregate_id i) (generation_hash i)
    (revision i) n (event_key i) (body i) digest (occurred_at i) (created_at i).

(** [emit_retail_outbox_event_internal]: the caller supplies the drawn UUID
    and the transaction's clock in [proto]; its sequence is not read. *)
Definition emit_internal (proto : identity) (d : db) : res outbox_error (Z * db) :=
  let digest := payload_digest proto (body proto) in
  match List.filter (λ p, bool_decide (event_key (ident p.2) = event_key proto))
          (map_to_list (events d)) with
  | (_, e) :: _ =>
      let x := ident e in
      if bool_decide (event_type x = event_type proto)
         && same_aggregate x proto
         && bool_decide (generation_hash x = generation_hash proto)
         && (revision x =? revision proto)
         && bool_decide (body x = body proto)
         && bool_decide (payload_sha256 x = digest)
         && (occurred_at x =? occurred_at proto)
      then Ok (id x, d)
      else Err (ProducerRejected "transactional outbox idempotency key payload differs")
  | [] =>
      let i := with_sequence (max_sequence proto d + 1) digest proto in
      _ ← raise_if (bool_decide (is_Some (events d !! id i)))
            (DbViolation "retail_outbox_events_pkey");
      _ ← raise_if (negb (identity_check i)) (DbViolation "retail_outbox_events_check");
      Ok (id i,
          Db (<[id i := Event i Pending 0 (created_at i) None 0 None None None None
                          (created_at i) None None 0]> (events d))
             (receipts d) (audits d))
  end.

(** [format_revision] is PostgreSQL's [revision::TEXT]. *)
Context (format_revision : Z → string).

Definition emit_sales_generation_promoted
    (drawn_id tx_now : Z) (agg_id generation source month : string)
    (cutoff : datetime) (rev : Z) (occurred : datetime) (d : db) : res outbox_error (Z * db) :=
  cutoff_t ← require_aware cutoff "cutoff";
  occurred_t ← require_aware occurred "occurred_at";
  let ty := "retail.sales_generation_promoted.v1"%string in
  emit_internal
    (Identity drawn_id ty "sales_generation" agg_id generation rev 0
       (ty +:+ ":" +:+ agg_id +:+ ":" +:+ generation +:+ ":" +:+ format_revision rev)
       (Payload source (Some cutoff_t) month) "" occurred_t tx_now) d.
End Producer.

(** ** Claims *)

Definition event_receipts (eid : Z) (d : db) : list receipt :=
  List.filter (λ r, r_event r =? eid) (receipts d).

(** [SELECT max(receipt.received_at) ... WHERE receipt.event_id = event.id]. *)
Definition receipt_at (eid : Z) (d : db) : option Z :=
  match r_received_at <$> event_receipts eid d with
  | [] => None
  | t :: ts => Some (foldr Z.max t ts)
  end.

Definition is_expired (now : Z) (e : OutboxEvent) : bool :=
  bool_decide (state e = Processing)
  && match lease_until e with Some u => u <=? now | None => false end.

(** The SET clause of [_RECLAIM_EXPIRED_SQL]. *)
Definition reclaim_set (now : Z) (d : db) (e : OutboxEvent) : OutboxEvent :=
  let got := receipt_at (id (ident e)) d in
  let has := bool_decide (is_Some got) in
  let last := attempt_count e =? 8 in
  Event (ident e)
    (if has then Completed else if last then Dead else Pending)
    (attempt_count e)
    (if has || last then available_at e else now)
    None (claim_epoch e) None (claimed_at e)
    (if has then last_error_code e else Some "lease_expired"%string)
    (if has then last_error_at e else Some now)
    now
    (match got with
     | Some t => Some (default t (completed_at e))
     | None => completed_at e
     end)
    (if has then None else if last then Some now else None)
    (replay_count e).

Definition expired_ids (now : Z) (d : db) : list Z :=
  (fst <$> List.filter (λ p, is_expired now p.2) (map_to_list (events d))).

Definition reclaim_expired (now : Z) (d : db) : res outbox_error db :=
  update_rows (expired_ids now d) (reclaim_set now d) d.

(** [ORDER BY available_at, created_at, id]. *)
Definition claim_leb : OutboxEvent → OutboxEvent → bool :=
  lex_leb (cmp_on available_at Z.compare)
    (lex_leb (cmp_on (λ e, created_at (ident e)) Z.compare)
       (leb_on (λ e, id (ident e)) Z.leb)).

Definition precedes (p c : OutboxEvent) : bool :=
  same_aggregate (ident p) (ident c)
  && (aggregate_sequence (ident p) <? aggregate_sequence (ident c)).

Definition blocked (d : db) (c : OutboxEvent) : bool :=
  existsb (λ p, precedes p.2 c && negb (bool_decide (state p.2 = Completed)))
    (map_to_list (events d)).

Definition claimable (now : Z) (d : db) (c : OutboxEvent) : bool :=
  bool_decide (state c = Pending) && (available_at c <=? now) && negb (blocked d c).

(** The candidates CTE; [locked] holds the rows other transactions have locked
    ([FOR UPDATE SKIP LOCKED]). *)
Definition candidates (now : Z) (limit : nat) (locked : gset Z) (d : db) : list OutboxEvent :=
  take limit
    (List.filter (λ e, negb (bool_decide (id (ident e) ∈ locked)))
       (sorted_by claim_leb
          (List.filter (claimable now d) (snd <$> map_to_list (events d))))).

Definition claim_set (owner : string) (now lease_seconds : Z) (e : OutboxEvent) : OutboxEvent :=
  Event (ident e) Processing (attempt_count e + 1) (available_at e)
    (Some owner) (claim_epoch e + 1) (Some (now + lease_seconds * second)) (Some now)
    (last_error_code e) (last_error_at e) now (completed_at e) (dead_at e) (replay_count e).

Definition claim_batch (owner : string) (now : datetime) (limit lease_seconds : Z)
    (locked : gset Z) (d : db) : res outbox_error (list OutboxEvent * db) :=
  _ ← raise_if (negb (owner_re owner)) (ValueError "outbox claim owner is invalid");
  t ← require_aware now "now";
  _ ← raise_if (negb ((1 <=? limit) && (limit <=? 100)))
        (ValueError "outbox claim batch must be between 1 and 100");
  _ ← raise_if (negb ((1 <=? lease_seconds) && (lease_seconds <=? 3600)))
        (ValueError "outbox lease must be between 1 and 3600 seconds");
  d1 ← reclaim_expired t d;
  let picked := candidates t (Z.to_nat limit) locked d1 in
  d2 ← update_rows (id ∘ ident <$> picked) (claim_set owner t lease_seconds) d1;
  Ok (sorted_by claim_leb (claim_set owner t lease_seconds <$> picked), d2).

(** ** Fenced transitions of one claim *)

(** [state = 'processing' AND claim_owner = $2 AND claim_epoch = $3 AND
    lease_until > now]. *)
Definition holds_claim (owner : string) (epoch now : Z) (e : OutboxEvent) : bool :=
  bool_decide (state e = Processing)
  && bool_decide (claim_owner e = Some owner)
  && (claim_epoch e =? epoch)
  && match lease_until e with Some u => now <? u | None => false end.

(** An UPDATE guarded by the claim, [stale outbox claim] when no row matches. *)
Definition fenced_update (eid : Z) (owner : string) (epoch now : Z)
    (set : OutboxEvent → OutboxEvent) (d : db) : res outbox_error (OutboxEvent * db) :=
  match events d !! eid with
  | Some e =>
      if holds_claim owner epoch now e
      then d' ← update_row eid set d; Ok (set e, d')
      else Err StaleClaim
  | None => Err StaleClaim
  end.

Definition renew_set (now lease_seconds : Z) (e : OutboxEvent) : OutboxEvent :=
  Event (ident e) (state e) (attempt_count e) (available_at e) (claim_owner e) (claim_epoch e)
    (Some (now + lease_seconds * second)) (claimed_at e) (last_error_code e) (last_error_at e)
    now (completed_at e) (dead_at e) (replay_count e).

Definition renew_lease (eid : Z) (owner : string) (epoch : Z) (now : datetime)
    (lease_seconds : Z) (d : db) : res outbox_error (bool * db) :=
  _ ← raise_if (negb (owner_re owner)) (ValueError "outbox claim owner is invalid");
  t ← require_aware now "now";
  _ ← raise_if (negb ((1 <=? lease_seconds) && (lease_seconds <=? 3600)))
        (ValueError "outbox lease must be between 1 and 3600 seconds");
  r ← fenced_update eid owner epoch t (renew_set t lease_seconds) d;
  Ok (true, r.2).

Definition complete_set (now : Z) (e : OutboxEvent) : OutboxEvent :=
  Event (ident e) Completed (attempt_count e) (available_at e) None (claim_epoch e) None
    (claimed_at e) (last_error_code e) (last_error_at e) now (Some now) (dead_at e)
    (replay_count e).

Definition mark_completed (eid : Z) (owner : string) (epoch : Z) (now : datetime)
    (d : db) : res outbox_error (bool * db) :=
  t ← require_aware now "now";
  r ← fenced_update eid owner epoch t (complete_set t) d;
  Ok (true, r.2).

(** The CASE expression of [_MARK_FAILED_SQL]. *)
Definition retry_delay (attempts : Z) : Z :=
  if attempts =? 1 then 5 else if attempts =? 2 then 30 else if attempts =? 3 then 120
  else if attempts =? 4 then 300 else if attempts =? 5 then 900
  else if attempts =? 6 then 1800 else 3600.

Definition fail_set (code : string) (now : Z) (d : db) (e : OutboxEvent) : OutboxEvent :=
  let got := receipt_at (id (ident e)) d in
  let has := bool_decide (is_Some got) in
  let last := attempt_count e =? 8 in
  Event (ident e)
    (if has then Completed else if last then Dead else Pending)
    (attempt_count e)
    (if has || last then available_at e
     else now + retry_delay (attempt_count e) * second)
    None (claim_epoch e) None (claimed_at e)
    (if has then last_error_code e else Some code)
    (if has then last_error_at e else Some now)
    now
    (match got with
     | Some t => Some (default t (completed_at e))
     | None => completed_at e
     end)
    (if has then None else if last then Some now else None)
    (replay_count e).

Definition mark_failed (eid : Z) (owner : string) (epoch : Z) (code : string) (now : datetime)
    (d : db) : res outbox_error (event_state * db) :=
  _ ← raise_if (negb (error_re code)) (ValueError "outbox error code is invalid");
  t ← require_aware now "now";
  r ← fenced_update eid owner epoch t (fail_set code t d) d;
  Ok (state r.1, r.2).

(** ** Receipts *)

Definition same_event_receipt (eid : Z) (consumer : string) (r : receipt) : bool :=
  (r_event r =? eid) && bool_decide (r_consumer r = consumer).
Definition same_generation_receipt (consumer key : string) (r : receipt) : bool :=
  bool_decide (r_consumer r = consumer) && bool_decide (r_generation_key r = key).

(** The CHECK constraints on [domain_generation_key]. *)
Definition generation_key_check (key : string) : bool :=
  generation_key_re key && negb (has_personal_code key).

(** [INSERT ... ON CONFLICT DO NOTHING RETURNING event_id]. *)
Definition insert_receipt (r : receipt) (d : db) : res outbox_error (bool * db) :=
  _ ← raise_if (negb (generation_key_check (r_generation_key r)))
        (DbViolation "retail_outbox_consumer_receipts_domain_generation_key_check");
  if existsb (same_event_receipt (r_event r) (r_consumer r)) (receipts d)
     || existsb (same_generation_receipt (r_consumer r) (r_generation_key r)) (receipts d)
  then Ok (false, d)
  else Ok (true, Db (events d) (receipts d ++ [r]) (audits d)).

Definition record_receipt (eid : Z) (owner : string) (epoch : Z)
    (consumer key effect : string) (received : datetime) (d : db)
    : res outbox_error (bool * db) :=
  _ ← raise_if (negb (consumer_re consumer)) (ValueError "outbox consumer is invalid");
  _ ← raise_if (negb (generation_key_re key))
        (ValueError "outbox domain generation key is invalid");
  _ ← raise_if (negb (sha256_re effect)) (ValueError "outbox effect digest is invalid");
  t ← require_aware received "received_at";
  _ ← raise_if (negb match events d !! eid with
                     | Some e => holds_claim owner epoch t e
                     | None => false
                     end) StaleClaim;
  r ← insert_receipt (Receipt eid consumer key effect t) d;
  if (r.1 : bool) then Ok (true, r.2) else
  match List.find (same_event_receipt eid consumer) (receipts d),
        List.find (same_generation_receipt consumer key) (receipts d) with
  | Some x, _ =>
      if bool_decide (r_generation_key x = key) && bool_decide (r_effect_sha256 x = effect)
      then Ok (false, d) else Err ConsumerReceiptConflict
  | None, Some x =>
      if (r_event x =? eid) && bool_decide (r_effect_sha256 x = effect)
      then Ok (false, d) else Err DomainGenerationReceiptConflict
  | None, None => Err ReceiptNotObservable
  end.

(** ** Audited replay *)

Definition replay_set (n now : Z) (e : OutboxEvent) : OutboxEvent :=
  Event (ident e) Pending 0 now (claim_owner e) (claim_epoch e) (lease_until e) (claimed_at e)
    None None now (completed_at e) None n.

Definition reason_re : string → bool :=
  head_match is_lower (λ c, is_lower c || is_digit c || one_of "_.:-" c) 79.

(** [guard_retail_outbox_replay_insert] and the constraints of the audit table. *)
Definition insert_audit (a : replay_audit) (d : db) : res outbox_error db :=
  _ ← raise_if (negb match events d !! a_event a with
                     | Some e =>
                         bool_decide (state e = Dead) && (attempt_count e =? 8)
                         && bool_decide (dead_at e = Some (a_previous_dead_at a))
                         && (a_previous_attempts a =? attempt_count e)
                         && (a_number a =? replay_count e + 1)
                     | None => false
                     end) (DbViolation "trg_retail_outbox_replay_audit_insert");
  _ ← raise_if (negb ((1 <=? a_number a) && (a_previous_attempts a =? 8)
                      && reason_re (a_reason a) && sha256_re (a_actor_sha256 a)))
        (DbViolation "retail_outbox_replay_audit_check");
  _ ← raise_if (existsb (λ x, (a_event x =? a_event a) && (a_number x =? a_number a)) (audits d))
        (DbViolation "retail_outbox_replay_audit_key");
  Ok (Db (events d) (receipts d) (audits d ++ [a])).

Definition replay_dead (eid : Z) (reason actor_sha256 : string) (now : datetime)
    (d : db) : res outbox_error (Z * db) :=
  t ← require_aware now "now";
  _ ← raise_if (negb (error_re reason)) (ValueError "outbox replay reason is invalid");
  _ ← raise_if (negb (sha256_re actor_sha256)) (ValueError "outbox replay actor digest is invalid");
  match events d !! eid with
  | None => Err EventNotFound
  | Some e =>
      match state e, attempt_count e =? 8, dead_at e with
      | Dead, true, Some dead =>
          let n := replay_count e + 1 in
          d1 ← insert_audit (Replay eid n 8 dead reason actor_sha256 t) d;
          match events d1 !! eid with
          | Some e1 =>
              if bool_decide (state e1 = Dead)
              then d2 ← update_row eid (replay_set n t) d1; Ok (n, d2)
              else Err ChangedDuringReplay
          | None => Err ChangedDuringReplay
          end
      | _, _, _ => Err NotExactDead
      end
  end.

(** [services/outbox_replay.py]; its [_REASON_RE] is the audit table's pattern. *)
Definition replay_dead_event (sha256_hex : string → string) (eid : Z)
    (reason requested_by : string) (now : datetime) (d : db) : res outbox_error (Z * db) :=
  _ ← raise_if (negb (reason_re reason))
        (ValueError "replay reason must be canonical and at most 80 characters");
  let actor := strip requested_by in
  _ ← raise_if (bool_decide (actor = ""%string)) (ValueError "requested_by_sub is required");
  replay_dead eid reason (sha256_hex actor) now d.

(** ** Observation *)

Record observed := Observed { oldest_pending_us : Z; head_blocked : nat }.

(** [observe_state]: the age is reported in seconds; kept here in microseconds. *)
Definition observe_state (now : datetime) (d : db) : res outbox_error observed :=
  t ← require_aware now "now";
  let rows := snd <$> map_to_list (events d) in
  let waiting := List.filter (λ e, bool_decide (state e = Pending)) rows in
  let age := match (λ e, t - created_at (ident e)) <$> waiting with
             | [] => 0
             | x :: xs => foldr Z.max x xs
             end in
  Ok (Observed (Z.max 0 age) (length (List.filter (blocked d) waiting))).

(** ** Interleavings: any producer and any worker may take the next transaction *)

Section Steps.
Context (payload_digest : identity → payload → string) (identity_check : identity → bool).

Inductive step (d : db) : db → Prop :=
| step_emit proto r d' :
    emit_internal payload_digest identity_check proto d = Ok (r, d') → step d d'
| step_claim owner now limit lease locked r d' :
    claim_batch owner now limit lease locked d = Ok (r, d') → step d d'
| step_renew eid owner epoch now lease r d' :
    renew_lease eid owner epoch now lease d = Ok (r, d') → step d d'
| step_receipt eid owner epoch consumer key effect now r d' :
    record_receipt eid owner epoch consumer key effect now d = Ok (r, d') → step d d'
| step_complete eid owner epoch now r d' :
    mark_completed eid owner epoch now d = Ok (r, d') → step d d'
| step_fail eid owner epoch code now r d' :
    mark_failed eid owner epoch code now d = Ok (r, d') → step d d'
| step_replay eid reason actor now r d' :
    replay_dead eid reason actor now d = Ok (r, d') → step d d'.

Definition steps : db → db → Prop := rtc step.
Definition reachable (d : db) : Prop := steps empty_db d.
End Steps.

End Outbox.
