(* ===== verification/OutboxInv.v ===== *)
(** The invariant of the outbox tables of [Outbox.v]: one guarded UPDATE, several
    of them, the evolution order on databases, and the proof that every
    repository operation keeps the invariant. *)

From S2P Require Import Prelude Text Outbox.
Import Outbox.

Local Open Scope Z_scope.

(** ** One guarded UPDATE *)

Lemma update_row_Ok eid f d d' :
  update_row eid f d = Ok d' →
  (events d !! eid = None ∧ d' = d) ∨
  ∃ e, events d !! eid = Some e ∧ guard_update (audits d) e (f e) = true ∧
       row_check (f e) = true ∧ d' = Db (<[eid := f e]> (events d)) (receipts d) (audits d).
Proof.
  unfold update_row. destruct (events d !! eid) as [e|] eqn:He; [|intros [= <-]; by left].
  intros H. inv_res. bool_prop. right. exists e. done.
Qed.

Lemma update_row_run eid f d e :
  events d !! eid = Some e → guard_update (audits d) e (f e) = true → row_check (f e) = true →
  update_row eid f d = Ok (Db (<[eid := f e]> (events d)) (receipts d) (audits d)).
Proof. intros He Hg Hc. unfold update_row. by rewrite He, Hg, Hc. Qed.

(** What the trigger promises of any accepted update. *)
Record guarded (old new : OutboxEvent) : Prop := {
  gu_ident : ident new = ident old;
  gu_clock : updated_at old <= updated_at new;
  gu_epoch : claim_epoch old <= claim_epoch new;
  gu_open : state old ≠ Completed;
  gu_pending : state old = Pending →
    state new = Processing ∧ claim_epoch old < claim_epoch new ∧
    attempt_count new = attempt_count old + 1 ∧ replay_count new = replay_count old;
  gu_busy : state old ≠ Pending → claim_epoch new = claim_epoch old;
  gu_dead : state old = Dead →
    state new = Pending ∧ attempt_count new = 0 ∧ replay_count new = replay_count old + 1;
  gu_attempt : state old = Processing →
    attempt_count new = attempt_count old ∧ replay_count new = replay_count old;
}.

Lemma guard_update_guarded log old new : guard_update log old new = true → guarded old new.
Proof.
  unfold guard_update. intros H. split_bools.
  destruct (state old) eqn:Ho; [| destruct (state new) eqn:Hn | done | ];
    split_bools; split; intros; try congruence; repeat split; try congruence; try lia.
Qed.

(** ** Evolution: identities are kept, completed rows are frozen, epochs grow *)

Record evolves (d d' : db) : Prop := {
  ev_row i e : events d !! i = Some e → ∃ e', events d' !! i = Some e' ∧
    ident e' = ident e ∧ claim_epoch e <= claim_epoch e' ∧
    (state e = Completed → e' = e) ∧
    (state e ≠ Processing → state e' = Processing → claim_epoch e < claim_epoch e');
  ev_receipts : ∃ l, receipts d' = receipts d ++ l;
}.

#[global] Instance evolves_preorder : PreOrder evolves.
Proof.
  split.
  - intros d. split; [|exists []; by rewrite app_nil_r].
    intros i e He. exists e. split_and!; done || lia.
  - intros a b c [Hab (l & Hl)] [Hbc (k & Hk)]. split.
    + intros i e He. destruct (Hab i e He) as (e' & He' & Hi & Hep & Hc & Hp).
      destruct (Hbc i e' He') as (e'' & He'' & Hi' & Hep' & Hc' & Hp').
      exists e''. split_and!; [done|congruence|lia| |].
      * intros Hs. specialize (Hc Hs) as ->. auto.
      * intros Hs Hs''. destruct (decide (state e' = Processing)) as [Hm|Hm].
        -- specialize (Hp Hs Hm). lia.
        -- specialize (Hp' Hm Hs''). lia.
    + exists (l ++ k). by rewrite Hk, Hl, app_assoc.
Qed.

(** The steps of single rows compose into evolutions of the table. *)
Lemma insert_evolves d eid e e' rs :
  events d !! eid = Some e → guarded e e' →
  evolves d (Db (<[eid := e']> (events d)) (receipts d) rs).
Proof.
  intros He G. split; cbn; [|exists []; by rewrite app_nil_r].
  intros i x Hx. destruct (decide (i = eid)) as [->|Hne].
  - rewrite lookup_insert_eq. exists e'. assert (x = e) as -> by congruence.
    destruct G. split_and!; try done.
    intros Hs Hs'. destruct (state e) eqn:Hse; try done; [apply gu_pending0; done|].
    destruct gu_dead0 as (? & _); [done|congruence].
  - rewrite lookup_insert_ne by done. exists x. split_and!; done || lia.
Qed.

Lemma update_row_evolves eid f d d' : update_row eid f d = Ok d' → evolves d d'.
Proof.
  intros [(_ & ->)|(e & He & Hg & _ & ->)]%update_row_Ok; [reflexivity|].
  by eapply insert_evolves, guard_update_guarded.
Qed.

Lemma update_rows_evolves ids f d d' : update_rows ids f d = Ok d' → evolves d d'.
Proof.
  unfold update_rows. revert d. induction ids as [|i ids IH]; intros d; cbn.
  - intros [= <-]. reflexivity.
  - intros (d1 & H1%update_row_evolves & H2%IH)%bind_Ok. by transitivity d1.
Qed.

(** ** The invariant *)

Definition unblocked (d : db) (c : OutboxEvent) : Prop :=
  ∀ i p, events d !! i = Some p → precedes p c = true → state p = Completed.

Record row_wf (d : db) (i : Z) (e : OutboxEvent) : Prop := {
  rw_id : id (ident e) = i;
  rw_check : row_check e = true;
  rw_pending : state e = Pending → attempt_count e <= 7;
  rw_epoch : state e ≠ Pending → 0 < claim_epoch e;
  rw_attempt : state e ≠ Pending → 1 <= attempt_count e;
  rw_fifo : 0 < claim_epoch e → unblocked d e;
}.

Record wf (d : db) : Prop := {
  wf_row i e : events d !! i = Some e → row_wf d i e;
  wf_sequence i j e f : events d !! i = Some e → events d !! j = Some f →
    same_aggregate (ident e) (ident f) = true →
    aggregate_sequence (ident e) = aggregate_sequence (ident f) → i = j;
  wf_key i j e f : events d !! i = Some e → events d !! j = Some f →
    event_key (ident e) = event_key (ident f) → i = j;
  wf_receipt_event : NoDup ((λ r, (r_event r, r_consumer r)) <$> receipts d);
  wf_receipt_key : NoDup ((λ r, (r_consumer r, r_generation_key r)) <$> receipts d);
  wf_receipt_row r : r ∈ receipts d → ∃ e, events d !! r_event r = Some e ∧ 0 < claim_epoch e;
}.

Lemma precedes_ident p c p' c' :
  ident p' = ident p → ident c' = ident c → precedes p' c' = precedes p c.
Proof. unfold precedes. by intros -> ->. Qed.

Lemma unblocked_insert d eid e e' c :
  events d !! eid = Some e → guarded e e' → unblocked d c → ∀ rs log,
  unblocked (Db (<[eid := e']> (events d)) rs log) c.
Proof.
  intros He G Hu rs log i p Hp Hpre; cbn in Hp.
  apply lookup_insert_Some in Hp as [[-> ->]|[Hne Hp]]; [|by eapply Hu].
  destruct G. rewrite (precedes_ident e c _ c) in Hpre by done.
  exfalso. apply gu_open0. by eapply Hu.
Qed.

Lemma unblocked_ident d c c' : ident c' = ident c → unblocked d c → unblocked d c'.
Proof. intros Hi Hu i p Hp Hpre. eapply Hu; [done|]. by rewrite <- (precedes_ident p c p c'). Qed.

(** A guarded update keeps the invariant when it starts no blocked attempt and
    leaves no exhausted event pending. *)
Lemma update_row_wf eid f d d' :
  wf d → update_row eid f d = Ok d' →
  (∀ e, events d !! eid = Some e → state (f e) = Pending → attempt_count (f e) <= 7) →
  (∀ e, events d !! eid = Some e → state e = Pending → state (f e) = Processing → unblocked d e) →
  wf d'.
Proof.
  intros [Hrow Hseq Hkey Hre Hrk Hrr] Hup Hatt Hblk.
  apply update_row_Ok in Hup as [(_ & ->)|(e & He & Hg & Hc & ->)]; [by split|].
  pose proof (guard_update_guarded _ _ _ Hg) as G.
  assert (Hid : ∀ i x, <[eid := f e]> (events d) !! i = Some x →
            ∃ y, events d !! i = Some y ∧ ident x = ident y).
  { intros i x [[<- <-]|[? ?]]%lookup_insert_Some; [exists e|exists x]; split; try done.
    by destruct G. }
  split; cbn; [| | |done|done|].
  - intros i x Hx. destruct (Hid i x Hx) as (y & Hy & Hxy).
    apply lookup_insert_Some in Hx as [[<- <-]|[Hne Hx]].
    + assert (y = e) as -> by congruence. destruct (Hrow _ _ He) as [R1 R2 R3 R4 R6 R5].
      destruct G as [G1 G2 G3 G4 G5 G6 G7 G8].
      assert (Hep : state e ≠ Pending → 0 < claim_epoch e) by done.
      split; [congruence|done|by apply Hatt| | |].
      * intros Hs. destruct (decide (state e = Pending)) as [Hp|Hp]; [|rewrite G6; auto].
        destruct (G5 Hp) as (_ & ? & _). unfold row_check in R2. split_bools. lia.
      * intros Hs. unfold row_check in R2. split_bools.
        destruct (state e) eqn:Hse; [|destruct (G8 eq_refl) as [-> _]; by apply R6|done|].
        -- destruct (G5 eq_refl) as (_ & _ & ? & _). lia.
        -- by destruct (G7 eq_refl) as [? _].
      * intros Hpos. apply (unblocked_insert _ _ e); [done|by eapply guard_update_guarded|].
        apply (unblocked_ident _ e); [done|].
        destruct (decide (state e = Pending)) as [Hp|Hp]; [|by apply R5, Hep].
        apply Hblk; try done. by destruct (G5 Hp) as (? & _).
    + destruct (Hrow _ _ Hx) as [R1 R2 R3 R4 R6 R5]. split; try done.
      intros Hpos. by apply (unblocked_insert _ _ e); [..|apply R5].
  - intros i j x y (x' & Hx & ->)%Hid (y' & Hy & ->)%Hid. eauto.
  - intros i j x y (x' & Hx & ->)%Hid (y' & Hy & ->)%Hid. eauto.
  - intros r Hr. destruct (Hrr r Hr) as (x & Hx & Hpos).
    destruct (decide (r_event r = eid)) as [Heq|Hne].
    + rewrite Heq, lookup_insert_eq. exists (f e). split; [done|].
      assert (x = e) as -> by congruence. destruct G. lia.
    + rewrite lookup_insert_ne by done. by exists x.
Qed.

Lemma evolves_unblocked d d' i e : evolves d d' → (∀ j, is_Some (events d' !! j) → is_Some (events d !! j)) →
  events d !! i = Some e → unblocked d e → unblocked d' e.
Proof.
  intros [Hev _] Hdom He Hu j p Hp Hpre.
  destruct (Hdom j) as [q Hq]; [by eexists|].
  destruct (Hev j q Hq) as (p' & Hp' & Hi & _ & Hc & _).
  assert (p' = p) as -> by congruence.
  assert (state q = Completed) as Hs.
  { eapply Hu; [done|]. by rewrite (precedes_ident p e q e). }
  by rewrite (Hc Hs).
Qed.

Lemma update_row_dom eid f d d' j :
  update_row eid f d = Ok d' → is_Some (events d' !! j) ↔ is_Some (events d !! j).
Proof.
  intros [(_ & ->)|(e & He & _ & _ & ->)]%update_row_Ok; [done|]. cbn.
  rewrite lookup_insert_is_Some. split; [|intros; destruct (decide (eid = j)); eauto].
  intros [<-|[_ ?]]; [by eexists|done].
Qed.

Lemma update_row_lookup eid f d d' i :
  update_row eid f d = Ok d' →
  events d' !! i = (if decide (i = eid) then f <$> events d !! i else events d !! i).
Proof.
  intros [(He & ->)|(e & He & _ & _ & ->)]%update_row_Ok; cbn; case_decide; subst; try done.
  - by rewrite He.
  - by rewrite lookup_insert_eq, He.
  - by rewrite lookup_insert_ne.
Qed.

Lemma update_row_logs eid f d d' :
  update_row eid f d = Ok d' → receipts d' = receipts d ∧ audits d' = audits d.
Proof. by intros [(_ & ->)|(? & _ & _ & _ & ->)]%update_row_Ok. Qed.

(** The exact effect of an UPDATE of several rows. *)
Lemma update_rows_lookup ids f d d' :
  NoDup ids → update_rows ids f d = Ok d' →
  (∀ i, events d' !! i = (if decide (i ∈ ids) then f <$> events d !! i else events d !! i)) ∧
  receipts d' = receipts d ∧ audits d' = audits d.
Proof.
  unfold update_rows. intros Hnd. revert d. induction Hnd as [|x ids Hx Hnd IH]; intros d; cbn.
  - by intros [= <-].
  - intros (d1 & H1 & H2)%bind_Ok. destruct (IH d1 H2) as (Hi & Hr & Ha).
    destruct (update_row_logs _ _ _ _ H1) as [Hr1 Ha1].
    split_and!; [|congruence..]. intros i. rewrite Hi, (update_row_lookup _ _ _ _ i H1).
    repeat case_decide; set_solver.
Qed.

Lemma update_rows_wf ids f d d' :
  NoDup ids → wf d → update_rows ids f d = Ok d' →
  (∀ e, state (f e) = Pending → row_check e = true → attempt_count (f e) <= 7) →
  (∀ eid e, eid ∈ ids → events d !! eid = Some e → state e = Pending →
            state (f e) = Processing → unblocked d e) →
  wf d'.
Proof.
  unfold update_rows. intros Hnd. revert d. induction Hnd as [|i ids Hi Hnd IH]; intros d Hwf; cbn.
  - by intros [= <-].
  - intros (d1 & H1 & H2)%bind_Ok Hatt Hblk. apply (IH d1); [|done|done|].
    + eapply update_row_wf; [done..| |].
      * intros e He Hs. apply Hatt; [done|]. by destruct (wf_row _ Hwf i e He).
      * intros e He. apply (Hblk i); [by left|done].
    + intros eid e Hin He Hs Hf. rewrite (update_row_lookup _ _ _ _ eid H1) in He.
      rewrite decide_False in He by set_solver.
      apply (evolves_unblocked d d1 eid); [by eapply update_row_evolves| |done|].
      * intros j. by rewrite (update_row_dom _ _ _ _ j H1).
      * apply (Hblk eid); [by right|done..].
Qed.

(** When no constraint objects, the UPDATE of several rows goes through. *)
Lemma update_rows_run ids f d :
  NoDup ids →
  (∀ i e, i ∈ ids → events d !! i = Some e →
     guard_update (audits d) e (f e) = true ∧ row_check (f e) = true) →
  ∃ d', update_rows ids f d = Ok d'.
Proof.
  unfold update_rows. intros Hnd. revert d. induction Hnd as [|x ids Hx Hnd IH]; intros d Hok; cbn.
  - by eexists.
  - destruct (update_row x f d) as [d1|err] eqn:H1; cbn.
    + apply IH. intros i e Hi He. rewrite (update_row_lookup _ _ _ _ i H1) in He.
      rewrite decide_False in He by set_solver.
      destruct (update_row_logs _ _ _ _ H1) as [_ ->]. apply (Hok i); [by right|done].
    + exfalso. unfold update_row in H1. destruct (events d !! x) as [e|] eqn:He; [|done].
      destruct (Hok x e) as [Hg Hc]; [by left|done|]. by rewrite Hg, Hc in H1.
Qed.

(** ** Selecting rows *)

Definition rows (d : db) : list OutboxEvent := snd <$> map_to_list (events d).

Lemma elem_of_rows d e : wf d → e ∈ rows d ↔ events d !! id (ident e) = Some e.
Proof.
  intros Hwf. unfold rows. rewrite list_elem_of_fmap. split.
  - intros ([i x] & -> & Hx%elem_of_map_to_list). cbn.
    by rewrite (rw_id _ _ _ (wf_row _ Hwf i x Hx)).
  - intros He. exists (id (ident e), e). split; [done|]. by apply elem_of_map_to_list.
Qed.

Lemma NoDup_row_ids d : wf d → NoDup (id ∘ ident <$> rows d).
Proof.
  intros Hwf. unfold rows. rewrite <- list_fmap_compose.
  rewrite (list_fmap_ext _ fst); [apply NoDup_fst_map_to_list|].
  intros k [i e] Hk. cbn. apply list_elem_of_lookup_2, elem_of_map_to_list in Hk.
  by destruct (wf_row _ Hwf i e Hk).
Qed.

Lemma blocked_unblocked d c : blocked d c = false ↔ unblocked d c.
Proof.
  unfold blocked, unblocked. split.
  - intros Hb i p Hp Hpre.
    apply elem_of_map_to_list, list_elem_of_lookup in Hp as [k Hk].
    pose proof (existsb_false_lookup _ _ k _ Hb Hk) as H; cbn in H.
    rewrite Hpre in H. cbn in H. by apply negb_false_iff, bool_decide_eq_true in H.
  - intros Hu. apply not_true_is_false. intros ([i p] & Hin & Hp)%existsb_exists.
    apply list_elem_of_In, elem_of_map_to_list in Hin. cbn in Hp.
    apply andb_true_iff in Hp as [Hpre Hs]. apply negb_true_iff, bool_decide_eq_false in Hs.
    by apply Hs, (Hu i).
Qed.

Lemma elem_of_expired d now i :
  i ∈ expired_ids now d ↔ ∃ e, events d !! i = Some e ∧ is_expired now e = true.
Proof.
  unfold expired_ids. rewrite list_elem_of_fmap. split.
  - intros ([j e] & -> & [Hin He]%list_elem_of_In%filter_In).
    apply list_elem_of_In, elem_of_map_to_list in Hin. by exists e.
  - intros (e & He & Hx). exists (i, e). split; [done|].
    apply list_elem_of_In, filter_In. by rewrite <- list_elem_of_In, elem_of_map_to_list.
Qed.

Lemma NoDup_expired d now : NoDup (expired_ids now d).
Proof. apply NoDup_fmap_filter, NoDup_fst_map_to_list. Qed.

Lemma elem_of_candidates d now n locked e :
  wf d → e ∈ candidates now n locked d →
  events d !! id (ident e) = Some e ∧ claimable now d e = true ∧ id (ident e) ∉ locked.
Proof.
  intros Hwf Hin. unfold candidates in Hin.
  apply list_elem_of_lookup in Hin as [k Hk]. apply lookup_take_Some in Hk as [Hk _].
  apply list_elem_of_lookup_2, list_elem_of_In, filter_In in Hk as [Hk Hl].
  apply list_elem_of_In, elem_of_sorted_by, list_elem_of_In, filter_In in Hk as [Hk Hc].
  apply list_elem_of_In, (elem_of_rows d e Hwf) in Hk.
  split_and!; [done..|]. by apply negb_true_iff, bool_decide_eq_false in Hl.
Qed.

Lemma NoDup_candidates d now n locked :
  wf d → NoDup (id ∘ ident <$> candidates now n locked d).
Proof.
  intros Hwf. unfold candidates. rewrite fmap_take.
  eapply sublist_NoDup; [|apply sublist_take]. apply NoDup_fmap_filter.
  rewrite sorted_by_perm. by apply NoDup_fmap_filter, NoDup_row_ids.
Qed.

(** ** The operations keep the invariant and let the table evolve *)

Lemma fenced_update_Ok eid owner epoch now f d e' d' :
  fenced_update eid owner epoch now f d = Ok (e', d') →
  ∃ e, events d !! eid = Some e ∧ holds_claim owner epoch now e = true ∧ e' = f e ∧
       update_row eid f d = Ok d'.
Proof.
  unfold fenced_update. destruct (events d !! eid) as [e|] eqn:He; [|done].
  destruct (holds_claim _ _ _ e) eqn:Hh; [|done]. intros H. inv_res. simplify_eq. by exists e.
Qed.

Lemma holds_claim_inv owner epoch now e :
  holds_claim owner epoch now e = true →
  state e = Processing ∧ claim_owner e = Some owner ∧ claim_epoch e = epoch ∧
  ∃ u, lease_until e = Some u ∧ now < u.
Proof.
  unfold holds_claim. intros H. split_bools. split_and!; try done.
  destruct (lease_until e) as [u|]; [|done]. exists u. split; [done|]. lia.
Qed.

(** Appending evidence changes no event. *)
Lemma append_wf d l : wf d → wf (Db (events d) (receipts d) (audits d ++ l)).
Proof.
  intros [H1 H2 H3 H4 H5 H6]. split; try done.
  intros i e He. destruct (H1 i e He). by split.
Qed.

Lemma append_audit_evolves d l : evolves d (Db (events d) (receipts d) (audits d ++ l)).
Proof.
  split; cbn; [|exists []; by rewrite app_nil_r].
  intros i e He. exists e. split_and!; done || lia.
Qed.

Lemma find_none_receipt (p : receipt → bool) l : existsb p l = false ↔ Forall (λ r, p r = false) l.
Proof.
  induction l as [|r l IH]; cbn; [split; [constructor|done]|].
  rewrite orb_false_iff, IH, Forall_cons. done.
Qed.

Lemma insert_receipt_wf r d b d' e :
  wf d → events d !! r_event r = Some e → 0 < claim_epoch e →
  insert_receipt r d = Ok (b, d') → wf d' ∧ evolves d d'.
Proof.
  intros Hwf He Hpos H. unfold insert_receipt in H. inv_res.
  destruct (_ || _) eqn:Hdup; inv_res; simplify_eq; [by split|].
  apply orb_false_iff in Hdup as [D1%find_none_receipt D2%find_none_receipt].
  destruct Hwf as [H1 H2 H3 H4 H5 H6]. split.
  - split; cbn; try done.
    + intros i x Hx. destruct (H1 i x Hx). by split.
    + rewrite fmap_app, NoDup_app. split_and!; [done| |apply NoDup_singleton].
      intros p (x & -> & Hx)%list_elem_of_fmap Hp%list_elem_of_singleton.
      injection Hp as E1 E2. rewrite Forall_forall in D1. specialize (D1 _ Hx).
      unfold same_event_receipt in D1. rewrite E1, E2, Z.eqb_refl in D1. cbn in D1.
      by apply bool_decide_eq_false in D1.
    + rewrite fmap_app, NoDup_app. split_and!; [done| |apply NoDup_singleton].
      intros p (x & -> & Hx)%list_elem_of_fmap Hp%list_elem_of_singleton.
      injection Hp as E1 E2. rewrite Forall_forall in D2. specialize (D2 _ Hx).
      unfold same_generation_receipt in D2. rewrite E1, E2 in D2.
      by rewrite !bool_decide_eq_true_2 in D2.
    + intros x [Hx|Hx%list_elem_of_singleton]%elem_of_app; [auto|]. subst. by exists e.
  - split; cbn; [|by eexists]. intros i x Hx. exists x. split_and!; done || lia.
Qed.

Lemma foldr_max_ge l x : x ∈ l → x <= foldr Z.max 0 l.
Proof.
  induction l as [|y l IH]; [by rewrite elem_of_nil|].
  rewrite elem_of_cons. intros [->|Hx]; cbn; [lia|]. specialize (IH Hx). lia.
Qed.

(** What the producer does: the event is there already, or a fresh one is appended. *)
Lemma emit_internal_Ok payload_digest identity_check proto d r d' :
  emit_internal payload_digest identity_check proto d = Ok (r, d') →
  (d' = d ∧ ∃ i e, events d !! i = Some e ∧ same_aggregate (ident e) proto = true ∧
     revision (ident e) = revision proto) ∨
  events d !! id proto = None ∧
  ∃ e, ident e = with_sequence (max_sequence proto d + 1) (payload_digest proto (body proto)) proto ∧
    state e = Pending ∧ d' = Db (<[id proto := e]> (events d)) (receipts d) (audits d).
Proof.
  unfold emit_internal. intros H.
  destruct (List.filter _ _) as [|[j e] l] eqn:Hf; [right|left].
  - do 2 apply bind_Ok in H as (? & ?%raise_if_Ok & H). injection H as _ <-.
    split; [apply eq_None_not_Some; by eapply bool_decide_eq_false|].
    eexists. split_and!; [| |reflexivity]; reflexivity.
  - assert (Hin : In (j, e) ((j, e) :: l)) by by left. rewrite <- Hf in Hin.
    apply filter_In in Hin as [Hin _]. apply list_elem_of_In, elem_of_map_to_list in Hin.
    destruct (_ && _) eqn:Hb in H; [|done]. injection H as _ <-. split; [done|].
    exists j, e. rewrite !andb_true_iff, Z.eqb_eq in Hb. tauto.
Qed.

Lemma max_sequence_ge i d j e :
  events d !! j = Some e → same_aggregate i (ident e) = true →
  aggregate_sequence (ident e) <= max_sequence i d.
Proof.
  intros He Ha. apply foldr_max_ge, list_elem_of_fmap. exists (ident e). split; [done|].
  apply list_elem_of_In, filter_In. split; [|done].
  apply list_elem_of_In, list_elem_of_fmap. exists (j, e). split; [done|].
  by apply elem_of_map_to_list.
Qed.

Lemma same_aggregate_sym a b : same_aggregate a b = same_aggregate b a.
Proof. unfold same_aggregate. f_equal; apply bool_decide_ext; done. Qed.

Lemma same_aggregate_trans a b c :
  same_aggregate a b = true → same_aggregate b c = true → same_aggregate a c = true.
Proof.
  unfold same_aggregate. rewrite !andb_true_iff, !bool_decide_eq_true. intros [-> ->] [-> ->].
  done.
Qed.

(** A fresh row behind its whole aggregate keeps the invariant. *)
Lemma insert_fresh_wf d i e :
  wf d → events d !! i = None → id (ident e) = i → state e = Pending → attempt_count e = 0 →
  claim_epoch e = 0 → row_check e = true →
  (∀ j f, events d !! j = Some f → same_aggregate (ident e) (ident f) = true →
     aggregate_sequence (ident f) < aggregate_sequence (ident e)) →
  (∀ j f, events d !! j = Some f → event_key (ident f) ≠ event_key (ident e)) →
  wf (Db (<[i := e]> (events d)) (receipts d) (audits d)).
Proof.
  intros [H1 H2 H3 H4 H5 H6] Hi Hid Hs Ha Hep Hc Hseq Hkey. split; cbn; [| | |done|done|].
  - intros j x [[<- <-]|[Hne Hx]]%lookup_insert_Some; [split; done || (intros; lia)|].
    destruct (H1 j x Hx) as [R1 R2 R3 R4 R6 R5]. split; try done.
    intros Hpos k p Hp Hpre; cbn in Hp.
    apply lookup_insert_Some in Hp as [[<- <-]|[Hnk Hp]]; [|by eapply R5].
    exfalso. unfold precedes in Hpre. apply andb_true_iff in Hpre as [Hag Hlt%Z.ltb_lt].
    specialize (Hseq j x Hx Hag). lia.
  - intros j k x y [[<- <-]|[Hj Hx]]%lookup_insert_Some [[<- <-]|[Hk Hy]]%lookup_insert_Some
      Hag Heq; [done| | |by eapply H2].
    + specialize (Hseq k y Hy Hag). lia.
    + rewrite same_aggregate_sym in Hag. specialize (Hseq j x Hx Hag). lia.
  - intros j k x y [[<- <-]|[Hj Hx]]%lookup_insert_Some [[<- <-]|[Hk Hy]]%lookup_insert_Some Heq;
      [done| | |by eapply H3].
    + by destruct (Hkey k y Hy).
    + by destruct (Hkey j x Hx).
  - intros r Hr. destruct (H6 r Hr) as (x & Hx & Hpos). exists x. split; [|done].
    rewrite lookup_insert_ne; [done|]. intros ->. congruence.
Qed.

Section Preservation.
Context (payload_digest : identity → payload → string) (identity_check : identity → bool).
Notation emit := (emit_internal payload_digest identity_check).

Lemma emit_wf proto d r d' : wf d → emit proto d = Ok (r, d') → wf d' ∧ evolves d d'.
Proof.
  intros Hwf. unfold emit_internal.
  destruct (List.filter _ _) as [|[j e] l] eqn:Hf.
  2:{ destruct (_ && _); [|done]. intros [= _ <-]. by split. }
  set (i := with_sequence _ _ _). intros H. inv_res. simplify_eq.
  apply bool_decide_eq_false, eq_None_not_Some in Hv.
  split.
  - apply insert_fresh_wf; try done.
    + intros j f Hj Hag. pose proof (max_sequence_ge proto d j f Hj Hag). cbn. lia.
    + intros j f Hj Heq.
      assert (Hin : (j, f) ∈ List.filter (λ p, bool_decide (event_key (ident p.2) = event_key proto))
                      (map_to_list (events d))).
      { apply list_elem_of_In, filter_In. rewrite <- list_elem_of_In, elem_of_map_to_list.
        split; [done|]. by apply bool_decide_eq_true. }
      rewrite Hf in Hin. by apply elem_of_nil in Hin.
  - split; cbn; [|exists []; by rewrite app_nil_r].
    intros j f Hj. exists f. split_and!; try done.
    rewrite lookup_insert_ne; [done|]. intros <-. cbn in *. congruence.
Qed.
End Preservation.

Lemma reclaim_set_attempt now d0 e :
  row_check e = true → state (reclaim_set now d0 e) = Pending → attempt_count e <= 7.
Proof.
  unfold row_check. intros Hc. split_bools. cbn.
  destruct (receipt_at _ _); cbn; [done|]. destruct (Z.eqb_spec (attempt_count e) 8); [done|]. lia.
Qed.

Lemma reclaim_set_state now d0 e : state (reclaim_set now d0 e) ≠ Processing.
Proof. cbn. by destruct (receipt_at _ _), (attempt_count e =? 8). Qed.

Lemma reclaim_wf now d d' : wf d → reclaim_expired now d = Ok d' → wf d' ∧ evolves d d'.
Proof.
  intros Hwf H. split; [|by eapply update_rows_evolves].
  eapply update_rows_wf; [apply NoDup_expired|done..| |].
  - intros e Hs Hc. exact (reclaim_set_attempt _ _ e Hc Hs).
  - intros i e _ _ _ Hs. by apply reclaim_set_state in Hs.
Qed.

Lemma claim_wf owner now limit lease locked d r d' :
  wf d → claim_batch owner now limit lease locked d = Ok (r, d') → wf d' ∧ evolves d d'.
Proof.
  intros Hwf H. unfold claim_batch in H. inv_res. simplify_eq.
  match goal with H : reclaim_expired _ _ = Ok ?d1 |- _ =>
    destruct (reclaim_wf _ _ _ Hwf H) as [Hwf1 Hev1]; rename d1 into dr end.
  match goal with H : update_rows _ _ _ = Ok _ |- _ => rename H into Hup end.
  split; [|transitivity dr; [done|by eapply update_rows_evolves]].
  eapply update_rows_wf; [by apply NoDup_candidates|done..|done|].
  intros i e Hin He _ _. apply list_elem_of_fmap in Hin as (x & -> & Hx).
  apply elem_of_candidates in Hx as (Hx & Hc & _); [|done]. cbn in He.
  assert (x = e) as -> by congruence.
  unfold claimable in Hc. split_bools.
  by apply blocked_unblocked, negb_true_iff.
Qed.

Lemma fail_set_attempt code now d0 e :
  row_check e = true → state (fail_set code now d0 e) = Pending → attempt_count e <= 7.
Proof.
  unfold row_check. intros Hc. split_bools. cbn.
  destruct (receipt_at _ _); cbn; [done|]. destruct (Z.eqb_spec (attempt_count e) 8); [done|]. lia.
Qed.

(** A fenced update of a held claim. *)
Lemma fenced_wf eid owner epoch now f d e' d' :
  wf d → fenced_update eid owner epoch now f d = Ok (e', d') →
  (∀ e, row_check e = true → state e = Processing → state (f e) = Pending → attempt_count (f e) <= 7) →
  wf d' ∧ evolves d d'.
Proof.
  intros Hwf (e & He & Hh & _ & Hu)%fenced_update_Ok Hf.
  apply holds_claim_inv in Hh as (Hs & _).
  split; [|by eapply update_row_evolves].
  eapply update_row_wf; [done..| |].
  - intros x Hx Hp. assert (x = e) as -> by congruence. apply Hf; [|done..].
    by destruct (wf_row _ Hwf _ _ He).
  - intros x Hx Hp. congruence.
Qed.

Lemma record_receipt_wf eid owner epoch consumer key effect now d r d' :
  wf d → record_receipt eid owner epoch consumer key effect now d = Ok (r, d') →
  wf d' ∧ evolves d d'.
Proof.
  intros Hwf H. unfold record_receipt in H. inv_res. bool_prop.
  destruct (events d !! eid) as [e|] eqn:He; [|done].
  destruct v4 as [b d1]. cbn in H.
  destruct b; inv_res; simplify_eq.
  - apply holds_claim_inv in Hv3 as (Hs & _).
    refine (insert_receipt_wf (Receipt eid consumer key effect v2) d true d' e Hwf He _ Hv4).
    apply (rw_epoch _ _ _ (wf_row _ Hwf _ _ He)). congruence.
  - repeat case_match; inv_res; simplify_eq; by split.
Qed.

Lemma insert_audit_Ok a d d' :
  insert_audit a d = Ok d' → d' = Db (events d) (receipts d) (audits d ++ [a]).
Proof. unfold insert_audit. intros H. by inv_res. Qed.

Lemma replay_wf eid reason actor now d r d' :
  wf d → replay_dead eid reason actor now d = Ok (r, d') → wf d' ∧ evolves d d'.
Proof.
  intros Hwf H. unfold replay_dead in H. inv_res.
  destruct (events d !! eid) as [e|] eqn:He; [|done].
  destruct (state e) eqn:Hs; try done. destruct (attempt_count e =? 8); [|done].
  destruct (dead_at e); [|done]. inv_res.
  apply insert_audit_Ok in Hv2 as ->. cbn in H. rewrite He, Hs in H.
  rewrite bool_decide_eq_true_2 in H by done. inv_res. simplify_eq.
  split.
  - eapply update_row_wf; [|eassumption|cbn; lia|done]. by apply append_wf.
  - etransitivity; [apply append_audit_evolves|by eapply update_row_evolves].
Qed.

(** ** The replay audit: every event has its replays numbered from 1 *)

Definition replay_numbers (i : Z) (d : db) : list Z :=
  a_number <$> List.filter (λ a, a_event a =? i) (audits d).

Record log_ok (d : db) : Prop := {
  lo_event a : a ∈ audits d → is_Some (events d !! a_event a);
  lo_numbers i e : events d !! i = Some e → replay_numbers i d = seqZ 1 (replay_count e);
}.

Lemma update_row_log eid f d d' :
  (∀ e, replay_count (f e) = replay_count e) → log_ok d → update_row eid f d = Ok d' → log_ok d'.
Proof.
  intros Hf [He Hn] [(_ & ->)|(e & Hx & _ & _ & ->)]%update_row_Ok; [by split|]. split; cbn.
  - intros a Ha%He. rewrite lookup_insert_is_Some.
    destruct (decide (eid = a_event a)); auto.
  - intros i x [[<- <-]|[? ?]]%lookup_insert_Some; [|by apply Hn].
    rewrite Hf. by apply Hn.
Qed.

Lemma update_rows_log ids f d d' :
  (∀ e, replay_count (f e) = replay_count e) → log_ok d → update_rows ids f d = Ok d' → log_ok d'.
Proof.
  unfold update_rows. intros Hf. revert d. induction ids as [|i ids IH]; intros d Hd; cbn.
  - by intros [= <-].
  - intros (d1 & H1 & H2)%bind_Ok. by eapply IH; [eapply update_row_log|].
Qed.

Lemma fenced_log eid owner epoch now f d e' d' :
  (∀ e, replay_count (f e) = replay_count e) → log_ok d →
  fenced_update eid owner epoch now f d = Ok (e', d') → log_ok d'.
Proof. intros Hf Hd (e & _ & _ & _ & Hu)%fenced_update_Ok. by eapply update_row_log. Qed.

Lemma claim_log owner now limit lease locked d r d' :
  log_ok d → claim_batch owner now limit lease locked d = Ok (r, d') → log_ok d'.
Proof.
  intros Hd H. unfold claim_batch in H. inv_res. simplify_eq.
  eapply update_rows_log; [| |exact Hv4]; [done|].
  eapply update_rows_log; [| |exact Hv3]; done.
Qed.

Lemma receipt_log eid owner epoch consumer key effect now d r d' :
  log_ok d → record_receipt eid owner epoch consumer key effect now d = Ok (r, d') → log_ok d'.
Proof.
  intros [He Hn] H. unfold record_receipt, insert_receipt in H. inv_res.
  repeat case_match; inv_res; simplify_eq; by split.
Qed.

Lemma replay_numbers_app i d e l :
  replay_numbers i (Db e (receipts d) (audits d ++ l))
  = replay_numbers i d ++ (a_number <$> List.filter (λ a, a_event a =? i) l).
Proof. unfold replay_numbers. cbn. by rewrite List.filter_app, fmap_app. Qed.

Lemma insert_replay_log d e a f :
  log_ok d → events d !! a_event a = Some e → 0 <= replay_count e →
  a_number a = replay_count e + 1 → replay_count f = replay_count e + 1 →
  log_ok (Db (<[a_event a := f]> (events d)) (receipts d) (audits d ++ [a])).
Proof.
  intros [He Hn] Hx Hpos Ha Hf. split; [cbn|].
  - intros b Hb. rewrite lookup_insert_is_Some.
    apply elem_of_app in Hb as [Hb|Hb]; [apply He in Hb|apply list_elem_of_singleton in Hb as ->; by left].
    destruct (decide (a_event a = a_event b)); auto.
  - intros i x Hi. rewrite replay_numbers_app. cbn in Hi |- *.
    apply lookup_insert_Some in Hi as [[<- <-]|[Hne Hi]].
    + rewrite Z.eqb_refl, (Hn _ _ Hx), Hf. cbn. rewrite Ha.
      rewrite seqZ_app by lia. by rewrite (Z.add_comm (replay_count e) 1).
    + replace (a_event a =? i) with false by lia. cbn. rewrite app_nil_r. by apply Hn.
Qed.

Lemma replay_log eid reason actor now d r d' :
  wf d → log_ok d → replay_dead eid reason actor now d = Ok (r, d') → log_ok d'.
Proof.
  intros Hwf Hd H. unfold replay_dead in H. inv_res.
  destruct (events d !! eid) as [e|] eqn:He; [|done].
  destruct (state e) eqn:Hs; try done. destruct (attempt_count e =? 8); [|done].
  destruct (dead_at e); [|done]. inv_res.
  apply insert_audit_Ok in Hv2 as ->. cbn in H. rewrite He, Hs in H.
  rewrite bool_decide_eq_true_2 in H by done. inv_res. simplify_eq.
  apply update_row_Ok in Hv2 as [(Hn & _)|(x & Hx & _ & _ & ->)]; cbn in *; [congruence|].
  assert (x = e) as -> by congruence.
  eapply (insert_replay_log d e (Replay eid _ 8 _ _ _ _)); try done.
  pose proof (rw_check _ _ _ (wf_row _ Hwf _ _ He)) as Hc. unfold row_check in Hc. by split_bools.
Qed.

Lemma empty_wf : wf empty_db.
Proof. split; cbn; try done; try apply NoDup_nil_2; intros ? Hr; by apply elem_of_nil in Hr. Qed.

Section Reachable.
Context (payload_digest : identity → payload → string) (identity_check : identity → bool).

Lemma step_wf d d' : step payload_digest identity_check d d' → wf d → wf d' ∧ evolves d d'.
Proof.
  intros Hs Hwf. destruct Hs as
    [proto r d' H|owner now limit lease locked r d' H|eid owner epoch now lease r d' H
    |eid owner epoch consumer key effect now r d' H|eid owner epoch now r d' H
    |eid owner epoch code now r d' H|eid reason actor now r d' H].
  - by eapply emit_wf.
  - by eapply claim_wf.
  - unfold renew_lease in H. inv_res. simplify_eq. destruct v2. cbn in *.
    eapply fenced_wf; [done..|]. cbn. congruence.
  - by eapply record_receipt_wf.
  - unfold mark_completed in H. inv_res. simplify_eq. destruct v0. cbn in *.
    by eapply fenced_wf.
  - unfold mark_failed in H. inv_res. simplify_eq. destruct v1. cbn in *.
    eapply fenced_wf; [done..|]. intros e Hc _ Hp. exact (fail_set_attempt _ _ _ e Hc Hp).
  - by eapply replay_wf.
Qed.

Lemma emit_log proto d r d' :
  log_ok d → emit_internal payload_digest identity_check proto d = Ok (r, d') → log_ok d'.
Proof.
  intros [He Hn]. unfold emit_internal. destruct (List.filter _ _) as [|[j e] l].
  2:{ destruct (_ && _); [|done]. by intros [= _ <-]. }
  intros H. inv_res. simplify_eq. apply bool_decide_eq_false, eq_None_not_Some in Hv.
  split; cbn.
  - intros a Ha%He. rewrite lookup_insert_is_Some. destruct (decide (id proto = a_event a)); auto.
  - intros i x [[<- <-]|[? ?]]%lookup_insert_Some; [|by apply Hn]. cbn.
    unfold replay_numbers; cbn. rewrite (proj2 (Forall_filter_nil _ _)); [done|].
    apply Forall_forall. intros a [y Hy]%He. apply Z.eqb_neq. intros Heq.
    rewrite Heq in Hy. cbn in Hv. congruence.
Qed.

Lemma step_log d d' : step payload_digest identity_check d d' → wf d → log_ok d → log_ok d'.
Proof.
  intros Hs Hwf Hd. destruct Hs as
    [proto r d' H|owner now limit lease locked r d' H|eid owner epoch now lease r d' H
    |eid owner epoch consumer key effect now r d' H|eid owner epoch now r d' H
    |eid owner epoch code now r d' H|eid reason actor now r d' H].
  - by eapply emit_log.
  - by eapply claim_log.
  - unfold renew_lease in H. inv_res. simplify_eq. destruct v2. eapply fenced_log; [| |eassumption]; done.
  - by eapply receipt_log.
  - unfold mark_completed in H. inv_res. simplify_eq. destruct v0. eapply fenced_log; [| |eassumption]; done.
  - unfold mark_failed in H. inv_res. simplify_eq. destruct v1. eapply fenced_log; [| |eassumption]; done.
  - by eapply replay_log.
Qed.

Lemma steps_wf d d' : steps payload_digest identity_check d d' → wf d → wf d' ∧ evolves d d'.
Proof.
  induction 1 as [d|d d1 d' Hs _ IH]; intros Hwf; [by split|].
  destruct (step_wf _ _ Hs Hwf) as [Hwf1 Hev].
  destruct (IH Hwf1) as [? ?]. split; [done|]. by transitivity d1.
Qed.

Lemma reachable_wf d : reachable payload_digest identity_check d → wf d.
Proof. intros H. by apply (steps_wf _ _ H), empty_wf. Qed.

Lemma steps_log d d' :
  steps payload_digest identity_check d d' → wf d → log_ok d → log_ok d'.
Proof.
  induction 1 as [d|d d1 d' Hs _ IH]; intros Hwf Hd; [done|].
  apply IH; [by apply (step_wf _ _ Hs)|by eapply step_log].
Qed.

Lemma reachable_log d : reachable payload_digest identity_check d → log_ok d.
Proof.
  intros H. apply (steps_log _ _ H empty_wf). split; cbn; [|done].
  intros a Ha. by apply elem_of_nil in Ha.
Qed.
End Reachable.
