(* ===== verification/OutboxSpec.v ===== *)
(** Properties of the transactional outbox of [Outbox.v], over the invariant of
    [OutboxInv.v]: safety of every interleaving, the exact effect and the choice
    of a claim, fencing, effective-once receipts, retry bounds and replay. *)

From S2P Require Import Prelude Text Outbox OutboxInv.
Import Outbox.

Local Open Scope Z_scope.

(** ** Accepted updates *)

Lemma row_check_intro e :
  0 <= attempt_count e <= 8 → 0 <= claim_epoch e → 0 <= replay_count e →
  (∀ o, claim_owner e = Some o → owner_re o = true) →
  (∀ c, last_error_code e = Some c → error_re c = true) →
  state_shape e = true → error_shape e = true → row_check e = true.
Proof.
  intros [? ?] ? ? Ho Hc Hs He. unfold row_check.
  repeat (apply andb_true_iff; split); try done; try (apply Z.leb_le; done).
  - destruct (claim_owner e); auto.
  - destruct (last_error_code e); auto.
Qed.

Record checked (e : OutboxEvent) : Prop := {
  ck_attempt : 0 <= attempt_count e <= 8;
  ck_epoch : 0 <= claim_epoch e;
  ck_replay : 0 <= replay_count e;
  ck_owner o : claim_owner e = Some o → owner_re o = true;
  ck_code c : last_error_code e = Some c → error_re c = true;
  ck_shape : state_shape e = true;
  ck_error : error_shape e = true;
}.

Lemma row_check_elim e : row_check e = true → checked e.
Proof.
  unfold row_check. intros H. split_bools. split; try done.
  - by intros o Ho; rewrite Ho in *.
  - by intros c Hc; rewrite Hc in *.
Qed.

(** The columns of a state. *)
Lemma shape_pending e : state_shape e = true → state e = Pending →
  claim_owner e = None ∧ lease_until e = None ∧ completed_at e = None ∧ dead_at e = None.
Proof. unfold state_shape. intros H Hs. rewrite Hs in H. by repeat case_match. Qed.

Lemma shape_processing e : state_shape e = true → state e = Processing →
  is_Some (claim_owner e) ∧ is_Some (lease_until e) ∧ is_Some (claimed_at e) ∧
  completed_at e = None ∧ dead_at e = None.
Proof.
  unfold state_shape. intros H Hs. rewrite Hs in H. repeat case_match; try done.
  split_bools. by eauto 10.
Qed.

(** Ending an attempt: the SET clauses of the reclaim, the failure and the
    completion all build a row of this form. *)
Record ends_attempt (t : Z) (e e' : OutboxEvent) : Prop := {
  ea_ident : ident e' = ident e;
  ea_attempt : attempt_count e' = attempt_count e;
  ea_epoch : claim_epoch e' = claim_epoch e;
  ea_replay : replay_count e' = replay_count e;
  ea_clock : updated_at e' = t;
  ea_owner : claim_owner e' = None;
  ea_code c : last_error_code e' = Some c → error_re c = true;
  ea_left : state e' ≠ Processing;
  ea_shape : state_shape e' = true;
}.

Lemma ends_attempt_ok log t d i e e' :
  row_wf d i e → state e = Processing → updated_at e <= t → ends_attempt t e e' →
  guard_update log e e' = true ∧ row_check e' = true.
Proof.
  intros [_ Hc%row_check_elim _ _ Hat _] Hs Ht [E1 E2 E3 E4 E5 E6 E7 E8 E9]. destruct Hc. split.
  - unfold guard_update. rewrite Hs, E1, E2, E3, E4, E5, !Z.eqb_refl.
    rewrite bool_decide_eq_true_2 by done.
    apply Z.leb_le in Ht. rewrite Ht, Z.leb_refl. by destruct (state e').
  - apply row_check_intro; rewrite ?E2, ?E3, ?E4, ?E6; try done.
    unfold error_shape. rewrite E2.
    assert (1 <= attempt_count e) by (apply Hat; congruence).
    by replace (attempt_count e =? 0) with false by lia.
Qed.

Lemma reclaim_set_ends t d i e :
  row_wf d i e → state e = Processing → ends_attempt t e (reclaim_set t d e).
Proof.
  intros [_ Hc%row_check_elim _ _ _ _] Hs. destruct Hc.
  destruct (shape_processing _ ck_shape0 Hs) as (_ & _ & _ & Hco & _).
  split; cbn; try done; unfold state_shape; cbn;
    destruct (receipt_at _ _); cbn; try done; try (intros c [= <-]; vm_compute; done);
    try (by apply ck_code0); rewrite ?Hco; destruct (attempt_count e =? 8) eqn:E; done.
Qed.

Lemma fail_set_ends t code d i e :
  row_wf d i e → state e = Processing → error_re code = true →
  ends_attempt t e (fail_set code t d e).
Proof.
  intros [_ Hc%row_check_elim _ _ _ _] Hs Hcode. destruct Hc.
  destruct (shape_processing _ ck_shape0 Hs) as (_ & _ & _ & Hco & _).
  split; cbn; try done; unfold state_shape; cbn;
    destruct (receipt_at _ _); cbn; try done; try (intros c [= <-]; done);
    try (by apply ck_code0); rewrite ?Hco; destruct (attempt_count e =? 8) eqn:E; done.
Qed.

Lemma complete_set_ends t d i e :
  row_wf d i e → state e = Processing → ends_attempt t e (complete_set t e).
Proof.
  intros [_ Hc%row_check_elim _ _ _ _] Hs. destruct Hc.
  destruct (shape_processing _ ck_shape0 Hs) as (_ & _ & _ & _ & Hde).
  split; cbn; try done; unfold state_shape; cbn; by rewrite Hde.
Qed.

Lemma claim_set_ok log owner t lease d i e :
  row_wf d i e → state e = Pending → updated_at e <= t → owner_re owner = true →
  guard_update log e (claim_set owner t lease e) = true ∧
  row_check (claim_set owner t lease e) = true.
Proof.
  intros [_ Hc%row_check_elim Hp _ _ _] Hs Ht Ho. destruct Hc. specialize (Hp Hs).
  destruct (shape_pending _ ck_shape0 Hs) as (_ & _ & Hco & Hde). split.
  - unfold guard_update. cbn. rewrite Hs, !bool_decide_eq_true_2, !Z.eqb_refl by done.
    repeat (apply andb_true_iff; split); try done; try (apply Z.leb_le; lia).
    apply Z.ltb_lt. lia.
  - apply row_check_intro; cbn; try done; try lia.
    + by intros o [= <-].
    + unfold state_shape. cbn. rewrite Hco, Hde. apply andb_true_iff. split; [apply Z.ltb_lt; lia|].
      done.
    + unfold error_shape. cbn. by replace (attempt_count e + 1 =? 0) with false by lia.
Qed.

Lemma renew_set_ok log t lease d i e :
  row_wf d i e → state e = Processing → updated_at e <= t →
  guard_update log e (renew_set t lease e) = true ∧ row_check (renew_set t lease e) = true.
Proof.
  intros [_ Hc%row_check_elim _ _ _ _] Hs Ht. destruct Hc.
  destruct (shape_processing _ ck_shape0 Hs) as ([o Ho] & _ & Hcl & Hco & Hde). split.
  - unfold guard_update. cbn. rewrite Hs, !bool_decide_eq_true_2, !Z.eqb_refl, Z.leb_refl by done.
    apply Z.leb_le in Ht. by rewrite Ht.
  - apply row_check_intro; cbn; try done.
    unfold state_shape in *. cbn. rewrite Hs, Ho, Hco, Hde in *.
    by destruct (lease_until e).
Qed.

(** ** The batch claim *)

(** What the reclaim makes of one row. *)
Definition reclaimed_row (t : Z) (d : db) (e : OutboxEvent) : OutboxEvent :=
  if is_expired t e then reclaim_set t d e else e.

Lemma is_expired_processing t e : is_expired t e = true → state e = Processing.
Proof. unfold is_expired. intros H. by split_bools. Qed.

Lemma reclaim_lookup t d d1 :
  reclaim_expired t d = Ok d1 →
  (∀ i, events d1 !! i = reclaimed_row t d <$> events d !! i) ∧
  receipts d1 = receipts d ∧ audits d1 = audits d.
Proof.
  intros H. destruct (update_rows_lookup _ _ _ _ (NoDup_expired d t) H) as (Hi & Hr & Ha).
  split_and!; [|done..]. intros i. rewrite Hi.
  destruct (events d !! i) as [e|] eqn:He; cbn; [|by case_decide]. unfold reclaimed_row.
  destruct (is_expired t e) eqn:Hx; case_decide as Hin; try done.
  - destruct Hin. apply elem_of_expired. by exists e.
  - apply elem_of_expired in Hin as (x & Hx' & Hxe). congruence.
Qed.

Lemma reclaim_run d t :
  wf d → (∀ i e, events d !! i = Some e → updated_at e <= t) →
  ∃ d1, reclaim_expired t d = Ok d1.
Proof.
  intros Hwf Hclock. apply update_rows_run; [apply NoDup_expired|].
  intros i e (x & Hx & Hex)%elem_of_expired He. assert (x = e) as -> by congruence.
  apply is_expired_processing in Hex. pose proof (wf_row _ Hwf _ _ He) as Hrow.
  eapply ends_attempt_ok; [done..|by eapply Hclock|by eapply reclaim_set_ends].
Qed.

Lemma claim_leb_set owner t lease x y :
  claim_leb x y = true → claim_leb (claim_set owner t lease x) (claim_set owner t lease y) = true.
Proof. exact (λ H, H). Qed.

Lemma candidates_sorted t n locked d :
  StronglySorted (λ a b, claim_leb a b = true) (candidates t n locked d).
Proof.
  apply StronglySorted_take, StronglySorted_filter, sorted_by_sorted. unfold claim_leb. apply _.
Qed.

(** A successful claim: the reclaimed table, the candidates of that table, and
    their rows claimed. *)
Lemma claim_batch_Ok owner now limit lease locked d claimed d' :
  wf d → claim_batch owner now limit lease locked d = Ok (claimed, d') →
  ∃ t d1, now = Aware t ∧ reclaim_expired t d = Ok d1 ∧ 1 <= limit ∧ 1 <= lease ∧
    wf d1 ∧ wf d' ∧
    let picked := candidates t (Z.to_nat limit) locked d1 in
    claimed = claim_set owner t lease <$> picked ∧
    (∀ i, events d' !! i = if decide (i ∈ id ∘ ident <$> picked)
                           then claim_set owner t lease <$> events d1 !! i else events d1 !! i) ∧
    receipts d' = receipts d1 ∧ audits d' = audits d1.
Proof.
  intros Hwf H. pose proof (claim_wf _ _ _ _ _ _ _ _ Hwf H) as [Hwf' _].
  unfold claim_batch in H. inv_res. simplify_eq. destruct now as [t|]; [|done].
  cbn in Hv0. injection Hv0 as <-. destruct (reclaim_wf _ _ _ Hwf Hv3) as [Hwf1 _].
  exists t, v3. apply negb_false_iff in Hv1, Hv2. split_bools. split_and!; try done.
  cbn zeta. split; [|by apply update_rows_lookup; [apply NoDup_candidates|]].
  apply sorted_by_id. eapply StronglySorted_fmap; [|apply candidates_sorted]. apply claim_leb_set.
Qed.

(** In a well-formed table an aggregate has one event in delivery at a time. *)
Lemma processing_unique d i j e f :
  wf d → events d !! i = Some e → events d !! j = Some f →
  state e = Processing → state f = Processing →
  same_aggregate (ident e) (ident f) = true → i = j.
Proof.
  intros Hwf He Hf Hse Hsf Hag.
  assert (Hpe := rw_fifo _ _ _ (wf_row _ Hwf _ _ He) (rw_epoch _ _ _ (wf_row _ Hwf _ _ He) ltac:(congruence))).
  assert (Hpf := rw_fifo _ _ _ (wf_row _ Hwf _ _ Hf) (rw_epoch _ _ _ (wf_row _ Hwf _ _ Hf) ltac:(congruence))).
  destruct (Z.lt_trichotomy (aggregate_sequence (ident e)) (aggregate_sequence (ident f)))
    as [Hlt|[Heq|Hlt]].
  - assert (state e = Completed); [|congruence]. apply (Hpf i e He). unfold precedes.
    by rewrite Hag; apply Z.ltb_lt.
  - by eapply (wf_sequence _ Hwf).
  - assert (state f = Completed); [|congruence]. apply (Hpe j f Hf). unfold precedes.
    by rewrite same_aggregate_sym, Hag; apply Z.ltb_lt.
Qed.

(** Claiming rows completes nothing, so what is unblocked after it was before. *)
Lemma unblocked_before (ids : list Z) owner t lease d1 d2 c :
  (∀ i, events d2 !! i = if decide (i ∈ ids)
                         then claim_set owner t lease <$> events d1 !! i else events d1 !! i) →
  unblocked d2 c → unblocked d1 c.
Proof.
  intros Hi Hu i p Hp Hpre. specialize (Hi i). rewrite Hp in Hi. case_decide.
  - assert (state (claim_set owner t lease p) = Completed); [|done].
    by apply (Hu i); [|rewrite (precedes_ident p c _ c)].
  - by apply (Hu i).
Qed.

Section Claims.
Context (payload_digest : identity → payload → string) (identity_check : identity → bool).
Notation reachable := (reachable payload_digest identity_check).
Notation steps := (steps payload_digest identity_check).

(** C10: in every reachable database each event satisfies the table's CHECK and a
    pending one still has an attempt left; an aggregate has at most one event
    in delivery; an event that was ever claimed has only completed
    predecessors; receipts are unique per (event, consumer) and per
    (consumer, generation key) and belong to claimed events. *)
Theorem outbox_safety d :
  reachable d →
  (∀ i e, events d !! i = Some e →
     row_check e = true ∧ (state e = Pending → attempt_count e < 8)) ∧
  (∀ i j e f, events d !! i = Some e → events d !! j = Some f →
     same_aggregate (ident e) (ident f) = true →
     state e = Processing → state f = Processing → i = j) ∧
  (∀ i j e p, events d !! i = Some e → events d !! j = Some p →
     0 < claim_epoch e → precedes p e = true → state p = Completed) ∧
  NoDup ((λ r, (r_event r, r_consumer r)) <$> receipts d) ∧
  NoDup ((λ r, (r_consumer r, r_generation_key r)) <$> receipts d) ∧
  (∀ r, r ∈ receipts d → ∃ e, events d !! r_event r = Some e ∧ 0 < claim_epoch e).
Proof.
  intros Hwf%reachable_wf. split_and!; try (by destruct Hwf).
  - intros i e He. destruct (wf_row _ Hwf i e He) as [_ Hc Hp _ _ _]. split; [done|].
    intros Hs. specialize (Hp Hs). lia.
  - intros i j e f He Hf Hag Hse Hsf. by eapply processing_unique.
  - intros i j e p He Hp Hpos Hpre. by eapply (rw_fifo _ _ _ (wf_row _ Hwf i e He)).
Qed.

(** A claim by a valid owner, whose clock is not behind the table, never
    trips a constraint or the trigger; it returns and changes exactly this:
    expired rows are reclaimed, the picked rows enter a new fenced attempt,
    every other row, the receipts and the audit stay. *)
Theorem claim_batch_effect d owner t limit lease locked :
  reachable d → (∀ i e, events d !! i = Some e → updated_at e <= t) →
  owner_re owner = true → 1 <= limit <= 100 → 1 <= lease <= 3600 →
  ∃ picked d',
    claim_batch owner (Aware t) limit lease locked d
      = Ok (claim_set owner t lease <$> picked, d') ∧
    NoDup (id ∘ ident <$> picked) ∧
    (∀ i, events d' !! i =
       let r := reclaimed_row t d <$> events d !! i in
       if decide (i ∈ id ∘ ident <$> picked) then claim_set owner t lease <$> r else r) ∧
    receipts d' = receipts d ∧ audits d' = audits d.
Proof.
  intros Hwf%reachable_wf Hclock Ho Hl Hs.
  destruct (reclaim_run d t Hwf Hclock) as [d1 H1].
  destruct (reclaim_wf _ _ _ Hwf H1) as [Hwf1 _].
  destruct (reclaim_lookup _ _ _ H1) as (Hi & Hr & Ha).
  set (picked := candidates t (Z.to_nat limit) locked d1).
  destruct (update_rows_run (id ∘ ident <$> picked) (claim_set owner t lease) d1) as [d2 H2];
    [by apply NoDup_candidates| |].
  { intros i e (x & -> & Hx)%list_elem_of_fmap He.
    apply elem_of_candidates in Hx as (Hx & Hc & _); [|done]. cbn in He.
    assert (x = e) as -> by congruence. unfold claimable in Hc. split_bools.
    eapply claim_set_ok; [by apply (wf_row _ Hwf1)|done| |done].
    rewrite Hi in He. apply fmap_Some in He as (y & Hy & ->). unfold reclaimed_row.
    destruct (is_expired t y); [done|by eapply Hclock]. }
  assert (Hrun : claim_batch owner (Aware t) limit lease locked d
            = Ok (sorted_by claim_leb (claim_set owner t lease <$> picked), d2)).
  { unfold claim_batch. rewrite Ho. cbn.
    replace ((1 <=? limit) && (limit <=? 100)) with true by (symmetry; apply andb_true_iff; lia).
    replace ((1 <=? lease) && (lease <=? 3600)) with true by (symmetry; apply andb_true_iff; lia).
    cbn. rewrite H1. cbn. fold picked. by rewrite H2. }
  exists picked, d2. rewrite Hrun, sorted_by_id.
  2:{ eapply StronglySorted_fmap; [|apply candidates_sorted]. apply claim_leb_set. }
  destruct (update_rows_lookup _ _ _ _ (NoDup_candidates d1 t (Z.to_nat limit) locked Hwf1) H2)
    as (Hi2 & Hr2 & Ha2).
  split_and!; [done|by apply NoDup_candidates| |congruence..].
  intros i. cbn zeta. rewrite <- Hi. apply Hi2.
Qed.

(** Which events a claim takes: at most [limit], at most one of an
    aggregate, in delivery order, each behind completed predecessors only; and
    when an event that could run is left, the batch is full of events that
    come no later. *)
Theorem claim_batch_selection d owner t limit lease locked claimed d' :
  reachable d → claim_batch owner (Aware t) limit lease locked d = Ok (claimed, d') →
  Z.of_nat (length claimed) <= limit ∧
  StronglySorted (λ a b, claim_leb a b = true) claimed ∧
  (∀ e f, e ∈ claimed → f ∈ claimed → same_aggregate (ident e) (ident f) = true → e = f) ∧
  (∀ e, e ∈ claimed →
     events d' !! id (ident e) = Some e ∧ holds_claim owner (claim_epoch e) t e = true ∧
     available_at e <= t ∧ id (ident e) ∉ locked ∧ unblocked d' e) ∧
  (∀ c, events d' !! id (ident c) = Some c → claimable t d' c = true → id (ident c) ∉ locked →
     Z.of_nat (length claimed) = limit ∧ ∀ e, e ∈ claimed → claim_leb e c = true).
Proof.
  intros Hwf%reachable_wf H.
  destruct (claim_batch_Ok _ _ _ _ _ _ _ _ Hwf H)
    as (t' & d1 & [= <-] & H1 & Hlim & Hlease & Hwf1 & Hwf' & -> & Hi & _ & _).
  set (picked := candidates t (Z.to_nat limit) locked d1) in *.
  assert (Hrow : ∀ x, x ∈ picked →
            events d' !! id (ident x) = Some (claim_set owner t lease x)).
  { intros x Hx. rewrite Hi, decide_True by by apply (list_elem_of_fmap_2 (id ∘ ident)).
    apply elem_of_candidates in Hx as (-> & _); [done|done]. }
  assert (Hin : ∀ e, e ∈ claim_set owner t lease <$> picked →
            events d' !! id (ident e) = Some e ∧ state e = Processing).
  { intros e (x & -> & Hx)%list_elem_of_fmap. split; [exact (Hrow x Hx)|done]. }
  split_and!.
  - rewrite length_fmap. unfold picked, candidates. rewrite length_take. lia.
  - eapply StronglySorted_fmap; [|apply candidates_sorted]. apply claim_leb_set.
  - intros e f [He Hse]%Hin [Hf Hsf]%Hin Hag.
    pose proof (processing_unique _ _ _ _ _ Hwf' He Hf Hse Hsf Hag). congruence.
  - intros e He. destruct (Hin e He) as [He' Hs].
    pose proof (wf_row _ Hwf' _ _ He') as Hr.
    apply list_elem_of_fmap in He as (x & -> & Hx).
    apply elem_of_candidates in Hx as (Hx & Hc & Hlk); [|done].
    unfold claimable in Hc. split_bools. split_and!; try done.
    + unfold holds_claim. cbn. rewrite !bool_decide_eq_true_2, Z.eqb_refl by done.
      apply Z.ltb_lt. unfold second. lia.
    + apply (rw_fifo _ _ _ Hr), (rw_epoch _ _ _ Hr). by rewrite Hs.
  - intros c Hc Hcl Hlk. unfold claimable in Hcl. split_bools.
    assert (Hnot : id (ident c) ∉ id ∘ ident <$> picked).
    { intros (x & Hxc & Hx)%list_elem_of_fmap. apply Hrow in Hx. cbn in Hxc.
      rewrite <- Hxc in Hx. assert (c = claim_set owner t lease x) as -> by congruence. done. }
    assert (Hc1 : events d1 !! id (ident c) = Some c).
    { rewrite Hi, decide_False in Hc; done. }
    set (L := List.filter (λ e, negb (bool_decide (id (ident e) ∈ locked)))
                (sorted_by claim_leb (List.filter (claimable t d1) (rows d1)))).
    assert (HL : c ∈ L).
    { apply list_elem_of_In, filter_In. split; [|by apply negb_true_iff, bool_decide_eq_false].
      apply list_elem_of_In, elem_of_sorted_by, list_elem_of_In, filter_In.
      split; [by apply list_elem_of_In, elem_of_rows|].
      unfold claimable. repeat (apply andb_true_iff; split); [by apply bool_decide_eq_true|by apply Z.leb_le|].
      apply negb_true_iff, blocked_unblocked. eapply unblocked_before; [exact Hi|].
      by apply blocked_unblocked, negb_true_iff. }
    assert (Hout : c ∉ take (Z.to_nat limit) L).
    { intros Hx. apply Hnot. by apply (list_elem_of_fmap_2 (id ∘ ident)). }
    split.
    + rewrite length_fmap. change picked with (take (Z.to_nat limit) L).
      rewrite (take_full _ _ c) by done. lia.
    + intros e (x & -> & Hx)%list_elem_of_fmap.
      change (claim_leb x c = true).
      eapply (StronglySorted_left_out (λ a b, claim_leb a b = true)); [|exact Hx|done..].
      apply StronglySorted_filter, sorted_by_sorted. unfold claim_leb. apply _.
Qed.

Lemma fenced_update_stale eid owner epoch now f d :
  (∀ e, events d !! eid = Some e → state e = Processing → claim_epoch e ≠ epoch) →
  fenced_update eid owner epoch now f d = Err StaleClaim.
Proof.
  intros Hs. unfold fenced_update. destruct (events d !! eid) as [e|] eqn:He; [|done].
  destruct (holds_claim owner epoch now e) eqn:Hh; [|done].
  apply holds_claim_inv in Hh as (Hp & _ & Hep & _). by destruct (Hs e eq_refl Hp).
Qed.

(** C11: fencing.  Once the attempt numbered [epoch] is over (the event left
    the processing state, or carries a later epoch), no later operation under
    that epoch succeeds, whatever happened in between and whoever asks. *)
Theorem lost_claim_stays_lost d d' eid e epoch :
  reachable d → steps d d' → events d !! eid = Some e → epoch <= claim_epoch e →
  (state e = Processing → claim_epoch e ≠ epoch) →
  ∀ owner now,
    (∀ lease r, renew_lease eid owner epoch now lease d' ≠ Ok r) ∧
    (∀ r, mark_completed eid owner epoch now d' ≠ Ok r) ∧
    (∀ code r, mark_failed eid owner epoch code now d' ≠ Ok r) ∧
    (∀ consumer key effect r,
       record_receipt eid owner epoch consumer key effect now d' ≠ Ok r).
Proof.
  intros Hwf%reachable_wf Hsteps He Hle Hlost owner now.
  destruct (steps_wf _ _ _ _ Hsteps Hwf) as [_ [Hrow _]].
  destruct (Hrow eid e He) as (e' & He' & _ & Hep & _ & Hre).
  assert (Hs : ∀ x, events d' !! eid = Some x → state x = Processing → claim_epoch x ≠ epoch).
  { intros x Hx Hsx. assert (x = e') as -> by congruence.
    destruct (decide (state e = Processing)) as [Hse|Hse]; [specialize (Hlost Hse); lia|].
    specialize (Hre Hse Hsx). lia. }
  split_and!.
  - intros lease r H. unfold renew_lease in H. inv_res. by rewrite fenced_update_stale in *.
  - intros r H. unfold mark_completed in H. inv_res. by rewrite fenced_update_stale in *.
  - intros code r H. unfold mark_failed in H. inv_res. by rewrite fenced_update_stale in *.
  - intros consumer key effect r H. unfold record_receipt in H. inv_res. bool_prop.
    destruct (events d' !! eid) as [x|] eqn:Hx; [|done].
    apply holds_claim_inv in Hv3 as (Hsx & _ & Hepx & _). by apply (Hs x).
Qed.

Lemma insert_receipt_known r d b d' :
  (∃ x, x ∈ receipts d ∧ (same_event_receipt (r_event r) (r_consumer r) x = true ∨
     same_generation_receipt (r_consumer r) (r_generation_key r) x = true)) →
  insert_receipt r d = Ok (b, d') → b = false ∧ d' = d.
Proof.
  intros (x & Hx & Hm) H. unfold insert_receipt in H. inv_res.
  destruct (_ || _) eqn:Hd; inv_res; simplify_eq; [done|].
  apply orb_false_iff in Hd as [D1%find_none_receipt D2%find_none_receipt].
  rewrite List.Forall_forall in D1, D2. apply list_elem_of_In in Hx.
  specialize (D1 x Hx). specialize (D2 x Hx). destruct Hm; congruence.
Qed.

(** A successful record leaves a receipt with exactly its data. *)
Lemma record_receipt_stored eid owner epoch consumer key effect now d b d' :
  wf d → record_receipt eid owner epoch consumer key effect now d = Ok (b, d') →
  ∃ x, x ∈ receipts d' ∧ r_event x = eid ∧ r_consumer x = consumer ∧
       r_generation_key x = key ∧ r_effect_sha256 x = effect ∧ (b = false → d' = d).
Proof.
  intros Hwf H. unfold record_receipt in H. inv_res. destruct v4 as [b1 d1]. cbn in H.
  destruct b1; inv_res; simplify_eq.
  - unfold insert_receipt in Hv4. inv_res. case_match; inv_res; simplify_eq.
    eexists. split; [by apply elem_of_app; right; left|]. done.
  - destruct (List.find (same_event_receipt eid consumer) (receipts d)) as [x|] eqn:Hf.
    + case_match; inv_res; simplify_eq. apply List.find_some in Hf as [Hx Hm].
      unfold same_event_receipt in Hm. split_bools. exists x. by rewrite list_elem_of_In.
    + destruct (List.find _ (receipts d)) as [x|] eqn:Hg in H; [|done].
      case_match; inv_res; simplify_eq. apply List.find_some in Hg as [Hx Hm].
      unfold same_generation_receipt in Hm. split_bools. exists x. by rewrite list_elem_of_In.
Qed.

(** Effective once.  After a consumer's receipt for a generation was
    recorded for an event, any later record for the same event and consumer,
    or for the same consumer and generation key, that succeeds is the same
    receipt repeated: it reports [False] and changes nothing. *)
Theorem receipt_effective_once d d1 d2 d3 eid owner epoch consumer key effect now b
    eid' owner' epoch' key' effect' now' b' :
  reachable d →
  record_receipt eid owner epoch consumer key effect now d = Ok (b, d1) →
  steps d1 d2 → eid' = eid ∨ key' = key →
  record_receipt eid' owner' epoch' consumer key' effect' now' d2 = Ok (b', d3) →
  b' = false ∧ d3 = d2 ∧ eid' = eid ∧ key' = key ∧ effect' = effect.
Proof.
  intros Hwf%reachable_wf H1 Hsteps Hsame H2.
  destruct (record_receipt_wf _ _ _ _ _ _ _ _ _ _ Hwf H1) as [Hwf1 _].
  destruct (steps_wf _ _ _ _ Hsteps Hwf1) as [Hwf2 [_ [l Hl]]].
  destruct (record_receipt_stored _ _ _ _ _ _ _ _ _ _ Hwf H1) as (x & Hx & X1 & X2 & X3 & X4 & _).
  assert (Hx2 : x ∈ receipts d2) by (rewrite Hl; apply elem_of_app; by left).
  destruct (record_receipt_stored _ _ _ _ _ _ _ _ _ _ Hwf2 H2)
    as (y & Hy & Y1 & Y2 & Y3 & Y4 & Yb).
  assert (Hb : b' = false).
  { unfold record_receipt in H2. inv_res. destruct v4 as [b1 d4]. cbn in H2.
    assert (Hknown : same_event_receipt eid' consumer x = true ∨
                     same_generation_receipt consumer key' x = true).
    { unfold same_event_receipt, same_generation_receipt. rewrite X1, X2, X3.
      rewrite !andb_true_iff, !bool_decide_eq_true, Z.eqb_eq. naive_solver. }
    apply insert_receipt_known in Hv4 as [-> ->]; [|by exists x].
    repeat case_match; by inv_res; simplify_eq. }
  specialize (Yb Hb) as ->.
  assert (x = y) as ->.
  { destruct Hsame as [He|Hk].
    - apply (list_fmap_NoDup_inj _ _ _ _ (wf_receipt_event _ Hwf2)); congruence.
    - apply (list_fmap_NoDup_inj _ _ _ _ (wf_receipt_key _ Hwf2)); congruence. }
  split_and!; congruence.
Qed.

Lemma fenced_update_run eid owner epoch t f d e :
  events d !! eid = Some e → holds_claim owner epoch t e = true →
  guard_update (audits d) e (f e) = true → row_check (f e) = true →
  fenced_update eid owner epoch t f d
    = Ok (f e, Db (<[eid := f e]> (events d)) (receipts d) (audits d)).
Proof.
  intros He Hh Hg Hc. unfold fenced_update. rewrite He, Hh.
  by rewrite (update_row_run _ _ _ e).
Qed.

(** A failure report of the holder of a claim always goes through and
    changes only its row: an event with a receipt is completed and never
    delivered again; the eighth attempt is dead; every earlier attempt [k] is
    pending again after the [k]-th of [RETRY_DELAYS_SECONDS]. *)
Theorem mark_failed_effect d eid e owner epoch code t :
  reachable d → events d !! eid = Some e → holds_claim owner epoch t e = true →
  updated_at e <= t → error_re code = true →
  ∃ e', mark_failed eid owner epoch code (Aware t) d
          = Ok (state e', Db (<[eid := e']> (events d)) (receipts d) (audits d)) ∧
    ident e' = ident e ∧ attempt_count e' = attempt_count e ∧ claim_epoch e' = claim_epoch e ∧
    match receipt_at eid d with
    | Some got => state e' = Completed ∧ completed_at e' = Some got
    | None =>
        last_error_code e' = Some code ∧
        (attempt_count e = 8 → state e' = Dead ∧ dead_at e' = Some t) ∧
        (attempt_count e < 8 → state e' = Pending ∧
           Some (available_at e') = (λ s, t + s * second) <$>
             RETRY_DELAYS_SECONDS !! Z.to_nat (attempt_count e - 1))
    end.
Proof.
  intros Hwf%reachable_wf He Hh Ht Hcode. pose proof (wf_row _ Hwf _ _ He) as Hrow.
  destruct (holds_claim_inv _ _ _ _ Hh) as (Hs & _).
  destruct (ends_attempt_ok (audits d) t _ _ _ (fail_set code t d e) Hrow Hs Ht) as [Hg Hc];
    [by eapply fail_set_ends|].
  exists (fail_set code t d e). split_and!; try done.
  { unfold mark_failed. rewrite Hcode. cbn. by rewrite (fenced_update_run _ _ _ _ _ _ e). }
  destruct Hrow as [<- Hck%row_check_elim _ _ Hat _]. destruct Hck.
  destruct (shape_processing _ ck_shape0 Hs) as (_ & _ & _ & Hco & _).
  cbn [fail_set state completed_at last_error_code dead_at available_at].
  destruct (receipt_at _ d) as [got|]; cbn; [by rewrite Hco|].
  assert (1 <= attempt_count e) by (apply Hat; congruence).
  split_and!; [done|by intros ->|]. intros Hlt.
  replace (attempt_count e =? 8) with false by lia. split; [done|].
  unfold retry_delay, RETRY_DELAYS_SECONDS.
  assert (Hk : attempt_count e = 1 ∨ attempt_count e = 2 ∨ attempt_count e = 3 ∨
               attempt_count e = 4 ∨ attempt_count e = 5 ∨ attempt_count e = 6 ∨
               attempt_count e = 7) by lia.
  by repeat destruct Hk as [->|Hk]; [..|rewrite Hk].
Qed.

Lemma fresh_replay_number d eid e :
  wf d → log_ok d → events d !! eid = Some e →
  existsb (λ x, (a_event x =? eid) && (a_number x =? replay_count e + 1)) (audits d) = false.
Proof.
  intros Hwf Hlog He. apply not_true_is_false. intros (a & Ha & Hm)%existsb_exists.
  split_bools.
  assert (Hin : a_number a ∈ replay_numbers eid d).
  { apply list_elem_of_fmap. exists a. split; [done|].
    by apply list_elem_of_In, filter_In; rewrite Z.eqb_eq. }
  rewrite (lo_numbers _ Hlog _ _ He), elem_of_seqZ in Hin. lia.
Qed.

(** An audited replay of a dead event always goes through: it gives the
    event eight new attempts from now on, under the fence it had, and appends
    exactly one audit row, so the replays of every event are numbered 1, 2,
    3, ... *)
Theorem replay_dead_effect d eid e reason actor t :
  reachable d → events d !! eid = Some e → state e = Dead → updated_at e <= t →
  error_re reason = true → sha256_re actor = true →
  ∃ dead e', dead_at e = Some dead ∧
    replay_dead eid reason actor (Aware t) d
      = Ok (replay_count e + 1,
            Db (<[eid := e']> (events d)) (receipts d)
               (audits d ++ [Replay eid (replay_count e + 1) 8 dead reason actor t])) ∧
    state e' = Pending ∧ attempt_count e' = 0 ∧ available_at e' = t ∧
    claim_epoch e' = claim_epoch e ∧ ident e' = ident e ∧ last_error_code e' = None ∧
    replay_numbers eid d = seqZ 1 (replay_count e).
Proof.
  intros Hr He Hs Ht Hreason Hactor.
  pose proof (reachable_wf _ _ _ Hr) as Hwf. pose proof (reachable_log _ _ _ Hr) as Hlog.
  destruct (wf_row _ Hwf _ _ He) as [Hid Hck%row_check_elim _ _ _ _]. destruct Hck.
  assert (Hshape : claim_owner e = None ∧ lease_until e = None ∧ completed_at e = None ∧
                   attempt_count e = 8 ∧ is_Some (dead_at e)).
  { unfold state_shape in ck_shape0. rewrite Hs in ck_shape0.
    repeat case_match; try done. by split_bools. }
  destruct Hshape as (Ho & Hl & Hco & Ha & [dead Hde]).
  set (n := replay_count e + 1). exists dead, (replay_set n t e).
  split_and!; try done; [|by apply (lo_numbers _ Hlog)].
  assert (Hwide : reason_re reason = true).
  { revert Hreason. apply head_match_mono. intros c.
    destruct (is_lower c), (is_digit c); cbn; try done. unfold one_of. cbn.
    rewrite !orb_true_iff. tauto. }
  unfold replay_dead. cbn [require_aware]. cbn [mbind res_bind]. rewrite Hreason, Hactor. cbn.
  rewrite He, Hs, Ha, Hde. cbn. unfold insert_audit. cbn. rewrite He, Hs, Hde, Ha.
  rewrite !bool_decide_eq_true_2 by done. cbn. fold n. rewrite Z.eqb_refl, Hwide, Hactor.
  replace (1 <=? n) with true by lia. cbn.
  pose proof (fresh_replay_number d eid e Hwf Hlog He) as Hfresh. fold n in Hfresh.
  rewrite Hfresh. cbn. rewrite He, Hs.
  rewrite bool_decide_eq_true_2 by done.
  rewrite (update_row_run eid (replay_set n t) _ e); [done|done| |].
  - unfold guard_update. cbn. rewrite Hs, !bool_decide_eq_true_2, !Z.eqb_refl, Z.leb_refl by done.
    apply Z.leb_le in Ht. rewrite Ht, existsb_app. cbn. rewrite Hid, Ha, Hde, !Z.eqb_refl.
    rewrite bool_decide_eq_true_2 by done. by rewrite orb_true_r.
  - apply row_check_intro; cbn; try done; try lia; try congruence.
    unfold state_shape. cbn. by rewrite Ho, Hl, Hco.
Qed.
End Claims.

(** The service in front of the replay accepts every reason the audit table
    accepts; the repository behind it refuses those with a colon, such as
    [ops:retry], before it looks at the event. *)
Theorem replay_reason_gap hex eid actor t d :
  reason_re "ops:retry" = true ∧
  replay_dead_event hex eid "ops:retry" actor (Aware t) d
    = (if bool_decide (strip actor = ""%string)
       then Err (ValueError "requested_by_sub is required")
       else Err (ValueError "outbox replay reason is invalid")).
Proof.
  split; [done|]. unfold replay_dead_event. cbn.
  by destruct (bool_decide _).
Qed.

(** ** Concrete histories *)

Module Demo.
Definition digest (_ : identity) (_ : payload) : string := "d".
Definition check (_ : identity) : bool := true.

Definition after {A} (m : res outbox_error (A * db)) : db :=
  match m with Ok (_, d) => d | Err _ => empty_db end.
Definition row (eid : Z) (d : db) : OutboxEvent :=
  default (Event (Identity 0 "" "" "" "" 0 0 "" (Payload "" None "") "" 0 0)
             Pending 0 0 None 0 None None None None 0 None None 0) (events d !! eid).

Definition proto (n : Z) (agg key : string) : identity :=
  Identity n "retail.sales_generation_promoted.v1" "sales_generation" agg "g" 1 0 key
    (Payload "s" None "2026-01") "" 0 n.

Definition sec (n : Z) : Z := n * second.

(** Two events of one aggregate and one of another. *)
Definition d1 := after (emit_internal digest check (proto 1 "north" "k1") empty_db).
Definition d2 := after (emit_internal digest check (proto 2 "north" "k2") d1).
Definition d3 := after (emit_internal digest check (proto 3 "south" "k3") d2).
(** The heads of both aggregates are claimed; one delivers its receipt. *)
Definition d4 := after (claim_batch "worker-1" (Aware (sec 10)) 5 60 ∅ d3).
Definition sha : string := String.string_of_list_ascii (repeat (Ascii.ascii_of_nat 97) 64).
Definition d5 := after (record_receipt 1 "worker-1" 1 "grile" "grile:g:1" sha (Aware (sec 11)) d4).

Lemma d3_reachable : reachable digest check d3.
Proof.
  eapply rtc_l; [eapply (step_emit _ _ _ (proto 1 "north" "k1")); vm_compute; reflexivity|].
  eapply rtc_l; [eapply (step_emit _ _ _ (proto 2 "north" "k2")); vm_compute; reflexivity|].
  eapply rtc_l; [eapply (step_emit _ _ _ (proto 3 "south" "k3")); vm_compute; reflexivity|].
  vm_compute. apply rtc_refl.
Qed.

Lemma d4_steps : steps digest check d3 d4.
Proof.
  apply rtc_once. eapply (step_claim _ _ _ "worker-1" (Aware (sec 10)) 5 60 ∅).
  vm_compute. reflexivity.
Qed.

Lemma d5_steps : steps digest check d4 d5.
Proof.
  apply rtc_once.
  eapply (step_receipt _ _ _ 1 "worker-1" 1 "grile" "grile:g:1" sha (Aware (sec 11))).
  vm_compute. reflexivity.
Qed.

Lemma d4_reachable : reachable digest check d4.
Proof. unfold reachable, steps. etrans; [exact d3_reachable|exact d4_steps]. Qed.

Lemma d5_reachable : reachable digest check d5.
Proof. unfold reachable, steps. etrans; [exact d4_reachable|exact d5_steps]. Qed.

(** Attempts of event 3 that fail, an hour and a minute apart, while another
    transaction has event 1 locked. *)
Definition attempt (epoch : Z) (d : db) : option db :=
  let t := Aware (sec (3660 * epoch)) in
  match claim_batch "worker-2" t 1 60 {[1]} d with
  | Ok (_, d') =>
      match mark_failed 3 "worker-2" epoch "handler_failed" t d' with
      | Ok (_, d'') => Some d''
      | Err _ => None
      end
  | Err _ => None
  end.

Fixpoint attempts (ks : list Z) (d : db) : option db :=
  match ks with
  | [] => Some d
  | k :: ks' => match attempt k d with Some d' => attempts ks' d' | None => None end
  end.

Lemma attempts_steps ks d d' : attempts ks d = Some d' → steps digest check d d'.
Proof.
  revert d. induction ks as [|k ks IH]; intros d; cbn; [intros [= <-]; apply rtc_refl|].
  unfold attempt. destruct (claim_batch _ _ _ _ _ d) as [[r d1']|] eqn:H1; [|done].
  destruct (mark_failed _ _ _ _ _ d1') as [[s d2']|] eqn:H2; [|done].
  intros H3%IH. eapply rtc_l; [by eapply step_claim|]. eapply rtc_l; [by eapply step_fail|done].
Qed.

Definition dead_db : db := default empty_db (attempts [1; 2; 3; 4; 5; 6; 7; 8] d3).

Lemma dead_db_reachable : reachable digest check dead_db.
Proof.
  unfold reachable, steps. etrans; [exact d3_reachable|].
  apply (attempts_steps [1; 2; 3; 4; 5; 6; 7; 8]). vm_compute. reflexivity.
Qed.
End Demo.
Import Demo.

Lemma outbox_safety_witness :
  reachable digest check d5 ∧ length (receipts d5) = 1%nat ∧ state (row 1 d5) = Processing ∧
  NoDup ((λ r, (r_event r, r_consumer r)) <$> receipts d5).
Proof.
  split_and!; [exact d5_reachable|by vm_compute..|].
  apply (outbox_safety digest check d5). exact d5_reachable.
Defined.

Lemma claim_batch_effect_witness :
  ∃ picked d',
    claim_batch "worker-9" (Aware (sec 100)) 5 60 ∅ d5 = Ok (claim_set "worker-9" (sec 100) 60 <$> picked, d') ∧
    receipts d' = receipts d5.
Proof.
  destruct (claim_batch_effect digest check d5 "worker-9" (sec 100) 5 60 ∅)
    as (picked & d' & H & _ & _ & Hr & _).
  - exact d5_reachable.
  - apply (bool_decide_eq_true_1 (map_Forall (λ _ e, updated_at e <= sec 100) (events d5))).
    vm_compute. reflexivity.
  - vm_compute. reflexivity.
  - lia.
  - lia.
  - exists picked, d'. split; assumption.
Defined.

Lemma claim_batch_selection_witness :
  ∃ claimed, claim_batch "worker-1" (Aware (sec 10)) 5 60 ∅ d3 = Ok (claimed, d4) ∧
    length claimed = 2%nat ∧ ∀ e, e ∈ claimed → unblocked d4 e.
Proof.
  eexists. split_and!; [vm_compute; reflexivity|reflexivity|].
  eapply (claim_batch_selection digest check d3 "worker-1" (sec 10) 5 60 ∅);
    [exact d3_reachable|vm_compute; reflexivity].
Defined.

Lemma lost_claim_stays_lost_witness :
  claim_epoch (row 1 d4) = 1 ∧ ∀ r, mark_completed 1 "worker-1" 0 (Aware (sec 12)) d5 ≠ Ok r.
Proof.
  split; [by vm_compute|].
  apply (lost_claim_stays_lost digest check d4 d5 1 (row 1 d4) 0).
  - exact d4_reachable.
  - exact d5_steps.
  - vm_compute. reflexivity.
  - vm_compute. discriminate.
  - intros _. vm_compute. discriminate.
Defined.

Lemma receipt_effective_once_witness :
  record_receipt 1 "worker-1" 1 "grile" "grile:g:1" sha (Aware (sec 12)) d5 = Ok (false, d5) ∧
  "grile:g:1"%string = "grile:g:1"%string ∧ 1 = 1.
Proof.
  destruct (receipt_effective_once digest check d4 d5 d5 d5 1 "worker-1" 1 "grile" "grile:g:1" sha
    (Aware (sec 11)) true 1 "worker-1" 1 "grile:g:1" sha (Aware (sec 12)) false) as (_ & _ & He & Hk & _).
  - exact d4_reachable.
  - vm_compute. reflexivity.
  - apply rtc_refl.
  - by left.
  - vm_compute. reflexivity.
  - split_and!; [vm_compute; reflexivity|exact Hk|exact He].
Defined.

Lemma mark_failed_effect_witness :
  ∃ e', mark_failed 3 "worker-1" 1 "handler_failed" (Aware (sec 11)) d4
          = Ok (state e', Db (<[3 := e']> (events d4)) (receipts d4) (audits d4)) ∧
    attempt_count e' = 1.
Proof.
  destruct (mark_failed_effect digest check d4 3 (row 3 d4) "worker-1" 1 "handler_failed" (sec 11))
    as (e' & H & _ & Ha & _).
  - exact d4_reachable.
  - vm_compute. reflexivity.
  - vm_compute. reflexivity.
  - vm_compute. discriminate.
  - vm_compute. reflexivity.
  - exists e'. split; [exact H|]. rewrite Ha. vm_compute. reflexivity.
Defined.

Lemma replay_dead_effect_witness :
  state (row 3 dead_db) = Dead ∧
  ∃ d', replay_dead 3 "operator_retry" sha (Aware (sec 40000)) dead_db = Ok (1, d').
Proof.
  split; [by vm_compute|].
  destruct (replay_dead_effect digest check dead_db 3 (row 3 dead_db) "operator_retry" sha (sec 40000))
    as (dead & e' & _ & H & _).
  - exact dead_db_reachable.
  - vm_compute. reflexivity.
  - vm_compute. reflexivity.
  - vm_compute. discriminate.
  - vm_compute. reflexivity.
  - vm_compute. reflexivity.
  - eexists. exact H.
Defined.
