(* ===== verification/OutboxConsumers.v ===== *)
(** The consumers of outbox events: [services/grile_outbox_delivery.py], which
    projects a promoted sales generation, and the receipt-only consumers of
    [services/outbox_worker.py].

    A consumer is handed a claimed event and answers with a receipt.  Values whose
    type the code inspects at run time are [pyval]; a coroutine that can raise and
    uses the publication cache is a function of that cache.  SHA-256 and the jobs
    queue are arguments. *)

From Stdlib Require Import Ascii QArith.
From stdpp Require Import pretty.
From S2P Require Import Prelude Text Outbox Dict.

Local Open Scope Z_scope.

Module OutboxConsumers.
Import Outbox.

(** ** Python values *)

(** [Opaque] is an object of any other type, without a [revision] attribute. *)
Inductive pyval :=
| PNone
| PBool (b : bool)
| PInt (z : Z)
| PFloat (q : Q)
| PStr (s : string)
| PDict (entries : list (string * pyval))
| Opaque.

(** [d.get(key)] *)
Definition get (key : string) (entries : list (string * pyval)) : pyval :=
  default PNone (dget key entries).

(** The number a value is for [==]: [True == 1 == 1.0]. *)
Definition number (v : pyval) : option Q :=
  match v with
  | PBool b => Some (inject_Z (Z.b2z b))
  | PInt z => Some (inject_Z z)
  | PFloat q => Some q
  | _ => None
  end.

(** [v == c] for a constant [c] that is [None], a string or an integer. *)
Definition equals (v c : pyval) : bool :=
  match v, c with
  | PNone, PNone => true
  | PStr s, PStr t => bool_decide (s = t)
  | _, _ => match number v, number c with Some p, Some q => Qeq_bool p q | _, _ => false end
  end.

(** [any(result.get(key) != value for key, value in expected.items())] *)
Definition differs (expected result : list (string * pyval)) : bool :=
  existsb (λ kv, negb (equals (get kv.1 result) kv.2)) expected.

(** ** Exceptions of a delivery *)

Inductive exn :=
| RuntimeError (message : string)
| SalesGenerationSuperseded
| JobFailed
| RepositoryError (e : outbox_error)
| ConnectionFailed
| ClaimLeaseLost.

(** ** Canonical JSON of a flat object, and its digest *)

Definition hex_digit (n : nat) : ascii :=
  ascii_of_nat (if Nat.ltb n 10 then 48 + n else 87 + n).

(** [ensure_ascii]: everything outside the printable range is escaped. *)
Definition json_char (c : ascii) : list ascii :=
  let n := nat_of_ascii c in
  let backslash := ascii_of_nat 92 in
  if Nat.eqb n 34 || Nat.eqb n 92 then [backslash; c]
  else if Nat.eqb n 8 then [backslash; "b"%char]
  else if Nat.eqb n 9 then [backslash; "t"%char]
  else if Nat.eqb n 10 then [backslash; "n"%char]
  else if Nat.eqb n 12 then [backslash; "f"%char]
  else if Nat.eqb n 13 then [backslash; "r"%char]
  else if Nat.leb 32 n && Nat.leb n 126 then [c]
  else [backslash; "u"%char; "0"%char; "0"%char;
        hex_digit (Nat.div n 16); hex_digit (Nat.modulo n 16)].

Definition quote : string := String (ascii_of_nat 34) EmptyString.
Definition json_string (s : string) : string :=
  quote +:+ String.string_of_list_ascii
              (concat (json_char <$> String.list_ascii_of_string s)) +:+ quote.

(** The values hashed here are strings and integers. *)
Definition json_scalar (v : pyval) : string :=
  match v with
  | PStr s => json_string s
  | PInt z => pretty z
  | PBool true => "true"
  | PBool false => "false"
  | _ => "null"
  end.

Definition json_entry (kv : string * pyval) : string :=
  json_string kv.1 +:+ ":" +:+ json_scalar kv.2.

(** [json.dumps(value, sort_keys=True, separators=(",", ":"))] *)
Definition json_object (entries : list (string * pyval)) : string :=
  "{" +:+ String.concat "," (json_entry <$> sorted_by (leb_on fst String.leb) entries) +:+ "}".

Section Consumers.
(** [hashlib.sha256(text).hexdigest()] *)
Context (sha256_hex : string → string).

Definition _canonical_sha256 (entries : list (string * pyval)) : string :=
  sha256_hex (json_object entries).

(** ** Receipts *)

Definition receipt_dict (consumer key effect : string) : pyval :=
  PDict [("consumer"%string, PStr consumer);
         ("domain_generation_key"%string, PStr key);
         ("effect_sha256"%string, PStr effect)].

(** [_validated_receipt] of the worker. *)
Definition _validated_receipt (value : pyval) : res exn (string * string * string) :=
  match value with
  | PDict entries =>
      _ ← raise_if (negb (bool_decide
              (list_to_set (entries.*1)
                 =@{gset string} {["consumer"; "domain_generation_key"; "effect_sha256"]}%string)))
            (RuntimeError "outbox consumer receipt shape is invalid");
      match get "consumer" entries, get "domain_generation_key" entries,
            get "effect_sha256" entries with
      | PStr c, PStr k, PStr h => Ok (c, k, h)
      | _, _, _ => Err (RuntimeError "outbox consumer receipt values are invalid")
      end
  | _ => Err (RuntimeError "outbox consumer returned an invalid receipt")
  end.

(** ** The claimed event as a consumer sees it *)

(** The canonical payload of the producer; the CHECK of the events table ties
    its fields to the columns.  [iso] is PostgreSQL's [to_char] of an instant. *)
Context (iso : Z → string).
Definition payload_of (i : identity) : list (string * pyval) :=
  [("event_schema"%string, PStr (event_type i));
   ("aggregate_type"%string, PStr (aggregate_type i));
   ("aggregate_id"%string, PStr (aggregate_id i));
   ("generation_hash"%string, PStr (generation_hash i));
   ("source_hash"%string, PStr (p_source_hash (body i)))]
  ++ match p_cutoff (body i) with
     | Some t => [("cutoff"%string, PStr (iso t))]
     | None => []
     end
  ++ [("month"%string, PStr (p_month (body i)));
      ("revision"%string, PInt (revision i));
      ("occurred_at"%string, PStr (iso (occurred_at i)))].

(** ** [_receipt_only_consumer] *)

Definition _receipt_only_consumer (name : string) (ev : identity) : pyval :=
  let generation_key :=
    name +:+ ":" +:+ generation_hash ev +:+ ":" +:+ pretty (revision ev) in
  receipt_dict name generation_key
    (_canonical_sha256 [("consumer"%string, PStr name);
                        ("domain_generation_key"%string, PStr generation_key);
                        ("event_type"%string, PStr (event_type ev))]).

(** ** The sales projection *)

Definition SALES_EVENT_TYPE : string := "retail.sales_generation_promoted.v1".

(** [^[0-9]{4}-(0[1-9]|1[0-2])$] *)
Definition _MONTH_RE (s : string) : bool :=
  match String.list_ascii_of_string s with
  | [y1; y2; y3; y4; dash; m1; m2] =>
      is_digit y1 && is_digit y2 && is_digit y3 && is_digit y4 && one_of "-" dash
      && (one_of "0" m1 && in_range "1" "9" m2 || one_of "1" m1 && in_range "0" "2" m2)
  | _ => false
  end.

Definition mapping_get (key : string) (v : pyval) : pyval :=
  match v with PDict entries => get key entries | _ => PNone end.

Definition _revision (publication : pyval) (name : string) : res exn Z :=
  match mapping_get "revision" publication with
  | PInt z => if z <? 1 then Err (RuntimeError (name +:+ " publication revision is invalid"))
              else Ok z
  | _ => Err (RuntimeError (name +:+ " publication revision is invalid"))
  end.

Definition cache_key : Type := string * string * Z.
Definition _cache_key (payload : list (string * pyval)) : option cache_key :=
  match get "month" payload, get "generation_hash" payload, get "revision" payload with
  | PStr m, PStr g, PInt r => Some (m, g, r)
  | _, _, _ => None
  end.

Definition grile_key (generation_hash : string) (revision : Z) : string :=
  "grile_v2:" +:+ generation_hash +:+ ":" +:+ pretty revision.

Definition _superseded_effect (month generation_hash : string) (sales_revision : Z)
    : list (string * pyval) :=
  let generation_key := grile_key generation_hash sales_revision in
  let effect :=
    [("contract"%string, PStr "grile-v2-sales-superseded-v1");
     ("domain_generation_key"%string, PStr generation_key);
     ("generation_hash"%string, PStr generation_hash);
     ("month"%string, PStr month);
     ("outcome"%string, PStr "superseded");
     ("sales_revision"%string, PInt sales_revision)] in
  [("domain_generation_key"%string, PStr generation_key);
   ("effect_sha256"%string, PStr (_canonical_sha256 effect));
   ("generation_hash"%string, PStr generation_hash);
   ("outcome"%string, PStr "superseded");
   ("sales_revision"%string, PInt sales_revision)].

(** [str(value)] of the strings it is applied to. *)
Definition str_of (v : pyval) : string := match v with PStr s => s | _ => "" end.

Definition _superseded_receipt (month generation_hash : string) (sales_revision : Z) : pyval :=
  let result := _superseded_effect month generation_hash sales_revision in
  receipt_dict "grile_v2" (str_of (get "domain_generation_key" result))
    (str_of (get "effect_sha256" result)).

Definition _require_publication_result (result : pyval) (generation_hash : string)
    (revision : Z) : res exn (list (string * pyval)) :=
  match result with
  | PDict entries =>
      if negb (equals (get "status" entries) (PStr "superseded")) then Ok entries
      else if differs [("sales_generation_hash"%string, PStr generation_hash);
                       ("sales_generation_revision"%string, PInt revision);
                       ("promotion"%string, PNone); ("contest"%string, PNone);
                       ("grile_v2_job_id"%string, PNone)] entries
      then Err (RuntimeError "superseded campaign publication lineage differs")
      else Err SalesGenerationSuperseded
  | _ => Err (RuntimeError "campaign publication worker returned no result")
  end.

Definition _validated_effect_receipt (entries : list (string * pyval))
    (generation_hash : string) (sales_revision : Z) : res exn pyval :=
  let generation_key := get "domain_generation_key" entries in
  _ ← raise_if (negb (equals generation_key (PStr (grile_key generation_hash sales_revision))))
        (RuntimeError "Grile V2 generation receipt differs");
  match get "effect_sha256" entries with
  | PStr h => if sha256_re h
              then Ok (PDict [("consumer"%string, PStr "grile_v2");
                              ("domain_generation_key"%string, generation_key);
                              ("effect_sha256"%string, PStr h)])
              else Err (RuntimeError "Grile V2 effect digest is invalid")
  | _ => Err (RuntimeError "Grile V2 effect digest is invalid")
  end.

Definition _receipt_from_grile_result (result : pyval) (generation_hash : string)
    (sales_revision campaign_revision contest_revision : Z) : res exn pyval :=
  match result with
  | PDict entries =>
      if equals (get "outcome" entries) (PStr "superseded")
      then
        _ ← raise_if (differs [("generation_hash"%string, PStr generation_hash);
                               ("sales_revision"%string, PInt sales_revision)] entries)
              (RuntimeError "superseded Grile V2 delivery lineage differs");
        _validated_effect_receipt entries generation_hash sales_revision
      else
        _ ← raise_if (differs [("generation_hash"%string, PStr generation_hash);
                               ("sales_revision"%string, PInt sales_revision);
                               ("campaign_revision"%string, PInt campaign_revision);
                               ("contest_revision"%string, PInt contest_revision)] entries)
              (RuntimeError "Grile V2 delivery lineage differs");
        _validated_effect_receipt entries generation_hash sales_revision
  | _ => Err (RuntimeError "Grile V2 delivery result is invalid")
  end.

(** The pilot is retired: the effect is acknowledged without any side effect. *)
Definition _retired_grile_v2_effect (month generation_hash : string)
    (sales_revision campaign_revision contest_revision : Z) : pyval :=
  let key := grile_key generation_hash sales_revision in
  let effect :=
    [("contract"%string, PStr "grile-v2-retired-v1");
     ("domain_generation_key"%string, PStr key);
     ("month"%string, PStr month);
     ("sales_generation_hash"%string, PStr generation_hash);
     ("sales_revision"%string, PInt sales_revision);
     ("campaign_revision"%string, PInt campaign_revision);
     ("contest_revision"%string, PInt contest_revision);
     ("outcome"%string, PStr "retired")] in
  PDict [("domain_generation_key"%string, PStr key);
         ("effect_sha256"%string, PStr (_canonical_sha256 effect));
         ("outcome"%string, PStr "retired");
         ("generation_hash"%string, PStr generation_hash);
         ("sales_revision"%string, PInt sales_revision);
         ("campaign_revision"%string, PInt campaign_revision);
         ("contest_revision"%string, PInt contest_revision)].

(** ** Coroutines over a state that survives exceptions *)

Definition co (S A : Type) : Type := S → res exn A * S.
Definition co_bind {S A B} (m : co S A) (k : A → co S B) : co S B :=
  λ s, match m s with
       | (Ok a, s') => k a s'
       | (Err e, s') => (Err e, s')
       end.
Definition co_lift {S A} (r : res exn A) : co S A := λ s, (r, s).
Local Notation "x '<~' m ; k" := (co_bind m (λ x, k))
  (at level 20, m at level 100, k at level 200, right associativity).

(** [deliver_sales_generation_event]; the publishers take month, generation and
    revision, the last one also the two revisions published. *)
Definition deliver_sales_generation_event {S}
    (publish_campaigns publish_contests : string → string → Z → co S pyval)
    (sync_grile_v2 : string → string → Z → Z → Z → co S pyval)
    (ev : identity) (payload : list (string * pyval)) : co S pyval :=
  _ <~ co_lift (raise_if (negb (bool_decide (event_type ev = SALES_EVENT_TYPE)))
                 (RuntimeError "sales delivery received an unsupported event"));
  month <~ co_lift match get "month" payload with
           | PStr m => if _MONTH_RE m then Ok m
                       else Err (RuntimeError "sales delivery month is invalid")
           | _ => Err (RuntimeError "sales delivery month is invalid")
           end;
  generation <~ co_lift match get "generation_hash" payload with
           | PStr g => if sha256_re g then Ok g
                       else Err (RuntimeError "sales delivery generation is invalid")
           | _ => Err (RuntimeError "sales delivery generation is invalid")
           end;
  _ <~ co_lift (raise_if (negb (bool_decide (generation = generation_hash ev)))
                 (RuntimeError "sales delivery generation lineage differs"));
  rev <~ co_lift match get "revision" payload with
           | PInt z => if z <? 1 then Err (RuntimeError "sales delivery revision is invalid")
                       else Ok z
           | _ => Err (RuntimeError "sales delivery revision is invalid")
           end;
  _ <~ co_lift (raise_if (negb (rev =? revision ev))
                 (RuntimeError "sales delivery revision lineage differs"));
  λ s,
    match (campaign <~ publish_campaigns month generation rev;
           contest <~ publish_contests month generation rev;
           co_lift (Ok (campaign, contest))) s with
    | (Err SalesGenerationSuperseded, s') =>
        (Ok (_superseded_receipt month generation rev), s')
    | (Err e, s') => (Err e, s')
    | (Ok (campaign, contest), s') =>
        (campaign_revision <~ co_lift (_revision campaign "campaign");
         contest_revision <~ co_lift (_revision contest "contest");
         result <~ sync_grile_v2 month generation rev campaign_revision contest_revision;
         co_lift (_receipt_from_grile_result result generation rev
                    campaign_revision contest_revision)) s'
    end.

(** ** [build_sales_generation_consumer] *)

(** The tasks by key, each with what awaiting it yields, and the jobs enqueued. *)
Record publications := Publications {
  publication_tasks : gmap cache_key (res exn pyval);
  enqueued : list cache_key;
}.

(** The [n]-th job enqueued for a key, awaited: a value, or an exception. *)
Context (job_result : nat → cache_key → res exn pyval).

Definition publication (key : cache_key) : co publications (list (string * pyval)) :=
  λ s,
    let '(task, s1) :=
      match publication_tasks s !! key with
      | Some task => (task, s)
      | None =>
          let task := job_result (length (enqueued s)) key in
          (task, Publications (<[key := task]> (publication_tasks s)) (enqueued s ++ [key]))
      end in
    match task with
    | Err e => (Err e, Publications (delete key (publication_tasks s1)) (enqueued s1))
    | Ok result => (_require_publication_result result key.1.2 key.2, s1)
    end.

Definition revision_dict (z : Z) : pyval := PDict [("revision"%string, PInt z)].

Definition publish_campaigns (month generation_hash : string) (revision : Z)
    : co publications pyval :=
  result <~ publication (month, generation_hash, revision);
  z <~ co_lift (_revision (get "promotion" result) "campaign");
  co_lift (Ok (revision_dict z)).

Definition publish_contests (month generation_hash : string) (revision : Z)
    : co publications pyval :=
  result <~ publication (month, generation_hash, revision);
  z <~ co_lift (_revision (get "contest" result) "contest");
  co_lift (Ok (revision_dict z)).

Definition sync_grile_v2 (month generation_hash : string)
    (sales_revision campaign_revision contest_revision : Z) : co publications pyval :=
  co_lift (Ok (_retired_grile_v2_effect month generation_hash sales_revision
                 campaign_revision contest_revision)).

Definition forget (key : option cache_key) (s : publications) : publications :=
  match key with
  | Some k => Publications (delete k (publication_tasks s)) (enqueued s)
  | None => s
  end.

(** One consumption from beginning to end. *)
Definition consume (ev : identity) : co publications pyval :=
  λ s,
    let payload := payload_of ev in
    let '(r, s') := deliver_sales_generation_event publish_campaigns publish_contests
                      sync_grile_v2 ev payload s in
    (r, forget (_cache_key payload) s').
End Consumers.

(** ** The production registry *)

Definition _EVENT_CONSUMERS : list (string * string) :=
  [("retail.pnl_generation_promoted.v1"%string, "pnl_receipt"%string);
   ("retail.salary_import_completed.v1"%string, "salary_receipt"%string);
   ("retail.planning_forecast_promoted.v1"%string, "planning_receipt"%string);
   ("retail.grile_manifest_approved.v1"%string, "grile_manifest_receipt"%string)].

(** What the outside world answers during a consumption. *)
Definition job_results : Type := nat → cache_key → res exn pyval.
Definition consumer : Type := job_results → identity → res exn pyval.

Definition _production_consumers (sha256_hex : string → string) (iso : Z → string)
    : gmap string consumer :=
  <[SALES_EVENT_TYPE :=
      (λ jobs ev, (consume sha256_hex iso jobs ev (Publications ∅ [])).1)]>
    (list_to_map ((λ tc, (tc.1, (λ _ ev, Ok (_receipt_only_consumer sha256_hex tc.2 ev))))
                    <$> _EVENT_CONSUMERS)).

End OutboxConsumers.
