(* ===== verification/OutboxWorker.v ===== *)
(** The outbox dispatcher of [services/outbox_worker.py] as a machine: the
    deliveries of claimed events, each a coroutine with its heartbeat task, run
    interleaved with each other, with the workers of other processes, with
    producers and with the admin replay, over the tables of [Outbox.v].

    The coroutine of a delivery is suspended at its awaits.  [act] runs it from one
    await to the next: at most one repository call, so at most one transaction.
    Every call may also find the database unreachable. *)

From S2P Require Import Prelude Text Outbox OutboxConsumers.

Local Open Scope Z_scope.

Module OutboxWorker.
Import Outbox OutboxConsumers.

(** ** A delivery *)

(** [_confirm_claim_and_stop] runs before the completion and before the failure. *)
Inductive goal := ToComplete | ToFail.

Inductive outcome :=
| Delivered
| LeaseLost
| FailureRecorded (s : event_state)
| FailureUnrecorded
| Escaped (e : exn)
| Cancelled.

(** Where the coroutine of [_deliver_claimed] stands; a receipt is the
    consumer, its generation key and the digest of its effect. *)
Inductive phase :=
| Starting
| Consuming
| Renewing (r : string * string * string)
| Recording (r : string * string * string)
| Confirming (g : goal)
| Stopping (g : goal)
| Finishing (g : goal)
| Finished (o : outcome).

(** The heartbeat task: running, returned after [stop.set()], or ended by
    [_ClaimLeaseLost]. *)
Inductive heartbeat := Beating | Stopped | Broken.
#[global] Instance heartbeat_eq : EqDecision heartbeat.
Proof. solve_decision. Defined.

Record delivery := Delivery {
  claim : OutboxEvent;
  worker : string;
  lease_seconds : Z;
  at_ : phase;
  beat : heartbeat;
}.

Definition eid (x : delivery) : Z := id (ident (claim x)).
Definition epoch (x : delivery) : Z := claim_epoch (claim x).
Definition moved (p : phase) (x : delivery) : delivery :=
  Delivery (claim x) (worker x) (lease_seconds x) p (beat x).
Definition beat_set (b : heartbeat) (x : delivery) : delivery :=
  Delivery (claim x) (worker x) (lease_seconds x) (at_ x) b.

(** What the environment supplies to one run between two awaits. *)
Record input := Input {
  utc_now : Z;
  reachable_db : bool;
  jobs : job_results;
}.

(** The Prometheus counters of the worker. *)
Inductive metric := OUTBOX_COMPLETED | OUTBOX_FAILED.

(** ** Repository calls *)

(** A call whose connection fails is rolled back. *)
Definition call {A} (inp : input) (m : res outbox_error A) : res exn A :=
  if reachable_db inp then lift_err RepositoryError m else Err ConnectionFailed.

(** [_renew_claim]: whatever is raised becomes [_ClaimLeaseLost]. *)
Definition _renew_claim (inp : input) (d : db) (x : delivery) : res exn db :=
  match call inp (renew_lease (eid x) (worker x) (epoch x) (Aware (utc_now inp))
                    (lease_seconds x) d) with
  | Ok (_, d') => Ok d'
  | Err _ => Err ClaimLeaseLost
  end.

(** Is the exception a [RuntimeError]? *)
Definition is_runtime_error (e : exn) : bool :=
  match e with
  | RuntimeError _ | ClaimLeaseLost => true
  | RepositoryError (StaleClaim | ConsumerReceiptConflict | DomainGenerationReceiptConflict
                    | ReceiptNotObservable | NotExactDead | ChangedDuringReplay) => true
  | _ => false
  end.

(** ** The coroutine *)

Definition turn : Type := db * delivery * list metric.

(** An exception leaves the [try] body. *)
Definition raised (d : db) (x : delivery) (e : exn) : turn :=
  match e with
  | ClaimLeaseLost => (d, moved (Finished LeaseLost) x, [OUTBOX_FAILED])
  | _ => (d, moved (Confirming ToFail) x, [OUTBOX_FAILED])
  end.

(** The claim is lost while it is confirmed: in the body, or in the handler. *)
Definition lost (g : goal) (d : db) (x : delivery) : turn :=
  match g with
  | ToComplete => raised d x ClaimLeaseLost
  | ToFail => (d, moved (Finished LeaseLost) x, [])
  end.

Section Coroutine.
Context (consumers : gmap string consumer).

Definition consumer_missing : exn := RuntimeError "outbox event type has no consumer".

Definition act (inp : input) (d : db) (x : delivery) : turn :=
  match at_ x with
  | Starting =>
      match consumers !! event_type (ident (claim x)) with
      | None => raised d x consumer_missing
      | Some _ => (d, moved Consuming x, [])
      end
  | Consuming =>
      if bool_decide (beat x = Broken) then raised d x ClaimLeaseLost else
      match consumers !! event_type (ident (claim x)) with
      | None => raised d x consumer_missing
      | Some consume =>
          match (v ← consume (jobs inp) (ident (claim x)); _validated_receipt v) with
          | Err e => raised d x e
          | Ok r => (d, moved (Renewing r) x, [])
          end
      end
  | Renewing r =>
      match _renew_claim inp d x with
      | Err e => raised d x e
      | Ok d' => (d', moved (Recording r) x, [])
      end
  | Recording r =>
      match call inp (record_receipt (eid x) (worker x) (epoch x) r.1.1 r.1.2 r.2
                        (Aware (utc_now inp)) d) with
      | Err e => raised d x e
      | Ok (_, d') => (d', moved (Confirming ToComplete) x, [])
      end
  | Confirming g =>
      if bool_decide (beat x = Broken) then lost g d x else
      match _renew_claim inp d x with
      | Err _ => lost g d x
      | Ok d' => (d', moved (Stopping g) x, [])
      end
  | Stopping g =>
      if bool_decide (beat x = Broken) then lost g d x
      else (d, beat_set Stopped (moved (Finishing g) x), [])
  | Finishing ToComplete =>
      match call inp (mark_completed (eid x) (worker x) (epoch x) (Aware (utc_now inp)) d) with
      | Err e => raised d x e
      | Ok (_, d') => (d', moved (Finished Delivered) x, [OUTBOX_COMPLETED])
      end
  | Finishing ToFail =>
      match call inp (mark_failed (eid x) (worker x) (epoch x) "handler_failed"
                        (Aware (utc_now inp)) d) with
      | Err e =>
          (d, moved (Finished (if is_runtime_error e then FailureUnrecorded else Escaped e)) x, [])
      | Ok (s, d') => (d', moved (Finished (FailureRecorded s)) x, [])
      end
  | Finished _ => (d, x, [])
  end.

(** One turn of [_lease_heartbeat]: the timeout passed without [stop]. *)
Definition beats (inp : input) (d : db) (x : delivery) : db * delivery :=
  match at_ x, beat x with
  | Finished _, _ => (d, x)
  | _, Beating =>
      match _renew_claim inp d x with
      | Ok d' => (d', x)
      | Err _ => (d, beat_set Broken x)
      end
  | _, _ => (d, x)
  end.

(** A delivery run without interference, one input for each await. *)
Fixpoint run_alone (inps : list input) (d : db) (x : delivery) : turn :=
  match inps with
  | [] => (d, x, [])
  | inp :: inps' =>
      let '(d1, x1, ms) := act inp d x in
      let '(d2, x2, ms') := run_alone inps' d1 x1 in
      (d2, x2, ms ++ ms')
  end.

(** ** The world: the tables, every delivery ever started, the counters *)

Record world := World {
  store : db;
  deliveries : list delivery;
  completed_total : Z;
  failed_total : Z;
}.

Definition empty_world : world := World empty_db [] 0 0.

Definition is_completed (m : metric) : bool :=
  match m with OUTBOX_COMPLETED => true | _ => false end.
Definition count (ms : list metric) (c : Z) (f : Z) : Z * Z :=
  (c + Z.of_nat (length (List.filter is_completed ms)),
   f + Z.of_nat (length (List.filter (negb ∘ is_completed) ms))).

Definition after_turn (i : nat) (t : turn) (w : world) : world :=
  let '(d, x, ms) := t in
  let '(c, f) := count ms (completed_total w) (failed_total w) in
  World d (<[i := x]> (deliveries w)) c f.

(** [_deliver_claimed] before its first await. *)
Definition begin_delivery (owner : string) (lease : Z) (e : OutboxEvent) : delivery :=
  Delivery e owner lease Starting Beating.

(** [dispatch_outbox_once]: the batch is claimed, its deliveries run, and the
    size of the batch is returned. *)
Definition dispatch_outbox_once (owner : string) (now : datetime) (batch_size lease : Z)
    (locked : gset Z) (w : world) : res outbox_error (nat * world) :=
  '(claimed, d') ← claim_batch owner now batch_size lease locked (store w);
  Ok (length claimed,
      World d' (deliveries w ++ (begin_delivery owner lease <$> claimed))
        (completed_total w) (failed_total w)).

Definition with_store (d : db) (w : world) : world :=
  World d (deliveries w) (completed_total w) (failed_total w).
Definition with_delivery (i : nat) (x : delivery) (w : world) : world :=
  World (store w) (<[i := x]> (deliveries w)) (completed_total w) (failed_total w).

Section Steps.
Context (payload_digest : identity → payload → string) (identity_check : identity → bool).

(** A cancellation reaches a delivery between two transactions, or after the
    transaction of a run committed and before the coroutine went on. *)
Inductive wstep (w : world) : world → Prop :=
| w_emit proto r d' :
    emit_internal payload_digest identity_check proto (store w) = Ok (r, d') →
    wstep w (with_store d' w)
| w_replay i reason actor now r d' :
    replay_dead i reason actor now (store w) = Ok (r, d') → wstep w (with_store d' w)
| w_dispatch owner now batch lease locked n w' :
    dispatch_outbox_once owner now batch lease locked w = Ok (n, w') → wstep w w'
| w_act i x inp :
    deliveries w !! i = Some x → wstep w (after_turn i (act inp (store w) x) w)
| w_beat i x inp d' x' :
    deliveries w !! i = Some x → beats inp (store w) x = (d', x') →
    wstep w (with_store d' (with_delivery i x' w))
| w_cancel i x :
    deliveries w !! i = Some x → (∀ o, at_ x ≠ Finished o) →
    wstep w (with_delivery i (moved (Finished Cancelled) x) w)
| w_cancel_late i x inp d' x' ms :
    deliveries w !! i = Some x → (∀ o, at_ x ≠ Finished o) →
    act inp (store w) x = (d', x', ms) →
    wstep w (with_store d' (with_delivery i (moved (Finished Cancelled) x) w)).

Definition wreachable (w : world) : Prop := rtc wstep empty_world w.
End Steps.
End Coroutine.

End OutboxWorker.
