(* ===== verification/OutboxWorkerInv.v ===== *)
(** The invariant of the dispatcher's world: receipts stand behind completions,
    every receipt fits its event, and each delivery's phase
    agrees with the tables.  [KeyedConsumers] is what the consumers promise. *)

From S2P Require Import Prelude Text Outbox OutboxInv OutboxConsumers OutboxWorker.
Import Outbox OutboxConsumers OutboxWorker.

Local Open Scope Z_scope.

Module OutboxWorkerInv.

(** A receipt as a consumer answers it: its name, the generation key, the effect's digest. *)
Notation answer := (string * string * string)%type.

(** Every answer of the registry's consumers fits its event. *)
Class KeyedConsumers (consumers : gmap string consumer)
    (key_ok : identity → answer → Prop) : Prop :=
  consumer_key ev c jobs v r :
    consumers !! event_type ev = Some c → c jobs ev = Ok v → _validated_receipt v = Ok r →
    key_ok ev r.

#[global] Instance any_key consumers : KeyedConsumers consumers (λ _ _, True).
Proof. by intros ? ? ? ? ?. Qed.

(** The strongest that holds: the answer of the registered consumer for this event. *)
Definition is_answer (consumers : gmap string consumer) (ev : identity) (r : answer) : Prop :=
  ∃ c jobs v, consumers !! event_type ev = Some c ∧ c jobs ev = Ok v ∧ _validated_receipt v = Ok r.
#[global] Instance answer_key consumers : KeyedConsumers consumers (is_answer consumers).
Proof. intros ev c jobs v r Hc Hv Hr. by exists c, jobs, v. Qed.

Definition answer_of (r : receipt) : answer :=
  (r_consumer r, r_generation_key r, r_effect_sha256 r).

(** ** Receipts behind completed events *)

Definition has_receipt (rs : list receipt) (i : Z) : Prop := ∃ r, r ∈ rs ∧ r_event r = i.

Lemma has_receipt_app rs l i : has_receipt rs i → has_receipt (rs ++ l) i.
Proof. intros (r & Hr & <-). exists r. split; [|done]. apply elem_of_app. by left. Qed.

Lemma receipt_at_has i d t : receipt_at i d = Some t → has_receipt (receipts d) i.
Proof.
  unfold receipt_at, event_receipts. destruct (List.filter _ _) as [|r l] eqn:Hf; [done|]. intros _.
  assert (Hr : In r (List.filter (λ r, r_event r =? i) (receipts d))) by (rewrite Hf; by left).
  apply List.filter_In in Hr as [Hr Hi%Z.eqb_eq]. exists r. by rewrite list_elem_of_In.
Qed.

Section Invariant.
Context (key_ok : identity → answer → Prop).

Record receipts_ok (d : db) : Prop := {
  ro_id i e : events d !! i = Some e → id (ident e) = i;
  ro_completed i e : events d !! i = Some e → state e = Completed → has_receipt (receipts d) i;
  ro_key r : r ∈ receipts d → ∃ e, events d !! r_event r = Some e ∧
    key_ok (ident e) (answer_of r) ∧ generation_key_check (r_generation_key r) = true;
}.

Lemma update_row_receipts_ok i f d d' :
  receipts_ok d → update_row i f d = Ok d' →
  (∀ e, events d !! i = Some e → state (f e) = Completed → has_receipt (receipts d) i) →
  receipts_ok d'.
Proof.
  intros Hok [(_ & ->)|(e & He & G%guard_update_guarded & _ & ->)]%update_row_Ok Hf; [done|].
  destruct Hok as [Hid Hc Hk]. pose proof (gu_ident _ _ G) as Hi. split; cbn.
  - intros j x [[<- <-]|[_ Hx]]%lookup_insert_Some; [rewrite Hi|]; by apply Hid.
  - intros j x [[<- <-]|[_ Hx]]%lookup_insert_Some; [by apply Hf|by apply Hc].
  - intros r (x & Hx & Hkey & Hchk)%Hk. destruct (decide (r_event r = i)) as [Heq|Hne].
    + rewrite Heq in *. exists (f e). rewrite lookup_insert_eq, Hi. by assert (x = e) as -> by congruence.
    + exists x. by rewrite lookup_insert_ne by done.
Qed.

Lemma update_rows_receipts_ok ids f d d' :
  receipts_ok d → update_rows ids f d = Ok d' →
  (∀ e, state (f e) = Completed → has_receipt (receipts d) (id (ident e))) →
  receipts_ok d'.
Proof.
  unfold update_rows. revert d. induction ids as [|i ids IH]; intros d Hok; cbn.
  - by intros [= <-].
  - intros (d1 & H1 & H2)%bind_Ok Hf. eapply IH; [|exact H2|].
    + eapply update_row_receipts_ok; [done..|]. intros e He Hs.
      rewrite <- (ro_id _ Hok i e He). by apply Hf.
    + apply update_row_logs in H1 as [-> _]. done.
Qed.

Lemma claim_receipts_ok owner now limit lease locked d r d' :
  receipts_ok d → claim_batch owner now limit lease locked d = Ok (r, d') → receipts_ok d'.
Proof.
  intros Hok H. unfold claim_batch in H. inv_res. simplify_eq.
  eapply update_rows_receipts_ok; [|exact Hv4|done].
  eapply update_rows_receipts_ok; [exact Hok|exact Hv3|].
  intros e. cbn. destruct (receipt_at _ d) eqn:Ha; cbn; [|by destruct (_ =? 8)].
  intros _. by eapply receipt_at_has.
Qed.

Lemma renew_receipts_ok i owner epoch now lease d r d' :
  receipts_ok d → renew_lease i owner epoch now lease d = Ok (r, d') → receipts_ok d'.
Proof.
  intros Hok H. unfold renew_lease in H. inv_res. simplify_eq. destruct v2 as [e' d2]; cbn in *.
  apply fenced_update_Ok in Hv2 as (e & He & _ & _ & Hu).
  eapply update_row_receipts_ok; [done..|]. intros x Hx Hs. by eapply ro_completed.
Qed.

Lemma complete_receipts_ok i owner epoch now d r d' :
  receipts_ok d → has_receipt (receipts d) i →
  mark_completed i owner epoch now d = Ok (r, d') → receipts_ok d'.
Proof.
  intros Hok Hr H. unfold mark_completed in H. inv_res. simplify_eq. destruct v0 as [e' d2]; cbn in *.
  apply fenced_update_Ok in Hv0 as (e & He & _ & _ & Hu). by eapply update_row_receipts_ok.
Qed.

Lemma fail_receipts_ok i owner epoch code now d r d' :
  receipts_ok d → mark_failed i owner epoch code now d = Ok (r, d') → receipts_ok d'.
Proof.
  intros Hok H. unfold mark_failed in H. inv_res. simplify_eq. destruct v1 as [e' d2]; cbn in *.
  apply fenced_update_Ok in Hv1 as (e & He & _ & _ & Hu).
  eapply update_row_receipts_ok; [done..|]. intros x Hx. cbn. rewrite (ro_id _ Hok i x Hx).
  destruct (receipt_at i d) eqn:Ha; cbn; [|by destruct (_ =? 8)].
  intros _. by eapply receipt_at_has.
Qed.

Lemma replay_receipts_ok i reason actor now d r d' :
  receipts_ok d → replay_dead i reason actor now d = Ok (r, d') → receipts_ok d'.
Proof.
  intros Hok H. unfold replay_dead in H. inv_res.
  destruct (events d !! i) as [e|] eqn:He; [|done].
  destruct (state e) eqn:Hs; try done. destruct (attempt_count e =? 8); [|done].
  destruct (dead_at e); [|done]. inv_res.
  apply insert_audit_Ok in Hv2 as ->. cbn in H. rewrite He, Hs in H.
  rewrite bool_decide_eq_true_2 in H by done. inv_res. simplify_eq.
  eapply update_row_receipts_ok; [|eassumption|done]. destruct Hok. by split.
Qed.

(** The receipt a record adds, if it adds one. *)
Lemma record_receipt_adds i owner epoch consumer key effect now d b d' :
  record_receipt i owner epoch consumer key effect now d = Ok (b, d') →
  d' = d ∨ ∃ t, d' = Db (events d) (receipts d ++ [Receipt i consumer key effect t]) (audits d) ∧
                generation_key_check key = true.
Proof.
  intros H. unfold record_receipt in H. inv_res. unfold insert_receipt in Hv4. inv_res.
  destruct (_ || _); inv_res; cbn in *; simplify_eq.
  - left. repeat case_match; by inv_res; simplify_eq.
  - right. exists v2. by apply negb_false_iff in Hv5.
Qed.

Lemma record_receipts_ok i owner epoch consumer key effect now d b d' e :
  receipts_ok d → events d !! i = Some e → key_ok (ident e) (consumer, key, effect) →
  record_receipt i owner epoch consumer key effect now d = Ok (b, d') → receipts_ok d'.
Proof.
  intros Hok He Hkey [->|(t & -> & Hc)]%record_receipt_adds; [done|].
  destruct Hok as [Hid Hcomp Hk]. split; cbn; [done| |].
  - intros j x Hx Hs. by eapply has_receipt_app, Hcomp.
  - intros r [Hr|Hr%list_elem_of_singleton]%elem_of_app; [by apply Hk|]. subst. by exists e.
Qed.

Lemma emit_receipts_ok payload_digest identity_check proto d r d' :
  receipts_ok d → emit_internal payload_digest identity_check proto d = Ok (r, d') →
  receipts_ok d'.
Proof.
  intros Hok. unfold emit_internal. destruct (List.filter _ _) as [|[j e] l].
  2:{ destruct (_ && _); [|done]. by intros [= _ <-]. }
  intros H. inv_res. simplify_eq. apply bool_decide_eq_false, eq_None_not_Some in Hv. cbn in Hv.
  destruct Hok as [Hid Hcomp Hk]. split; cbn.
  - by intros i x [[<- <-]|[_ Hx%Hid]]%lookup_insert_Some.
  - intros i x [[<- <-]|[_ Hx]]%lookup_insert_Some; [done|by apply Hcomp].
  - intros x (e & He & Hkey)%Hk. exists e. rewrite lookup_insert_ne by congruence. done.
Qed.

(** ** A delivery against the tables *)

Definition recorded (p : phase) : bool :=
  match p with
  | Confirming ToComplete | Stopping ToComplete | Finishing ToComplete | Finished Delivered => true
  | _ => false
  end.

(** The phases that come after the heartbeat was awaited. *)
Definition past_heartbeat (p : phase) : bool :=
  match p with
  | Finishing _ | Finished Delivered | Finished (FailureRecorded _) => true
  | _ => false
  end.

Record delivery_ok (d : db) (x : delivery) : Prop := {
  do_row : ∃ e, events d !! eid x = Some e ∧ ident e = ident (claim x);
  do_key r : at_ x = Renewing r ∨ at_ x = Recording r → key_ok (ident (claim x)) r;
  do_recorded : recorded (at_ x) = true → has_receipt (receipts d) (eid x);
  do_done : at_ x = Finished Delivered →
    ∃ e, events d !! eid x = Some e ∧ state e = Completed;
  do_beat : past_heartbeat (at_ x) = true → beat x = Stopped;
}.

Lemma delivery_ok_evolves d d' x : evolves d d' → delivery_ok d x → delivery_ok d' x.
Proof.
  intros [Hrow (l & Hl)] [(e & He & Hi) Hk Hr Hd Hb].
  destruct (Hrow _ _ He) as (e' & He' & Hi' & _ & Hc & _). split; try done.
  - exists e'. split; [done|congruence].
  - intros H. rewrite Hl. by apply has_receipt_app, Hr.
  - intros (x0 & Hx & Hs)%Hd. assert (x0 = e) as -> by congruence.
    exists e'. by rewrite (Hc Hs) in *.
Qed.

(** A new position that promises no more than the old one. *)
Lemma delivery_ok_moved d x p :
  delivery_ok d x → (∀ r, p ≠ Renewing r) → (∀ r, p ≠ Recording r) →
  recorded p = false → past_heartbeat p = false → delivery_ok d (moved p x).
Proof.
  intros [? ? ? ? ?] H1 H2 H3 H4. split; cbn; try done.
  - intros r [Hr|Hr]; [by apply H1 in Hr|by apply H2 in Hr].
  - congruence.
  - by intros ->.
  - congruence.
Qed.
End Invariant.

End OutboxWorkerInv.
