(* ===== verification/OutboxWorkerSpec.v ===== *)
(** What the dispatcher guarantees, whatever the interleaving: its transactions
    are those of the outbox, completions are counted once and backed by receipts, a
    lost lease silences a delivery, and every delivery ends. *)

From S2P Require Import Prelude Text Outbox OutboxInv OutboxSpec OutboxConsumers OutboxWorker OutboxWorkerInv.
Import Outbox OutboxConsumers OutboxWorker OutboxWorkerInv.

Local Open Scope Z_scope.

Module OutboxWorkerSpec.

(** ** What one turn writes *)

Inductive writes (d : db) (x : delivery) : db → Prop :=
| wr_nothing : writes d x d
| wr_renew t r d' :
    renew_lease (eid x) (worker x) (epoch x) t (lease_seconds x) d = Ok (r, d') → writes d x d'
| wr_receipt r t b d' :
    at_ x = Recording r →
    record_receipt (eid x) (worker x) (epoch x) r.1.1 r.1.2 r.2 t d = Ok (b, d') → writes d x d'
| wr_complete t r d' :
    at_ x = Finishing ToComplete →
    mark_completed (eid x) (worker x) (epoch x) t d = Ok (r, d') → writes d x d'
| wr_fail t r d' :
    at_ x = Finishing ToFail →
    mark_failed (eid x) (worker x) (epoch x) "handler_failed" t d = Ok (r, d') → writes d x d'.

#[local] Hint Constructors writes : core.

Lemma call_Ok {A} inp (m : res outbox_error A) a : call inp m = Ok a → m = Ok a.
Proof. unfold call. destruct (reachable_db inp), m; cbn; congruence. Qed.

Lemma renew_claim_Ok inp d x d' :
  _renew_claim inp d x = Ok d' → ∃ r, renew_lease (eid x) (worker x) (epoch x)
    (Aware (utc_now inp)) (lease_seconds x) d = Ok (r, d').
Proof.
  unfold _renew_claim. destruct (call _ _) as [[r d1]|e] eqn:Hc; [|done].
  intros [= <-]. exists r. by eapply call_Ok.
Qed.

Lemma renew_claim_Err inp d x e : _renew_claim inp d x = Err e → e = ClaimLeaseLost.
Proof. unfold _renew_claim. destruct (call _ _) as [[r d1]|e']; congruence. Qed.

(** Case analysis of a turn whose equation is [H]. *)
Ltac turn_cases H :=
  unfold act, raised, lost in H;
  repeat match type of H with
  | context [match at_ ?x with _ => _ end] => destruct (at_ x) eqn:?
  | context [if ?b then _ else _] => destruct b eqn:?
  | context [match ?m with _ => _ end] => destruct m eqn:?
  end; simplify_eq/=.

Section Machine.
Context (consumers : gmap string consumer).
Context (payload_digest : identity → payload → string) (identity_check : identity → bool).
Notation step := (step payload_digest identity_check).
Notation wstep := (wstep consumers payload_digest identity_check).
Notation wreachable := (wreachable consumers payload_digest identity_check).

Lemma act_writes inp d x d' x' ms : act consumers inp d x = (d', x', ms) → writes d x d'.
Proof.
  intros H. turn_cases H;
    repeat match goal with
    | H : _renew_claim _ _ _ = Ok _ |- _ => apply renew_claim_Ok in H as [? H]
    | H : call _ _ = Ok _ |- _ => apply call_Ok in H
    end; eauto.
Qed.

Lemma beats_writes inp d x d' x' : beats inp d x = (d', x') → writes d x d'.
Proof.
  unfold beats. intros H. repeat case_match; simplify_eq/=; eauto.
  all: match goal with H : _renew_claim _ _ _ = Ok _ |- _ =>
         apply renew_claim_Ok in H as [? H]; eauto end.
Qed.

Lemma writes_step d x d' : writes d x d' → d' = d ∨ step d d'.
Proof. destruct 1; [by left|right..]; econstructor; eassumption. Qed.

(** One of the counters, at most, and the completions exactly with the outcome. *)
Definition delivered (x : delivery) : Z :=
  match at_ x with Finished Delivered => 1 | _ => 0 end.

Lemma act_delivered inp d x d' x' ms :
  act consumers inp d x = (d', x', ms) →
  Z.of_nat (length (List.filter is_completed ms)) = delivered x' - delivered x.
Proof. intros H. unfold delivered. turn_cases H; rewrite ?Heqp; lia || (by destruct o). Qed.

Lemma act_claim inp d x d' x' ms :
  act consumers inp d x = (d', x', ms) →
  claim x' = claim x ∧ worker x' = worker x ∧ lease_seconds x' = lease_seconds x.
Proof. intros H. by turn_cases H. Qed.

Lemma beats_cases inp d x d' x' :
  beats inp d x = (d', x') → x' = x ∨ (d' = d ∧ x' = beat_set Broken x ∧ beat x = Beating ∧ ∀ o, at_ x ≠ Finished o).
Proof. unfold beats. intros H. repeat case_match; simplify_eq/=; naive_solver. Qed.

(** ** Refinement *)

(** Every step of the world is one transaction of the outbox or none. *)
Lemma wstep_store w w' : wstep w w' → store w' = store w ∨ step (store w) (store w').
Proof.
  intros [proto r d' H|i reason actor now r d' H|owner now batch lease locked n w0 H
    |i x inp Hx|i x inp d' x' Hx Hb|i x Hx _|i x inp d' x' ms Hx _ Ha]; cbn.
  - right. by eapply step_emit.
  - right. by eapply step_replay.
  - unfold dispatch_outbox_once in H. apply bind_Ok in H as ([claimed d'] & Hc & [= _ <-]).
    right. by eapply step_claim.
  - unfold after_turn. destruct (act consumers inp (store w) x) as [[d' x'] ms] eqn:Ha.
    by eapply writes_step, act_writes.
  - by eapply writes_step, beats_writes.
  - by left.
  - by eapply writes_step, act_writes.
Qed.

Lemma wreachable_store w : wreachable w → Outbox.reachable payload_digest identity_check (store w).
Proof.
  intros Hw. unfold wreachable, Outbox.reachable, steps in *.
  remember empty_world as w0 eqn:E. replace empty_db with (store w0) by by subst.
  clear E. induction Hw as [w|w w1 w2 Hs _ IH]; [done|].
  destruct (wstep_store _ _ Hs) as [Heq|Hst]; [by rewrite <- Heq|]. by eapply rtc_l.
Qed.

(** ** The invariant of the world *)

Section Keyed.
Context (key_ok : identity → answer → Prop) `{!KeyedConsumers consumers key_ok}.

Lemma writes_receipts_ok d x d' :
  receipts_ok key_ok d → delivery_ok key_ok d x → writes d x d' → receipts_ok key_ok d'.
Proof.
  intros Hok [(e & He & Hi) Hk Hr _ _] [|t r d1 H|r t b d1 Hp H|t r d1 Hp H|t r d1 Hp H].
  - done.
  - by eapply renew_receipts_ok.
  - eapply record_receipts_ok; [done..| |exact H]. rewrite Hi. destruct r as [[? ?] ?]. apply Hk. by right.
  - eapply complete_receipts_ok; [done| |exact H]. apply Hr. by rewrite Hp.
  - by eapply fail_receipts_ok.
Qed.

(** After a turn the delivery again agrees with the tables. *)
Lemma act_delivery_ok inp d x d' x' ms :
  wf d → evolves d d' → delivery_ok key_ok d x →
  act consumers inp d x = (d', x', ms) → delivery_ok key_ok d' x'.
Proof.
  intros Hwf Hev Hx H. pose proof (delivery_ok_evolves _ _ _ _ Hev Hx) as Hx'.
  turn_cases H; try exact Hx'; destruct Hx' as [Hrow Hk Hr Hd Hb]; rewrite Heqp in *.
  all: split; cbn; try done; try (intros ? [?|?]; simplify_eq; by auto).
  - intros r0 [[= <-]|?]; [|done]. apply bind_Ok in Heqr0 as (v & Hv & Hval).
    by eapply consumer_key.
  - intros _. match goal with H : call _ _ = Ok _ |- _ => apply call_Ok in H;
      apply record_receipt_stored in H as (y & Hy & Hey & _); [by exists y|done] end.
  - intros _. match goal with H : call _ _ = Ok _ |- _ => apply call_Ok in H as Hm end.
    unfold mark_completed in Hm. inv_res. simplify_eq. destruct v0 as [e1 d1]. cbn in *.
    apply fenced_update_Ok in Hv0 as (e & He & _ & _ & Hu).
    apply update_row_Ok in Hu as [(Hn & _)|(e2 & _ & _ & _ & ->)]; [congruence|].
    eexists. cbn. by rewrite lookup_insert_eq.
Qed.

Lemma beats_delivery_ok inp d x d' x' :
  evolves d d' → delivery_ok key_ok d x → beats inp d x = (d', x') → delivery_ok key_ok d' x'.
Proof.
  intros Hev Hx H. pose proof (delivery_ok_evolves _ _ _ _ Hev Hx) as Hx'.
  apply beats_cases in H as [->|(-> & -> & Hb & Hp)]; [done|].
  destruct Hx' as [? ? ? ? Hs]. split; cbn; try done. intros Hpast%Hs. congruence.
Qed.

Record world_ok (w : world) : Prop := {
  wo_wf : wf (store w);
  wo_receipts : receipts_ok key_ok (store w);
  wo_delivery i x : deliveries w !! i = Some x → delivery_ok key_ok (store w) x;
  wo_once i j x y : deliveries w !! i = Some x → deliveries w !! j = Some y →
    at_ x = Finished Delivered → at_ y = Finished Delivered → eid x = eid y → i = j;
  wo_count : completed_total w = sumZ (delivered <$> deliveries w);
}.

(** One delivery moves, the tables evolve. *)
Lemma world_ok_moves w i x x' d' c f :
  world_ok w → deliveries w !! i = Some x → wf d' → evolves (store w) d' →
  receipts_ok key_ok d' → delivery_ok key_ok d' x' → eid x' = eid x →
  (at_ x' = Finished Delivered → at_ x = Finished Delivered ∨
     ∃ e, events (store w) !! eid x = Some e ∧ state e ≠ Completed) →
  c = completed_total w + delivered x' - delivered x →
  world_ok (World d' (<[i:=x']> (deliveries w)) c f).
Proof.
  intros [Hwf Hrc Hdl Honce Hcount] Hx Hwf' Hev Hrc' Hx' Heid Hnew Hc. split; cbn; try done.
  - intros j y Hy. apply list_lookup_insert_Some in Hy as [(<- & <- & _)|[_ Hy]]; [done|].
    by eapply delivery_ok_evolves, Hdl.
  - assert (Hother : ∀ j y, j ≠ i → deliveries w !! j = Some y → at_ x' = Finished Delivered →
              at_ y = Finished Delivered → eid x' = eid y → False).
    { intros j y Hne Hy Hp Hyp Hey. destruct (Hnew Hp) as [Hxp|(e & He & Hs)].
      - apply Hne. symmetry. apply (Honce i j x y); congruence.
      - destruct (do_done _ _ _ (Hdl j y Hy) Hyp) as (e' & He' & Hs'). congruence. }
    intros j k y z Hy Hz Hyp Hzp Heq.
    apply list_lookup_insert_Some in Hy as [(<- & <- & _)|[Hj Hy]];
      apply list_lookup_insert_Some in Hz as [(<- & <- & _)|[Hk Hz]]; [done|..|].
    + by destruct (Hother k z).
    + by destruct (Hother j y).
    + by eapply Honce.
  - rewrite (sumZ_insert _ _ _ x) by done. lia.
Qed.

Lemma world_ok_store w d' :
  world_ok w → wf d' → evolves (store w) d' → receipts_ok key_ok d' →
  world_ok (with_store d' w).
Proof.
  intros [? ? Hdl ? ?] ? ? ?. split; cbn; try done.
  intros i x Hx. by eapply delivery_ok_evolves, Hdl.
Qed.

Lemma writes_wf d x d' : wf d → writes d x d' → wf d' ∧ evolves d d'.
Proof.
  intros Hwf [->|Hs]%writes_step; [by split|].
  by apply (step_wf payload_digest identity_check).
Qed.

Lemma act_completes inp d x d' x' ms :
  act consumers inp d x = (d', x', ms) → at_ x' = Finished Delivered →
  at_ x = Finished Delivered ∨ ∃ e, events d !! eid x = Some e ∧ state e ≠ Completed.
Proof.
  intros H Hp. turn_cases H; try (left; congruence). right.
  match goal with H : call _ _ = Ok _ |- _ => apply call_Ok in H as Hm end.
  unfold mark_completed in Hm. inv_res. destruct v0 as [e1 d1].
  apply fenced_update_Ok in Hv0 as (e & He & Hh & _).
  apply holds_claim_inv in Hh as (Hs & _). exists e. split; congruence.
Qed.

Lemma claimed_rows owner now limit lease locked d claimed d' :
  wf d → claim_batch owner now limit lease locked d = Ok (claimed, d') →
  ∀ e, e ∈ claimed → events d' !! id (ident e) = Some e.
Proof.
  intros Hwf H. apply claim_batch_Ok in H as (t & d1 & _ & _ & _ & _ & Hwf1 & _ & H); [|done].
  cbn zeta in H. destruct H as (-> & Hlook & _).
  intros e (y & -> & Hy)%list_elem_of_fmap. cbn. rewrite Hlook, decide_True.
  - apply elem_of_candidates in Hy as (Hy & _); [|done]. by rewrite Hy.
  - apply list_elem_of_fmap. by exists y.
Qed.

Lemma dispatch_world_ok owner now batch lease locked w n w' :
  world_ok w → dispatch_outbox_once owner now batch lease locked w = Ok (n, w') → world_ok w'.
Proof.
  intros [Hwf Hrc Hdl Honce Hcount] H. unfold dispatch_outbox_once in H.
  apply bind_Ok in H as ([claimed d'] & Hc & [= _ <-]).
  destruct (claim_wf _ _ _ _ _ _ _ _ Hwf Hc) as [Hwf' Hev].
  pose proof (claimed_rows _ _ _ _ _ _ _ _ Hwf Hc) as Hrows.
  assert (Hnew : ∀ i x, (begin_delivery owner lease <$> claimed) !! i = Some x →
            at_ x = Starting ∧ delivery_ok key_ok d' x).
  { intros i x (e & -> & He)%list_lookup_fmap_Some. split; [done|].
    split; cbn; try done; [|by intros ? [?|?]].
    exists e. split; [|done]. by eapply Hrows, list_elem_of_lookup_2. }
  split; cbn; [done|by eapply claim_receipts_ok|..].
  - intros i x [Hx|[_ Hx]]%lookup_app_Some; [by eapply delivery_ok_evolves, Hdl|by eapply Hnew].
  - intros i j x y [Hx|[_ Hx]]%lookup_app_Some [Hy|[_ Hy]]%lookup_app_Some Hpx Hpy Heq.
    all: try (apply Hnew in Hx as [? _]; congruence); try (apply Hnew in Hy as [? _]; congruence).
    by eapply Honce.
  - rewrite fmap_app, sumZ_app, Hcount, <- list_fmap_compose.
    rewrite (sumZ_const 0). lia.
Qed.

Lemma step_world_ok w w' : wstep w w' → world_ok w → world_ok w'.
Proof.
  intros Hs Hw. pose proof Hw as [Hwf Hrc Hdl _ Hcount].
  destruct Hs as [proto r d' H|i reason actor now r d' H|owner now batch lease locked n w' H
      |i x inp Hx|i x inp d' x' Hx Hb|i x Hx Hp|i x inp d' x' ms Hx Hp Ha].
  - destruct (emit_wf _ _ _ _ _ _ Hwf H). apply world_ok_store; try done.
    by eapply emit_receipts_ok.
  - destruct (replay_wf _ _ _ _ _ _ _ Hwf H). apply world_ok_store; try done.
    by eapply replay_receipts_ok.
  - by eapply dispatch_world_ok.
  - unfold after_turn. destruct (act consumers inp (store w) x) as [[d' x'] ms] eqn:Ha.
    pose proof (act_writes _ _ _ _ _ _ Ha) as Hwr. destruct (writes_wf _ _ _ Hwf Hwr).
    cbn. eapply world_ok_moves; try done.
    + by eapply writes_receipts_ok; [|by eapply Hdl|].
    + by eapply act_delivery_ok; [| |by eapply Hdl|].
    + unfold eid. by destruct (act_claim _ _ _ _ _ _ Ha) as [-> _].
    + by eapply act_completes.
    + rewrite (act_delivered _ _ _ _ _ _ Ha). lia.
  - pose proof (beats_writes _ _ _ _ _ Hb) as Hwr. destruct (writes_wf _ _ _ Hwf Hwr).
    assert (x' = x ∨ x' = beat_set Broken x) as Hx'.
    { destruct (beats_cases _ _ _ _ _ Hb) as [->|(_ & -> & _)]; auto. }
    unfold with_store, with_delivery. cbn. eapply world_ok_moves; try done.
    + by eapply writes_receipts_ok; [|by eapply Hdl|].
    + by eapply beats_delivery_ok; [|by eapply Hdl|].
    + by destruct Hx' as [->| ->].
    + destruct Hx' as [->| ->]; auto.
    + assert (delivered x' = delivered x) by by destruct Hx' as [->| ->]. lia.
  - eapply world_ok_moves; try done.
    + by apply delivery_ok_moved; [eapply Hdl|..].
    + assert (delivered x = 0); [|cbn; lia]. unfold delivered. case_match; try done. by edestruct Hp.
  - pose proof (act_writes _ _ _ _ _ _ Ha) as Hwr. destruct (writes_wf _ _ _ Hwf Hwr).
    unfold with_store, with_delivery. cbn. eapply world_ok_moves; try done.
    + by eapply writes_receipts_ok; [|by eapply Hdl|].
    + apply delivery_ok_moved; try done. by eapply delivery_ok_evolves, Hdl.
    + assert (delivered x = 0); [|cbn; lia]. unfold delivered. case_match; try done. by edestruct Hp.
Qed.

Lemma reachable_world_ok w : wreachable w → world_ok w.
Proof.
  unfold wreachable. assert (Hempty : world_ok empty_world).
  { split; cbn; try done; [apply empty_wf|].
    split; cbn; [done..|]. intros r Hr. by apply elem_of_nil in Hr. }
  revert Hempty. generalize empty_world. intros w0 Hw0 Hr.
  induction Hr as [|w1 w2 w3 Hs _ IH]; [done|]. by eapply IH, step_world_ok.
Qed.
End Keyed.

(** ** Properties *)

(** Completions are counted once: a delivery that reports success finds its event
    completed, no two deliveries ever report the same event, the counter
    OUTBOX_COMPLETED is the number of deliveries that reported, and behind every
    completed event, whoever completed it, stands a consumer's receipt. *)
Theorem completed_exactly_once w :
  wreachable w →
  (∀ i x, deliveries w !! i = Some x → at_ x = Finished Delivered →
     ∃ e, events (store w) !! eid x = Some e ∧ state e = Completed) ∧
  (∀ i j x y, deliveries w !! i = Some x → deliveries w !! j = Some y →
     at_ x = Finished Delivered → at_ y = Finished Delivered → eid x = eid y → i = j) ∧
  completed_total w = sumZ (delivered <$> deliveries w) ∧
  (∀ i e, events (store w) !! i = Some e → state e = Completed →
     has_receipt (receipts (store w)) i).
Proof.
  intros [_ Hrc Hdl Honce Hcount]%(reachable_world_ok (λ _ _, True)). split_and!; try done.
  - intros i x Hx. by apply (do_done _ _ _ (Hdl i x Hx)).
  - by apply (ro_completed _ _ Hrc).
Qed.

Lemma act_broken inp d x d' x' ms :
  act consumers inp d x = (d', x', ms) → beat x = Broken → beat x' = Broken.
Proof. intros H Hb. turn_cases H; try done. by rewrite Hb in *. Qed.

(** A delivery keeps its place, its claim and a broken heartbeat. *)
Lemma step_delivery w w' i x :
  wstep w w' → deliveries w !! i = Some x →
  ∃ x', deliveries w' !! i = Some x' ∧ claim x' = claim x ∧
        (beat x = Broken → beat x' = Broken).
Proof.
  assert (Hset : ∀ j y y', deliveries w !! j = Some y → claim y' = claim y →
            (beat y = Broken → beat y' = Broken) → deliveries w !! i = Some x →
            ∃ x', <[j:=y']> (deliveries w) !! i = Some x' ∧ claim x' = claim x ∧
                  (beat x = Broken → beat x' = Broken)).
  { intros j y y' Hy Hc Hb Hx. destruct (decide (i = j)) as [->|Hne].
    - exists y'. rewrite list_lookup_insert_eq by by eapply lookup_lt_Some. by simplify_eq.
    - exists x. by rewrite list_lookup_insert_ne by done. }
  intros Hs Hx.
  destruct Hs as [proto r d' H|j reason actor now r d' H|owner now batch lease locked n w' H
      |j y inp Hy|j y inp d' y' Hy Hb|j y Hy Hp|j y inp d' y' ms Hy Hp Ha];
    try (by exists x).
  - unfold dispatch_outbox_once in H. apply bind_Ok in H as ([claimed d'] & _ & [= _ <-]).
    exists x. cbn. by rewrite lookup_app, Hx.
  - unfold after_turn. destruct (act consumers inp (store w) y) as [[d' y'] ms] eqn:Ha.
    cbn. eapply Hset; [done| |by eapply act_broken|done]. by eapply act_claim.
  - eapply Hset; try done; destruct (beats_cases _ _ _ _ _ Hb) as [->|(_ & -> & _)]; done.
  - by eapply Hset.
  - by eapply Hset.
Qed.

(** A lost lease silences a delivery: once a renewal of its heartbeat was refused,
    the delivery never reaches the point where it completes the event or records
    its failure, whatever else happens; it leaves the event to the next claim. *)
Theorem broken_heartbeat_is_silent w w' i x :
  wreachable w → rtc wstep w w' → deliveries w !! i = Some x → beat x = Broken →
  ∃ x', deliveries w' !! i = Some x' ∧ claim x' = claim x ∧
    (∀ g, at_ x' ≠ Finishing g) ∧ at_ x' ≠ Finished Delivered ∧
    (∀ s, at_ x' ≠ Finished (FailureRecorded s)).
Proof.
  intros Hw Hrun Hx Hb.
  assert (Hw' : wreachable w') by (unfold wreachable in *; by etrans).
  assert (∃ x', deliveries w' !! i = Some x' ∧ claim x' = claim x ∧ beat x' = Broken)
    as (x' & Hx' & Hc & Hb').
  { clear Hw Hw'. induction Hrun as [w|w w1 w2 Hs _ IH] in x, Hx, Hb |- *; [by exists x|].
    destruct (step_delivery _ _ _ _ Hs Hx) as (y & Hy & <- & Hby). by apply IH; [|apply Hby]. }
  exists x'. split_and!; try done;
    pose proof (do_beat _ _ _ (wo_delivery _ _ (reachable_world_ok (λ _ _, True) _ Hw') _ _ Hx')) as H;
    intros *; intros Hp; rewrite Hp in H; specialize (H eq_refl); congruence.
Qed.

(** *** Termination *)

Definition rank (p : phase) : nat :=
  match p with
  | Starting => 10 | Consuming => 9 | Renewing _ => 8 | Recording _ => 7
  | Confirming ToComplete => 6 | Stopping ToComplete => 5 | Finishing ToComplete => 4
  | Confirming ToFail => 3 | Stopping ToFail => 2 | Finishing ToFail => 1
  | Finished _ => 0
  end.

(** The counters a delivery has incremented when it stands at [p]. *)
Definition emitted (p : phase) : list metric :=
  match p with
  | Confirming ToFail | Stopping ToFail | Finishing ToFail => [OUTBOX_FAILED]
  | Finished Delivered => [OUTBOX_COMPLETED]
  | Finished _ => [OUTBOX_FAILED]
  | _ => []
  end.

Lemma act_rank inp d x d' x' ms :
  act consumers inp d x = (d', x', ms) →
  (rank (at_ x') <= pred (rank (at_ x)))%nat ∧ emitted (at_ x) ++ ms = emitted (at_ x').
Proof.
  intros H. turn_cases H; cbn; split; try done; try lia.
  all: try match goal with g : goal |- _ => destruct g end; cbn; try done; try lia.
  all: repeat match goal with H : at_ _ = _ |- _ => rewrite H; clear H end; cbn; try done; try lia.
  all: by rewrite app_nil_r.
Qed.

(** The turns of one delivery, the tables and the state of the heartbeat being
    arbitrary before each of them: whatever the other tasks do in between. *)
Fixpoint turns (l : list (input * db * heartbeat)) (x : delivery) : delivery * list metric :=
  match l with
  | [] => (x, [])
  | (inp, d, b) :: l' =>
      let '(_, x1, ms) := act consumers inp d (beat_set b x) in
      let '(x2, ms') := turns l' x1 in
      (x2, ms ++ ms')
  end.

Lemma turns_rank l x :
  (rank (at_ (turns l x).1) <= rank (at_ x) - length l)%nat ∧
  emitted (at_ x) ++ (turns l x).2 = emitted (at_ (turns l x).1).
Proof.
  revert x. induction l as [|[[inp d] b] l IH]; intros x; cbn; [by rewrite app_nil_r; split; [lia|]|].
  destruct (act consumers inp d (beat_set b x)) as [[d1 x1] ms] eqn:Ha.
  apply act_rank in Ha as [Hr He]. cbn in Hr, He.
  destruct (IH x1) as [Hr1 He1]. destruct (turns l x1) as [x2 ms2]; cbn in *. split; [lia|].
  by rewrite app_assoc, He.
Qed.

(** Every delivery that is not cancelled ends: ten turns suffice, whatever the tables,
    the clock, the consumer, the database's availability and the heartbeat do
    between them, and it then has incremented exactly one counter once:
    OUTBOX_COMPLETED if it delivered, OUTBOX_FAILED otherwise. *)
Theorem delivery_ends l e owner lease :
  (10 <= length l)%nat →
  let '(x, ms) := turns l (begin_delivery owner lease e) in
  ∃ o, at_ x = Finished o ∧
       ms = match o with Delivered => [OUTBOX_COMPLETED] | _ => [OUTBOX_FAILED] end.
Proof.
  intros Hl. destruct (turns_rank l (begin_delivery owner lease e)) as [Hr He].
  destruct (turns l _) as [x ms]; cbn in *.
  assert (rank (at_ x) = 0)%nat as Hz by lia.
  destruct (at_ x) as [| | | |[]|[]|[]|o]; try done. exists o. split; [done|].
  rewrite He. by destruct o.
Qed.
End Machine.

End OutboxWorkerSpec.
