(* ===== verification/OutboxConsumersSpec.v ===== *)
(** What the consumers promise: a sales event is projected by one job, every
    receipt carries the key of its event, and the keys that the receipts table
    refuses can never be delivered. *)

From Stdlib Require QArith_base.
From stdpp Require Import pretty.
From S2P Require Import Prelude Text Outbox OutboxInv OutboxSpec Dict OutboxConsumers OutboxWorker OutboxWorkerInv OutboxWorkerSpec.
Import Outbox OutboxConsumers OutboxWorker OutboxWorkerInv OutboxWorkerSpec.

Local Open Scope Z_scope.

Module OutboxConsumersSpec.

Section Consumers.
Context (sha256_hex : string → string) (iso : Z → string).
Notation consume := (consume sha256_hex iso).
Notation registry := (_production_consumers sha256_hex iso).

(** ** Dictionaries with literal keys *)

Ltac fields := unfold get; dget_fields; cbn [default from_option Datatypes.id].

(** ** Coroutines *)

Lemma co_bind_Ok {S A B} (m : co S A) (k : A → co S B) s b s' :
  co_bind m k s = (Ok b, s') ↔ ∃ a s1, m s = (Ok a, s1) ∧ k a s1 = (Ok b, s').
Proof. unfold co_bind. destruct (m s) as [[a|e] s1]; naive_solver. Qed.

Lemma validated_dict c k h : _validated_receipt (receipt_dict c k h) = Ok (c, k, h).
Proof.
  unfold _validated_receipt, receipt_dict. cbn. rewrite bool_decide_eq_true_2; [done|set_solver].
Qed.

(** ** Keys *)

(** The generation key of the production consumer of an event. *)
Definition production_key (i : identity) : string :=
  if bool_decide (event_type i = SALES_EVENT_TYPE)
  then grile_key (generation_hash i) (revision i)
  else default EmptyString (dget (event_type i) _EVENT_CONSUMERS)
         +:+ ":" +:+ generation_hash i +:+ ":" +:+ pretty (revision i).

Lemma equals_str v s : equals v (PStr s) = true → v = PStr s.
Proof.
  destruct v; cbn; try done. intros H%bool_decide_eq_true. by subst.
Qed.

Lemma effect_receipt_key entries g r v :
  _validated_effect_receipt entries g r = Ok v →
  ∃ h, v = receipt_dict "grile_v2" (grile_key g r) h ∧ sha256_re h = true.
Proof.
  unfold _validated_effect_receipt. intros H. inv_res. apply negb_false_iff, equals_str in Hv.
  destruct (get "effect_sha256" entries) as [| | | |h| |]; try done.
  destruct (sha256_re h) eqn:Hh; [|done]. injection H as <-. exists h. by rewrite Hv.
Qed.

Lemma grile_result_key result g r cr kr v :
  _receipt_from_grile_result result g r cr kr = Ok v →
  ∃ h, v = receipt_dict "grile_v2" (grile_key g r) h ∧ sha256_re h = true.
Proof.
  unfold _receipt_from_grile_result. destruct result; try done.
  destruct (equals _ _); intros H; inv_res; by eapply effect_receipt_key.
Qed.

(** Whatever the publishers do, the receipt is that of the event. *)
Lemma sales_receipt_key {S} (pc pk : string → string → Z → co S pyval)
    (sync : string → string → Z → Z → Z → co S pyval) ev payload s v s' :
  deliver_sales_generation_event sha256_hex pc pk sync ev payload s = (Ok v, s') →
  ∃ h, v = receipt_dict "grile_v2" (grile_key (generation_hash ev) (revision ev)) h.
Proof.
  unfold deliver_sales_generation_event. intros H.
  do 6 (let E := fresh in apply co_bind_Ok in H as (? & ? & E & H); unfold co_lift in E; injection E as ? <-).
  repeat match goal with H : raise_if _ _ = Ok _ |- _ => apply raise_if_Ok, negb_false_iff in H end.
  bool_prop. subst.
  destruct (co_bind _ _ _) as [[[campaign contest]|[]] s1] in H; simplify_eq/=.
  - do 3 (let E := fresh in apply co_bind_Ok in H as (? & ? & E & H)). unfold co_lift in H. simplify_eq.
    apply grile_result_key in H as (h & -> & _). by exists h.
  - by eexists.
Qed.

Lemma registry_lookup ty c :
  registry !! ty = Some c →
  (ty = SALES_EVENT_TYPE ∧ c = (λ jobs ev, (consume jobs ev (Publications ∅ [])).1)) ∨
  (ty ≠ SALES_EVENT_TYPE ∧ ∃ name, dget ty _EVENT_CONSUMERS = Some name ∧
     c = (λ _ ev, Ok (_receipt_only_consumer sha256_hex name ev))).
Proof.
  unfold _production_consumers. intros [[<- <-]|[Hne H]]%lookup_insert_Some; [by left|].
  right. split; [done|]. apply elem_of_list_to_map_2 in H.
  apply list_elem_of_fmap in H as ([ty' name] & [= -> ->] & Hin). exists name. split; [|done].
  repeat (apply elem_of_cons in Hin as [[= -> ->]|Hin]; [reflexivity|]).
  by apply elem_of_nil in Hin.
Qed.

#[global] Instance production_keyed :
  KeyedConsumers registry (λ ev r, r.1.2 = production_key ev).
Proof.
  intros ev c jobs v r [[Hty ->]|(Hty & name & Hn & ->)]%registry_lookup Hv Hr;
    unfold production_key.
  - rewrite bool_decide_eq_true_2 by done. unfold OutboxConsumers.consume in Hv.
    destruct (deliver_sales_generation_event _ _ _ _ _ _ _) as [m s'] eqn:Hd; cbn in Hv; subst m.
    apply sales_receipt_key in Hd as (h & ->). rewrite validated_dict in Hr. by simplify_eq.
  - rewrite bool_decide_eq_false_2 by done. simplify_eq. rewrite Hn.
    unfold _receipt_only_consumer in Hr. rewrite validated_dict in Hr. by simplify_eq.
Qed.

(** ** A key the table refuses *)

Section Machine.
Context (payload_digest : identity → payload → string) (identity_check : identity → bool).
Notation wreachable := (wreachable registry payload_digest identity_check).

(** A poisoned generation blocks its aggregate forever.  The receipts table
    refuses generation keys with a run of exactly 13 digits, the shape of a personal
    code, and the production consumers put the generation's hash into the key: an
    event whose hash has such a run is accepted by the producer, but in no
    reachable world, with any number of attempts and replays, is it completed, and
    no later event of its aggregate is ever claimed. *)
Theorem poisoned_generation_blocks w i e :
  wreachable w → events (store w) !! i = Some e →
  has_personal_code (production_key (ident e)) = true →
  state e ≠ Completed ∧
  (∀ r, r ∈ receipts (store w) → r_event r ≠ i) ∧
  (∀ j c, events (store w) !! j = Some c → precedes e c = true → claim_epoch c <= 0).
Proof.
  intros Hw He Hcode.
  pose proof (reachable_world_ok _ _ _ (λ ev r, r.1.2 = production_key ev) _ Hw) as [Hwf Hrc _ _ _].
  assert (Hnone : ∀ r, r ∈ receipts (store w) → r_event r ≠ i).
  { intros r Hr <-. destruct (ro_key _ _ Hrc r Hr) as (e' & He' & Hk & Hc).
    assert (e' = e) as -> by congruence. unfold generation_key_check in Hc.
    cbn in Hk. rewrite Hk, Hcode in Hc. by rewrite andb_false_r in Hc. }
  assert (Hs : state e ≠ Completed).
  { intros Hs. destruct (ro_completed _ _ Hrc i e He Hs) as (r & Hr & Hi). by apply (Hnone r). }
  split_and!; [done..|]. intros j c Hj Hpre. apply Z.le_ngt. intros Hpos. apply Hs.
  by apply (rw_fifo _ _ _ (wf_row _ Hwf j c Hj) Hpos i).
Qed.
End Machine.

(** ** The sales projection *)

(** What a job must answer for the event to be projected, and its revisions. *)
Definition published (result : pyval) (campaign contest : Z) : Prop :=
  ∃ entries, result = PDict entries ∧ equals (get "status" entries) (PStr "superseded") = false ∧
    mapping_get "revision" (get "promotion" entries) = PInt campaign ∧ 1 <= campaign ∧
    mapping_get "revision" (get "contest" entries) = PInt contest ∧ 1 <= contest.

Definition superseded (result : pyval) (generation : string) (rev : Z) : Prop :=
  ∃ entries, result = PDict entries ∧ get "status" entries = PStr "superseded" ∧
    get "sales_generation_hash" entries = PStr generation ∧
    get "sales_generation_revision" entries = PInt rev ∧
    get "promotion" entries = PNone ∧ get "contest" entries = PNone ∧
    get "grile_v2_job_id" entries = PNone.

(** A sales event as the producer's columns admit it. *)
Record sales_event (ev : identity) : Prop := {
  se_type : event_type ev = SALES_EVENT_TYPE;
  se_month : _MONTH_RE (p_month (body ev)) = true;
  se_hash : sha256_re (generation_hash ev) = true;
  se_revision : 1 <= revision ev;
}.

Lemma payload_month ev : get "month" (payload_of iso ev) = PStr (p_month (body ev)).
Proof. unfold get, payload_of. by destruct (p_cutoff (body ev)). Qed.
Lemma payload_hash ev : get "generation_hash" (payload_of iso ev) = PStr (generation_hash ev).
Proof. done. Qed.
Lemma payload_revision ev : get "revision" (payload_of iso ev) = PInt (revision ev).
Proof. unfold get, payload_of. by destruct (p_cutoff (body ev)). Qed.

Lemma equals_int z : equals (PInt z) (PInt z) = true.
Proof. cbn. by apply QArith_base.Qeq_bool_iff. Qed.

Lemma equals_same s : equals (PStr s) (PStr s) = true.
Proof. cbn. by apply bool_decide_eq_true. Qed.

Lemma retired_receipt month g r cr kr :
  (∀ s, sha256_re (sha256_hex s) = true) →
  ∃ h, _receipt_from_grile_result (_retired_grile_v2_effect sha256_hex month g r cr kr) g r cr kr
         = Ok (receipt_dict "grile_v2" (grile_key g r) h) ∧ sha256_re h = true.
Proof.
  intros Hsha. unfold _receipt_from_grile_result, _retired_grile_v2_effect, differs.
  cbn [existsb fst snd]. fields. rewrite !equals_int, !equals_same. cbn [negb orb raise_if mbind res_bind].
  unfold _validated_effect_receipt. fields. rewrite equals_same.
  cbn [equals]. rewrite bool_decide_eq_false_2 by done. cbn [negb raise_if mbind res_bind].
  assert (Hd : ∀ l, sha256_re (_canonical_sha256 sha256_hex l) = true) by (intros l; apply Hsha).
  rewrite Hd. by eexists.
Qed.

Lemma revision_Err v n e : _revision v n = Err e → ∃ msg, e = RuntimeError msg.
Proof. unfold _revision. repeat case_match; intros; simplify_eq; by eexists. Qed.

Lemma revision_again v n n' z : _revision v n = Ok z → _revision (revision_dict z) n' = Ok z.
Proof.
  unfold _revision. destruct (mapping_get _ v) as [| |z'| | | |]; try done.
  destruct (z' <? 1) eqn:E; [done|]. intros [= <-]. unfold revision_dict, mapping_get. fields.
  by rewrite E.
Qed.

(** One consumption with an empty cache, up to the two publications. *)
Lemma consume_sales jobs ev :
  sales_event ev →
  let g := generation_hash ev in let m := p_month (body ev) in let rev := revision ev in
  let once := Publications ∅ [(m, g, rev)] in
  consume jobs ev (Publications ∅ []) =
    match jobs 0%nat (m, g, rev) with
    | Err SalesGenerationSuperseded => (Ok (_superseded_receipt sha256_hex m g rev), once)
    | Err e => (Err e, once)
    | Ok result =>
        match _require_publication_result result g rev with
        | Err SalesGenerationSuperseded => (Ok (_superseded_receipt sha256_hex m g rev), once)
        | Err e => (Err e, once)
        | Ok entries =>
            ((cr ← _revision (get "promotion" entries) "campaign";
              kr ← _revision (get "contest" entries) "contest";
              _receipt_from_grile_result (_retired_grile_v2_effect sha256_hex m g rev cr kr)
                g rev cr kr), once)
        end
    end.
Proof.
  intros [Hty Hm Hh Hrev] g m rev once. unfold OutboxConsumers.consume, deliver_sales_generation_event.
  rewrite payload_month, payload_hash, payload_revision, Hm, Hh, (proj2 (Z.ltb_ge _ _) Hrev).
  rewrite bool_decide_eq_true_2 by done. unfold co_bind at 1 2 3 4 5 6, co_lift at 1 2 3 4 5 6.
  cbn [negb raise_if]. rewrite bool_decide_eq_true_2, Z.eqb_refl by done. cbn [negb raise_if].
  unfold publish_campaigns, publish_contests, sync_grile_v2, co_bind, co_lift, publication.
  cbn [publication_tasks enqueued length app]. rewrite lookup_empty. fold g m rev.
  assert (Hkey : _cache_key (payload_of iso ev) = Some (m, g, rev))
    by (unfold _cache_key; by rewrite payload_month, payload_hash, payload_revision).
  assert (Hforget : ∀ t, forget (Some (m, g, rev))
            (Publications (delete (m, g, rev) (<[(m, g, rev):=t]> ∅)) [(m, g, rev)]) = once)
    by (intros t; unfold forget; cbn; by rewrite !delete_insert_eq, !delete_empty).
  assert (Hforget' : ∀ t, forget (Some (m, g, rev))
            (Publications (<[(m, g, rev):=t]> ∅) [(m, g, rev)]) = once)
    by (intros t; unfold forget; cbn; by rewrite delete_insert_eq, delete_empty).
  rewrite Hkey. destruct (jobs 0%nat (m, g, rev)) as [result|e] eqn:Hj; cbn [fst snd].
  2:{ destruct e; cbn [publication_tasks enqueued]; by rewrite Hforget. }
  destruct (_require_publication_result result g rev) as [entries|e] eqn:Hr.
  2:{ destruct e; by rewrite Hforget'. }
  destruct (_revision (get "promotion" entries) "campaign") as [cr|e] eqn:Hc.
  2:{ apply revision_Err in Hc as [msg ->]. cbn -[forget]. by rewrite Hforget'. }
  cbn [publication_tasks]. rewrite lookup_insert_eq, Hr. cbn [mbind res_bind].
  destruct (_revision (get "contest" entries) "contest") as [kr|e] eqn:Hk.
  2:{ apply revision_Err in Hk as [msg ->]. cbn -[forget]. by rewrite Hforget'. }
  rewrite (revision_again _ _ _ _ Hc), (revision_again _ _ _ _ Hk). by rewrite Hforget'.
Qed.

(** A sales event is projected exactly once per attempt: its consumption enqueues one
    job, shared by the campaign and the contest publication, and leaves no task
    behind.  A published result yields the receipt of the event's generation with
    a digest the repository accepts; a superseded one the superseded receipt of the
    same generation; a failed job is raised, so that a later attempt enqueues a
    fresh one. *)
Theorem sales_event_projected jobs ev :
  sales_event ev → (∀ s, sha256_re (sha256_hex s) = true) →
  let key := (p_month (body ev), generation_hash ev, revision ev) in
  let once := Publications ∅ [key] in
  match jobs 0%nat key with
  | Ok result =>
      (∀ c k, published result c k → ∃ h,
         consume jobs ev (Publications ∅ [])
           = (Ok (receipt_dict "grile_v2" (production_key ev) h), once) ∧
         sha256_re h = true) ∧
      (superseded result (generation_hash ev) (revision ev) → ∃ h,
         consume jobs ev (Publications ∅ [])
           = (Ok (receipt_dict "grile_v2" (production_key ev) h), once) ∧
         sha256_re h = true)
  | Err SalesGenerationSuperseded =>
      consume jobs ev (Publications ∅ [])
        = (Ok (_superseded_receipt sha256_hex key.1.1 key.1.2 key.2), once)
  | Err e => consume jobs ev (Publications ∅ []) = (Err e, once)
  end.
Proof.
  intros Hev Hsha key once. pose proof (consume_sales jobs ev Hev) as Hc. cbn zeta in Hc.
  fold key in Hc. fold once in Hc. rewrite Hc. clear Hc.
  assert (Hkey : production_key ev = grile_key (generation_hash ev) (revision ev))
    by (unfold production_key; by rewrite bool_decide_eq_true_2 by apply Hev).
  destruct (jobs 0%nat key) as [result|[]]; try done. split.
  - intros c k (entries & -> & Hs & Hc & Hc1 & Hk & Hk1). unfold _require_publication_result.
    rewrite Hs. cbn [negb]. unfold _revision. rewrite Hc, Hk, !(proj2 (Z.ltb_ge _ _)) by done.
    cbn [mbind res_bind].
    destruct (retired_receipt (p_month (body ev)) (generation_hash ev) (revision ev) c k Hsha)
      as (h & -> & Hh). exists h. by rewrite Hkey.
  - intros (entries & -> & Hs & Hg & Hr & Hp & Hk & Hj). unfold _require_publication_result, differs.
    cbn [existsb fst snd]. rewrite Hs, Hg, Hr, Hp, Hk, Hj, !equals_same, equals_int.
    cbn [negb orb equals]. eexists. split; [|by apply Hsha].
    unfold _superseded_receipt, _superseded_effect. fields. by rewrite Hkey.
Qed.
End Consumers.
End OutboxConsumersSpec.
