(* ===== verification/OutboxDelivery.v ===== *)
(** One delivery that nobody disturbs, from the claim to the completed event, and
    concrete runs of the dispatcher. *)

From S2P Require Import Prelude Text Outbox OutboxInv OutboxSpec OutboxConsumers OutboxWorker OutboxWorkerInv OutboxWorkerSpec OutboxConsumersSpec.
Import Outbox OutboxConsumers OutboxWorker OutboxWorkerInv OutboxWorkerSpec OutboxConsumersSpec.

Local Open Scope Z_scope.

Module OutboxDelivery.

(** ** Calls of the holder of a claim *)

(** No call of a worker depends on the producer's digest and checks. *)
Lemma worker_step_wf d d' :
  step (λ _ _, EmptyString) (λ _, true) d d' → wf d → wf d'.
Proof. intros Hs Hwf. by eapply step_wf. Qed.

(** The tables with one row replaced. *)
Definition put (i : Z) (e : OutboxEvent) (d : db) : db :=
  Db (<[i := e]> (events d)) (receipts d) (audits d).

Definition no_conflict (i : Z) (consumer key : string) (d : db) : Prop :=
  ∀ r, r ∈ receipts d →
    same_event_receipt i consumer r = false ∧ same_generation_receipt consumer key r = false.

Lemma holds_claim_intro owner epoch t e u :
  state e = Processing → claim_owner e = Some owner → claim_epoch e = epoch →
  lease_until e = Some u → t < u → holds_claim owner epoch t e = true.
Proof.
  intros Hs Ho He Hu Ht. unfold holds_claim. rewrite Hs, Ho, He, Hu, !bool_decide_eq_true_2, Z.eqb_refl by done.
  by apply Z.ltb_lt.
Qed.

Lemma renew_run d i e owner t lease :
  wf d → events d !! i = Some e → holds_claim owner (claim_epoch e) t e = true →
  updated_at e <= t → 1 <= lease <= 3600 →
  renew_lease i owner (claim_epoch e) (Aware t) lease d = Ok (true, put i (renew_set t lease e) d) ∧
  wf (put i (renew_set t lease e) d).
Proof.
  intros Hwf He Hh Ht [Hl1 Hl2]. pose proof (wf_row _ Hwf _ _ He) as Hrow.
  destruct (holds_claim_inv _ _ _ _ Hh) as (Hs & Ho & _).
  destruct (renew_set_ok (audits d) t lease _ _ _ Hrow Hs Ht) as [Hg Hc].
  assert (Hown : owner_re owner = true)
    by (by apply (ck_owner _ (row_check_elim _ (rw_check _ _ _ Hrow)))).
  assert (Hr : renew_lease i owner (claim_epoch e) (Aware t) lease d
                 = Ok (true, put i (renew_set t lease e) d)).
  { unfold renew_lease. rewrite Hown. cbn [negb raise_if mbind res_bind require_aware].
    rewrite (proj2 (Z.leb_le _ _) Hl1), (proj2 (Z.leb_le _ _) Hl2). cbn [negb andb raise_if].
    by rewrite (fenced_update_run _ _ _ _ _ _ e). }
  split; [done|]. eapply worker_step_wf; [by eapply step_renew|done].
Qed.

Lemma complete_run d i e owner t :
  wf d → events d !! i = Some e → holds_claim owner (claim_epoch e) t e = true →
  updated_at e <= t →
  mark_completed i owner (claim_epoch e) (Aware t) d = Ok (true, put i (complete_set t e) d).
Proof.
  intros Hwf He Hh Ht. pose proof (wf_row _ Hwf _ _ He) as Hrow.
  destruct (holds_claim_inv _ _ _ _ Hh) as (Hs & _).
  destruct (ends_attempt_ok (audits d) t _ _ _ (complete_set t e) Hrow Hs Ht) as [Hg Hc];
    [by eapply complete_set_ends|].
  unfold mark_completed. cbn [require_aware mbind res_bind].
  by rewrite (fenced_update_run _ _ _ _ _ _ e).
Qed.

Lemma record_run d i e owner t consumer key effect :
  wf d → events d !! i = Some e → holds_claim owner (claim_epoch e) t e = true →
  consumer_re consumer = true → generation_key_check key = true → sha256_re effect = true →
  no_conflict i consumer key d →
  let d' := Db (events d) (receipts d ++ [Receipt i consumer key effect t]) (audits d) in
  record_receipt i owner (claim_epoch e) consumer key effect (Aware t) d = Ok (true, d') ∧ wf d'.
Proof.
  intros Hwf He Hh Hc Hk Hx Hfree d'.
  assert (Hr : record_receipt i owner (claim_epoch e) consumer key effect (Aware t) d = Ok (true, d')).
  { unfold record_receipt. rewrite Hc.
    assert (generation_key_re key = true) as -> by (unfold generation_key_check in Hk; by split_bools).
    rewrite Hx. cbn [negb raise_if mbind res_bind require_aware]. rewrite He, Hh.
    cbn [negb raise_if]. unfold insert_receipt. cbn [r_generation_key r_event r_consumer].
    rewrite Hk. cbn [negb raise_if mbind res_bind].
    assert (existsb (same_event_receipt i consumer) (receipts d) = false) as ->.
    { apply find_none_receipt, Forall_forall. intros r Hr. by apply Hfree. }
    assert (existsb (same_generation_receipt consumer key) (receipts d) = false) as ->.
    { apply find_none_receipt, Forall_forall. intros r Hr. by apply Hfree. }
    done. }
  split; [done|]. eapply worker_step_wf; [by eapply step_receipt|done].
Qed.

(** ** The whole delivery *)

Section Delivery.
Context (consumers : gmap string consumer).

Definition online (jobs : job_results) (t : Z) : input := Input t true jobs.

Lemma renew_claim_run inp d x i e :
  eid x = i → epoch x = claim_epoch e → reachable_db inp = true → wf d →
  events d !! i = Some e →
  holds_claim (worker x) (claim_epoch e) (utc_now inp) e = true → updated_at e <= utc_now inp →
  1 <= lease_seconds x <= 3600 →
  let e' := renew_set (utc_now inp) (lease_seconds x) e in
  _renew_claim inp d x = Ok (put i e' d) ∧ wf (put i e' d) ∧ events (put i e' d) !! i = Some e'.
Proof.
  intros <- Hep Hon Hwf He Hh Ht Hl e'. unfold _renew_claim, call. rewrite Hon, Hep.
  destruct (renew_run d (eid x) e (worker x) (utc_now inp) (lease_seconds x)) as [-> Hwf']; try done.
  split_and!; [done..|]. cbn. apply lookup_insert_eq.
Qed.

Lemma run_quiet inp inps d x d' x' :
  act consumers inp d x = (d', x', []) →
  run_alone consumers (inp :: inps) d x = run_alone consumers inps d' x'.
Proof. intros H. cbn. rewrite H. by destruct (run_alone consumers inps d' x') as [[? ?] ?]. Qed.

(** An undisturbed delivery succeeds: a worker that holds the claim of an event, whose
    consumer answers with a well-formed receipt that nobody recorded before, and
    whose calls reach the database before the lease of the moment ends, completes
    the event in seven turns, stores exactly that receipt and touches nothing else. *)
Theorem undisturbed_delivery d i e owner lease jobs (consume : consumer) v name key effect a b t1 t2 t3 s t4 :
  wf d → events d !! i = Some e → id (ident e) = i →
  holds_claim owner (claim_epoch e) t1 e = true → 1 <= lease <= 3600 →
  updated_at e <= t1 → t1 <= t2 → t2 <= t3 → t3 <= t4 →
  t3 < t1 + lease * second → t4 < t3 + lease * second →
  consumers !! event_type (ident e) = Some consume →
  consume jobs (ident e) = Ok v → _validated_receipt v = Ok (name, key, effect) →
  consumer_re name = true → generation_key_check key = true → sha256_re effect = true →
  no_conflict i name key d →
  let e' := complete_set t4 (renew_set t3 lease (renew_set t1 lease e)) in
  run_alone consumers (online jobs <$> [a; b; t1; t2; t3; s; t4]) d (begin_delivery owner lease e)
    = (Db (<[i := e']> (events d)) (receipts d ++ [Receipt i name key effect t2]) (audits d),
       Delivery e owner lease (Finished Delivered) Stopped, [OUTBOX_COMPLETED]).
Proof.
  intros Hwf He Hid Hh Hl Ht1 Ht2 Ht3 Ht4 Hl1 Hl3 Hc Hv Hr Hcr Hk Hx Hfree e'.
  destruct (holds_claim_inv _ _ _ _ Hh) as (Hs & Ho & _).
  set (e1 := renew_set t1 lease e). set (d1 := put i e1 d).
  set (r := Receipt i name key effect t2).
  set (d2 := Db (events d1) (receipts d1 ++ [r]) (audits d1)).
  set (e3 := renew_set t3 lease e1).
  assert (Hh2 : ∀ t, t < t1 + lease * second → holds_claim owner (claim_epoch e1) t e1 = true)
    by (intros t Hlt; by eapply holds_claim_intro).
  assert (Hh4 : holds_claim owner (claim_epoch e3) t4 e3 = true) by by eapply holds_claim_intro.
  set (x := begin_delivery owner lease e).
  odestruct (renew_claim_run (online jobs t1) d (moved (Renewing (name, key, effect)) x) i e)
    as (R1 & W1 & L1); [done..|]. cbn in R1, W1, L1. fold e1 in R1, W1, L1. fold d1 in R1, W1, L1.
  odestruct (record_run d1 i e1 owner t2 name key effect) as [R2 W2]; [done..| |done|done|done|done|].
  { apply Hh2. lia. }
  fold r in R2, W2. fold d2 in R2, W2.
  odestruct (renew_claim_run (online jobs t3) d2 (moved (Confirming ToComplete) x) i e1)
    as (R3 & W3 & L3); [done..|by apply Hh2|cbn; lia|done|].
  cbn in R3, W3, L3. fold e3 in R3, W3, L3.
  pose proof (complete_run _ i e3 owner t4 W3 L3 Hh4 Ht4) as R4.
  pose proof (Hc : @lookup string (job_results → identity → res exn pyval) _ _
                     (event_type (ident e)) consumers = Some consume) as Hc'.
  cbn [fmap list_fmap]. set (k := (name, key, effect)) in *.
  rewrite (run_quiet _ _ d x d (moved Consuming x)) by (unfold act, x; cbn [at_ begin_delivery claim moved beat OutboxWorker.jobs online]; by rewrite Hc).
  rewrite (run_quiet _ _ d _ d (moved (Renewing k) x))
    by (unfold act, x; cbn [at_ begin_delivery claim moved beat OutboxWorker.jobs online];
        change (bool_decide (Beating = Broken)) with false; cbn match; rewrite Hc', Hv;
        cbn; by rewrite Hr).
  rewrite (run_quiet _ _ d _ d1 (moved (Recording k) x))
    by (unfold act; cbn [at_ moved]; by rewrite R1).
  rewrite (run_quiet _ _ d1 _ d2 (moved (Confirming ToComplete) x))
    by (unfold act, call, eid, epoch, x; cbn -[record_receipt]; rewrite Hid; cbn -[record_receipt] in R2; by rewrite R2).
  rewrite (run_quiet _ _ d2 _ (put i e3 d2) (moved (Stopping ToComplete) x))
    by (unfold act; unfold x at 1; cbn [at_ moved beat begin_delivery]; by rewrite R3).
  rewrite (run_quiet _ _ _ _ (put i e3 d2) (beat_set Stopped (moved (Finishing ToComplete) x))) by done.
  cbn [run_alone]. unfold act, call, eid, epoch, x. cbn -[mark_completed]. rewrite Hid.
  cbn -[mark_completed] in R4. rewrite R4. cbn. unfold put, d2, d1, e', e3, e1. cbn.
  by rewrite !insert_insert_eq.
Qed.
End Delivery.

(** ** What the dispatcher promises: a ledger of effects *)

(** An event, the answers of its consumers that took effect, and whether it is done. *)
Record effects := Effects {
  of_event : identity;
  answers : list answer;
  is_done : bool;
}.
Definition effect_ledger : Type := Z → option effects.

(** An event enters; one answer of its registered consumer takes effect, the first of that
    consumer for the event and of its generation key; events with an effect are done. *)
Inductive ledger_step (consumers : gmap string consumer) (s s' : effect_ledger) : Prop :=
| ls_enter i x :
    s i = None → s' i = Some (Effects x [] false) → (∀ j, j ≠ i → s' j = s j) →
    ledger_step consumers s s'
| ls_effect i x l r :
    s i = Some (Effects x l false) → is_answer consumers x r → r.1.1 ∉ (λ t, t.1.1) <$> l →
    (∀ j en t, s j = Some en → t ∈ answers en → t.1 ≠ r.1) →
    s' i = Some (Effects x (l ++ [r]) false) → (∀ j, j ≠ i → s' j = s j) →
    ledger_step consumers s s'
| ls_done :
    (∀ i, s' i = s i ∨
       ∃ x l, s i = Some (Effects x l false) ∧ l ≠ [] ∧ s' i = Some (Effects x l true)) →
    ledger_step consumers s s'.

(** The ledger that the tables hold. *)
Definition ledger_of (d : db) : effect_ledger := λ i,
  (λ e, Effects (ident e) (answer_of <$> event_receipts i d) (bool_decide (state e = Completed)))
    <$> events d !! i.

(** A transaction that adds neither events nor receipts. *)
Definition same_rows (d d' : db) : Prop :=
  receipts d' = receipts d ∧ ∀ i, events d !! i = None → events d' !! i = None.

Lemma fenced_same_rows i owner epoch t f d r :
  fenced_update i owner epoch t f d = Ok r → same_rows d r.2.
Proof.
  destruct r as [e d']. intros (x & _ & _ & _ & Hu)%fenced_update_Ok. cbn [snd]. split; [by eapply update_row_logs|].
  intros j Hj. rewrite (update_row_lookup _ _ _ _ j Hu), Hj. by case_decide.
Qed.

Lemma claim_same_rows owner now limit lease locked d claimed d' :
  wf d → claim_batch owner now limit lease locked d = Ok (claimed, d') → same_rows d d'.
Proof.
  intros Hwf H. apply claim_batch_Ok in H as (t & d1 & _ & H1 & _ & _ & _ & _ & H); [|done].
  cbn zeta in H. destruct H as (_ & Hi & Hr & _).
  apply reclaim_lookup in H1 as (Hi1 & Hr1 & _). split; [congruence|].
  intros i Hn. rewrite Hi, Hi1, Hn. by case_decide.
Qed.

Lemma replay_same_rows i reason actor now d r d' :
  replay_dead i reason actor now d = Ok (r, d') → same_rows d d'.
Proof.
  intros H. unfold replay_dead in H. inv_res. destruct (events d !! i) as [e|]; [|done].
  repeat case_match; try done; inv_res; simplify_eq. apply insert_audit_Ok in Hv2 as ->.
  cbn in H. repeat case_match; try done. inv_res. simplify_eq.
  split; [by eapply (update_row_logs _ _ (Db _ _ _))|].
  intros j Hj. rewrite (update_row_lookup _ _ _ _ j Hv2). cbn [events]. rewrite Hj. by destruct (decide (j = i)).
Qed.

Section Refinement.
Context (consumers : gmap string consumer).
Context (payload_digest : identity → payload → string) (identity_check : identity → bool).
Notation wstep := (wstep consumers payload_digest identity_check).
Notation wreachable := (wreachable consumers payload_digest identity_check).
Notation world_ok := (world_ok (is_answer consumers)).
Notation ledger_step := (ledger_step consumers).

Lemma event_receipts_has d i : has_receipt (receipts d) i → event_receipts i d ≠ [].
Proof.
  intros (r & Hr & <-) H. apply (elem_of_nil (A := receipt) r). rewrite <- H.
  apply list_elem_of_In, filter_In. by rewrite <- list_elem_of_In, Z.eqb_refl.
Qed.

Lemma same_rows_ledger d d' :
  same_rows d d' → evolves d d' → receipts_ok (is_answer consumers) d' →
  ledger_step (ledger_of d) (ledger_of d').
Proof.
  intros [Hr Hn] [Hev _] Hok. apply ls_done. intros i. unfold ledger_of, event_receipts. rewrite Hr.
  destruct (events d !! i) as [e|] eqn:He; [|by left; rewrite (Hn i He)].
  destruct (Hev i e He) as (e' & He' & Hi & _ & Hc & _). rewrite He'. cbn. rewrite Hi.
  destruct (decide (state e = Completed)) as [Hs|Hs]; [left; by rewrite (Hc Hs)|].
  rewrite (bool_decide_eq_false_2 _ Hs). case_bool_decide as Hs'; [right|by left].
  eexists _, _. split_and!; [done| |done]. intros Hnil%fmap_nil_inv.
  apply (event_receipts_has d' i); [by eapply ro_completed|]. unfold event_receipts. by rewrite Hr.
Qed.

Lemma record_ledger i owner epoch r now d b d' e :
  wf d' → record_receipt i owner epoch r.1.1 r.1.2 r.2 now d = Ok (b, d') →
  events d !! i = Some e → is_answer consumers (ident e) r → ledger_step (ledger_of d) (ledger_of d').
Proof.
  intros Hwf' H He Hans.
  assert (Hs : state e ≠ Completed).
  { unfold record_receipt in H. inv_res. rewrite He in Hv3. apply negb_false_iff in Hv3.
    apply holds_claim_inv in Hv3 as [Hs _]. congruence. }
  apply record_receipt_adds in H as [->|(t & -> & _)]; [apply ls_done; by left|].
  destruct r as [[c k] h]. set (new := Receipt i c k h t) in *.
  pose proof (wf_receipt_event _ Hwf') as He1. pose proof (wf_receipt_key _ Hwf') as Hk1.
  cbn [receipts] in He1, Hk1. rewrite fmap_app in He1. rewrite fmap_app in Hk1.
  apply NoDup_app in He1 as (_ & He1 & _), Hk1 as (_ & Hk1 & _).
  assert (Hold : ∀ x, x ∈ receipts d → (r_event x, r_consumer x) ≠ (i, c) ∧
                                        (r_consumer x, r_generation_key x) ≠ (c, k)).
  { intros x Hx. split; intros Hx'.
    - apply (He1 (i, c)); [|by left]. rewrite <- Hx'. by apply (list_elem_of_fmap_2 (λ r, (r_event r, r_consumer r))).
    - apply (Hk1 (c, k)); [|by left]. rewrite <- Hx'.
      by apply (list_elem_of_fmap_2 (λ r, (r_consumer r, r_generation_key r))). }
  assert (Hin : ∀ j x, x ∈ event_receipts j d → x ∈ receipts d ∧ r_event x = j).
  { intros j x [Hx Hj]%list_elem_of_In%filter_In. split; [by apply list_elem_of_In|by apply Z.eqb_eq]. }
  apply (ls_effect _ _ _ i (ident e) (answer_of <$> event_receipts i d) (c, k, h)).
  - unfold ledger_of. rewrite He. cbn. by rewrite bool_decide_eq_false_2.
  - done.
  - cbn. intros (y & Hy & (x & -> & [Hx Hj]%Hin)%list_elem_of_fmap)%list_elem_of_fmap.
    destruct (Hold x Hx) as [Hne _]. cbn in Hy. congruence.
  - intros j en y Hj Hy Heq. unfold ledger_of in Hj. apply fmap_Some in Hj as (z & _ & ->). cbn in Hy.
    apply list_elem_of_fmap in Hy as (x & -> & [Hx _]%Hin). destruct (Hold x Hx) as [_ Hne].
    by apply Hne.
  - unfold ledger_of, event_receipts. cbn. rewrite He. cbn. rewrite List.filter_app. cbn.
    by rewrite Z.eqb_refl, fmap_app, bool_decide_eq_false_2.
  - intros j Hj. unfold ledger_of, event_receipts. cbn. rewrite List.filter_app. cbn.
    apply not_eq_sym, Z.eqb_neq in Hj. by rewrite Hj, app_nil_r.
Qed.

Lemma emit_ledger proto d r d' :
  wf d → emit_internal payload_digest identity_check proto d = Ok (r, d') →
  ledger_step (ledger_of d) (ledger_of d').
Proof.
  intros Hwf [[-> _]|(Hn & e & _ & Hs & ->)]%emit_internal_Ok; [apply ls_done; by left|].
  assert (Hnone : event_receipts (id proto) d = []).
  { destruct (event_receipts (id proto) d) as [|x l] eqn:E; [done|]. exfalso.
    assert (Hx : x ∈ event_receipts (id proto) d) by (rewrite E; by left).
    apply list_elem_of_In, filter_In in Hx as [Hx Hi%Z.eqb_eq]. apply list_elem_of_In in Hx.
    destruct (wf_receipt_row _ Hwf x Hx) as (y & Hy & _). congruence. }
  apply (ls_enter _ _ _ (id proto) (ident e)); unfold ledger_of; cbn.
  - by rewrite Hn.
  - rewrite lookup_insert_eq. cbn. unfold event_receipts in *. cbn. rewrite Hnone, Hs. done.
  - intros j Hj. by rewrite lookup_insert_ne.
Qed.

Lemma writes_ledger d x d' :
  wf d → receipts_ok (is_answer consumers) d' → delivery_ok (is_answer consumers) d x →
  writes d x d' → ledger_step (ledger_of d) (ledger_of d').
Proof.
  intros Hwf Hok Hx Hw. destruct (writes_wf payload_digest identity_check _ _ _ Hwf Hw) as [Hwf' Hev].
  destruct Hw as [|t r d1 H|r t b d1 Hp H|t r d1 Hp H|t r d1 Hp H].
  - apply ls_done. by left.
  - apply same_rows_ledger; [|done..]. unfold renew_lease in H. inv_res. simplify_eq.
    by eapply fenced_same_rows.
  - destruct (do_row _ _ _ Hx) as (e & He & Hi). eapply record_ledger; [done|exact H|exact He|].
    rewrite Hi. apply (do_key _ _ _ Hx). by right.
  - apply same_rows_ledger; [|done..]. unfold mark_completed in H. inv_res. simplify_eq.
    by eapply fenced_same_rows.
  - apply same_rows_ledger; [|done..]. unfold mark_failed in H. inv_res. simplify_eq.
    by eapply fenced_same_rows.
Qed.

Lemma wstep_ledger w w' :
  world_ok w → wstep w w' → ledger_step (ledger_of (store w)) (ledger_of (store w')).
Proof.
  intros Hw Hs. pose proof (step_world_ok _ _ _ (is_answer consumers) _ _ Hs Hw) as Hw'.
  pose proof (wo_receipts _ _ Hw') as Hok. destruct Hw as [Hwf Hrc Hdl _ _].
  destruct Hs as [proto r d' H|i reason actor now r d' H|owner now batch lease locked n w0 H
    |i x inp Hx|i x inp d' x' Hx Hb|i x Hx _|i x inp d' x' ms Hx _ Ha].
  - by eapply emit_ledger.
  - apply same_rows_ledger; [by eapply replay_same_rows| |done].
    by destruct (replay_wf _ _ _ _ _ _ _ Hwf H).
  - unfold dispatch_outbox_once in H. apply bind_Ok in H as ([claimed d'] & Hc & [= _ <-]).
    apply same_rows_ledger; [by eapply claim_same_rows| |done].
    by destruct (claim_wf _ _ _ _ _ _ _ _ Hwf Hc).
  - unfold after_turn in *. destruct (act consumers inp (store w) x) as [[d' x'] ms] eqn:Ha.
    eapply writes_ledger; [done|exact Hok|by eapply Hdl|by eapply act_writes].
  - eapply writes_ledger; [done|exact Hok|by eapply Hdl|by eapply beats_writes].
  - apply ls_done. by left.
  - eapply writes_ledger; [done|exact Hok|by eapply Hdl|by eapply act_writes].
Qed.
(** The holder of a claim whose consumer answers with a new, well-formed receipt, and whose
    calls reach the database in time. *)
Record undisturbed (d : db) (i : Z) (e : OutboxEvent) (owner : string) (lease : Z) (jobs : job_results)
    (r : answer) (t1 t2 t3 t4 : Z) : Prop := {
  un_row : events d !! i = Some e ∧ id (ident e) = i;
  un_held : holds_claim owner (claim_epoch e) t1 e = true;
  un_lease : 1 <= lease <= 3600;
  un_clock : updated_at e <= t1 ∧ t1 <= t2 ∧ t2 <= t3 ∧ t3 <= t4 ∧
             t3 < t1 + lease * second ∧ t4 < t3 + lease * second;
  un_answer : ∃ consume v, consumers !! event_type (ident e) = Some consume ∧
              consume jobs (ident e) = Ok v ∧ _validated_receipt v = Ok r;
  un_shape : consumer_re r.1.1 = true ∧ generation_key_check r.1.2 = true ∧ sha256_re r.2 = true;
  un_new : no_conflict i r.1.1 r.1.2 d;
}.

Lemma undisturbed_ledger d i e owner lease jobs r a b t1 t2 t3 s t4 :
  wf d → undisturbed d i e owner lease jobs r t1 t2 t3 t4 →
  let '(d', x, ms) := run_alone consumers (online jobs <$> [a; b; t1; t2; t3; s; t4]) d
                        (begin_delivery owner lease e) in
  at_ x = Finished Delivered ∧ ms = [OUTBOX_COMPLETED] ∧
  ledger_of d i = Some (Effects (ident e) (answer_of <$> event_receipts i d) false) ∧
  ledger_of d' i = Some (Effects (ident e) ((answer_of <$> event_receipts i d) ++ [r]) true) ∧
  ∀ j, j ≠ i → ledger_of d' j = ledger_of d j.
Proof.
  intros Hwf [[He Hid] Hh Hl (H1 & H2 & H3 & H4 & H5 & H6) (consume & v & Hc & Hv & Hr) (Hcr & Hk & Hx) Hnew].
  destruct r as [[c k] h].
  rewrite (undisturbed_delivery consumers d i e owner lease jobs consume v c k h) by done.
  destruct (holds_claim_inv _ _ _ _ Hh) as (Hs & _).
  split_and!; [done..| | |]; unfold ledger_of, event_receipts; cbn.
  - rewrite He. cbn. by rewrite Hs.
  - rewrite lookup_insert_eq, List.filter_app. cbn. by rewrite Z.eqb_refl, fmap_app.
  - intros j Hj. rewrite lookup_insert_ne by done. rewrite List.filter_app. cbn.
    apply not_eq_sym, Z.eqb_neq in Hj. by rewrite Hj, app_nil_r.
Qed.

(** C12. The dispatcher implements a ledger of effects.  Of the tables of every reachable
    world this much is promised: an event enters undone and without effects; an effect is
    an answer that the registered consumer gave for this very event, taken once for the
    event and once for its generation key; only an event with an effect is done, and it
    stays done.  Every step of the world, with its many deliveries, heartbeats, failures,
    cancellations and replays, is one step of that ledger and one transaction of the
    outbox or none.  A delivery that reports success finds its event done; one whose
    heartbeat broke never comes to complete its event or to record a failure; and a
    delivery that nobody disturbs, whose consumer answers, takes the effect and is
    done. *)
Theorem dispatcher_refines_outbox w :
  wreachable w →
  Outbox.reachable payload_digest identity_check (store w) ∧
  (∀ w', wstep w w' →
     (store w' = store w ∨ step payload_digest identity_check (store w) (store w')) ∧
     ledger_step (ledger_of (store w)) (ledger_of (store w'))) ∧
  (∀ k x, deliveries w !! k = Some x →
     (at_ x = Finished Delivered →
        ∃ l, l ≠ [] ∧ ledger_of (store w) (eid x) = Some (Effects (ident (claim x)) l true)) ∧
     (beat x = Broken → past_heartbeat (at_ x) = false)) ∧
  (∀ i e owner lease jobs r a b t1 t2 t3 s t4,
     undisturbed (store w) i e owner lease jobs r t1 t2 t3 t4 →
     let '(d', x, ms) := run_alone consumers (online jobs <$> [a; b; t1; t2; t3; s; t4]) (store w)
                           (begin_delivery owner lease e) in
     at_ x = Finished Delivered ∧ ms = [OUTBOX_COMPLETED] ∧
     ledger_of (store w) i = Some (Effects (ident e) (answer_of <$> event_receipts i (store w)) false) ∧
     ledger_of d' i = Some (Effects (ident e) ((answer_of <$> event_receipts i (store w)) ++ [r]) true) ∧
     ∀ j, j ≠ i → ledger_of d' j = ledger_of (store w) j).
Proof.
  intros Hw. pose proof (reachable_world_ok _ _ _ (is_answer consumers) _ Hw) as Hok.
  split_and!; [by eapply wreachable_store| | |].
  - intros w' Hs. split; [by eapply wstep_store|by eapply wstep_ledger].
  - intros k x Hx. pose proof (wo_delivery _ _ Hok k x Hx) as Hd. split.
    + intros Hp. destruct (do_done _ _ _ Hd Hp) as (e & He & Hs).
      destruct (do_row _ _ _ Hd) as (e' & He' & Hi). assert (e' = e) as -> by congruence.
      exists (answer_of <$> event_receipts (eid x) (store w)). split.
      * intros Hnil%fmap_nil_inv. apply (event_receipts_has (store w) (eid x)); [|done].
        by eapply (ro_completed _ _ (wo_receipts _ _ Hok)).
      * unfold ledger_of. rewrite He. cbn. by rewrite Hs, Hi.
    + intros Hb. destruct (past_heartbeat (at_ x)) eqn:Hp; [|done].
      pose proof (do_beat _ _ _ Hd Hp). congruence.
  - intros i e owner lease jobs r a b t1 t2 t3 s t4. by apply undisturbed_ledger, (wo_wf _ _ Hok).
Qed.
End Refinement.

(** ** Concrete runs *)

Module Demo.

Inductive command :=
| Emit (proto : identity)
| Dispatch (owner : string) (now : Z)
| Turn (i : nat) (inp : input)
| Beat (i : nat) (inp : input).

Definition sha : string := String.string_of_list_ascii (repeat (Ascii.ascii_of_nat 97) 64).
Definition sha256_hex (_ : string) : string := sha.
Definition iso (_ : Z) : string := "2026-01-31".
Definition digest (_ : identity) (_ : payload) : string := sha.
Definition check (_ : identity) : bool := true.
Definition registry : gmap string consumer := _production_consumers sha256_hex iso.

Definition exec (c : command) (w : world) : option world :=
  match c with
  | Emit proto =>
      match emit_internal digest check proto (store w) with
      | Ok (_, d) => Some (with_store d w)
      | Err _ => None
      end
  | Dispatch owner now =>
      match dispatch_outbox_once owner (Aware now) 50 60 ∅ w with
      | Ok (_, w') => Some w'
      | Err _ => None
      end
  | Turn i inp =>
      x ← deliveries w !! i; Some (after_turn i (act registry inp (store w) x) w)
  | Beat i inp =>
      x ← deliveries w !! i;
      let '(d, x') := beats inp (store w) x in Some (with_store d (with_delivery i x' w))
  end.

Fixpoint run (cs : list command) (w : world) : option world :=
  match cs with [] => Some w | c :: cs' => w' ← exec c w; run cs' w' end.
Definition after (cs : list command) : world := default empty_world (run cs empty_world).

Notation wstep := (wstep registry digest check).

Lemma exec_step c w w' : exec c w = Some w' → wstep w w'.
Proof.
  destruct c as [proto|owner now|i inp|i inp]; cbn; intros H; repeat case_match; simplify_eq.
  - by eapply w_emit.
  - by eapply w_dispatch.
  - apply bind_Some in H as (x & Hx & [= <-]). by eapply w_act.
  - apply bind_Some in H as (x & Hx & H). destruct (beats _ _ x) as [d' x'] eqn:Hb.
    simplify_eq. by eapply w_beat.
Qed.

Lemma run_steps cs w w' : run cs w = Some w' → rtc wstep w w'.
Proof.
  revert w. induction cs as [|c cs IH]; intros w; cbn; [by intros [= <-]|].
  intros (w1 & H1%exec_step & H2%IH)%bind_Some. by eapply rtc_l.
Qed.

Lemma after_reachable cs : wreachable registry digest check (after cs).
Proof.
  unfold after. destruct (run cs empty_world) as [w|] eqn:H; [|apply rtc_refl].
  by apply run_steps in H.
Qed.

Definition sec (n : Z) : Z := n * second.
(** The job answers with revision 3 of both publications. *)
Definition jobs (n : nat) (_ : cache_key) : res exn pyval :=
  Ok (PDict [("status"%string, PStr "published"); ("promotion"%string, revision_dict 3);
             ("contest"%string, revision_dict 3)]).
Definition on (n : Z) : input := Input (sec n) true jobs.
Definition off (n : Z) : input := Input (sec n) false jobs.

(** A generation hash with a run of thirteen digits. *)
Definition poisoned : string :=
  String.string_of_list_ascii (repeat (Ascii.ascii_of_nat 97) 50) +:+ "1234567890123b".

Definition sales (n : Z) (hash key : string) : identity :=
  Identity n SALES_EVENT_TYPE "sales_generation" "north" hash 1 0 key
    (Payload sha None "2026-01") "" 0 n.

(** One event claimed at 10 s and delivered by seven turns. *)
Definition claimed : list command := [Emit (sales 1 sha "k1"); Dispatch "worker-1" (sec 10)].
Definition delivery_turns : list command :=
  Turn 0 <$> [on 10; on 10; on 11; on 12; on 13; on 13; on 14].
Definition w_claimed : world := after claimed.
Definition w_delivered : world := after (claimed ++ delivery_turns).
(** The database is unreachable when the heartbeat renews. *)
Definition w_broken : world := after (claimed ++ [Turn 0 (on 10); Beat 0 (off 11)]).
Definition w_given_up : world := after (claimed ++ [Turn 0 (on 10); Beat 0 (off 11); Turn 0 (on 12)]).
(** A poisoned event, a later one of its aggregate, and one failed attempt. *)
Definition w_poisoned : world :=
  after ([Emit (sales 1 poisoned "k1"); Emit (sales 2 sha "k2"); Dispatch "worker-1" (sec 10)]
         ++ (Turn 0 <$> [on 10; on 10; on 11; on 12; on 13; on 13; on 14])).

Definition row (i : Z) (w : world) : OutboxEvent :=
  default (Event (sales 0 "" "") Pending 0 0 None 0 None None None None 0 None None 0)
    (events (store w) !! i).
Definition first (w : world) : delivery :=
  default (begin_delivery "" 0 (row 0 w)) (deliveries w !! 0%nat).

Example delivered_by_worker : at_ (first w_delivered) = Finished Delivered ∧
  state (row 1 w_delivered) = Completed ∧ completed_total w_delivered = 1.
Proof. by vm_compute. Qed.

Example poisoned_attempt_failed : at_ (first w_poisoned) = Finished (FailureRecorded Pending).
Proof. by vm_compute. Qed.

Lemma dispatcher_refines_outbox_witness :
  ledger_of (store w_delivered) 1
    = Some (Effects (ident (row 1 w_delivered)) [("grile_v2", grile_key sha 1, sha)%string] true) ∧
  past_heartbeat (at_ (first w_broken)) = false ∧
  ∃ l, l ≠ [] ∧ ledger_of (store w_delivered) (eid (first w_delivered))
                = Some (Effects (ident (claim (first w_delivered))) l true).
Proof.
  split; [vm_compute; reflexivity|]. split.
  - destruct (dispatcher_refines_outbox registry digest check w_broken) as (_ & _ & H & _);
      [apply after_reachable|].
    apply (H 0%nat (first w_broken)); vm_compute; reflexivity.
  - destruct (dispatcher_refines_outbox registry digest check w_delivered) as (_ & _ & H & _);
      [apply after_reachable|].
    apply (H 0%nat (first w_delivered)); vm_compute; reflexivity.
Defined.

Lemma completed_exactly_once_witness :
  completed_total w_delivered = 1 ∧ sumZ (delivered <$> deliveries w_delivered) = 1.
Proof.
  destruct (completed_exactly_once registry digest check w_delivered) as (_ & _ & H & _);
    [apply after_reachable|]. split; [by vm_compute|rewrite <- H; by vm_compute].
Defined.

Lemma broken_heartbeat_is_silent_witness :
  beat (first w_broken) = Broken ∧
  ∃ x', deliveries w_given_up !! 0%nat = Some x' ∧ at_ x' ≠ Finished Delivered.
Proof.
  split; [by vm_compute|].
  destruct (broken_heartbeat_is_silent registry digest check w_broken w_given_up 0%nat (first w_broken))
    as (x' & Hx & _ & _ & Hd & _).
  - apply after_reachable.
  - apply (run_steps [Turn 0 (on 12)]). by vm_compute.
  - by vm_compute.
  - by vm_compute.
  - by exists x'.
Defined.

Lemma delivery_ends_witness :
  (10 <= length (repeat (off 1, empty_db, Beating) 10))%nat ∧
  ∃ o, at_ (turns registry (repeat (off 1, empty_db, Beating) 10)
              (begin_delivery "w" 60 (row 1 w_claimed))).1 = Finished o.
Proof.
  pose proof (delivery_ends registry (repeat (off 1, empty_db, Beating) 10) (row 1 w_claimed) "w" 60)
    as H. split; [by vm_compute|].
  destruct (turns _ _ _) as [x ms]. destruct H as (o & Ho & _); [vm_compute; lia|]. by exists o.
Defined.

Lemma undisturbed_delivery_witness :
  ∃ e', (run_alone registry (online jobs <$> [sec 10; sec 10; sec 11; sec 12; sec 13; sec 13; sec 14])
           (store w_claimed) (begin_delivery "worker-1" 60 (row 1 w_claimed))).1.1
        = Db {[1 := e']} [Receipt 1 "grile_v2" (grile_key sha 1) sha (sec 12)] [] ∧
        state e' = Completed.
Proof.
  eexists. split.
  - erewrite (undisturbed_delivery registry (store w_claimed) 1 (row 1 w_claimed) "worker-1" 60 jobs
      (λ js ev, (consume sha256_hex iso js ev (Publications ∅ [])).1)
      (receipt_dict "grile_v2" (grile_key sha 1) sha) "grile_v2" (grile_key sha 1) sha).
    + cbn [fst]. vm_compute. reflexivity.
    + apply (wo_wf _ _ (reachable_world_ok registry digest check (λ _ _, True) _ (after_reachable claimed))).
    + by vm_compute.
    + by vm_compute.
    + by vm_compute.
    + lia.
    + by vm_compute.
    + by vm_compute.
    + by vm_compute.
    + by vm_compute.
    + by vm_compute.
    + by vm_compute.
    + by vm_compute.
    + by vm_compute.
    + by vm_compute.
    + by vm_compute.
    + by vm_compute.
    + by vm_compute.
    + intros r Hr. by apply elem_of_nil in Hr.
  - done.
Defined.

Lemma poisoned_generation_blocks_witness :
  state (row 1 w_poisoned) ≠ Completed ∧ claim_epoch (row 2 w_poisoned) <= 0.
Proof.
  destruct (poisoned_generation_blocks sha256_hex iso digest check w_poisoned 1 (row 1 w_poisoned))
    as (Hs & _ & Hb).
  - apply after_reachable.
  - by vm_compute.
  - by vm_compute.
  - split; [exact Hs|]. apply (Hb 2); by vm_compute.
Defined.

Lemma sales_event_projected_witness :
  ∃ h, consume sha256_hex iso jobs (sales 1 sha "k1") (Publications ∅ [])
       = (Ok (receipt_dict "grile_v2" (production_key (sales 1 sha "k1")) h),
          Publications ∅ [("2026-01"%string, sha, 1)]).
Proof.
  pose proof (sales_event_projected sha256_hex iso jobs (sales 1 sha "k1")) as H.
  destruct H as [H _]; [by split; vm_compute|by intros s; vm_compute|].
  destruct (H 3 3) as (h & Hh & _); [|by exists h]. eexists. by repeat split; vm_compute.
Defined.

End Demo.

End OutboxDelivery.
