(* ===== verification/Exports.v ===== *)
(** Durable export operations: [repositories/export_operations.py] over the table
    of migrations 055 and 065, and the lifecycle of [services/export_operations.py]
    with its private artifact store.

    [now ()] is the transaction's clock, an argument of each operation.  The
    advisory lock of [reserve] makes the reservation one atomic step. *)

From stdpp Require Import pretty.
From Stdlib Require Import QArith Ascii.
From S2P Require Import Prelude Text Table.

Local Open Scope Z_scope.

Module Exports.

Inductive status := Queued | Running | Completed | Failed | Cancelled | Expired.
#[global] Instance status_eq : EqDecision status.
Proof. solve_decision. Defined.

(** What the worker attests about a finished artifact. *)
Record evidence := Evidence {
  artifact_sha256 : string;
  artifact_size : Z;
  peak_rss_bytes : Z;
  build_seconds : Q;
  cell_count : Z;
  row_count : option Z;
  download_filename : string;
}.
#[global] Instance Q_eq : EqDecision Q.
Proof. solve_decision. Defined.
#[global] Instance evidence_eq : EqDecision evidence.
Proof. solve_decision. Defined.

(** The columns that identify the request. *)
Record request := Request {
  id : Z;
  kind : string;
  job_id : string;
  request_payload : string;
  request_sha256 : string;
  requested_by_sub : string;
  created_at : Z;
}.
#[global] Instance request_eq : EqDecision request.
Proof. solve_decision. Defined.

Record operation := Operation {
  req : request;
  stat : status;
  execution_owner : option string;
  execution_epoch : Z;
  execution_lease_until : option Z;
  artifact_key : option string;
  attested : option evidence;
  error_code : option string;
  updated_at : Z;
  started_at : option Z;
  finished_at : option Z;
  expires_at : option Z;
  download_claimed_at : option Z;
}.

Record db := Db { operations : gmap Z operation; next_id : Z }.

Definition empty_db : db := Db ∅ 1.

Inductive export_error :=
| ValueError (message : string)
| OwnerActive
| QueueFull
| TriggerViolation
| CheckViolation
| NotFound
| Conflict
| ArtifactExpired
| Integrity (message : string).

Definition second : Z := 1000000.
Definition MAX_ACTIVE_EXPORT_OPERATIONS : nat := 3.

Definition is_active (o : operation) : bool :=
  bool_decide (stat o = Queued) || bool_decide (stat o = Running).

(** ** CHECK constraints *)

Definition salary_kind (k : string) : bool :=
  existsb (String.eqb k) ["salary_store_summary"; "salary_monthly_trend"; "salary_agents"]%string.
Definition known_kind (k : string) : bool :=
  salary_kind k || existsb (String.eqb k) ["daily_metrics"; "daily_comparison"]%string.

Definition has_prefix (p s : string) : bool := String.prefix p s.
Definition drop_prefix (p s : string) : string :=
  if has_prefix p s then String.substring (String.length p) (String.length s - String.length p) s
  else s.

(** [^[0-9a-f]{32}\.xlsx$] *)
Definition artifact_basename (s : string) : bool :=
  match take_run is_hex 32 (String.list_ascii_of_string s) with
  | Some rest => bool_decide (rest = String.list_ascii_of_string ".xlsx")
  | None => false
  end.

(** [EXPORT_ARTIFACT_KEY] *)
Definition EXPORT_ARTIFACT_KEY (s : string) : bool :=
  artifact_basename s
  || (has_prefix "salary/" s && artifact_basename (drop_prefix "salary/" s)).

Definition key_check (k key : string) : bool :=
  if salary_kind k
  then has_prefix "salary/" key && artifact_basename (drop_prefix "salary/" key)
  else artifact_basename key.

Definition sha256_check : string → bool := run_match is_hex 64 64.

(** [btrim(x) = '']: SQL's [btrim] strips spaces only. *)
Definition btrim_blank : string → bool := all_chars (Ascii.eqb " ").

Definition evidence_check (k : string) (e : evidence) : bool :=
  sha256_check (artifact_sha256 e) && (0 <? artifact_size e) && (0 <? peak_rss_bytes e)
  && Qle_bool 0 (build_seconds e) && (0 <=? cell_count e)
  && negb (btrim_blank (download_filename e))
  && Nat.leb (String.length (download_filename e)) 140
  && match row_count e with
     | Some n => (0 <=? n) && salary_kind k
     | None => true
     end.

Definition error_code_check : string → bool :=
  run_match (λ c, is_lower c || is_digit c || one_of "_" c) 1 80.

(** The status constraint: which execution columns a status carries. *)
Definition status_shape (o : operation) : bool :=
  match stat o with
  | Queued =>
      bool_decide (execution_owner o = None) && bool_decide (execution_lease_until o = None)
      && bool_decide (started_at o = None) && bool_decide (finished_at o = None)
  | Running =>
      match execution_owner o with
      | Some w => negb (btrim_blank w)
      | None => false
      end
      && (0 <? execution_epoch o) && bool_decide (is_Some (execution_lease_until o))
      && bool_decide (is_Some (started_at o)) && bool_decide (finished_at o = None)
  | _ => bool_decide (is_Some (finished_at o)) && bool_decide (execution_lease_until o = None)
  end.

(** The artifact constraint: only a completed operation has an artifact. *)
Definition artifact_shape (o : operation) : bool :=
  match stat o with
  | Completed =>
      match artifact_key o, attested o, expires_at o, finished_at o, error_code o with
      | Some _, Some e, Some x, Some f, None =>
          (f <? x)
          && (negb (salary_kind (kind (req o))) || bool_decide (is_Some (row_count e)))
      | _, _, _, _, _ => false
      end
  | _ => bool_decide (artifact_key o = None)
  end.

(** [export_operations_salary_row_count_check]. *)
Definition row_count_shape (o : operation) : bool :=
  match attested o with
  | Some e =>
      match row_count e with
      | Some _ =>
          existsb (λ s, bool_decide (stat o = s)) [Completed; Failed; Expired]
          && bool_decide (is_Some (finished_at o))
      | None => true
      end
  | None => true
  end.

Definition row_check (o : operation) : bool :=
  known_kind (kind (req o)) && sha256_check (request_sha256 (req o))
  && negb (btrim_blank (requested_by_sub (req o)))
  && (0 <=? execution_epoch o)
  && match artifact_key o with Some k => key_check (kind (req o)) k | None => true end
  && match attested o with Some e => evidence_check (kind (req o)) e | None => true end
  && match error_code o with Some c => error_code_check c | None => true end
  && status_shape o && artifact_shape o && row_count_shape o.

(** [guard_export_operation_transition] *)
Definition guard (old new : operation) : bool :=
  bool_decide (req old = req new)
  && match stat old with
     | Failed | Cancelled | Expired => false
     | Completed =>
         match stat new with
         | Completed =>
             bool_decide (download_claimed_at old = None)
             && bool_decide (is_Some (download_claimed_at new))
             && bool_decide (execution_owner old = execution_owner new)
             && (execution_epoch old =? execution_epoch new)
             && bool_decide (execution_lease_until old = execution_lease_until new)
             && bool_decide (artifact_key old = artifact_key new)
             && bool_decide (attested old = attested new)
             && bool_decide (error_code old = error_code new)
             && bool_decide (started_at old = started_at new)
             && bool_decide (finished_at old = finished_at new)
             && bool_decide (expires_at old = expires_at new)
         | Expired | Failed =>
             bool_decide (artifact_key new = None)
             && bool_decide (attested old = attested new)
             && bool_decide (finished_at old = finished_at new)
             && bool_decide (expires_at old = expires_at new)
             && bool_decide (download_claimed_at old = download_claimed_at new)
             && (if bool_decide (stat new = Failed)
                 then bool_decide (error_code new = Some "artifact_integrity_failed"%string)
                 else bool_decide (error_code new = None))
         | _ => false
         end
     | Queued => existsb (λ s, bool_decide (stat new = s)) [Queued; Running; Failed; Cancelled]
     | Running =>
         existsb (λ s, bool_decide (stat new = s)) [Running; Completed; Failed; Cancelled]
         && (negb (bool_decide (stat new = Running))
             || (bool_decide (execution_owner old = execution_owner new)
                 && (execution_epoch old =? execution_epoch new)))
     end.

Definition update_one (oid : Z) (where_ : operation → bool) (set : operation → operation)
    (d : db) : res export_error (option operation * db) :=
  r ← update_returning guard row_check TriggerViolation CheckViolation oid where_ set (operations d);
  Ok (r.1, Db r.2 (next_id d)).

Definition update_all (where_ : operation → bool) (set : operation → operation)
    (d : db) : res export_error (list Z * db) :=
  let ids := select_keys where_ (operations d) in
  t ← update_keys guard row_check TriggerViolation CheckViolation ids set (operations d);
  Ok (ids, Db t (next_id d)).

(** ** Repository operations *)

Definition owned_by (sub : string) (o : operation) : bool :=
  bool_decide (requested_by_sub (req o) = sub).

Definition active_operations (d : db) : list operation :=
  List.filter is_active (snd <$> map_to_list (operations d)).

Section Reserve.
(** The JSON constraint on salary payloads, an SQL condition on JSON values. *)
Context (payload_check : string → string → bool).

Definition reserve (now : Z) (kind_ payload sha sub job_prefix : string) (d : db)
    : res export_error (operation * db) :=
  _ ← raise_if (bool_decide (strip sub = ""%string)) (ValueError "requested_by_sub is required");
  let expected := if has_prefix "salary_" kind_ then "salary-export"%string
                  else "export-complex"%string in
  _ ← raise_if (negb (bool_decide (job_prefix = expected)))
        (ValueError "Export operation kind and queue identity do not match");
  _ ← raise_if (existsb (owned_by sub) (active_operations d)) OwnerActive;
  _ ← raise_if (Nat.leb MAX_ACTIVE_EXPORT_OPERATIONS (length (active_operations d))) QueueFull;
  let o := Operation
    (Request (next_id d) kind_ (job_prefix +:+ ":" +:+ pretty (next_id d)) payload sha sub now)
    Queued None 0 None None None None now None None None None in
  _ ← raise_if (negb (row_check o && payload_check kind_ payload)) CheckViolation;
  Ok (o, Db (<[next_id d := o]> (operations d)) (next_id d + 1)).
End Reserve.

Definition get (oid : Z) (d : db) : option operation := operations d !! oid.

Definition get_owned (oid : Z) (sub : string) (d : db) : option operation :=
  match get oid d with
  | Some o => if owned_by sub o then Some o else None
  | None => None
  end.

Definition live_completed (now : Z) (o : operation) : bool :=
  bool_decide (stat o = Completed)
  && match expires_at o with Some x => now <? x | None => false end.

(** [ORDER BY CASE WHEN active THEN 0 ELSE 1 END, created_at DESC LIMIT 1]. *)
Definition resumable_leb : operation → operation → bool :=
  lex_leb (cmp_on (λ o, if is_active o then 0 else 1) Z.compare)
    (leb_on (λ o, - created_at (req o)) Z.leb).

Definition resumable (now : Z) (sub : string) (o : operation) : bool :=
  owned_by sub o
  && existsb (String.eqb (kind (req o))) ["daily_metrics"; "daily_comparison"]%string
  && (is_active o || (live_completed now o && bool_decide (download_claimed_at o = None))).

Definition get_resumable_owned (now : Z) (sub : string) (d : db) : option operation :=
  head (sorted_by resumable_leb
    (List.filter (resumable now sub) (snd <$> map_to_list (operations d)))).

Definition claim_download_owned (now oid : Z) (sub : string) (d : db)
    : res export_error (option operation * db) :=
  update_one oid
    (λ o, owned_by sub o && live_completed now o && bool_decide (download_claimed_at o = None))
    (λ o, Operation (req o) (stat o) (execution_owner o) (execution_epoch o)
       (execution_lease_until o) (artifact_key o) (attested o) (error_code o) now (started_at o)
       (finished_at o) (expires_at o) (Some now)) d.

Definition claim (now oid : Z) (owner : string) (lease_seconds : Z) (allowed : list string)
    (d : db) : res export_error (option operation * db) :=
  _ ← raise_if (bool_decide (allowed = []))
        (ValueError "Export worker must declare its allowed operation kinds");
  update_one oid
    (λ o, bool_decide (stat o = Queued) && existsb (String.eqb (kind (req o))) allowed)
    (λ o, Operation (req o) Running (Some owner) (execution_epoch o + 1)
       (Some (now + lease_seconds * second)) (artifact_key o) (attested o) (error_code o) now
       (Some now) (finished_at o) (expires_at o) (download_claimed_at o)) d.

Definition runs_under (owner : string) (epoch : Z) (o : operation) : bool :=
  bool_decide (stat o = Running) && bool_decide (execution_owner o = Some owner)
  && (execution_epoch o =? epoch).

Definition heartbeat (now oid : Z) (owner : string) (epoch lease_seconds : Z) (d : db)
    : res export_error (bool * db) :=
  r ← update_one oid (runs_under owner epoch)
    (λ o, Operation (req o) (stat o) (execution_owner o) (execution_epoch o)
       (Some (now + lease_seconds * second)) (artifact_key o) (attested o) (error_code o) now
       (started_at o) (finished_at o) (expires_at o) (download_claimed_at o)) d;
  Ok (bool_decide (is_Some r.1), r.2).

Definition lease_alive (now : Z) (o : operation) : bool :=
  match execution_lease_until o with Some u => now <? u | None => false end.

(** [ttl] is [export_artifact_ttl_seconds()], between five minutes and a day. *)
Definition complete (now oid : Z) (owner : string) (epoch : Z) (key : string) (ev : evidence)
    (ttl_seconds : Z) (d : db) : res export_error (bool * db) :=
  r ← update_one oid (λ o, runs_under owner epoch o && lease_alive now o)
    (λ o, Operation (req o) Completed (execution_owner o) (execution_epoch o) None (Some key)
       (Some ev) None now (started_at o) (Some now) (Some (now + ttl_seconds * second))
       (download_claimed_at o)) d;
  _ ← raise_if (bool_decide (is_Some r.1)
                && existsb (λ o, bool_decide (artifact_key o = Some key)
                                 && negb (id (req o) =? oid))
                     (snd <$> map_to_list (operations d))) CheckViolation;
  Ok (bool_decide (is_Some r.1), r.2).

Definition fail_queued (now oid : Z) (code : string) (d : db) : res export_error (bool * db) :=
  r ← update_one oid (λ o, bool_decide (stat o = Queued))
    (λ o, Operation (req o) Failed (execution_owner o) (execution_epoch o) None (artifact_key o)
       (attested o) (Some code) now (started_at o) (Some now) (expires_at o)
       (download_claimed_at o)) d;
  Ok (bool_decide (is_Some r.1), r.2).

Definition fail_running (now oid : Z) (owner : string) (epoch : Z) (code : string)
    (cancelled : bool) (d : db) : res export_error (bool * db) :=
  r ← update_one oid (runs_under owner epoch)
    (λ o, Operation (req o) (if cancelled then Cancelled else Failed) (execution_owner o)
       (execution_epoch o) None None (attested o) (Some code) now (started_at o) (Some now)
       (expires_at o) (download_claimed_at o)) d;
  Ok (bool_decide (is_Some r.1), r.2).

Definition cancel_owned (now oid : Z) (sub : string) (d : db)
    : res export_error (option operation * db) :=
  update_one oid (λ o, owned_by sub o && is_active o)
    (λ o, Operation (req o) Cancelled (execution_owner o) (execution_epoch o) None
       (artifact_key o) (attested o) (Some "cancelled_by_user"%string) now (started_at o)
       (Some now) (expires_at o) (download_claimed_at o)) d.

Definition is_stale (now queued_timeout_seconds : Z) (o : operation) : bool :=
  (bool_decide (stat o = Queued)
   && (created_at (req o) <? now - queued_timeout_seconds * second))
  || (bool_decide (stat o = Running)
      && match execution_lease_until o with Some u => u <=? now | None => false end).

Definition reconcile_stale (now queued_timeout_seconds : Z) (d : db)
    : res export_error (list Z * db) :=
  update_all (is_stale now queued_timeout_seconds)
    (λ o, Operation (req o) Failed (execution_owner o) (execution_epoch o) None None (attested o)
       (Some (if bool_decide (stat o = Queued) then "queue_stale"
              else "worker_lease_expired")%string) now (started_at o) (Some now) (expires_at o)
       (download_claimed_at o)) d.

(** [ORDER BY expires_at LIMIT 500 FOR UPDATE SKIP LOCKED]. *)
Definition due_operations (now : Z) (locked : gset Z) (d : db) : list operation :=
  take 500
    (List.filter (λ o, negb (bool_decide (id (req o) ∈ locked)))
       (sorted_by (leb_on (λ o, default 0 (expires_at o)) Z.leb)
          (List.filter (λ o, bool_decide (stat o = Completed)
                             && match expires_at o with Some x => x <=? now | None => false end)
             (snd <$> map_to_list (operations d))))).

Definition expire_set (now : Z) (o : operation) : operation :=
  Operation (req o) Expired (execution_owner o) (execution_epoch o) None None (attested o)
    (error_code o) now (started_at o) (finished_at o) (expires_at o) (download_claimed_at o).

Definition claim_expired (now : Z) (locked : gset Z) (d : db)
    : res export_error (list (Z * option string) * db) :=
  let due := due_operations now locked d in
  t ← update_keys guard row_check TriggerViolation CheckViolation
        (id ∘ req <$> due) (expire_set now) (operations d);
  Ok ((λ o, (id (req o), artifact_key o)) <$> due, Db t (next_id d)).

Definition mark_corrupt (now oid : Z) (key : string) (d : db) : res export_error (bool * db) :=
  r ← update_one oid
    (λ o, bool_decide (stat o = Completed) && bool_decide (artifact_key o = Some key))
    (λ o, Operation (req o) Failed (execution_owner o) (execution_epoch o) None None (attested o)
       (Some "artifact_integrity_failed"%string) now (started_at o) (finished_at o)
       (expires_at o) (download_claimed_at o)) d;
  Ok (bool_decide (is_Some r.1), r.2).

Definition active_artifact_keys (now : Z) (d : db) : list string :=
  omap (λ o, if live_completed now o then artifact_key o else None)
    (snd <$> map_to_list (operations d)).

(** ** Interleavings of web requests, workers and the reconciler *)

Inductive step (payload_check : string → string → bool) (d : db) : db → Prop :=
| step_reserve now k p sha sub pre o d' :
    reserve payload_check now k p sha sub pre d = Ok (o, d') → step payload_check d d'
| step_claim_download now oid sub o d' :
    claim_download_owned now oid sub d = Ok (o, d') → step payload_check d d'
| step_claim now oid w lease ks o d' :
    claim now oid w lease ks d = Ok (o, d') → step payload_check d d'
| step_heartbeat now oid w ep lease b d' :
    heartbeat now oid w ep lease d = Ok (b, d') → step payload_check d d'
| step_complete now oid w ep key ev ttl b d' :
    complete now oid w ep key ev ttl d = Ok (b, d') → step payload_check d d'
| step_fail_queued now oid code b d' :
    fail_queued now oid code d = Ok (b, d') → step payload_check d d'
| step_fail_running now oid w ep code c b d' :
    fail_running now oid w ep code c d = Ok (b, d') → step payload_check d d'
| step_cancel now oid sub o d' :
    cancel_owned now oid sub d = Ok (o, d') → step payload_check d d'
| step_reconcile now q l d' :
    reconcile_stale now q d = Ok (l, d') → step payload_check d d'
| step_expire now locked l d' :
    claim_expired now locked d = Ok (l, d') → step payload_check d d'
| step_corrupt now oid key b d' :
    mark_corrupt now oid key d = Ok (b, d') → step payload_check d d'.

Definition steps pc : db → db → Prop := rtc (step pc).
Definition reachable pc (d : db) : Prop := steps pc empty_db d.

End Exports.
