(* ===== verification/ExportsSpec.v ===== *)
(** Properties of the export operations of [Exports.v]: admission capacity, the
    transition trigger, finality and fencing in every interleaving. *)

From S2P Require Import Prelude Text Table Exports.
Import Exports.

Local Open Scope Z_scope.

(** ** Legal changes of one row *)

Record legal (o o' : operation) : Prop := {
  lg_guard : guard o o' = true;
  lg_check : row_check o' = true;
  lg_epoch : execution_epoch o' = execution_epoch o ∨
             (stat o = Queued ∧ stat o' = Running ∧ execution_epoch o' = execution_epoch o + 1);
  lg_queued : stat o' ≠ Queued;
  lg_attested : attested o' = attested o ∨ stat o' = Completed;
}.

Record evolves (d d' : db) : Prop := {
  ev_forth i o : operations d !! i = Some o →
    ∃ o', operations d' !! i = Some o' ∧ (o' = o ∨ legal o o');
  ev_back i : is_Some (operations d' !! i) → is_Some (operations d !! i);
  ev_next : next_id d' = next_id d;
}.

Lemma guard_request o o' : guard o o' = true → req o' = req o.
Proof. unfold guard. intros H. by split_bools. Qed.

Lemma guard_active o o' : guard o o' = true → is_active o' = true → is_active o = true.
Proof.
  unfold guard, is_active. intros H. apply andb_true_iff in H as [_ H].
  destruct (stat o); try done; destruct (stat o'); done.
Qed.

Lemma update_one_evolves oid p f d r d' :
  update_one oid p f d = Ok (r, d') →
  (∀ o, operations d !! oid = Some o → p o = true → guard o (f o) = true →
        row_check (f o) = true → legal o (f o)) →
  evolves d d'.
Proof.
  unfold update_one. intros H Hl. inv_res. simplify_eq. destruct v as [x t]. cbn in *.
  apply update_returning_Ok in Hv as [(-> & -> & _)|(o & Ho & Hp & Hg & Hc & -> & ->)]; split; cbn;
    try done; eauto.
  - intros i o' Hi. destruct (decide (i = oid)) as [->|Hne].
    + assert (o' = o) as -> by congruence. exists (f o). rewrite lookup_insert_eq. eauto.
    + exists o'. rewrite lookup_insert_ne by done. eauto.
  - intros i. rewrite lookup_insert_is_Some. intros [<-|[_ ?]]; [by eexists|done].
Qed.

Lemma update_keys_evolves ks f d t :
  NoDup ks →
  update_keys guard row_check TriggerViolation CheckViolation ks f (operations d) = Ok t →
  (∀ i o, i ∈ ks → operations d !! i = Some o → guard o (f o) = true →
          row_check (f o) = true → legal o (f o)) →
  evolves d (Db t (next_id d)).
Proof.
  intros Hnd H Hl. pose proof (update_keys_lookup _ _ _ _ _ _ _ _ Hnd H) as Hi. split; cbn; [| |done].
  - intros i o Ho. specialize (Hi i). rewrite Ho in Hi. case_decide as Hin; [|eauto].
    destruct (update_keys_accepted _ _ _ _ _ _ _ _ _ _ Hnd H Hin Ho) as [Hg Hc].
    exists (f o). rewrite Hi. eauto.
  - intros i [o Ho]. rewrite Hi in Ho. case_decide; [|by eexists].
    apply fmap_Some in Ho as (x & Hx & _). by eexists.
Qed.

Lemma legal_keep o o' :
  guard o o' = true → row_check o' = true → execution_epoch o' = execution_epoch o →
  stat o' ≠ Queued → attested o' = attested o → legal o o'.
Proof. intros. split; auto. Qed.

Lemma guard_keeps_queued o o' : guard o o' = true → stat o' = Queued → stat o = Queued.
Proof.
  unfold guard. intros H Hs. apply andb_true_iff in H as [_ H].
  rewrite Hs in H. by destruct (stat o).
Qed.

Lemma elem_of_due now locked d o :
  o ∈ due_operations now locked d →
  ∃ i, operations d !! i = Some o ∧ stat o = Completed ∧ id (req o) ∉ locked ∧
       ∃ x, expires_at o = Some x ∧ x <= now.
Proof.
  unfold due_operations. intros Hin.
  apply list_elem_of_lookup in Hin as [k Hk]. apply lookup_take_Some in Hk as [Hk _].
  apply list_elem_of_lookup_2, list_elem_of_In, filter_In in Hk as [Hk Hl].
  apply list_elem_of_In, elem_of_sorted_by, list_elem_of_In, filter_In in Hk as [Hk Hc].
  apply list_elem_of_In, list_elem_of_fmap in Hk as ([i x] & -> & Hx%elem_of_map_to_list).
  cbn in *. exists i. split_bools. apply negb_true_iff, bool_decide_eq_false in Hl.
  split_and!; [done..|]. destruct (expires_at x) as [u|]; [|done]. exists u. split_bools. done.
Qed.

Definition ids_ok (d : db) : Prop := ∀ i o, operations d !! i = Some o → id (req o) = i.

Lemma NoDup_due now locked d : ids_ok d → NoDup (id ∘ req <$> due_operations now locked d).
Proof.
  intros Hid. unfold due_operations. rewrite fmap_take.
  eapply sublist_NoDup; [|apply sublist_take]. apply NoDup_fmap_filter.
  rewrite sorted_by_perm. apply NoDup_fmap_filter.
  rewrite <- list_fmap_compose. rewrite (list_fmap_ext _ fst); [apply NoDup_fst_map_to_list|].
  intros k [i o] Hk. cbn. apply list_elem_of_lookup_2, elem_of_map_to_list in Hk. by apply Hid.
Qed.

(** Only [reserve] adds a row; every other operation changes rows legally. *)
Lemma step_evolves pc d d' :
  ids_ok d → step pc d d' →
  (∃ now k p sha sub pre o, reserve pc now k p sha sub pre d = Ok (o, d')) ∨ evolves d d'.
Proof.
  intros Hid Hs. destruct Hs as
    [now k p sha sub pre o d' H|now oid sub o d' H|now oid w lease ks o d' H
    |now oid w ep lease b d' H|now oid w ep key ev ttl b d' H|now oid code b d' H
    |now oid w ep code c b d' H|now oid sub o d' H|now q l d' H|now locked l d' H
    |now oid key b d' H]; [left; eauto 10|right..].
  - eapply update_one_evolves; [done|]. intros x _ Hp Hg Hc. apply legal_keep; try done.
    cbn. cbn beta in Hp. unfold live_completed in Hp. split_bools. congruence.
  - unfold claim in H. inv_res. eapply update_one_evolves; [done|]. intros x _ Hp Hg Hc.
    cbn beta in Hp. split_bools. split; cbn; auto.
  - unfold heartbeat in H. inv_res. simplify_eq. destruct v. eapply update_one_evolves; [done|].
    intros x _ Hp Hg Hc. apply legal_keep; try done. cbn. cbn beta in Hp. unfold runs_under in Hp. split_bools. congruence.
  - unfold complete in H. inv_res. simplify_eq. destruct v. eapply update_one_evolves; [done|].
    intros x _ Hp Hg Hc. cbn beta in Hp. unfold runs_under in Hp. split_bools. split; cbn; auto.
  - unfold fail_queued in H. inv_res. simplify_eq. destruct v. eapply update_one_evolves; [done|].
    intros x _ Hp Hg Hc. by apply legal_keep.
  - unfold fail_running in H. inv_res. simplify_eq. destruct v. eapply update_one_evolves; [done|].
    intros x _ Hp Hg Hc. apply legal_keep; try done. cbn. by destruct c.
  - eapply update_one_evolves; [done|]. intros x _ Hp Hg Hc. by apply legal_keep.
  - unfold reconcile_stale, update_all in H. inv_res. simplify_eq.
    eapply update_keys_evolves; [|eassumption|]; [apply NoDup_select_keys|].
    intros i x _ _ Hg Hc. by apply legal_keep.
  - unfold claim_expired in H. inv_res. simplify_eq.
    eapply update_keys_evolves; [|eassumption|]; [by apply NoDup_due|].
    intros i x _ _ Hg Hc. by apply legal_keep.
  - unfold mark_corrupt in H. inv_res. simplify_eq. destruct v. eapply update_one_evolves; [done|].
    intros x _ Hp Hg Hc. by apply legal_keep.
Qed.

(** ** The invariant *)

Definition active_ids (d : db) : list Z := select_keys is_active (operations d).

Record wf (d : db) : Prop := {
  wf_id : ids_ok d;
  wf_check i o : operations d !! i = Some o → row_check o = true;
  wf_epoch i o : operations d !! i = Some o →
    0 <= execution_epoch o <= 1 ∧ (stat o = Queued → execution_epoch o = 0);
  wf_live i o : operations d !! i = Some o → is_active o = true → attested o = None;
  wf_next i o : operations d !! i = Some o → i < next_id d;
  wf_capacity : (length (active_ids d) <= MAX_ACTIVE_EXPORT_OPERATIONS)%nat;
  wf_owner i j o p : operations d !! i = Some o → operations d !! j = Some p →
    is_active o = true → is_active p = true →
    requested_by_sub (req o) = requested_by_sub (req p) → i = j;
}.

Lemma evolves_back d d' i o' :
  evolves d d' → operations d' !! i = Some o' →
  ∃ o, operations d !! i = Some o ∧ (o' = o ∨ legal o o').
Proof.
  intros [Hf Hb _] Ho. destruct (Hb i) as [o Hi]; [by eexists|].
  destruct (Hf i o Hi) as (x & Hx & Hxo). exists o. assert (x = o') as -> by congruence. done.
Qed.

Lemma active_ids_shrink d d' :
  evolves d d' → (length (active_ids d') <= length (active_ids d))%nat.
Proof.
  intros Hev. apply submseteq_length, NoDup_submseteq; [apply NoDup_select_keys|].
  intros i (o' & Ho' & Ha)%elem_of_select_keys. apply elem_of_select_keys.
  destruct (evolves_back _ _ _ _ Hev Ho') as (o & Ho & [->|Hl]); [by exists o|].
  exists o. split; [done|]. by eapply guard_active; [apply lg_guard|].
Qed.

Lemma evolves_wf d d' : wf d → evolves d d' → wf d'.
Proof.
  intros [H1 H2 H3 H4 H5 H6 H7] Hev.
  assert (Hb := λ i o', evolves_back d d' i o' Hev).
  assert (Hreq : ∀ i o', operations d' !! i = Some o' → ∃ o, operations d !! i = Some o ∧
            req o' = req o ∧ (is_active o' = true → is_active o = true)).
  { intros i o' (o & Ho & [->|Hl])%Hb; exists o; split_and!; try done.
    - by apply guard_request, lg_guard.
    - by eapply guard_active, lg_guard. }
  split.
  - intros i o' (o & Ho & -> & _)%Hreq. eauto.
  - intros i o' (o & Ho & [->|[_ ? _ _ _]])%Hb; eauto.
  - intros i o' (o & Ho & [->|[_ _ [He|(Hq & Hr & He)] Hnq _]])%Hb; [eauto| |].
    + rewrite He. split; [by eapply H3|done].
    + destruct (H3 _ _ Ho) as [_ Hz]. rewrite He, (Hz Hq). split; [lia|congruence].
  - intros i o' (o & Ho & [->|[Hg _ _ _ [Ha|Hc]]])%Hb; [eauto| |].
    + intros Hact. rewrite Ha. by eapply H4, guard_active.
    + unfold is_active. by rewrite Hc.
  - intros i o' (o & Ho & _)%Hreq. rewrite (ev_next _ _ Hev). eauto.
  - pose proof (active_ids_shrink _ _ Hev). lia.
  - intros i j o' p' (o & Ho & -> & Hao)%Hreq (p & Hp & -> & Hap)%Hreq Ha Hpa.
    apply (H7 i j); eauto.
Qed.

Lemma active_operations_ids d :
  length (active_operations d) = length (active_ids d).
Proof.
  unfold active_operations, active_ids, select_keys. rewrite length_fmap.
  induction (map_to_list (operations d)) as [|[i o] l IH]; [done|].
  cbn. destruct (is_active o); cbn; by rewrite IH.
Qed.

Lemma elem_of_active d i o :
  operations d !! i = Some o → is_active o = true → o ∈ active_operations d.
Proof.
  intros Ho Ha. apply list_elem_of_In, filter_In. split; [|done].
  apply list_elem_of_In, list_elem_of_fmap. exists (i, o). split; [done|].
  by apply elem_of_map_to_list.
Qed.

Lemma reserve_wf pc now k p sha sub pre d o d' :
  wf d → reserve pc now k p sha sub pre d = Ok (o, d') → wf d'.
Proof.
  intros [H1 H2 H3 H4 H5 H6 H7] H. unfold reserve in H. inv_res. simplify_eq.
  apply Nat.leb_gt in Hv2. rewrite active_operations_ids in Hv2.
  apply negb_false_iff, andb_true_iff in Hv3 as [Hc _].
  assert (Hfresh : operations d !! next_id d = None).
  { destruct (operations d !! next_id d) as [x|] eqn:Hx; [|done]. apply H5 in Hx. lia. }
  assert (Hown : ∀ j x, operations d !! j = Some x → is_active x = true →
            requested_by_sub (req x) ≠ sub).
  { intros j x Hj Ha Hs. apply not_true_iff_false in Hv1. apply Hv1, existsb_exists.
    exists x. split; [by eapply list_elem_of_In, elem_of_active|]. by apply bool_decide_eq_true. }
  split; unfold ids_ok; cbn.
  - intros i x [[<- <-]|[_ Hx]]%lookup_insert_Some; [done|by apply H1].
  - intros i x [[<- <-]|[_ Hx]]%lookup_insert_Some; [exact Hc|by eapply H2].
  - intros i x [[<- <-]|[_ Hx]]%lookup_insert_Some; [cbn; split; [lia|done]|by eapply H3].
  - intros i x [[<- <-]|[_ Hx]]%lookup_insert_Some; [done|by eapply H4].
  - intros i x [[<- <-]|[_ Hx]]%lookup_insert_Some; [lia|]. specialize (H5 _ _ Hx). lia.
  - etrans; [|exact Hv2].
    change (S (length (active_ids d))) with (length (next_id d :: active_ids d)).
    apply submseteq_length, NoDup_submseteq; [apply NoDup_select_keys|].
    intros i (x & Hx & Ha)%elem_of_select_keys. cbn in Hx.
    apply lookup_insert_Some in Hx as [[<- _]|[_ Hx]]; [by left|right].
    apply elem_of_select_keys. by exists x.
  - intros i j x y [[<- <-]|[Hi Hx]]%lookup_insert_Some [[<- <-]|[Hj Hy]]%lookup_insert_Some Ha Hb Hs;
      [done| | |by eapply H7].
    + by destruct (Hown j y).
    + by destruct (Hown i x).
Qed.

Section Lifecycle.
Context (payload_check : string → string → bool).
Notation step := (step payload_check).
Notation steps := (steps payload_check).
Notation reachable := (reachable payload_check).

Lemma export_step_wf d d' : step d d' → wf d → wf d'.
Proof.
  intros Hs Hwf. destruct (step_evolves _ _ _ (wf_id _ Hwf) Hs) as [(?&?&?&?&?&?&?&H)|Hev].
  - by eapply reserve_wf.
  - by eapply evolves_wf.
Qed.

Lemma export_reachable_wf d : reachable d → wf d.
Proof.
  unfold reachable, steps. intros H.
  assert (H0 : wf empty_db).
  { split; cbn; try done; try (intros ??; by rewrite lookup_empty). vm_compute. lia. }
  revert H0. induction H as [d|d d1 d' Hs _ IH]; [done|]. intros Hwf.
  apply IH. by eapply export_step_wf.
Qed.

Lemma export_steps_wf d d' : steps d d' → wf d → wf d'.
Proof. unfold steps. induction 1; eauto using export_step_wf. Qed.
End Lifecycle.

(** ** No constraint refuses a transition of the repository *)

Record checked (o : operation) : Prop := {
  ck_kind : known_kind (kind (req o)) = true;
  ck_sha : sha256_check (request_sha256 (req o)) = true;
  ck_sub : btrim_blank (requested_by_sub (req o)) = false;
  ck_epoch : 0 <= execution_epoch o;
  ck_key k : artifact_key o = Some k → key_check (kind (req o)) k = true;
  ck_attested e : attested o = Some e → evidence_check (kind (req o)) e = true;
  ck_error c : error_code o = Some c → error_code_check c = true;
  ck_status : status_shape o = true;
  ck_artifact : artifact_shape o = true;
  ck_rows : row_count_shape o = true;
}.

Lemma row_check_checked o : row_check o = true ↔ checked o.
Proof.
  unfold row_check. split.
  - intros H. split_bools. split; try done.
    + by apply negb_true_iff.
    + by intros k Hk; rewrite Hk in *.
    + by intros k Hk; rewrite Hk in *.
    + by intros k Hk; rewrite Hk in *.
  - intros []. rewrite ck_kind0, ck_sha0, ck_sub0, ck_status0, ck_artifact0, ck_rows0.
    replace (0 <=? execution_epoch o) with true by (symmetry; by apply Z.leb_le).
    destruct (artifact_key o); [rewrite ck_key0 by done|];
      (destruct (attested o); [rewrite ck_attested0 by done|]);
      (destruct (error_code o); [rewrite ck_error0 by done|]); done.
Qed.

Lemma shape_finished o :
  status_shape o = true → is_active o = false →
  is_Some (finished_at o) ∧ execution_lease_until o = None.
Proof. unfold status_shape, is_active. intros H Ha. destruct (stat o); try done; by split_bools. Qed.

Lemma shape_unfinished o :
  artifact_shape o = true → stat o ≠ Completed → artifact_key o = None.
Proof. unfold artifact_shape. intros H Hs. destruct (stat o); try done; by split_bools. Qed.

Lemma shape_completed o :
  artifact_shape o = true → stat o = Completed →
  ∃ k e x f, artifact_key o = Some k ∧ attested o = Some e ∧ expires_at o = Some x ∧
    finished_at o = Some f ∧ error_code o = None.
Proof.
  unfold artifact_shape. intros H Hs. rewrite Hs in H.
  repeat (case_match; try done). by eauto 10.
Qed.

Ltac decide_all :=
  repeat (first [rewrite bool_decide_eq_true_2 by done | rewrite Z.eqb_refl
                | rewrite bool_decide_eq_false_2 by done]; cbn).

(** Ending an active operation without an artifact. *)
Lemma end_active o o' :
  row_check o = true → is_active o = true → attested o = None → req o' = req o →
  stat o' = Failed ∨ stat o' = Cancelled →
  execution_epoch o' = execution_epoch o → execution_lease_until o' = None →
  artifact_key o' = None → attested o' = None → is_Some (finished_at o') →
  (∀ c, error_code o' = Some c → error_code_check c = true) →
  guard o o' = true ∧ row_check o' = true.
Proof.
  intros Hc%row_check_checked Ha Hn Hr Hs He Hl Hk Ht Hf Hcode. split.
  - unfold guard. rewrite Hr, bool_decide_eq_true_2 by done. unfold is_active in Ha.
    destruct (stat o); try done; by destruct Hs as [-> | ->].
  - destruct Hc. apply row_check_checked. split; rewrite ?Hr, ?He; try done; try congruence.
    + unfold status_shape. destruct Hs as [-> | ->]; rewrite Hl; by decide_all.
    + unfold artifact_shape. destruct Hs as [-> | ->]; rewrite Hk; by decide_all.
    + unfold row_count_shape. by rewrite Ht.
Qed.

(** Leaving the completed state: the artifact key goes, the evidence stays. *)
Lemma end_completed o o' :
  row_check o = true → stat o = Completed → req o' = req o →
  (stat o' = Expired ∧ error_code o' = None) ∨
  (stat o' = Failed ∧ error_code o' = Some "artifact_integrity_failed"%string) →
  execution_epoch o' = execution_epoch o → execution_lease_until o' = None →
  artifact_key o' = None → attested o' = attested o → finished_at o' = finished_at o →
  expires_at o' = expires_at o → download_claimed_at o' = download_claimed_at o →
  guard o o' = true ∧ row_check o' = true.
Proof.
  intros Hc%row_check_checked Hs Hr Hns He Hl Hk Ht Hf Hx Hd. destruct Hc. split.
  - unfold guard. rewrite Hs, Hr, Hk, Ht, Hf, Hx, Hd.
    destruct Hns as [[-> ->]|[-> ->]]; by decide_all.
  - destruct (shape_completed _ ck_artifact0 Hs) as (k & e & x & f & _ & Hatt & _ & Hfin & _).
    apply row_check_checked. split; rewrite ?Hr, ?He, ?Ht; try done; try congruence.
    + destruct Hns as [[_ ->]|[_ ->]]; [done|]. intros c [= <-]. by vm_compute.
    + unfold status_shape. rewrite Hl, Hf, Hfin. by destruct Hns as [[-> _]|[-> _]]; decide_all.
    + unfold artifact_shape. rewrite Hk. by destruct Hns as [[-> _]|[-> _]]; decide_all.
    + unfold row_count_shape in *. rewrite Ht, Hatt, Hf, Hfin. destruct (row_count e); [|done].
      by destruct Hns as [[-> _]|[-> _]]; decide_all.
Qed.

Lemma update_one_ok oid p f d :
  (∀ o, operations d !! oid = Some o → p o = true → guard o (f o) = true ∧ row_check (f o) = true) →
  is_ok (update_one oid p f d) = true.
Proof.
  intros H. unfold update_one, update_returning, update_key.
  destruct (operations d !! oid) as [o|]; [|done]. destruct (p o) eqn:Hp; [|done].
  destruct (H o eq_refl Hp) as [-> ->]. done.
Qed.

Lemma is_ok_bind {A B} (m : res export_error A) (f : A → B) :
  is_ok m = true → is_ok (r ← m; Ok (f r)) = true.
Proof. by destruct m. Qed.

Lemma update_keys_is_ok ks f (t : gmap Z operation) :
  NoDup ks →
  (∀ i o, i ∈ ks → t !! i = Some o → guard o (f o) = true ∧ row_check (f o) = true) →
  is_ok (update_keys guard row_check TriggerViolation CheckViolation ks f t) = true.
Proof.
  intros Hnd H. destruct (update_keys_run guard row_check TriggerViolation CheckViolation ks f t Hnd H)
    as [t' ->]. done.
Qed.

(** Starting, renewing and completing an execution. *)
Lemma claim_accepted o now w lease :
  row_check o = true → stat o = Queued → attested o = None → execution_epoch o = 0 →
  btrim_blank w = false →
  let o' := Operation (req o) Running (Some w) (execution_epoch o + 1)
       (Some (now + lease * second)) (artifact_key o) (attested o) (error_code o) now
       (Some now) (finished_at o) (expires_at o) (download_claimed_at o) in
  guard o o' = true ∧ row_check o' = true.
Proof.
  intros Hc%row_check_checked Hs Hn He Hw o'. subst o'. destruct Hc. split.
  - unfold guard. cbn. by rewrite Hs; decide_all.
  - apply row_check_checked. split; cbn; try done; [rewrite He; lia| | |].
    + unfold status_shape in *. cbn. rewrite Hs in *. split_bools. rewrite Hw, He.
      match goal with H : finished_at o = None |- _ => rewrite H end. by decide_all.
    + unfold artifact_shape in *. cbn. by rewrite Hs in *.
    + unfold row_count_shape. cbn. by rewrite Hn.
Qed.

Lemma heartbeat_accepted o now lease :
  row_check o = true → stat o = Running →
  let o' := Operation (req o) (stat o) (execution_owner o) (execution_epoch o)
       (Some (now + lease * second)) (artifact_key o) (attested o) (error_code o) now
       (started_at o) (finished_at o) (expires_at o) (download_claimed_at o) in
  guard o o' = true ∧ row_check o' = true.
Proof.
  intros Hc%row_check_checked Hs o'. subst o'. destruct Hc. split.
  - unfold guard. cbn. rewrite Hs. cbn. by decide_all.
  - apply row_check_checked. split; cbn; try done.
    unfold status_shape in *. cbn. rewrite Hs in *. split_bools.
    repeat (apply andb_true_iff; split); try done; try by apply bool_decide_eq_true.
    by apply Z.ltb_lt.
Qed.

Lemma complete_accepted o now key ev ttl :
  row_check o = true → stat o = Running → key_check (kind (req o)) key = true →
  evidence_check (kind (req o)) ev = true → 0 < ttl →
  (salary_kind (kind (req o)) = true → is_Some (row_count ev)) →
  let o' := Operation (req o) Completed (execution_owner o) (execution_epoch o) None (Some key)
       (Some ev) None now (started_at o) (Some now) (Some (now + ttl * second))
       (download_claimed_at o) in
  guard o o' = true ∧ row_check o' = true.
Proof.
  intros Hc%row_check_checked Hs Hk He Ht Hrow o'. subst o'. destruct Hc. split.
  - unfold guard. cbn. rewrite Hs. cbn. by decide_all.
  - apply row_check_checked.
    split; cbn [req execution_epoch artifact_key attested error_code]; try done; try congruence.
    + unfold artifact_shape. cbn [stat artifact_key attested expires_at finished_at error_code req].
      apply andb_true_iff. split; [apply Z.ltb_lt; unfold second; lia|].
      destruct (salary_kind (kind (req o))); cbn; [|done]. by apply bool_decide_eq_true, Hrow.
    + unfold row_count_shape. cbn. by destruct (row_count ev).
Qed.

Lemma download_claim_accepted o now :
  row_check o = true → stat o = Completed → download_claimed_at o = None →
  let o' := Operation (req o) (stat o) (execution_owner o) (execution_epoch o)
       (execution_lease_until o) (artifact_key o) (attested o) (error_code o) now (started_at o)
       (finished_at o) (expires_at o) (Some now) in
  guard o o' = true ∧ row_check o' = true.
Proof.
  intros Hc%row_check_checked Hs Hd o'. subst o'. destruct Hc. split.
  - unfold guard. cbn. rewrite Hs, Hd. by decide_all.
  - by apply row_check_checked.
Qed.

Section Accepted.
Context (payload_check : string → string → bool).

(** In every reachable database no transition the repository attempts is
    refused by the transition trigger or a CHECK constraint: claims of
    downloads, cancellations, heartbeats, the reconciler, the expiry and the
    corruption mark always go through, and so do the claim, the failures and
    the completion when the worker passes a named owner, a well-formed error
    code, and a well-formed unused artifact with its evidence. *)
Theorem export_transitions_accepted d :
  reachable payload_check d →
  (∀ now oid sub, is_ok (claim_download_owned now oid sub d) = true) ∧
  (∀ now oid sub, is_ok (cancel_owned now oid sub d) = true) ∧
  (∀ now oid w ep lease, is_ok (heartbeat now oid w ep lease d) = true) ∧
  (∀ now q, is_ok (reconcile_stale now q d) = true) ∧
  (∀ now locked, is_ok (claim_expired now locked d) = true) ∧
  (∀ now oid key, is_ok (mark_corrupt now oid key d) = true) ∧
  (∀ now oid code, error_code_check code = true → is_ok (fail_queued now oid code d) = true) ∧
  (∀ now oid w ep code c, error_code_check code = true →
     is_ok (fail_running now oid w ep code c d) = true) ∧
  (∀ now oid w lease ks, btrim_blank w = false → ks ≠ [] →
     is_ok (claim now oid w lease ks d) = true) ∧
  (∀ now oid o w ep key ev ttl, operations d !! oid = Some o →
     key_check (kind (req o)) key = true → evidence_check (kind (req o)) ev = true →
     (salary_kind (kind (req o)) = true → is_Some (row_count ev)) → 0 < ttl →
     (∀ j p, operations d !! j = Some p → artifact_key p = Some key → id (req p) = oid) →
     is_ok (complete now oid w ep key ev ttl d) = true).
Proof.
  intros Hwf%export_reachable_wf. destruct Hwf as [Hid Hck Hep Hlive _ _ _].
  assert (Hend : ∀ i o, operations d !! i = Some o → is_active o = true →
            row_check o = true ∧ attested o = None) by eauto.
  split_and!.
  - intros now oid sub. apply update_one_ok. cbn beta. intros o Ho Hp. unfold live_completed in Hp.
    split_bools. by apply download_claim_accepted; eauto.
  - intros now oid sub. apply update_one_ok. cbn beta. intros o Ho Hp. split_bools.
    destruct (Hend oid o) as [Hc Hn]; [done..|].
    eapply end_active; cbn; try done; [by right| |by intros ? [= <-]; vm_compute].
    apply row_check_checked in Hc as []. apply shape_unfinished; [done|].
    unfold is_active in *. by destruct (stat o).
  - intros now oid w ep lease. apply is_ok_bind, update_one_ok. cbn beta. intros o Ho Hp.
    unfold runs_under in Hp. split_bools. by apply heartbeat_accepted; eauto.
  - intros now q. apply (is_ok_bind _ (λ t, (_, Db t (next_id d)))), update_keys_is_ok;
      [apply NoDup_select_keys|].
    intros i o (o1 & Ho1 & Hp)%elem_of_select_keys Ho. assert (o1 = o) as -> by congruence.
    assert (Ha : is_active o = true).
    { unfold is_stale in Hp. unfold is_active. destruct (stat o); try done; by cbn in Hp. }
    destruct (Hend i o) as [Hc Hn]; [done..|].
    eapply end_active; cbn; try done; [by left|].
    intros c [= <-]. by case_bool_decide; vm_compute.
  - intros now locked. apply (is_ok_bind _ (λ t, (_, Db t (next_id d)))), update_keys_is_ok;
      [by apply NoDup_due|].
    intros i o (o1 & -> & Ho1)%list_elem_of_fmap Ho.
    apply elem_of_due in Ho1 as (j & Hj & Hs & _). cbn in Ho.
    pose proof (Hid _ _ Hj) as Hj'. rewrite Hj' in Ho. assert (o1 = o) as -> by congruence.
    pose proof (Hck _ _ Hj) as Hc. eapply end_completed; cbn; try done.
    left. split; [done|]. apply row_check_checked in Hc as [].
    by destruct (shape_completed o) as (? & ? & ? & ? & _ & _ & _ & _ & ?).
  - intros now oid key. apply is_ok_bind, update_one_ok. cbn beta. intros o Ho Hp. split_bools.
    eapply end_completed; cbn; try done; [by eauto|by right].
  - intros now oid code Hcode. apply is_ok_bind, update_one_ok. cbn beta. intros o Ho Hp.
    split_bools. assert (Ha : is_active o = true) by (unfold is_active; by rewrite Hp).
    destruct (Hend oid o) as [Hc Hn]; [done..|].
    eapply end_active; cbn; try done; [by left| |by intros ? [= <-]].
    apply row_check_checked in Hc as []. by apply shape_unfinished; [|congruence].
  - intros now oid w ep code c Hcode. apply is_ok_bind, update_one_ok. cbn beta. intros o Ho Hp.
    unfold runs_under in Hp. split_bools.
    assert (Ha : is_active o = true) by (unfold is_active; by destruct (stat o)).
    destruct (Hend oid o) as [Hc Hn]; [done..|].
    eapply end_active; cbn; try done; [by destruct c; auto|by intros ? [= <-]].
  - intros now oid w lease ks Hw Hks. unfold claim. rewrite bool_decide_eq_false_2 by done. cbn.
    apply update_one_ok. cbn beta. intros o Ho Hp. split_bools.
    apply claim_accepted; try done; [by eauto| |by apply (Hep oid)].
    apply (Hlive oid o Ho). unfold is_active. by destruct (stat o).
  - intros now oid o w ep key ev ttl Ho Hk He Hrow Ht Huniq. unfold complete.
    assert (Hnone : existsb (λ o0, bool_decide (artifact_key o0 = Some key)
              && negb (id (req o0) =? oid)) (snd <$> map_to_list (operations d)) = false).
    { apply not_true_iff_false. intros (p & Hp & Hx)%existsb_exists.
      apply list_elem_of_In, list_elem_of_fmap in Hp as ([j p'] & -> & Hj%elem_of_map_to_list).
      split_bools. cbn in *. apply negb_true_iff, Z.eqb_neq in H0. by eapply H0, Huniq. }
    rewrite Hnone.
    match goal with |- is_ok (mbind _ ?m) = true =>
      assert (Hm : is_ok m = true); [|destruct m; [|done]; cbn; by rewrite andb_false_r] end.
    apply update_one_ok. cbn beta. intros x Hx Hp.
    unfold runs_under in Hp. split_bools. assert (x = o) as -> by congruence.
    by apply complete_accepted; eauto.
Qed.
End Accepted.

(** ** Finality *)

Record sealed (o o' : operation) : Prop := {
  se_req : req o' = req o;
  se_final : is_active o' = false;
  se_attested : attested o' = attested o;
  se_terminal : stat o ≠ Completed → o' = o;
  se_download : is_Some (download_claimed_at o) → download_claimed_at o' = download_claimed_at o;
}.

Lemma legal_sealed o o' : legal o o' → is_active o = false → sealed o o'.
Proof.
  intros [Hg _ _ _ _] Ha. pose proof (guard_request _ _ Hg) as Hr.
  assert (Ha' : is_active o' = false).
  { apply not_true_iff_false. intros H. rewrite (guard_active o o') in Ha; done. }
  unfold guard in Hg. unfold is_active in Ha. destruct (stat o) eqn:Hs; split_bools; try done.
  destruct (stat o'); split_bools; split; try congruence.
  intros Hd. match goal with H : download_claimed_at o = None |- _ => rewrite H in Hd; by destruct Hd end.
Qed.

Lemma sealed_refl o : is_active o = false → sealed o o.
Proof. by split. Qed.

Lemma sealed_trans a b c : sealed a b → sealed b c → sealed a c.
Proof.
  intros [A1 A2 A3 A4 A5] [B1 B2 B3 B4 B5]. split; try congruence.
  - intros Hs. specialize (A4 Hs) as ->. auto.
  - intros Hd. specialize (A5 Hd). rewrite B5; [done|]. by rewrite A5.
Qed.

Section Finality.
Context (payload_check : string → string → bool).
Notation steps := (steps payload_check).
Notation reachable := (reachable payload_check).

Lemma step_sealed d d' i o :
  wf d → step payload_check d d' → operations d !! i = Some o → is_active o = false →
  ∃ o', operations d' !! i = Some o' ∧ sealed o o'.
Proof.
  intros Hwf Hs Ho Ha. destruct (step_evolves _ _ _ (wf_id _ Hwf) Hs) as [(?&?&?&?&?&?&x&H)|Hev].
  - unfold reserve in H. inv_res. simplify_eq. exists o. split; [|by apply sealed_refl]. cbn.
    rewrite lookup_insert_ne; [done|]. intros Heq. pose proof (wf_next _ Hwf _ _ Ho). lia.
  - destruct (ev_forth _ _ Hev i o Ho) as (o' & Ho' & [->|Hl]).
    + exists o. split; [done|]. by apply sealed_refl.
    + exists o'. split; [done|]. by apply legal_sealed.
Qed.

Lemma steps_sealed d d' i o :
  steps d d' → wf d → operations d !! i = Some o → is_active o = false →
  ∃ o', operations d' !! i = Some o' ∧ sealed o o'.
Proof.
  unfold steps. intros H. revert o. induction H as [d|d d1 d' Hs _ IH]; intros o Hwf Ho Ha.
  - exists o. split; [done|]. by apply sealed_refl.
  - destruct (step_sealed _ _ _ _ Hwf Hs Ho Ha) as (o1 & Ho1 & Hse).
    destruct (IH o1) as (o' & Ho' & Hse'); [by eapply export_step_wf|done|by destruct Hse|].
    exists o'. split; [done|]. by eapply sealed_trans.
Qed.

(** An update whose WHERE clause needs an active row finds none. *)
Lemma update_one_misses d oid p f o :
  operations d !! oid = Some o → p o = false → update_one oid p f d = Ok (None, d).
Proof.
  intros Ho Hp. unfold update_one. rewrite update_returning_none.
  - cbn. by destruct d.
  - intros x Hx. congruence.
Qed.

(** C38: capacity.  In every reachable database at most three operations are
    active, at most one per requester, and each is executed at most once: its
    execution epoch never exceeds one, and is zero while it is queued. *)
Theorem export_capacity d :
  reachable d →
  (length (active_operations d) <= MAX_ACTIVE_EXPORT_OPERATIONS)%nat ∧
  (∀ i j o p, operations d !! i = Some o → operations d !! j = Some p →
     is_active o = true → is_active p = true →
     requested_by_sub (req o) = requested_by_sub (req p) → i = j) ∧
  (∀ i o, operations d !! i = Some o →
     id (req o) = i ∧ row_check o = true ∧ 0 <= execution_epoch o <= 1 ∧
     (stat o = Queued → execution_epoch o = 0)).
Proof.
  intros Hwf%export_reachable_wf. rewrite active_operations_ids. destruct Hwf as [H1 H2 H3 H4 H5 H6 H7].
  split_and!; [done..|]. intros i o Ho. split_and!; eauto; by apply (H3 i).
Qed.

(** Finality.  A finished export keeps its request and its attested evidence
    for ever, a failed, cancelled or expired row never changes at all, the
    download claim is taken once, and no worker or user can claim, renew,
    fail, complete or cancel it again. *)
Theorem finished_stays_finished d d' oid o :
  reachable d → steps d d' → operations d !! oid = Some o → is_active o = false →
  ∃ o', operations d' !! oid = Some o' ∧ is_active o' = false ∧ req o' = req o ∧
    attested o' = attested o ∧ (stat o ≠ Completed → o' = o) ∧
    (is_Some (download_claimed_at o) → ∀ now sub,
       claim_download_owned now oid sub d' = Ok (None, d')) ∧
    (∀ now w lease ks, ks ≠ [] → claim now oid w lease ks d' = Ok (None, d')) ∧
    (∀ now w ep lease, heartbeat now oid w ep lease d' = Ok (false, d')) ∧
    (∀ now w ep code c, fail_running now oid w ep code c d' = Ok (false, d')) ∧
    (∀ now w ep key ev ttl r, complete now oid w ep key ev ttl d' ≠ Ok (true, r)) ∧
    (∀ now sub, cancel_owned now oid sub d' = Ok (None, d')).
Proof.
  intros Hwf%export_reachable_wf Hs Ho Ha.
  destruct (steps_sealed _ _ _ _ Hs Hwf Ho Ha) as (o' & Ho' & [S1 S2 S3 S4 S5]).
  assert (Hq : bool_decide (stat o' = Queued) = false ∧ bool_decide (stat o' = Running) = false).
  { unfold is_active in S2. by apply orb_false_iff in S2. }
  destruct Hq as [Hq Hr].
  assert (Hrun : ∀ w ep, runs_under w ep o' = false).
  { intros w ep. unfold runs_under. by rewrite Hr. }
  exists o'. split_and!; try done.
  - intros Hd now sub. eapply update_one_misses; [done|]. cbn beta.
    rewrite (S5 Hd). destruct Hd as [x ->]. rewrite (bool_decide_eq_false_2 (Some x = None)) by done.
    apply andb_false_r.
  - intros now w lease ks Hks. unfold claim. rewrite bool_decide_eq_false_2 by done. cbn.
    eapply update_one_misses; [done|]. cbn beta. by rewrite Hq.
  - intros now w ep lease. unfold heartbeat. by erewrite update_one_misses by (done || apply Hrun).
  - intros now w ep code c. unfold fail_running. by erewrite update_one_misses by (done || apply Hrun).
  - intros now w ep key ev ttl r H. unfold complete in H. inv_res. simplify_eq.
    erewrite update_one_misses in Hv; [|done|cbn beta; by rewrite Hrun].
    by injection Hv as <-.
  - intros now sub. eapply update_one_misses; [done|]. cbn beta. by rewrite S2, andb_false_r.
Qed.
End Finality.
