(* ===== verification/ExportService.v ===== *)
(** The export service of [services/export_operations.py]: reservation and queue
    publication, status, cancellation, download, the private artifact store, and
    the cleanup jobs, over the repository of [Exports.v].

    A file of the store is known by its artifact key, the path relative to the
    private root; the layout of the root directory itself (symlink and parent
    checks of [get_export_artifact_dir]) and the sweep of the system's temporary
    directory are outside the model.  Several transactions make one service call,
    so a call that raises may still have changed the state: a call is a function
    to a state and a result. *)

From stdpp Require Import pretty.
From Stdlib Require Import QArith.
From S2P Require Import Prelude Text Table Exports.
Import Exports.

Local Open Scope Z_scope.

Module ExportService.

Inductive node := Regular (content : string) (mtime : Z) | Symlink.

Record world := World {
  repo : db;
  store : gmap string node;
  cleanup_queue : list string;
}.

Inductive service_error :=
| Repo (e : export_error)
| PublishUncertain (operation_id : Z)
| PublishFailed
| Disappeared
| BadSetting (message : string).

Definition call (A : Type) : Type := world * res service_error A.

Definition with_repo (w : world) (d : db) : world := World d (store w) (cleanup_queue w).
Definition with_store (w : world) (s : gmap string node) : world :=
  World (repo w) s (cleanup_queue w).

(** ** Settings *)

(** [_bounded_env]: [value] is the parsed variable, [None] when it is no integer. *)
Definition bounded_env (name : string) (value : option Z) (minimum maximum : Z)
    : res service_error Z :=
  match value with
  | None => Err (BadSetting (name +:+ " must be an integer"))
  | Some v =>
      if (minimum <=? v) && (v <=? maximum) then Ok v
      else Err (BadSetting (name +:+ " must be between " +:+ pretty minimum +:+ " and "
                            +:+ pretty maximum))
  end.

Definition EXPORT_ARTIFACT_TTL_DEFAULT_SECONDS : Z := 60 * 60.
Definition EXPORT_ARTIFACT_TTL_MIN_SECONDS : Z := 5 * 60.
Definition EXPORT_ARTIFACT_TTL_MAX_SECONDS : Z := 24 * 60 * 60.
Definition EXPORT_EXECUTION_LEASE_SECONDS : Z := 5 * 60.
Definition EXPORT_QUEUE_STALE_SECONDS : Z := 3 * 7200 + 10 * 60.
Definition EXPORT_ORPHAN_GRACE_SECONDS : Z := 60 * 60.
Definition EXPORT_MAX_OUTPUT_BYTES : Z := 64 * 1024 * 1024.

(** [setting] is the environment variable: unset, or its parse. *)
Definition export_artifact_ttl_seconds (setting : option (option Z)) : res service_error Z :=
  bounded_env "EXPORT_ARTIFACT_TTL_SECONDS"
    (default (Some EXPORT_ARTIFACT_TTL_DEFAULT_SECONDS) setting)
    EXPORT_ARTIFACT_TTL_MIN_SECONDS EXPORT_ARTIFACT_TTL_MAX_SECONDS.

(** ** The artifact store *)

Definition artifact_path (key : string) : res export_error string :=
  if EXPORT_ARTIFACT_KEY key then Ok key
  else Err (Integrity "Invalid export artifact identity").

Definition remove_export_artifact (key : string) (s : gmap string node)
    : res export_error (gmap string node) :=
  path ← artifact_path key;
  match s !! path with
  | Some Symlink => Err (Integrity "Export artifact symlink is not allowed")
  | _ => Ok (delete path s)
  end.

(** What the builder process hands over. *)
Record artifact := Artifact {
  chunks : list string;
  a_filename : string;
  a_size : Z;
  a_sha256 : option string;
  a_peak_rss : option Z;
  a_build_seconds : option Q;
  a_cells : option Z;
  a_rows : option Z;
}.

Definition byte_size (s : string) : Z := Z.of_nat (String.length s).

(** The copying loop with its running size. *)
Definition copy_chunk (acc : Z * string) (chunk : string) : res export_error (Z * string) :=
  let size := acc.1 + byte_size chunk in
  _ ← raise_if (EXPORT_MAX_OUTPUT_BYTES <? size)
        (Integrity "Export artifact exceeded output budget");
  Ok (size, acc.2 +:+ chunk).

Section Digest.
(** [hashlib.sha256(...).hexdigest()]. *)
Context (sha256_hex : string → string).

(** [hex] is the drawn [uuid4().hex]. *)
Definition persist_export_artifact (a : artifact) (salary : bool) (hex : string) (now : Z)
    (s : gmap string node) : res export_error (string * evidence * gmap string node) :=
  let basename := hex +:+ ".xlsx" in
  let key := if salary then "salary/" +:+ basename else basename in
  path ← artifact_path key;
  copied ← foldR copy_chunk (0, ""%string) (chunks a);
  let digest := sha256_hex copied.2 in
  _ ← raise_if ((copied.1 <=? 0) || negb (copied.1 =? a_size a))
        (Integrity "Export artifact size changed before persistence");
  _ ← raise_if (negb (bool_decide (a_sha256 a = Some digest)))
        (Integrity "Export artifact digest changed before persistence");
  match a_peak_rss a, a_build_seconds a, a_cells a with
  | Some peak, Some build, Some cells =>
      _ ← raise_if ((peak <=? 0) || negb (Qle_bool 0 build) || (cells <? 0)
                    || match a_rows a with Some r => r <? 0 | None => false end)
            (Integrity "Export artifact metrics are missing");
      Ok (key, Evidence digest copied.1 peak build cells (a_rows a) (a_filename a),
          <[path := Regular copied.2 now]> s)
  | _, _, _ => Err (Integrity "Export artifact metrics are missing")
  end.

Definition open_verified_export_artifact (key expected_sha256 : string) (expected_size : Z)
    (s : gmap string node) : res export_error string :=
  path ← artifact_path key;
  match s !! path with
  | Some (Regular content _) =>
      _ ← raise_if (negb (byte_size content =? expected_size))
            (Integrity "Export artifact size verification failed");
      _ ← raise_if (negb (bool_decide (sha256_hex content = expected_sha256)))
            (Integrity "Export artifact hash verification failed");
      Ok content
  | _ => Err (Integrity "Export artifact is unavailable")
  end.

(** ** Public view *)

Definition operation_is_expired (now : Z) (o : operation) : bool :=
  match expires_at o with
  | None => bool_decide (stat o = Completed)
  | Some x => x <=? now
  end.

Definition public_status (now : Z) (o : operation) : status :=
  if bool_decide (stat o = Completed) && operation_is_expired now o then Expired else stat o.

(** The fields of [ExportOperationResponse] that depend on the status. *)
Definition public_export_operation (now : Z) (o : operation) : Z * status * bool :=
  (id (req o), public_status now o, bool_decide (public_status now o = Completed)).

(** ** Service calls *)

Inductive publication := Published | Uncertain | Refused.

(** The error path of [fail_queued] inside the handler is the repository's. *)
Definition reserve_validated (payload_check : string → string → bool) (now : Z)
    (kind_ payload sub : string) (salary : bool) (outcome : publication) (w : world)
    : call (Z * status * bool) :=
  match reserve payload_check now kind_ payload (sha256_hex payload) sub
          (if salary then "salary-export" else "export-complex") (repo w) with
  | Err e => (w, Err (Repo e))
  | Ok (o, d) =>
      let w := with_repo w d in
      match outcome with
      | Uncertain => (w, Err (PublishUncertain (id (req o))))
      | Refused =>
          match fail_queued now (id (req o)) "queue_publish_failed" d with
          | Ok (_, d') => (with_repo w d', Err PublishFailed)
          | Err e => (w, Err (Repo e))
          end
      | Published =>
          match get_owned (id (req o)) sub d with
          | Some current => (w, Ok (public_export_operation now current))
          | None => (w, Err Disappeared)
          end
      end
  end.

Definition status_of (now oid : Z) (sub : string) (w : world) : call (Z * status * bool) :=
  match get_owned oid sub (repo w) with
  | Some o => (w, Ok (public_export_operation now o))
  | None => (w, Err (Repo NotFound))
  end.

Definition resumable_export (now : Z) (sub : string) (w : world)
    : call (option (Z * status * bool)) :=
  (w, Ok (public_export_operation now <$> get_resumable_owned now sub (repo w))).

Definition cancel (now oid : Z) (sub : string) (w : world) : call (Z * status * bool) :=
  match cancel_owned now oid sub (repo w) with
  | Err e => (w, Err (Repo e))
  | Ok (Some o, d) => (with_repo w d, Ok (public_export_operation now o))
  | Ok (None, d) =>
      match get_owned oid sub d with
      | None => (with_repo w d, Err (Repo NotFound))
      | Some _ => (with_repo w d, Err (Repo Conflict))
      end
  end.

(** Serving one operation's file, with the corruption mark; [enqueued] tells
    whether the cleanup job could be queued (a failure is only logged). *)
Definition serve (now oid : Z) (enqueued : bool) (o : operation) (w : world) : call string :=
  let key := default ""%string (artifact_key o) in
  let digest := default ""%string (artifact_sha256 <$> attested o) in
  let size := default 0 (artifact_size <$> attested o) in
  match open_verified_export_artifact key digest size (store w) with
  | Ok content => (w, Ok content)
  | Err e =>
      match mark_corrupt now oid key (repo w) with
      | Err e' => (w, Err (Repo e'))
      | Ok (marked, d) =>
          (World d (store w)
             (if marked && enqueued then cleanup_queue w ++ [key] else cleanup_queue w),
           Err (Repo e))
      end
  end.

Definition download (now oid : Z) (sub : string) (enqueued : bool) (w : world) : call string :=
  match claim_download_owned now oid sub (repo w) with
  | Err e => (w, Err (Repo e))
  | Ok (Some o, d) => serve now oid enqueued o (with_repo w d)
  | Ok (None, d) =>
      let w := with_repo w d in
      match get_owned oid sub d with
      | None => (w, Err (Repo NotFound))
      | Some o =>
          if bool_decide (stat o = Expired) || operation_is_expired now o
          then (w, Err (Repo ArtifactExpired))
          else if negb (bool_decide (stat o = Completed)) then (w, Err (Repo Conflict))
          else serve now oid enqueued o w
      end
  end.

(** ** Cleanup jobs *)

Fixpoint remove_all (claimed : list (Z * option string)) (s : gmap string node)
    : gmap string node * res export_error () :=
  match claimed with
  | [] => (s, Ok ())
  | (_, key) :: rest =>
      if bool_decide (default ""%string key = ""%string) then remove_all rest s
      else match remove_export_artifact (default ""%string key) s with
           | Ok s' => remove_all rest s'
           | Err e => (s, Err e)
           end
  end.

Definition cleanup_export_operations (now : Z) (locked : gset Z) (w : world) : call () :=
  match reconcile_stale now EXPORT_QUEUE_STALE_SECONDS (repo w) with
  | Err e => (w, Err (Repo e))
  | Ok (_, d) =>
      match claim_expired now locked d with
      | Err e => (with_repo w d, Err (Repo e))
      | Ok (claimed, d') =>
          let r := remove_all claimed (store w) in
          (World d' r.1 (cleanup_queue w), lift_err Repo r.2)
      end
  end.

(** One file of the namespace's directory is swept when it is an old regular
    file of the store that no live operation names. *)
Definition swept (active : list string) (cutoff : Z) (salary : bool) (key : string) (n : node)
    : bool :=
  match n with
  | Symlink => false
  | Regular _ mtime =>
      (mtime <? cutoff) && bool_decide (has_prefix "salary/" key = salary)
      && negb (bool_decide (key ∈ active))
      && (EXPORT_ARTIFACT_KEY (drop_prefix "salary/" key)
          || has_prefix "." (drop_prefix "salary/" key))
  end.

Definition sweep_orphan_export_artifacts (now ttl : Z) (salary : bool) (w : world) : world :=
  let active := List.filter (λ k, bool_decide (has_prefix "salary/" k = salary))
                  (active_artifact_keys now (repo w)) in
  let cutoff := now - Z.max EXPORT_ORPHAN_GRACE_SECONDS ttl * second in
  with_store w (filter (λ kn, swept active cutoff salary kn.1 kn.2 = false) (store w)).
End Digest.

End ExportService.
