(* ===== verification/ExportServiceSpec.v ===== *)
(** Properties of the export service of [ExportService.v]: what a download gives
    and does, that a persisted artifact comes back byte for byte, and that the
    cleanup jobs never touch the artifact of a live export. *)

From Stdlib Require Import QArith.
From S2P Require Import Prelude Text Table Exports ExportsSpec ExportService.
Import Exports ExportService.

Local Open Scope Z_scope.

(** ** Downloads *)

Section Download.
Context (sha256_hex : string → string) (payload_check : string → string → bool).
Notation reachable := (reachable payload_check).
Notation download := (download sha256_hex).
Notation serve := (serve sha256_hex).

Lemma open_verified_Ok key sha size s content :
  open_verified_export_artifact sha256_hex key sha size s = Ok content →
  ∃ mtime, s !! key = Some (Regular content mtime) ∧ byte_size content = size ∧
           sha256_hex content = sha ∧ EXPORT_ARTIFACT_KEY key = true.
Proof.
  unfold open_verified_export_artifact, artifact_path. intros H.
  destruct (EXPORT_ARTIFACT_KEY key) eqn:Hk; [|done]. cbn in H.
  destruct (s !! key) as [[c mt|]|] eqn:Hs; try done. inv_res.
  bool_prop. by exists mt.
Qed.

Lemma serve_Ok now oid enq o w w' content :
  serve now oid enq o w = (w', Ok content) →
  w' = w ∧ ∃ mtime, store w !! default ""%string (artifact_key o) = Some (Regular content mtime) ∧
    byte_size content = default 0 (artifact_size <$> attested o) ∧
    sha256_hex content = default ""%string (artifact_sha256 <$> attested o).
Proof.
  unfold serve. destruct (open_verified_export_artifact _ _ _ _ _) as [c|e] eqn:Ho.
  - intros [= <- <-]. split; [done|].
    apply open_verified_Ok in Ho as (mt & ? & ? & ? & _). by exists mt.
  - destruct (mark_corrupt _ _ _ _) as [[b d]|]; done.
Qed.

Lemma claim_download_row now oid sub d o d' :
  claim_download_owned now oid sub d = Ok (Some o, d') →
  ∃ x, operations d !! oid = Some x ∧ owned_by sub x = true ∧ live_completed now x = true ∧
    artifact_key o = artifact_key x ∧ attested o = attested x ∧
    download_claimed_at o = Some now ∧ operations d' = <[oid := o]> (operations d).
Proof.
  unfold claim_download_owned, update_one. intros H. inv_res. simplify_eq.
  destruct v as [r t]. cbn in *. simplify_eq.
  apply update_returning_Ok in Hv as [(? & _)|(x & Hx & Hp & _ & _ & Ho & ->)]; [done|].
  injection Ho as ->. cbn. split_bools. by exists x.
Qed.

Lemma get_owned_Some oid sub d o :
  get_owned oid sub d = Some o ↔ operations d !! oid = Some o ∧ owned_by sub o = true.
Proof.
  unfold get_owned, get. destruct (operations d !! oid) as [x|]; [|split; [done|by intros [? _]]].
  destruct (owned_by sub x) eqn:Hs; split.
  - by intros [= <-].
  - by intros [[= <-] _].
  - done.
  - intros [[= <-] ?]. congruence.
Qed.

(** A download that succeeds hands the requester's own export, completed and
    not past its expiry, and the bytes have the attested size and digest; the
    store is untouched, and the row is marked as downloaded. *)
Theorem download_sound now oid sub enq w w' content :
  reachable (repo w) → download now oid sub enq w = (w', Ok content) →
  ∃ o ev, operations (repo w) !! oid = Some o ∧ requested_by_sub (req o) = sub ∧
    live_completed now o = true ∧ attested o = Some ev ∧
    byte_size content = artifact_size ev ∧ sha256_hex content = artifact_sha256 ev ∧
    store w' = store w ∧
    ∃ o', operations (repo w') !! oid = Some o' ∧ is_Some (download_claimed_at o') ∧
          attested o' = Some ev.
Proof.
  intros Hwf%export_reachable_wf H. unfold ExportService.download in H.
  destruct (claim_download_owned now oid sub (repo w)) as [[[o|] d]|] eqn:Hc; [| |done].
  - apply claim_download_row in Hc as (x & Hx & Hown & Hlive & Hk & Ha & Hd & Hops).
    apply serve_Ok in H as [-> (mt & _ & Hsize & Hsha)].
    pose proof Hlive as Hst. unfold live_completed in Hst. split_bools.
    pose proof (wf_check _ Hwf _ _ Hx) as []%row_check_checked.
    destruct (shape_completed _ ck_artifact ltac:(done)) as (k & ev & _ & _ & _ & Hev & _).
    rewrite Ha, Hev in *. unfold owned_by in Hown. split_bools.
    exists x, ev. split_and!; try done. exists o. cbn. rewrite Hops, lookup_insert_eq.
    split_and!; [done|by rewrite Hd|congruence].
  - assert (Hd : d = repo w ∧ ∀ x, operations d !! oid = Some x →
              owned_by sub x && live_completed now x && bool_decide (download_claimed_at x = None) = false).
    { unfold claim_download_owned, update_one in Hc. inv_res. simplify_eq. destruct v as [r t].
      cbn in *. subst r. apply update_returning_Ok in Hv as [(_ & -> & Hp)|(x & _ & _ & _ & _ & ? & _)];
        [|done]. split; [by destruct (repo w)|done]. }
    destruct Hd as [-> Hmiss]. cbn in H.
    destruct (get_owned oid sub (repo w)) as [o|] eqn:Hg; [|done].
    apply get_owned_Some in Hg as [Ho Hown].
    destruct (_ || _) eqn:Hexp in H; [done|]. destruct (negb _) eqn:Hcomp in H; [done|].
    apply orb_false_iff in Hexp as [_ Hexp]. apply negb_false_iff, bool_decide_eq_true in Hcomp.
    apply serve_Ok in H as [-> (mt & _ & Hsize & Hsha)].
    pose proof (wf_check _ Hwf _ _ Ho) as []%row_check_checked.
    destruct (shape_completed _ ck_artifact Hcomp) as (k & ev & x & _ & _ & Hev & Hx & _).
    unfold operation_is_expired in Hexp. rewrite Hx in Hexp. apply Z.leb_gt in Hexp.
    assert (Hlive : live_completed now o = true).
    { unfold live_completed. rewrite Hcomp, Hx. rewrite bool_decide_eq_true_2 by done. by apply Z.ltb_lt. }
    specialize (Hmiss o Ho). rewrite Hown, Hlive in Hmiss. cbn in Hmiss.
    apply bool_decide_eq_false in Hmiss. rewrite Hev in *. unfold owned_by in Hown. split_bools.
    exists o, ev. split_and!; try done. exists o. cbn. split_and!; try done.
    destruct (download_claimed_at o); [done|]. by destruct Hmiss.
Qed.

(** The served operation of a live download, and the state it is served in. *)
Lemma download_serves now oid sub enq w o :
  wf (repo w) → operations (repo w) !! oid = Some o → owned_by sub o = true →
  live_completed now o = true →
  ∃ o1 d, download now oid sub enq w = serve now oid enq o1 (with_repo w d) ∧ wf d ∧
    operations d !! oid = Some o1 ∧ stat o1 = Completed ∧
    artifact_key o1 = artifact_key o ∧ attested o1 = attested o.
Proof.
  intros Hwf Ho Hown Hlive. pose proof Hlive as Hst. unfold live_completed in Hst. split_bools.
  unfold ExportService.download. destruct (download_claimed_at o) as [t|] eqn:Hd.
  - exists o, (repo w).
    assert (Hc : claim_download_owned now oid sub (repo w) = Ok (None, repo w)).
    { eapply update_one_misses; [done|]. cbn beta. rewrite Hd.
      rewrite (bool_decide_eq_false_2 (Some t = None)) by done. apply andb_false_r. }
    rewrite Hc. cbn. rewrite (proj2 (get_owned_Some oid sub (repo w) o)) by done.
    unfold operation_is_expired. destruct (expires_at o) as [x|]; [|done]. split_bools.
    replace (x <=? now) with false by lia. rewrite H.
    rewrite (bool_decide_eq_false_2 (Completed = Expired)) by done.
    rewrite (bool_decide_eq_true_2 (Completed = Completed)) by done. done.
  - set (o1 := Operation (req o) (stat o) (execution_owner o) (execution_epoch o)
      (execution_lease_until o) (artifact_key o) (attested o) (error_code o) now (started_at o)
      (finished_at o) (expires_at o) (Some now)).
    destruct (download_claim_accepted o now (wf_check _ Hwf _ _ Ho) H Hd) as [Hg Hck].
    set (d := Db (<[oid := o1]> (operations (repo w))) (next_id (repo w))).
    assert (Hc : claim_download_owned now oid sub (repo w) = Ok (Some o1, d)).
    { unfold claim_download_owned, update_one.
      erewrite update_returning_run; [done|exact Ho| |exact Hg|exact Hck].
      cbn beta. rewrite Hown, Hlive, Hd. by rewrite bool_decide_eq_true_2. }
    exists o1, d. rewrite Hc. split_and!; try done; [|by cbn; rewrite lookup_insert_eq].
    eapply evolves_wf; [exact Hwf|]. eapply update_one_evolves; [exact Hc|].
    intros x Hx _ ? ?. assert (x = o) as -> by congruence.
    apply legal_keep; try done. cbn. congruence.
Qed.

Lemma mark_corrupt_run now oid key d o :
  wf d → operations d !! oid = Some o → stat o = Completed → artifact_key o = Some key →
  ∃ o', mark_corrupt now oid key d = Ok (true, Db (<[oid := o']> (operations d)) (next_id d)) ∧
    stat o' = Failed ∧ artifact_key o' = None.
Proof.
  intros Hwf Ho Hs Hk.
  set (o' := Operation (req o) Failed (execution_owner o) (execution_epoch o) None None
    (attested o) (Some "artifact_integrity_failed"%string) now (started_at o) (finished_at o)
    (expires_at o) (download_claimed_at o)).
  destruct (end_completed o o') as [Hg Hc]; try done; [by apply (wf_check _ Hwf oid)|by right|].
  exists o'. split; [|done]. unfold mark_corrupt, update_one.
  erewrite update_returning_run; [done|exact Ho| |exact Hg|exact Hc].
  cbn beta. by rewrite Hs, Hk, !bool_decide_eq_true_2.
Qed.

Lemma open_verified_Err key sha size s :
  (∀ content mtime, s !! key = Some (Regular content mtime) → sha256_hex content ≠ sha) →
  ∃ msg, open_verified_export_artifact sha256_hex key sha size s = Err (Integrity msg).
Proof.
  intros Hbad. unfold open_verified_export_artifact, artifact_path.
  destruct (EXPORT_ARTIFACT_KEY key); cbn; [|by eexists].
  destruct (s !! key) as [[c mt|]|] eqn:Hs; [|by eexists..].
  destruct (byte_size c =? size); cbn; [|by eexists].
  rewrite bool_decide_eq_false_2 by by eapply Hbad. cbn. by eexists.
Qed.
(** A stored artifact that no longer matches its evidence is never served:
    the download fails, and the export is failed for good with its artifact
    key released (and queued for removal when the queue accepts it). *)
Theorem corrupt_download_fails now oid sub enq w o ev key :
  reachable (repo w) → operations (repo w) !! oid = Some o → requested_by_sub (req o) = sub →
  live_completed now o = true → attested o = Some ev → artifact_key o = Some key →
  (∀ content mtime, store w !! key = Some (Regular content mtime) →
     sha256_hex content ≠ artifact_sha256 ev) →
  ∃ w' msg o', download now oid sub enq w = (w', Err (Repo (Integrity msg))) ∧
    operations (repo w') !! oid = Some o' ∧ stat o' = Failed ∧ artifact_key o' = None ∧
    store w' = store w ∧
    cleanup_queue w' = (if enq then cleanup_queue w ++ [key] else cleanup_queue w).
Proof.
  intros Hwf%export_reachable_wf Ho Hown Hlive Hev Hk Hbad.
  destruct (download_serves now oid sub enq w o Hwf Ho) as (o1 & d & -> & Hwfd & Ho1 & Hs1 & Hk1 & Ha1);
    [by apply bool_decide_eq_true|done|].
  rewrite Hk in Hk1. rewrite Hev in Ha1.
  destruct (mark_corrupt_run now oid key d o1 Hwfd Ho1 Hs1 Hk1) as (o' & Hm & Hf & Hn).
  destruct (open_verified_Err key (artifact_sha256 ev) (artifact_size ev) (store w) Hbad)
    as [msg Hopen].
  unfold ExportService.serve. rewrite Hk1, Ha1. cbn. rewrite Hopen, Hm.
  eexists _, msg, o'. split_and!; try done. cbn. by rewrite lookup_insert_eq.
Qed.

(** ** Persisting and serving *)

Lemma copy_chunks cs acc out :
  foldR copy_chunk acc cs = Ok out → acc.1 = byte_size acc.2 →
  out.2 = acc.2 +:+ String.concat "" cs ∧ out.1 = byte_size out.2 ∧
  (cs ≠ [] → out.1 <= EXPORT_MAX_OUTPUT_BYTES).
Proof.
  revert acc. induction cs as [|c cs IH]; intros acc; cbn [foldR].
  - intros [= <-] H. split_and!; [|done|done]. cbn. by rewrite string_app_empty.
  - intros (acc1 & H1 & H2)%bind_Ok Hacc. unfold copy_chunk in H1. inv_res. bool_prop.
    destruct (IH _ H2) as (Ho & Hs & Hb).
    { cbn. unfold byte_size in *. rewrite string_length_app. lia. }
    split_and!.
    + rewrite Ho, string_concat_cons, string_app_assoc. done.
    + done.
    + intros _. destruct cs as [|c' cs]; [|by apply Hb]. cbn in H2. by injection H2 as <-.
Qed.

(** Persisting is faithful and bounded: the stored file is the concatenation
    of the builder's chunks, within the output budget, under the returned key;
    the evidence is its size and digest; nothing else in the store changes; and
    opening it against that evidence gives the same bytes back. *)
Theorem persist_open_roundtrip a salary hex now s key ev s' :
  persist_export_artifact sha256_hex a salary hex now s = Ok (key, ev, s') →
  let content := String.concat "" (chunks a) in
  s' = <[key := Regular content now]> s ∧
  EXPORT_ARTIFACT_KEY key = true ∧
  key = (if salary then "salary/" +:+ (hex +:+ ".xlsx") else hex +:+ ".xlsx") ∧
  artifact_size ev = byte_size content ∧ 0 < artifact_size ev <= EXPORT_MAX_OUTPUT_BYTES ∧
  artifact_sha256 ev = sha256_hex content ∧
  open_verified_export_artifact sha256_hex key (artifact_sha256 ev) (artifact_size ev) s'
    = Ok content.
Proof.
  intros H content. unfold persist_export_artifact, artifact_path in H.
  set (k := if salary then _ else _) in H.
  destruct (EXPORT_ARTIFACT_KEY k) eqn:Hkey; [|done]. inv_res. bool_prop.
  destruct (copy_chunks _ _ _ Hv0) as (Hc & Hs & Hb); [done|].
  destruct (a_peak_rss a); [|done]. destruct (a_build_seconds a); [|done].
  destruct (a_cells a); [|done]. inv_res. simplify_eq. cbn in Hc.
  assert (Hcontent : v0.2 = content) by done.
  rewrite Hcontent in *. cbn [artifact_size artifact_sha256].
  assert (Hpos : 0 < v0.1) by lia.
  split_and!; try done.
  - apply Hb. intros Hnil. rewrite Hnil in Hv0. cbn in Hv0. injection Hv0 as <-. done.
  - unfold open_verified_export_artifact, artifact_path. rewrite Hkey. cbn.
    rewrite lookup_insert_eq. rewrite <- Hs, Z.eqb_refl. cbn.
    by rewrite bool_decide_eq_true_2.
Qed.
End Download.

(** The orphan sweep removes a file only when it is an old regular file of
    its namespace that no live completed export names; everything else stays. *)
Theorem sweep_removes_orphans_only now ttl salary w key :
  let w' := sweep_orphan_export_artifacts now ttl salary w in
  repo w' = repo w ∧
  (store w' !! key = store w !! key ∨
   (store w' !! key = None ∧
    (∃ content mtime, store w !! key = Some (Regular content mtime) ∧
       mtime < now - Z.max EXPORT_ORPHAN_GRACE_SECONDS ttl * second) ∧
    has_prefix "salary/" key = salary ∧
    ∀ oid o, operations (repo w) !! oid = Some o → live_completed now o = true →
      artifact_key o ≠ Some key)).
Proof.
  intros w'. split; [done|]. subst w'. unfold sweep_orphan_export_artifacts. cbn [store with_store].
  set (active := List.filter _ _). set (cutoff := now - _).
  destruct (store w !! key) as [n|] eqn:Hn; [|left; apply map_lookup_filter_None; by left].
  destruct (swept active cutoff salary key n) eqn:Hs;
    [right|left; by apply map_lookup_filter_Some].
  split; [apply map_lookup_filter_None; right; cbn; intros x Hx; congruence|].
  unfold swept in Hs. destruct n as [content mtime|]; [|done]. split_bools.
  split_and!; [by exists content, mtime|done|].
  intros oid o Ho Hlive Hk. apply negb_true_iff, bool_decide_eq_false in H1. apply H1.
  apply list_elem_of_In, filter_In. split; [|by apply bool_decide_eq_true].
  apply list_elem_of_In. unfold active_artifact_keys. apply list_elem_of_omap.
  exists o. rewrite Hlive, Hk. split; [|done]. apply list_elem_of_fmap. exists (oid, o).
  split; [done|]. by apply elem_of_map_to_list.
Qed.

(** ** A concrete history *)

Module ExportDemo.
Definition all_ok (_ _ : string) : bool := true.
Definition letters (n : nat) : string := String.string_of_list_ascii (repeat (Ascii.ascii_of_nat n) 64).
(** A digest that tells the demonstration's two contents apart. *)
Definition sha (s : string) : string :=
  if String.eqb s "PK-sheet" then letters 97 else letters 98.
Definition hex : string := String.substring 0 32 (letters 99).

Definition book : artifact :=
  Artifact ["PK-"; "sheet"]%string "export.xlsx" 8 (Some (letters 97)) (Some 1000)
    (Some (1 # 2)%Q) (Some 40) None.

Definition after {A} (m : res export_error (A * db)) : db :=
  match m with Ok (_, d) => d | Err _ => empty_db end.
Definition row (oid : Z) (d : db) : operation :=
  default (Operation (Request 0 "" "" "" "" "" 0) Queued None 0 None None None None 0
             None None None None) (operations d !! oid).
Definition sec (n : Z) : Z := n * second.

Definition d1 := after (reserve all_ok (sec 1) "daily_metrics" "{}" (letters 97) "ana"
                          "export-complex" empty_db).
Definition d2 := after (claim (sec 2) 1 "worker-1" 300 ["daily_metrics"%string] d1).
Definition ev : evidence := Evidence (letters 97) 8 1000 (1 # 2)%Q 40 None "export.xlsx".
Definition key : string := hex +:+ ".xlsx".
Definition d3 := after (complete (sec 3) 1 "worker-1" 1 key ev 3600 d2).
Definition files : gmap string node := {[key := Regular "PK-sheet" (sec 3)]}.
Definition w3 : world := World d3 files [].
Definition bad : world := World d3 {[key := Regular "PK-other" (sec 3)]} [].

Lemma running_reachable : reachable all_ok d2.
Proof.
  eapply rtc_l; [eapply (step_reserve _ _ (sec 1) "daily_metrics" "{}" (letters 97) "ana"
                           "export-complex"); vm_compute; reflexivity|].
  eapply rtc_l; [eapply (step_claim _ _ (sec 2) 1 "worker-1" 300 ["daily_metrics"%string]);
                 vm_compute; reflexivity|].
  vm_compute. apply rtc_refl.
Qed.

Lemma completed_reachable : reachable all_ok d3.
Proof.
  unfold reachable, steps. etrans; [exact running_reachable|]. apply rtc_once.
  eapply (step_complete _ _ (sec 3) 1 "worker-1" 1 key ev 3600). vm_compute. reflexivity.
Qed.
End ExportDemo.
Import ExportDemo.

Lemma export_transitions_accepted_witness :
  reachable all_ok d2 ∧ is_ok (cancel_owned (sec 3) 1 "ana" d2) = true.
Proof.
  split; [exact running_reachable|]. exact (proj1 (proj2 (export_transitions_accepted all_ok d2 running_reachable)) (sec 3) 1 "ana").
Defined.

Lemma export_capacity_witness :
  reachable all_ok d2 ∧ stat (row 1 d2) = Running ∧ (length (active_operations d2) <= 3)%nat.
Proof.
  split; [exact running_reachable|]. split; [vm_compute; reflexivity|].
  apply (export_capacity all_ok d2). exact running_reachable.
Defined.

Lemma finished_stays_finished_witness :
  stat (row 1 d3) = Completed ∧ ∀ now sub, cancel_owned now 1 sub d3 = Ok (None, d3).
Proof.
  split; [vm_compute; reflexivity|].
  destruct (finished_stays_finished all_ok d3 d3 1 (row 1 d3))
    as (o' & _ & _ & _ & _ & _ & _ & _ & _ & _ & _ & H).
  - exact completed_reachable.
  - apply rtc_refl.
  - vm_compute. reflexivity.
  - vm_compute. reflexivity.
  - exact H.
Defined.

Lemma download_sound_witness :
  (ExportService.download sha (sec 10) 1 "ana" true w3).2 = Ok "PK-sheet"%string ∧
  ∃ o e, operations d3 !! 1 = Some o ∧ attested o = Some e ∧ sha "PK-sheet" = artifact_sha256 e.
Proof.
  split; [vm_compute; reflexivity|].
  destruct (download_sound sha all_ok (sec 10) 1 "ana" true w3
    (ExportService.download sha (sec 10) 1 "ana" true w3).1 "PK-sheet")
    as (o & e & Ho & _ & _ & He & _ & Hs & _).
  - exact completed_reachable.
  - vm_compute. reflexivity.
  - exists o, e. split; [exact Ho|]. split; [exact He|exact Hs].
Defined.

Lemma corrupt_download_fails_witness :
  ∃ w' msg, ExportService.download sha (sec 10) 1 "ana" true bad = (w', Err (Repo (Integrity msg))) ∧
    cleanup_queue w' = [key].
Proof.
  destruct (corrupt_download_fails sha all_ok (sec 10) 1 "ana" true bad (row 1 d3) ev key)
    as (w' & msg & o' & H & _ & _ & _ & _ & Hq).
  - exact completed_reachable.
  - vm_compute. reflexivity.
  - vm_compute. reflexivity.
  - vm_compute. reflexivity.
  - vm_compute. reflexivity.
  - vm_compute. reflexivity.
  - intros content mtime Hc. unfold bad in Hc. cbn [store] in Hc.
    rewrite lookup_singleton_eq in Hc. injection Hc as <- _. vm_compute. discriminate.
  - exists w', msg. split; [exact H|exact Hq].
Defined.

Lemma persist_open_roundtrip_witness :
  persist_export_artifact sha book false hex (sec 3) ∅ = Ok (key, ev, files) ∧
  open_verified_export_artifact sha key (artifact_sha256 ev) (artifact_size ev) files
    = Ok "PK-sheet"%string.
Proof.
  split; [vm_compute; reflexivity|].
  apply (persist_open_roundtrip sha book false hex (sec 3) ∅ key ev files).
  vm_compute. reflexivity.
Defined.
