(* ===== verification/Grile.v ===== *)
(** The pure core of the Grile domain: completion windows
    ([grile/domain/completion.py]), the monthly operation's transitions
    ([grile/domain/monthly_state.py]), provider health
    ([grile/domain/provider_health.py]) and the retry policy of Google calls
    ([grile/adapters/retry.py]). *)

From Stdlib Require Import QArith Ascii.
From S2P Require Import Prelude Text.

Local Open Scope Z_scope.

Module Grile.

(** ** Dates and months *)

Record date := Date { year : Z; month : Z; day : Z }.
#[global] Instance date_eq : EqDecision date.
Proof. solve_decision. Defined.

Definition is_leap (y : Z) : bool :=
  (y mod 4 =? 0) && (negb (y mod 100 =? 0) || (y mod 400 =? 0)).

(** [calendar.monthrange(year, month)[1]]. *)
Definition month_days (y m : Z) : Z :=
  if m =? 2 then (if is_leap y then 29 else 28)
  else if (m =? 4) || (m =? 6) || (m =? 9) || (m =? 11) then 30 else 31.

(** What Python's [date] accepts. *)
Definition valid_date (d : date) : bool :=
  (1 <=? year d) && (year d <=? 9999) && (1 <=? month d) && (month d <=? 12)
  && (1 <=? day d) && (day d <=? month_days (year d) (month d)).

Inductive grile_error := ValueError (message : string).

(** [str.split("-", 1)] unpacked into two names. *)
Fixpoint split_dash (l : list ascii) : option (list ascii * list ascii) :=
  match l with
  | [] => None
  | c :: l' =>
      if one_of "-" c then Some ([], l')
      else match split_dash l' with
           | Some (a, b) => Some (c :: a, b)
           | None => None
           end
  end.

(** [int(text)] on ASCII text: blanks around, a sign, digits with single
    underscores between them. *)
Fixpoint int_digits (acc : Z) (after_digit : bool) (l : list ascii) : option Z :=
  match l with
  | [] => if after_digit then Some acc else None
  | c :: l' =>
      if is_digit c then int_digits (10 * acc + (Z.of_nat (nat_of_ascii c) - 48)) true l'
      else if one_of "_" c && after_digit then int_digits acc false l'
      else None
  end.

Definition py_int (l : list ascii) : option Z :=
  let l := rev (lstrip (rev (lstrip l))) in
  match l with
  | c :: l' =>
      if one_of "+" c then int_digits 0 false l'
      else if one_of "-" c then Z.opp <$> int_digits 0 false l'
      else int_digits 0 false l
  | [] => None
  end.

Definition bad_month {A} : res grile_error A := Err (ValueError "month must use YYYY-MM").

Definition parse_month (text : string) : res grile_error (Z * Z) :=
  match split_dash (String.list_ascii_of_string text) with
  | None => bad_month
  | Some (year_text, month_text) =>
      match py_int year_text, py_int month_text with
      | Some y, Some m =>
          if negb (Nat.eqb (String.length text) 7) || negb (Nat.eqb (length year_text) 4)
             || negb (Nat.eqb (length month_text) 2) || negb ((1 <=? m) && (m <=? 12))
          then bad_month
          else Ok (y, m)
      | _, _ => bad_month
      end
  end.

(** [coerce_business_date]: a [datetime] counts by its date. *)
Definition coerce_business_date (today : date) (as_of : option date) : date :=
  default today as_of.

Definition month_ltb (a b : Z * Z) : bool :=
  (a.1 <? b.1) || ((a.1 =? b.1) && (a.2 <? b.2)).

Definition completed_days_for_month (run_month : string) (today : date)
    (as_of explicit_cutoff : option date) : res grile_error Z :=
  ym ← parse_month run_month;
  let current := coerce_business_date today as_of in
  let last_day := month_days ym.1 ym.2 in
  match explicit_cutoff with
  | Some cut =>
      if negb ((year cut =? ym.1) && (month cut =? ym.2))
      then Err (ValueError "completion cutoff must belong to run_month")
      else Ok (Z.min (day cut) last_day)
  | None =>
      let current_month := (year current, month current) in
      if month_ltb ym current_month then Ok last_day
      else if month_ltb current_month ym then Ok 0
      else Ok (Z.max (Z.min (day current - 1) last_day) 0)
  end.

(** ** The monthly operation *)

Inductive op_state := QUEUED | RUNNING | COMPLETED | FAILED.
Inductive op_event := CLAIM | COMPLETE | FAIL | REJECT.
#[global] Instance op_state_eq : EqDecision op_state.
Proof. solve_decision. Defined.

(** [StrEnum]: the persisted text of a state and of an event. *)
Definition state_of_text (s : string) : option op_state :=
  if String.eqb s "queued" then Some QUEUED
  else if String.eqb s "running" then Some RUNNING
  else if String.eqb s "completed" then Some COMPLETED
  else if String.eqb s "failed" then Some FAILED else None.
Definition text_of_state (s : op_state) : string :=
  match s with
  | QUEUED => "queued" | RUNNING => "running" | COMPLETED => "completed" | FAILED => "failed"
  end.
Definition event_of_text (s : string) : option op_event :=
  if String.eqb s "claim" then Some CLAIM
  else if String.eqb s "complete" then Some COMPLETE
  else if String.eqb s "fail" then Some FAIL
  else if String.eqb s "reject" then Some REJECT else None.
Definition text_of_event (e : op_event) : string :=
  match e with CLAIM => "claim" | COMPLETE => "complete" | FAIL => "fail" | REJECT => "reject" end.

(** [_ALLOWED_TRANSITIONS]. *)
Definition allowed_transition (s : op_state) (e : op_event) : option op_state :=
  match s, e with
  | QUEUED, CLAIM => Some RUNNING
  | QUEUED, REJECT => Some FAILED
  | RUNNING, COMPLETE => Some COMPLETED
  | RUNNING, FAIL => Some FAILED
  | _, _ => None
  end.

Inductive transition_error := Unknown | Invalid (s : op_state) (e : op_event).

Definition transition_monthly_operation (state event : string)
    : res transition_error (op_state * op_event * op_state) :=
  match state_of_text state, event_of_text event with
  | Some s, Some e =>
      match allowed_transition s e with
      | Some s' => Ok (s, e, s')
      | None => Err (Invalid s e)
      end
  | _, _ => Err Unknown
  end.

Inductive start_status :=
| Started | AlreadyRunning | AlreadyCompleted | AlreadyFailed | StartNotFound.

(** [operation] is the persisted row's status text, when there is a row. *)
Definition operation_start_result (operation : option string) (transition_claimed : bool)
    : start_status :=
  match operation with
  | None => StartNotFound
  | Some raw =>
      if transition_claimed then Started
      else match state_of_text raw with
           | None => AlreadyRunning
           | Some QUEUED | Some RUNNING => AlreadyRunning
           | Some COMPLETED => AlreadyCompleted
           | Some FAILED => AlreadyFailed
           end
  end.

(** [terminal_operation_status]: the result's [status] entry. *)
Definition terminal_operation_status (result_status : option string)
    : res transition_error string :=
  let event := if bool_decide (result_status = Some "success"%string) then COMPLETE else FAIL in
  t ← transition_monthly_operation (text_of_state RUNNING) (text_of_event event);
  Ok (text_of_state t.2).

(** ** Provider health *)

Inductive provider_state := Fresh | Stale | Error | UnknownState.
#[global] Instance provider_state_eq : EqDecision provider_state.
Proof. solve_decision. Defined.

(** Instants are microseconds; ages are whole seconds. *)
Definition age_seconds (value : option Z) (now : Z) : option Z :=
  (λ v, Z.max 0 (Z.quot (now - v) 1000000)) <$> value.

Definition error_is_latest (last_success last_error : option Z) : bool :=
  match last_error, last_success with
  | None, _ => false
  | Some _, None => true
  | Some e, Some s => s <=? e
  end.

Record provider_health := Health {
  health_state : provider_state;
  last_attempt_at : option Z;
  stale_age_seconds : option Z;
}.

Definition build_provider_health (run_month : string) (last_success last_error : option Z)
    (stale_after_seconds now : Z) (today : date) : res grile_error provider_health :=
  _ ← raise_if (stale_after_seconds <=? 0) (ValueError "stale_after_seconds must be positive");
  let attempt := match last_success, last_error with
                 | None, x | x, None => x
                 | Some a, Some b => Some (Z.max a b)
                 end in
  let age := age_seconds last_success now in
  st ← (if error_is_latest last_success last_error then Ok Error
        else match last_success with
             | None => Ok UnknownState
             | Some _ =>
                 ym ← parse_month run_month;
                 let is_current := (ym.1 =? year today) && (ym.2 =? month today) in
                 Ok (if is_current
                        && match age with Some a => stale_after_seconds <? a | None => false end
                     then Stale else Fresh)
             end);
  Ok (Health st attempt age).

(** ** Retries of Google calls *)

Inductive call_outcome (T : Type) :=
| Returned (v : T)
| Raised (http_status : option Z).
Arguments Returned {T} v.
Arguments Raised {T} http_status.

Inductive retry_error :=
| BadPolicy
| WorkCancelled
| CallFailed (http_status : option Z)
| Unreachable.

Definition is_transient_google_error (st : option Z) : bool :=
  match st with
  | Some c => existsb (Z.eqb c) [429; 500; 502; 503; 504]
  | None => false
  end.

Section Retry.
Context {T : Type}.
(** The environment of the call: its outcome at each attempt, the stop event
    read before an attempt and during the wait after it, the drawn jitter. *)
Context (call : nat → call_outcome T) (stop_before stop_wait : nat → bool) (jitter : nat → Q).

(** The loop from [attempt] with [left] attempts to go; returns the number of
    calls made, the delays waited and the outcome. *)
Fixpoint retry_from (attempt left : nat) (attempts : nat) (base_delay : Q)
    : nat * list Q * res retry_error T :=
  match left with
  | O => (O, [], Err Unreachable)
  | S left' =>
      if stop_before attempt then (O, [], Err WorkCancelled)
      else match call attempt with
           | Returned v => (1%nat, [], Ok v)
           | Raised st =>
               if Nat.leb (attempts - 1) attempt || negb (is_transient_google_error st)
               then (1%nat, [], Err (CallFailed st))
               else
                 let delay := (base_delay * inject_Z (2 ^ Z.of_nat attempt) + jitter attempt)%Q in
                 if stop_wait attempt then (1%nat, [delay], Err WorkCancelled)
                 else let '(n, ds, r) := retry_from (S attempt) left' attempts base_delay in
                      (S n, delay :: ds, r)
           end
  end.

Definition retry_google_call (attempts : Z) (base_delay jitter_seconds : Q)
    : nat * list Q * res retry_error T :=
  if (attempts <? 1) || negb (Qle_bool 0 base_delay) || negb (Qle_bool 0 jitter_seconds)
  then (O, [], Err BadPolicy)
  else retry_from 0 (Z.to_nat attempts) (Z.to_nat attempts) base_delay.
End Retry.

End Grile.
