(* ===== verification/GrileSpec.v ===== *)
(** Properties of the Grile domain of [Grile.v]. *)

From Stdlib Require Import QArith.
From S2P Require Import Prelude Text Grile.
Import Grile.

Local Open Scope Z_scope.

(** ** Completion windows *)

(** Days are ordered by year, month and day. *)
Definition date_ltb (a b : date) : bool :=
  month_ltb (year a, month a) (year b, month b)
  || ((year a =? year b) && (month a =? month b) && (day a <? day b)).

(** The days of a month that are over on a given day. *)
Definition days_over (y m : Z) (current : date) : list Z :=
  List.filter (λ k, date_ltb (Date y m k) current) (seqZ 1 (month_days y m)).

Lemma month_days_range y m : 28 <= month_days y m <= 31.
Proof. unfold month_days. repeat case_match; lia. Qed.

Lemma days_over_past y m c :
  month_ltb (y, m) (year c, month c) = true → length (days_over y m c) = Z.to_nat (month_days y m).
Proof.
  intros H. unfold days_over. rewrite filter_all; [by rewrite length_seqZ|].
  apply Forall_forall. intros k _. unfold date_ltb. cbn. by rewrite H.
Qed.

Lemma days_over_future y m c :
  month_ltb (year c, month c) (y, m) = true → length (days_over y m c) = O.
Proof.
  intros H. unfold days_over. rewrite filter_none; [done|]. apply Forall_forall. intros k _.
  unfold date_ltb, month_ltb in *. cbn in *. apply orb_true_iff in H.
  apply orb_false_iff. split; [apply orb_false_iff; split|].
  - destruct H as [H|H]; split_bools; apply Z.ltb_ge; lia.
  - destruct H as [H|H]; split_bools; apply andb_false_iff.
    + left. apply Z.eqb_neq. lia.
    + right. apply Z.ltb_ge. lia.
  - destruct H as [H|H]; split_bools; rewrite !andb_false_iff, !Z.eqb_neq; lia.
Qed.

Lemma filter_seqZ_lt n d : 0 <= n → length (List.filter (λ k, k <? d) (seqZ 1 n)) = Z.to_nat (Z.max (Z.min (d - 1) n) 0).
Proof.
  intros Hn. destruct (decide (d - 1 <= 0)).
  - rewrite filter_none; [rewrite Z.max_r by lia; done|].
    apply Forall_forall. intros k Hk%elem_of_seqZ. apply Z.ltb_ge. lia.
  - destruct (decide (d - 1 <= n)).
    + replace n with ((d - 1) + (n - (d - 1))) at 1 by lia.
      rewrite seqZ_app by lia. rewrite List.filter_app, length_app.
      rewrite filter_all, filter_none, length_seqZ; cbn; [lia| |].
      * apply Forall_forall. intros k Hk%elem_of_seqZ. apply Z.ltb_ge. lia.
      * apply Forall_forall. intros k Hk%elem_of_seqZ. apply Z.ltb_lt. lia.
    + rewrite filter_all, length_seqZ; [lia|].
      apply Forall_forall. intros k Hk%elem_of_seqZ. apply Z.ltb_lt. lia.
Qed.

(** Without a cutoff, the completion window of a month counts exactly its
    days that are over on the reference day: all of a past month, none of a
    future one, those before today in the current one. *)
Theorem completed_days_counts text today as_of n :
  completed_days_for_month text today as_of None = Ok n →
  ∃ y m, parse_month text = Ok (y, m) ∧
    n = Z.of_nat (length (days_over y m (coerce_business_date today as_of))) ∧
    0 <= n <= month_days y m.
Proof.
  unfold completed_days_for_month. intros H. inv_res. destruct v as [y m]. cbn in H.
  exists y, m. split; [done|]. set (c := coerce_business_date today as_of) in *.
  pose proof (month_days_range y m).
  destruct (month_ltb (y, m) (year c, month c)) eqn:Hp; inv_res; simplify_eq.
  - rewrite days_over_past by done. lia.
  - destruct (month_ltb (year c, month c) (y, m)) eqn:Hf; inv_res; simplify_eq.
    + rewrite days_over_future by done. lia.
    + assert (Hc : year c = y ∧ month c = m).
      { unfold month_ltb in *. cbn in *. rewrite orb_false_iff, andb_false_iff in Hp, Hf.
        rewrite !Z.ltb_ge, !Z.eqb_neq in Hp, Hf. lia. }
      destruct Hc as [<- <-]. unfold days_over.
      rewrite (List.filter_ext _ (λ k, k <? day c)).
      * rewrite filter_seqZ_lt by lia. lia.
      * intros k. unfold date_ltb. cbn. by rewrite Hp, !Z.eqb_refl.
Qed.

Lemma completed_days_counts_witness :
  completed_days_for_month "2024-02" (Date 2024 2 29) None None = Ok 28 ∧ 0 <= 28 <= 29.
Proof.
  split; [vm_compute; reflexivity|].
  destruct (completed_days_counts "2024-02" (Date 2024 2 29) None 28) as (y & m & Hp & _ & H);
    [vm_compute; reflexivity|].
  vm_compute in Hp. injection Hp as <- <-. exact H.
Defined.

(** ** The monthly operation's lifecycle *)

#[local] Arguments transition_monthly_operation : simpl never.

(** The persisted status after a sequence of events. *)
Definition run_events (s : string) (es : list string) : res transition_error string :=
  foldR (λ s e, t ← transition_monthly_operation s e; Ok (text_of_state t.2)) s es.

Lemma state_text_inv s x : state_of_text s = Some x → s = text_of_state x.
Proof.
  unfold state_of_text. intros H.
  repeat (case_match; [simplify_eq; by apply String.eqb_eq|]). done.
Qed.

Lemma event_text_inv s x : event_of_text s = Some x → s = text_of_event x.
Proof.
  unfold event_of_text. intros H.
  repeat (case_match; [simplify_eq; by apply String.eqb_eq|]). done.
Qed.

Lemma transition_Ok s e t :
  transition_monthly_operation s e = Ok t →
  ∃ x ev y, s = text_of_state x ∧ e = text_of_event ev ∧ allowed_transition x ev = Some y ∧
            t = (x, ev, y).
Proof.
  unfold transition_monthly_operation. intros H.
  destruct (state_of_text s) as [x|] eqn:Hs; [|done].
  destruct (event_of_text e) as [ev|] eqn:He; [|done].
  destruct (allowed_transition x ev) as [y|] eqn:Ha; [|done].
  apply state_text_inv in Hs. apply event_text_inv in He. simplify_eq. by exists x, ev, y.
Qed.

Lemma run_terminal s es t :
  s = "completed"%string ∨ s = "failed"%string → run_events s es = Ok t → es = [] ∧ t = s.
Proof.
  intros Hs. destruct es as [|e es]; cbn; [by intros [= <-]|].
  intros H. inv_res. apply transition_Ok in Hv0 as (x & ev & y & Hx & _ & Ha & _).
  destruct Hs as [-> | ->]; destruct x; done.
Qed.

Lemma run_running es t :
  run_events "running" es = Ok t →
  (es = [] ∧ t = "running"%string) ∨ (es = ["complete"%string] ∧ t = "completed"%string) ∨
  (es = ["fail"%string] ∧ t = "failed"%string).
Proof.
  destruct es as [|e es]; cbn; [intros [= <-]; by left|].
  intros H. inv_res. apply transition_Ok in Hv0 as (x & ev & y & Hx & -> & Ha & ->).
  destruct x; try done. cbn in H. destruct ev; try done; cbn in Ha; simplify_eq; cbn in H;
    apply run_terminal in H as [-> ->]; auto.
Qed.

(** The only histories of a monthly operation are: still queued; rejected;
    claimed and running; claimed and completed; claimed and failed.  Nothing
    follows a completed or failed operation. *)
Theorem monthly_lifecycle es t :
  run_events "queued" es = Ok t →
  (es, t) ∈ [([], "queued"); (["reject"], "failed"); (["claim"], "running");
             (["claim"; "complete"], "completed"); (["claim"; "fail"], "failed")]%string.
Proof.
  destruct es as [|e es]; cbn; [intros [= <-]; by left|].
  intros H. inv_res. apply transition_Ok in Hv0 as (x & ev & y & Hx & -> & Ha & ->).
  destruct x; try done. cbn in H. destruct ev; try done; cbn in Ha; simplify_eq; cbn in H.
  - apply run_running in H as [[-> ->]|[[-> ->]|[-> ->]]]; cbn; set_solver.
  - apply run_terminal in H as [-> ->]; [cbn; set_solver|by right].
Qed.

Lemma monthly_lifecycle_witness :
  run_events "queued" ["claim"; "fail"]%string = Ok "failed"%string ∧
  (["claim"; "fail"], "failed")%string ∈
    [([], "queued"); (["reject"], "failed"); (["claim"], "running");
     (["claim"; "complete"], "completed"); (["claim"; "fail"], "failed")]%string.
Proof. split; [vm_compute; reflexivity|apply monthly_lifecycle; vm_compute; reflexivity]. Defined.

(** ** Retries *)

Section Retry.
Context {T : Type} (call : nat → call_outcome T) (stop_before stop_wait : nat → bool).
Context (jitter : nat → Q).

Definition transient_failure (k : nat) : Prop :=
  ∃ st, call k = Raised st ∧ is_transient_google_error st = true.

(** The run of the loop from attempt [k]. *)
Record retry_run (k attempts : nat) (base : Q) (n : nat) (ds : list Q) (r : res retry_error T)
    : Prop := {
  rr_count : (k + n <= attempts)%nat;
  rr_before i : (k <= i)%nat → (S i < k + n)%nat → transient_failure i;
  rr_delays i d : ds !! i = Some d → (d == base * inject_Z (2 ^ Z.of_nat (k + i)) + jitter (k + i))%Q;
  rr_waits : (length ds = n ∨ S (length ds) = n)%nat;
  rr_result : match r with
    | Ok v => (1 <= n)%nat ∧ call (k + n - 1)%nat = Returned v
    | Err (CallFailed st) => (1 <= n)%nat ∧ call (k + n - 1)%nat = Raised st ∧
        ((k + n)%nat = attempts ∨ is_transient_google_error st = false)
    | Err WorkCancelled => ∃ i, stop_before i = true ∨ stop_wait i = true
    | Err _ => False
    end;
}.

Lemma retry_from_run k left attempts base n ds r :
  (k + left = attempts)%nat → (1 <= left)%nat →
  retry_from call stop_before stop_wait jitter k left attempts base = (n, ds, r) →
  retry_run k attempts base n ds r.
Proof.
  revert k n ds r. induction left as [|left IH]; intros k n ds r Hk Hl; [lia|]. cbn [retry_from].
  destruct (stop_before k) eqn:Hstop.
  { intros [= <- <- <-]. split; [lia|lia|done|by left|]. exists k. by left. }
  destruct (call k) as [v|st] eqn:Hc.
  { intros [= <- <- <-]. split; [lia|lia|done|by right|]. split; [lia|].
    by replace (k + 1 - 1)%nat with k by lia. }
  destruct (Nat.leb (attempts - 1) k || negb (is_transient_google_error st)) eqn:Hend.
  { intros [= <- <- <-]. split; [lia|lia|done|by right|]. split; [lia|].
    replace (k + 1 - 1)%nat with k by lia. split; [done|].
    apply orb_true_iff in Hend as [He%Nat.leb_le|He%negb_true_iff]; [left; lia|by right]. }
  apply orb_false_iff in Hend as [Hlast%Nat.leb_gt Htr%negb_false_iff].
  destruct (stop_wait k) eqn:Hw.
  { intros [= <- <- <-]. split; [lia|lia| |by left|by exists k; right].
    intros [|i] d; [|done]. intros [= <-]. rewrite Nat.add_0_r. reflexivity. }
  destruct (retry_from _ _ _ _ (S k) left attempts base) as [[n' ds'] r'] eqn:Hrec.
  intros [= <- <- <-]. apply IH in Hrec as [R1 R2 R3 R4 R5]; [|lia..].
  split; [lia| | |cbn; lia|].
  - intros i Hi Hn. destruct (decide (i = k)) as [->|Hne]; [by exists st|].
    apply R2; lia.
  - intros [|i] d; cbn; [intros [= <-]; rewrite Nat.add_0_r; reflexivity|].
    intros Hi%R3. by rewrite Nat.add_succ_r.
  - replace (k + S n' - 1)%nat with (S k + n' - 1)%nat by lia.
    replace (k + S n')%nat with (S k + n')%nat by lia.
    destruct r' as [v|[]]; naive_solver lia.
Qed.

(** Under a valid policy a retried call is made at most [attempts] times, is
    repeated only after a transient failure, waits exactly the doubled base
    delay plus jitter after the k-th failure, and ends with the value of the
    last call, with its failure when the attempts are used up or the failure is
    not transient, or because the stop event was set: it never falls through. *)
Theorem retry_google_call_bounded attempts base jitter_seconds n ds r :
  1 <= attempts → (0 <= base)%Q → (0 <= jitter_seconds)%Q →
  retry_google_call call stop_before stop_wait jitter attempts base jitter_seconds = (n, ds, r) →
  retry_run 0 (Z.to_nat attempts) base n ds r.
Proof.
  intros Ha Hb Hj. unfold retry_google_call.
  replace (attempts <? 1) with false by lia.
  apply Qle_bool_iff in Hb, Hj. rewrite Hb, Hj. cbn.
  intros H. eapply retry_from_run; [done| |done]. lia.
Qed.
End Retry.

(** Two transient failures, then a value. *)
Definition flaky (k : nat) : call_outcome Z :=
  match k with
  | O => Raised (Some 503)
  | 1%nat => Raised (Some 429)
  | _ => Returned 7
  end.

Lemma retry_google_call_bounded_witness :
  let out := retry_google_call flaky (λ _, false) (λ _, false) (λ _, 0%Q) 5 1%Q 0%Q in
  out.1.1 = 3%nat ∧ out.2 = Ok 7 ∧
  retry_run flaky (λ _, false) (λ _, false) (λ _, 0%Q) 0 5 1%Q out.1.1 out.1.2 out.2.
Proof.
  split; [vm_compute; reflexivity|]. split; [vm_compute; reflexivity|].
  apply (retry_google_call_bounded flaky (λ _, false) (λ _, false) (λ _, 0%Q) 5 1%Q 0%Q).
  - lia.
  - discriminate.
  - discriminate.
  - vm_compute. reflexivity.
Defined.
