(* ===== verification/GrileMonthly.v ===== *)
(** The monthly closeout of Grile: operations, manifests and per-store reset
    checkpoints ([repositories/grile_monthly_*.py] over the tables of migrations
    012, 028 and 044).

    A call is one transaction; [now] is its clock.  Identifiers come from the
    tables' sequences.  A JSON column is its text; of a JSON argument the model
    keeps the entries the code reads. *)

From Stdlib Require Import Ascii.
From S2P Require Import Prelude Text Table Grile.
Import Grile.

Local Open Scope Z_scope.

Module Monthly.

(** ** Rows *)

(** The columns of an operation that no statement updates. *)
Record op_request := OpRequest {
  op : string;
  op_month : string;
  only_filter : option string;
  dry_run : bool;
  op_requested_by : option string;
  approved_manifest_id : option Z;
  op_created_at : Z;
}.

Inductive classification := SafeRetry | RolledBack | RecoveryRequired.
#[global] Instance classification_eq : EqDecision classification.
Proof. solve_decision. Defined.

Record operation := Operation {
  op_req : op_request;
  op_stat : op_state;
  job_id : option string;
  op_result : option string;
  op_error : option string;
  op_started_at : option Z;
  heartbeat_at : option Z;
  op_finished_at : option Z;
  execution_owner : option string;
  execution_epoch : Z;
  execution_lease_until : option Z;
  reconciliation : option classification;
  op_reconciled_at : option Z;
  alerted_at : option Z;
}.

Inductive manifest_status :=
| Building | MFailed | Verified | Approved | Consumed | MRolledBack | MUncertain.
#[global] Instance manifest_status_eq : EqDecision manifest_status.
Proof. solve_decision. Defined.

Definition manifest_status_of_text (s : string) : option manifest_status :=
  if String.eqb s "building" then Some Building
  else if String.eqb s "failed" then Some MFailed
  else if String.eqb s "verified" then Some Verified
  else if String.eqb s "approved" then Some Approved
  else if String.eqb s "consumed" then Some Consumed
  else if String.eqb s "rolled_back" then Some MRolledBack
  else if String.eqb s "uncertain" then Some MUncertain
  else None.

Record manifest_request := ManifestRequest {
  man_operation_id : Z;
  man_month : string;
  man_operation : string;
  man_requested_by : string;
  man_created_at : Z;
}.

Record totals := Totals {
  expected_store_count : Z;
  processed_store_count : Z;
  expected_agent_count : Z;
  processed_agent_count : Z;
  error_count : Z;
  control_totals : string;
  artifacts : string;
  source_backups : string;
}.

Record manifest := Manifest {
  man_req : manifest_request;
  man_stat : manifest_status;
  man_totals : totals;
  man_body : string;
  manifest_sha256 : option string;
  approved_by_sub : option string;
  approved_at : option Z;
  man_error_code : option string;
  man_verified_at : option Z;
  consumed_at : option Z;
  man_updated_at : Z;
}.

Inductive item_status := Pending | IRunning | ICompleted | IError | Uncertain | Skipped.
Inductive checkpoint_phase :=
| LegacyUnknown | SnapshotPersisted | ClearIntent | ClearVerified
| RollbackIntent | RollbackVerified | PhaseRecoveryRequired.
Inductive rollback := Restored | RollbackFailed.
#[global] Instance item_status_eq : EqDecision item_status.
Proof. solve_decision. Defined.
#[global] Instance checkpoint_phase_eq : EqDecision checkpoint_phase.
Proof. solve_decision. Defined.
#[global] Instance rollback_eq : EqDecision rollback.
Proof. solve_decision. Defined.

(** [ResetItemInput]; [ranges] is the JSON text of its list. *)
Record item_input := ItemInput {
  in_site : string; in_sheet : string; in_company : string; in_store : string; in_ranges : string
}.

Record item_request := ItemRequest {
  it_operation_id : Z;
  it_month : string;
  it_next_month : string;
  site : item_input;
  it_created_at : Z;
}.

Record item := Item {
  it_req : item_request;
  it_stat : item_status;
  it_error : option string;
  it_started_at : option Z;
  it_completed_at : option Z;
  backup_path : option string;
  backup_sha256 : option string;
  rollback_status : option rollback;
  restored_at : option Z;
  phase : checkpoint_phase;
  fence_epoch : Z;
  destructive_intent_at : option Z;
  it_verified_at : option Z;
  it_reconciled_at : option Z;
  recovery_code : option string;
  it_updated_at : Z;
}.

Record db := Db {
  ops : gmap Z operation;
  mans : gmap Z manifest;
  items : gmap Z item;
  next_op : Z;
  next_man : Z;
  next_item : Z;
}.

Definition empty_db : db := Db ∅ ∅ ∅ 1 1 1.

Definition set_ops (t : gmap Z operation) (d : db) : db :=
  Db t (mans d) (items d) (next_op d) (next_man d) (next_item d).
Definition set_mans (t : gmap Z manifest) (d : db) : db :=
  Db (ops d) t (items d) (next_op d) (next_man d) (next_item d).
Definition set_items (t : gmap Z item) (d : db) : db :=
  Db (ops d) (mans d) t (next_op d) (next_man d) (next_item d).

Inductive monthly_error :=
| ValueErr (message : string)
| CheckViolation
| UniqueViolation
| NotNullViolation
| RuntimeErr (message : string).

(** ** Constraints *)

Definition second : Z := 1000000.
Definition EXECUTION_LEASE_SECONDS : Z := 300.

(** [btrim(x)]: spaces only. *)
Fixpoint ltrim (l : list ascii) : list ascii :=
  match l with
  | [] => []
  | c :: l' => if Ascii.eqb c " " then ltrim l' else l
  end.
Definition btrim (s : string) : list ascii :=
  rev (ltrim (rev (ltrim (String.list_ascii_of_string s)))).

(** [char_length(btrim(x)) BETWEEN 1 AND 256]. *)
Definition subject_check (s : string) : bool :=
  Nat.leb 1 (length (btrim s)) && Nat.leb (length (btrim s)) 256.

(** [^[0-9]{4}-(0[1-9]|1[0-2])$] *)
Definition month_check (s : string) : bool :=
  match take_run is_digit 4 (String.list_ascii_of_string s) with
  | Some [dash; a; b] =>
      one_of "-" dash
      && ((one_of "0" a && one_of "123456789" b) || (one_of "1" a && one_of "012" b))
  | _ => false
  end.

Definition sha256_check : string → bool := run_match is_hex 64 64.

Definition known_op (s : string) : bool :=
  existsb (String.eqb s) ["finalize"; "archive"; "reset"]%string.

Definition op_check (o : operation) : bool :=
  known_op (op (op_req o))
  && match op_requested_by (op_req o) with Some s => subject_check s | None => true end
  && (0 <=? execution_epoch o).

(** An [INTEGER CHECK (n >= 0)] column. *)
Definition count_check (n : Z) : bool := (0 <=? n) && (n <=? 2 ^ 31 - 1).

Definition manifest_check (m : manifest) : bool :=
  month_check (man_month (man_req m)) && known_op (man_operation (man_req m))
  && subject_check (man_requested_by (man_req m))
  && count_check (expected_store_count (man_totals m))
  && count_check (processed_store_count (man_totals m))
  && count_check (expected_agent_count (man_totals m))
  && count_check (processed_agent_count (man_totals m))
  && count_check (error_count (man_totals m))
  && match manifest_sha256 m with Some h => sha256_check h | None => true end
  && match approved_by_sub m, approved_at m with
     | None, None => true
     | Some s, Some _ => subject_check s
     | _, _ => false
     end.

Definition item_check (i : item) : bool :=
  match backup_sha256 i with Some h => sha256_check h | None => true end
  && (0 <=? fence_epoch i).

(** The partial unique indexes on operations. *)
Definition is_active (o : operation) : bool :=
  bool_decide (op_stat o = QUEUED) || bool_decide (op_stat o = RUNNING).
Definition is_live_reset (o : operation) : bool :=
  String.eqb (op (op_req o)) "reset" && negb (dry_run (op_req o)).
Definition live_completed (o : operation) : bool :=
  is_live_reset o && bool_decide (op_stat o = COMPLETED).
Definition month_of (o : operation) : string := op_month (op_req o).
(** [COALESCE(only_filter, '')]. *)
Definition filter_of (o : operation) : string := default ""%string (only_filter (op_req o)).

Definition index_conflict (o o' : operation) : bool :=
  bool_decide (month_of o = month_of o')
  && ((is_active o && is_active o')
      || (live_completed o && live_completed o' && bool_decide (filter_of o = filter_of o'))).

Definition unique_ops (i : Z) (o : operation) (t : gmap Z operation) : bool :=
  negb (existsb (λ jo, negb (bool_decide (jo.1 = i)) && index_conflict o jo.2) (map_to_list t)).

(** ** Statements *)

(** [UPDATE grile_monthly_operations SET f WHERE id = i AND p RETURNING id]. *)
Definition update_op (i : Z) (p : operation → bool) (f : operation → operation) (d : db)
    : res monthly_error (bool * db) :=
  match ops d !! i with
  | Some o =>
      if p o then
        _ ← raise_if (negb (op_check (f o))) CheckViolation;
        _ ← raise_if (negb (unique_ops i (f o) (ops d))) UniqueViolation;
        Ok (true, set_ops (<[i := f o]> (ops d)) d)
      else Ok (false, d)
  | None => Ok (false, d)
  end.

(** [UPDATE grile_monthly_reset_items SET f WHERE p RETURNING *]: the keys. *)
Definition update_items (p : item → bool) (f : item → item) (d : db)
    : res monthly_error (list Z * db) :=
  let ks := select_keys p (items d) in
  t ← update_keys (λ _ _, true) item_check CheckViolation CheckViolation ks f (items d);
  Ok (ks, set_items t d).

(** [UPDATE grile_monthly_manifests SET f WHERE p RETURNING *]: the keys. *)
Definition update_mans (p : Z → manifest → bool) (f : manifest → manifest) (d : db)
    : res monthly_error (list Z * db) :=
  let ks := fst <$> List.filter (λ km, p km.1 km.2) (map_to_list (mans d)) in
  t ← update_keys (λ _ _, true) manifest_check CheckViolation CheckViolation ks f (mans d);
  Ok (ks, set_mans t d).

(** The fence of an execution: owner, epoch and a lease still running. *)
Definition holds_lease (now : Z) (owner : string) (epoch : Z) (o : operation) : bool :=
  bool_decide (execution_owner o = Some owner) && (execution_epoch o =? epoch)
  && match execution_lease_until o with Some u => now <? u | None => false end.
Definition runs_lease (now : Z) (owner : string) (epoch : Z) (o : operation) : bool :=
  bool_decide (op_stat o = RUNNING) && holds_lease now owner epoch o.

(** [EXISTS (SELECT 1 FROM grile_monthly_operations WHERE id = i AND p)]. *)
Definition op_exists (i : Z) (p : operation → bool) (d : db) : bool :=
  match ops d !! i with Some o => p o | None => false end.

Definition set_op_stat (s : op_state) (error : option string) (now : Z) (o : operation) : operation :=
  Operation (op_req o) s (job_id o) (op_result o) error (op_started_at o) (Some now) (Some now)
    (execution_owner o) (execution_epoch o) (execution_lease_until o) (reconciliation o)
    (op_reconciled_at o) (alerted_at o).

(** ** Lifecycle ([grile_monthly_lifecycle.py]) *)

(** The operation names its requester and has a building manifest of the same
    requester. *)
Definition authorised (d : db) (i : Z) (o : operation) : bool :=
  match op_requested_by (op_req o) with
  | Some s =>
      negb (bool_decide (btrim s = []))
      && existsb (λ km, (man_operation_id (man_req km.2) =? i)
                        && bool_decide (man_stat km.2 = Building)
                        && String.eqb (man_requested_by (man_req km.2)) s) (map_to_list (mans d))
  | None => false
  end.

Definition or_else {A} (x : option A) (y : A) : option A :=
  match x with Some _ => x | None => Some y end.

Definition start_set (now : Z) (owner : string) (lease_seconds : Z) (o : operation) : operation :=
  Operation (op_req o) RUNNING (job_id o) (op_result o) (op_error o)
    (or_else (op_started_at o) now) (Some now) (op_finished_at o)
    (Some owner) (execution_epoch o + 1) (Some (now + lease_seconds * second))
    None None (alerted_at o).

Definition LEGACY_IDENTITY : string := "legacy_operation_missing_identity_or_manifest".

(** [fresh] is the identifier drawn when no owner is given. *)
Definition start (now : Z) (i : Z) (execution_owner : option string) (fresh : string)
    (lease_seconds : Z) (d : db) : res monthly_error (start_status * db) :=
  let owner := match execution_owner with
               | Some w => if bool_decide (w = ""%string) then fresh else w
               | None => fresh
               end in
  _ ← raise_if (bool_decide (strip owner = ""%string)) (ValueErr "execution_owner is required");
  '(started, d1) ← update_op i (λ o, bool_decide (op_stat o = QUEUED) && authorised d i o)
                     (start_set now owner lease_seconds) d;
  if (started : bool) then
    Ok (operation_start_result (text_of_state ∘ op_stat <$> ops d1 !! i) true, d1)
  else
    '(_, d2) ← update_op i (λ o, bool_decide (op_stat o = QUEUED) && negb (authorised d1 i o))
                 (set_op_stat FAILED (Some LEGACY_IDENTITY) now) d1;
    Ok (operation_start_result (text_of_state ∘ op_stat <$> ops d2 !! i) false, d2).

Definition heartbeat (now : Z) (i : Z) (owner : string) (epoch lease_seconds : Z) (d : db)
    : res monthly_error (bool * db) :=
  update_op i (runs_lease now owner epoch)
    (λ o, Operation (op_req o) (op_stat o) (job_id o) (op_result o) (op_error o)
            (op_started_at o) (Some now) (op_finished_at o) (execution_owner o)
            (execution_epoch o) (Some (now + lease_seconds * second)) (reconciliation o)
            (op_reconciled_at o) (alerted_at o)) d.

(** A result dictionary: its [status] entry and its JSON text. *)
Record op_outcome := OpOutcome { out_status : option string; out_json : string }.

Definition finish_set (s : op_state) (result : op_outcome) (error : option string) (now : Z)
    (o : operation) : operation :=
  Operation (op_req o) s (job_id o) (Some (out_json result)) error (op_started_at o) (Some now)
    (Some now) (execution_owner o) (execution_epoch o) (execution_lease_until o)
    (reconciliation o) (op_reconciled_at o) (alerted_at o).

(** [terminal_operation_status(result)] as a state of the column. *)
Definition terminal_state (result : op_outcome) : res monthly_error op_state :=
  match terminal_operation_status (out_status result) with
  | Ok t => match state_of_text t with Some s => Ok s | None => Err CheckViolation end
  | Err _ => Err (ValueErr "invalid transition")
  end.

Definition finish (now : Z) (i : Z) (result : op_outcome) (error : option string)
    (owner : string) (epoch : Z) (d : db) : res monthly_error (bool * db) :=
  s ← terminal_state result;
  update_op i (runs_lease now owner epoch) (finish_set s result error now) d.

(** A manifest dictionary: the entries the statements store. *)
Record manifest_doc := ManifestDoc {
  doc_status : option string;
  doc_totals : totals;
  doc_json : string;
  doc_sha256 : option string;
}.

Definition publish_set (s : manifest_status) (doc : manifest_doc) (code : option string)
    (verified : option Z) (now : Z) (m : manifest) : manifest :=
  Manifest (man_req m) s (doc_totals doc) (doc_json doc) (doc_sha256 doc) (approved_by_sub m)
    (approved_at m) code verified (consumed_at m) now.

(** The status column accepts a known status only. *)
Definition status_column (s : option string) : res monthly_error manifest_status :=
  match s with
  | None => Err NotNullViolation
  | Some t => match manifest_status_of_text t with Some x => Ok x | None => Err CheckViolation end
  end.

(** [UPDATE grile_monthly_manifests SET … WHERE p RETURNING …]: the assigned
    status is only read when a row matches. *)
Definition publish (p : Z → manifest → bool) (status : option string)
    (f : manifest_status → manifest → manifest) (d : db) : res monthly_error (list Z * db) :=
  if existsb (λ km, p km.1 km.2) (map_to_list (mans d)) then
    s ← status_column status;
    update_mans p (f s) d
  else Ok ([], d).

Definition consume_set (doc : manifest_doc) (now : Z) (m : manifest) : manifest :=
  Manifest (man_req m) Consumed (man_totals m) (doc_json doc) (doc_sha256 doc)
    (approved_by_sub m) (approved_at m) (man_error_code m) (man_verified_at m) (Some now) now.

Definition finish_reset_success (now : Z) (i : Z) (result : op_outcome) (reset_doc : manifest_doc)
    (manifest_id : Z) (expected_sha256 : string) (consumed_doc : manifest_doc)
    (owner : string) (epoch : Z) (d : db) : res monthly_error (option manifest * db) :=
  '(published, d1) ← publish
    (λ _ m, (man_operation_id (man_req m) =? i) && String.eqb (man_operation (man_req m)) "reset"
            && bool_decide (man_stat m = Building)
            && op_exists i (runs_lease now owner epoch) d)
    (doc_status reset_doc) (λ s, publish_set s reset_doc None (Some now) now) d;
  _ ← raise_if (bool_decide (length (published : list Z) = 0%nat))
        (RuntimeErr "Reset manifest lost its building lease");
  '(completed, d2) ← update_op i
    (λ o, is_live_reset o && runs_lease now owner epoch o
          && bool_decide (approved_manifest_id (op_req o) = Some manifest_id))
    (finish_set COMPLETED result None now) d1;
  _ ← raise_if (negb completed) (RuntimeErr "Reset operation lost its completion lease");
  '(consumed, d3) ← update_mans
    (λ k m, (k =? manifest_id) && bool_decide (man_stat m = Approved)
            && bool_decide (manifest_sha256 m = Some expected_sha256)
            && match ops d2 !! i with
               | Some o => String.eqb (man_month (man_req m)) (month_of o)
               | None => false
               end)
    (consume_set consumed_doc now) d2;
  _ ← raise_if (bool_decide (length (consumed : list Z) = 0%nat))
        (RuntimeErr "Approved manifest lost its consumption lease");
  Ok (head published ≫= λ k, mans d1 !! k, d3).

Definition fail (now : Z) (i : Z) (error : string) (owner : string) (epoch : Z) (d : db)
    : res monthly_error (bool * db) :=
  update_op i (runs_lease now owner epoch) (set_op_stat FAILED (Some error) now) d.

Definition fail_queued (now : Z) (i : Z) (error : string) (d : db)
    : res monthly_error (bool * db) :=
  update_op i (λ o, bool_decide (op_stat o = QUEUED) && bool_decide (execution_owner o = None)
                    && (execution_epoch o =? 0))
    (set_op_stat FAILED (Some error) now) d.

(** The columns of an item that the statements change together. *)
Definition item_with (s : item_status) (ph : checkpoint_phase) (error code : option string)
    (now : Z) (i : item) : item :=
  Item (it_req i) s error (it_started_at i) (it_completed_at i) (backup_path i) (backup_sha256 i)
    (rollback_status i) (restored_at i) ph (fence_epoch i) (destructive_intent_at i)
    (it_verified_at i) (it_reconciled_at i) code now.

Definition with_rollback (r : option rollback) (restored reconciled : option Z) (i : item) : item :=
  Item (it_req i) (it_stat i) (it_error i) (it_started_at i) (it_completed_at i) (backup_path i)
    (backup_sha256 i) r restored (phase i) (fence_epoch i) (destructive_intent_at i)
    (it_verified_at i) reconciled (recovery_code i) (it_updated_at i).

Definition RECOVERY_REQUIRED : string := "recovery_required".

(** [CASE WHEN rollback_status = 'restored' THEN rollback_status ELSE 'failed' END]. *)
Definition failed_unless_restored (r : option rollback) : option rollback :=
  if bool_decide (r = Some Restored) then r else Some RollbackFailed.

Definition cancel_item (error : string) (now : Z) (i : item) : item :=
  with_rollback (failed_unless_restored (rollback_status i)) (restored_at i) (it_reconciled_at i)
    (item_with Uncertain
       (match phase i with
        | ClearIntent | ClearVerified | RollbackIntent => PhaseRecoveryRequired
        | ph => ph
        end) (or_else (it_error i) error) (Some RECOVERY_REQUIRED) now i).

Definition in_status (ss : list item_status) (i : item) : bool := bool_decide (it_stat i ∈ ss).

Definition mark_cancelled_uncertain (now : Z) (i : Z) (error : string) (owner : string) (epoch : Z)
    (d : db) : res monthly_error (bool * db) :=
  '(_, d1) ← update_items
    (λ t, (it_operation_id (it_req t) =? i) && op_exists i (holds_lease now owner epoch) d
          && in_status [IRunning; ICompleted] t
          && negb (bool_decide (rollback_status t = Some Restored)))
    (cancel_item error now) d;
  update_op i (λ o, is_active o && holds_lease now owner epoch o)
    (set_op_stat FAILED (Some error) now) d1.

(** The operation, its owner, epoch and lease end. *)
Definition get_execution_lease (now : Z) (i : Z) (owner : string) (d : db)
    : option (Z * string * Z * Z) :=
  match ops d !! i with
  | Some o =>
      match execution_lease_until o with
      | Some u =>
          if bool_decide (op_stat o = RUNNING) && bool_decide (execution_owner o = Some owner)
             && (now <? u)
          then Some (i, owner, execution_epoch o, u) else None
      | None => None
      end
  | None => None
  end.

(** ** Reservations ([grile_monthly_reservations.py]) *)

Inductive blocked_reason :=
| NeedsManifest
| ManifestNotApproved
| UncertainCheckpoint
| PartialEffect.

Inductive reserve_outcome :=
| Enqueued (operation_id : Z)
| AlreadyActive (operation_id : Z) (job : option string)
| AlreadyDone (operation_id : Z) (job : option string)
| Blocked (why : blocked_reason).

Definition stale_after : Z := 2 * 3600 * second.

Definition is_stale (now : Z) (o : operation) : bool :=
  bool_decide (op_stat o = RUNNING)
  && match execution_lease_until o with
     | Some u => u <=? now
     | None => match heartbeat_at o with Some h => h <? now - stale_after | None => false end
     end.

Definition STALE_RECOVERY : string := "stale_operation_recovery_required".

Definition fence_item (now : Z) (i : item) : item :=
  with_rollback (failed_unless_restored (rollback_status i)) (restored_at i) (it_reconciled_at i)
    (item_with Uncertain PhaseRecoveryRequired (or_else (it_error i) STALE_RECOVERY)
       (Some RECOVERY_REQUIRED) now i).

Definition fence_set (now : Z) (o : operation) : operation :=
  Operation (op_req o) FAILED (job_id o) (op_result o) (Some STALE_RECOVERY) (op_started_at o)
    (Some now) (Some now) (execution_owner o) (execution_epoch o) None
    (Some RecoveryRequired) (Some now) (alerted_at o).

(** [ORDER BY … LIMIT 1]: newest first. *)
Definition newest_leb : Z * operation → Z * operation → bool :=
  leb_on (λ jo, - op_created_at (op_req jo.2)) Z.leb.

Definition newest (p : operation → bool) (d : db) : option Z :=
  fst <$> head (sorted_by newest_leb (List.filter (λ jo, p jo.2) (map_to_list (ops d)))).

Definition fence_stale_operation (now : Z) (m : string) (d : db) : res monthly_error db :=
  match newest (λ o, String.eqb (month_of o) m && is_stale now o) d with
  | None => Ok d
  | Some i =>
      '(_, d1) ← update_items
        (λ t, (it_operation_id (it_req t) =? i) && in_status [IRunning; ICompleted; Uncertain] t
              && negb (bool_decide (rollback_status t = Some Restored)))
        (fence_item now) d;
      '(_, d2) ← update_op i (λ o, bool_decide (op_stat o = RUNNING)) (fence_set now) d1;
      Ok d2
  end.

Definition job_of (d : db) (i : Z) : option string := ops d !! i ≫= job_id.

Definition active_reservation (m : string) (d : db) : option reserve_outcome :=
  (λ i, AlreadyActive i (job_of d i)) <$>
    newest (λ o, String.eqb (month_of o) m && is_active o) d.

(** [ORDER BY finished_at DESC NULLS LAST, created_at DESC]. *)
Definition finished_leb : Z * operation → Z * operation → bool :=
  lex_leb (cmp_on (λ jo, bool_decide (op_finished_at jo.2 = None))
             (λ a b : bool, Z.compare (Z.b2z a) (Z.b2z b)))
    (lex_leb (cmp_on (λ jo, - default 0 (op_finished_at jo.2)) Z.compare) newest_leb).

Definition completed_live (m filter_key : string) (d : db) : option Z :=
  fst <$> head (sorted_by finished_leb
    (List.filter (λ jo, String.eqb (month_of jo.2) m && live_completed jo.2
                        && String.eqb (filter_of jo.2) filter_key) (map_to_list (ops d)))).

Definition clean (m : manifest) : bool :=
  (error_count (man_totals m) =? 0)
  && (processed_store_count (man_totals m) =? expected_store_count (man_totals m))
  && (processed_agent_count (man_totals m) =? expected_agent_count (man_totals m)).

Definition approved_for (month : string) (m : manifest) : bool :=
  String.eqb (man_month (man_req m)) month && String.eqb (man_operation (man_req m)) "archive"
  && bool_decide (man_stat m = Approved) && clean m.

Definition approved_manifest_error (month : string) (manifest_id : option Z) (d : db)
    : option blocked_reason :=
  match manifest_id with
  | None => Some NeedsManifest
  | Some k =>
      match mans d !! k with
      | Some m => if approved_for month m then None else Some ManifestNotApproved
      | None => Some ManifestNotApproved
      end
  end.

(** A checkpoint whose effect on the sheet is not known. *)
Definition blocking (t : item) : bool :=
  bool_decide (it_stat t = Uncertain) || bool_decide (rollback_status t = Some RollbackFailed)
  || bool_decide (phase t = LegacyUnknown)
  || bool_decide (recovery_code t = Some RECOVERY_REQUIRED).

Definition any_item (p : item → bool) (d : db) : bool :=
  existsb (λ kt, p kt.2) (map_to_list (items d)).

Definition partial_effect (month : string) (d : db) (t : item) : bool :=
  String.eqb (it_month (it_req t)) month && bool_decide (it_stat t = ICompleted)
  && op_exists (it_operation_id (it_req t)) (λ o, negb (bool_decide (op_stat o = COMPLETED))) d.

(** The uncertain checkpoint overrides the manifest's reason; its message names
    the first such store. *)
Definition live_reset_gate (month : string) (only : option string) (manifest_id : option Z) (d : db)
    : option reserve_outcome :=
  match completed_live month (default ""%string only) d with
  | Some i => Some (AlreadyDone i (job_of d i))
  | None =>
      let blocked :=
        if any_item (λ t, String.eqb (it_month (it_req t)) month && blocking t) d
        then Some UncertainCheckpoint
        else match approved_manifest_error month manifest_id d with
             | Some why => Some why
             | None => if any_item (partial_effect month d) d then Some PartialEffect else None
             end in
      Blocked <$> blocked
  end.

(** [only.strip() if only and only.strip() else None]. *)
Definition normalize_only (only : option string) : option string :=
  match only with
  | Some s => if bool_decide (strip s = ""%string) then None else Some (strip s)
  | None => None
  end.

Definition new_operation (now : Z) (kind month : string) (only : option string) (dry : bool)
    (sub : string) (manifest_id : option Z) : operation :=
  Operation
    (OpRequest kind month only dry (Some sub)
       (if String.eqb kind "reset" && negb dry then manifest_id else None) now)
    QUEUED None None None None (Some now) None None 0 None None None None.

Definition new_manifest (now : Z) (i : Z) (kind month sub : string) : manifest :=
  Manifest (ManifestRequest i month kind sub now) Building (Totals 0 0 0 0 0 "{}" "[]" "[]") "{}"
    None None None None None None now.

Definition insert_reservation (now : Z) (kind month : string) (only : option string) (dry : bool)
    (sub : string) (manifest_id : option Z) (d : db) : res monthly_error (reserve_outcome * db) :=
  match active_reservation month d with
  | Some r => Ok (r, d)
  | None =>
      let i := next_op d in
      let o := new_operation now kind month only dry sub manifest_id in
      let m := new_manifest now i kind month sub in
      _ ← raise_if (negb (op_check o)) CheckViolation;
      _ ← raise_if (negb (manifest_check m)) CheckViolation;
      Ok (Enqueued i,
          Db (<[i := o]> (ops d)) (<[next_man d := m]> (mans d)) (items d)
             (i + 1) (next_man d + 1) (next_item d))
  end.

(** The transaction of a blocked request commits what the fence of a stale
    operation wrote; the error is raised afterwards. *)
Definition reserve (now : Z) (kind month : string) (only : option string) (dry : bool)
    (sub : string) (manifest_id : option Z) (d : db) : res monthly_error (reserve_outcome * db) :=
  _ ← raise_if (bool_decide (strip sub = ""%string)) (ValueErr "requested_by_sub is required");
  let only := normalize_only only in
  d1 ← fence_stale_operation now month d;
  match active_reservation month d1 with
  | Some r => Ok (r, d1)
  | None =>
      match (if String.eqb kind "reset" && negb dry
             then live_reset_gate month only manifest_id d1 else None) with
      | Some r => Ok (r, d1)
      | None => insert_reservation now kind month only dry sub manifest_id d1
      end
  end.

Definition attach_job (now : Z) (i : Z) (job : string) (d : db) : res monthly_error (bool * db) :=
  update_op i (λ o, bool_decide (op_stat o = QUEUED))
    (λ o, Operation (op_req o) (op_stat o) (Some job) (op_result o) (op_error o)
            (op_started_at o) (Some now) (op_finished_at o) (execution_owner o)
            (execution_epoch o) (execution_lease_until o) (reconciliation o)
            (op_reconciled_at o) (alerted_at o)) d.

Definition get_by_job_id (job : string) (d : db) : option (Z * operation) :=
  head (List.filter (λ jo, bool_decide (job_id jo.2 = Some job)) (map_to_list (ops d))).

(** ** Reset checkpoints ([grile_monthly_reset_items.py]) *)

Definition of_site (i : Z) (code : string) (t : item) : bool :=
  (it_operation_id (it_req t) =? i) && String.eqb (in_site (site (it_req t))) code.

(** The condition of a statement on one store's checkpoint. *)
Definition site_where (i : Z) (code : string) (held : bool) (p : item → bool) (t : item) : bool :=
  of_site i code t && p t && held.

Definition updated (r : res monthly_error (list Z * db)) : res monthly_error (bool * db) :=
  '(ks, d) ← r; Ok (negb (bool_decide (length (ks : list Z) = 0%nat)), d).

Definition returning (r : res monthly_error (list Z * db)) : res monthly_error (option item * db) :=
  '(ks, d) ← r; Ok (head ks ≫= λ k, items d !! k, d).

Definition new_item (now : Z) (i : Z) (m next : string) (e : item_input) : item :=
  Item (ItemRequest i m next e now) Pending None None None None None None None LegacyUnknown 0
    None None None None now.

(** One [INSERT … WHERE EXISTS … ON CONFLICT DO NOTHING]. *)
Definition ensure_item (now : Z) (i : Z) (m next owner : string) (epoch : Z) (d : db) (e : item_input)
    : db :=
  if op_exists i (runs_lease now owner epoch) d && negb (any_item (of_site i (in_site e)) d)
  then Db (ops d) (mans d) (<[next_item d := new_item now i m next e]> (items d))
         (next_op d) (next_man d) (next_item d + 1)
  else d.

Definition ensure_reset_items (now : Z) (i : Z) (m next : string) (entries : list item_input)
    (owner : string) (epoch : Z) (d : db) : db :=
  foldl (ensure_item now i m next owner epoch) d entries.

(** [ORDER BY completed_at DESC NULLS LAST, updated_at DESC]. *)
Definition completed_leb : item → item → bool :=
  lex_leb (cmp_on (λ t, bool_decide (it_completed_at t = None))
             (λ a b : bool, Z.compare (Z.b2z a) (Z.b2z b)))
    (lex_leb (cmp_on (λ t, - default 0 (it_completed_at t)) Z.compare)
       (leb_on (λ t, - it_updated_at t) Z.leb)).

Definition get_previous_completed_reset_item (m code : string) (d : db) : option item :=
  head (sorted_by completed_leb
    (List.filter (λ t, String.eqb (it_month (it_req t)) m
                       && String.eqb (in_site (site (it_req t))) code
                       && bool_decide (it_stat t = ICompleted)) (snd <$> map_to_list (items d)))).

Definition claim_item (now : Z) (t : item) : item :=
  Item (it_req t) IRunning (it_error t) (or_else (it_started_at t) now) (it_completed_at t)
    (backup_path t) (backup_sha256 t) (rollback_status t) (restored_at t) (phase t)
    (fence_epoch t + 1) (destructive_intent_at t) (it_verified_at t) (it_reconciled_at t)
    (recovery_code t) now.

Definition claim_reset_item (now : Z) (i : Z) (code owner : string) (epoch : Z) (d : db)
    : res monthly_error (bool * db) :=
  updated (update_items (site_where i code (op_exists i (runs_lease now owner epoch) d)
                           (in_status [Pending])) (claim_item now) d).

Definition backup_item (path sha : string) (now : Z) (t : item) : item :=
  Item (it_req t) (it_stat t) (it_error t) (it_started_at t) (it_completed_at t) (Some path)
    (Some sha) (rollback_status t) (restored_at t) SnapshotPersisted (fence_epoch t)
    (destructive_intent_at t) (it_verified_at t) (it_reconciled_at t) None now.

Definition record_reset_item_backup (now : Z) (i : Z) (code path sha owner : string) (epoch : Z)
    (d : db) : res monthly_error (bool * db) :=
  updated (update_items (site_where i code (op_exists i (runs_lease now owner epoch) d)
                           (λ t, in_status [Pending] t && bool_decide (backup_path t = None)
                                 && bool_decide (backup_sha256 t = None)))
             (backup_item path sha now) d).

Definition record_reset_item_rollback (now : Z) (i : Z) (code : string) (restored : bool)
    (owner : string) (epoch : Z) (error : option string) (d : db)
    : res monthly_error (bool * db) :=
  updated (update_items (site_where i code (op_exists i (holds_lease now owner epoch) d)
                           (in_status [IRunning; ICompleted; IError]))
             (λ t, with_rollback (Some (if restored then Restored else RollbackFailed))
                     (if restored then Some now else None) (it_reconciled_at t)
                     (item_with (if restored then IError else Uncertain) (phase t) error
                        (recovery_code t) now t)) d).

(** [Literal["completed", "error", "skipped"]]. *)
Inductive finish_kind := FinishCompleted | FinishError | FinishSkipped.

Definition finish_item (k : finish_kind) (error : option string) (now : Z) (t : item) : item :=
  Item (it_req t)
    (match k with FinishCompleted => ICompleted | FinishError => IError | FinishSkipped => Skipped end)
    error (it_started_at t)
    (match k with FinishError => it_completed_at t | _ => Some now end)
    (backup_path t) (backup_sha256 t) (rollback_status t) (restored_at t)
    (match k with FinishCompleted => ClearVerified | _ => phase t end) (fence_epoch t)
    (destructive_intent_at t)
    (match k with FinishCompleted => Some now | _ => it_verified_at t end)
    (it_reconciled_at t) (recovery_code t) now.

Definition finish_reset_item (now : Z) (i : Z) (code : string) (k : finish_kind) (owner : string)
    (epoch : Z) (error : option string) (d : db) : res monthly_error (bool * db) :=
  let expected := match k with FinishSkipped => Pending | _ => IRunning end in
  updated (update_items (site_where i code (op_exists i (runs_lease now owner epoch) d)
                           (in_status [expected])) (finish_item k error now) d).

(** [backup_path IS NOT NULL AND backup_sha256 ~ '^[0-9a-f]{64}$']. *)
Definition has_backup (t : item) : bool :=
  negb (bool_decide (backup_path t = None))
  && match backup_sha256 t with Some h => sha256_check h | None => false end.

(** A new destructive intent advances the item's fence. *)
Definition intent_item (ph : checkpoint_phase) (error : option string) (now : Z) (t : item) : item :=
  Item (it_req t) (it_stat t) error (it_started_at t) (it_completed_at t) (backup_path t)
    (backup_sha256 t) (rollback_status t) (restored_at t) ph (fence_epoch t + 1) (Some now)
    (it_verified_at t) (it_reconciled_at t) (recovery_code t) now.

Definition prepare_reset_clear (now : Z) (i : Z) (code owner : string) (epoch : Z) (d : db)
    : res monthly_error (option item * db) :=
  returning (update_items (site_where i code (op_exists i (runs_lease now owner epoch) d)
                             (λ t, in_status [IRunning] t
                                   && bool_decide (phase t = SnapshotPersisted) && has_backup t))
               (intent_item ClearIntent None now) d).

Definition confirm_clear_item (verified : bool) (error : option string) (now : Z) (t : item) : item :=
  Item (it_req t) (if verified then ICompleted else Uncertain) error (it_started_at t)
    (it_completed_at t) (backup_path t) (backup_sha256 t) (rollback_status t) (restored_at t)
    (if verified then ClearVerified else PhaseRecoveryRequired) (fence_epoch t)
    (destructive_intent_at t) (if verified then Some now else it_verified_at t)
    (it_reconciled_at t) (if verified then None else Some RECOVERY_REQUIRED) now.

Definition confirm_reset_clear (now : Z) (i : Z) (code owner : string) (epoch fence : Z)
    (verified : bool) (error : option string) (d : db) : res monthly_error (bool * db) :=
  updated (update_items (site_where i code (op_exists i (runs_lease now owner epoch) d)
                           (λ t, (fence_epoch t =? fence) && bool_decide (phase t = ClearIntent)))
             (confirm_clear_item verified error now) d).

Definition prepare_reset_rollback (now : Z) (i : Z) (code owner : string) (epoch : Z) (d : db)
    : res monthly_error (option item * db) :=
  returning (update_items (site_where i code (op_exists i (holds_lease now owner epoch) d)
                             (λ t, bool_decide (phase t ∈ [ClearIntent; ClearVerified; PhaseRecoveryRequired])
                                   && in_status [IRunning; ICompleted; Uncertain] t && has_backup t))
               (λ t, intent_item RollbackIntent (it_error t) now t) d).

Definition confirm_rollback_item (restored : bool) (error : option string) (now : Z) (t : item)
    : item :=
  with_rollback (Some (if restored then Restored else RollbackFailed))
    (if restored then Some now else None) (if restored then Some now else it_reconciled_at t)
    (item_with (if restored then IError else Uncertain)
       (if restored then RollbackVerified else PhaseRecoveryRequired) error
       (if restored then None else Some RECOVERY_REQUIRED) now t).

Definition confirm_reset_rollback (now : Z) (i : Z) (code owner : string) (epoch fence : Z)
    (restored : bool) (error : option string) (d : db) : res monthly_error (bool * db) :=
  updated (update_items (site_where i code (op_exists i (holds_lease now owner epoch) d)
                           (λ t, (fence_epoch t =? fence) && bool_decide (phase t = RollbackIntent)))
             (confirm_rollback_item restored error now) d).

(** ** Reconciliation ([grile_monthly_reconciliation.py]) *)

(** An item whose recorded phase leaves its effect open; a verified clear is
    settled when the item completed and its operation no longer runs. *)
Definition unsettled (op_running : bool) (t : item) : bool :=
  bool_decide (it_stat t = Uncertain)
  || bool_decide (phase t ∈ [LegacyUnknown; ClearIntent; RollbackIntent])
  || bool_decide (recovery_code t = Some RECOVERY_REQUIRED)
  || (bool_decide (phase t = ClearVerified)
      && (negb (bool_decide (it_stat t = ICompleted)) || op_running)).

Definition list_reset_items_for_reconciliation (i : Z) (d : db) : list (Z * item) :=
  sorted_by (leb_on fst Z.leb)
    (List.filter (λ kt, (it_operation_id (it_req kt.2) =? i)
        && unsettled (op_exists (it_operation_id (it_req kt.2))
                        (λ o, bool_decide (op_stat o = RUNNING)) d) kt.2)
       (map_to_list (items d))).

Definition reconcilable (now : Z) (d : db) (i : Z) (o : operation) : bool :=
  (bool_decide (op_stat o = RUNNING)
   && match execution_lease_until o with Some u => u <=? now | None => true end)
  || (negb (bool_decide (op_stat o = RUNNING))
      && any_item (λ t, (it_operation_id (it_req t) =? i)
                        && unsettled (bool_decide (op_stat o = RUNNING)) t) d).

Definition reconcile_claim_set (now : Z) (owner : string) (lease_seconds : Z) (o : operation)
    : operation :=
  Operation (op_req o) (op_stat o) (job_id o) (op_result o) (op_error o) (op_started_at o)
    (heartbeat_at o) (op_finished_at o) (Some owner) (execution_epoch o + 1)
    (Some (now + lease_seconds * second)) (reconciliation o) None (alerted_at o).

(** The candidates in id order; rows locked by another transaction ([SKIP
    LOCKED]) are in [locked]. *)
Definition reconciliation_candidates (now : Z) (locked : list Z) (limit : nat) (d : db) : list Z :=
  take limit (sorted_by Z.leb
    (fst <$> List.filter (λ jo, reconcilable now d jo.1 jo.2 && negb (bool_decide (jo.1 ∈ locked)))
       (map_to_list (ops d)))).

Definition claim_reconciliation_candidates (now : Z) (locked : list Z) (owner : string)
    (lease_seconds : Z) (limit : nat) (d : db) : res monthly_error (list Z * db) :=
  let ks := reconciliation_candidates now locked limit d in
  d' ← foldR (λ d k, '(_, d1) ← update_op k (λ _, true) (reconcile_claim_set now owner lease_seconds) d;
                     Ok d1) d ks;
  Ok (ks, d').

Definition reconcile_result_set (now : Z) (c : classification) (error : option string) (alert : bool)
    (o : operation) : operation :=
  Operation (op_req o)
    (if negb (bool_decide (c = RecoveryRequired)) && bool_decide (op_stat o = RUNNING)
     then FAILED else op_stat o)
    (job_id o) (op_result o) (match error with Some e => Some e | None => op_error o end)
    (op_started_at o) (heartbeat_at o) (op_finished_at o) (execution_owner o) (execution_epoch o)
    None (Some c) (Some now) (if alert then or_else (alerted_at o) now else alerted_at o).

Definition mark_reconciliation_result (now : Z) (i : Z) (owner : string) (epoch : Z)
    (c : classification) (error : option string) (alert : bool) (d : db)
    : res monthly_error (bool * db) :=
  update_op i (holds_lease now owner epoch) (reconcile_result_set now c error alert) d.

Definition reconciled_with (s : item_status) (ph : checkpoint_phase) (error : string)
    (code : option string) (now : Z) (t : item) : item :=
  with_rollback (rollback_status t) (restored_at t) (Some now)
    (item_with s ph (Some error) code now t).

Definition mark_item_recovery_required (now : Z) (i : Z) (code owner : string) (epoch : Z)
    (error : string) (d : db) : res monthly_error (bool * db) :=
  updated (update_items (site_where i code (op_exists i (holds_lease now owner epoch) d)
                           (λ t, negb (bool_decide (phase t = RollbackVerified))))
             (reconciled_with Uncertain PhaseRecoveryRequired error (Some RECOVERY_REQUIRED) now) d).

Definition mark_item_safe_retry (now : Z) (i : Z) (code owner : string) (epoch : Z) (d : db)
    : res monthly_error (bool * db) :=
  updated (update_items (site_where i code (op_exists i (holds_lease now owner epoch) d)
                           (λ t, bool_decide (phase t = SnapshotPersisted)))
             (λ t, reconciled_with IError (phase t) "safe_retry" None now t) d).

(** ** Manifests ([grile_monthly_manifests.py]) *)

Definition get_manifest (k : Z) (d : db) : option manifest := mans d !! k.

Definition get_operation_manifest (i : Z) (d : db) : option manifest :=
  head (List.filter (λ m, man_operation_id (man_req m) =? i) (snd <$> map_to_list (mans d))).

(** [ORDER BY created_at DESC, id DESC]. *)
Definition latest_leb : Z * manifest → Z * manifest → bool :=
  lex_leb (cmp_on (λ km, - man_created_at (man_req km.2)) Z.compare)
    (leb_on (λ km, - km.1) Z.leb).

(** The latest row with its id. *)
Definition latest_manifest (m : string) (kind : option string)
    (statuses : list manifest_status) (d : db) : option (Z * manifest) :=
  if bool_decide (statuses = []) then None
  else head (sorted_by latest_leb
    (List.filter (λ km, String.eqb (man_month (man_req km.2)) m
        && match kind with Some k => String.eqb (man_operation (man_req km.2)) k | None => true end
        && bool_decide (man_stat km.2 ∈ statuses)) (map_to_list (mans d)))).

Definition get_latest_manifest (m : string) (kind : option string)
    (statuses : list manifest_status) (d : db) : option manifest :=
  snd <$> latest_manifest m kind statuses d.

Definition persist_manifest_result (now : Z) (i : Z) (doc : manifest_doc) (owner : string)
    (epoch : Z) (code : option string) (d : db) : res monthly_error (option manifest * db) :=
  let status := default "failed"%string (doc_status doc) in
  '(ks, d') ← publish
    (λ _ m, (man_operation_id (man_req m) =? i) && bool_decide (man_stat m = Building)
            && op_exists i (runs_lease now owner epoch) d)
    (Some status)
    (λ s, publish_set s doc code
            (if bool_decide (s ∈ [Verified; Approved]) then Some now else None) now) d;
  _ ← raise_if (bool_decide (length (ks : list Z) = 0%nat))
        (RuntimeErr "Monthly manifest lost its building lease");
  Ok (head ks ≫= λ k, mans d' !! k, d').

Definition approve_set (by_sub : string) (doc : manifest_doc) (now : Z) (m : manifest) : manifest :=
  Manifest (man_req m) Approved (man_totals m) (doc_json doc) (doc_sha256 doc) (Some by_sub)
    (Some now) (man_error_code m) (man_verified_at m) (consumed_at m) now.

Definition approve_manifest (now : Z) (k : Z) (expected_sha256 by_sub : string)
    (doc : manifest_doc) (d : db) : res monthly_error (option manifest * db) :=
  '(ks, d') ← update_mans
    (λ j m, (j =? k) && String.eqb (man_operation (man_req m)) "archive"
            && bool_decide (man_stat m = Verified)
            && bool_decide (manifest_sha256 m = Some expected_sha256) && clean m)
    (approve_set by_sub doc now) d;
  Ok (head ks ≫= λ j, mans d' !! j, d').

(** ** Interleavings *)

(** Every call that writes, with its arguments. *)
Inductive call :=
| CReserve (kind month : string) (only : option string) (dry : bool) (sub : string)
    (manifest_id : option Z)
| CAttachJob (i : Z) (job : string)
| CStart (i : Z) (owner : option string) (fresh : string) (lease_seconds : Z)
| CHeartbeat (i : Z) (owner : string) (epoch lease_seconds : Z)
| CFinish (i : Z) (result : op_outcome) (error : option string) (owner : string) (epoch : Z)
| CFinishReset (i : Z) (result : op_outcome) (reset_doc : manifest_doc) (manifest_id : Z)
    (expected_sha256 : string) (consumed_doc : manifest_doc) (owner : string) (epoch : Z)
| CFail (i : Z) (error owner : string) (epoch : Z)
| CFailQueued (i : Z) (error : string)
| CCancelUncertain (i : Z) (error owner : string) (epoch : Z)
| CEnsureItems (i : Z) (m next : string) (entries : list item_input) (owner : string) (epoch : Z)
| CClaimItem (i : Z) (code owner : string) (epoch : Z)
| CBackup (i : Z) (code path sha owner : string) (epoch : Z)
| CRecordRollback (i : Z) (code : string) (restored : bool) (owner : string) (epoch : Z)
    (error : option string)
| CFinishItem (i : Z) (code : string) (k : finish_kind) (owner : string) (epoch : Z)
    (error : option string)
| CPrepareClear (i : Z) (code owner : string) (epoch : Z)
| CConfirmClear (i : Z) (code owner : string) (epoch fence : Z) (verified : bool)
    (error : option string)
| CPrepareRollback (i : Z) (code owner : string) (epoch : Z)
| CConfirmRollback (i : Z) (code owner : string) (epoch fence : Z) (restored : bool)
    (error : option string)
| CClaimReconciliation (locked : list Z) (owner : string) (lease_seconds : Z) (limit : nat)
| CReconciled (i : Z) (owner : string) (epoch : Z) (c : classification) (error : option string)
    (alert : bool)
| CItemRecovery (i : Z) (code owner : string) (epoch : Z) (error : string)
| CItemSafeRetry (i : Z) (code owner : string) (epoch : Z)
| CPersistManifest (i : Z) (doc : manifest_doc) (owner : string) (epoch : Z) (code : option string)
| CApprove (k : Z) (expected_sha256 by_sub : string) (doc : manifest_doc).

(** The database after a call; a call that raises leaves it unchanged. *)
Definition run_call (now : Z) (c : call) (d : db) : res monthly_error db :=
  match c with
  | CReserve kind m only dry sub k => snd <$> reserve now kind m only dry sub k d
  | CAttachJob i job => snd <$> attach_job now i job d
  | CStart i w fresh lease => snd <$> start now i w fresh lease d
  | CHeartbeat i w e lease => snd <$> heartbeat now i w e lease d
  | CFinish i r error w e => snd <$> finish now i r error w e d
  | CFinishReset i r rd k sha cd w e => snd <$> finish_reset_success now i r rd k sha cd w e d
  | CFail i error w e => snd <$> fail now i error w e d
  | CFailQueued i error => snd <$> fail_queued now i error d
  | CCancelUncertain i error w e => snd <$> mark_cancelled_uncertain now i error w e d
  | CEnsureItems i m next es w e => Ok (ensure_reset_items now i m next es w e d)
  | CClaimItem i code w e => snd <$> claim_reset_item now i code w e d
  | CBackup i code path sha w e => snd <$> record_reset_item_backup now i code path sha w e d
  | CRecordRollback i code r w e error => snd <$> record_reset_item_rollback now i code r w e error d
  | CFinishItem i code k w e error => snd <$> finish_reset_item now i code k w e error d
  | CPrepareClear i code w e => snd <$> prepare_reset_clear now i code w e d
  | CConfirmClear i code w e f v error => snd <$> confirm_reset_clear now i code w e f v error d
  | CPrepareRollback i code w e => snd <$> prepare_reset_rollback now i code w e d
  | CConfirmRollback i code w e f r error => snd <$> confirm_reset_rollback now i code w e f r error d
  | CClaimReconciliation l w lease n => snd <$> claim_reconciliation_candidates now l w lease n d
  | CReconciled i w e c error alert => snd <$> mark_reconciliation_result now i w e c error alert d
  | CItemRecovery i code w e error => snd <$> mark_item_recovery_required now i code w e error d
  | CItemSafeRetry i code w e => snd <$> mark_item_safe_retry now i code w e d
  | CPersistManifest i doc w e code => snd <$> persist_manifest_result now i doc w e code d
  | CApprove k sha sub doc => snd <$> approve_manifest now k sha sub doc d
  end.

(** One committed call, at a time not before the last one. *)
Definition step (x y : Z * db) : Prop := x.1 <= y.1 ∧ ∃ c, run_call y.1 c x.2 = Ok y.2.
Definition steps : Z * db → Z * db → Prop := rtc step.
Definition reachable (x : Z * db) : Prop := ∃ t, steps (t, empty_db) x.

(** A schedule, call by call; for concrete runs. *)
Definition run_calls (x : Z * db) (cs : list (Z * call)) : res monthly_error (Z * db) :=
  foldR (λ x c, _ ← raise_if (c.1 <? x.1) (ValueErr "clock"); d ← run_call c.1 c.2 x.2; Ok (c.1, d)) x cs.

End Monthly.
