(* ===== verification/GrileMonthlyInv.v ===== *)
(** The monthly closeout's invariant and the relations every committed call
    keeps, from lemmas on its three kinds of statements. *)

From S2P Require Import Prelude Text Table Grile GrileMonthly.
Import Grile Monthly.

Local Open Scope Z_scope.

(** ** Statements *)

Lemma update_op_Ok i p f d b d' :
  update_op i p f d = Ok (b, d') →
  (b = false ∧ d' = d ∧ ∀ o, ops d !! i = Some o → p o = false) ∨
  ∃ o, b = true ∧ ops d !! i = Some o ∧ p o = true ∧ op_check (f o) = true ∧
       unique_ops i (f o) (ops d) = true ∧ d' = set_ops (<[i := f o]> (ops d)) d.
Proof.
  unfold update_op. destruct (ops d !! i) as [o|] eqn:Ho.
  - destruct (p o) eqn:Hp.
    + intros H. inv_res. bool_prop. simplify_eq. right. by exists o.
    + intros [= <- <-]. left. split_and!; [done..|]. by intros x [= <-].
  - intros [= <- <-]. by left.
Qed.

Lemma update_op_none i p f d :
  (∀ o, ops d !! i = Some o → p o = false) → update_op i p f d = Ok (false, d).
Proof. intros H. unfold update_op. destruct (ops d !! i) as [o|]; [|done]. by rewrite H. Qed.

Lemma set_items_id d : set_items (items d) d = d.
Proof. by destruct d. Qed.
Lemma set_mans_id d : set_mans (mans d) d = d.
Proof. by destruct d. Qed.

Lemma update_items_Ok p f d ks d' :
  update_items p f d = Ok (ks, d') →
  ks = select_keys p (items d) ∧ d' = set_items (items d') d ∧
  (∀ k, items d' !! k = (λ t, if p t then f t else t) <$> items d !! k) ∧
  (∀ k t, items d !! k = Some t → p t = true → item_check (f t) = true).
Proof.
  unfold update_items. intros H. inv_res. simplify_eq. cbn. split_and!; [done|done| |].
  - intros k. rewrite (update_keys_lookup _ _ _ _ _ _ _ _ (NoDup_select_keys _ _) Hv).
    destruct (items d !! k) as [t|] eqn:Ht; [|by case_decide]. cbn.
    destruct (p t) eqn:Hp; case_decide as Hin; try done.
    + exfalso. apply Hin, elem_of_select_keys. eauto.
    + exfalso. apply elem_of_select_keys in Hin as (x & Hx & Hpx). congruence.
  - intros k t Ht Hp.
    eapply (update_keys_accepted (λ _ _, true) item_check CheckViolation CheckViolation
              (select_keys p (items d)) f (items d)); [apply NoDup_select_keys|done| |done].
    apply elem_of_select_keys. eauto.
Qed.

Lemma update_items_none p f d :
  (∀ k t, items d !! k = Some t → p t = false) → update_items p f d = Ok ([], d).
Proof.
  intros Hp. unfold update_items.
  assert (select_keys p (items d) = []) as ->.
  { destruct (select_keys p (items d)) as [|k ks] eqn:Hk; [done|].
    assert (k ∈ select_keys p (items d)) as Hin by (rewrite Hk; by left).
    apply elem_of_select_keys in Hin as (t & Ht & Htp). by rewrite (Hp k t Ht) in Htp. }
  cbn. by rewrite set_items_id.
Qed.

Definition man_keys (p : Z → manifest → bool) (d : db) : list Z :=
  fst <$> List.filter (λ km, p km.1 km.2) (map_to_list (mans d)).

Lemma elem_of_man_keys p d k : k ∈ man_keys p d ↔ ∃ m, mans d !! k = Some m ∧ p k m = true.
Proof.
  unfold man_keys. rewrite list_elem_of_fmap. split.
  - intros ([j m] & -> & [Hin Hp]%list_elem_of_In%filter_In).
    apply list_elem_of_In, elem_of_map_to_list in Hin. by exists m.
  - intros (m & Hm & Hp). exists (k, m). split; [done|].
    apply list_elem_of_In, filter_In. by rewrite <- list_elem_of_In, elem_of_map_to_list.
Qed.

Lemma update_mans_Ok p f d ks d' :
  update_mans p f d = Ok (ks, d') →
  ks = man_keys p d ∧ d' = set_mans (mans d') d ∧
  (∀ k, mans d' !! k = (λ m, if p k m then f m else m) <$> mans d !! k) ∧
  (∀ k m, mans d !! k = Some m → p k m = true → manifest_check (f m) = true).
Proof.
  unfold update_mans. intros H. inv_res. simplify_eq. cbn.
  assert (NoDup (man_keys p d)) as Hnd by apply NoDup_fmap_filter, NoDup_fst_map_to_list.
  split_and!; [done|done| |].
  - intros k. rewrite (update_keys_lookup _ _ _ _ _ _ _ _ Hnd Hv).
    destruct (mans d !! k) as [m|] eqn:Hm; [|by case_decide]. cbn.
    destruct (p k m) eqn:Hp; case_decide as Hin; try done.
    + exfalso. apply Hin, elem_of_man_keys. eauto.
    + exfalso. apply elem_of_man_keys in Hin as (x & Hx & Hpx). congruence.
  - intros k m Hm Hp.
    eapply (update_keys_accepted (λ _ _, true) manifest_check CheckViolation CheckViolation
              (man_keys p d) f (mans d)); [done|done| |done].
    apply elem_of_man_keys. eauto.
Qed.

Lemma publish_Ok p status f d ks d' :
  publish p status f d = Ok (ks, d') →
  (ks = [] ∧ d' = d) ∨ ∃ s, status_column status = Ok s ∧ update_mans p (f s) d = Ok (ks, d').
Proof.
  unfold publish. destruct (existsb _ _); [|intros [= <- <-]; by left].
  intros H. inv_res. right. eauto.
Qed.

Lemma op_exists_true i p d : op_exists i p d = true ↔ ∃ o, ops d !! i = Some o ∧ p o = true.
Proof.
  unfold op_exists. destruct (ops d !! i) as [o|]; [|naive_solver]. split; [by eauto|].
  by intros (? & [= <-] & ?).
Qed.

Lemma any_item_true p d : any_item p d = true ↔ ∃ k t, items d !! k = Some t ∧ p t = true.
Proof.
  unfold any_item. rewrite existsb_exists. split.
  - intros ([k t] & Hin & Hp). apply list_elem_of_In, elem_of_map_to_list in Hin. eauto.
  - intros (k & t & Hk & Hp). exists (k, t). rewrite <- list_elem_of_In, elem_of_map_to_list. done.
Qed.

Lemma head_sorted_filter {A} (le : A → A → bool) (p : A → bool) l x :
  head (sorted_by le (List.filter p l)) = Some x → x ∈ l ∧ p x = true.
Proof.
  intros H. destruct (sorted_by le (List.filter p l)) as [|y l'] eqn:Hs; [done|].
  cbn in H. injection H as <-.
  assert (y ∈ sorted_by le (List.filter p l)) as Hin by (rewrite Hs; by left).
  apply elem_of_sorted_by, list_elem_of_In, filter_In in Hin as [? ?]. by rewrite list_elem_of_In.
Qed.

Lemma head_sorted_filter_None {A} (le : A → A → bool) (p : A → bool) l x :
  head (sorted_by le (List.filter p l)) = None → x ∈ l → p x = false.
Proof.
  intros H Hx. destruct (sorted_by le (List.filter p l)) as [|y l'] eqn:Hs; [|done].
  destruct (p x) eqn:Hp; [|done]. exfalso.
  assert (x ∈ sorted_by le (List.filter p l)) as Hin.
  { apply elem_of_sorted_by, list_elem_of_In, filter_In. by rewrite <- list_elem_of_In. }
  rewrite Hs in Hin. by apply elem_of_nil in Hin.
Qed.

Lemma newest_Some p d i : newest p d = Some i → ∃ o, ops d !! i = Some o ∧ p o = true.
Proof.
  unfold newest. intros ([j o] & H & ->)%fmap_Some. apply head_sorted_filter in H as [Hin Hp].
  apply elem_of_map_to_list in Hin. by exists o.
Qed.

Lemma newest_None p d i o : newest p d = None → ops d !! i = Some o → p o = false.
Proof.
  unfold newest. intros H Ho. apply fmap_None in H.
  by apply (head_sorted_filter_None _ _ _ (i, o) H), elem_of_map_to_list.
Qed.

Lemma completed_live_None m key d i o :
  completed_live m key d = None → ops d !! i = Some o →
  month_of o = m → live_completed o = true → filter_of o = key → False.
Proof.
  unfold completed_live. intros H Ho <- Hl <-. apply fmap_None in H.
  apply (head_sorted_filter_None _ _ _ (i, o)) in H; [|by apply elem_of_map_to_list].
  cbn in H. by rewrite !String.eqb_refl, Hl in H.
Qed.

(** ** What a committed call may change *)

(** The statuses follow the domain's transition table. *)
Definition status_step (s s' : op_state) : Prop := ∃ e, allowed_transition s e = Some s'.
Definition status_path : op_state → op_state → Prop := rtc status_step.

Record op_legal (now : Z) (o o' : operation) : Prop := {
  ol_req : op_req o' = op_req o;
  ol_path : status_path (op_stat o) (op_stat o');
  ol_epoch : execution_epoch o <= execution_epoch o';
  ol_fence : ∀ w e t, now <= t → holds_lease t w e o' = true →
             holds_lease now w e o = true ∨ execution_epoch o < e;
}.

(** An item without a backup whose phase only a running operation can leave. *)
Definition stuck (t : item) : Prop :=
  backup_path t = None ∧
  (phase t = LegacyUnknown ∨ (phase t = PhaseRecoveryRequired ∧ recovery_code t = Some RECOVERY_REQUIRED)).

(** [live]: the item's operation is queued or running. *)
Record item_legal (live : bool) (t t' : item) : Prop := {
  il_req : it_req t' = it_req t;
  il_backup : backup_path t ≠ None →
              backup_path t' = backup_path t ∧ backup_sha256 t' = backup_sha256 t;
  il_new_backup : live = false → backup_path t' = backup_path t;
  il_snapshot : phase t' = SnapshotPersisted → phase t = SnapshotPersisted ∨ backup_path t = None;
  il_stuck : live = false → stuck t → stuck t';
}.

Record man_legal (m m' : manifest) : Prop := {
  ml_req : man_req m' = man_req m;
  ml_consumed : man_stat m = Consumed → m' = m;
}.

Definition live (d : db) (i : Z) : bool :=
  match ops d !! i with Some o => is_active o | None => true end.

Record evolves (now : Z) (d d' : db) : Prop := {
  ev_ops i o : ops d !! i = Some o → ∃ o', ops d' !! i = Some o' ∧ op_legal now o o';
  ev_items k t : items d !! k = Some t →
    ∃ t', items d' !! k = Some t' ∧ item_legal (live d (it_operation_id (it_req t))) t t';
  ev_items_new k t' : items d' !! k = Some t' →
    is_Some (items d !! k) ∨
    any_item (of_site (it_operation_id (it_req t')) (in_site (site (it_req t')))) d = false;
  ev_mans k m : mans d !! k = Some m → ∃ m', mans d' !! k = Some m' ∧ man_legal m m';
}.

Lemma holds_lease_mono now t w e o :
  now <= t → holds_lease t w e o = true → holds_lease now w e o = true.
Proof.
  unfold holds_lease. intros Ht H. split_bools. destruct (execution_lease_until o); [|done].
  split_bools. rewrite bool_decide_eq_true_2 by done. cbn. lia.
Qed.

Lemma holds_lease_epoch now w e o : holds_lease now w e o = true → e = execution_epoch o.
Proof. unfold holds_lease. intros H. split_bools. lia. Qed.

Lemma runs_lease_holds now w e o :
  runs_lease now w e o = true → op_stat o = RUNNING ∧ holds_lease now w e o = true.
Proof. unfold runs_lease. intros H. by split_bools. Qed.

Lemma op_legal_refl now o : op_legal now o o.
Proof.
  split; [done|apply rtc_refl|lia|]. intros w e t Ht H. left. by eapply holds_lease_mono.
Qed.

Lemma op_legal_trans now o o' o'' : op_legal now o o' → op_legal now o' o'' → op_legal now o o''.
Proof.
  intros [R1 P1 E1 F1] [R2 P2 E2 F2]. split; [congruence|by etrans|lia|].
  intros w e t Ht H. destruct (F2 w e t Ht H) as [H'|?]; [|right; lia].
  destruct (F1 w e now (Z.le_refl _) H'); [by left|by right].
Qed.

(** Updates that keep the lease columns, and updates that bump the epoch. *)
Lemma op_legal_keep now o o' :
  op_req o' = op_req o → status_path (op_stat o) (op_stat o') →
  execution_owner o' = execution_owner o → execution_epoch o' = execution_epoch o →
  (execution_lease_until o' = execution_lease_until o ∨ execution_lease_until o' = None ∨
   ∃ w e, holds_lease now w e o = true) → op_legal now o o'.
Proof.
  intros Hr Hp Hw He Hl. split; [done|done|lia|]. intros w e t Ht H.
  unfold holds_lease in H. rewrite Hw, He in H. destruct Hl as [Hl|[Hl|(w' & e' & Hl)]].
  - left. eapply holds_lease_mono; [done|]. unfold holds_lease. by rewrite <- Hl.
  - rewrite Hl, andb_false_r in H. done.
  - left. unfold holds_lease in *. split_bools. simplify_eq.
    destruct (execution_lease_until o); [|done]. split_bools.
    rewrite bool_decide_eq_true_2 by congruence. cbn. lia.
Qed.

Lemma op_legal_bump now o o' :
  op_req o' = op_req o → status_path (op_stat o) (op_stat o') →
  execution_epoch o' = execution_epoch o + 1 → op_legal now o o'.
Proof.
  intros Hr Hp He. split; [done|done|lia|]. intros w e t Ht H%holds_lease_epoch. right. lia.
Qed.

Lemma status_path_once s s' e : allowed_transition s e = Some s' → status_path s s'.
Proof. intros H. apply rtc_once. by exists e. Qed.

Lemma status_path_active s s' :
  status_path s s' → s' = QUEUED ∨ s' = RUNNING → s = QUEUED ∨ s = RUNNING.
Proof.
  induction 1 as [|x y z [e He] _ IH]; [done|]. intros H.
  destruct x, e; try done; auto.
Qed.

Lemma status_path_completed s s' : status_path s s' → s = COMPLETED → s' = COMPLETED.
Proof. intros H ->. inversion H as [|x y z [e He] ?]; [done|]. by destruct e. Qed.

Lemma is_active_iff o : is_active o = true ↔ op_stat o = QUEUED ∨ op_stat o = RUNNING.
Proof. unfold is_active. rewrite orb_true_iff, !bool_decide_eq_true. done. Qed.

Lemma op_legal_active now o o' : op_legal now o o' → is_active o' = true → is_active o = true.
Proof. intros [_ P _ _]. rewrite !is_active_iff. by apply status_path_active. Qed.

Lemma item_legal_refl r t : item_legal r t t.
Proof. split; auto. Qed.

Lemma item_legal_trans r r' t t' t'' :
  (r = false → r' = false) → item_legal r t t' → item_legal r' t' t'' → item_legal r t t''.
Proof.
  intros Hr [R1 B1 N1 S1 K1] [R2 B2 N2 S2 K2]. split.
  - congruence.
  - intros Hb. destruct (B1 Hb) as [H1 H2]. destruct B2 as [H3 H4]; [by rewrite H1|]. split; congruence.
  - intros Hf. rewrite N2, N1; auto.
  - intros H. destruct (S2 H) as [?|Hn]; [auto|]. right.
    destruct (backup_path t) eqn:Hb; [|done]. destruct B1 as [H1 _]; [done|]. congruence.
  - auto.
Qed.

Lemma man_legal_refl m : man_legal m m.
Proof. by split. Qed.
Lemma man_legal_trans m m' m'' : man_legal m m' → man_legal m' m'' → man_legal m m''.
Proof.
  intros [R1 C1] [R2 C2]. split; [congruence|]. intros H. rewrite C2; [auto|]. by rewrite C1.
Qed.

Lemma evolves_live now d d' i :
  evolves now d d' → live d i = false → live d' i = false.
Proof.
  unfold live. intros He Hl. destruct (ops d !! i) as [o|] eqn:Ho; [|done].
  destruct (ev_ops _ _ _ He _ _ Ho) as (o' & Ho' & L). rewrite Ho'.
  destruct (is_active o') eqn:Ha; [|done]. by rewrite (op_legal_active _ _ _ L Ha) in Hl.
Qed.

Lemma evolves_refl now d : evolves now d d.
Proof.
  split; eauto using op_legal_refl, item_legal_refl, man_legal_refl.
Qed.

(** Composition of two parts of one transaction. *)
Lemma evolves_trans now d d' d'' : evolves now d d' → evolves now d' d'' → evolves now d d''.
Proof.
  intros H1 H2. split.
  - intros i o Ho. destruct (ev_ops _ _ _ H1 _ _ Ho) as (o' & Ho' & L1).
    destruct (ev_ops _ _ _ H2 _ _ Ho') as (o'' & Ho'' & L2). eauto using op_legal_trans.
  - intros k t Ht. destruct (ev_items _ _ _ H1 _ _ Ht) as (t' & Ht' & L1).
    destruct (ev_items _ _ _ H2 _ _ Ht') as (t'' & Ht'' & L2). exists t''. split; [done|].
    eapply item_legal_trans; [|exact L1|exact L2]. rewrite (il_req _ _ _ L1).
    by apply evolves_live with now.
  - intros k t'' Ht''. destruct (ev_items_new _ _ _ H2 _ _ Ht'') as [[t' Ht']|Hno].
    + destruct (ev_items _ _ _ H2 _ _ Ht') as (x & Hx & L2).
      assert (x = t'') as -> by congruence.
      destruct (ev_items_new _ _ _ H1 _ _ Ht') as [?|Hno]; [by left|right].
      by rewrite (il_req _ _ _ L2).
    + right. apply not_true_iff_false. intros (k' & t & Ht & Hs)%any_item_true.
      apply not_true_iff_false in Hno. apply Hno, any_item_true.
      destruct (ev_items _ _ _ H1 _ _ Ht) as (t' & Ht' & L1). exists k', t'. split; [done|].
      revert Hs. unfold of_site. by rewrite (il_req _ _ _ L1).
  - intros k m Hm. destruct (ev_mans _ _ _ H1 _ _ Hm) as (m' & Hm' & L1).
    destruct (ev_mans _ _ _ H2 _ _ Hm') as (m'' & Hm'' & L2). eauto using man_legal_trans.
Qed.

Lemma update_op_evolves now i p f d b d' :
  update_op i p f d = Ok (b, d') →
  (∀ o, ops d !! i = Some o → p o = true → op_legal now o (f o)) → evolves now d d'.
Proof.
  intros [(_ & -> & _)|(o & _ & Ho & Hp & _ & _ & ->)]%update_op_Ok Hl; [apply evolves_refl|].
  split; cbn; eauto using item_legal_refl, man_legal_refl.
  intros j x Hx. destruct (decide (j = i)) as [->|Hne].
  - assert (x = o) as -> by congruence. exists (f o). rewrite lookup_insert_eq. auto.
  - exists x. rewrite lookup_insert_ne by done. auto using op_legal_refl.
Qed.

Lemma update_items_evolves now p f d ks d' :
  update_items p f d = Ok (ks, d') →
  (∀ k t, items d !! k = Some t → p t = true →
          item_legal (live d (it_operation_id (it_req t))) t (f t)) → evolves now d d'.
Proof.
  intros (_ & Hd & Hk & _)%update_items_Ok Hl. rewrite Hd in *. clear Hd. cbn in Hk.
  split; cbn; eauto using op_legal_refl, man_legal_refl.
  - intros k t Ht. specialize (Hk k). rewrite Ht in Hk. cbn in Hk. eexists. split; [exact Hk|].
    destruct (p t) eqn:Hp; [by eapply Hl|apply item_legal_refl].
  - intros k t' Ht. left. rewrite Hk in Ht. apply fmap_Some in Ht as (t & ? & _). by exists t.
Qed.

Lemma update_mans_evolves now p f d ks d' :
  update_mans p f d = Ok (ks, d') →
  (∀ k m, mans d !! k = Some m → p k m = true → man_legal m (f m)) → evolves now d d'.
Proof.
  intros (_ & Hd & Hk & _)%update_mans_Ok Hl. rewrite Hd in *. clear Hd. cbn in Hk.
  split; cbn; eauto using op_legal_refl, item_legal_refl.
  intros k m Hm. specialize (Hk k). rewrite Hm in Hk. cbn in Hk. eexists. split; [exact Hk|].
  destruct (p k m) eqn:Hp; [by eapply Hl|apply man_legal_refl].
Qed.

Record fresh (d : db) : Prop := {
  fr_ops i : is_Some (ops d !! i) → i < next_op d;
  fr_mans k : is_Some (mans d !! k) → k < next_man d;
  fr_items k : is_Some (items d !! k) → k < next_item d;
}.

Lemma fresh_None {A} (t : gmap Z A) n : (∀ i, is_Some (t !! i) → i < n) → t !! n = None.
Proof. intros H. destruct (t !! n) eqn:E; [|done]. specialize (H n (mk_is_Some _ _ E)). lia. Qed.

Lemma evolves_insert_op now o m d :
  fresh d →
  evolves now d (Db (<[next_op d := o]> (ops d)) (<[next_man d := m]> (mans d)) (items d)
                    (next_op d + 1) (next_man d + 1) (next_item d)).
Proof.
  intros [Fo Fm _]. apply fresh_None in Fo, Fm.
  split; cbn; eauto using item_legal_refl.
  - intros i x Hx. exists x. rewrite lookup_insert_ne by congruence. auto using op_legal_refl.
  - intros k x Hx. exists x. rewrite lookup_insert_ne by congruence. auto using man_legal_refl.
Qed.

Lemma ensure_item_cases now i m next w e d x :
  ensure_item now i m next w e d x = d ∨
  (op_exists i (runs_lease now w e) d = true ∧ any_item (of_site i (in_site x)) d = false ∧
   ensure_item now i m next w e d x =
     Db (ops d) (mans d) (<[next_item d := new_item now i m next x]> (items d))
        (next_op d) (next_man d) (next_item d + 1)).
Proof.
  unfold ensure_item. destruct (op_exists _ _ _), (any_item _ _); cbn; auto.
Qed.

Lemma ensure_item_evolves now i m next w e d x :
  fresh d → evolves now d (ensure_item now i m next w e d x).
Proof.
  intros [_ _ Fi]. apply fresh_None in Fi.
  destruct (ensure_item_cases now i m next w e d x) as [->|(_ & Ha & ->)]; [apply evolves_refl|].
  split; cbn; eauto using op_legal_refl, man_legal_refl.
  - intros k t Ht. exists t. rewrite lookup_insert_ne by congruence. auto using item_legal_refl.
  - intros k t' Ht. destruct (decide (k = next_item d)) as [->|Hne].
    + rewrite lookup_insert_eq in Ht. injection Ht as <-. by right.
    + rewrite lookup_insert_ne in Ht by done. eauto.
Qed.

Lemma ensure_item_fresh now i m next w e d x : fresh d → fresh (ensure_item now i m next w e d x).
Proof.
  intros [Fo Fm Fi]. destruct (ensure_item_cases now i m next w e d x) as [->|(_ & _ & ->)]; [done|].
  split; cbn; [done..|]. intros k [<-|[_ H%Fi]]%lookup_insert_is_Some; lia.
Qed.

Lemma ensure_reset_items_evolves now i m next es w e d :
  fresh d → evolves now d (ensure_reset_items now i m next es w e d) ∧
            fresh (ensure_reset_items now i m next es w e d).
Proof.
  unfold ensure_reset_items. revert d. induction es as [|x es IH]; intros d F; cbn.
  - split; [apply evolves_refl|done].
  - destruct (IH _ (ensure_item_fresh now i m next w e d x F)) as [E F']. split; [|done].
    eapply evolves_trans; [by apply ensure_item_evolves|exact E].
Qed.

(** ** Every call *)

Lemma runs_live now w e i d : op_exists i (runs_lease now w e) d = true → live d i = true.
Proof.
  intros (o & Ho & [Hr _]%runs_lease_holds)%op_exists_true. unfold live. rewrite Ho.
  apply is_active_iff. by right.
Qed.

Lemma site_where_true i code held p t :
  site_where i code held p t = true →
  it_operation_id (it_req t) = i ∧ in_site (site (it_req t)) = code ∧ p t = true ∧ held = true.
Proof.
  unfold site_where, of_site. rewrite !andb_true_iff, Z.eqb_eq, String.eqb_eq. naive_solver.
Qed.

Lemma in_status_true ss t : in_status ss t = true ↔ it_stat t ∈ ss.
Proof. unfold in_status. apply bool_decide_eq_true. Qed.

Lemma has_backup_path t : has_backup t = true → backup_path t ≠ None.
Proof.
  unfold has_backup. intros [H _]%andb_true_iff. by apply negb_true_iff, bool_decide_eq_false in H.
Qed.

(** Changes that keep the backup and do not return to [SnapshotPersisted]. *)
Lemma item_legal_keep r t t' :
  it_req t' = it_req t → backup_path t' = backup_path t → backup_sha256 t' = backup_sha256 t →
  (phase t' = phase t ∨ phase t' ≠ SnapshotPersisted) →
  (r = false → stuck t → stuck t') → item_legal r t t'.
Proof. intros ? Hp ? [Hph|Hph] ?; split; auto; rewrite ?Hph; auto; done. Qed.

Lemma stuck_phase t ph : phase t = ph → ph ≠ LegacyUnknown → ph ≠ PhaseRecoveryRequired → ¬ stuck t.
Proof. intros <- H1 H2 [_ [?|[? _]]]; done. Qed.

Lemma updated_Ok r b d' : updated r = Ok (b, d') → ∃ ks, r = Ok (ks, d').
Proof. unfold updated. intros H. inv_res. destruct v. simplify_eq. eauto. Qed.
Lemma returning_Ok r o d' : returning r = Ok (o, d') → ∃ ks, r = Ok (ks, d') ∧ o = head ks ≫= λ k, items d' !! k.
Proof. unfold returning. intros H. inv_res. destruct v. simplify_eq. eauto. Qed.

Lemma fmap_snd_Ok {E A} (r : res E (A * db)) d' : snd <$> r = Ok d' → ∃ x, r = Ok (x, d').
Proof. destruct r as [[x d]|e]; cbn; [|done]. intros [= ->]. by exists x. Qed.

(** A statement on one store's checkpoint. *)
Lemma site_update_evolves now i code held p f d ks d' :
  update_items (site_where i code held p) f d = Ok (ks, d') →
  (∀ t, held = true → it_operation_id (it_req t) = i → p t = true → item_legal (live d i) t (f t)) →
  evolves now d d'.
Proof.
  intros H Hl. eapply update_items_evolves; [exact H|].
  intros k t _ (<- & _ & Hp & Hh)%site_where_true. by apply Hl.
Qed.

Lemma publish_evolves now p s f d ks d' :
  publish p s f d = Ok (ks, d') →
  (∀ x k m, mans d !! k = Some m → p k m = true → man_legal m (f x m)) → evolves now d d'.
Proof.
  intros [(_ & ->)|(x & _ & H)]%publish_Ok Hl; [apply evolves_refl|].
  eapply update_mans_evolves; [exact H|]. intros k m. apply Hl.
Qed.

Lemma path_fail o : is_active o = true → status_path (op_stat o) FAILED.
Proof.
  rewrite is_active_iff.
  intros [-> | ->]; [by apply (status_path_once _ _ REJECT)|by apply (status_path_once _ _ FAIL)].
Qed.

Lemma fail_legal now error o : is_active o = true → op_legal now o (set_op_stat FAILED error now o).
Proof. intros Ha. apply op_legal_keep; cbn; auto using path_fail. Qed.

Lemma running_active o : op_stat o = RUNNING → is_active o = true.
Proof. intros H. apply is_active_iff. by right. Qed.
Lemma queued_active o : op_stat o = QUEUED → is_active o = true.
Proof. intros H. apply is_active_iff. by left. Qed.

Lemma terminal_state_path r s : terminal_state r = Ok s → s = COMPLETED ∨ s = FAILED.
Proof.
  unfold terminal_state, terminal_operation_status.
  case_bool_decide; cbn; intros [= <-]; auto.
Qed.

Lemma finish_legal now r error s o :
  op_stat o = RUNNING → s = COMPLETED ∨ s = FAILED → op_legal now o (finish_set s r error now o).
Proof.
  intros Hr Hs. apply op_legal_keep; cbn; auto. rewrite Hr.
  destruct Hs as [->| ->]; [by apply (status_path_once _ _ COMPLETE)|by apply (status_path_once _ _ FAIL)].
Qed.

(** [item_keep] proves a change of an item's other columns legal. *)
Ltac item_keep :=
  apply item_legal_keep; cbn; [done|done|done|try (by left); try (by right)|].

Lemma fence_stale_evolves now m d d' : fence_stale_operation now m d = Ok d' → evolves now d d'.
Proof.
  unfold fence_stale_operation. destruct (newest _ d) as [i|]; [|intros [= ->]; apply evolves_refl].
  intros H. inv_res. destruct v as [ks d1]. inv_res. destruct v as [b d2]. simplify_eq.
  eapply evolves_trans.
  - eapply update_items_evolves; [exact Hv|]. intros k' t _ Hp. item_keep.
    intros _ [Hb _]. split; [done|]. by right.
  - eapply update_op_evolves; [exact Hv0|]. intros o _ Hp. cbn beta in Hp. split_bools.
    apply op_legal_keep; cbn; auto using path_fail, running_active.
Qed.

Lemma fence_stale_fresh now m d d' : fresh d → fence_stale_operation now m d = Ok d' → fresh d'.
Proof.
  unfold fence_stale_operation. intros F. destruct (newest _ d) as [i|]; [|by intros [= ->]].
  intros H. inv_res. destruct v as [ks d1]. inv_res. destruct v as [b d2]. simplify_eq.
  apply update_items_Ok in Hv as (_ & Hd & Hk & _).
  apply update_op_Ok in Hv0 as [(_ & -> & _)|(o & _ & Ho & _ & _ & _ & ->)]; rewrite Hd in *;
    destruct F as [F1 F2 F3]; split; cbn in *; auto.
  - intros x [t Ht]. rewrite Hk in Ht. apply fmap_Some in Ht as (y & ? & _). eauto.
  - intros x [<-|[_ ?]]%lookup_insert_is_Some; eauto.
  - intros x [t Ht]. rewrite Hk in Ht. apply fmap_Some in Ht as (y & ? & _). eauto.
Qed.

Lemma reserve_evolves now kind m only dry sub k d r d' :
  fresh d → reserve now kind m only dry sub k d = Ok (r, d') → evolves now d d'.
Proof.
  intros F H. unfold reserve in H. inv_res.
  pose proof (fence_stale_evolves _ _ _ _ Hv0) as E. pose proof (fence_stale_fresh _ _ _ _ F Hv0) as F0.
  destruct (active_reservation m v0); [by simplify_eq|].
  destruct (if String.eqb kind "reset" && negb dry then live_reset_gate m (normalize_only only) k v0
            else None); [by simplify_eq|].
  eapply evolves_trans; [exact E|]. unfold insert_reservation in H.
  destruct (active_reservation m v0); [simplify_eq; apply evolves_refl|]. inv_res. simplify_eq.
  by apply evolves_insert_op.
Qed.

Lemma start_legal now w lease o : op_stat o = QUEUED → op_legal now o (start_set now w lease o).
Proof. intros H. apply op_legal_bump; cbn; auto. rewrite H. by apply (status_path_once _ _ CLAIM). Qed.

Lemma start_evolves now i w fresh_id lease d r d' :
  start now i w fresh_id lease d = Ok (r, d') → evolves now d d'.
Proof.
  intros H. unfold start in H. inv_res. destruct v0 as [[] d1].
  - simplify_eq. eapply update_op_evolves; [exact Hv0|]. intros o _ Hp. cbn beta in Hp. split_bools. by apply start_legal.
  - inv_res. destruct v0 as [b d2]. simplify_eq. eapply evolves_trans.
    + eapply update_op_evolves; [exact Hv0|]. intros o _ Hp. cbn beta in Hp. split_bools. by apply start_legal.
    + eapply update_op_evolves; [exact Hv1|]. intros o _ Hp. cbn beta in Hp. split_bools.
      by apply fail_legal, queued_active.
Qed.

Lemma publish_legal s doc c v now m : man_stat m = Building → man_legal m (publish_set s doc c v now m).
Proof. intros H. split; [done|]. congruence. Qed.

Lemma finish_reset_success_evolves now i r rd k sha cd w e d x d' :
  finish_reset_success now i r rd k sha cd w e d = Ok (x, d') → evolves now d d'.
Proof.
  intros H. unfold finish_reset_success in H. inv_res.
  destruct v as [ks1 d1]. inv_res. destruct v0 as [b d2]. inv_res. destruct v1 as [ks3 d3]. inv_res. simplify_eq.
  eapply evolves_trans; [|eapply evolves_trans].
  - eapply publish_evolves; [exact Hv|]. intros y j m _ Hp. cbn beta in Hp. split_bools. by apply publish_legal.
  - eapply update_op_evolves; [eassumption|]. intros o _ Hp. cbn beta in Hp. split_bools.
    apply finish_legal; [|by left]. by eapply runs_lease_holds.
  - eapply update_mans_evolves; [eassumption|]. intros j m _ Hp. cbn beta in Hp. split_bools. split; [done|congruence].
Qed.

Lemma cancel_uncertain_evolves now i error w e d b d' :
  mark_cancelled_uncertain now i error w e d = Ok (b, d') → evolves now d d'.
Proof.
  intros H. unfold mark_cancelled_uncertain in H. inv_res. destruct v as [ks d1].
  eapply evolves_trans.
  - eapply update_items_evolves; [exact Hv|]. intros k t _ Hp.
    apply item_legal_keep; cbn; [done..| |].
    + destruct (phase t); by (left + right).
    + intros _ [Hb [Hph|[Hph Hc]]]; split; cbn; auto; rewrite Hph; auto.
  - eapply update_op_evolves; [exact H|]. intros o _ Hp. cbn beta in Hp. split_bools. by apply fail_legal.
Qed.

Lemma claim_reconciliation_evolves now l w lease n d ks d' :
  claim_reconciliation_candidates now l w lease n d = Ok (ks, d') → evolves now d d'.
Proof.
  intros H. unfold claim_reconciliation_candidates in H. inv_res. simplify_eq. revert Hv.
  generalize (reconciliation_candidates now l n d) as js. intros js. revert d.
  induction js as [|j js IH]; intros d; cbn; [intros [= ->]; apply evolves_refl|].
  intros H. inv_res. destruct v0 as [b d1]. simplify_eq.
  eapply evolves_trans; [|by eapply IH].
  eapply update_op_evolves; [exact Hv0|]. intros o _ _. apply op_legal_bump; [done|apply rtc_refl|done].
Qed.

Lemma reconciled_legal now c error alert w e o :
  holds_lease now w e o = true → op_legal now o (reconcile_result_set now c error alert o).
Proof.
  intros Hh. apply op_legal_keep; cbn; auto.
  destruct (negb _ && _) eqn:Hc; [|apply rtc_refl]. split_bools.
  by apply path_fail, running_active.
Qed.

(** Most calls are one statement on an operation or on one store's checkpoint. *)
Inductive call_form (now : Z) (d : db) (r : res monthly_error db) : Prop :=
| OpForm i p f :
    r = snd <$> update_op i p f d → (∀ o, p o = true → op_legal now o (f o)) → call_form now d r
| ItemForm p f :
    r = snd <$> update_items p f d →
    (∀ t, p t = true → item_legal (live d (it_operation_id (it_req t))) t (f t)) →
    call_form now d r.

Lemma updated_snd r : snd <$> updated r = snd <$> r.
Proof. by destruct r as [[ks d]|e]. Qed.
Lemma returning_snd r : snd <$> returning r = snd <$> r.
Proof. by destruct r as [[ks d]|e]. Qed.

Ltac op_form :=
  eapply OpForm; [reflexivity|];
  let o := fresh "o" in let Hp := fresh "Hp" in intros o Hp; cbn beta in Hp; split_bools.

Lemma op_call_form now c d :
  match c with
  | CAttachJob _ _ | CHeartbeat _ _ _ _ | CFinish _ _ _ _ _ | CFail _ _ _ _ | CFailQueued _ _
  | CReconciled _ _ _ _ _ _ => call_form now d (run_call now c d)
  | _ => True
  end.
Proof.
  destruct c; try done; cbn [run_call].
  - op_form. apply op_legal_keep; cbn; auto. apply rtc_refl.
  - op_form. apply runs_lease_holds in Hp as [_ Hh]. apply op_legal_keep; cbn; eauto. apply rtc_refl.
  - unfold finish. destruct (terminal_state result) as [s|e] eqn:Hs.
    + op_form. apply runs_lease_holds in Hp as [Hr _]. by eapply finish_legal, terminal_state_path.
    + unfold terminal_state, terminal_operation_status in Hs. by case_bool_decide.
  - op_form. by eapply fail_legal, running_active, runs_lease_holds.
  - op_form. by apply fail_legal, queued_active.
  - op_form. by eapply reconciled_legal.
Qed.

Ltac item_form :=
  eapply ItemForm; [first [apply updated_snd | apply returning_snd]|];
  let t := fresh "t" in let Hh := fresh "Hh" in let Hp := fresh "Hp" in
  intros t (<- & _ & Hp & Hh)%site_where_true; cbn beta in Hp.

Lemma item_call_form now c d :
  match c with
  | CClaimItem _ _ _ _ | CBackup _ _ _ _ _ _ | CRecordRollback _ _ _ _ _ _
  | CFinishItem _ _ _ _ _ _ | CPrepareClear _ _ _ _ | CConfirmClear _ _ _ _ _ _ _
  | CPrepareRollback _ _ _ _ | CConfirmRollback _ _ _ _ _ _ _ | CItemRecovery _ _ _ _ _
  | CItemSafeRetry _ _ _ _ => call_form now d (run_call now c d)
  | _ => True
  end.
Proof.
  destruct c; try done; cbn [run_call]; item_form.
  - item_keep. auto.
  - apply runs_live in Hh. split_bools. split; cbn; try done; auto; rewrite Hh; done.
  - item_keep. auto.
  - apply runs_live in Hh. apply item_legal_keep; cbn; [done..| |by rewrite Hh].
    destruct k; by (left + right).
  - split_bools. item_keep. intros _ [Hb _]. by apply has_backup_path in H0.
  - split_bools. item_keep; [by destruct verified; right|].
    intros _ Hs. exfalso. by eapply stuck_phase in Hs.
  - split_bools. item_keep. intros _ [Hb _]. by apply has_backup_path in H0.
  - split_bools. item_keep; [by destruct restored; right|].
    intros _ Hs. exfalso. by eapply stuck_phase in Hs.
  - item_keep. intros _ [Hb _]. split; [done|by right].
  - split_bools. item_keep. intros _ Hs. exfalso. by eapply stuck_phase in Hs.
Qed.

Lemma call_form_evolves now d d' : call_form now d (Ok d') → evolves now d d'.
Proof.
  intros [i p f H Hl|p f H Hl]; symmetry in H; apply fmap_snd_Ok in H as [x H].
  - eapply update_op_evolves; [exact H|auto].
  - eapply update_items_evolves; [exact H|auto].
Qed.

Lemma run_call_evolves now c d d' : fresh d → run_call now c d = Ok d' → evolves now d d'.
Proof.
  intros F H. pose proof (item_call_form now c d) as Hi. pose proof (op_call_form now c d) as Ho.
  rewrite H in Hi, Ho. destruct c; try (by apply call_form_evolves); clear Hi Ho; cbn [run_call] in H;
    try (apply fmap_snd_Ok in H as [x H]).
  - by eapply reserve_evolves.
  - by eapply start_evolves.
  - by eapply finish_reset_success_evolves.
  - by eapply cancel_uncertain_evolves.
  - injection H as <-. by apply ensure_reset_items_evolves.
  - by eapply claim_reconciliation_evolves.
  - unfold persist_manifest_result in H. inv_res. destruct v as [ks d1]. inv_res. simplify_eq.
    eapply publish_evolves; [exact Hv|]. intros s k m _ Hp. cbn beta in Hp. split_bools.
    by apply publish_legal.
  - unfold approve_manifest in H. inv_res. destruct v as [ks d1].
    simplify_eq. eapply update_mans_evolves; [exact Hv|].
    intros k' m _ Hp. cbn beta in Hp. split_bools. split; [done|congruence].
Qed.

(** ** The invariant *)

Record inv (d : db) : Prop := {
  iv_fresh : fresh d;
  (** The two partial unique indexes. *)
  iv_index i j o o' : ops d !! i = Some o → ops d !! j = Some o' → i ≠ j →
    index_conflict o o' = false;
  (** A live reset under way has its approved archive, and is the first of its
      month and filter. *)
  iv_approved i o : ops d !! i = Some o → is_active o = true → is_live_reset o = true →
    ∃ k m, approved_manifest_id (op_req o) = Some k ∧ mans d !! k = Some m ∧
           approved_for (month_of o) m = true;
  iv_first i j o o' : ops d !! i = Some o → is_active o = true → is_live_reset o = true →
    ops d !! j = Some o' → live_completed o' = true → month_of o' = month_of o →
    filter_of o' = filter_of o → False;
  (** One checkpoint per operation and store, one manifest per operation. *)
  iv_sites k k' t t' : items d !! k = Some t → items d !! k' = Some t' →
    of_site (it_operation_id (it_req t)) (in_site (site (it_req t))) t' = true → k = k';
  iv_mans k k' m m' : mans d !! k = Some m → mans d !! k' = Some m' →
    man_operation_id (man_req m) = man_operation_id (man_req m') → k = k';
  iv_man_ids k m : mans d !! k = Some m → man_operation_id (man_req m) < next_op d;
  iv_item_ids k t : items d !! k = Some t → it_operation_id (it_req t) < next_op d;
}.

Lemma inv_empty : inv empty_db.
Proof.
  split; cbn; try (intros *; rewrite lookup_empty; done).
  split; cbn; intros ? [? H]; rewrite lookup_empty in H; done.
Qed.

Lemma status_path_to_completed s s' : status_path s s' → s' = COMPLETED → s ≠ FAILED.
Proof. induction 1 as [|x y z [e He] _ IH]; [by intros ->|]. intros _ ->. by destruct e. Qed.

Lemma op_legal_fields now o o' :
  op_legal now o o' → month_of o' = month_of o ∧ filter_of o' = filter_of o ∧
                      is_live_reset o' = is_live_reset o.
Proof. intros [R _ _ _]. unfold month_of, filter_of, is_live_reset. by rewrite R. Qed.

Lemma op_legal_completed now o o' :
  op_legal now o o' → live_completed o' = true →
  live_completed o = true ∨ (is_active o = true ∧ is_live_reset o = true).
Proof.
  intros L. pose proof (op_legal_fields _ _ _ L) as (_ & _ & Hl). destruct L as [_ P _ _].
  unfold live_completed. rewrite Hl. intros H. split_bools.
  pose proof (status_path_to_completed _ _ P H0). rewrite is_active_iff.
  rewrite H. cbn. rewrite bool_decide_eq_true. destruct (op_stat o); naive_solver.
Qed.

Lemma index_conflict_iff o o' :
  index_conflict o o' = true ↔
  month_of o = month_of o' ∧
  ((is_active o = true ∧ is_active o' = true) ∨
   (live_completed o = true ∧ live_completed o' = true ∧ filter_of o = filter_of o')).
Proof.
  unfold index_conflict. rewrite andb_true_iff, orb_true_iff, !andb_true_iff, !bool_decide_eq_true.
  naive_solver.
Qed.

Lemma index_conflict_comm o o' : index_conflict o o' = index_conflict o' o.
Proof.
  apply Bool.eq_iff_eq_true. rewrite !index_conflict_iff. naive_solver.
Qed.

(** A legal change of a row conflicts with no other row. *)
Lemma legal_no_conflict now d i j o o' x :
  inv d → ops d !! i = Some o → op_legal now o o' → ops d !! j = Some x → j ≠ i →
  index_conflict o' x = false.
Proof.
  intros I Ho L Hx Hne. apply not_true_iff_false. intros (Hm & Hc)%index_conflict_iff.
  pose proof (op_legal_fields _ _ _ L) as (Em & Ef & El). rewrite Em in Hm. rewrite Ef in Hc.
  assert (index_conflict o x = true ∨ (is_active o = true ∧ is_live_reset o = true ∧
    live_completed x = true ∧ filter_of o = filter_of x)) as [H|(Ha & Hl & Hx' & Hf)].
  { rewrite index_conflict_iff. destruct Hc as [[Ha Hx']|(Hl & Hx' & Hf)].
    - left. split; [done|left]. split; [|done]. by eapply op_legal_active.
    - destruct (op_legal_completed _ _ _ L Hl) as [?|[? ?]]; [left|right]; auto. }
  - by rewrite (iv_index _ I i j o x) in H.
  - by eapply (iv_first _ I i j).
Qed.

Lemma legal_unique now d i o o' :
  inv d → ops d !! i = Some o → op_legal now o o' → unique_ops i o' (ops d) = true.
Proof.
  intros I Ho L. unfold unique_ops. apply negb_true_iff, not_true_iff_false.
  intros ([j x] & Hin & H)%existsb_exists. apply list_elem_of_In, elem_of_map_to_list in Hin.
  split_bools. cbn in *. apply negb_true_iff, bool_decide_eq_false in H.
  by rewrite (legal_no_conflict now d i j o) in H0.
Qed.

Lemma legal_update_no_unique now d i p f :
  inv d → (∀ o, ops d !! i = Some o → p o = true → op_legal now o (f o)) →
  update_op i p f d ≠ Err UniqueViolation.
Proof.
  intros I Hl H. unfold update_op in H. destruct (ops d !! i) as [o|] eqn:Ho; [|done].
  destruct (p o) eqn:Hp; [|done]. destruct (op_check (f o)); cbn in H; [|done].
  by rewrite (legal_unique now d i o) in H by auto.
Qed.

Lemma inv_update_op now i p f d b d' :
  inv d → update_op i p f d = Ok (b, d') →
  (∀ o, ops d !! i = Some o → p o = true → op_legal now o (f o)) → inv d'.
Proof.
  intros I [(_ & -> & _)|(o & _ & Ho & Hp & _ & _ & ->)]%update_op_Ok Hl; [done|].
  specialize (Hl o Ho Hp). pose proof (op_legal_fields _ _ _ Hl) as (Em & Ef & El).
  assert (∀ j x, <[i:=f o]> (ops d) !! j = Some x →
            (j = i ∧ x = f o) ∨ (j ≠ i ∧ ops d !! j = Some x)) as Hcase.
  { intros j x. destruct (decide (j = i)) as [->|Hne].
    - rewrite lookup_insert_eq. intros [= <-]. by left.
    - rewrite lookup_insert_ne by done. by right. }
  split; cbn; try apply I.
  - destruct I as [[Fo Fm Fi]]. split; cbn; [|done|done].
    intros j [<-|[_ ?]]%lookup_insert_is_Some; eauto.
  - intros j j' x x' [[-> ->]|[Hj Hx]]%Hcase [[-> ->]|[Hj' Hx']]%Hcase Hne; try done.
    + by apply (legal_no_conflict now d i j' o).
    + rewrite index_conflict_comm. by apply (legal_no_conflict now d i j o).
    + by eapply (iv_index _ I j j').
  - intros j x [[-> ->]|[_ Hx]]%Hcase Ha Hr; [|by eapply (iv_approved _ I)].
    rewrite (ol_req _ _ _ Hl), Em. apply (iv_approved _ I i); [done|by eapply op_legal_active|congruence].
  - intros j j' x x' Hx Ha Hr Hx' Hc Hm Hf.
    apply Hcase in Hx as [[-> ->]|[Hj Hx]]; apply Hcase in Hx' as [[-> ->]|[Hj' Hx']].
    + unfold live_completed in Hc. apply is_active_iff in Ha. split_bools. destruct Ha; congruence.
    + apply (iv_first _ I i j' o x'); try congruence. by eapply op_legal_active.
    + destruct (op_legal_completed _ _ _ Hl Hc) as [Hc'|[Ha' _]].
      * apply (iv_first _ I j i x o); congruence.
      * pose proof (iv_index _ I j i x o Hx Ho Hj) as Hi. apply not_true_iff_false in Hi.
        apply Hi, index_conflict_iff. split; [congruence|by left].
    + by eapply (iv_first _ I j j').
Qed.

Lemma inv_update_items p f d ks d' :
  inv d → update_items p f d = Ok (ks, d') →
  (∀ t, p t = true → it_req (f t) = it_req t) → inv d'.
Proof.
  intros I (_ & Hd & Hk & _)%update_items_Ok Hr. rewrite Hd. rewrite Hd in Hk. cbn in Hk. clear Hd.
  assert (∀ k t, items d' !! k = Some t → ∃ t0, items d !! k = Some t0 ∧ it_req t = it_req t0) as Hb.
  { intros k t Ht. rewrite Hk in Ht. apply fmap_Some in Ht as (t0 & ? & ->). exists t0.
    split; [done|]. destruct (p t0) eqn:Hp; [by apply Hr|done]. }
  split; cbn; try apply I.
  - destruct I as [[Fo Fm Fi]]. split; cbn; [done|done|]. intros k [t (t0 & ? & _)%Hb]. eauto.
  - intros k k' t t' (t0 & H0 & E)%Hb (t1 & H1 & E')%Hb. unfold of_site. rewrite E, E'.
    by apply (iv_sites _ I k k' t0 t1).
  - intros k t (t0 & H0 & E)%Hb. rewrite E. by eapply (iv_item_ids _ I).
Qed.

Lemma inv_update_mans p f d ks d' :
  inv d → update_mans p f d = Ok (ks, d') →
  (∀ m, man_req (f m) = man_req m) →
  (∀ k m, mans d !! k = Some m → p k m = true → man_stat m = Approved →
     ∀ i o, ops d !! i = Some o → is_active o = true → is_live_reset o = true →
            month_of o ≠ man_month (man_req m)) →
  inv d'.
Proof.
  intros I (_ & Hd & Hk & _)%update_mans_Ok Hr Ha. rewrite Hd. rewrite Hd in Hk. cbn in Hk. clear Hd.
  assert (∀ k m, mans d' !! k = Some m → ∃ m0, mans d !! k = Some m0 ∧ man_req m = man_req m0) as Hb.
  { intros k m Hm. rewrite Hk in Hm. apply fmap_Some in Hm as (m0 & ? & ->). exists m0.
    split; [done|]. by destruct (p k m0). }
  split; cbn; try apply I.
  - destruct I as [[Fo Fm Fi]]. split; cbn; [done| |done]. intros k [m (m0 & ? & _)%Hb]. eauto.
  - intros i o Ho Hact Hl. destruct (iv_approved _ I i o Ho Hact Hl) as (k & m & Hid & Hm & Hap).
    exists k, m. split_and!; [done| |done]. rewrite Hk, Hm. cbn. destruct (p k m) eqn:Hp; [|done].
    exfalso. unfold approved_for in Hap. split_bools.
    apply (Ha k m Hm Hp ltac:(done) i o Ho Hact Hl). by apply eq_sym, String.eqb_eq.
  - intros k k' m m' (m0 & H0 & E)%Hb (m1 & H1 & E')%Hb. rewrite E, E'. by apply (iv_mans _ I).
  - intros k m (m0 & H0 & E)%Hb. rewrite E. by eapply (iv_man_ids _ I).
Qed.

Lemma inv_insert_op now kind m only dry sub k d :
  inv d → active_reservation m d = None →
  ((String.eqb kind "reset" && negb dry) = true → live_reset_gate m only k d = None) →
  inv (Db (<[next_op d := new_operation now kind m only dry sub k]> (ops d))
          (<[next_man d := new_manifest now (next_op d) kind m sub]> (mans d)) (items d)
          (next_op d + 1) (next_man d + 1) (next_item d)).
Proof.
  intros I Hact Hgate. pose proof (iv_fresh _ I) as [Fo Fm Fi].
  set (o := new_operation _ _ _ _ _ _ _). set (n := new_manifest _ _ _ _ _).
  pose proof (fresh_None _ _ Fo) as No. pose proof (fresh_None _ _ Fm) as Nm.
  unfold active_reservation in Hact. apply fmap_None in Hact.
  assert (∀ j x, ops d !! j = Some x → month_of x = m → is_active x = true → False) as Hna.
  { intros j x Hx Hm Ha. apply (newest_None _ _ _ _ Hact) in Hx. by rewrite Hm, String.eqb_refl, Ha in Hx. }
  assert (∀ j x, ops d !! j = Some x → index_conflict o x = false) as Hnc.
  { intros j x Hx. apply not_true_iff_false. intros (Hm & [[_ Ha]|(Hl & _)])%index_conflict_iff.
    - by eapply Hna.
    - unfold live_completed in Hl. split_bools. done. }
  split; cbn.
  - split; cbn; [| |done]; intros j [<-|[_ H]]%lookup_insert_is_Some; try lia.
    + specialize (Fo j H). lia.
    + specialize (Fm j H). lia.
  - intros j j' x x'. rewrite !lookup_insert_Some.
    intros [[<- <-]|[Hj Hx]] [[<- <-]|[Hj' Hx']] Hne; try done.
    + by eapply Hnc.
    + rewrite index_conflict_comm. by eapply Hnc.
    + by eapply (iv_index _ I j j').
  - intros j x. rewrite lookup_insert_Some. intros [[<- <-]|[Hj Hx]] Ha Hl.
    + unfold is_live_reset in Hl. cbn in Hl. specialize (Hgate Hl). unfold live_reset_gate in Hgate.
      destruct (completed_live _ _ _); [done|]. destruct (any_item _ _); [done|].
      cbn. rewrite Hl. unfold approved_manifest_error in Hgate. destruct k as [k|]; [|done].
      destruct (mans d !! k) as [mn|] eqn:Hk; [|done].
      destruct (approved_for m mn) eqn:Hap; [|done]. exists k, mn. split_and!; [done| |done].
      rewrite lookup_insert_ne; [done|]. by intros <-; rewrite Nm in Hk.
    + destruct (iv_approved _ I j x Hx Ha Hl) as (k' & m' & ? & Hm' & ?). exists k', m'.
      split_and!; [done| |done]. rewrite lookup_insert_ne; [done|]. by intros <-; rewrite Nm in Hm'.
  - intros j j' x x'. rewrite !lookup_insert_Some.
    intros [[<- <-]|[Hj Hx]] Ha Hl [[<- <-]|[Hj' Hx']] Hc Hm Hf.
    + unfold live_completed in Hc. split_bools. done.
    + unfold is_live_reset in Hl. cbn in Hl. specialize (Hgate Hl). unfold live_reset_gate in Hgate.
      destruct (completed_live m (default ""%string only) d) eqn:E; [done|].
      by eapply (completed_live_None _ _ _ _ _ E Hx').
    + unfold live_completed in Hc. split_bools. done.
    + by eapply (iv_first _ I j j').
  - apply (iv_sites _ I).
  - intros j j' x x'. rewrite !lookup_insert_Some.
    intros [[<- <-]|[Hj Hx]] [[<- <-]|[Hj' Hx']] Heq; try done; cbn in Heq.
    + apply (iv_man_ids _ I) in Hx'. lia.
    + apply (iv_man_ids _ I) in Hx. lia.
    + by eapply (iv_mans _ I).
  - intros j x. rewrite lookup_insert_Some. intros [[<- <-]|[Hj Hx]]; cbn; [lia|].
    apply (iv_man_ids _ I) in Hx. lia.
  - intros j t Ht. apply (iv_item_ids _ I) in Ht. lia.
Qed.

Lemma inv_ensure_item now i m next w e d x : inv d → inv (ensure_item now i m next w e d x).
Proof.
  intros I. destruct (ensure_item_cases now i m next w e d x) as [->|(Hop & Ha & Hd)]; [done|].
  pose proof (ensure_item_fresh now i m next w e d x (iv_fresh _ I)) as F. rewrite Hd in *. clear Hd.
  assert (∀ k t, items d !! k = Some t → of_site i (in_site x) t = false) as Hno.
  { intros k t Ht. apply not_true_iff_false. intros Hs. apply not_true_iff_false in Ha.
    apply Ha, any_item_true. eauto. }
  split; cbn; try apply I; [done| |].
  { intros k k' t t'. rewrite !lookup_insert_Some.
    intros [[<- <-]|[Hk Ht]] [[<- <-]|[Hk' Ht']] Hs; try done; cbn in Hs.
    - by rewrite (Hno k' t' Ht') in Hs.
    - specialize (Hno k t Ht). unfold of_site in *. cbn in Hs.
      rewrite Z.eqb_sym, String.eqb_sym in Hs. congruence.
    - by eapply (iv_sites _ I). }
  intros k t. rewrite lookup_insert_Some. intros [[_ <-]|[_ Ht]].
  - cbn. apply op_exists_true in Hop as (o & Ho & _). apply I. by exists o.
  - by eapply (iv_item_ids _ I).
Qed.

Lemma inv_fence_stale now m d d' : inv d → fence_stale_operation now m d = Ok d' → inv d'.
Proof.
  intros I H. unfold fence_stale_operation in H. destruct (newest _ d); [|by simplify_eq].
  inv_res. destruct v as [ks d1]. inv_res. destruct v as [b d2]. simplify_eq.
  eapply (inv_update_op now); [eapply inv_update_items; [exact I|exact Hv|done]|exact Hv0|].
  intros o _ Hp. cbn beta in Hp. split_bools. apply op_legal_keep; cbn; auto using path_fail, running_active.
Qed.

Lemma inv_reserve now kind m only dry sub k d r d' :
  inv d → reserve now kind m only dry sub k d = Ok (r, d') → inv d'.
Proof.
  intros I H. unfold reserve in H. inv_res. pose proof (inv_fence_stale _ _ _ _ I Hv0) as I0.
  destruct (active_reservation m v0) eqn:Ha; [by simplify_eq|].
  destruct (if String.eqb kind "reset" && negb dry then live_reset_gate m (normalize_only only) k v0
            else None) eqn:Hg; [by simplify_eq|].
  unfold insert_reservation in H. rewrite Ha in H. inv_res. simplify_eq.
  apply inv_insert_op; [done..|]. intros Hl. by rewrite Hl in Hg.
Qed.

Lemma inv_start now i w fresh_id lease d r d' :
  inv d → start now i w fresh_id lease d = Ok (r, d') → inv d'.
Proof.
  intros I H. unfold start in H. inv_res. destruct v0 as [b d1].
  assert (inv d1) as I1.
  { eapply (inv_update_op now); [done|exact Hv0|]. intros o _ Hp. cbn beta in Hp. split_bools.
    by apply start_legal. }
  destruct b; [by simplify_eq|]. inv_res. destruct v0 as [b d2]. simplify_eq.
  eapply (inv_update_op now); [exact I1|exact Hv1|]. intros o _ Hp. cbn beta in Hp. split_bools.
  by apply fail_legal, queued_active.
Qed.

Lemma inv_publish p s f d ks d' :
  inv d → publish p s f d = Ok (ks, d') → (∀ x m, man_req (f x m) = man_req m) →
  (∀ k m, p k m = true → man_stat m = Building) → inv d'.
Proof.
  intros I [(_ & ->)|(x & _ & H)]%publish_Ok Hr Hb; [done|].
  eapply inv_update_mans; [done|exact H|auto|]. intros k m _ Hp Ha. apply Hb in Hp. congruence.
Qed.

Lemma inv_finish_reset now i r rd k sha cd w e d x d' :
  inv d → finish_reset_success now i r rd k sha cd w e d = Ok (x, d') → inv d'.
Proof.
  intros I H. unfold finish_reset_success in H. inv_res.
  destruct v as [ks1 d1]. inv_res. destruct v0 as [b d2]. inv_res.
  destruct v1 as [ks3 d3]. inv_res. simplify_eq.
  assert (inv d1) as I1.
  { eapply inv_publish; [done|exact Hv|done|]. intros ? ? Hp. cbn beta in Hp. by split_bools. }
  assert (inv d2) as I2.
  { eapply (inv_update_op now); [done|eassumption|]. intros o _ Hp. cbn beta in Hp. split_bools.
    apply finish_legal; [|by left]. by eapply runs_lease_holds. }
  eapply inv_update_mans; [exact I2|eassumption|done|].
  intros k' m _ Hp Hap j o Hj Hact Hl Heq. cbn beta in Hp. split_bools.
  apply negb_false_iff in Hv2. subst b.
  apply update_op_Ok in Hv1 as [(? & _)|(oi & _ & Hoi & Hpi & _ & _ & ->)]; [done|].
  cbn in H0, Hj. rewrite lookup_insert_eq in H0. apply String.eqb_eq in H0. cbn beta in Hpi. split_bools.
  destruct (decide (j = i)) as [->|Hne].
  - rewrite lookup_insert_eq in Hj. injection Hj as <-. apply is_active_iff in Hact. by destruct Hact.
  - rewrite lookup_insert_ne in Hj by done.
    pose proof (iv_index _ I1 i j oi o Hoi Hj ltac:(done)) as Hc. apply not_true_iff_false in Hc.
    apply Hc, index_conflict_iff. split; [|left; split; [|done]].
    + rewrite Heq, H0. done.
    + by eapply running_active, runs_lease_holds.
Qed.

Lemma approved_for_stat s m : approved_for s m = true → man_stat m = Approved.
Proof. unfold approved_for. intros H. by split_bools. Qed.

(** What a committed success says of the operation and its two manifests. *)
Lemma finish_reset_success_Ok now i r rd k sha cd w e d x d' :
  inv d → finish_reset_success now i r rd k sha cd w e d = Ok (x, d') →
  ∃ o m m', ops d !! i = Some o ∧ runs_lease now w e o = true ∧ is_live_reset o = true ∧
    approved_manifest_id (op_req o) = Some k ∧
    (∃ o', ops d' !! i = Some o' ∧ op_stat o' = COMPLETED) ∧
    mans d !! k = Some m ∧ man_stat m = Approved ∧ manifest_sha256 m = Some sha ∧
    mans d' !! k = Some m' ∧ man_stat m' = Consumed ∧ consumed_at m' = Some now.
Proof.
  intros I H. unfold finish_reset_success in H. inv_res.
  destruct v as [ks1 d1]. inv_res. destruct v0 as [b d2]. inv_res.
  destruct v1 as [ks3 d3]. inv_res. simplify_eq. apply negb_false_iff in Hv2. subst b.
  apply update_op_Ok in Hv1 as [(? & _)|(o & _ & Ho & Hp & _ & _ & ->)]; [done|].
  cbn beta in Hp. rewrite !andb_true_iff, bool_decide_eq_true in Hp. destruct Hp as [[Hlive Hrl] Hid].
  assert (ops d1 = ops d ∧ ∀ m, mans d !! k = Some m → man_stat m = Approved → mans d1 !! k = Some m)
    as [Hops Hkeep].
  { apply publish_Ok in Hv as [(_ & ->)|(s & _ & Hu)]; [done|].
    apply update_mans_Ok in Hu as (_ & Hd1 & Hk1 & _). split; [by rewrite Hd1|].
    intros m Hm Ha. rewrite Hk1, Hm. cbn [fmap option_fmap option_map].
    destruct (_ && op_exists _ _ _) eqn:Hc; [|done]. exfalso. split_bools. congruence. }
  rewrite Hops in Ho. apply runs_lease_holds in Hrl as Hrun. destruct Hrun as [Hrun _].
  destruct (iv_approved _ I i o Ho (running_active _ Hrun) Hlive) as (k' & m & Hk' & Hm & Hap).
  assert (k' = k) as -> by congruence. apply approved_for_stat in Hap.
  specialize (Hkeep m Hm Hap).
  apply update_mans_Ok in Hv3 as (Hks & Hd & Hk & _). cbn in Hk.
  destruct ks3 as [|k3 ks3]; [done|].
  assert (k3 ∈ k3 :: ks3) as Hin by (by left). rewrite Hks in Hin.
  apply elem_of_man_keys in Hin as (m2 & Hm2 & Hp2). cbn beta in Hp2.
  cbn [mans set_ops ops] in Hm2, Hp2.
  assert (k3 = k) as -> by (split_bools; lia). assert (m2 = m) as -> by congruence.
  exists o, m, (consume_set cd now m). split_and!; try done.
  - exists (finish_set COMPLETED r None now o). split; [|done]. rewrite Hd. cbn.
    by rewrite lookup_insert_eq.
  - by split_bools.
  - rewrite Hk, Hkeep. cbn [fmap option_fmap option_map]. by rewrite Hp2.
Qed.

Lemma inv_claim_reconciliation now l w lease n d ks d' :
  inv d → claim_reconciliation_candidates now l w lease n d = Ok (ks, d') → inv d'.
Proof.
  intros I H. unfold claim_reconciliation_candidates in H. inv_res. simplify_eq. revert I Hv.
  generalize (reconciliation_candidates now l n d) as js. intros js. revert d.
  induction js as [|j js IH]; intros d I; cbn; [by intros [= <-]|].
  intros H. inv_res. destruct v0 as [b d1]. simplify_eq. eapply IH; [|exact H].
  eapply (inv_update_op now); [exact I|exact Hv0|]. intros o _ _.
  apply op_legal_bump; [done|apply rtc_refl|done].
Qed.

Lemma call_form_inv now d d' : inv d → call_form now d (Ok d') → inv d'.
Proof.
  intros I [i p f H Hl|p f H Hl]; symmetry in H; apply fmap_snd_Ok in H as [x H].
  - eapply inv_update_op; [exact I|exact H|auto].
  - eapply inv_update_items; [exact I|exact H|]. intros t Hp. by eapply il_req, Hl.
Qed.

Lemma run_call_inv now c d d' : inv d → run_call now c d = Ok d' → inv d'.
Proof.
  intros I H. pose proof (item_call_form now c d) as Hi. pose proof (op_call_form now c d) as Ho.
  rewrite H in Hi, Ho. destruct c; try (by eapply call_form_inv); clear Hi Ho; cbn [run_call] in H;
    try (apply fmap_snd_Ok in H as [x H]).
  - by eapply inv_reserve.
  - by eapply inv_start.
  - by eapply inv_finish_reset.
  - unfold mark_cancelled_uncertain in H. inv_res. destruct v as [ks d1].
    eapply (inv_update_op now); [eapply inv_update_items; [exact I|exact Hv|done]|exact H|].
    intros o _ Hp. cbn beta in Hp. split_bools. by apply fail_legal.
  - injection H as <-. unfold ensure_reset_items. revert d I.
    induction entries as [|y es IH]; intros d I; cbn; [done|]. by apply IH, inv_ensure_item.
  - by eapply inv_claim_reconciliation.
  - unfold persist_manifest_result in H. inv_res. destruct v as [ks d1]. inv_res. simplify_eq.
    eapply inv_publish; [exact I|exact Hv|done|]. intros k m Hp. cbn beta in Hp. by split_bools.
  - unfold approve_manifest in H. inv_res. destruct v as [ks d1]. simplify_eq.
    eapply inv_update_mans; [exact I|exact Hv|done|].
    intros j m _ Hp Ha. cbn beta in Hp. split_bools. congruence.
Qed.

(** ** Runs *)

Lemma steps_time x y : steps x y → x.1 <= y.1.
Proof. induction 1 as [|x y z [Ht _] _ IH]; [done|lia]. Qed.

Lemma steps_inv x y : steps x y → inv x.2 → inv y.2.
Proof. induction 1 as [|x y z [_ [c Hc]] _ IH]; [done|]. eauto using run_call_inv. Qed.

Lemma reachable_inv x : reachable x → inv x.2.
Proof. intros [t H]. eapply steps_inv; [exact H|]. apply inv_empty. Qed.

Lemma reachable_steps x y : reachable x → steps x y → reachable y.
Proof. intros [t H] H'. exists t. unfold steps in *. by etrans. Qed.

(** A property of databases that one evolution keeps holds along a run. *)
Lemma steps_keep (P : Z * db → Prop) x y :
  (∀ t d t' d', t <= t' → P (t, d) → evolves t' d d' → P (t', d')) →
  steps x y → inv x.2 → P x → P y.
Proof.
  intros HP. induction 1 as [|[t d] [t' d'] z [Ht [c Hc]] _ IH]; [done|]. intros I Hx. cbn in *.
  apply IH; [by eapply run_call_inv|]. eapply HP; [exact Ht|exact Hx|].
  by eapply run_call_evolves; [apply I|].
Qed.

Lemma run_calls_steps cs x y : run_calls x cs = Ok y → steps x y.
Proof.
  unfold run_calls. revert x. induction cs as [|[t c] cs IH]; intros x; cbn; [intros [= ->]; apply rtc_refl|].
  intros H. inv_res. simplify_eq. eapply rtc_l; [|by apply IH]. split; cbn; [lia|]. by exists c.
Qed.

Lemma run_calls_reachable t cs y : run_calls (t, empty_db) cs = Ok y → reachable y.
Proof. intros H. exists t. by eapply run_calls_steps. Qed.

(** ** The unique indexes are never violated *)

Lemma update_items_no_unique p f d : update_items p f d ≠ Err UniqueViolation.
Proof. unfold update_items. intros [H%update_keys_Err|(t & _ & H)]%bind_Err; naive_solver. Qed.

Lemma update_mans_no_unique p f d : update_mans p f d ≠ Err UniqueViolation.
Proof. unfold update_mans. intros [H%update_keys_Err|(t & _ & H)]%bind_Err; naive_solver. Qed.

Lemma publish_no_unique p s f d : publish p s f d ≠ Err UniqueViolation.
Proof.
  unfold publish. destruct (existsb _ _); [|done]. intros [H|(x & _ & H)]%bind_Err.
  - destruct s as [s|]; cbn in H; [|done]. by destruct (manifest_status_of_text s).
  - by apply update_mans_no_unique in H.
Qed.

Lemma fmap_snd_Err {E A} (r : res E (A * db)) e : snd <$> r = Err e → r = Err e.
Proof. by destruct r as [[x d]|e']; cbn; intros [= ->]. Qed.

Lemma call_form_no_unique now d : inv d → ¬ call_form now d (Err UniqueViolation).
Proof.
  intros I [i p f H Hl|p f H Hl]; symmetry in H; apply fmap_snd_Err in H.
  - eapply legal_update_no_unique; [exact I| |exact H]. auto.
  - by eapply update_items_no_unique.
Qed.

Lemma reserve_no_unique now kind m only dry sub k d :
  inv d → reserve now kind m only dry sub k d ≠ Err UniqueViolation.
Proof.
  intros I H. unfold reserve in H. apply bind_Err in H as [[_ ?]%raise_if_Err|(u & _ & H)]; [done|].
  apply bind_Err in H as [H|(d1 & Hf & H)].
  - unfold fence_stale_operation in H. destruct (newest _ d); [|done].
    apply bind_Err in H as [H|([ks d1] & H1 & H)]; [by apply update_items_no_unique in H|].
    apply bind_Err in H as [H|([b d2] & _ & H)]; [|done].
    revert H. apply legal_update_no_unique with now.
    + eapply inv_update_items; [exact I|exact H1|done].
    + intros o _ Hp. cbn beta in Hp. split_bools.
      apply op_legal_keep; cbn; auto using path_fail, running_active.
  - destruct (active_reservation m d1) eqn:Ha; [done|].
    destruct (if String.eqb kind "reset" && negb dry then live_reset_gate m (normalize_only only) k d1
              else None); [done|].
    unfold insert_reservation in H. rewrite Ha in H.
    apply bind_Err in H as [[_ ?]%raise_if_Err|(? & _ & H)]; [done|].
    by apply bind_Err in H as [[_ ?]%raise_if_Err|(? & _ & H)].
Qed.

Lemma start_no_unique now i w fresh_id lease d :
  inv d → start now i w fresh_id lease d ≠ Err UniqueViolation.
Proof.
  intros I H. unfold start in H. apply bind_Err in H as [[_ ?]%raise_if_Err|(u & _ & H)]; [done|].
  apply bind_Err in H as [H|([b d1] & H1 & H)].
  - revert H. apply legal_update_no_unique with now; [done|]. intros o _ Hp. cbn beta in Hp.
    split_bools. by apply start_legal.
  - destruct b; [done|]. apply bind_Err in H as [H|([b d2] & _ & H)]; [|done].
    revert H. apply legal_update_no_unique with now.
    + eapply (inv_update_op now); [exact I|exact H1|]. intros o _ Hp. cbn beta in Hp. split_bools.
      by apply start_legal.
    + intros o _ Hp. cbn beta in Hp. split_bools. by apply fail_legal, queued_active.
Qed.

Lemma finish_reset_no_unique now i r rd k sha cd w e d :
  inv d → finish_reset_success now i r rd k sha cd w e d ≠ Err UniqueViolation.
Proof.
  intros I H. unfold finish_reset_success in H.
  apply bind_Err in H as [H|([ks d1] & H1 & H)]; [by apply publish_no_unique in H|].
  apply bind_Err in H as [[_ ?]%raise_if_Err|(u & _ & H)]; [done|].
  apply bind_Err in H as [H|([b d2] & H2 & H)].
  - revert H. apply legal_update_no_unique with now.
    + eapply inv_publish; [exact I|exact H1|done|]. intros ? ? Hp. cbn beta in Hp. by split_bools.
    + intros o _ Hp. cbn beta in Hp. split_bools.
      apply finish_legal; [|by left]. by eapply runs_lease_holds.
  - apply bind_Err in H as [[_ ?]%raise_if_Err|(u' & _ & H)]; [done|].
    apply bind_Err in H as [H|([ks3 d3] & _ & H)]; [by apply update_mans_no_unique in H|].
    by apply bind_Err in H as [[_ ?]%raise_if_Err|(? & _ & H)].
Qed.

Lemma claim_reconciliation_no_unique now l w lease n d :
  inv d → claim_reconciliation_candidates now l w lease n d ≠ Err UniqueViolation.
Proof.
  intros I H. unfold claim_reconciliation_candidates in H.
  apply bind_Err in H as [H|(? & _ & H)]; [|done].
  revert H. generalize (reconciliation_candidates now l n d) as js. intros js. revert d I.
  assert (∀ o, op_legal now o (reconcile_claim_set now w lease o)) as L.
  { intros o. apply op_legal_bump; [done|apply rtc_refl|done]. }
  induction js as [|j js IH]; intros d I; cbn; [done|].
  intros [H|(d1 & H1 & H)]%bind_Err.
  - apply bind_Err in H as [H|([b d1] & _ & H)]; [|done].
    revert H. apply legal_update_no_unique with now; auto.
  - inv_res. destruct v as [b d2]. simplify_eq. revert H. apply IH.
    eapply (inv_update_op now); [exact I|exact Hv|auto].
Qed.
