(* ===== verification/GrileMonthlySpec.v ===== *)
(** Properties of the monthly closeout: the unique indexes, the authorisation of
    live resets, the fencing of executions, the single use of destructive intents
    and the gate that blocks a month. *)

From S2P Require Import Prelude Text Table Grile GrileMonthly GrileMonthlyInv.
Import Grile Monthly.

Local Open Scope Z_scope.

(** ** Safety of every reachable database *)

(** C30: in every reachable database a month has at most one operation queued or
    running and at most one completed live reset per store filter, a live reset
    that is queued or running refers to an approved, error-free and complete
    archive manifest of its month, and an operation has one checkpoint per store
    and one manifest. *)
Theorem monthly_invariant x :
  reachable x →
  (∀ i j o o', ops x.2 !! i = Some o → ops x.2 !! j = Some o' →
     is_active o = true → is_active o' = true → month_of o = month_of o' → i = j) ∧
  (∀ i j o o', ops x.2 !! i = Some o → ops x.2 !! j = Some o' →
     live_completed o = true → live_completed o' = true → month_of o = month_of o' →
     filter_of o = filter_of o' → i = j) ∧
  (∀ i o, ops x.2 !! i = Some o → is_active o = true → is_live_reset o = true →
     ∃ k m, approved_manifest_id (op_req o) = Some k ∧ mans x.2 !! k = Some m ∧
            approved_for (month_of o) m = true) ∧
  (∀ k k' t t', items x.2 !! k = Some t → items x.2 !! k' = Some t' →
     it_operation_id (it_req t) = it_operation_id (it_req t') →
     in_site (site (it_req t)) = in_site (site (it_req t')) → k = k') ∧
  (∀ k k' m m', mans x.2 !! k = Some m → mans x.2 !! k' = Some m' →
     man_operation_id (man_req m) = man_operation_id (man_req m') → k = k').
Proof.
  intros I%reachable_inv.
  assert (∀ i j o o', ops x.2 !! i = Some o → ops x.2 !! j = Some o' →
            index_conflict o o' = true → i = j) as Hc.
  { intros i j o o' Ho Ho' H. destruct (decide (i = j)); [done|].
    by rewrite (iv_index _ I i j o o') in H. }
  split_and!.
  - intros i j o o' Ho Ho' ? ? ?. apply (Hc i j o o'); [done..|]. apply index_conflict_iff. auto.
  - intros i j o o' Ho Ho' ? ? ? ?. apply (Hc i j o o'); [done..|]. apply index_conflict_iff. auto.
  - apply (iv_approved _ I).
  - intros k k' t t' Ht Ht' Eo Es. eapply (iv_sites _ I); [exact Ht|exact Ht'|].
    unfold of_site. by rewrite Eo, Es, Z.eqb_refl, String.eqb_refl.
  - apply (iv_mans _ I).
Qed.

(** No call, with whatever arguments, ever fails on a unique index: the
    guards of the statements exclude every collision in advance. *)
Theorem unique_index_never_violated x now c :
  reachable x → run_call now c x.2 ≠ Err UniqueViolation.
Proof.
  intros I%reachable_inv. destruct x as [t d]. cbn in *. intros H.
  pose proof (item_call_form now c d) as Hi. pose proof (op_call_form now c d) as Ho.
  rewrite H in Hi, Ho. destruct c; try (by apply (call_form_no_unique now d)); clear Hi Ho; cbn [run_call] in H;
    try apply fmap_snd_Err in H; try done.
  - by apply reserve_no_unique in H.
  - by apply start_no_unique in H.
  - by apply finish_reset_no_unique in H.
  - unfold mark_cancelled_uncertain in H.
    apply bind_Err in H as [H|([ks d1] & H1 & H)]; [by apply update_items_no_unique in H|].
    revert H. apply legal_update_no_unique with now.
    + eapply inv_update_items; [exact I|exact H1|done].
    + intros o _ Hp. cbn beta in Hp. split_bools. by apply fail_legal.
  - by apply claim_reconciliation_no_unique in H.
  - unfold persist_manifest_result in H.
    apply bind_Err in H as [H|([ks d1] & _ & H)]; [by apply publish_no_unique in H|].
    by apply bind_Err in H as [[_ ?]%raise_if_Err|(? & _ & H)].
  - unfold approve_manifest in H.
    by apply bind_Err in H as [H|([ks d1] & _ & H)]; [apply update_mans_no_unique in H|].
Qed.

(** ** Fencing *)

Lemma update_items_head p f d ks d' k :
  update_items p f d = Ok (ks, d') → head ks = Some k →
  ∃ t, items d !! k = Some t ∧ p t = true ∧ items d' !! k = Some (f t).
Proof.
  intros (Hks & _ & Hk & _)%update_items_Ok Hh.
  assert (k ∈ ks) as Hin by (destruct ks; [done|]; injection Hh as ->; by left).
  rewrite Hks in Hin. apply elem_of_select_keys in Hin as (t & Ht & Hp). exists t.
  split_and!; [done..|]. by rewrite Hk, Ht; cbn; rewrite Hp.
Qed.

(** What an execution that no longer holds its lease can do: nothing. *)
Record powerless (now : Z) (i : Z) (w : string) (e : Z) (d : db) : Prop := {
  pw_heartbeat lease : heartbeat now i w e lease d = Ok (false, d);
  pw_finish r error : finish now i r error w e d = Ok (false, d);
  pw_fail error : fail now i error w e d = Ok (false, d);
  pw_cancel error : mark_cancelled_uncertain now i error w e d = Ok (false, d);
  pw_reconciled c error alert : mark_reconciliation_result now i w e c error alert d = Ok (false, d);
  pw_ensure m next es : ensure_reset_items now i m next es w e d = d;
  pw_claim code : claim_reset_item now i code w e d = Ok (false, d);
  pw_backup code path sha : record_reset_item_backup now i code path sha w e d = Ok (false, d);
  pw_record code r error : record_reset_item_rollback now i code r w e error d = Ok (false, d);
  pw_item code k error : finish_reset_item now i code k w e error d = Ok (false, d);
  pw_clear code : prepare_reset_clear now i code w e d = Ok (None, d);
  pw_confirm code f v error : confirm_reset_clear now i code w e f v error d = Ok (false, d);
  pw_rollback code : prepare_reset_rollback now i code w e d = Ok (None, d);
  pw_restored code f r error : confirm_reset_rollback now i code w e f r error d = Ok (false, d);
  pw_recovery code error : mark_item_recovery_required now i code w e error d = Ok (false, d);
  pw_retry code : mark_item_safe_retry now i code w e d = Ok (false, d);
  pw_persist doc code : ∃ msg, persist_manifest_result now i doc w e code d = Err (RuntimeErr msg);
  pw_success r rd k sha cd : ∃ msg, finish_reset_success now i r rd k sha cd w e d = Err (RuntimeErr msg);
}.

Lemma publish_none p s f d : (∀ k m, mans d !! k = Some m → p k m = false) → publish p s f d = Ok ([], d).
Proof.
  intros Hp. unfold publish. destruct (existsb _ _) eqn:H; [|done].
  apply existsb_exists in H as ([k m] & Hin & H). apply list_elem_of_In, elem_of_map_to_list in Hin.
  cbn in H. by rewrite (Hp k m) in H.
Qed.

Lemma site_where_false i code p t : site_where i code false p t = false.
Proof. unfold site_where. apply andb_false_r. Qed.

Lemma lost_powerless now i w e d o :
  ops d !! i = Some o → holds_lease now w e o = false → powerless now i w e d.
Proof.
  intros Ho Hh.
  assert (runs_lease now w e o = false) as Hr by (unfold runs_lease; by rewrite Hh, andb_false_r).
  assert (op_exists i (holds_lease now w e) d = false) as Eh by (unfold op_exists; by rewrite Ho).
  assert (op_exists i (runs_lease now w e) d = false) as Er by (unfold op_exists; by rewrite Ho).
  assert (∀ p f, (p o = true → False) → update_op i p f d = Ok (false, d)) as U.
  { intros p f Hp. apply update_op_none. intros x Hx. assert (x = o) as -> by congruence.
    by apply not_true_iff_false. }
  assert (∀ code held p f, held = false → update_items (site_where i code held p) f d = Ok ([], d)) as S.
  { intros code held p f ->. apply update_items_none. intros k t _. apply site_where_false. }
  split; intros.
  - apply U. congruence.
  - unfold finish. destruct (terminal_state r) as [s|x] eqn:Hs; [apply U; congruence|].
    unfold terminal_state, terminal_operation_status in Hs. by case_bool_decide.
  - apply U. congruence.
  - unfold mark_cancelled_uncertain. rewrite Eh, update_items_none.
    + cbn. apply U. rewrite Hh, andb_false_r. done.
    + intros k t _. by rewrite andb_false_r.
  - apply U. congruence.
  - unfold ensure_reset_items. induction es as [|x es IH]; cbn; [done|].
    unfold ensure_item. by rewrite Er.
  - unfold claim_reset_item. by rewrite S.
  - unfold record_reset_item_backup. by rewrite S.
  - unfold record_reset_item_rollback. by rewrite S.
  - unfold finish_reset_item. by rewrite S.
  - unfold prepare_reset_clear. by rewrite S.
  - unfold confirm_reset_clear. by rewrite S.
  - unfold prepare_reset_rollback. by rewrite S.
  - unfold confirm_reset_rollback. by rewrite S.
  - unfold mark_item_recovery_required. by rewrite S.
  - unfold mark_item_safe_retry. by rewrite S.
  - unfold persist_manifest_result. rewrite publish_none; [by eexists|].
    intros k m _. by rewrite Er, andb_false_r.
  - unfold finish_reset_success. rewrite publish_none; [by eexists|].
    intros k' m _. by rewrite Er, andb_false_r.
Qed.

(** C31: an execution whose lease has run out, was cleared or was taken over never
    acts again under its epoch, whatever happens in between: every call it makes
    on the operation, its checkpoints or its manifest changes nothing. *)
Theorem expired_execution_is_powerless x y i o w e t :
  reachable x → ops x.2 !! i = Some o → e <= execution_epoch o →
  holds_lease x.1 w e o = false → steps x y → y.1 <= t → powerless t i w e y.2.
Proof.
  intros R%reachable_inv Ho He Hh S Ht.
  pose (P := λ z : Z * db, ∃ o, ops z.2 !! i = Some o ∧ e <= execution_epoch o ∧
                               holds_lease z.1 w e o = false).
  assert (P y) as (o' & Ho' & _ & Hh').
  { apply (steps_keep P x y); [|done|done|by exists o].
    intros u d u' d' Hu (a & Ha & Hea & Hla) E. cbn in *.
    destruct (ev_ops _ _ _ E _ _ Ha) as (a' & Ha' & [_ _ L F]). exists a'.
    split_and!; [done|lia|]. apply not_true_iff_false. intros H.
    destruct (F w e u' (Z.le_refl _) H) as [H'|H']; [|lia].
    apply (holds_lease_mono u) in H'; [congruence|done]. }
  eapply lost_powerless; [exact Ho'|]. apply not_true_iff_false. intros H.
  apply (holds_lease_mono y.1) in H; [congruence|done].
Qed.

(** ** Destructive intents *)

(** The intent to clear a store's sheet is granted only to a running
    checkpoint whose backup is persisted, and once: after it no later call by any
    execution obtains it again for that operation and store. *)
Theorem clear_intent_single_use now d i code w e t d1 y :
  reachable (now, d) → prepare_reset_clear now i code w e d = Ok (Some t, d1) → steps (now, d1) y →
  it_stat t = IRunning ∧ phase t = ClearIntent ∧ has_backup t = true ∧
  ∀ now' w' e', prepare_reset_clear now' i code w' e' y.2 = Ok (None, y.2).
Proof.
  intros R H S. assert (reachable (now, d1)) as R1.
  { eapply reachable_steps; [exact R|]. apply rtc_once. split; cbn; [lia|].
    exists (CPrepareClear i code w e). cbn. by rewrite H. }
  apply returning_Ok in H as (ks & H & Hh). symmetry in Hh. apply bind_Some in Hh as (k & Hh & Hk).
  destruct (update_items_head _ _ _ _ _ _ H Hh) as (t0 & Ht0 & Hp & Ht).
  assert (t = intent_item ClearIntent None now t0) as -> by congruence.
  apply site_where_true in Hp as (Hi & Hc & Hp & _). cbn beta in Hp.
  rewrite !andb_true_iff, in_status_true, list_elem_of_singleton in Hp. destruct Hp as [[Hst _] Hbk].
  split_and!; [done|done|done|].
  assert (inv y.2) as I by (apply reachable_inv; by eapply reachable_steps).
  pose (P := λ z : Z * db, ∃ x, items z.2 !! k = Some x ∧ of_site i code x = true ∧
                               backup_path x ≠ None ∧ phase x ≠ SnapshotPersisted).
  assert (P y) as (x & Hx & Hs & Hb & Hph).
  { apply (steps_keep P (now, d1) y); [|done|by apply (reachable_inv _ R1)|].
    - intros u a u' a' _ (x & Hx & Hs & Hb & Hph) E. cbn in *.
      destruct (ev_items _ _ _ E _ _ Hx) as (x' & Hx' & [Lr Lb _ Ls _]). exists x'.
      split_and!; [done| | |].
      + unfold of_site in *. by rewrite Lr.
      + by destruct (Lb Hb) as [-> _].
      + intros [?|?]%Ls; done.
    - exists (intent_item ClearIntent None now t0). cbn. split_and!; [done| |by apply has_backup_path|done].
      unfold of_site. cbn. by rewrite Hi, Hc, Z.eqb_refl, String.eqb_refl. }
  intros now' w' e'. unfold prepare_reset_clear. rewrite update_items_none; [done|].
  intros k' z Hz. apply not_true_iff_false. intros (Hi' & Hc' & Hp' & _)%site_where_true. cbn beta in Hp'. split_bools.
  assert (k' = k) as ->; [|congruence].
  eapply (iv_sites _ I); [exact Hz|exact Hx|]. by rewrite Hi', Hc'.
Qed.

(** ** The gate of live resets *)

Lemma reserve_Enqueued now kind m only dry sub k d i d' :
  reserve now kind m only dry sub k d = Ok (Enqueued i, d') →
  ∃ d1, fence_stale_operation now m d = Ok d1 ∧ active_reservation m d1 = None ∧
        ((String.eqb kind "reset" && negb dry) = true →
         live_reset_gate m (normalize_only only) k d1 = None) ∧
        i = next_op d1 ∧
        d' = Db (<[i := new_operation now kind m (normalize_only only) dry sub k]> (ops d1))
                (<[next_man d1 := new_manifest now i kind m sub]> (mans d1)) (items d1)
                (i + 1) (next_man d1 + 1) (next_item d1).
Proof.
  intros H. unfold reserve in H. inv_res. exists v0. split; [done|].
  destruct (active_reservation m v0) as [r|] eqn:Ha.
  { simplify_eq. unfold active_reservation in Ha. by destruct (newest _ _). }
  split; [done|].
  destruct (String.eqb kind "reset" && negb dry).
  - destruct (live_reset_gate m (normalize_only only) k v0) as [r|] eqn:Hg.
    { injection H as -> _. unfold live_reset_gate in Hg. destruct (completed_live _ _ _); [done|].
      destruct (any_item _ v0); [done|]. destruct (approved_manifest_error _ _ _); [done|].
      by destruct (any_item _ v0). }
    split; [done|]. unfold insert_reservation in H. rewrite Ha in H. inv_res. by simplify_eq.
  - split; [done|]. unfold insert_reservation in H. rewrite Ha in H. inv_res. by simplify_eq.
Qed.

Lemma live_reset_gate_None m only k d :
  live_reset_gate m only k d = None →
  (∀ i o, ops d !! i = Some o → live_completed o = true → month_of o = m →
          filter_of o = default ""%string only → False) ∧
  (∀ j t, items d !! j = Some t → it_month (it_req t) = m → blocking t = false) ∧
  (∀ j t, items d !! j = Some t → partial_effect m d t = false) ∧
  ∃ n mn, k = Some n ∧ mans d !! n = Some mn ∧ approved_for m mn = true.
Proof.
  unfold live_reset_gate. destruct (completed_live _ _ _) eqn:Hc; [done|].
  destruct (any_item (λ t, _ && blocking t) d) eqn:Hb; [done|].
  destruct (approved_manifest_error m k d) eqn:Hm; [done|].
  destruct (any_item (partial_effect m d) d) eqn:Hp; [done|]. intros _. split_and!.
  - intros i o Ho Hl Em Ef. by eapply (completed_live_None _ _ _ _ _ Hc Ho).
  - intros j t Ht Em. apply not_true_iff_false. intros H. apply not_true_iff_false in Hb.
    apply Hb, any_item_true. exists j, t. split; [done|]. by rewrite Em, String.eqb_refl, H.
  - intros j t Ht. apply not_true_iff_false. intros H. apply not_true_iff_false in Hp.
    apply Hp, any_item_true. eauto.
  - unfold approved_manifest_error in Hm. destruct k as [n|]; [|done].
    destruct (mans d !! n) as [mn|] eqn:Hn; [|done].
    destruct (approved_for m mn) eqn:Ha; [|done]. eauto.
Qed.

(** A live reset is enqueued only when no operation of the month is under way,
    no live reset of that month and filter has completed, the manifest named is
    the approved, error-free archive of the month, and no checkpoint of the month
    is uncertain, in recovery or the completed part of an operation that did not
    complete; the operation enqueued is the requested one, queued and unowned. *)
Theorem live_reset_admission x now m only sub k i d' :
  reachable x → reserve now "reset" m only false sub k x.2 = Ok (Enqueued i, d') →
  (∀ j o, ops d' !! j = Some o → month_of o = m → is_active o = true → j = i) ∧
  (∀ j o, ops d' !! j = Some o → live_completed o = true → month_of o = m →
          filter_of o ≠ default ""%string (normalize_only only)) ∧
  (∃ n mn, k = Some n ∧ mans d' !! n = Some mn ∧ man_month (man_req mn) = m ∧
           man_stat mn = Approved ∧ clean mn = true) ∧
  (∀ j t, items d' !! j = Some t → it_month (it_req t) = m → blocking t = false ∧
     (it_stat t = ICompleted → op_exists (it_operation_id (it_req t))
        (λ o, negb (bool_decide (op_stat o = COMPLETED))) d' = false)) ∧
  ops d' !! i = Some (new_operation now "reset" m (normalize_only only) false sub k).
Proof.
  intros R (d1 & Hf & Ha & Hg & -> & ->)%reserve_Enqueued. specialize (Hg eq_refl).
  apply reachable_inv in R. pose proof (inv_fence_stale _ _ _ _ R Hf) as I. clear R.
  apply live_reset_gate_None in Hg as (Hc & Hb & Hp & n & mn & Hk & Hm & Hap). cbn.
  split_and!.
  - intros j o. rewrite lookup_insert_Some. intros [[-> _]|[Hj Ho]]; [done|]. intros Em Hact.
    unfold active_reservation in Ha. apply fmap_None in Ha.
    apply (newest_None _ _ _ _ Ha) in Ho. by rewrite Em, String.eqb_refl, Hact in Ho.
  - intros j o. rewrite lookup_insert_Some. intros [[_ <-]|[Hj Ho]]; [done|]. eauto.
  - exists n, mn. unfold approved_for in Hap. split_bools. apply String.eqb_eq in H.
    split_and!; try done. destruct (decide (n = next_man d1)) as [->|Hne].
    + pose proof (fr_mans _ (iv_fresh _ I) _ (mk_is_Some _ _ Hm)). lia.
    + by rewrite lookup_insert_ne.
  - intros j t Ht Em. split; [by eapply Hb|]. intros Hst.
    pose proof (iv_item_ids _ I _ _ Ht) as Hid.
    specialize (Hp j t Ht). unfold partial_effect in Hp.
    rewrite Em, String.eqb_refl, bool_decide_eq_true_2 in Hp by done. cbn in Hp.
    unfold op_exists in *. cbn. rewrite lookup_insert_ne by lia. done.
  - by rewrite lookup_insert_eq.
Qed.

(** A checkpoint whose operation ended before its backup was recorded blocks
    the live resets of its month for ever: no sequence of calls, reconciliation
    included, ever lets one be enqueued again, although nothing was cleared. *)
Theorem unbacked_checkpoint_blocks_month x y k t o :
  reachable x → items x.2 !! k = Some t → stuck t →
  ops x.2 !! it_operation_id (it_req t) = Some o → is_active o = false → steps x y →
  ∀ now only sub mid j d', reserve now "reset" (it_month (it_req t)) only false sub mid y.2
                           ≠ Ok (Enqueued j, d').
Proof.
  intros R%reachable_inv Ht Hs Ho Ha S now only sub mid j d' H.
  pose (P := λ d, ∃ t', items d !! k = Some t' ∧ stuck t' ∧ it_req t' = it_req t ∧
                        live d (it_operation_id (it_req t)) = false).
  assert (∀ u a a', P a → evolves u a a' → P a') as HP.
  { intros u a a' (t' & Ht' & Hs' & Hr & Hl) E.
    destruct (ev_items _ _ _ E _ _ Ht') as (t'' & Ht'' & [Lr _ _ _ Lk]). rewrite Hr in Lk.
    exists t''. split_and!; [done|by apply Lk|congruence|by eapply evolves_live]. }
  assert (P y.2) as Py.
  { apply (steps_keep (λ z, P z.2) x y); [|done|done|].
    - intros u a u' a' _ Pa E. by eapply HP.
    - exists t. split_and!; [done..|]. unfold live. by rewrite Ho. }
  pose proof (steps_inv _ _ S R) as I.
  apply reserve_Enqueued in H as (d1 & Hf & Hact & Hg & _ & _). specialize (Hg eq_refl).
  assert (P d1) as (t1 & Ht1 & [_ Hs1] & Hr1 & _).
  { eapply (HP now); [exact Py|]. by eapply fence_stale_evolves. }
  apply live_reset_gate_None in Hg as (_ & Hb & _).
  specialize (Hb k t1 Ht1 ltac:(by rewrite Hr1)). unfold blocking in Hb.
  rewrite !orb_false_iff, !bool_decide_eq_false in Hb. destruct Hb as [[[_ _] ?] ?].
  destruct Hs1 as [?|[? ?]]; done.
Qed.

(** ** The domain's transition table *)

(** C32: in every run the status of an operation changes along the transition table
    of the domain, its epoch never decreases and its request never changes. *)
Theorem repository_refines_transitions x y i o :
  reachable x → ops x.2 !! i = Some o → steps x y →
  ∃ o', ops y.2 !! i = Some o' ∧ rtc (λ s s', ∃ e, allowed_transition s e = Some s') (op_stat o) (op_stat o') ∧
        execution_epoch o <= execution_epoch o' ∧ op_req o' = op_req o.
Proof.
  intros R%reachable_inv Ho S.
  apply (steps_keep (λ z, ∃ o', ops z.2 !! i = Some o' ∧ status_path (op_stat o) (op_stat o') ∧
    execution_epoch o <= execution_epoch o' ∧ op_req o' = op_req o) x y); [|done|done|].
  - intros u a u' a' _ (o1 & H1 & P1 & E1 & R1) E. cbn in *.
    destruct (ev_ops _ _ _ E _ _ H1) as (o2 & H2 & [Lr Lp Le _]). exists o2.
    split_and!; [done|by etrans|lia|congruence].
  - exists o. split_and!; [done|apply rtc_refl|lia|done].
Qed.

(** ** The approved manifest *)

(** A live reset completes only under its lease and the manifest it was
    approved with; it consumes that manifest, which stays as it is for ever and
    never authorises another reset. *)
Theorem reset_success_consumes x now i r rd k sha cd w e mn d' y :
  reachable x → x.1 <= now → finish_reset_success now i r rd k sha cd w e x.2 = Ok (mn, d') →
  steps (now, d') y →
  (∃ o o', ops x.2 !! i = Some o ∧ runs_lease now w e o = true ∧ is_live_reset o = true ∧
           approved_manifest_id (op_req o) = Some k ∧
           ops d' !! i = Some o' ∧ op_stat o' = COMPLETED) ∧
  (∃ m m', mans x.2 !! k = Some m ∧ man_stat m = Approved ∧ manifest_sha256 m = Some sha ∧
           mans d' !! k = Some m' ∧ man_stat m' = Consumed ∧ consumed_at m' = Some now ∧
           mans y.2 !! k = Some m') ∧
  (∀ now' m only sub j d'', reserve now' "reset" m only false sub (Some k) y.2 ≠ Ok (Enqueued j, d'')).
Proof.
  intros R Hx H S. assert (reachable (now, d')) as R'.
  { eapply reachable_steps; [exact R|]. apply rtc_once. split; [done|]. cbn.
    exists (CFinishReset i r rd k sha cd w e). cbn. by rewrite H. }
  destruct (finish_reset_success_Ok _ _ _ _ _ _ _ _ _ _ _ _ (reachable_inv _ R) H) as
    (o & m & m' & Ho & Hr & Hl & Hk & (o' & Ho' & Hst) & Hm & Ha & Hsha & Hm' & Hc & Hca).
  assert (mans y.2 !! k = Some m') as Hy.
  { apply (steps_keep (λ z, mans z.2 !! k = Some m') (now, d') y);
      [|done|by apply (reachable_inv _ R')|done].
    intros u a u' a' _ Hz E. cbn in *. destruct (ev_mans _ _ _ E _ _ Hz) as (z & Hz' & [_ C]).
    by rewrite <- (C Hc). }
  split_and!.
  - exists o, o'. auto 10.
  - exists m, m'. auto 10.
  - intros now' mo only sub j d'' (d1 & Hf & Hact & Hg & _ & _)%reserve_Enqueued. specialize (Hg eq_refl).
    apply live_reset_gate_None in Hg as (_ & _ & _ & n & z & [= <-] & Hz & Hap).
    apply approved_for_stat in Hap.
    pose proof (fence_stale_evolves _ _ _ _ Hf) as E.
    destruct (ev_mans _ _ _ E _ _ Hy) as (z' & Hz' & [_ C]). specialize (C Hc). congruence.
Qed.
