(* ===== verification/GrileMonthlyRuns.v ===== *)
(** Concrete runs of the monthly closeout: the hypotheses of [GrileMonthlySpec.v]
    hold on them, and one of them passes the gate of live resets while a clear is
    still open. *)

From S2P Require Import Prelude Text Table Grile GrileMonthly GrileMonthlyInv GrileMonthlySpec.
Import Grile Monthly.

Local Open Scope Z_scope.

Module MonthlyDemo.

Definition end_of (x : Z * db) (cs : list (Z * call)) : Z * db :=
  match run_calls x cs with Ok y => y | Err _ => x end.

Lemma end_of_steps x cs : is_ok (run_calls x cs) = true → steps x (end_of x cs).
Proof.
  unfold end_of. destruct (run_calls x cs) eqn:H; [|done]. intros _. by eapply run_calls_steps.
Qed.

Definition start_point : Z * db := (0, empty_db).

Lemma end_of_reachable cs :
  is_ok (run_calls start_point cs) = true → reachable (end_of start_point cs).
Proof. intros H. exists 0. by apply end_of_steps. Qed.

#[local] Opaque end_of run_calls reserve prepare_reset_clear finish_reset_success run_call.

Definition sha_a : string := "aaaaaaaaaaaaaaaaaaaaaaaaaaaaaaaaaaaaaaaaaaaaaaaaaaaaaaaaaaaaaaaa".
Definition sha_b : string := "bbbbbbbbbbbbbbbbbbbbbbbbbbbbbbbbbbbbbbbbbbbbbbbbbbbbbbbbbbbbbbbb".
Definition sha_c : string := "cccccccccccccccccccccccccccccccccccccccccccccccccccccccccccccccc".

Definition full : totals := Totals 2 2 3 3 0 "{}" "[]" "[]".
Definition doc (status sha : string) : manifest_doc := ManifestDoc (Some status) full "{}" (Some sha).
Definition success : op_outcome := OpOutcome (Some "success"%string) "{}".
Definition failed : op_outcome := OpOutcome (Some "failed"%string) "{}".
Definition may : string := "2024-05".
Definition store : item_input := ItemInput "S1" "sheet-1" "Co" "Store 1" "[]".

(** An archive is built, verified and approved. *)
Definition approved_archive : list (Z * call) :=
  [(10, CReserve "archive" may None false "user" None);
   (20, CStart 1 (Some "w1") "f1" 300);
   (30, CPersistManifest 1 (doc "verified" sha_a) "w1" 1 None);
   (40, CFinish 1 success None "w1" 1);
   (50, CApprove 1 sha_a "boss" (doc "approved" sha_b))]%string.

(** A live reset starts and creates its checkpoint. *)
Definition reset_started : list (Z * call) :=
  approved_archive ++
  [(60, CReserve "reset" may None false "user" (Some 1));
   (70, CStart 2 (Some "w2") "f2" 300);
   (80, CEnsureItems 2 may "2024-06" [store] "w2" 1)]%string.

(** The store's backup is persisted and its checkpoint claimed. *)
Definition item_claimed : list (Z * call) :=
  reset_started ++
  [(90, CBackup 2 "S1" "backups/s1.json" sha_c "w2" 1); (100, CClaimItem 2 "S1" "w2" 1)]%string.

(** The sheet is cleared and the clear confirmed. *)
Definition item_cleared : list (Z * call) :=
  item_claimed ++
  [(110, CPrepareClear 2 "S1" "w2" 1); (120, CConfirmClear 2 "S1" "w2" 1 2 true None)]%string.

Lemma monthly_invariant_witness :
  let x := end_of start_point item_claimed in
  reachable x ∧ (∀ i o, ops x.2 !! i = Some o → is_active o = true → is_live_reset o = true →
     ∃ k m, approved_manifest_id (op_req o) = Some k ∧ mans x.2 !! k = Some m ∧
            approved_for (month_of o) m = true).
Proof.
  assert (reachable (end_of start_point item_claimed)) as R
    by (apply end_of_reachable; vm_compute; reflexivity).
  split; [exact R|]. apply (monthly_invariant _ R).
Defined.

Lemma unique_index_never_violated_witness :
  let x := end_of start_point item_claimed in
  run_call 200 (CReserve "reset" may None false "user" (Some 1)) x.2 ≠ Err UniqueViolation.
Proof.
  apply unique_index_never_violated. apply end_of_reachable. vm_compute. reflexivity.
Defined.

(** The lease of the reset runs out; a reconciler takes the operation over. *)
Definition lapsed : list (Z * call) := item_claimed ++ [(400 * second, CHeartbeat 2 "w2" 1 300)]%string.
Definition takeover : list (Z * call) := [(500 * second, CClaimReconciliation [] "rec" 300 32)]%string.

Lemma expired_execution_is_powerless_witness :
  powerless (600 * second) 2 "w2" 1 (end_of (end_of start_point lapsed) takeover).2.
Proof.
  assert (is_Some (ops (end_of start_point lapsed).2 !! 2)) as [o Ho]
    by (vm_compute; eexists; reflexivity).
  apply (expired_execution_is_powerless (end_of start_point lapsed)
           (end_of (end_of start_point lapsed) takeover) 2 o "w2" 1).
  - apply end_of_reachable. vm_compute. reflexivity.
  - exact Ho.
  - vm_compute in Ho. injection Ho as <-. vm_compute. discriminate.
  - vm_compute in Ho. injection Ho as <-. vm_compute. reflexivity.
  - apply end_of_steps. vm_compute. reflexivity.
  - vm_compute. discriminate.
Defined.

Lemma clear_intent_single_use_witness :
  let x := end_of start_point item_claimed in
  ∃ t d1, prepare_reset_clear x.1 2 "S1" "w2" 1 x.2 = Ok (Some t, d1) ∧ phase t = ClearIntent ∧
          prepare_reset_clear 300 2 "S1" "w2" 1 d1 = Ok (None, d1).
Proof.
  cbn zeta. destruct (prepare_reset_clear (end_of start_point item_claimed).1 2 "S1" "w2" 1
              (end_of start_point item_claimed).2) as [[[t|] d1]|] eqn:H;
    [|vm_compute in H; discriminate..].
  exists t, d1. split; [reflexivity|].
  assert (reachable (end_of start_point item_claimed)) as R
    by (apply end_of_reachable; vm_compute; reflexivity).
  destruct (clear_intent_single_use (end_of start_point item_claimed).1
              (end_of start_point item_claimed).2 2 "S1" "w2" 1 t d1
              ((end_of start_point item_claimed).1, d1)) as (_ & Hp & _ & Hn).
  - rewrite <- surjective_pairing. exact R.
  - exact H.
  - apply rtc_refl.
  - split; [exact Hp|apply Hn].
Defined.

Lemma live_reset_admission_witness :
  let x := end_of start_point approved_archive in
  ∃ i d', reserve 60 "reset" may None false "user" (Some 1) x.2 = Ok (Enqueued i, d') ∧
    ∃ n mn, Some 1 = Some n ∧ mans d' !! n = Some mn ∧ man_month (man_req mn) = may ∧
            man_stat mn = Approved ∧ clean mn = true.
Proof.
  cbn zeta. destruct (reserve 60 "reset" may None false "user" (Some 1)
              (end_of start_point approved_archive).2) as [[[i|i j|i j|why] d']|] eqn:H;
    [|vm_compute in H; discriminate..].
  exists i, d'. split; [reflexivity|].
  destruct (live_reset_admission (end_of start_point approved_archive) 60 may None "user" (Some 1) i d')
    as (_ & _ & Hm & _).
  - apply end_of_reachable. vm_compute. reflexivity.
  - exact H.
  - exact Hm.
Defined.

(** The reset fails while reading the sheet, before any backup; the reconciler
    then settles what it can. *)
Definition preflight_failed : list (Z * call) :=
  reset_started ++ [(90, CFinish 2 failed (Some "reset_preflight_failed") "w2" 1)]%string.
Definition reconciled : list (Z * call) :=
  [(100, CClaimReconciliation [] "rec" 300 32);
   (110, CItemRecovery 2 "S1" "rec" 2 "legacy_unknown_recovery_required");
   (120, CReconciled 2 "rec" 2 RecoveryRequired (Some "recovery_required") true)]%string.

Lemma unbacked_checkpoint_blocks_month_witness :
  let x := end_of start_point preflight_failed in
  let y := end_of x reconciled in
  ¬ (∃ j d', reserve 1000 "reset" may None false "user" (Some 1) y.2 = Ok (Enqueued j, d')).
Proof.
  cbn zeta. intros (j & d' & Hr). revert Hr.
  assert (is_Some (items (end_of start_point preflight_failed).2 !! 1)) as [t Ht]
    by (vm_compute; eexists; reflexivity).
  assert (is_Some (ops (end_of start_point preflight_failed).2 !! 2)) as [o Ho]
    by (vm_compute; eexists; reflexivity).
  assert (it_operation_id (it_req t) = 2 ∧ it_month (it_req t) = may ∧ stuck t) as (E & Em & Hs).
  { vm_compute in Ht. injection Ht as <-. split_and!; [reflexivity..|]. split; [reflexivity|by left]. }
  rewrite <- Em.
  apply (unbacked_checkpoint_blocks_month (end_of start_point preflight_failed)
           (end_of (end_of start_point preflight_failed) reconciled) 1 t o).
  - apply end_of_reachable. vm_compute. reflexivity.
  - exact Ht.
  - exact Hs.
  - rewrite E. exact Ho.
  - vm_compute in Ho. injection Ho as <-. vm_compute. reflexivity.
  - apply end_of_steps. vm_compute. reflexivity.
Defined.

Lemma repository_refines_transitions_witness :
  let x := end_of start_point reset_started in
  let y := end_of x [(90, CFail 2 "boom" "w2" 1)]%string in
  ∃ o o', ops x.2 !! 2 = Some o ∧ op_stat o = RUNNING ∧ ops y.2 !! 2 = Some o' ∧
          rtc (λ s s', ∃ e, allowed_transition s e = Some s') (op_stat o) (op_stat o').
Proof.
  cbn zeta. assert (is_Some (ops (end_of start_point reset_started).2 !! 2)) as [o Ho]
    by (vm_compute; eexists; reflexivity).
  destruct (repository_refines_transitions (end_of start_point reset_started)
              (end_of (end_of start_point reset_started) [(90, CFail 2 "boom" "w2" 1)]%string) 2 o)
    as (o' & Ho' & P & _).
  - apply end_of_reachable. vm_compute. reflexivity.
  - exact Ho.
  - apply end_of_steps. vm_compute. reflexivity.
  - exists o, o'. split_and!; [exact Ho| |exact Ho'|exact P].
    vm_compute in Ho. injection Ho as <-. reflexivity.
Defined.

Lemma reset_success_consumes_witness :
  let x := end_of start_point item_cleared in
  ∃ mn d', finish_reset_success 130 2 success (doc "verified" sha_c) 1 sha_b (doc "consumed" sha_a)
             "w2" 1 x.2 = Ok (mn, d') ∧
    ∃ m m', mans x.2 !! 1 = Some m ∧ man_stat m = Approved ∧ manifest_sha256 m = Some sha_b ∧
            mans d' !! 1 = Some m' ∧ man_stat m' = Consumed ∧ consumed_at m' = Some 130 ∧
            mans d' !! 1 = Some m'.
Proof.
  cbn zeta. destruct (finish_reset_success 130 2 success (doc "verified" sha_c) 1 sha_b
              (doc "consumed" sha_a) "w2" 1 (end_of start_point item_cleared).2)
    as [[mn d']|] eqn:H; [|vm_compute in H; discriminate].
  exists mn, d'. split; [reflexivity|].
  destruct (reset_success_consumes (end_of start_point item_cleared) 130 2 success
              (doc "verified" sha_c) 1 sha_b (doc "consumed" sha_a) "w2" 1 mn d' (130, d'))
    as (_ & Hm & _).
  - apply end_of_reachable. vm_compute. reflexivity.
  - vm_compute. discriminate.
  - exact H.
  - apply rtc_refl.
  - exact Hm.
Defined.

(** ** An open clear passes the gate *)

(** The intent to clear is persisted, the sheet may be cleared, and the operation
    ends as failed before its rollback is recorded. *)
Definition clear_left_open : list (Z * call) :=
  item_claimed ++
  [(110, CPrepareClear 2 "S1" "w2" 1); (120, CFinish 2 failed (Some "monthly_operation_failed") "w2" 1)]%string.

(** The gate of live resets does not see a clear whose outcome is unknown: a
    run exists in which a store's checkpoint is left with a persisted clear intent
    by a failed operation (reconciliation lists it as unsettled), and the next live
    reset of the same month is enqueued all the same. *)
Theorem open_clear_not_gated :
  ∃ x k t o i d',
    reachable x ∧ items x.2 !! k = Some t ∧ phase t = ClearIntent ∧
    ops x.2 !! it_operation_id (it_req t) = Some o ∧ op_stat o = FAILED ∧
    (k, t) ∈ list_reset_items_for_reconciliation (it_operation_id (it_req t)) x.2 ∧
    reserve 130 "reset" (it_month (it_req t)) None false "user" (Some 1) x.2 = Ok (Enqueued i, d').
Proof.
  set (x := end_of start_point clear_left_open).
  assert (is_Some (items x.2 !! 1)) as [t Ht] by (vm_compute; eexists; reflexivity).
  assert (list_reset_items_for_reconciliation 2 x.2 = [(1, t)]) as Hl.
  { vm_compute in Ht. injection Ht as <-. vm_compute. reflexivity. }
  assert (it_operation_id (it_req t) = 2 ∧ it_month (it_req t) = may ∧ phase t = ClearIntent) as (E & Em & Hp).
  { vm_compute in Ht. injection Ht as <-. split_and!; reflexivity. }
  assert (is_Some (ops x.2 !! 2)) as [o Ho] by (vm_compute; eexists; reflexivity).
  destruct (reserve 130 "reset" may None false "user" (Some 1) x.2) as [[[i|i j|i j|why] d']|] eqn:Hr;
    [|vm_compute in Hr; discriminate..].
  exists x, 1, t, o, i, d'. rewrite E, Em, Hl.
  split; [apply end_of_reachable; vm_compute; reflexivity|].
  split; [exact Ht|]. split; [exact Hp|]. split; [exact Ho|].
  split; [vm_compute in Ho; injection Ho as <-; reflexivity|].
  split; [by left|exact Hr].
Qed.

End MonthlyDemo.
