(* ===== verification/GrileReset.v ===== *)
(** The live reset of the monthly Grile sheets ([grile_monthly_reset_*.py],
    [grile_monthly_integrity.py], [grile_monthly_google.py]): each store's sheet is
    read, its snapshot backed up and recorded, then cleared and read back under the
    fenced checkpoints of [GrileMonthly.v]; a failure restores what was touched.

    Every await, every file operation and every call of Google is a request of a
    coroutine ([Coro.v]); [Section World] says how the database answers and lets
    the files and Google answer anything. *)

From Stdlib Require Import Ascii.
From stdpp Require Import pretty.
From S2P Require Import Prelude Text Dict Json Table Coro Grile GrileMonthly.
Import Coro Grile Monthly.

Local Open Scope Z_scope.

Module Reset.

(** ** Stores and ranges ([grile_monthly_types.py], [grile_monthly_registry.py]) *)

Record entry := Entry {
  company : string;
  store : string;
  sheet_id : string;
  site_code : string;
  manager : string;
  is_closed : bool;
  template_version : string;
}.

Definition RESET_RANGES : list string :=
  ["Grila!D8"; "Grila!D22"; "Grila!P5:P36"; "Grila!Q5:S36"; "Grila!U5:U36"; "Grila!V5:X36";
   "Grila!B32:F46"; "Grila!F12:F14"; "Grila!F26:F28"; "Pontaj!C8:AG31"]%string.
Definition RESET_RANGES_V3 : list string :=
  ["Grila!D8"; "Grila!D22"; "Grila!D36"; "Grila!P5:P50"; "Grila!Q5:S50"; "Grila!U5:U50";
   "Grila!V5:X50"; "Grila!Z5:Z50"; "Grila!AA5:AC50"; "Grila!B46:F60"; "Grila!F12:F14";
   "Grila!F26:F28"; "Grila!F40:F42"; "Pontaj!C8:AG31"]%string.

Definition reset_ranges_for_entry (e : entry) : list string :=
  if String.eqb (template_version e) "v3" then RESET_RANGES_V3 else RESET_RANGES.

(** [json.dumps] of a list of plain strings. *)
Definition quote : ascii := ascii_of_nat 34.
Definition quoted (s : string) : string := String quote (s +:+ String quote EmptyString).
Definition dumps_list (l : list string) : string :=
  ("[" +:+ String.concat ", " (quoted <$> l) +:+ "]")%string.

Definition item_of_entry (e : entry) : item_input :=
  ItemInput (site_code e) (sheet_id e) (company e) (store e) (dumps_list (reset_ranges_for_entry e)).

(** A row of the active registry. *)
Record registry_row := RegistryRow {
  reg_site : string;
  reg_sheet : string;
  registry_key : option string;
  locatie : option string;
  firma : option string;
  asm : option string;
  reg_template : option string;
}.

(** ** Exceptions *)

Inductive exn :=
| Integrity (code : string)
| ManifestError (code : string) (body : json)
| GoogleError (http_status : option Z) (timeout : bool)
| Cancelled
| Failure.

(** [isinstance(exc, MonthlyIntegrityError)] and its code. *)
Definition integrity_code (x : exn) : option string :=
  match x with Integrity c | ManifestError c _ => Some c | _ => None end.

(** ** Requests *)

Inductive google_op :=
| GRead (sheet : string) (ranges : list string)
| GClear (sheet : string) (ranges : list string)
| GRestore (sheet : string) (data : list json).

Definition path := list string.

(** The part of an artifact's description that is read from the disk. *)
Record artifact := Artifact { art_path : path; art_bytes : Z; art_sha256 : string }.

(** What the statement of each repository call returns: of a started operation its
    row, of claimed ones their ids and epochs. *)
Definition call_answer (c : Monthly.call) : Type :=
  match c with
  | CReserve _ _ _ _ _ _ => reserve_outcome
  | CStart _ _ _ _ => start_status * option operation
  | CFinishReset _ _ _ _ _ _ _ _ => option manifest
  | CEnsureItems _ _ _ _ _ _ => ()
  | CPrepareClear _ _ _ _ | CPrepareRollback _ _ _ _ => option item
  | CClaimReconciliation _ _ _ _ => list (Z * Z)
  | CPersistManifest _ _ _ _ _ | CApprove _ _ _ _ => option manifest
  | _ => bool
  end.

Inductive port :=
| Database (c : Monthly.call)
| LatestArchive (month : string)
| FetchManifest (k : Z)
| FetchRegistry (month : string)
| ListItems (i : Z)
| FetchOperation (i : Z)
| ExecutionLease (i : Z) (owner : string)
| Google (g : google_op)
| Sleep (attempt : nat)
| UtcNow
| FreshId
| MakeStaging (p : path)
| WriteJson (p : path) (body : json)
| PromoteFile (staged target : path)
| RemoveTree (p : path)
| DescribeFile (p : path)
| VerifyFiles (arts : list json)
| ReadFile (p : string)
| HeartbeatTask.

Definition ans (p : port) : Type :=
  match p with
  | Database c => call_answer c
  | LatestArchive _ => option (Z * manifest)
  | FetchManifest _ => option manifest
  | FetchRegistry _ => list registry_row
  | ListItems _ => list (Z * item)
  | FetchOperation _ => option operation
  | ExecutionLease _ _ => option (Z * string * Z * Z)
  | Google _ => json
  | UtcNow | FreshId => string
  | DescribeFile _ => artifact
  | ReadFile _ => option string
  | HeartbeatTask => option exn
  | Sleep _ | MakeStaging _ | WriteJson _ _ | PromoteFile _ _ | RemoveTree _ | VerifyFiles _ => ()
  end.

Abbreviation prog := (coro ans exn).
Definition ask (p : port) : prog (ans p) := Coro.call p.
Definition fail {A} (x : exn) : prog A := Done (Err x).

(** [if not b: raise x]. *)
Definition ensure (b : bool) (x : exn) : prog () := if b then mret () else fail x.

(** ** Google requests ([grile_monthly_google.py], [grile_monthly_google_api.py]) *)

Definition GOOGLE_API_RETRY_ATTEMPTS : nat := 6.

Definition is_transient_error (x : exn) : bool :=
  match x with GoogleError st _ => is_transient_google_error st | _ => false end.

Definition error_code (x : exn) : string :=
  match x with
  | GoogleError (Some s) timeout =>
      if s =? 429 then "google_rate_limited"
      else if existsb (Z.eqb s) [500; 502; 503; 504] then "google_unavailable"
      else if timeout then "google_timeout" else "google_request_failed"
  | GoogleError None true => "google_timeout"
  | _ => "google_request_failed"
  end.

(** The attempts that are left; a destructive request has one. *)
Fixpoint backoff (total left : nat) (g : google_op) : prog json :=
  match left with
  | O => fail Failure
  | S left' =>
      handle (ask (Google g)) (λ r,
        match r with
        | Ok v => mret v
        | Err Cancelled => fail Cancelled
        | Err x =>
            let attempt := (total - left)%nat in
            if Nat.leb (total - 1) attempt || negb (is_transient_error x) then fail x
            else _ ← ask (Sleep attempt); backoff total left' g
        end)
  end.

Definition call_with_backoff (g : google_op) (destructive : bool) : prog json :=
  let total := if destructive then 1%nat else GOOGLE_API_RETRY_ATTEMPTS in
  backoff total total g.

Definition google_request (g : google_op) (destructive : bool) : prog json :=
  try_ (call_with_backoff g destructive) (λ x,
    match x with
    | Cancelled | Integrity _ | ManifestError _ _ => fail x
    | _ => fail (Integrity (error_code x))
    end).

(** ** Snapshots ([grile_monthly_integrity.py], [grile_monthly_reset_google.py]) *)

Definition field (key : string) (v : json) : json :=
  match v with JObj f => jget key f | _ => JNull end.

Definition canonical_range (v : json) : res exn json :=
  match v with
  | JObj f =>
      match dget "range"%string f with
      | Some (JStr r) =>
          match jget_or "values" (JArr []) f with
          | JArr vs => Ok (JObj [("range", JStr r);
                                 ("majorDimension", jget_or "majorDimension" (JStr "ROWS") f);
                                 ("values", JArr vs)]%string)
          | _ => Err (Integrity "backup_response_invalid")
          end
      | _ => Err (Integrity "backup_response_invalid")
      end
  | _ => Err (Integrity "backup_response_invalid")
  end.

Definition canonical_snapshot (value_ranges : list json) : res exn json :=
  l ← mapR canonical_range value_ranges; Ok (JObj [("value_ranges"%string, JArr l)]).

(** [_require_complete] and [canonical_snapshot] on a response. *)
Definition snapshot_of (n : nat) (response : json) : res exn json :=
  match field "valueRanges" response with
  | JArr l => if Nat.eqb (length l) n then canonical_snapshot l
              else Err (Integrity "backup_response_incomplete")
  | _ => Err (Integrity "backup_response_incomplete")
  end.

Definition read_snapshot (e : entry) : prog json :=
  let ranges := reset_ranges_for_entry e in
  response ← google_request (GRead (sheet_id e) ranges) false;
  lift (snapshot_of (length ranges) response).

(** [item.get("values")] of the dictionaries of a list is truthy. *)
Definition has_values (v : json) : bool :=
  match v with JObj f => truthy (jget "values" f) | _ => false end.

Definition value_ranges (snapshot : json) : list json :=
  match field "value_ranges" snapshot with JArr l => l | _ => [] end.

Definition snapshot_is_cleared (snapshot : json) : bool :=
  negb (existsb has_values (value_ranges snapshot)).

Definition verify_cleared (snapshot : json) : res exn () :=
  raise_if (negb (snapshot_is_cleared snapshot)) (Integrity "reset_verification_failed").

Definition restore_range (v : json) : res exn json :=
  match v with
  | JObj f =>
      match dget "range"%string f with
      | Some r => Ok (JObj [("range", r); ("majorDimension", jget_or "majorDimension" (JStr "ROWS") f);
                            ("values", jget_or "values" (JArr []) f)]%string)
      | None => Err Failure
      end
  | _ => Err Failure
  end.

Definition restore_data (snapshot : json) : res exn (list json) :=
  match field "value_ranges" snapshot with
  | JArr l => mapR restore_range (List.filter has_values l)
  | _ => Err (Integrity "backup_invalid")
  end.

(** ** Manifests ([grile_monthly_integrity.py]) *)

Section Reset.
(** The SHA-256 of the canonical JSON text of a value. *)
Context (canonical_sha256 : json → string).

Definition snapshot_sha256 (snapshot : json) : string := canonical_sha256 snapshot.

Definition verify_restored (restored expected : json) : res exn () :=
  raise_if (negb (String.eqb (snapshot_sha256 restored) (snapshot_sha256 expected)))
    (Integrity "rollback_verification_failed").

Definition without (key : string) (f : list (string * json)) : list (string * json) :=
  List.filter (λ kv, negb (String.eqb kv.1 key)) f.

Definition manifest_sha256_of (f : list (string * json)) : string :=
  canonical_sha256 (JObj (without "manifest_sha256" f)).

Definition finalize_manifest (f : list (string * json)) : list (string * json) :=
  dput "manifest_sha256"%string (JStr (manifest_sha256_of f)) f.

Definition dedup_sorted (l : list string) : list string := sorted_by String.leb (remove_dups l).

Definition base_manifest (now month operation requested_by : string) (expected_stores expected_agents
    processed_stores processed_agents : Z) (control_totals : json)
    (artifacts source_backups : list json) (errors : list string) (status : string) : json :=
  let codes := dedup_sorted errors in
  JObj (finalize_manifest
    [("schema_version", JInt 1); ("month", JStr month); ("operation", JStr operation);
     ("status", JStr status);
     ("expected", JObj [("stores", JInt expected_stores); ("agents", JInt expected_agents)]);
     ("processed", JObj [("stores", JInt processed_stores); ("agents", JInt processed_agents)]);
     ("control_totals", control_totals); ("error_count", JInt (Z.of_nat (length codes)));
     ("errors", JArr (JStr <$> codes)); ("artifacts", JArr artifacts);
     ("source_backups", JArr source_backups); ("requested_by_sub", JStr requested_by);
     ("approved_by_sub", JNull); ("created_at", JStr now)]%string).

(** [isinstance(v, int)]: a boolean is one. *)
Definition as_int (v : json) : option Z :=
  match v with JInt z => Some z | JBool b => Some (Z.b2z b) | _ => None end.

Definition is_object (v : json) : bool := match v with JObj _ => true | _ => false end.

(** [validate_verified_manifest] for the operations without a source registry. *)
Definition coverage_key (expected processed : json) (key : string) : res exn () :=
  match as_int (field key expected) with
  | Some n => raise_if ((n <=? 0) || negb (json_eqb (field key processed) (JInt n)))
                (Integrity "manifest_coverage_incomplete")
  | None => Err (Integrity "manifest_coverage_incomplete")
  end.

(** One row of [source_registry]: its identity. *)
Definition registry_identity (v : json) : res exn (string * string) :=
  match field "site_code" v, field "sheet_id" v with
  | JStr s, JStr sheet =>
      if bool_decide (strip s = ""%string) || bool_decide (strip sheet = ""%string)
      then Err (Integrity "manifest_registry_invalid") else Ok (s, sheet)
  | _, _ => Err (Integrity "manifest_registry_invalid")
  end.

Definition validate_registry (expected : json) (registry : json) : res exn () :=
  match registry with
  | JArr l =>
      _ ← raise_if (negb (json_eqb (JInt (Z.of_nat (length l))) (field "stores" expected)))
            (Integrity "manifest_registry_invalid");
      ids ← mapR registry_identity l;
      raise_if (negb (Nat.eqb (length (remove_dups ids)) (length l)))
        (Integrity "manifest_registry_invalid")
  | _ => Err (Integrity "manifest_registry_invalid")
  end.

Definition validate_verified_manifest (m : json) (operation : string) : res exn () :=
  match m with
  | JObj f =>
      _ ← raise_if (negb (json_eqb (jget "schema_version" f) (JInt 1)))
            (Integrity "manifest_schema_invalid");
      _ ← raise_if (negb (json_eqb (jget "operation" f) (JStr operation)))
            (Integrity "manifest_operation_invalid");
      _ ← match jget "status" f with
          | JStr s => raise_if (negb (bool_decide (s ∈ ["verified"; "approved"; "consumed"]%string)))
                        (Integrity "manifest_not_verified")
          | JArr _ | JObj _ => Err Failure
          | _ => Err (Integrity "manifest_not_verified")
          end;
      let expected := jget "expected" f in
      let processed := jget "processed" f in
      _ ← raise_if (negb (is_object expected && is_object processed))
            (Integrity "manifest_coverage_invalid");
      _ ← coverage_key expected processed "stores";
      _ ← coverage_key expected processed "agents";
      _ ← (if String.eqb operation "finalize"
           then validate_registry expected (jget "source_registry" f) else Ok ());
      _ ← raise_if (negb (json_eqb (jget "error_count" f) (JInt 0))
                    || match jget "errors" f with JArr [] | JNull => false | _ => true end)
            (Integrity "manifest_has_errors");
      match jget "manifest_sha256" f with
      | JStr claimed =>
          _ ← raise_if (negb (sha256_check claimed)) (Integrity "manifest_hash_invalid");
          raise_if (negb (String.eqb (manifest_sha256_of f) claimed))
            (Integrity "manifest_hash_mismatch")
      | _ => Err (Integrity "manifest_hash_invalid")
      end
  | _ => Err Failure
  end.

(** ** The request ([grile_monthly_reset_contracts.py]); the adapter path only *)

Record run_context := RunContext {
  closing_month : string;
  next_month : string;
  closing_month_key : string;
  next_month_key : string;
  requested_by_sub : string;
  operation_id : option Z;
  approved_id : option Z;
  only : option string;
  is_dry_run : bool;
  owner : option string;
  epoch : option Z;
}.

Context (c : run_context).
(** Text folding of the standard library, and the decoding of JSON columns. *)
Context (casefold upper : string → string) (decode : string → json).

(** [assert x is not None]. *)
Definition asserted {A} (x : option A) : prog A :=
  match x with Some a => mret a | None => fail Failure end.

(** The fence of the execution: operation, owner, epoch. *)
Definition lease : prog (Z * string * Z) :=
  i ← asserted (operation_id c); w ← asserted (owner c); e ← asserted (epoch c); mret (i, w, e).

Definition truthy_text (s : option string) : bool :=
  match s with Some t => negb (bool_decide (t = ""%string)) | None => false end.

(** ** Preparation ([grile_monthly_reset_preflight.py]) *)

(** [dict(v)] of a decoded JSON object. *)
Definition as_object (v : json) : res exn json := if is_object v then Ok v else Err Failure.

Definition counted (key : string) (v : json) : res exn Z :=
  match as_int (field key v) with Some n => Ok n | None => Err Failure end.

Definition no_counts : json := JObj [("stores", JInt 0); ("agents", JInt 0)]%string.

Definition reset_manifest (errors : list string) (expected archive : option json)
    (processed_stores : Z) (backups : list json) (status : string) (arts : list json) : prog json :=
  let expected := default no_counts expected in
  now ← ask UtcNow;
  stores ← lift (counted "stores" expected);
  agents ← lift (counted "agents" expected);
  totals ← lift (as_object (match archive with
                            | Some (JObj f) => jget_or "control_totals" (JObj []) f
                            | _ => JObj []
                            end));
  mret (base_manifest now (closing_month_key c) "reset" (requested_by_sub c) stores agents
          processed_stores (if String.eqb status "verified" then agents else 0) totals arts backups
          errors status).

(** [raise MonthlyManifestError(code, …, manifest)]. *)
Definition reject {A} (code : string) (m : prog json) : prog A := b ← m; fail (ManifestError code b).

Definition refusal (code : string) (expected archive : option json) : prog json :=
  reset_manifest [code] expected archive 0 [] "failed" [].

Definition validate_request : prog () :=
  if negb (is_dry_run c)
     && (bool_decide (operation_id c = None) || bool_decide (approved_id c = None))
  then reject "approved_manifest_required" (refusal "approved_manifest_required" None None)
  else if truthy_text (only c) && negb (is_dry_run c)
  then reject "partial_live_reset_forbidden" (refusal "partial_live_reset_forbidden" None None)
  else mret ().

Definition selected_prerequisite (latest : option (Z * manifest)) : prog (option manifest) :=
  match approved_id c with
  | None => mret (snd <$> latest)
  | Some k =>
      m ← ask (FetchManifest k);
      mret (match latest, m with
            | Some (j, _), Some m => if j =? k then Some m else None
            | _, _ => None
            end)
  end.

Definition allowed_prerequisite (s : manifest_status) : bool :=
  bool_decide (s = Approved) || (is_dry_run c && bool_decide (s = Verified)).

Definition load_archive : prog json :=
  latest ← ask (LatestArchive (closing_month_key c));
  prerequisite ← selected_prerequisite latest;
  let archive := (λ m, (man_stat m, decode (man_body m))) <$> prerequisite in
  match archive with
  | Some (s, JObj f) =>
      if allowed_prerequisite s then
        _ ← lift (validate_verified_manifest (JObj f) "archive");
        _ ← ask (VerifyFiles (match jget "artifacts" f with JArr l => l | _ => [] end));
        _ ← ensure (is_dry_run c || negb (bool_decide (owner c = None) || bool_decide (epoch c = None)))
              (Integrity "operation_lease_missing");
        mret (JObj f)
      else reject "verified_archive_required" (refusal "verified_archive_required" None None)
  | _ => reject "verified_archive_required" (refusal "verified_archive_required" None None)
  end.

(** *** The registry ([grile_monthly_registry.py]) *)

Fixpoint before_slash (l : list ascii) : list ascii * option (list ascii) :=
  match l with
  | [] => ([], None)
  | a :: l' => if one_of "/" a then ([], Some l')
               else let '(x, y) := before_slash l' in (a :: x, y)
  end.

Definition split_slash (s : string) : string * option string :=
  let '(a, b) := before_slash (String.list_ascii_of_string s) in
  (String.string_of_list_ascii a, String.string_of_list_ascii <$> b).

(** [a or b] on texts. *)
Definition or_text (a b : string) : string := if bool_decide (a = ""%string) then b else a.

Definition company_from_values (key fallback : option string) : res exn string :=
  let raw := or_text (strip (split_slash (default "" key)%string).1) (strip (default "" fallback)%string) in
  let normalized := casefold raw in
  if String.eqb normalized "mobicell" then Ok "Mobicell"%string
  else if String.eqb normalized "mobiup" then Ok "Mobiup"%string
  else Err (Integrity "unknown_company").

Definition store_from_values (key : option string) (fallback : string) : string :=
  match key ≫= λ k, (split_slash k).2 with
  | Some rest => strip rest
  | None => strip fallback
  end.

(** [prefix in text]. *)
Fixpoint contains (needle : list ascii) (l : list ascii) : bool :=
  bool_decide (take (length needle) l = needle)
  || match l with [] => false | _ :: l' => contains needle l' end.

Definition entry_of_row (r : registry_row) : res exn entry :=
  let location := default ""%string (locatie r) in
  company ← company_from_values (registry_key r) (firma r);
  Ok (Entry company (store_from_values (registry_key r) location) (reg_sheet r) (reg_site r)
        (or_text (strip (or_text (default "" (asm r)) "Neatribuit")%string) "Neatribuit")
        (String.prefix "INCHIS " (upper (strip location)))
        (or_text (default "" (reg_template r))%string "v2")).

Definition matches_only (needle : string) (e : entry) : bool :=
  contains (String.list_ascii_of_string needle)
    (String.list_ascii_of_string
       (casefold (company e +:+ "/" +:+ store e +:+ "/" +:+ site_code e +:+ "/" +:+ manager e)%string)).

Definition entries_of_rows (rows : list registry_row) : res exn (list entry) :=
  all ← mapR entry_of_row rows;
  let es := match only c with
            | Some o => if bool_decide (o = ""%string) then all
                        else List.filter (matches_only (casefold o)) all
            | None => all
            end in
  _ ← raise_if (bool_decide (length es = 0%nat)) Failure;
  Ok es.

(** *** Coverage of the archive *)

Definition backups_by_site (backups : json) : list (string * json) :=
  match backups with
  | JArr l => foldl (λ d v, match field "site_code" v with JStr s => dput s v d | _ => d end) [] l
  | _ => []
  end.

Definition backup_matches (e : entry) (backup : json) : bool :=
  match backup with
  | JObj f => json_eqb (jget "sheet_id" f) (JStr (sheet_id e))
              && json_eqb (jget_or "template_version" (JStr "v2") f) (JStr (template_version e))
  | _ => false
  end.

Definition same_set (l k : list string) : bool :=
  forallb (λ x, bool_decide (x ∈ k)) l && forallb (λ x, bool_decide (x ∈ l)) k.

Definition coverage_matches (entries : list entry) (stores : Z) (backups : json)
    (by_site : list (string * json)) : bool :=
  let sites := site_code <$> entries in
  (Z.of_nat (length entries) =? stores)
  && same_set by_site.*1 sites
  && Nat.eqb (length (remove_dups sites)) (length entries)
  && match backups with JArr l => Nat.eqb (length l) (length entries) | _ => false end
  && forallb (λ e, match dget (site_code e) by_site with
                   | Some b => backup_matches e b
                   | None => false
                   end) entries.

Definition load_entries (archive : json) : prog (list entry * json) :=
  rows ← ask (FetchRegistry (closing_month_key c));
  entries ← lift (entries_of_rows rows);
  let expected := field "expected" archive in
  let backups := field "source_backups" archive in
  stores ← lift (counted "stores" expected);
  if coverage_matches entries stores backups (backups_by_site backups) then mret (entries, expected)
  else reject "registry_or_archive_coverage_changed"
         (refusal "registry_or_archive_coverage_changed" (Some expected) (Some archive)).

Definition prepare_execution (entries : list entry) : prog () :=
  if bool_decide (operation_id c = None) || is_dry_run c then mret ()
  else '(i, w, e) ← lease;
       ask (Database (CEnsureItems i (closing_month_key c) (next_month_key c)
                        (item_of_entry <$> entries) w e)).

(** *** Backups *)

(** [month_slug] on ASCII text: runs of other characters become one dash. *)
Fixpoint slug_from (pending : bool) (l : list ascii) : list ascii :=
  match l with
  | [] => []
  | a :: l' => if is_alnum a then (if pending then ["-"%char] else []) ++ a :: slug_from false l'
               else slug_from true l'
  end.
Fixpoint skip_other (l : list ascii) : list ascii :=
  match l with [] => [] | a :: l' => if is_alnum a then l else skip_other l' end.
Definition month_slug (month : string) : string :=
  String.string_of_list_ascii (slug_from false (skip_other (String.list_ascii_of_string month))).

Definition backup_path_of (i : Z) (e : entry) : path :=
  ["reset-backups"; month_slug (closing_month c); pretty i;
   "source-" +:+ String.substring 0 20 (canonical_sha256 (JObj [("site_code", JStr (site_code e))]))
     +:+ ".json"]%string.

Definition backup_payload (i : Z) (e : entry) (snapshot : json) (now : string) : json :=
  JObj [("schema_version", JInt 1); ("operation_id", JInt i);
        ("closing_month", JStr (closing_month_key c)); ("site_code", JStr (site_code e));
        ("sheet_id", JStr (sheet_id e)); ("template_version", JStr (template_version e));
        ("snapshot", snapshot); ("snapshot_sha256", JStr (snapshot_sha256 snapshot));
        ("created_at", JStr now)]%string.

Definition path_text (p : path) : string := String.concat "/" p.

Definition artifact_fields (kind : string) (a : artifact) : list (string * json) :=
  [("kind", JStr kind); ("path", JStr (path_text (art_path a))); ("bytes", JInt (art_bytes a));
   ("sha256", JStr (art_sha256 a))]%string.

Definition persist_backup (e : entry) (snapshot : json) : prog json :=
  '(i, w, ep) ← lease;
  let p := backup_path_of i e in
  now ← ask UtcNow;
  _ ← ask (WriteJson p (backup_payload i e snapshot now));
  a ← ask (DescribeFile p);
  recorded ← ask (Database (CBackup i (site_code e) (path_text (art_path a)) (art_sha256 a) w ep));
  _ ← ensure recorded (Integrity "backup_checkpoint_failed");
  mret (JObj (artifact_fields "reset_source_snapshot" a
              ++ [("site_code", JStr (site_code e)); ("sheet_id", JStr (sheet_id e));
                  ("template_version", JStr (template_version e))]%string)).

(** The snapshots by store and the backup artifacts: what is captured when the
    loop ends or raises. *)
Record captured := Captured { snapshots : list (string * json); backup_artifacts : list json }.

Definition has_backups : bool := negb (bool_decide (operation_id c = None) || is_dry_run c).

Definition capture_entry (s : captured) (e : entry) : prog (captured * option exn) :=
  handle (read_snapshot e) (λ r,
    match r with
    | Err x => mret (s, Some x)
    | Ok snapshot =>
        let s1 := Captured (dput (site_code e) snapshot (snapshots s)) (backup_artifacts s) in
        if has_backups then
          handle (persist_backup e snapshot) (λ r,
            match r with
            | Err x => mret (s1, Some x)
            | Ok a => mret (Captured (snapshots s1) (backup_artifacts s1 ++ [a]), None)
            end)
        else mret (s1, None)
    end).

Fixpoint capture_all (s : captured) (entries : list entry) : prog (captured * option exn) :=
  match entries with
  | [] =>
      if bool_decide (length (backup_artifacts s) = 0%nat) then mret (s, None)
      else handle (ask (VerifyFiles (backup_artifacts s))) (λ r,
             mret (s, match r with Ok _ => None | Err x => Some x end))
  | e :: es =>
      '(s', x) ← capture_entry s e;
      match x with Some _ => mret (s', x) | None => capture_all s' es end
  end.

Definition capture_backups (entries : list entry) (expected archive : json) : prog captured :=
  '(s, x) ← capture_all (Captured [] []) entries;
  match x with
  | None => mret s
  | Some x =>
      let code := default "reset_preflight_failed"%string (integrity_code x) in
      reject code (reset_manifest [code] (Some expected) (Some archive)
                     (Z.of_nat (length (snapshots s))) (backup_artifacts s) "failed" [])
  end.

(** *** Reports *)

Definition report_path (dry : bool) : path :=
  [(if dry then "reset-dry-run-" else "reset-report-")%string +:+ month_slug (next_month c) +:+ ".json"]%string.

Definition staging_path (dry : bool) : path :=
  [".staging"; (if dry then "reset-dry-run-" else "reset-")
     +:+ match operation_id c with Some i => pretty i | None => "direct" end]%string.

Definition report_payload (stores processed : Z) (dry : bool) (now : string) : json :=
  JObj ([("schema_version", JInt 1); ("operation", JStr "reset"); ("month", JStr (closing_month_key c));
         ("next_month", JStr (next_month_key c)); ("dry_run", JBool dry);
         ("expected_store_count", JInt stores); ("processed_store_count", JInt processed);
         ("error_count", JInt 0); ("created_at", JStr now)]%string
        ++ (if dry then [] else [("approved_manifest_id"%string,
              match approved_id c with Some k => JInt k | None => JNull end)])).

(** [try: m; finally: f]. *)
Definition finally {A} (m : prog A) (f : prog ()) : prog A :=
  handle m (λ r, _ ← f; Done r).

Definition report_artifact (expected : json) (processed : Z) (dry : bool) : prog (path * json) :=
  now ← ask UtcNow;
  stores ← lift (counted "stores" expected);
  let target := report_path dry in
  let stage := staging_path dry in
  _ ← ask (MakeStaging stage);
  _ ← finally (_ ← ask (WriteJson (stage ++ ["report.json"%string]) (report_payload stores processed dry now));
               ask (PromoteFile (stage ++ ["report.json"%string]) target))
        (ask (RemoveTree stage));
  a ← ask (DescribeFile target);
  mret (target, JObj (artifact_fields (if dry then "reset_dry_run_report" else "reset_report")%string a)).

(** ** Clearing ([grile_monthly_reset_execution.py]) *)

Record execution := Execution {
  ex_path : path;
  ex_manifest : json;
  (** What the rollback callback of a live execution closes over. *)
  ex_rollback : option (list entry * captured * json * json);
}.

Definition clear_adapter (e : entry) : prog bool :=
  '(i, w, ep) ← lease;
  intent ← ask (Database (CPrepareClear i (site_code e) w ep));
  match intent with
  | None => fail (Integrity "operation_lease_lost")
  | Some t =>
      _ ← google_request (GClear (sheet_id e) (reset_ranges_for_entry e)) true;
      snapshot ← read_snapshot e;
      _ ← lift (verify_cleared snapshot);
      ask (Database (CConfirmClear i (site_code e) w ep (fence_epoch t) true None))
  end.

Definition clear_entry (e : entry) : prog () :=
  '(i, w, ep) ← lease;
  _ ← ask (Database (CHeartbeat i w ep EXECUTION_LEASE_SECONDS));
  claimed ← ask (Database (CClaimItem i (site_code e) w ep));
  _ ← ensure claimed (Integrity "reset_checkpoint_claim_failed");
  persisted ← clear_adapter e;
  ensure persisted (Integrity "reset_checkpoint_finish_failed").

(** *** Rollback ([grile_monthly_reset_rollback.py]) *)

Definition restore_snapshot (e : entry) (snapshot : json) : prog () :=
  data ← lift (restore_data snapshot);
  _ ← (if bool_decide (length data = 0%nat) then mret JNull
       else google_request (GRestore (sheet_id e) data) true);
  current ← read_snapshot e;
  lift (verify_restored current snapshot).

(** [except BaseException: return False]. *)
Definition restore_entry (s : captured) (e : entry) : prog bool :=
  handle (match dget (site_code e) (snapshots s) with
          | Some snapshot => restore_snapshot e snapshot
          | None => fail Failure
          end) (λ r, mret (is_ok r)).

Definition rollback_message (restored : bool) : string :=
  if restored then "reset_rolled_back" else "reset_rollback_failed".

Definition rollback_entry (i : Z) (w : string) (ep : Z) (s : captured) (e : entry) : prog bool :=
  intent ← ask (Database (CPrepareRollback i (site_code e) w ep));
  match intent with
  | None => mret false
  | Some t =>
      restored ← restore_entry s e;
      confirmed ← ask (Database (CConfirmRollback i (site_code e) w ep (fence_epoch t) restored
                                   (Some (rollback_message restored))));
      mret (restored && confirmed)
  end.

Definition rollback_entries (i : Z) (w : string) (ep : Z) (s : captured) (entries : list entry)
    : prog bool :=
  fold_coro (λ ok e, done ← rollback_entry i w ep s e; mret (ok && done)) true (rev entries).

(** [cancel_safe]: the rollback runs in a task of its own behind a shield. *)
Definition cancel_safe (m : prog bool) : prog bool :=
  handle (shielded m) (λ r, match r with Ok (Some (Ok b)) => mret b | _ => mret false end).

Definition rollback_touched (touched : list entry) (s : captured) : prog bool :=
  i ← asserted (operation_id c);
  match owner c, epoch c with
  | Some w, Some ep => cancel_safe (rollback_entries i w ep s touched)
  | _, _ => mret false
  end.

Definition rollback_status_of (ok : bool) : string := if ok then "rolled_back" else "uncertain".
Definition rollback_code (ok : bool) : string := if ok then "rollback_verified" else "rollback_failed".

(** *** The loop over the stores *)

Definition reset_error_code (x : exn) : string :=
  match integrity_code x, x with
  | Some code, _ => code
  | None, Cancelled => "reset_cancelled"
  | None, _ => "reset_failed"
  end.

(** The stores touched when the loop ends, and the exception that ended it. *)
Fixpoint clear_all (touched entries : list entry) : prog (list entry * option exn) :=
  match entries with
  | [] => mret (touched, None)
  | e :: es =>
      handle (clear_entry e) (λ r,
        match r with
        | Ok _ => clear_all (touched ++ [e]) es
        | Err x => mret (touched ++ [e], Some x)
        end)
  end.

Definition rollback_after (touched : list entry) (s : captured) (expected archive : json) (code : string)
    : prog (string * json) :=
  ok ← rollback_touched touched s;
  m ← reset_manifest [code; rollback_code ok] (Some expected) (Some archive) 0 (backup_artifacts s)
        (rollback_status_of ok) [];
  mret (rollback_status_of ok, m).

Definition execute_effects (entries : list entry) (s : captured) (expected archive : json)
    : prog (list entry) :=
  '(touched, x) ← clear_all [] entries;
  match x with
  | None => mret touched
  | Some x =>
      '(status, m) ← rollback_after touched s expected archive (reset_error_code x);
      fail (ManifestError status m)
  end.

Definition rollback_manifest (touched : list entry) (s : captured) (expected archive : json) : prog (string * json) :=
  rollback_after touched s expected archive "reset_commit_failed".

Definition build_live_execution (entries touched : list entry) (s : captured) (expected archive : json)
    : prog execution :=
  try_ ('(target, a) ← report_artifact expected (Z.of_nat (length entries)) false;
        m ← reset_manifest [] (Some expected) (Some archive) (Z.of_nat (length entries))
              (backup_artifacts s) "verified" [a];
        _ ← lift (validate_verified_manifest m "reset");
        _ ← ask (VerifyFiles [a]);
        mret (Execution target m (Some (touched, s, expected, archive))))
    (λ _, '(status, m) ← rollback_manifest touched s expected archive;
          fail (ManifestError status m)).

Definition build_dry_run (s : captured) (expected archive : json) : prog execution :=
  let n := Z.of_nat (length (snapshots s)) in
  '(target, a) ← report_artifact expected n true;
  m ← reset_manifest [] (Some expected) (Some archive) n
        (match archive with
         | JObj f => match jget_or "source_backups" (JArr []) f with JArr l => l | _ => [] end
         | _ => []
         end) "verified" [a];
  mret (Execution target m None).

Definition execute_reset : prog execution :=
  _ ← validate_request;
  archive ← load_archive;
  '(entries, expected) ← load_entries archive;
  _ ← prepare_execution entries;
  s ← capture_backups entries expected archive;
  if is_dry_run c then build_dry_run s expected archive
  else
    touched ← execute_effects entries s expected archive;
    build_live_execution entries touched s expected archive.

(** The part of [execute_reset] of a live run after its stores are known. *)
Definition reset_stores (entries : list entry) (expected archive : json) : prog execution :=
  _ ← prepare_execution entries;
  s ← capture_backups entries expected archive;
  touched ← execute_effects entries s expected archive;
  build_live_execution entries touched s expected archive.

End Reset.

(** ** The world *)

(** The ids and epochs that a claim returns. *)
Definition claimed_rows (d : db) (ks : list Z) : list (Z * Z) :=
  flat_map (λ i, match ops d !! i with Some o => [(i, execution_epoch o)] | None => [] end) ks.

(** The statement of a repository call: its result and the database after it. *)
Definition exec_call (now : Z) (k : Monthly.call) (d : db) : res monthly_error (call_answer k * db) :=
  match k return res monthly_error (call_answer k * db) with
  | CReserve kind m only dry sub id => reserve now kind m only dry sub id d
  | CStart i w fresh lease =>
      '(s, d') ← start now i w fresh lease d; Ok ((s, ops d' !! i), d')
  | CFinishReset i r rd id sha cd w e => finish_reset_success now i r rd id sha cd w e d
  | CEnsureItems i m next es w e => Ok (tt, ensure_reset_items now i m next es w e d)
  | CPrepareClear i code w e => prepare_reset_clear now i code w e d
  | CPrepareRollback i code w e => prepare_reset_rollback now i code w e d
  | CClaimReconciliation l w lease n =>
      '(ks, d') ← claim_reconciliation_candidates now l w lease n d;
      Ok (claimed_rows d' ks, d')
  | CPersistManifest i doc w e code => persist_manifest_result now i doc w e code d
  | CApprove id sha sub doc => approve_manifest now id sha sub doc d
  | CAttachJob i job => attach_job now i job d
  | CHeartbeat i w e lease => heartbeat now i w e lease d
  | CFinish i r error w e => finish now i r error w e d
  | CFail i error w e => Monthly.fail now i error w e d
  | CFailQueued i error => fail_queued now i error d
  | CCancelUncertain i error w e => mark_cancelled_uncertain now i error w e d
  | CClaimItem i code w e => claim_reset_item now i code w e d
  | CBackup i code path sha w e => record_reset_item_backup now i code path sha w e d
  | CRecordRollback i code r w e error => record_reset_item_rollback now i code r w e error d
  | CFinishItem i code k w e error => finish_reset_item now i code k w e error d
  | CConfirmClear i code w e f v error => confirm_reset_clear now i code w e f v error d
  | CConfirmRollback i code w e f r error => confirm_reset_rollback now i code w e f r error d
  | CReconciled i w e cl error alert => mark_reconciliation_result now i w e cl error alert d
  | CItemRecovery i code w e error => mark_item_recovery_required now i code w e error d
  | CItemSafeRetry i code w e => mark_item_safe_retry now i code w e d
  end.

(** The time, the database, and the requests of this execution with their
    answers, the latest first. *)
Record world := World { clock : Z; base : db; log : list { p : port & res exn (ans p) } }.

Definition event := { p : port & res exn (ans p) }.

Definition all_statuses : list manifest_status :=
  [Building; MFailed; Verified; Approved; Consumed; MRolledBack; MUncertain].

(** The answers of a request and the database after it; the files, Google, the
    clock and the drawn identifiers answer anything. *)
Definition answers (p : port) (w : world) : ans p → db → Prop :=
  match p return ans p → db → Prop with
  | Database k => λ v d, exec_call (clock w) k (base w) = Ok (v, d)
  | LatestArchive m => λ v d, v = latest_manifest m (Some "archive"%string) all_statuses (base w) ∧ d = base w
  | FetchManifest k => λ v d, v = get_manifest k (base w) ∧ d = base w
  | ListItems i => λ v d, v = list_reset_items_for_reconciliation i (base w) ∧ d = base w
  | FetchOperation i => λ v d, v = ops (base w) !! i ∧ d = base w
  | ExecutionLease i o => λ v d, v = get_execution_lease (clock w) i o (base w) ∧ d = base w
  | _ => λ _ d, d = base w
  end.

(** The exceptions a request may raise: a lost connection or a cancelled task,
    an error of the provider, an error of the file system. *)
Definition raises (p : port) (x : exn) : bool :=
  match p, x with
  | (UtcNow | FreshId | RemoveTree _ | HeartbeatTask), _ => false
  | Google _, (GoogleError _ _ | Cancelled | Failure) => true
  | (MakeStaging _ | WriteJson _ _ | PromoteFile _ _ | DescribeFile _ | VerifyFiles _ | ReadFile _),
    (Integrity _ | Failure) => true
  | (Database _ | LatestArchive _ | FetchManifest _ | FetchRegistry _ | ListItems _ | FetchOperation _
    | ExecutionLease _ _ | Sleep _), (Cancelled | Failure) => true
  | _, _ => false
  end.

(** A request that raises may have taken effect before its answer was lost. *)
Definition reply (p : port) (w : world) (a : res exn (ans p)) (w' : world) : Prop :=
  ∃ d, w' = World (clock w) d (existT p a :: log w) ∧
       match a with
       | Ok v => answers p w v d
       | Err x => raises p x = true ∧ (d = base w ∨ ∃ v, answers p w v d)
       end.

(** Other executions make any calls in between; time goes on. *)
Definition env (w w' : world) : Prop :=
  log w' = log w ∧ steps (clock w, base w) (clock w', base w').

End Reset.
