(* ===== verification/GrileResetLogic.v ===== *)
(** A logic for the coroutines of the Grile reset and of its reconciliation: the
    assertions that other executions and requests other than a clear keep, what the
    database keeps about a checkpoint, and the rules for one request after another. *)

From S2P Require Import Prelude Text Dict Json Table Coro Grile GrileMonthly GrileMonthlyInv GrileMonthlySpec GrileReset.
Import Coro Grile Monthly Reset.

Local Open Scope Z_scope.

Module ResetLogic.

Create HintDb kept.
Create HintDb calm.

(** ** The world *)

Definition sound (w : world) : Prop := reachable (clock w, base w).

Lemma exec_call_run now k d v d' : exec_call now k d = Ok (v, d') → run_call now k d = Ok d'.
Proof.
  destruct k; cbn; try (by intros ->); try (by intros [= _ ->]).
  all: intros H; inv_res; destruct v0 as [s d1]; simplify_eq; by rewrite Hv.
Qed.

Lemma answers_steps p w v d : answers p w v d → steps (clock w, base w) (clock w, d).
Proof.
  destruct p; cbn; try (intros [_ ->]; apply rtc_refl); try (intros ->; apply rtc_refl).
  intros H%exec_call_run. apply rtc_once. split; cbn; [lia|]. by exists c.
Qed.

Lemma reply_steps p w a w' :
  reply p w a w' →
  log w' = existT p a :: log w ∧ steps (clock w, base w) (clock w', base w').
Proof.
  intros (d & -> & H). split; [done|]. cbn. destruct a as [v|x]; [by eapply answers_steps|].
  destruct H as [_ [-> |[v H]]]; [apply rtc_refl|by eapply answers_steps].
Qed.

Lemma sound_env w w' : env w w' → sound w → sound w'.
Proof. intros [_ S] R. by eapply reachable_steps. Qed.

Lemma sound_reply p w a w' : reply p w a w' → sound w → sound w'.
Proof. intros [_ S]%reply_steps R. by eapply reachable_steps. Qed.

(** ** What the database keeps about a store's checkpoint *)

Definition checkpoint (i : Z) (code : string) (P : item → Prop) (w : world) : Prop :=
  ∃ k t, items (base w) !! k = Some t ∧ of_site i code t = true ∧ P t.

(** The checkpoint has this backup. *)
Definition has_copy (p h : string) (t : item) : Prop :=
  backup_path t = Some p ∧ backup_sha256 t = Some h.

(** …and is no longer the untouched snapshot that a retry may skip. *)
Definition has_opened (p h : string) (t : item) : Prop := has_copy p h t ∧ phase t ≠ SnapshotPersisted.

(** What no legal change of a row undoes. *)
Definition lasting (P : item → Prop) : Prop := ∀ b t t', P t → item_legal b t t' → P t'.

Lemma has_copy_lasting p h : lasting (has_copy p h).
Proof.
  intros b t t' [Hp Hh] [_ Lb _ _ _]. destruct Lb as [E1 E2]; [congruence|]. split; congruence.
Qed.

Lemma has_opened_lasting p h : lasting (has_opened p h).
Proof.
  intros b t t' [Hc Hn] L. split; [by eapply has_copy_lasting|].
  intros [?|?]%(il_snapshot _ _ _ L); [done|]. destruct Hc. congruence.
Qed.

Lemma checkpoint_steps i code P x w' :
  lasting P → reachable x →
  (∃ k t, items x.2 !! k = Some t ∧ of_site i code t = true ∧ P t) →
  steps x (clock w', base w') → checkpoint i code P w'.
Proof.
  intros HP R H S. unfold checkpoint.
  apply (steps_keep (λ z, ∃ k t, items z.2 !! k = Some t ∧ of_site i code t = true ∧ P t) _ _) in S;
    [exact S| |by apply reachable_inv|exact H].
  intros u a u' a' _ (k & t & Ht & Ho & Hp) E. cbn in *.
  destruct (ev_items _ _ _ E _ _ Ht) as (t' & Ht' & L). exists k, t'. split_and!; [done| |by eapply HP].
  unfold of_site in *. by rewrite (il_req _ _ _ L).
Qed.

Lemma checkpoint_env i code P w w' :
  lasting P → sound w → env w w' → checkpoint i code P w → checkpoint i code P w'.
Proof. intros HP R [_ S] H. by eapply checkpoint_steps. Qed.

Lemma checkpoint_reply i code P p w a w' :
  lasting P → sound w → reply p w a w' → checkpoint i code P w → checkpoint i code P w'.
Proof. intros HP R [_ S]%reply_steps H. by eapply checkpoint_steps. Qed.

(** ** What the calls do to it *)

Lemma update_items_first p f d ks d' k :
  update_items p f d = Ok (ks, d') → k ∈ ks →
  ∃ t, items d !! k = Some t ∧ p t = true ∧ items d' !! k = Some (f t).
Proof.
  intros (Hks & _ & Hk & _)%update_items_Ok Hin. rewrite Hks in Hin.
  apply elem_of_select_keys in Hin as (t & Ht & Hp). exists t.
  split_and!; [done..|]. by rewrite Hk, Ht; cbn; rewrite Hp.
Qed.

Lemma updated_true r d : updated r = Ok (true, d) → ∃ k ks, r = Ok (k :: ks, d).
Proof.
  unfold updated. intros H. inv_res. destruct v as [[|k ks] d0]; [done|]. simplify_eq. eauto.
Qed.

(** A store's checkpoint after a statement that returned [true]. *)
Lemma site_updated i code held p f d d' :
  updated (update_items (site_where i code held p) f d) = Ok (true, d') →
  ∃ k t, items d !! k = Some t ∧ items d' !! k = Some (f t) ∧ of_site i code t = true ∧ p t = true.
Proof.
  intros (k & ks & H)%updated_true.
  destruct (update_items_first _ _ _ _ _ k H) as (t & Ht & Hw & Ht'); [by left|].
  exists k, t. unfold site_where in Hw. split_bools. eauto.
Qed.

Lemma backup_recorded now i code p h w e d d' :
  record_reset_item_backup now i code p h w e d = Ok (true, d') →
  ∃ k t, items d' !! k = Some t ∧ of_site i code t = true ∧ has_copy p h t.
Proof.
  intros (k & t & _ & Ht & Ho & _)%site_updated. exists k, (backup_item p h now t). by split_and!.
Qed.

Lemma clear_intended now i code w e d t d' :
  prepare_reset_clear now i code w e d = Ok (Some t, d') →
  ∃ k, items d' !! k = Some t ∧ of_site i code t = true ∧ phase t = ClearIntent.
Proof.
  intros (ks & H & Hh)%returning_Ok. symmetry in Hh. apply bind_Some in Hh as (k & Hh & Hk).
  destruct (update_items_first _ _ _ _ _ k H) as (t0 & _ & Hw & Ht).
  { destruct ks; [done|]. injection Hh as ->. by left. }
  assert (t = intent_item ClearIntent None now t0) as -> by congruence.
  exists k. unfold site_where in Hw. split_bools. eauto.
Qed.

(** ** Assertions about the world that others and calm requests keep *)

(** The requests that change a sheet. *)
Definition is_clear (p : port) : bool :=
  match p with Google (GClear _ _) => true | _ => false end.
Definition is_write (p : port) : bool :=
  match p with Google (GClear _ _ | GRestore _ _) => true | _ => false end.
Definition calm (p : port) : Prop := is_clear p = false.
Definition mute (p : port) : Prop := is_write p = false.

(** A class of requests with the readings of the sheets. *)
Class Reading (C : port → Prop) : Prop := {
  reading sheet ranges : C (Google (GRead sheet ranges));
  sleeping n : C (Sleep n);
}.
#[export] Instance calm_reading : Reading calm.
Proof. done. Qed.
#[export] Instance mute_reading : Reading mute.
Proof. done. Qed.

(** Others and the requests of [C] keep [J]. *)
Record keeps (C : port → Prop) (J : world → Prop) : Prop := Keeps {
  kept_env w w' : sound w → env w w' → J w → J w';
  kept_reply p w a w' : C p → sound w → reply p w a w' → J w → J w';
}.
Arguments kept_env {C} J k w w'.
Arguments kept_reply {C} J k p w a w'.
Abbreviation kept := (keeps calm).

Section Keeps.
Context {C : port → Prop}.
Abbreviation kept_ := (keeps C).

Lemma kept_and J J' : kept_ J → kept_ J' → kept_ (λ w, J w ∧ J' w).
Proof.
  intros [E R] [E' R']. split.
  - intros w w' Hs He [? ?]. split; eauto.
  - intros p w a w' Hp Hs Hr [? ?]. split; eauto.
Qed.

Lemma kept_all {A} (J : A → world → Prop) : (∀ x, kept_ (J x)) → kept_ (λ w, ∀ x, J x w).
Proof.
  intros H. split.
  - intros w w' Hs He Hj x. by eapply (kept_env _ (H x)).
  - intros p w a w' Hp Hs Hr Hj x. by eapply (kept_reply _ (H x)).
Qed.

Lemma kept_ex {A} (J : A → world → Prop) : (∀ x, kept_ (J x)) → kept_ (λ w, ∃ x, J x w).
Proof.
  intros H. split.
  - intros w w' Hs He [x Hj]. exists x. by eapply (kept_env _ (H x)).
  - intros p w a w' Hp Hs Hr [x Hj]. exists x. by eapply (kept_reply _ (H x)).
Qed.

Lemma kept_impl (P : Prop) J : kept_ J → kept_ (λ w, P → J w).
Proof. intros [E R]. split; naive_solver. Qed.

Lemma kept_const (P : Prop) : kept_ (λ _, P).
Proof. by split. Qed.

Lemma kept_checkpoint i code P : lasting P → kept_ (checkpoint i code P).
Proof. intros HP. split; [by eauto using checkpoint_env|by eauto using checkpoint_reply]. Qed.

(** Assertions on the log that a longer one satisfies too. *)
Lemma kept_log (L : list event → Prop) :
  (∀ p a l, C p → L l → L (existT p a :: l)) → kept_ (λ w, L (log w)).
Proof.
  intros HL. split.
  - intros w w' _ [-> _]. done.
  - intros p w a w' Hp _ [-> _]%reply_steps. by apply HL.
Qed.

Lemma kept_history evs : kept_ (λ w, evs `sublist_of` log w).
Proof. apply (kept_log (sublist evs)). intros. by apply sublist_cons. Qed.

End Keeps.

#[export] Hint Resolve kept_and kept_all kept_ex kept_impl kept_const kept_checkpoint kept_history
  has_copy_lasting has_opened_lasting : kept.

Definition within (J : world → Prop) (w : world) : Prop := sound w ∧ J w.

Abbreviation wp := (wp env reply).

Lemma wp_quiet {C A} (m : prog A) J w :
  asks C m → keeps C J → within J w → wp (within J) m (λ _, within J) w.
Proof.
  intros Hm [E R]. apply wp_asks with (P := C); [| |done].
  - intros w1 w2 He [Hs Hj]. split; [by eapply sound_env|by eapply E].
  - intros p w1 a w2 Hp Hr [Hs Hj]. split; [by eapply sound_reply|by eapply R].
Qed.

Lemma wp_ask {C} p J (Q : res exn (ans p) → world → Prop) w :
  C p → keeps C J → within J w →
  (∀ a w1 w2, within J w1 → reply p w1 a w2 → within J w2 → log w2 = existT p a :: log w1 → Q a w2) →
  wp (within J) (ask p) Q w.
Proof.
  intros Hp [E R] [Hs Hj] HQ w1 a w2 He Hr.
  assert (within J w1) as H1 by (split; [by eapply sound_env|by eapply E]).
  assert (within J w2) as H2 by (destruct H1; split; [by eapply sound_reply|by eapply R]).
  split; [done|]. eapply HQ; [exact H1|exact Hr|done|]. by apply reply_steps in Hr as [].
Qed.

(** *** One request after another *)

(** [J] holds and the log has these events, the latest first. *)
Definition after (J : world → Prop) (evs : list event) (w : world) : Prop :=
  within J w ∧ evs `sublist_of` log w.

Lemma after_within J evs w : after J evs w → within (λ w, J w ∧ evs `sublist_of` log w) w.
Proof. by intros [[? ?] ?]. Qed.

Lemma after_cons J evs p a w1 w2 :
  within J w2 → evs `sublist_of` log w1 → log w2 = existT p a :: log w1 → after J (existT p a :: evs) w2.
Proof. intros H He Hl. split; [done|]. rewrite Hl. by apply sublist_skip. Qed.

Section Next.
Context {C : port → Prop} `{!Reading C}.
Context (I J : world → Prop) (HI : ∀ w, within J w → I w) (HJ : keeps C J).

Lemma wp_last p evs (Q : res exn (ans p) → world → Prop) w :
  C p → after J evs w →
  (∀ x w', after J evs w' → raises p x = true → Q (Err x) w') →
  (∀ v w1 w2, within J w1 → reply p w1 (Ok v) w2 → after J (existT p (Ok v) :: evs) w2 →
     Q (Ok v) w2) →
  wp I (ask p) Q w.
Proof.
  intros Hp Hw Hx Hv. apply after_within in Hw.
  eapply wp_mono; [| |eapply (wp_ask p _ Q); [done| |exact Hw|]].
  - intros w' [? [? _]]. apply HI. by split.
  - done.
  - eauto with kept.
  - intros a w1 w2 [S1 [J1 E1]] Hr [S2 [J2 _]] Hl.
    assert (after J (existT p a :: evs) w2) by (eapply after_cons; [by split|done|done]).
    destruct a as [v|x]; [|destruct Hr as (d & -> & Hr & _); apply Hx; [|done];
                           split; [by split|by apply sublist_cons]].
    by eapply (Hv v w1); [split| |].
Qed.

Lemma wp_next {B} p evs (f : ans p → prog B) (Q : res exn B → world → Prop) w :
  C p → after J evs w →
  (∀ x w', after J evs w' → raises p x = true → Q (Err x) w') →
  (∀ v w1 w2, within J w1 → reply p w1 (Ok v) w2 → after J (existT p (Ok v) :: evs) w2 →
     wp I (f v) Q w2) →
  wp I (ask p ≫= f) Q w.
Proof. intros. apply wp_bind. by eapply wp_last. Qed.

Lemma wp_quiet_then {A} (m : prog A) evs (Q : res exn A → world → Prop) w :
  asks C m → after J evs w → (∀ r w', after J evs w' → Q r w') → wp I m Q w.
Proof.
  intros Hm Hw HQ. apply after_within in Hw.
  eapply wp_mono; [| |eapply wp_quiet; [done| |exact Hw]].
  - intros w' [? [? _]]. apply HI. by split.
  - intros r w' [? [? ?]]. apply HQ. by split.
  - eauto with kept.
Qed.

(** A request of Google that is not a clear. *)
Lemma wp_google g b evs (Q : res exn json → world → Prop) w :
  C (Google g) → after J evs w →
  (∀ x w', after J evs w' → Q (Err x) w') →
  (∀ v w', after J (existT (Google g) (Ok v) :: evs) w' → Q (Ok v) w') →
  wp I (google_request g b) Q w.
Proof.
  intros Hg Hw Hx Hv.
  enough (∀ n left w, after J evs w → wp I (backoff n left g)
      (λ r w', match r with Ok v => after J (existT (Google g) (Ok v) :: evs) w' | Err x => after J evs w' end) w) as H.
  { apply wp_handle. eapply wp_weaken; [by apply H|].
    intros [v|x] w'; cbn; [apply Hv|]. destruct x; cbn; auto. }
  clear w Hw. intros n left. induction left as [|left IH]; intros w Hw; [done|].
  cbn [backoff]. apply wp_handle. eapply wp_last; [done|exact Hw| |by auto].
  intros x w' Hj _. destruct x; try done; destruct (_ || _); try done;
    (eapply wp_next; [apply sleeping|exact Hj|done|]); intros ? w1 w2 _ _ [Hw2 Hs]; apply IH; (split; [done|]);
    (etrans; [|exact Hs]); by apply sublist_cons.
Qed.

Lemma wp_read e evs (Q : res exn json → world → Prop) w :
  after J evs w →
  (∀ x w', after J evs w' → Q (Err x) w') →
  (∀ response snap w2, snapshot_of (length (reset_ranges_for_entry e)) response = Ok snap →
     after J (existT (Google (GRead (sheet_id e) (reset_ranges_for_entry e))) (Ok response) :: evs) w2 →
     Q (Ok snap) w2) →
  wp I (read_snapshot e) Q w.
Proof.
  intros Hw Hx Hv. apply wp_bind. eapply wp_google; [apply reading|exact Hw|done|].
  intros v w' Ha. cbn. destruct (snapshot_of _ v) as [snap|x] eqn:Hs; cbn; [by eapply Hv|].
  apply Hx. destruct Ha as [Hj Ha]. split; [done|]. etrans; [|exact Ha]. by apply sublist_cons.
Qed.
End Next.

(** A snapshot has the ranges that were asked for. *)
Lemma snapshot_ranges n response snap :
  snapshot_of n response = Ok snap → length (value_ranges snap) = n.
Proof.
  unfold snapshot_of. destruct (field "valueRanges" response) as [| | | | |l|]; try done.
  destruct (Nat.eqb (length l) n) eqn:Hn; [|done]. apply Nat.eqb_eq in Hn. unfold canonical_snapshot.
  intros (l' & Hl & [= <-])%bind_Ok. apply mapR_length in Hl. change (length l' = n). congruence.
Qed.

End ResetLogic.
