(* ===== verification/GrileResetSpec.v ===== *)
(** Properties of the live reset: a sheet is cleared only under a durable intent
    and after its backup, at every point where the process may die; and the outcome
    the reset reports tells what happened to the sheets. *)

From S2P Require Import Prelude Text Dict Json Table Coro Grile GrileMonthly GrileMonthlyInv GrileMonthlySpec GrileReset GrileResetLogic.
Import Coro Grile Monthly Reset ResetLogic.

Local Open Scope Z_scope.

Module ResetSpec.

(** ** Histories of one execution *)

Section Execution.
Context (canonical_sha256 : json → string) (c : run_context).
Context (casefold upper : string → string) (decode : string → json).
Context (i : Z) (o : string) (ep : Z).
Hypothesis live_operation : operation_id c = Some i.
Hypothesis live_owner : owner c = Some o.
Hypothesis live_epoch : epoch c = Some ep.
Hypothesis live_run : is_dry_run c = false.

Definition ev (p : port) (a : res exn (ans p)) : event := existT p a.
Definition read_of (e : entry) : port := Google (GRead (sheet_id e) (reset_ranges_for_entry e)).
Definition clear_of (e : entry) : port := Google (GClear (sheet_id e) (reset_ranges_for_entry e)).
Definition snapshot_in (e : entry) (response : json) : res exn json :=
  snapshot_of (length (reset_ranges_for_entry e)) response.

(** The sheet was read as [snap], the snapshot written to its backup file, the
    file's digest taken and recorded in the checkpoint. *)
Definition backup_made (e : entry) (snap : json) (p h : string) (l : list event) : Prop :=
  ∃ response now a,
    [ev (Database (CBackup i (site_code e) p h o ep)) (Ok true);
     ev (DescribeFile (backup_path_of canonical_sha256 c i e)) (Ok a);
     ev (WriteJson (backup_path_of canonical_sha256 c i e)
           (backup_payload canonical_sha256 c i e snap now)) (Ok tt);
     ev (read_of e) (Ok response)] `sublist_of` l ∧
    snapshot_in e response = Ok snap ∧ p = path_text (art_path a) ∧ h = art_sha256 a.

(** The sheet was cleared under an intent, read back without values, and the
    confirmation was accepted. *)
Definition cleared (e : entry) (l : list event) : Prop :=
  ∃ t response snap v,
    [ev (Database (CConfirmClear i (site_code e) o ep (fence_epoch t) true None)) (Ok true);
     ev (read_of e) (Ok response);
     ev (clear_of e) (Ok v);
     ev (Database (CPrepareClear i (site_code e) o ep)) (Ok (Some t))] `sublist_of` l ∧
    snapshot_in e response = Ok snap ∧ snapshot_is_cleared snap = true.

(** The sheet was read back with the digest of [snap], and the rollback confirmed. *)
Definition restored (e : entry) (snap : json) (l : list event) : Prop :=
  ∃ t response current,
    [ev (Database (CConfirmRollback i (site_code e) o ep (fence_epoch t) true
                     (Some (rollback_message true)))) (Ok true);
     ev (read_of e) (Ok response);
     ev (Database (CPrepareRollback i (site_code e) o ep)) (Ok (Some t))] `sublist_of` l ∧
    snapshot_in e response = Ok current ∧
    snapshot_sha256 canonical_sha256 current = snapshot_sha256 canonical_sha256 snap.

(** Every clear was sent right after the intent for its store was granted, after
    the store's backup was made and recorded, and the checkpoint shows it: it has
    that backup and no longer passes for untouched. *)
Definition guarded (G : entry → json → Prop) (w : world) : Prop :=
  ∀ l1 sheet ranges a l2,
    log w = l1 ++ ev (Google (GClear sheet ranges)) a :: l2 →
    ∃ e snap p h t,
      sheet = sheet_id e ∧ ranges = reset_ranges_for_entry e ∧ G e snap ∧
      head l2 = Some (ev (Database (CPrepareClear i (site_code e) o ep)) (Ok (Some t))) ∧
      backup_made e snap p h l2 ∧
      checkpoint i (site_code e) (has_opened p h) w.

Lemma guarded_mono (G G' : entry → json → Prop) w :
  (∀ e snap, G e snap → G' e snap) → guarded G w → guarded G' w.
Proof.
  intros HG H l1 sheet ranges a l2 Hl.
  destruct (H _ _ _ _ _ Hl) as (e & snap & p & h & t & ? & ? & ? & ? & ? & ?).
  exists e, snap, p, h, t. split_and!; auto.
Qed.

(** What a clear needs when it is sent. *)
Definition allowed (G : entry → json → Prop) (sheet : string) (ranges : list string) (l : list event)
    (w : world) : Prop :=
  ∃ e snap p h t,
    sheet = sheet_id e ∧ ranges = reset_ranges_for_entry e ∧ G e snap ∧
    head l = Some (ev (Database (CPrepareClear i (site_code e) o ep)) (Ok (Some t))) ∧
    backup_made e snap p h l ∧ checkpoint i (site_code e) (has_opened p h) w.

Lemma guarded_push G p a w w' :
  sound w → reply p w a w' → guarded G w →
  (∀ sheet ranges, p = Google (GClear sheet ranges) → allowed G sheet ranges (log w) w) →
  guarded G w'.
Proof.
  intros Hs Hr H Hn l1 sheet ranges b l2 Hl.
  assert (∀ l, allowed G sheet ranges l w → allowed G sheet ranges l w') as Hk.
  { intros l (e & snap & q & h & t & ? & ? & ? & ? & ? & ?). exists e, snap, q, h, t.
    split_and!; auto. eapply checkpoint_reply; eauto with kept. }
  pose proof (reply_steps _ _ _ _ Hr) as [El _]. rewrite El in Hl.
  destruct l1 as [|x l1]; cbn in Hl.
  - pose proof (f_equal tail Hl) as Ht. cbn in Ht. subst l2. injection Hl as Hx _. by apply Hk, Hn.
  - pose proof (f_equal tail Hl) as Ht. by eapply Hk, H.
Qed.

Lemma kept_guarded G : kept (guarded G).
Proof.
  split.
  - intros w w' Hs He H l1 sheet ranges a l2 Hl. destruct He as [El S].
    rewrite El in Hl. destruct (H _ _ _ _ _ Hl) as (e & snap & p & h & t & ? & ? & ? & ? & ? & ?).
    exists e, snap, p, h, t. split_and!; auto. eapply checkpoint_env; eauto with kept. by split.
  - intros p w a w' Hp Hs Hr H. eapply guarded_push; [done..|]. by intros ? ? ->.
Qed.

Lemma kept_backup e snap p h : kept (λ w, backup_made e snap p h (log w)).
Proof. unfold backup_made. eauto 10 with kept. Qed.
Lemma kept_cleared e : kept (λ w, cleared e (log w)).
Proof. unfold cleared. eauto 10 with kept. Qed.

(** What is known about a store before it is cleared. *)
Definition captured_entry (s : captured) (e : entry) (w : world) : Prop :=
  ∃ snap p h, dget (site_code e) (snapshots s) = Some snap ∧ backup_made e snap p h (log w) ∧
              checkpoint i (site_code e) (has_copy p h) w.

Lemma kept_captured s e : kept (captured_entry s e).
Proof. unfold captured_entry. pose proof kept_backup. eauto 10 with kept. Qed.

#[local] Hint Resolve kept_guarded kept_backup kept_cleared kept_captured : kept.

Definition covered (s : captured) (es : list entry) (w : world) : Prop :=
  ∀ e, e ∈ es → captured_entry s e w.

Lemma kept_covered s es : kept (covered s es).
Proof. unfold covered. eauto with kept. Qed.
#[local] Hint Resolve kept_covered : kept.

(** ** Backups *)

Lemma lease_live : lease c = mret (i, o, ep).
Proof. unfold lease. by rewrite live_operation, live_owner, live_epoch. Qed.

Lemma has_backups_live : has_backups c = true.
Proof. unfold has_backups. by rewrite live_operation, live_run. Qed.

(** The safety part of every assertion below. *)
Definition safe (w : world) : Prop := guarded (λ _ _, True) w.

Lemma backup_answer p h e w1 w2 :
  reply (Database (CBackup i (site_code e) p h o ep)) w1 (Ok true) w2 →
  checkpoint i (site_code e) (has_copy p h) w2.
Proof. intros (d & -> & H). by eapply backup_recorded. Qed.

Lemma persist_backup_ok I J e snap response (Q : res exn json → world → Prop) w :
  (∀ w, within J w → I w) → kept J →
  after J [ev (read_of e) (Ok response)] w → snapshot_in e response = Ok snap →
  (∀ x w', within J w' → Q (Err x) w') →
  (∀ a p h w', within J w' → backup_made e snap p h (log w') →
     checkpoint i (site_code e) (has_copy p h) w' → Q (Ok a) w') →
  wp I (persist_backup canonical_sha256 c e snap) Q w.
Proof.
  intros HI HJ Hw Hs Hx Hv. unfold persist_backup. rewrite lease_live. cbn [mret coro_ret mbind coro_bind handle].
  eapply (wp_next I J); [done|done|done|exact Hw|intros x w' [? _] _; by apply Hx|]. intros now w1 w2 _ _ H2.
  eapply (wp_next I J); [done|done|done| |intros x w' [? _] _; by apply Hx|].
  { destruct H2 as [H2 S2]. split; [exact H2|]. etrans; [|exact S2]. by apply sublist_cons. }
  intros [] w3 w4 _ _ H4.
  eapply (wp_next I J); [done|done|done|exact H4|intros x w' [? _] _; by apply Hx|]. intros a w5 w6 _ _ H6.
  eapply (wp_next I J); [done|done|done|exact H6|intros x w' [? _] _; by apply Hx|]. intros b w7 w8 _ Hb [H8 S8].
  destruct b; cbn; [|by apply Hx]. eapply Hv; [done| |].
  - exists response, now, a. by split_and!.
  - by eapply backup_answer.
Qed.

Lemma captured_other s e e' snap w :
  site_code e' ≠ site_code e → captured_entry s e' w →
  captured_entry (Captured (dput (site_code e) snap (snapshots s)) (backup_artifacts s)) e' w.
Proof.
  intros Hne (snap' & p & h & Hd & ?). exists snap', p, h. cbn. split; [|done].
  by rewrite dget_dput, decide_False.
Qed.

(** What is known once some stores have been captured. *)
Definition progress (s : captured) (done : list entry) (w : world) : Prop := safe w ∧ covered s done w.

Lemma kept_progress s done : kept (progress s done).
Proof. unfold progress, safe. eauto with kept. Qed.
#[local] Hint Resolve kept_progress : kept.

Lemma progress_safe s done w : within (progress s done) w → within safe w.
Proof. intros [? []]. by split. Qed.
#[local] Hint Resolve progress_safe : core.

Lemma capture_entry_ok s done e w :
  site_code e ∉ site_code <$> done → within (progress s done) w →
  wp (within safe) (capture_entry canonical_sha256 c s e) (λ r w',
    ∃ s' x, r = Ok (s', x) ∧
            match x with None => within (progress s' (done ++ [e])) w' | Some _ => within safe w' end) w.
Proof.
  intros Hfresh Hw. unfold capture_entry. apply wp_handle.
  eapply (wp_read (C:=calm) _ (progress s done)); [by eauto|by eauto with kept|by split; [exact Hw|apply sublist_nil_l]| |].
  { intros x w' [H _]. cbn. exists s, (Some x). eauto. }
  intros response snap w1 Hs H1. rewrite has_backups_live. apply wp_handle.
  eapply (persist_backup_ok _ (progress s done)); [by eauto|by eauto with kept|exact H1|exact Hs| |].
  { intros x w' H. cbn. eexists _, (Some x). eauto. }
  intros a p h w' [Hso [Hsafe Hcov]] Hm Hc. cbn. eexists _, None. split; [done|]. split; [done|].
  split; [done|]. intros e' He'. apply elem_of_app in He' as [He'|He'%list_elem_of_singleton]; [|subst e'].
  - apply (captured_other (Captured (snapshots s) _)); [|by apply Hcov].
    intros Heq. apply Hfresh. rewrite <- Heq. by apply list_elem_of_fmap_2.
  - exists snap, p, h. cbn. by rewrite dget_dput, decide_True.
Qed.

Lemma capture_all_ok s done es w :
  NoDup (site_code <$> done ++ es) → within (progress s done) w →
  wp (within safe) (capture_all canonical_sha256 c s es) (λ r w',
    ∃ s' x, r = Ok (s', x) ∧
            match x with None => within (progress s' (done ++ es)) w' | Some _ => within safe w' end) w.
Proof.
  revert s done w. induction es as [|e es IH]; intros s done w Hnd Hw; cbn [capture_all].
  - rewrite app_nil_r. case_bool_decide; [by exists s, None|]. apply wp_handle.
    eapply (wp_last _ (progress s done) (progress_safe s done) (kept_progress s done) (VerifyFiles (backup_artifacts s)) []); [done|split; [exact Hw|apply sublist_nil_l]| |].
    + intros x w' [H' _] _. cbn. exists s, (Some x). eauto.
    + intros v w1 w2 _ _ [H' _]. cbn. by exists s, None.
  - apply wp_bind. eapply wp_weaken; [apply (capture_entry_ok _ done); [|exact Hw]|].
    + rewrite fmap_app, NoDup_app in Hnd. destruct Hnd as (_ & Hd & _). intros H.
      apply (Hd _ H). by left.
    + intros r w' (s' & x & -> & Hx). destruct x as [x|]; cbn; [by exists s', (Some x)|].
      rewrite cons_middle, app_assoc in Hnd |- *. by apply IH.
Qed.

(** ** Clears *)

(** The clears so far are those of [touched], and the stores of [cleared_] were
    cleared and read back. *)
Definition of_touched (s : captured) (touched : list entry) (e : entry) (snap : json) : Prop :=
  e ∈ touched ∧ dget (site_code e) (snapshots s) = Some snap.

Definition clearing (s : captured) (all touched finished : list entry) (w : world) : Prop :=
  covered s all w ∧ guarded (of_touched s touched) w ∧ ∀ e, e ∈ finished → cleared e (log w).

Lemma kept_clearing s all touched finished : kept (clearing s all touched finished).
Proof. unfold clearing. eauto 10 with kept. Qed.
#[local] Hint Resolve kept_clearing : kept.

Lemma clearing_safe s all touched finished w :
  within (clearing s all touched finished) w → within safe w.
Proof. intros [? (_ & H & _)]. split; [done|]. by eapply guarded_mono; [|exact H]. Qed.
#[local] Hint Resolve clearing_safe : core.

Lemma site_unique w k k' t t' :
  sound w → items (base w) !! k = Some t → items (base w) !! k' = Some t' →
  ∀ code, of_site i code t = true → of_site i code t' = true → t = t'.
Proof.
  intros Hs Ht Ht' code H H'. apply reachable_inv in Hs. unfold of_site in *.
  rewrite andb_true_iff, Z.eqb_eq, String.eqb_eq in H, H'. destruct H as [E1 E2], H' as [E3 E4].
  assert (k = k') as ->; [|congruence].
  eapply (iv_sites _ Hs); [exact Ht|exact Ht'|]. unfold of_site.
  by rewrite E1, E2, E3, E4, Z.eqb_refl, String.eqb_refl.
Qed.

Lemma intent_opens e p h w1 t w2 :
  sound w1 → reply (Database (CPrepareClear i (site_code e) o ep)) w1 (Ok (Some t)) w2 →
  checkpoint i (site_code e) (has_copy p h) w1 → checkpoint i (site_code e) (has_opened p h) w2.
Proof.
  intros Hs Hr Hc. assert (sound w2) as Hs2 by by eapply sound_reply.
  assert (checkpoint i (site_code e) (has_copy p h) w2) as (k & t1 & Ht1 & Ho & Hcopy)
    by exact (checkpoint_reply _ _ _ _ _ _ _ (has_copy_lasting p h) Hs Hr Hc).
  destruct Hr as (d & -> & Hr). cbn in Hr. apply clear_intended in Hr as (k' & Ht & Ho' & Hph).
  assert (t1 = t) as -> by by eapply (site_unique _ k k' t1 t Hs2 Ht1 Ht).
  exists k', t. split_and!; [done..|]. split; [done|]. by rewrite Hph.
Qed.

(** The clear is one request, sent right after its intent. *)
Lemma clear_sent s all touched finished e snap p h t w (Q : res exn json → world → Prop) :
  e ∈ touched → dget (site_code e) (snapshots s) = Some snap →
  within (clearing s all touched finished) w →
  head (log w) = Some (ev (Database (CPrepareClear i (site_code e) o ep)) (Ok (Some t))) →
  backup_made e snap p h (log w) → checkpoint i (site_code e) (has_opened p h) w →
  (∀ x w', within (clearing s all touched finished) w' → Q (Err x) w') →
  (∀ v w', after (clearing s all touched finished)
             [ev (clear_of e) (Ok v);
              ev (Database (CPrepareClear i (site_code e) o ep)) (Ok (Some t))] w' → Q (Ok v) w') →
  wp (within safe) (google_request (GClear (sheet_id e) (reset_ranges_for_entry e)) true) Q w.
Proof.
  intros He Hd [Hs Hj] Hh Hm Hc Hx Hv w1 a w2 Hw Hr. cbn in Hr.
  assert (sound w1) as Hs1 by by eapply sound_env.
  assert (clearing s all touched finished w1) as (Hcov & Hg & Hf)
    by exact (kept_env _ (kept_clearing s all touched finished) _ _ Hs Hw Hj).
  assert (checkpoint i (site_code e) (has_opened p h) w1) as Hc1
    by exact (checkpoint_env _ _ _ _ _ (has_opened_lasting p h) Hs Hw Hc).
  assert (log w1 = log w) as El by apply Hw.
  pose proof (reply_steps _ _ _ _ Hr) as [El2 _].
  assert (within (clearing s all touched finished) w2) as H2.
  { split; [by eapply sound_reply|]. split_and!.
    - intros e' He'. destruct (Hcov e' He') as (snap' & p' & h' & ? & Hb & ?). exists snap', p', h'.
      split_and!; [done| |by eapply checkpoint_reply; eauto with kept].
      destruct Hb as (r & now & ar & Hsub & ?). exists r, now, ar. split; [|done].
      rewrite El2. by apply sublist_cons.
    - eapply guarded_push; [done..|]. intros sheet ranges [= <- <-].
      exists e, snap, p, h, t. rewrite El. by split_and!.
    - intros e' He'. destruct (Hf e' He') as (t' & r & sn & v & Hsub & ?). exists t', r, sn, v.
      split; [|done]. rewrite El2. by apply sublist_cons. }
  split; [by eauto|]. destruct a as [v|x].
  - cbn. apply Hv. split; [done|]. rewrite El2, El. apply sublist_skip.
    destruct (log w) as [|y l]; [done|]. injection Hh as ->. apply sublist_skip, sublist_nil_l.
  - destruct x; cbn; by apply Hx.
Qed.

(** One store: it counts as touched from the start, and as finished at the end. *)
Lemma clear_adapter_ok s all touched finished e w :
  e ∈ all → e ∈ touched → within (clearing s all touched finished) w →
  wp (within safe) (clear_adapter c e) (λ r w',
    within (clearing s all touched (match r with Ok true => e :: finished | _ => finished end)) w') w.
Proof.
  intros Hall Ht Hw. unfold clear_adapter. rewrite lease_live. cbn [mret coro_ret mbind coro_bind handle].
  set (J := clearing s all touched finished) in *.
  assert (∀ w, within J w → within safe w) as HI by (unfold J; eauto).
  assert (kept J) as HJ by apply kept_clearing.
  eapply (wp_next (within safe) J HI HJ); [done|split; [exact Hw|apply sublist_nil_l]|by intros x w' [] _|].
  intros [t|] w1 w2 [S1 J1] Hr [H2 _]; [|done]. pose proof (reply_steps _ _ _ _ Hr) as [El _].
  assert (captured_entry s e w1) as (snap & p & h & Hd & Hb & Hc) by (by apply J1).
  apply wp_bind. eapply (clear_sent s all touched finished e snap p h t); [done|done|exact H2|by rewrite El| | | |].
  { destruct Hb as (r & now & ar & Hsub & ?). exists r, now, ar. split; [|done]. rewrite El. by apply sublist_cons. }
  { by eapply intent_opens. }
  { by intros x w' H. }
  intros v w3 H3. apply wp_bind.
  eapply (wp_read (within safe) J HI HJ); [exact H3|by intros x w' []|].
  intros response cur w4 Hs H4. destruct (verify_cleared cur) as [[]|x] eqn:Hv; cbn [mbind coro_bind lift handle]; [|by destruct H4].
  apply raise_if_Ok, negb_false_iff in Hv.
  eapply (wp_last (within safe) J HI HJ); [done|exact H4|by intros x w' [[? ?] _] _|].
  intros [] w5 w6 _ _ [[S6 J6] H6]; [|done]. split; [done|]. destruct J6 as (? & ? & Hf). split_and!; [done..|].
  intros e' [->|He']%elem_of_cons; [|by apply Hf]. exists t, response, cur, v. by split_and!.
Qed.

Lemma clear_entry_ok s all touched finished e w :
  e ∈ all → e ∈ touched → within (clearing s all touched finished) w →
  wp (within safe) (clear_entry c e) (λ r w',
    within (clearing s all touched (match r with Ok _ => e :: finished | Err _ => finished end)) w') w.
Proof.
  intros Hall Ht Hw. unfold clear_entry. rewrite lease_live. cbn [mret coro_ret mbind coro_bind handle].
  set (J := clearing s all touched finished) in *.
  assert (∀ w, within J w → within safe w) as HI by (unfold J; eauto).
  assert (kept J) as HJ by apply kept_clearing.
  eapply (wp_next (within safe) J HI HJ); [done|split; [exact Hw|apply sublist_nil_l]|by intros x w' [] _|].
  intros b w1 w2 _ _ H2.
  eapply (wp_next (within safe) J HI HJ); [done|exact H2|by intros x w' [[] _] _|].
  intros [] w3 w4 _ _ [H4 _]; [|exact H4]. cbn [ensure mret coro_ret mbind coro_bind handle].
  apply wp_bind.
  eapply wp_weaken; [by apply (clear_adapter_ok s all touched finished)|]. intros [[]|x] w' H; [done..|exact H].
Qed.

Lemma clearing_touch s all touched finished es w :
  within (clearing s all touched finished) w → within (clearing s all (touched ++ es) finished) w.
Proof.
  intros (Hs & Hc & Hg & Hf). do 2 (split; [done|]). split; [|done].
  eapply guarded_mono; [|exact Hg]. intros e snap [??]. split; [|done]. apply elem_of_app. by left.
Qed.

Lemma clear_all_ok s all touched es w :
  all = touched ++ es → within (clearing s all touched touched) w →
  wp (within safe) (clear_all c touched es) (λ r w',
    ∃ touched' x, r = Ok (touched', x) ∧ touched' ⊆ all ∧
      within (clearing s all touched' (match x with Some _ => [] | None => touched' end)) w' ∧ (x = None → touched' = all)) w.
Proof.
  intros Hall. revert touched w Hall. induction es as [|e es IH]; intros touched w Hall Hw; cbn [clear_all].
  - exists touched, None. rewrite app_nil_r in Hall. by subst.
  - apply wp_handle. eapply wp_weaken.
    + apply (clear_entry_ok s all (touched ++ [e]) touched); [subst all; apply elem_of_app; right; by left|apply elem_of_app; right; by left|].
      by apply clearing_touch.
    + intros [[]|x] w' (Hs & Hc & Hg & Hf).
      * apply IH; [by rewrite Hall, cons_middle, app_assoc|]. do 3 (split; [done|]).
        intros e' [He'|He']%elem_of_app; apply Hf; [by right|]. apply list_elem_of_singleton in He' as ->. by left.
      * exists (touched ++ [e]), (Some x). split; [done|]. split; [|split; [|done]].
        -- subst all. intros e' [?|He']%elem_of_app; apply elem_of_app; [by left|right].
           apply list_elem_of_singleton in He' as ->. by left.
        -- do 3 (split; [done|]). by intros ? ?%elem_of_nil.
Qed.

(** ** Rollbacks *)

Definition calm_event (x : event) : Prop := calm (projT1 x).

(** Since the log was [l0] nothing was cleared, and these stores were restored. *)
Definition rolling (s : captured) (l0 : list event) (finished : list entry) (w : world) : Prop :=
  safe w ∧ ∃ l1, log w = l1 ++ l0 ∧ Forall calm_event l1 ∧
    ∀ e, e ∈ finished → ∃ snap, dget (site_code e) (snapshots s) = Some snap ∧ restored e snap l1.

Lemma kept_rolling s l0 finished : kept (rolling s l0 finished).
Proof.
  unfold rolling, safe. apply kept_and; [by eauto with kept|].
  apply (kept_log (λ l, ∃ l1, l = l1 ++ l0 ∧ Forall calm_event l1 ∧ ∀ e, e ∈ finished →
    ∃ snap, dget (site_code e) (snapshots s) = Some snap ∧ restored e snap l1)).
  intros p a l Hp (l1 & -> & Hf & Hr). exists (existT p a :: l1). split_and!; [done|by constructor|].
  intros e He. destruct (Hr e He) as (snap & ? & t & r & cur & Hsub & ?). exists snap. split; [done|].
  exists t, r, cur. split; [by apply sublist_cons|done].
Qed.
#[local] Hint Resolve kept_rolling : kept.

Lemma rolling_safe s l0 finished w : within (rolling s l0 finished) w → within safe w.
Proof. intros [? []]. by split. Qed.
#[local] Hint Resolve rolling_safe : core.

Lemma rolling_nil s l0 finished w : within (rolling s l0 finished) w → within (rolling s l0 []) w.
Proof.
  intros (? & ? & l1 & ? & ? & _). do 2 (split; [done|]). exists l1. split_and!; [done..|].
  by intros ? ?%elem_of_nil.
Qed.
#[local] Hint Resolve rolling_nil : core.

Lemma restore_entry_ok s l0 finished evs e w (Q : res exn bool → world → Prop) :
  after (rolling s l0 finished) evs w →
  (∀ w', after (rolling s l0 finished) evs w' → Q (Ok false) w') →
  (∀ snap response current w', dget (site_code e) (snapshots s) = Some snap →
     snapshot_in e response = Ok current →
     snapshot_sha256 canonical_sha256 current = snapshot_sha256 canonical_sha256 snap →
     after (rolling s l0 finished) (ev (read_of e) (Ok response) :: evs) w' → Q (Ok true) w') →
  wp (within (rolling s l0 [])) (restore_entry canonical_sha256 s e) Q w.
Proof.
  intros Hw Hf Ht. unfold restore_entry. apply wp_handle.
  destruct (dget (site_code e) (snapshots s)) as [snap|] eqn:Hd; [|by apply Hf].
  set (J := rolling s l0 finished) in *.
  assert (∀ w, within J w → within (rolling s l0 []) w) as HI by (unfold J; eauto).
  assert (kept J) as HJ by apply kept_rolling.
  unfold restore_snapshot. destruct (restore_data snap) as [data|x]; cbn [mbind coro_bind lift handle]; [|by apply Hf].
  enough (∀ w, after J evs w →
    wp (within (rolling s l0 [])) (current ← read_snapshot e; lift (verify_restored canonical_sha256 current snap))
      (λ r w', Q (Ok (is_ok r)) w') w) as Hread.
  { apply wp_bind. case_bool_decide; [by apply Hread|].
    eapply (wp_google (within (rolling s l0 [])) J HI HJ); [done|exact Hw|intros x w' Hx; by apply Hf|].
    intros v w' [H1 H2]. apply Hread. split; [done|]. etrans; [|exact H2]. by apply sublist_cons. }
  clear w Hw. intros w Hw. apply wp_bind.
  eapply (wp_read (within (rolling s l0 [])) J HI HJ); [exact Hw|intros x w' Hx; by apply Hf|].
  intros response cur w' Hs H'. cbn. destruct (verify_restored _ cur snap) as [[]|x] eqn:Hv; cbn.
  - apply raise_if_Ok, negb_false_iff, String.eqb_eq in Hv. by eapply Ht.
  - apply Hf. destruct H' as [H1 H2]. split; [done|]. etrans; [|exact H2]. by apply sublist_cons.
Qed.

Lemma rolling_start s l0 finished w : within (rolling s l0 finished) w → after (rolling s l0 finished) l0 w.
Proof.
  intros H. split; [done|]. destruct H as [_ [_ (l1 & -> & _)]]. by apply sublist_inserts_l.
Qed.

Lemma rollback_entry_ok s l0 finished e w :
  within (rolling s l0 finished) w →
  wp (within (rolling s l0 [])) (rollback_entry canonical_sha256 i o ep s e) (λ r w',
    within (rolling s l0 (match r with Ok true => e :: finished | _ => finished end)) w') w.
Proof.
  intros Hw%rolling_start. unfold rollback_entry.
  set (J := rolling s l0 finished) in *.
  assert (∀ w, within J w → within (rolling s l0 []) w) as HI by (unfold J; eauto).
  assert (kept J) as HJ by apply kept_rolling.
  eapply (wp_next (within (rolling s l0 [])) J HI HJ); [done|exact Hw|by intros x w' [? ?] _|].
  intros [t|] w1 w2 _ _ H2; [|by destruct H2].
  apply wp_bind. eapply (restore_entry_ok s l0 finished); [exact H2| |].
  - intros w' H'. eapply (wp_next (within (rolling s l0 [])) J HI HJ); [done|exact H'|by intros x w0 [? ?] _|].
    by intros b w3 w4 _ _ [? ?].
  - intros snap response cur w' Hd Hs Hv H'.
    eapply (wp_next (within (rolling s l0 [])) J HI HJ); [done|exact H'|by intros x w0 [? ?] _|].
    intros [] w3 w4 _ _ [[S4 J4] H4]; [|done]. split; [done|]. destruct J4 as (? & l1 & El & Hc & Hr).
    split; [done|]. exists l1. split_and!; [done..|]. intros e' [->|He']%elem_of_cons; [|by apply Hr].
    exists snap. split; [done|]. exists t, response, cur. split; [|done]. rewrite El in H4.
    by apply (sublist_app_inv_r l0).
Qed.

Lemma rollback_entries_ok s l0 es w :
  within (rolling s l0 []) w →
  wp (within (rolling s l0 [])) (rollback_entries canonical_sha256 i o ep s es) (λ r w',
    within (rolling s l0 (match r with Ok true => es | _ => [] end)) w') w.
Proof.
  intros Hw. unfold rollback_entries.
  enough (∀ rest (ok : bool) finished w, within (rolling s l0 (if ok then finished else [])) w →
    wp (within (rolling s l0 [])) (fold_coro (λ ok e, done ← rollback_entry canonical_sha256 i o ep s e; mret (ok && done)) ok rest)
      (λ r w', within (rolling s l0 (match r with Ok true => rev rest ++ finished | _ => [] end)) w') w) as H.
  { eapply wp_weaken; [apply (H (rev es) true []); done|]. intros r w'. by rewrite rev_involutive, app_nil_r. }
  clear w Hw. intros rest. induction rest as [|e rest IH]; intros ok finished w Hw; [by destruct ok|].
  cbn [fold_coro]. apply wp_bind, wp_bind. eapply wp_weaken; [by apply rollback_entry_ok|].
  intros [b|x] w' H'; cbn; [|by eapply rolling_nil].
  eapply wp_weaken; [apply (IH (ok && b) (e :: finished))|].
  - destruct ok, b; cbn; try done; by eapply rolling_nil.
  - intros r w0. cbn. by rewrite <- app_assoc.
Qed.

Lemma rollback_touched_ok s l0 es w :
  within (rolling s l0 []) w →
  wp (within safe) (rollback_touched canonical_sha256 c es s) (λ r w',
    ∃ b, r = Ok b ∧ within (rolling s l0 (if (b : bool) then es else [])) w') w.
Proof.
  intros Hw. unfold rollback_touched. rewrite live_operation, live_owner, live_epoch.
  cbn [asserted mret coro_ret mbind coro_bind handle]. unfold cancel_safe. apply wp_handle.
  eapply wp_mono; [apply (rolling_safe s l0 [])| |apply wp_shielded].
  - intros r w' H. exact H.
  - intros w0 w1 He [Hs Hj]. split; [by eapply sound_env|].
    by eapply (kept_env _ (kept_rolling s l0 [])).
  - done.
  - eapply wp_weaken; [by apply rollback_entries_ok|]. intros [b|x] w' H'; cbn.
    + exists b. split; [done|]. by destruct b.
    + by exists false.
  - intros w0 H0. by exists false.
Qed.

(** ** Programs that never clear *)

Lemma asks_ask p : calm p → asks calm (ask p).
Proof. by split. Qed.

Lemma asks_lift {A} (r : res exn A) : asks calm (lift r : prog A).
Proof. done. Qed.

Lemma asks_google g b : calm (Google g) → asks calm (google_request g b).
Proof.
  intros Hg. apply asks_handle; [|by intros [v|[]]]. unfold call_with_backoff.
  generalize (if b then 1%nat else GOOGLE_API_RETRY_ATTEMPTS) at 1 as n.
  generalize (if b then 1%nat else GOOGLE_API_RETRY_ATTEMPTS) as left.
  intros left n. induction left as [|left IH]; [done|]. cbn [backoff].
  apply asks_handle; [by apply asks_ask|].
  intros [v|[]]; try done; destruct (_ || _); try done; (apply asks_bind; [by apply asks_ask|done]).
Qed.

Lemma asks_read e : asks calm (read_snapshot e).
Proof. apply asks_bind; [by apply asks_google|done]. Qed.

Lemma asks_ensure b x : asks calm (ensure b x : prog ()).
Proof. by destruct b. Qed.

#[local] Hint Resolve asks_ask asks_lift asks_ensure asks_google asks_read : calm.

Ltac quiet :=
  repeat first
    [ done
    | solve [eauto with calm]
    | apply asks_bind; [|intros ?]
    | apply asks_handle; [|intros ?]
    | progress cbn [mret coro_ret asks]
    | case_match ].

Lemma asks_manifest errors expected archive n backups status arts :
  asks calm (reset_manifest canonical_sha256 c errors expected archive n backups status arts).
Proof. unfold reset_manifest. quiet. Qed.
#[local] Hint Resolve asks_manifest : calm.

Lemma asks_reject {A} code m : asks calm m → asks calm (reject code m : prog A).
Proof. intros Hm. unfold reject. quiet. Qed.

Lemma asks_refusal code expected archive : asks calm (refusal canonical_sha256 c code expected archive).
Proof. apply asks_manifest. Qed.
#[local] Hint Resolve asks_reject asks_refusal : calm.

Lemma asks_validate : asks calm (validate_request canonical_sha256 c).
Proof. unfold validate_request. quiet. Qed.

Lemma asks_archive : asks calm (load_archive canonical_sha256 c decode).
Proof. unfold load_archive, selected_prerequisite. quiet. Qed.

Lemma asks_entries archive : asks calm (load_entries canonical_sha256 c casefold upper archive).
Proof. unfold load_entries. quiet. Qed.

Lemma asks_prepare entries : asks calm (prepare_execution c entries).
Proof. unfold prepare_execution. rewrite lease_live. quiet. Qed.

Lemma asks_report expected n dry : asks calm (report_artifact c expected n dry).
Proof. unfold report_artifact, finally. quiet. Qed.

Lemma asks_capture s entries : asks calm (capture_all canonical_sha256 c s entries).
Proof.
  revert s. induction entries as [|e es IH]; intros s; cbn [capture_all]; [quiet|].
  unfold capture_entry, persist_backup. rewrite lease_live. quiet.
Qed.
#[local] Hint Resolve asks_validate asks_archive asks_entries asks_prepare asks_report asks_capture : calm.

(** ** What the outcome says *)

Definition no_clear (l : list event) : Prop := Forall calm_event l.

(** Every clear was followed by a confirmed restoration of the snapshot its
    store's backup holds. *)
Definition all_restored (l : list event) : Prop :=
  ∀ l1 sheet ranges a l2, l = l1 ++ ev (Google (GClear sheet ranges)) a :: l2 →
    ∃ e snap p h, sheet = sheet_id e ∧ backup_made e snap p h l2 ∧ restored e snap l1.

Lemma kept_no_clear : kept (λ w, no_clear (log w)).
Proof. apply kept_log. intros p a l Hp Hl. by constructor. Qed.

Lemma kept_all_restored : kept (λ w, all_restored (log w)).
Proof.
  apply kept_log. intros p a l Hp Hl l1 sheet ranges b l2 El. destruct l1 as [|x l1].
  { injection El as Hx _. by rewrite Hx in Hp. }
  pose proof (f_equal tail El) as Ht.
  destruct (Hl _ _ _ _ _ Ht) as (e & snap & q & h & ? & ? & t & r & cur & Hs & ?).
  exists e, snap, q, h. split_and!; [done..|]. exists t, r, cur. split; [by apply sublist_cons|done].
Qed.
#[local] Hint Resolve kept_no_clear kept_all_restored : kept.

Lemma no_clear_safe G w : no_clear (log w) → guarded G w.
Proof.
  intros H l1 sheet ranges a l2 Hl. rewrite Hl in H. apply Forall_app in H as [_ H].
  by apply Forall_cons in H as [H _].
Qed.

(** The part of the archive and the registry that the manifests copy. *)
Definition countable (expected archive : json) : Prop :=
  (∃ stores, counted "stores" expected = Ok stores) ∧ (∃ agents, counted "agents" expected = Ok agents) ∧
  ∃ f, archive = JObj f ∧ is_object (jget_or "control_totals" (JObj []) f) = true.

Lemma manifest_status errors st ag ps pa totals arts backups status now month op sub :
  field "status" (base_manifest canonical_sha256 now month op sub st ag ps pa totals arts backups errors status)
  = JStr status.
Proof. reflexivity. Qed.

Lemma manifest_ok I J errors expected archive n backups status arts w (Q : res exn json → world → Prop) :
  (∀ w, within J w → I w) → kept J → countable expected archive → within J w →
  (∀ m w', field "status" m = JStr status → within J w' → Q (Ok m) w') →
  wp I (reset_manifest canonical_sha256 c errors (Some expected) (Some archive) n backups status arts) Q w.
Proof.
  intros HI HJ ((st & Est) & (ag & Eag) & f & -> & Ho) Hw HQ. unfold reset_manifest.
  eapply (wp_next I J HI HJ); [done|split; [exact Hw|apply sublist_nil_l]|intros ? ? _ Hx; discriminate Hx|].
  intros now w1 w2 _ _ [H2 _]. cbn [default id] in *. rewrite Est, Eag. unfold as_object. rewrite Ho.
  cbn [lift mbind coro_bind handle mret coro_ret]. apply HQ; [|done]. apply manifest_status.
Qed.

Lemma manifest_any I J errors expected archive n backups status arts w :
  (∀ w, within J w → I w) → kept J → within J w →
  wp I (reset_manifest canonical_sha256 c errors expected archive n backups status arts)
    (λ r w', within J w' ∧ ∀ m, r = Ok m → field "status" m = JStr status) w.
Proof.
  intros HI HJ Hw. unfold reset_manifest.
  eapply (wp_next I J HI HJ); [done|split; [exact Hw|apply sublist_nil_l]|intros ? ? _ Hx; discriminate Hx|].
  intros now w1 w2 _ _ [H2 _].
  destruct (counted "stores" _) as [st|]; cbn [lift mbind coro_bind handle]; [|by split].
  destruct (counted "agents" _) as [ag|]; cbn [lift mbind coro_bind handle]; [|by split].
  destruct (as_object _) as [totals|]; cbn [lift mbind coro_bind handle mret coro_ret]; [|by split].
  split; [done|]. intros m [= <-]. apply manifest_status.
Qed.

Lemma rolling_all_restored s all touched finished w0 w1 :
  clearing s all touched finished w0 → within (rolling s (log w0) touched) w1 → all_restored (log w1).
Proof.
  intros (_ & Hg & _) (_ & _ & l & -> & Hc & Hr) l1 sheet ranges a l2 El.
  assert (∃ l1', l1 = l ++ l1') as [l1' ->].
  { destruct (app_eq_inv _ _ _ _ El) as [(k & -> & Hk)|(k & -> & _)]; [|by exists k].
    destruct k as [|x k]; [exists []; by rewrite !app_nil_r|]. exfalso.
    apply Forall_app in Hc as [_ Hc]. apply Forall_cons in Hc as [Hc _].
    cbn in Hk. injection Hk as <- _. done. }
  rewrite <- app_assoc in El. apply app_inv_head in El.
  destruct (Hg _ _ _ _ _ El) as (e & snap & p & h & t & ? & _ & [He Hd] & _ & Hb & _).
  exists e, snap, p, h. split_and!; [done..|].
  destruct (Hr e He) as (snap' & Hd' & t' & r & cur & Hs & ?). assert (snap' = snap) as -> by congruence.
  exists t', r, cur. split; [by apply sublist_inserts_r|done].
Qed.

Lemma rollback_after_ok s all touched finished expected archive code w :
  countable expected archive → within (clearing s all touched finished) w →
  wp (within safe) (rollback_after canonical_sha256 c touched s expected archive code) (λ r w',
    within safe w' ∧ ∃ b m, r = Ok (rollback_status_of b, m) ∧
      field "status" m = JStr (rollback_status_of b) ∧ (b = true → all_restored (log w'))) w.
Proof.
  intros Hg Hw. unfold rollback_after. apply wp_bind.
  eapply wp_weaken; [apply (rollback_touched_ok s (log w))|].
  { split; [apply Hw|]. split; [by eapply clearing_safe in Hw as []|]. exists [].
    split_and!; [done|constructor|by intros ? ?%elem_of_nil]. }
  intros r w' (b & -> & H'). apply wp_bind.
  eapply (manifest_ok (within safe) (λ w, safe w ∧ (b = true → all_restored (log w))));
    [|apply kept_and; [apply kept_guarded|apply kept_impl, kept_all_restored]|done| |].
  - intros w0 [? [? _]]. by split.
  - pose proof H' as H0. destruct H' as [? [? _]]. do 2 (split; [done|]). intros ->.
    eapply rolling_all_restored; [apply Hw|exact H0].
  - intros m w0 Hm (? & ? & ?). cbn. split; [by split|]. by exists b, m.
Qed.

(** How a reset that fails names what it did to the sheets. *)
Definition classified (x : exn) (l : list event) : Prop :=
  no_clear l ∨
  ∃ b m, x = ManifestError (rollback_status_of b) m ∧ field "status" m = JStr (rollback_status_of b) ∧
         (b = true → all_restored l).

(** Every clear is of one of these stores. *)
Definition clears_only (es : list entry) (l : list event) : Prop :=
  ∀ sheet ranges a, ev (Google (GClear sheet ranges)) a ∈ l →
    ∃ e, e ∈ es ∧ sheet = sheet_id e ∧ ranges = reset_ranges_for_entry e.

Lemma clearing_only s all touched finished w :
  clearing s all touched finished w → clears_only touched (log w).
Proof.
  intros (_ & Hg & _) sheet ranges a (l1 & l2 & Hl)%list_elem_of_split.
  destruct (Hg _ _ _ _ _ Hl) as (e & ? & ? & ? & ? & -> & -> & [He _] & _). by exists e.
Qed.

Lemma asks_rollback touched s : asks calm (rollback_touched canonical_sha256 c touched s).
Proof.
  unfold rollback_touched. rewrite live_operation, live_owner, live_epoch.
  apply asks_bind; [done|]. intros j. unfold cancel_safe, rollback_entries.
  apply asks_handle; [|by intros [[[|]|]|]]. apply asks_shielded, asks_fold. intros b e.
  apply asks_bind; [|done]. unfold rollback_entry, restore_entry, restore_snapshot. quiet.
Qed.
#[local] Hint Resolve asks_rollback : calm.

Lemma asks_rollback_after touched s expected archive code :
  asks calm (rollback_after canonical_sha256 c touched s expected archive code).
Proof. unfold rollback_after. quiet. Qed.
#[local] Hint Resolve asks_rollback_after : calm.

Lemma safe_quiet {A} (m : prog A) w :
  asks calm m → within safe w → wp (within safe) m (λ _ _, True) w.
Proof. intros Hm Hw. eapply wp_weaken; [by apply (wp_quiet (C:=calm)); [|apply kept_guarded|]|done]. Qed.

(** A rollback's result is raised as the outcome it stands for. *)
Lemma fail_classified {A} (P : Prop) (r : res exn (string * json)) w (Q : res exn A → world → Prop) :
  (P → within safe w ∧ ∃ b m, r = Ok (rollback_status_of b, m) ∧
     field "status" m = JStr (rollback_status_of b) ∧ (b = true → all_restored (log w))) →
  (∀ x, (P → classified x (log w)) → Q (Err x) w) →
  match r with
  | Ok a => wp (within safe) (let '(status, m) := a in fail (ManifestError status m)) Q w
  | Err e => Q (Err e) w
  end.
Proof.
  intros Hr HQ. destruct r as [[st m]|y]; cbn; apply HQ; intros HP.
  - destruct (Hr HP) as (_ & b & m' & [= -> ->] & ? & ?). right. by exists b, m'.
  - by destruct (Hr HP) as (_ & b & m' & ? & _).
Qed.

Lemma execute_effects_ok s entries expected archive w :
  within (clearing s entries [] []) w →
  wp (within safe) (execute_effects canonical_sha256 c entries s expected archive) (λ r w',
    match r with
    | Ok touched => touched = entries ∧ within (clearing s entries entries entries) w'
    | Err x => countable expected archive → classified x (log w')
    end) w.
Proof.
  intros Hw. unfold execute_effects. apply wp_bind.
  eapply wp_weaken; [by apply (clear_all_ok s entries [] entries)|].
  intros r w' (touched & x & -> & _ & H' & Hx). destruct x as [x|]; cbn; [|by rewrite (Hx eq_refl) in H' |- *].
  apply wp_bind. eapply wp_weaken.
  { apply wp_imp with (P := countable expected archive) (I' := within safe).
    - eapply (wp_quiet (C:=calm)); [eauto with calm|apply kept_guarded|by eapply clearing_safe].
    - intros Hc. by eapply rollback_after_ok. }
  intros r w0 [_ Hr]. eapply fail_classified; [exact Hr|]. by intros y Hy.
Qed.

Lemma build_live_ok s entries expected archive w :
  within (clearing s entries entries entries) w →
  wp (within safe) (build_live_execution canonical_sha256 c entries entries s expected archive) (λ r w',
    match r with
    | Ok x => ex_rollback x = Some (entries, s, expected, archive) ∧
              field "status" (ex_manifest x) = JStr "verified" ∧
              within (clearing s entries entries entries) w'
    | Err x => countable expected archive → classified x (log w')
    end) w.
Proof.
  intros Hw. unfold build_live_execution. apply wp_handle.
  set (m := _ ≫= _) at 1.
  assert (wp (within safe) m (λ r w', within (clearing s entries entries entries) w' ∧
            match r with Ok x => ex_rollback x = Some (entries, s, expected, archive) ∧
                                 field "status" (ex_manifest x) = JStr "verified" | Err _ => True end) w) as Hm.
  { subst m. set (J := clearing s entries entries entries) in *.
    assert (∀ w, within J w → within safe w) as HI by (unfold J; eauto).
    assert (kept J) as HJ by apply kept_clearing.
    apply wp_bind. eapply (wp_quiet_then (within safe) J HI HJ _ []);
      [eauto with calm|split; [exact Hw|apply sublist_nil_l]|].
    intros [[target art]|x] w' [H' _]; [|done]. apply wp_bind.
    eapply wp_weaken; [by apply (manifest_any (within safe) J)|].
    intros [m|x] w1 [H1 Hm]; cbn; [|done].
    destruct (validate_verified_manifest canonical_sha256 m "reset") as [[]|x]; cbn [lift mbind coro_bind handle]; [|done].
    eapply (wp_next (within safe) J HI HJ); [done|split; [exact H1|apply sublist_nil_l]|by intros y w2 [? _] _|].
    intros v w2 w3 _ _ [H3 _]. cbn. by split_and!; [..|apply Hm]. }
  eapply wp_weaken; [exact Hm|]. intros [x|x] w' [H' Hx]; cbn; [by destruct Hx|].
  apply wp_bind. unfold rollback_manifest. eapply wp_weaken.
  { apply wp_imp with (P := countable expected archive) (I' := within safe).
    - eapply (wp_quiet (C:=calm)); [eauto with calm|apply kept_guarded|by eapply clearing_safe].
    - intros Hc. by eapply rollback_after_ok. }
  intros r w0 [_ Hr]. eapply fail_classified; [exact Hr|]. by intros y Hy.
Qed.

(** ** The whole reset *)

(** The bodies of the archives that were read keep their control totals as an
    object, as [base_manifest] writes them. *)
Definition totals_kept (l : list event) : Prop :=
  ∀ k m f, ev (FetchManifest k) (Ok (Some m)) ∈ l → decode (man_body m) = JObj f →
    is_object (jget_or "control_totals" (JObj []) f) = true.

Definition outcome (r : res exn execution) (w : world) : Prop :=
  match r with
  | Ok x => ∃ entries s expected archive rows,
      ex_rollback x = Some (entries, s, expected, archive) ∧
      field "status" (ex_manifest x) = JStr "verified" ∧
      ev (FetchRegistry (closing_month_key c)) (Ok rows) ∈ log w ∧
      entries_of_rows c casefold upper rows = Ok entries ∧
      NoDup (site_code <$> entries) ∧
      (∀ e, e ∈ entries → cleared e (log w)) ∧ clears_only entries (log w)
  | Err x => totals_kept (log w) → classified x (log w)
  end.

(** Nothing has been cleared yet. *)
Definition untouched (w : world) : Prop := no_clear (log w).

Lemma untouched_safe w : within untouched w → within safe w.
Proof. intros [? H]. split; [done|]. by apply no_clear_safe. Qed.

Lemma kept_untouched : kept untouched.
Proof. apply kept_no_clear. Qed.
#[local] Hint Resolve untouched_safe : core.
#[local] Hint Resolve kept_untouched : kept.

Definition archive_read (a : json) (w : world) : Prop :=
  ∃ k m f, a = JObj f ∧ [ev (FetchManifest k) (Ok (Some m))] `sublist_of` log w ∧
           decode (man_body m) = JObj f ∧ validate_verified_manifest canonical_sha256 a "archive" = Ok tt.

Lemma kept_archive_read a : kept (archive_read a).
Proof. unfold archive_read. eauto 10 with kept. Qed.
#[local] Hint Resolve kept_archive_read : kept.

Lemma reject_ok {A} I J code m w :
  (∀ w, within J w → I w) → kept J → asks calm m → within J w →
  wp I (reject code m : prog A) (λ r w', within J w' ∧ ∃ x, r = Err x) w.
Proof.
  intros HI HJ Hm Hw. unfold reject. apply wp_bind.
  eapply (wp_quiet_then I J HI HJ _ []); [done|split; [exact Hw|apply sublist_nil_l]|].
  intros [b|x] w' [H' _]; cbn; eauto.
Qed.

Lemma load_archive_ok w :
  approved_id c ≠ None → within untouched w →
  wp (within safe) (load_archive canonical_sha256 c decode) (λ r w',
    within untouched w' ∧ ∀ a, r = Ok a → archive_read a w') w.
Proof.
  intros Ha Hw. unfold load_archive. destruct (approved_id c) as [k|] eqn:Ek; [|done].
  assert (∀ w, after untouched [] w → wp (within safe)
    (reject "verified_archive_required" (refusal canonical_sha256 c "verified_archive_required" None None) : prog json)
    (λ r w', within untouched w' ∧ ∀ a, r = Ok a → archive_read a w') w) as Hrej.
  { intros w0 [H0 _]. eapply wp_weaken.
    { apply (reject_ok (within safe) untouched); eauto with calm kept. }
    by intros r w' [? [x ->]]. }
  eapply (wp_next (within safe) untouched untouched_safe kept_untouched);
    [done|split; [exact Hw|apply sublist_nil_l]|by intros x w' [? _] _|].
  intros latest w1 w2 _ _ [H2 _]. unfold selected_prerequisite. rewrite Ek.
  apply wp_bind. eapply (wp_next (within safe) untouched untouched_safe kept_untouched);
    [done|split; [exact H2|apply sublist_nil_l]|by intros x w' [? _] _|].
  intros m w3 w4 _ _ H4. cbn [mret coro_ret coro_bind mbind handle].
  assert (after untouched [] w4) as H4' by (destruct H4; split; [done|apply sublist_nil_l]).
  destruct latest as [[j lm]|], m as [m|]; cbn [fmap option_fmap option_map Coro.wp mret coro_ret]; try by apply Hrej.
  destruct (j =? k) eqn:Ejk; cbn [fmap option_fmap option_map]; [|by apply Hrej].
  destruct (decode (man_body m)) as [| | | | | |f] eqn:Hf; try by apply Hrej.
  destruct (allowed_prerequisite c (man_stat m)); [|by apply Hrej].
  destruct (validate_verified_manifest canonical_sha256 (JObj f) "archive") as [[]|x] eqn:Hv;
    cbn [lift mbind coro_bind handle]; [|by destruct H4].
  eapply (wp_next (within safe) untouched untouched_safe kept_untouched);
    [done|exact H4|by intros x w' [? _] _|].
  intros v w5 w6 _ _ [H6 S6]. rewrite live_run, live_owner, live_epoch. cbn.
  split; [done|]. intros a [= <-]. exists k, m, f. split_and!; [done| |done..].
  etrans; [|exact S6]. by apply sublist_cons.
Qed.

Lemma coverage_counted expected processed key u :
  coverage_key expected processed key = Ok u → ∃ n, counted key expected = Ok n.
Proof. unfold coverage_key, counted. destruct (as_int _) as [n|]; [by exists n|done]. Qed.

Lemma validated_agents f op :
  validate_verified_manifest canonical_sha256 (JObj f) op = Ok tt →
  ∃ n, counted "agents" (field "expected" (JObj f)) = Ok n.
Proof. cbn [validate_verified_manifest]. intros H. inv_res. by eapply coverage_counted. Qed.

Lemma coverage_distinct es stores backups by_site :
  coverage_matches es stores backups by_site = true → NoDup (site_code <$> es).
Proof.
  unfold coverage_matches. intros H. rewrite !andb_true_iff in H. destruct H as [[[_ H] _] _].
  apply Nat.eqb_eq in H. revert H. rewrite <- (length_fmap site_code es).
  generalize (site_code <$> es) as l. intros l H.
  assert (∀ k : list string, length (remove_dups k) <= length k)%nat as Hle.
  { induction k as [|x k IH]; cbn; [lia|]. case_decide; cbn; lia. }
  induction l as [|x l IH]; [constructor|]. cbn in H. case_decide as Hin; cbn in H.
  - pose proof (Hle l). lia.
  - constructor; [|apply IH; lia]. intros Hx. by apply Hin, elem_of_remove_dups.
Qed.

(** The registry that was read gives these stores, one entry a site. *)
Definition stores_read (es : list entry) (expected : json) (w : world) : Prop :=
  ∃ rows, [ev (FetchRegistry (closing_month_key c)) (Ok rows)] `sublist_of` log w ∧
    entries_of_rows c casefold upper rows = Ok es ∧ NoDup (site_code <$> es) ∧
    ∃ n, counted "stores" expected = Ok n.

Lemma kept_stores_read es expected : kept (stores_read es expected).
Proof. unfold stores_read. eauto 10 with kept. Qed.
#[local] Hint Resolve kept_stores_read : kept.

Lemma load_entries_ok archive w :
  within (λ w, untouched w ∧ archive_read archive w) w →
  wp (within safe) (load_entries canonical_sha256 c casefold upper archive) (λ r w',
    within (λ w, untouched w ∧ archive_read archive w) w' ∧
    ∀ es expected, r = Ok (es, expected) → stores_read es expected w' ∧ expected = field "expected" archive) w.
Proof.
  set (J := λ w, untouched w ∧ archive_read archive w). intros Hw. unfold load_entries.
  assert (∀ w, within J w → within safe w) as HI by (intros w0 [? [? _]]; apply untouched_safe; by split).
  assert (kept J) as HJ by (unfold J; eauto with kept).
  eapply (wp_next (within safe) J HI HJ); [done|split; [exact Hw|apply sublist_nil_l]|by intros x w' [? _] _|].
  intros rows w1 w2 _ _ [H2 S2].
  destruct (entries_of_rows c casefold upper rows) as [es|x] eqn:Hes; cbn [lift mbind coro_bind handle]; [|done].
  destruct (counted "stores" (field "expected" archive)) as [n|x] eqn:Hn; cbn [lift mbind coro_bind handle]; [|done].
  destruct (coverage_matches _ _ _ _) eqn:Hc.
  - split; [done|]. intros es' expected [= <- <-]. split; [|done].
    exists rows. split_and!; [done|done|by eapply coverage_distinct|by exists n].
  - eapply wp_weaken; [apply (reject_ok (within safe) J); eauto with calm|].
    by intros r w' [? [x ->]].
Qed.

Lemma capture_backups_ok entries expected archive w :
  NoDup (site_code <$> entries) → within untouched w →
  wp (within safe) (capture_backups canonical_sha256 c entries expected archive) (λ r w',
    within untouched w' ∧ ∀ s, r = Ok s → within (clearing s entries [] []) w') w.
Proof.
  intros Hnd Hw. unfold capture_backups. apply wp_bind.
  eapply (wp_mono _ _ (λ w, within safe w ∧ within untouched w));
    [by intros w0 []| |apply (wp_conj _ _ (within safe) (within untouched))].
  2: apply (capture_all_ok (Captured [] []) [] entries w); [done|].
  2: { split; [apply Hw|]. split; [by apply untouched_safe in Hw as []|by intros ? ?%elem_of_nil]. }
  2: by apply (wp_quiet (C:=calm)); [eauto with calm|apply kept_untouched|].
  intros r w' [(s & x & -> & Hx) H']. destruct x as [x|].
  - eapply wp_weaken; [apply (reject_ok (within safe) untouched); eauto with calm kept|].
    by intros r w0 [? [y ->]].
  - split; [done|]. intros s' [= <-]. destruct Hx as [Hs [_ Hcov]]. split; [done|]. split; [done|].
    split; [apply no_clear_safe, H'|by intros ? ?%elem_of_nil].
Qed.

(** What the log shows it goes on showing. *)
Lemma wp_log {A} (L : list event → Prop) (m : prog A) w :
  (∀ x l, L l → L (x :: l)) → L (log w) → wp (λ w, L (log w)) m (λ _ w, L (log w)) w.
Proof.
  intros HL Hw. eapply (wp_asks _ _ (λ _, True)); [| |apply asks_any|done].
  - by intros w0 w1 [-> _].
  - intros p w0 a w1 _ [-> _]%reply_steps. apply HL.
Qed.

Lemma reset_stores_ok entries expected archive w :
  NoDup (site_code <$> entries) → within untouched w →
  wp (within safe) (reset_stores canonical_sha256 c entries expected archive) (λ r w',
    match r with
    | Ok x => (∃ s, ex_rollback x = Some (entries, s, expected, archive)) ∧
              field "status" (ex_manifest x) = JStr "verified" ∧
              (∀ e, e ∈ entries → cleared e (log w')) ∧ clears_only entries (log w')
    | Err x => countable expected archive → classified x (log w')
    end) w.
Proof.
  intros Hnd Hw. unfold reset_stores. apply wp_bind.
  eapply (wp_quiet_then (within safe) untouched untouched_safe kept_untouched _ []);
    [eauto with calm|split; [exact Hw|apply sublist_nil_l]|].
  intros [[]|x] w1 [H1 _]; [|intros _; left; apply H1]. apply wp_bind.
  eapply wp_weaken; [by apply capture_backups_ok|].
  intros [s|x] w2 [H2 Hs]; [|intros _; left; apply H2]. specialize (Hs _ eq_refl). apply wp_bind.
  eapply wp_weaken; [by apply execute_effects_ok|].
  intros [touched|x] w3 H3; [|done]. destruct H3 as [-> H3].
  eapply wp_weaken; [by apply build_live_ok|].
  intros [x|x] w4 H4; [|done]. destruct H4 as (Hr & Hst & _ & H4). split_and!; [by exists s|done| |].
  - apply H4.
  - by eapply clearing_only.
Qed.

Lemma countable_archive archive f :
  archive = JObj f → validate_verified_manifest canonical_sha256 archive "archive" = Ok tt →
  (∃ n, counted "stores" (field "expected" archive) = Ok n) →
  is_object (jget_or "control_totals" (JObj []) f) = true → countable (field "expected" archive) archive.
Proof.
  intros -> Hv Hn Ho. split; [done|]. split; [by eapply validated_agents|]. by exists f.
Qed.

(** Every live reset, from any database of the repository and whatever others do
    to it: at each request the clears are guarded, and its outcome is true. *)
Lemma execute_reset_ok w :
  sound w → log w = [] →
  wp (within safe) (execute_reset canonical_sha256 c casefold upper decode) outcome w.
Proof.
  intros Hs Hl.
  assert (within untouched w) as Hw by (split; [done|]; unfold untouched; rewrite Hl; constructor).
  assert (∀ x w', within untouched w' → outcome (Err x) w') as Hpre by (intros x w' [_ H] _; by left).
  unfold execute_reset. apply wp_bind. destruct (decide (approved_id c = None)) as [Ea|Ha].
  { unfold validate_request. rewrite Ea, live_run, live_operation. cbn [bool_decide negb andb orb].
    eapply wp_weaken; [apply (reject_ok (within safe) untouched); eauto with calm kept|].
    intros r w' [H' [x ->]]. by apply Hpre. }
  eapply (wp_quiet_then (within safe) untouched untouched_safe kept_untouched _ []);
    [eauto with calm|split; [exact Hw|apply sublist_nil_l]|].
  intros [[]|x] w1 [H1 _]; [|by apply Hpre]. apply wp_bind.
  eapply wp_weaken; [by apply load_archive_ok|]. intros [archive|x] w2 [H2 Har]; [|by apply Hpre].
  specialize (Har _ eq_refl). apply wp_bind.
  eapply wp_weaken; [apply load_entries_ok; by destruct H2; split|].
  intros [[entries expected]|x] w3 [[S3 [U3 A3]] He]; [|by apply Hpre].
  destruct (He _ _ eq_refl) as [(rows & Hrows & Hes & Hnd & Hn) ->]. clear He Har H2.
  destruct A3 as (k & m & f & Hf & Hm & Hdec & Hv). rewrite live_run.
  set (L l := [ev (FetchRegistry (closing_month_key c)) (Ok rows)] `sublist_of` l ∧
              [ev (FetchManifest k) (Ok (Some m))] `sublist_of` l).
  eapply (wp_mono _ _ (λ w, within safe w ∧ L (log w)));
    [by intros w0 []| |apply (wp_conj _ _ (within safe) (λ w, L (log w)))].
  2: by apply (reset_stores_ok entries (field "expected" archive) archive w3 Hnd).
  2: { apply wp_log; [|by split]. intros x l [? ?]. split; by apply sublist_cons. }
  intros r w4 [Hr [HL1%singleton_sublist_l HL2%singleton_sublist_l]]. destruct r as [x|x].
  - destruct Hr as ((s & Hx) & ? & ? & ?).
    exists entries, s, (field "expected" archive), archive, rows. by split_and!.
  - intros Ht. apply Hr. eapply countable_archive; [exact Hf|exact Hv|exact Hn|]. by eapply Ht.
Qed.

(** C8: in every run of a live reset, wherever it may be interrupted: each clear it
    sent is of the ranges of a store, followed the granted intent of that store's
    checkpoint at once and, before that, the reading of the sheet, the writing of
    this snapshot to the backup file and its recording; and in the database of that
    moment the checkpoint names that backup and is no longer in the phase that a
    reconciler would skip as untouched. *)
Theorem clears_are_guarded w m w' :
  reachable (clock w, base w) → log w = [] →
  runs env reply (execute_reset canonical_sha256 c casefold upper decode, w) (m, w') →
  guarded (λ _ _, True) w'.
Proof.
  intros Hs Hl R.
  destruct (wp_runs env reply (within safe) outcome _ _ R) as [[_ H] _]; [|by apply execute_reset_ok|done].
  split; [done|]. apply no_clear_safe. cbn. rewrite Hl. constructor.
Qed.

(** C9: the outcome of a live reset is true.  A verified one cleared the sheet of
    every store of the registry it read, and no other, read each back empty and had
    it confirmed.  One that raises, after an archive whose control totals are an
    object, either sent no clear, or calls itself rolled back
    and every clear was followed by a confirmed reading with the digest of the
    snapshot in that store's backup, or calls itself uncertain. *)
Theorem reset_outcome_is_true w r w' :
  reachable (clock w, base w) → log w = [] →
  runs env reply (execute_reset canonical_sha256 c casefold upper decode, w) (Done r, w') →
  outcome r w'.
Proof.
  intros Hs Hl R. eapply (wp_adequate env reply (within safe)); [by apply execute_reset_ok| |exact R].
  split; [done|]. apply no_clear_safe. cbn. rewrite Hl. constructor.
Qed.

End Execution.

End ResetSpec.
