(* ===== verification/GrileResetEnds.v ===== *)
(** Termination of the live reset: the number of its requests is bounded by the
    number of its stores, whatever is answered. *)

From S2P Require Import Prelude Text Dict Json Table Coro Grile GrileMonthly GrileReset.
Import Coro Grile Monthly Reset.

Local Open Scope Z_scope.

Module ResetEnds.
Section Execution.
Context (canonical_sha256 : json → string) (c : run_context).
Context (casefold upper : string → string) (decode : string → json).
Context (i : Z) (o : string) (ep : Z).
Hypothesis live_operation : operation_id c = Some i.
Hypothesis live_owner : owner c = Some o.
Hypothesis live_epoch : epoch c = Some ep.
Hypothesis live_run : is_dry_run c = false.

Lemma lease_is : lease c = mret (i, o, ep).
Proof. unfold lease. by rewrite live_operation, live_owner, live_epoch. Qed.


Lemma bounded_ask p : bounded 1 (ask p).
Proof. done. Qed.

Lemma bounded_lift {A} (r : res exn A) : bounded 0 (lift r : prog A).
Proof. done. Qed.

Lemma bounded_google g b : bounded 12 (google_request g b).
Proof.
  apply (bounded_handle 12 0); [|by intros [v|[]]].
  assert (∀ n left, bounded (2 * left) (backoff n left g)) as H.
  { intros n left. induction left as [|left IH]; [done|]. cbn [backoff].
    replace (2 * S left)%nat with (1 + S (2 * left))%nat by lia.
    apply bounded_handle; [done|]. intros [v|[]]; try done; destruct (_ || _); try done;
      by apply (bounded_bind 1 (2 * left)). }
  unfold call_with_backoff. cbv zeta. eapply bounded_mono; [apply H|destruct b; cbn; lia].
Qed.

Lemma bounded_read e : bounded 12 (read_snapshot e).
Proof. apply (bounded_bind 12 0); [apply bounded_google|done]. Qed.

Lemma bounded_manifest errors expected archive n backups status arts :
  bounded 1 (reset_manifest canonical_sha256 c errors expected archive n backups status arts).
Proof.
  apply (bounded_bind 1 0); [done|]. intros now.
  apply (bounded_bind 0 0); [done|]. intros st. apply (bounded_bind 0 0); [done|]. intros ag.
  by apply (bounded_bind 0 0).
Qed.

Lemma bounded_capture_entry s e : bounded 16 (capture_entry canonical_sha256 c s e).
Proof.
  apply (bounded_handle 12 4); [apply bounded_read|]. intros [snap|x]; [|done].
  unfold has_backups. rewrite live_operation, live_run. apply (bounded_handle 4 0); [|by intros [a|x]].
  unfold persist_backup. rewrite lease_is. cbn [mret coro_ret mbind coro_bind handle].
  apply (bounded_bind 1 3); [done|]. intros now.
  apply (bounded_bind 1 2); [done|]. intros _. apply (bounded_bind 1 1); [done|]. intros a.
  apply (bounded_bind 1 0); [done|]. by intros [].
Qed.

Lemma bounded_capture s es : bounded (16 * length es + 1) (capture_all canonical_sha256 c s es).
Proof.
  revert s. induction es as [|e es IH]; intros s; cbn [capture_all].
  - case_bool_decide; [done|]. by apply (bounded_handle 1 0).
  - cbn [length]. replace (16 * S (length es) + 1)%nat with (16 + (16 * length es + 1))%nat by lia.
    apply bounded_bind; [apply bounded_capture_entry|]. intros [s' [x|]]; [done|apply IH].
Qed.

Lemma bounded_clear_entry e : bounded 28 (clear_entry c e).
Proof.
  unfold clear_entry. rewrite lease_is. cbn [mret coro_ret mbind coro_bind handle].
  apply (bounded_bind 1 27); [done|]. intros b.
  apply (bounded_bind 1 26); [done|]. intros claimed. apply (bounded_bind 0 26); [by destruct claimed|].
  intros _. apply (bounded_bind 26 0); [|by intros []].
  unfold clear_adapter. rewrite lease_is. cbn [mret coro_ret mbind coro_bind handle].
  apply (bounded_bind 1 25); [done|]. intros [t|]; [|done].
  apply (bounded_bind 12 13); [apply bounded_google|]. intros v.
  apply (bounded_bind 12 1); [apply bounded_read|]. intros snap. by apply (bounded_bind 0 1).
Qed.

Lemma bounded_clear_all touched es : bounded (28 * length es) (clear_all c touched es).
Proof.
  revert touched. induction es as [|e es IH]; intros touched; cbn [clear_all]; [done|].
  cbn [length]. rewrite Nat.mul_succ_r, Nat.add_comm.
  apply bounded_handle; [apply bounded_clear_entry|]. intros [u|x]; [apply IH|done].
Qed.

Lemma bounded_rollback_entry j s e : bounded 26 (rollback_entry canonical_sha256 j o ep s e).
Proof.
  apply (bounded_bind 1 25); [done|]. intros [t|]; [|done]. apply (bounded_bind 24 1).
  - apply (bounded_handle 24 0); [|done]. destruct (dget _ _) as [snap|]; [|done].
    apply (bounded_bind 0 24); [done|]. intros data. apply (bounded_bind 12 12).
    + case_bool_decide; [done|apply bounded_google].
    + intros _. apply (bounded_bind 12 0); [apply bounded_read|done].
  - intros b. by apply (bounded_bind 1 0).
Qed.

Lemma bounded_rollback_after touched s expected archive code :
  bounded (26 * length touched + 1) (rollback_after canonical_sha256 c touched s expected archive code).
Proof.
  apply bounded_bind.
  - unfold rollback_touched. rewrite live_operation, live_owner, live_epoch.
    apply (bounded_bind 0 (26 * length touched)); [done|]. intros j.
    rewrite <- (Nat.add_0_r (26 * length touched)).
    apply bounded_handle; [|by intros [[[]|]|]].
    apply bounded_shielded. unfold rollback_entries. rewrite <- (length_rev touched).
    apply bounded_fold. intros b e. apply (bounded_bind 26 0); [apply bounded_rollback_entry|done].
  - intros ok. apply (bounded_bind 1 0); [apply bounded_manifest|done].
Qed.

Lemma bounded_report expected n dry : bounded 6 (report_artifact c expected n dry).
Proof.
  apply (bounded_bind 1 5); [done|]. intros now. apply (bounded_bind 0 5); [done|]. intros st.
  apply (bounded_bind 1 4); [done|]. intros _. apply (bounded_bind 3 1).
  - apply (bounded_handle 2 1); [by apply (bounded_bind 1 1)|]. intros r. by apply (bounded_bind 1 0).
  - intros _. by apply (bounded_bind 1 0).
Qed.

Lemma bounded_clear_then {A} n touched es (K : res exn (list entry * option exn) → prog A) :
  (∀ touched' x, length touched' <= length touched + length es → bounded n (K (Ok (touched', x))))%nat →
  bounded (28 * length es + n) (handle (clear_all c touched es) K).
Proof.
  revert touched. induction es as [|e es IH]; intros touched HK; cbn [clear_all].
  - apply HK. lia.
  - apply bounded_assoc. cbn [length] in *.
    replace (28 * S (length es) + n)%nat with (28 + (28 * length es + n))%nat by lia.
    apply bounded_handle; [apply bounded_clear_entry|]. intros [u|x].
    + apply IH. intros t' x Ht. apply HK. rewrite length_app in Ht. cbn in Ht. lia.
    + eapply bounded_mono; [apply HK; rewrite length_app; cbn; lia|lia].
Qed.

Lemma bounded_build entries touched s expected archive :
  bounded (26 * length touched + 9)
    (build_live_execution canonical_sha256 c entries touched s expected archive).
Proof.
  replace (26 * length touched + 9)%nat with (8 + (26 * length touched + 1))%nat by lia.
  apply bounded_handle.
  - apply (bounded_bind 6 2); [apply bounded_report|]. intros [target a].
    apply (bounded_bind 1 1); [apply bounded_manifest|]. intros m.
    apply (bounded_bind 0 1); [done|]. intros _. by apply (bounded_bind 1 0).
  - intros [x|x]; [done|]. rewrite <- (Nat.add_0_r (_ + 1)).
    apply bounded_bind; [apply bounded_rollback_after|]. by intros [st m].
Qed.

(** C33: once a live reset knows its stores it ends: whatever the database, Google
    and the disk answer, and whenever it is cancelled, it asks at most 70 requests
    a store and 12 more, its retries and its rollback included. *)
Theorem reset_ends :
  execute_reset canonical_sha256 c casefold upper decode =
    (_ ← validate_request canonical_sha256 c; archive ← load_archive canonical_sha256 c decode;
     '(entries, expected) ← load_entries canonical_sha256 c casefold upper archive;
     reset_stores canonical_sha256 c entries expected archive) ∧
  ∀ entries expected archive,
    bounded (70 * length entries + 12) (reset_stores canonical_sha256 c entries expected archive).
Proof.
  split; [unfold execute_reset, reset_stores; by rewrite live_run|]. intros entries expected archive.
  replace (70 * length entries + 12)%nat
    with (1 + ((16 * length entries + 1 + 1) + (28 * length entries + (26 * length entries + 9))))%nat by lia.
  unfold reset_stores. apply bounded_bind.
  { unfold prepare_execution. case_match; [done|]. by rewrite lease_is. }
  intros _. apply bounded_bind.
  { unfold capture_backups. apply bounded_bind; [apply bounded_capture|].
    intros [s [x|]]; [|done]. apply (bounded_bind 1 0); [apply bounded_manifest|done]. }
  intros s. apply bounded_assoc, bounded_clear_then. intros touched x Hlen. cbn in Hlen.
  eapply (bounded_mono (26 * length touched + 9)); [|lia].
  destruct x as [x|]; cbn [mbind coro_bind handle]; [|apply bounded_build].
  apply bounded_assoc. eapply (bounded_mono (26 * length touched + 1 + 0)); [|lia].
  apply bounded_handle; [apply bounded_rollback_after|]. by intros [[st m]|y].
Qed.

End Execution.
End ResetEnds.
