(* ===== verification/GrileReconcile.v ===== *)
(** The reconciler of stale monthly operations ([grile_monthly_reconciler.py]): for
    each unsettled checkpoint it reads the backup and the sheet, restores a cleared
    sheet, and closes the operation as retryable, rolled back or in need of
    recovery. *)

From S2P Require Import Prelude Text Dict Json Table Coro Grile GrileMonthly GrileReset.
Import Coro Grile Monthly Reset.

Local Open Scope Z_scope.

Module Reconcile.

Record item_outcome := ItemOutcome { verdict : classification; mark_recovery : bool }.

(** The store entry has no template version of its own: the default. *)
Definition reconciliation_entry (t : item) : entry :=
  let s := site (it_req t) in
  Entry (in_company s) (in_store s) (in_sheet s) (in_site s) "Neatribuit" false "v2".

Definition text_of_classification (k : classification) : string :=
  match k with
  | SafeRetry => "safe_retry" | RolledBack => "rolled_back" | RecoveryRequired => "recovery_required"
  end.

Section Reconcile.
(** The SHA-256 of a canonical JSON text and of a file, and [json.loads]. *)
Context (canonical_sha256 : json → string) (file_sha256 : string → string) (loads : string → option json).

(** The checks of a backup file's text against its checkpoint. *)
Definition backup_snapshot (t : item) (text : option string) : res exn json :=
  match text with
  | None => Err (Integrity "backup_invalid")
  | Some text =>
      _ ← raise_if (negb (bool_decide (Some (file_sha256 text) = backup_sha256 t)))
            (Integrity "backup_invalid");
      match loads text with
      | None => Err Failure
      | Some payload =>
          match field "snapshot" payload with
          | JObj f =>
              _ ← raise_if (negb (json_eqb (field "snapshot_sha256" payload)
                                    (JStr (snapshot_sha256 canonical_sha256 (JObj f)))))
                    (Integrity "backup_invalid");
              Ok (JObj f)
          | _ => Err (Integrity "backup_invalid")
          end
      end
  end.

Definition read_reset_backup (t : item) : prog json :=
  text ← ask (ReadFile (default ""%string (backup_path t)));
  lift (backup_snapshot t text).

Section Operation.
(** The operation and the lease of the reconciler. *)
Context (i : Z) (o : string) (ep : Z).

Definition site_of (t : item) : string := in_site (site (it_req t)).

Definition mark_item_recovery (t : item) (message : string) : prog bool :=
  ask (Database (CItemRecovery i (site_of t) o ep message)).

Definition already_restored (t : item) : prog item_outcome :=
  if bool_decide (phase t = SnapshotPersisted) then
    safe ← ask (Database (CItemSafeRetry i (site_of t) o ep));
    mret (ItemOutcome (if (safe : bool) then SafeRetry else RecoveryRequired) true)
  else
    intent ← ask (Database (CPrepareRollback i (site_of t) o ep));
    match intent with
    | None => mret (ItemOutcome RecoveryRequired true)
    | Some t' =>
        restored ← ask (Database (CConfirmRollback i (site_of t) o ep (fence_epoch t') true
                                    (Some "rollback_verified_readback"%string)));
        mret (ItemOutcome (if (restored : bool) then RolledBack else RecoveryRequired) true)
    end.

(** [except BaseException: return False]. *)
Definition try_restore (t : item) (snapshot : json) : prog bool :=
  handle (restore_snapshot canonical_sha256 (reconciliation_entry t) snapshot) (λ r, mret (is_ok r)).

Definition restore_cleared (t : item) (snapshot : json) : prog item_outcome :=
  intent ← ask (Database (CPrepareRollback i (site_of t) o ep));
  match intent with
  | None => mret (ItemOutcome RecoveryRequired false)
  | Some t' =>
      restored ← try_restore t snapshot;
      confirmed ← ask (Database (CConfirmRollback i (site_of t) o ep (fence_epoch t') restored
          (Some (if restored then "rollback_verified" else "recovery_required")%string)));
      mret (ItemOutcome (if restored && confirmed then RolledBack else RecoveryRequired) true)
  end.

Definition classify_snapshot (t : item) : prog item_outcome :=
  snapshot ← read_reset_backup t;
  current ← read_snapshot (reconciliation_entry t);
  if String.eqb (snapshot_sha256 canonical_sha256 current) (snapshot_sha256 canonical_sha256 snapshot)
  then already_restored t
  else if snapshot_is_cleared current then restore_cleared t snapshot
  else mret (ItemOutcome RecoveryRequired true).

Definition reconcile_item (t : item) : prog item_outcome :=
  if bool_decide (phase t = LegacyUnknown) then
    _ ← mark_item_recovery t "legacy_unknown_recovery_required";
    mret (ItemOutcome RecoveryRequired false)
  else try_ (classify_snapshot t) (λ x,
         match x with
         | Cancelled => fail Cancelled
         | _ => mret (ItemOutcome RecoveryRequired true)
         end).

Definition operation_classification (ks : list classification) : classification :=
  if bool_decide (RecoveryRequired ∈ ks) then RecoveryRequired
  else if bool_decide (RolledBack ∈ ks) then RolledBack
  else SafeRetry.

Definition reconcile_one (ks : list classification) (kt : Z * item) : prog (list classification) :=
  outcome ← reconcile_item kt.2;
  _ ← (if bool_decide (verdict outcome = RecoveryRequired) && mark_recovery outcome
       then mark_item_recovery kt.2 "recovery_required" else mret true);
  mret (ks ++ [verdict outcome]).

Definition reconcile_operation : prog () :=
  items ← ask (ListItems i);
  ks ← fold_coro reconcile_one [] items;
  let k := operation_classification ks in
  _ ← ask (Database (CReconciled i o ep k (Some (text_of_classification k))
                       (bool_decide (k = RecoveryRequired))));
  mret ().
End Operation.

(** [locked]: the operations that others hold locked at the time of the claim. *)
Definition reconcile_operations (locked : list Z) : prog nat :=
  fresh ← ask FreshId;
  let o := ("reconciler-" +:+ fresh)%string in
  candidates ← ask (Database (CClaimReconciliation locked o EXECUTION_LEASE_SECONDS 32));
  _ ← for_each candidates (λ ie, reconcile_operation ie.1 o ie.2);
  mret (length candidates).
End Reconcile.

End Reconcile.
