(* ===== verification/GrileReconcileSpec.v ===== *)
(** Properties of the reconciler: it never clears a sheet, it writes only verified
    backups over sheets it has just read as cleared, and it closes an operation as
    retryable or rolled back only when every unsettled sheet was read equal to its
    backup. *)

From S2P Require Import Prelude Text Dict Json Table Coro Grile GrileMonthly GrileMonthlyInv GrileReset GrileResetLogic GrileReconcile.
Import Coro Grile Monthly Reset ResetLogic Reconcile.

Local Open Scope Z_scope.

Module ReconcileSpec.
Section Reconcile.
Context (canonical_sha256 : json → string) (file_sha256 : string → string) (loads : string → option json).

Definition evt (p : port) (a : res exn (ans p)) : event := existT p a.

Definition is_closing (p : port) : bool :=
  match p with Database (CReconciled _ _ _ _ _ _) => true | _ => false end.
Definition plain (p : port) : Prop := is_write p = false ∧ is_closing p = false.

#[local] Instance plain_reading : Reading plain.
Proof. done. Qed.

Definition sheet_read (t : item) : port :=
  Google (GRead (in_sheet (site (it_req t))) RESET_RANGES).
Definition file_read (t : item) : port := ReadFile (default ""%string (backup_path t)).
Definition current_of (response : json) : res exn json := snapshot_of (length RESET_RANGES) response.
Definition backup_of (t : item) (text : option string) : res exn json :=
  backup_snapshot canonical_sha256 file_sha256 loads t text.

(** The sheet was read after the backup, which passed its checks. *)
Definition compared (t : item) (snap current : json) (evs l : list event) : Prop :=
  ∃ text response, (evs ++ [evt (sheet_read t) (Ok response); evt (file_read t) (Ok text)]) `sublist_of` l ∧
    backup_of t text = Ok snap ∧ current_of response = Ok current.

Definition matches_backup (t : item) (evs l : list event) : Prop :=
  ∃ snap current, compared t snap current evs l ∧
    snapshot_sha256 canonical_sha256 current = snapshot_sha256 canonical_sha256 snap.

(** What a verdict on a checkpoint rests on: the sheet read equal to the backup,
    then the checkpoint marked so under the lease. *)
Definition proved (i : Z) (o : string) (ep : Z) (k : classification) (t : item) (l : list event) : Prop :=
  match k with
  | RecoveryRequired => True
  | SafeRetry => phase t = SnapshotPersisted ∧
      matches_backup t [evt (Database (CItemSafeRetry i (site_of t) o ep)) (Ok true)] l
  | RolledBack => ∃ t' message,
      matches_backup t [evt (Database (CConfirmRollback i (site_of t) o ep (fence_epoch t') true message)) (Ok true)] l
  end.

Definition restore_allowed (sheet : string) (data : list json) (l : list event) : Prop :=
  ∃ i o ep t t' snap current,
    sheet = in_sheet (site (it_req t)) ∧ restore_data snap = Ok data ∧
    head l = Some (evt (Database (CPrepareRollback i (site_of t) o ep)) (Ok (Some t'))) ∧
    compared t snap current [] l ∧ snapshot_is_cleared current = true.

Definition closing_allowed (i : Z) (o : string) (ep : Z) (k : classification) (l : list event) : Prop :=
  k ≠ RecoveryRequired →
  ∃ items, evt (ListItems i) (Ok items) ∈ l ∧
    ∀ kt, kt ∈ items → ∃ k', k' ≠ RecoveryRequired ∧ (k = SafeRetry → k' = SafeRetry) ∧
                             proved i o ep k' kt.2 l.

(** One event, when it was asked. *)
Definition event_careful (x : event) (l : list event) : Prop :=
  match projT1 x with
  | Google (GClear _ _) => False
  | Google (GRestore sheet data) => restore_allowed sheet data l
  | Database (CReconciled i o ep k _ _) => closing_allowed i o ep k l
  | _ => True
  end.

Definition careful_log (l : list event) : Prop := ∀ l1 x l2, l = l1 ++ x :: l2 → event_careful x l2.

Lemma careful_cons x l : event_careful x l → careful_log l → careful_log (x :: l).
Proof.
  intros Hx Hl [|y l1] z l2 El; cbn in El.
  - pose proof (f_equal tail El) as Ht. cbn in Ht. subst l2. by injection El as <-.
  - pose proof (f_equal tail El) as Ht. by eapply Hl.
Qed.

Lemma plain_careful p a l : plain p → event_careful (existT p a) l.
Proof. intros [Hw Hc]. unfold event_careful. cbn. destruct p as [[]| | | | | | |[]| | | | | | | | | | |]; done. Qed.

Definition careful (w : world) : Prop := careful_log (log w).

Lemma kept_careful : keeps plain careful.
Proof. apply kept_log. intros p a l Hp. apply careful_cons. by apply plain_careful. Qed.

(** The next request, whatever it is, when it is allowed. *)
Lemma careful_reply p w1 a w2 :
  event_careful (existT p a) (log w1) → within careful w1 → reply p w1 a w2 → within careful w2.
Proof.
  intros Hx [Hs Hc] Hr. split; [by eapply sound_reply|]. unfold careful.
  pose proof (reply_steps _ _ _ _ Hr) as [-> _]. by apply careful_cons.
Qed.

Lemma careful_env w w1 : env w w1 → within careful w → within careful w1.
Proof. intros He [Hs Hc]. split; [by eapply sound_env|]. by eapply (kept_env _ kept_careful). Qed.

Abbreviation after_ := (after careful).
Abbreviation wpc := (Coro.wp env reply (within careful)).

Lemma next {B} p evs (f : ans p → prog B) (Q : res exn B → world → Prop) w :
  plain p → after_ evs w →
  (∀ x w', after_ evs w' → Q (Err x) w') →
  (∀ v w1 w2, within careful w1 → reply p w1 (Ok v) w2 → after_ (existT p (Ok v) :: evs) w2 → wpc (f v) Q w2) →
  wpc (ask p ≫= f) Q w.
Proof.
  intros Hp Hw Hx Hv. eapply (wp_next (within careful) careful (λ _ H, H) kept_careful); [done|exact Hw| |exact Hv].
  intros x w' H _. by apply Hx.
Qed.

Lemma after_less evs x w : after_ (x :: evs) w → after_ evs w.
Proof. intros [H Hs]. split; [done|]. etrans; [|exact Hs]. by apply sublist_cons. Qed.

Lemma after_reply evs p a w1 w2 :
  event_careful (existT p a) (log w1) → after_ evs w1 → reply p w1 a w2 → after_ evs w2.
Proof.
  intros Hx [Hw Hs] Hr. split; [by eapply careful_reply|].
  pose proof (reply_steps _ _ _ _ Hr) as [-> _]. by apply sublist_cons.
Qed.

Lemma after_env evs w w1 : env w w1 → after_ evs w → after_ evs w1.
Proof. intros He [Hw Hs]. split; [by eapply careful_env|]. by destruct He as [-> _]. Qed.

(** The restore is one request, sent right after its intent. *)
Lemma restore_sent sheet data evs w (Q : res exn json → world → Prop) :
  after_ evs w → restore_allowed sheet data (log w) →
  (∀ x w', after_ evs w' → Q (Err x) w') → (∀ v w', after_ evs w' → Q (Ok v) w') →
  wpc (google_request (GRestore sheet data) true) Q w.
Proof.
  intros Hw Ha Hx Hv w1 a w2 He Hr. cbn in Hr. pose proof He as [El _].
  assert (after_ evs w2) as H2.
  { eapply (after_reply evs _ a w1); [|by eapply after_env|exact Hr]. unfold event_careful. cbn. by rewrite El. }
  split; [apply H2|]. destruct a as [v|x]; [by apply Hv|]. destruct x; cbn; by apply Hx.
Qed.

Section Operation.
Context (i : Z) (o : string) (ep : Z).

(** What the verdict of an item rests on, and that the run stays careful. *)
Definition item_post (t : item) (r : res exn item_outcome) (w : world) : Prop :=
  within careful w ∧ ∀ out, r = Ok out → proved i o ep (verdict out) t (log w).

Lemma post_recovery t b w : within careful w → item_post t (Ok (ItemOutcome RecoveryRequired b)) w.
Proof. intros H. split; [done|]. by intros out [= <-]. Qed.

Lemma post_err t x w : within careful w → item_post t (Err x) w.
Proof. intros H. by split. Qed.

Lemma already_restored_ok t snap response current text w :
  backup_of t text = Ok snap → current_of response = Ok current →
  snapshot_sha256 canonical_sha256 current = snapshot_sha256 canonical_sha256 snap →
  after_ [evt (sheet_read t) (Ok response); evt (file_read t) (Ok text)] w →
  wpc (already_restored i o ep t) (item_post t) w.
Proof.
  intros Hb Hc He Hw. unfold already_restored. case_bool_decide as Hp.
  - eapply next; [done|exact Hw|by intros x w' [? _]; apply post_err|].
    intros safe w1 w2 _ _ [H2 S2]. destruct safe; [|by apply post_recovery].
    split; [done|]. intros out [= <-]. split; [done|]. exists snap, current. split; [|done].
    exists text, response. by split_and!.
  - eapply next; [done|exact Hw|by intros x w' [? _]; apply post_err|].
    intros [t'|] w1 w2 _ _ H2; [|destruct H2; by apply post_recovery].
    eapply next; [done|exact H2|by intros x w' [? _]; apply post_err|].
    intros ok w3 w4 _ _ [H4 S4]. destruct ok; [|by apply post_recovery].
    split; [done|]. intros out [= <-]. exists t', (Some "rollback_verified_readback"%string), snap, current.
    split; [|done]. exists text, response. split_and!; [|done..].
    etrans; [|exact S4]. apply sublist_skip. cbn. by apply sublist_cons.
Qed.

Lemma restore_cleared_ok t snap response current text w :
  backup_of t text = Ok snap → current_of response = Ok current → snapshot_is_cleared current = true →
  after_ [evt (sheet_read t) (Ok response); evt (file_read t) (Ok text)] w →
  wpc (restore_cleared canonical_sha256 i o ep t snap) (item_post t) w.
Proof.
  intros Hb Hc Hcl Hw. unfold restore_cleared.
  eapply next; [done|exact Hw|by intros x w' [? _]; apply post_err|].
  intros [t'|] w1 w2 [_ _] Hr H2; [|destruct H2; by apply post_recovery].
  pose proof (reply_steps _ _ _ _ Hr) as [El _]. apply wp_bind. unfold try_restore. apply wp_handle.
  assert (∀ w, after_ [evt (file_read t) (Ok text)] w →
    wpc (confirmed ← ask (Database (CConfirmRollback i (site_of t) o ep (fence_epoch t') false
                       (Some "recovery_required"%string)));
         mret (ItemOutcome (if false && (confirmed : bool) then RolledBack else RecoveryRequired) true))
      (item_post t) w) as Hno.
  { intros w0 H0. eapply next; [done|exact H0|by intros x w' [? _]; apply post_err|].
    intros b w3 w4 _ _ [H4 _]. by apply post_recovery. }
  assert (after_ [evt (file_read t) (Ok text)] w2) as H2' by by do 2 apply after_less in H2.
  assert (∀ w, after_ [evt (file_read t) (Ok text)] w →
    wpc (current ← read_snapshot (reconciliation_entry t); lift (verify_restored canonical_sha256 current snap))
      (λ r w', wpc (confirmed ← ask (Database (CConfirmRollback i (site_of t) o ep (fence_epoch t') (is_ok r)
                       (Some (if is_ok r then "rollback_verified" else "recovery_required")%string)));
         mret (ItemOutcome (if is_ok r && (confirmed : bool) then RolledBack else RecoveryRequired) true))
      (item_post t) w') w) as Hread.
  { intros w0 H0. apply wp_bind.
    eapply (wp_read (within careful) careful (λ _ H, H) kept_careful); [exact H0|intros x w' H; by apply Hno|].
    intros response' cur w' Hs H'. cbn [Coro.wp lift].
    destruct (verify_restored canonical_sha256 cur snap) as [[]|x] eqn:Hv; cbn [is_ok].
    2: { apply after_less in H'. by apply Hno. }
    apply raise_if_Ok, negb_false_iff, String.eqb_eq in Hv.
    eapply next; [done|exact H'|by intros x w1' [? _]; apply post_err|].
    intros ok w3 w4 _ _ [H4 S4]. destruct ok; [|by apply post_recovery].
    split; [done|]. intros out [= <-]. exists t', (Some "rollback_verified"%string), snap, cur.
    split; [|done]. exists text, response'. by split_and!. }
  unfold restore_snapshot. destruct (restore_data snap) as [data|x] eqn:Hd; cbn [lift mbind coro_bind handle];
    [|by apply Hno].
  apply wp_bind. case_bool_decide; [by apply Hread|].
  eapply restore_sent; [exact H2'| |intros x w' Hx; by apply Hno|intros v w' Hx; by apply Hread].
  exists i, o, ep, t, t', snap, current. split_and!; [done|done|by rewrite El| |done].
  exists text, response. split_and!; [|done..]. destruct H2 as [_ H2]. etrans; [|exact H2].
  cbn. by apply sublist_cons.
Qed.

Lemma reconcile_item_ok t w :
  within careful w →
  wpc (reconcile_item canonical_sha256 file_sha256 loads i o ep t) (item_post t) w.
Proof.
  intros Hw. unfold reconcile_item. case_bool_decide.
  { eapply next; [done|by split; [exact Hw|apply sublist_nil_l]|by intros x w' [? _]; apply post_err|].
    intros b w1 w2 _ _ [H2 _]. by apply post_recovery. }
  apply wp_handle. eapply (wp_weaken _ _ _ _ (item_post t)).
  2: { intros [out|x] w' [H1 H2]; [by split|]. destruct x; try (by apply post_recovery). by apply post_err. }
  unfold classify_snapshot, read_reset_backup. apply wp_bind.
  eapply next; [done|by split; [exact Hw|apply sublist_nil_l]|by intros x w' [? _]; apply post_err|].
  intros text w1 w2 _ _ H2. cbn [Coro.wp lift].
  destruct (backup_snapshot canonical_sha256 file_sha256 loads t text) as [snap|x] eqn:Hb;
    [|by destruct H2; apply post_err].
  apply wp_bind.
  eapply (wp_read (within careful) careful (λ _ H, H) kept_careful); [exact H2|by intros x w' [? _]; apply post_err|].
  intros response current w3 Hc H3.
  destruct (String.eqb _ _) eqn:He.
  { apply String.eqb_eq in He. by eapply already_restored_ok. }
  destruct (snapshot_is_cleared current) eqn:Hcl; [by eapply restore_cleared_ok|].
  apply post_recovery. apply H3.
Qed.

(** The verdicts given so far, in the order of the items. *)
Definition given (ks : list classification) (done : list (Z * item)) (w : world) : Prop :=
  Forall2 (λ k kt, proved i o ep k kt.2 (log w)) ks done.

Lemma kept_proved k t : keeps (λ _, True) (λ w, proved i o ep k t (log w)).
Proof.
  apply kept_log. intros p a l _. destruct k as [| |]; cbn; [| |done].
  - intros (? & snap & cur & (text & r & Hs & ?) & ?). split; [done|]. exists snap, cur.
    split; [|done]. exists text, r. split; [by apply sublist_cons|done].
  - intros (t' & m & snap & cur & (text & r & Hs & ?) & ?). exists t', m, snap, cur.
    split; [|done]. exists text, r. split; [by apply sublist_cons|done].
Qed.

Lemma kept_given ks done : keeps (λ _, True) (given ks done).
Proof.
  split.
  - intros w w' Hs He H. eapply Forall2_impl; [exact H|]. intros k kt Hp.
    by eapply (kept_env _ (kept_proved k kt.2)).
  - intros p w a w' Hp Hs Hr H. eapply Forall2_impl; [exact H|]. intros k kt Hk.
    by eapply (kept_reply _ (kept_proved k kt.2)).
Qed.

(** What the rest of a careful run keeps of what is known. *)
Lemma wpc_given {A} ks done (m : prog A) (Q : res exn A → world → Prop) w :
  within (given ks done) w → wpc m (λ r w', given ks done w' → Q r w') w → wpc m Q w.
Proof.
  intros Hg Hm. eapply (wp_mono _ _ (λ w, within careful w ∧ within (given ks done) w));
    [by intros w0 []| |apply wp_conj; [exact Hm|]].
  2: apply (wp_asks env reply (λ _, True)); [| |apply asks_any|exact Hg].
  - intros r w' [H [_ Hk]]. by apply H.
  - intros w0 w1 He [Hs Hj]. split; [by eapply sound_env|]. by eapply (kept_env _ (kept_given ks done)).
  - intros p w0 a w1 _ Hr [Hs Hj]. split; [by eapply sound_reply|].
    by eapply (kept_reply _ (kept_given ks done)).
Qed.

Lemma reconcile_one_ok ks done kt w :
  within careful w → given ks done w →
  wpc (reconcile_one canonical_sha256 file_sha256 loads i o ep ks kt) (λ r w',
    within careful w' ∧ ∀ ks', r = Ok ks' → given ks' (done ++ [kt]) w') w.
Proof.
  intros Hw Hg. unfold reconcile_one. apply wp_bind.
  apply (wpc_given ks done); [by split; [apply Hw|]|].
  eapply wp_weaken; [by apply reconcile_item_ok|].
  intros [out|x] w1 [H1 Hout] Hg1; [|by split]. specialize (Hout _ eq_refl).
  assert (given (ks ++ [verdict out]) (done ++ [kt]) w1) as Hg2.
  { apply Forall2_app; [done|]. by repeat constructor. }
  apply wp_bind. apply (wpc_given _ _ _ _ _ (conj (proj1 H1) Hg2)).
  destruct (_ && _); cbn [Coro.wp mret coro_ret].
  - eapply (wp_quiet_then (within careful) careful (λ _ H, H) kept_careful _ []);
      [done|by split; [exact H1|apply sublist_nil_l]|].
    intros [b|x] w2 [H2 _] Hg3; cbn; (split; [done|]); [by intros ks' [= <-]|done].
  - intros _. by split; [|intros ks' [= <-]].
Qed.

Lemma reconcile_all_ok items ks done w :
  within careful w → given ks done w →
  wpc (fold_coro (reconcile_one canonical_sha256 file_sha256 loads i o ep) ks items) (λ r w',
    within careful w' ∧ ∀ ks', r = Ok ks' → given ks' (done ++ items) w') w.
Proof.
  revert ks done w. induction items as [|kt items IH]; intros ks done w Hw Hg; cbn [fold_coro].
  - rewrite app_nil_r. split; [done|]. by intros ks' [= <-].
  - apply wp_bind. eapply wp_weaken; [by apply reconcile_one_ok|].
    intros [ks'|x] w' [H' Hg']; [|by split]. rewrite cons_middle, app_assoc. apply IH; [done|by apply Hg'].
Qed.

Lemma classification_of ks k :
  operation_classification ks = k → k ≠ RecoveryRequired →
  ∀ k', k' ∈ ks → k' ≠ RecoveryRequired ∧ (k = SafeRetry → k' = SafeRetry).
Proof.
  unfold operation_classification. intros <- Hk k' Hin.
  destruct (decide (RecoveryRequired ∈ ks)) as [H|H].
  { by rewrite (bool_decide_eq_true_2 _ H) in Hk. }
  rewrite (bool_decide_eq_false_2 _ H) in *. split; [congruence|].
  case_bool_decide as H2; [done|]. intros _. destruct k'; congruence.
Qed.

Lemma reconcile_operation_ok w :
  within careful w →
  wpc (reconcile_operation canonical_sha256 file_sha256 loads i o ep) (λ _, within careful) w.
Proof.
  intros Hw. unfold reconcile_operation.
  eapply next; [done|by split; [exact Hw|apply sublist_nil_l]|by intros x w' [? _]|].
  intros items w1 w2 _ _ [H2 S2]. apply wp_bind.
  set (L l := [evt (ListItems i) (Ok items)] `sublist_of` l).
  eapply (wp_mono _ _ (λ w, within careful w ∧ L (log w)));
    [by intros w0 []| |apply wp_conj; [apply (reconcile_all_ok items [] []); [done|constructor]|]].
  2: { apply (wp_asks env reply (λ _, True)); [by intros w0 w3 [-> _]| |apply asks_any|exact S2].
       intros p w0 a w3 _ [-> _]%reply_steps. apply sublist_cons. }
  intros r w3 [[H3 Hg] HL]. destruct r as [ks|x]; [|done]. specialize (Hg _ eq_refl). cbn [app] in Hg.
  apply wp_bind. intros w4 a w5 He Hr. cbn in Hr.
  assert (within careful w5) as H5.
  { eapply careful_reply; [|by eapply careful_env|exact Hr]. destruct He as [-> _].
    unfold event_careful. cbn. intros Hk. exists items.
    split; [by apply singleton_sublist_l|]. intros kt Hkt.
    apply list_elem_of_lookup in Hkt as [n Hn]. destruct (Forall2_lookup_r _ _ _ _ _ Hg Hn) as (k' & Hk' & Hp).
    exists k'. destruct (classification_of ks _ eq_refl Hk k') as [? ?]; [by eapply list_elem_of_lookup_2|].
    by split_and!. }
  split; [done|]. by destruct a.
Qed.
End Operation.

Lemma reconcile_operations_ok locked w :
  within careful w →
  wpc (reconcile_operations canonical_sha256 file_sha256 loads locked) (λ _, within careful) w.
Proof.
  intros Hw. unfold reconcile_operations.
  eapply next; [done|by split; [exact Hw|apply sublist_nil_l]|by intros x w' [? _]|].
  intros fresh w1 w2 _ _ H2. eapply next; [done|exact H2|by intros x w' [? _]|].
  intros candidates w3 w4 _ _ [H4 _]. apply wp_bind.
  eapply (wp_weaken _ _ _ _ (λ _, within careful)); [|by intros [[]|x] w' H].
  clear - H4. revert w4 H4. induction candidates as [|ie ies IH]; intros w4 H4; cbn [for_each]; [done|].
  apply wp_bind. eapply wp_weaken; [by apply reconcile_operation_ok|]. intros [[]|x] w' H'; [by apply IH|done].
Qed.

Lemma runs_careful locked w m w' :
  reachable (clock w, base w) → log w = [] →
  runs env reply (reconcile_operations canonical_sha256 file_sha256 loads locked, w) (m, w') →
  careful_log (log w').
Proof.
  intros Hs Hl R.
  assert (within careful w) as Hw by (split; [done|]; intros l1 x l2; rewrite Hl; by destruct l1).
  destruct (wp_runs env reply (within careful) (λ _, within careful) _ _ R) as [[_ H] _];
    [exact Hw|by apply reconcile_operations_ok|done].
Qed.

(** C13: at every point of every run of the reconciler, whatever others do to the
    database and whatever Google and the files answer: it has cleared no sheet; a
    restore was sent only right after its intent was granted, with the content of a
    backup that passed its checks, to a sheet just read without values; and an
    operation was closed as retryable or rolled back only when each unsettled
    checkpoint's sheet had been read equal to its checked backup and marked so. *)
Theorem reconciler_is_careful locked w m w' :
  reachable (clock w, base w) → log w = [] →
  runs env reply (reconcile_operations canonical_sha256 file_sha256 loads locked, w) (m, w') →
  careful_log (log w').
Proof. apply runs_careful. Qed.

(** Two snapshots with one digest have as many ranges. *)
Hypothesis digest_counts : ∀ a b, canonical_sha256 a = canonical_sha256 b →
  length (value_ranges a) = length (value_ranges b).

(** Only a backup of the ten ranges of the old template can settle: an operation
    with an unsettled checkpoint whose backup has another number of ranges, as every
    backup of a store on the third template has, is never closed as retryable or
    rolled back, although its sheet may have been restored. *)
Theorem v3_backup_never_settles locked w m w' l1 i o ep k error alert a l2 :
  reachable (clock w, base w) → log w = [] →
  runs env reply (reconcile_operations canonical_sha256 file_sha256 loads locked, w) (m, w') →
  log w' = l1 ++ evt (Database (CReconciled i o ep k error alert)) a :: l2 →
  k ≠ RecoveryRequired →
  ∃ items, evt (ListItems i) (Ok items) ∈ l2 ∧
    ∀ kt, kt ∈ items → ∃ text snap, backup_of kt.2 text = Ok snap ∧ length (value_ranges snap) = 10%nat.
Proof.
  intros Hs H0 R Hl Hk. pose proof (runs_careful _ _ _ _ Hs H0 R) as Hc. destruct (Hc _ _ _ Hl Hk) as (items & Hi & Hp). exists items. split; [done|].
  intros kt Hkt. destruct (Hp kt Hkt) as (k' & Hk' & _ & Hpr).
  assert (∃ evs, matches_backup kt.2 evs l2) as (evs & snap & cur & (text & r & _ & Hb & Hcur) & He).
  { destruct k'; [destruct Hpr as [_ H]; by eexists|destruct Hpr as (? & ? & H); by eexists|done]. }
  exists text, snap. split; [done|]. apply digest_counts in He. rewrite <- He. by eapply snapshot_ranges in Hcur.
Qed.
End Reconcile.
End ReconcileSpec.
