(* ===== verification/GrileResetRuns.v ===== *)
(** Concrete runs of the live reset and of the reconciler: the hypotheses of their
    theorems hold on them. *)

From Stdlib Require Import Ascii.
From S2P Require Import Prelude Text Dict Json Table Coro Grile GrileMonthly GrileMonthlyInv GrileMonthlyRuns GrileReset GrileResetLogic GrileResetSpec GrileResetEnds GrileReconcile GrileReconcileSpec.
Import Coro Grile Monthly MonthlyDemo Reset ResetLogic ResetSpec ResetEnds Reconcile ReconcileSpec.

Local Open Scope Z_scope.

Module ResetDemo.

(** ** Running a coroutine *)

Section Drive.
(** What the files, Google and the clock answer, given the log, and which
    statements of the database lose their answer. *)
Context (ext : ∀ p, list event → res exn (ans p)) (lost : Monthly.call → bool).

Definition respond (p : port) (w : world) : res exn (ans p) * db :=
  match p return res exn (ans p) * db with
  | Database k =>
      match exec_call (clock w) k (base w) with
      | Ok (v, d) => (if lost k then Err Failure else Ok v, d)
      | Err _ => (Err Failure, base w)
      end
  | LatestArchive m => (Ok (latest_manifest m (Some "archive"%string) all_statuses (base w)), base w)
  | FetchManifest k => (Ok (get_manifest k (base w)), base w)
  | ListItems i => (Ok (list_reset_items_for_reconciliation i (base w)), base w)
  | FetchOperation i => (Ok (ops (base w) !! i), base w)
  | ExecutionLease i o => (Ok (get_execution_lease (clock w) i o (base w)), base w)
  | p => (ext p (log w), base w)
  end.

Definition polite : Prop := ∀ p l x, ext p l = Err x → raises p x = true.

Lemma respond_reply p w :
  polite → reply p w (respond p w).1 (World (clock w) (respond p w).2 (existT p (respond p w).1 :: log w)).
Proof.
  intros He. exists (respond p w).2. split; [done|]. destruct p; cbn [respond fst snd answers]; try done.
  { destruct (exec_call _ c _) as [[v d]|e] eqn:H; cbn; [|by split; [|left]].
    destruct (lost c); cbn; [|done]. split; [done|]. right. by exists v. }
  all: match goal with |- context [ext ?p ?l] => destruct (ext p l) eqn:H end; cbn; [done|];
    apply He in H; by split; [|left].
Qed.

Fixpoint wrap (q : request) : res exn (ans (port_of q)) → answer q :=
  match q return res exn (ans (port_of q)) → answer q with
  | Req p => λ a, a
  | Patient q => λ a, Some (wrap q a)
  end.

Lemma wrap_replies q w a w' : reply (port_of q) w a w' → replies reply q w (wrap q a) w'.
Proof. induction q; cbn; auto. Qed.

(** Each request is answered one tick after the one before. *)
Fixpoint drive {A} (n : nat) (m : prog A) (w : world) : prog A * world :=
  match n, m with
  | S n', Await q k =>
      let w1 := World (clock w + 1) (base w) (log w) in
      let r := respond (port_of q) w1 in
      drive n' (k (wrap q r.1)) (World (clock w1) r.2 (existT (port_of q) r.1 :: log w1))
  | _, _ => (m, w)
  end.

Lemma tick_env w : env w (World (clock w + 1) (base w) (log w)).
Proof.
  split; [done|]. apply rtc_once. split; cbn; [lia|]. by exists (CEnsureItems 0 "" "" [] "" 0).
Qed.

Lemma drive_runs {A} n (m : prog A) w : polite → runs env reply (m, w) (drive n m w).
Proof.
  intros He. revert m w. induction n as [|n IH]; intros m w; [apply rtc_refl|].
  destruct m as [r|q k]; [apply rtc_refl|]. eapply rtc_l; [|apply IH].
  eapply StepAwait; [apply tick_env|]. apply wrap_replies. by apply respond_reply.
Qed.
End Drive.

(** ** One store, and its sheet *)

Fixpoint rep (n : nat) (a : ascii) : string := match n with O => EmptyString | S n => String a (rep n a) end.

(** A digest that tells cleared snapshots from others, and counts their ranges. *)
Definition digest (v : json) : string :=
  (rep 64 (if snapshot_is_cleared v then "a" else "b") +:+ rep (length (value_ranges v)) "c")%string.

Lemma rep_length n a : String.length (rep n a) = n.
Proof. induction n as [|n IH]; [reflexivity|]. apply (f_equal S IH). Qed.

Lemma rep_app n a s : String.length (rep n a +:+ s)%string = (n + String.length s)%nat.
Proof. induction n as [|n IH]; [reflexivity|]. apply (f_equal S IH). Qed.

Lemma digest_counts a b : digest a = digest b → length (value_ranges a) = length (value_ranges b).
Proof.
  unfold digest. intros H%(f_equal String.length). rewrite !rep_app, !rep_length in H. lia.
Qed.

Definition lower (s : string) : string :=
  String.string_of_list_ascii
    ((λ a, if is_upper a then ascii_of_nat (nat_of_ascii a + 32) else a) <$> String.list_ascii_of_string s).

Definition row : registry_row :=
  RegistryRow "S1" "sheet-1" (Some "Mobicell / Store 1") (Some "Store 1") None None (Some "v2")%string.

Definition one_each : json := JObj [("stores", JInt 1); ("agents", JInt 1)]%string.

Definition archive_body : json :=
  JObj (finalize_manifest digest
    [("schema_version", JInt 1); ("operation", JStr "archive"); ("status", JStr "approved");
     ("expected", one_each); ("processed", one_each); ("control_totals", JObj []);
     ("error_count", JInt 0); ("errors", JArr []); ("artifacts", JArr []);
     ("source_backups", JArr [JObj [("site_code", JStr "S1"); ("sheet_id", JStr "sheet-1")]])]%string).

(** The last request of Google that changed the sheet was a clear. *)
Fixpoint empty_now (l : list event) : bool :=
  match l with
  | [] => false
  | existT (Google (GClear _ _)) _ :: _ => true
  | existT (Google (GRestore _ _)) _ :: _ => false
  | _ :: l' => empty_now l'
  end.

Definition range_json (empty : bool) (r : string) : json :=
  JObj (("range", JStr r) :: if empty then [] else [("values", JArr [JArr [JStr "x"]])])%string.

(** The sheet answers as it stands; the answer of a clear may be lost.  Every
    statement of the database that is not its own business fails. *)
Definition outside (timeout : bool) (p : port) (l : list event) : res exn (ans p) :=
  match p return res exn (ans p) with
  | Google (GRead _ rs) => Ok (JObj [("valueRanges"%string, JArr (range_json (empty_now l) <$> rs))])
  | Google (GClear _ _) => if timeout then Err (GoogleError None true) else Ok JNull
  | Google (GRestore _ _) => Ok JNull
  | FetchRegistry _ => Ok [row]
  | UtcNow => Ok "2024-06-01T08:00:00Z"%string
  | FreshId => Ok "f"%string
  | DescribeFile p => Ok (Artifact p 10 sha_c)
  | ReadFile _ => Ok (Some "backup"%string)
  | HeartbeatTask => Ok None
  | Sleep _ => Ok tt
  | MakeStaging _ => Ok tt
  | WriteJson _ _ => Ok tt
  | PromoteFile _ _ => Ok tt
  | RemoveTree _ => Ok tt
  | VerifyFiles _ => Ok tt
  | Database _ => Err Failure
  | LatestArchive _ => Err Failure
  | FetchManifest _ => Err Failure
  | ListItems _ => Err Failure
  | FetchOperation _ => Err Failure
  | ExecutionLease _ _ => Err Failure
  end.

Lemma outside_polite timeout : polite (outside timeout).
Proof. intros p l x. destruct p as [| | | | | | |[]| | | | | | | | | | |], timeout; cbn; by intros [= <-]. Qed.

Definition context : run_context :=
  RunContext "Mai 2024" "Iunie 2024" may "2024-06" "user" (Some 2) (Some 1) None false (Some "w2") (Some 1)%string.

Definition reset : prog execution := execute_reset digest context lower lower (λ _, archive_body).

(** A live reset has been reserved and its worker has started it. *)
Definition ready : list (Z * Monthly.call) :=
  approved_archive ++
  [(60, CReserve "reset" may None false "user" (Some 1)); (70, CStart 2 (Some "w2") "f2" 300)]%string.

Definition world_of (cs : list (Z * Monthly.call)) : world :=
  World (end_of start_point cs).1 (end_of start_point cs).2 [].

Definition no_loss (_ : Monthly.call) : bool := false.

(** How a reset ended: [Some None] is success, [Some (Some code)] a failure with a manifest. *)
Definition ending {A} (m : prog A) : option (option string) :=
  match m with
  | Done (Ok _) => Some None
  | Done (Err (ManifestError code _)) => Some (Some code)
  | _ => None
  end.

Definition verified_run : prog execution * world := drive (outside false) no_loss 80 reset (world_of ready).
Definition timed_out_run : prog execution * world := drive (outside true) no_loss 80 reset (world_of ready).

Lemma verified_ending : ending verified_run.1 = Some None.
Proof. vm_compute. reflexivity. Qed.
Lemma timed_out_ending : ending timed_out_run.1 = Some (Some "rolled_back"%string).
Proof. vm_compute. reflexivity. Qed.

Lemma world_reachable cs :
  is_ok (run_calls start_point cs) = true → reachable (clock (world_of cs), base (world_of cs)).
Proof. intros H. unfold world_of. cbn. rewrite <- surjective_pairing. by apply end_of_reachable. Qed.

(** The sheets cleared in a run, the latest first. *)
Definition sheets_cleared (l : list event) : list string :=
  omap (λ x : event, match projT1 x with Google (GClear sheet _) => Some sheet | _ => None end) l.

Lemma no_sheets l : no_clear l → sheets_cleared l = [].
Proof. induction 1 as [|[p a] l Hy _ IH]; [done|]. cbn. destruct p as [| | | | | | |[]| | | | | | | | | | |]; done. Qed.

Lemma entries_nonempty cx fold up rows es : entries_of_rows cx fold up rows = Ok es → es ≠ [].
Proof.
  unfold entries_of_rows. intros (all & _ & H)%bind_Ok. apply bind_Ok in H as ([] & Hr & [= <-]).
  apply raise_if_Ok, bool_decide_eq_false in Hr. intros E. apply Hr. by rewrite E.
Qed.

#[local] Opaque drive run_calls world_of execute_reset.

Lemma ready_reachable : reachable (clock (world_of ready), base (world_of ready)).
Proof. apply world_reachable. vm_compute. reflexivity. Qed.

Lemma verified_runs : runs env reply (reset, world_of ready) verified_run.
Proof. apply drive_runs, outside_polite. Qed.

Lemma timed_out_runs : runs env reply (reset, world_of ready) timed_out_run.
Proof. apply drive_runs, outside_polite. Qed.

Lemma archive_totals l : totals_kept (λ _, archive_body) l.
Proof. intros k m f _ H. injection H as <-. vm_compute. reflexivity. Qed.

Lemma clears_are_guarded_witness :
  ∃ w', runs env reply (reset, world_of ready) (timed_out_run.1, w') ∧
        sheets_cleared (log w') = ["sheet-1"%string] ∧ guarded digest context 2 "w2" 1 (λ _ _, True) w'.
Proof.
  pose proof timed_out_runs as R. rewrite (surjective_pairing timed_out_run) in R.
  exists timed_out_run.2. split; [exact R|]. split; [vm_compute; reflexivity|].
  exact (clears_are_guarded digest context lower lower (λ _, archive_body) 2 "w2" 1 eq_refl eq_refl
           eq_refl eq_refl (world_of ready) timed_out_run.1 timed_out_run.2 ready_reachable eq_refl R).
Defined.

Lemma reset_outcome_is_true_witness :
  (∃ x w', runs env reply (reset, world_of ready) (Done (Ok x), w') ∧
     sheets_cleared (log w') = ["sheet-1"%string] ∧ ∃ e, cleared 2 "w2" 1 e (log w')) ∧
  (∃ m w', runs env reply (reset, world_of ready) (Done (Err (ManifestError "rolled_back" m)), w') ∧
     sheets_cleared (log w') = ["sheet-1"%string] ∧ all_restored digest context 2 "w2" 1 (log w')).
Proof.
  pose proof (reset_outcome_is_true digest context lower lower (λ _, archive_body) 2 "w2" 1 eq_refl
    eq_refl eq_refl eq_refl (world_of ready)) as T. split.
  - pose proof verified_runs as R. pose proof verified_ending as N.
    assert (sheets_cleared (log verified_run.2) = ["sheet-1"%string]) as C by (vm_compute; reflexivity).
    destruct verified_run as [[[x|[]]|q k] w']; cbn in N; try discriminate N.
    exists x, w'. split; [exact R|]. split; [exact C|].
    destruct (T _ _ ready_reachable eq_refl R) as (es & s & ex & ar & rows & _ & _ & _ & Hes & _ & H & _).
    apply entries_nonempty in Hes. destruct es as [|e es]; [done|]. exists e. apply H. by left.
  - pose proof timed_out_runs as R. pose proof timed_out_ending as N.
    assert (sheets_cleared (log timed_out_run.2) = ["sheet-1"%string]) as C by (vm_compute; reflexivity).
    destruct timed_out_run as [[[x|[code|code m| | |]]|q k] w']; cbn in N; try discriminate N.
    injection N as ->. exists m, w'. split; [exact R|]. split; [exact C|].
    destruct (T _ _ ready_reachable eq_refl R (archive_totals _)) as [Hn|([] & m' & Hm & _ & H)];
      [|by apply H|by injection Hm].
    apply no_sheets in Hn. cbn in C. by rewrite Hn in C.
Defined.

Lemma reset_ends_witness :
  bounded 82 (reset_stores digest context [Entry "Mobicell" "Store 1" "sheet-1" "S1" "Neatribuit" false "v3"]
                one_each archive_body).
Proof.
  destruct (reset_ends digest context lower lower (λ _, archive_body) 2 "w2" 1 eq_refl eq_refl eq_refl eq_refl)
    as [_ H].
  apply (H [Entry "Mobicell" "Store 1" "sheet-1" "S1" "Neatribuit" false "v3"%string]).
Defined.

(** ** The reconciler *)

(** A worker stops after its clear: the sheet is empty, the intent open; its lease
    has run out. *)
Definition stopped (template : string) : list (Z * Monthly.call) :=
  ready ++
  [(80, CEnsureItems 2 may "2024-06"
          [item_of_entry (Entry "Mobicell" "Store 1" "sheet-1" "S1" "Neatribuit" false template)] "w2" 1);
   (90, CBackup 2 "S1" "backups/s1.json" sha_c "w2" 1); (100, CClaimItem 2 "S1" "w2" 1);
   (110, CPrepareClear 2 "S1" "w2" 1); (400 * second, CHeartbeat 2 "w2" 1 300)]%string.

(** The sheet as the worker left it; its backup, with the ranges of its template. *)
Definition after_stop (p : port) (l : list event) : res exn (ans p) :=
  outside false p (l ++ [existT (Google (GClear "sheet-1" RESET_RANGES)) (Ok JNull)]).

Definition saved (ranges : list string) (text : string) : option json :=
  let snap := JObj [("value_ranges"%string, JArr (range_json false <$> ranges))] in
  Some (JObj [("snapshot", snap); ("snapshot_sha256", JStr (digest snap))]%string).

Lemma after_stop_polite : polite after_stop.
Proof. intros p l x. apply outside_polite. Qed.

Definition reconcile (ranges : list string) : prog nat :=
  reconcile_operations digest (λ _, sha_c) (saved ranges) [].

Definition reconciled_run (template : string) : prog nat * world :=
  drive after_stop no_loss 60 (reconcile (reset_ranges_for_entry (Entry "" "" "" "" "" false template)))
    (world_of (stopped template)).

(** How the reconciler closed operations, the latest first, and how often it wrote
    to a sheet. *)
Definition closings (l : list event) : list classification :=
  omap (λ x : event, match projT1 x with Database (CReconciled _ _ _ k _ _) => Some k | _ => None end) l.
Definition restores (l : list event) : nat :=
  length (List.filter (λ x : event, match projT1 x with Google (GRestore _ _) => true | _ => false end) l).

Example old_template_settles :
  let l := log (reconciled_run "v2").2 in closings l = [RolledBack] ∧ restores l = 1%nat.
Proof. vm_compute. split; reflexivity. Qed.
Example third_template_does_not :
  let l := log (reconciled_run "v3").2 in closings l = [RecoveryRequired] ∧ restores l = 1%nat.
Proof. vm_compute. split; reflexivity. Qed.

#[local] Opaque reconcile_operations.

Lemma stopped_reachable :
  reachable (clock (world_of (stopped "v2")), base (world_of (stopped "v2"))).
Proof. apply world_reachable. vm_compute. reflexivity. Qed.

Lemma reconciled_runs :
  runs env reply (reconcile RESET_RANGES, world_of (stopped "v2"))
    ((reconciled_run "v2").1, (reconciled_run "v2").2).
Proof. rewrite <- surjective_pairing. apply drive_runs, after_stop_polite. Qed.

Lemma reconciler_is_careful_witness :
  ∃ m w', runs env reply (reconcile RESET_RANGES, world_of (stopped "v2")) (m, w') ∧
          closings (log w') = [RolledBack] ∧ restores (log w') = 1%nat ∧
          careful_log digest (λ _, sha_c) (saved RESET_RANGES) (log w').
Proof.
  exists (reconciled_run "v2").1, (reconciled_run "v2").2. split; [exact reconciled_runs|].
  do 2 (split; [vm_compute; reflexivity|]).
  exact (reconciler_is_careful digest (λ _, sha_c) (saved RESET_RANGES) [] _ _ _ stopped_reachable eq_refl
           reconciled_runs).
Defined.

Lemma v3_backup_never_settles_witness :
  ∃ items, evt (ListItems 2) (Ok items) ∈ log (reconciled_run "v2").2 ∧
    ∀ kt, kt ∈ items → ∃ text snap,
      backup_of digest (λ _, sha_c) (saved RESET_RANGES) kt.2 text = Ok snap ∧ length (value_ranges snap) = 10%nat.
Proof.
  assert (∃ o ep error alert a l1 l2, log (reconciled_run "v2").2 =
            l1 ++ evt (Database (CReconciled 2 o ep RolledBack error alert)) a :: l2) as H.
  { vm_compute. do 5 eexists. exists []. eexists. reflexivity. }
  destruct H as (o & ep & error & alert & a & l1 & l2 & H).
  destruct (v3_backup_never_settles digest (λ _, sha_c) (saved RESET_RANGES) digest_counts [] _ _ _ _ _ _ _ _
              _ _ _ _ stopped_reachable eq_refl reconciled_runs H) as (items & Hi & Hs); [discriminate|].
  exists items. split; [|exact Hs]. rewrite H. by apply elem_of_app; right; right.
Defined.
End ResetDemo.
