(* ===== verification/GrileCalendar.v ===== *)
(** The native calendar of the stores' teams ([repositories/grile_calendar.py],
    [grile_transfers.py], [grile_store_team.py], [grile_compensation.py],
    [grile_target_settings.py], [grile/calendar_models.py], migrations 070 to 081):
    the roster of a month, dated transfers, scheduled days, closed days, opening
    hours, pay inputs and manager targets, each edit fenced by a revision.

    A month is the pair of year and month; amounts NUMERIC(12,2) are in hundredths;
    opening hours are minutes of the day.  Names of people are left out. *)

From Stdlib Require Import Ascii.
From S2P Require Import Prelude Text Grile.

Local Open Scope Z_scope.

Module Calendar.

Abbreviation date := Grile.date.
Abbreviation month_key := (Z * Z)%type.

Definition month_of (d : date) : month_key := (Grile.year d, Grile.month d).
Definition first_of (m : month_key) : date := Grile.Date m.1 m.2 1.

#[global] Instance date_countable : Countable date.
Proof.
  apply (inj_countable' (λ d, (Grile.year d, Grile.month d, Grile.day d)) (λ x, Grile.Date x.1.1 x.1.2 x.2)).
  by intros [].
Defined.

Definition date_leb : date → date → bool :=
  lex_leb (cmp_on Grile.year Z.compare) (lex_leb (cmp_on Grile.month Z.compare) (leb_on Grile.day Z.leb)).
Definition date_ltb (a b : date) : bool := negb (date_leb b a).

(** ** Tables *)

Record store_row := StoreRow { is_open : bool; locatie : option string; region : option string }.

Inductive day_status := Work | Leave | Off | CancelledDay.
#[global] Instance day_status_eq : EqDecision day_status.
Proof. solve_decision. Defined.

Record roster_row := RosterRow {
  home : option string;
  active : bool;
  regional : option string;
  revision : Z;
}.
Record transfer_row := TransferRow {
  effective_from : date;
  to_home : option string;
  location_code_active_from : option date;
}.
Record day_row := DayRow {
  site : option string;
  status : day_status;
  supplemental : bool;
  day_revision : Z;
}.
Record hours_row := HoursRow { opens : Z; closes : Z; break_minutes : Z; hours_revision : Z }.
Record compensation_values := CompensationValues {
  salary_base : option Z;
  vouchers : option Z;
  sim_quantity : option Z;
  epay_under_50 : option Z;
  epay_over_50 : option Z;
  incentive : option Z;
  adjustment : option Z;
}.
Record compensation_row := CompensationRow { values : compensation_values; compensation_revision : Z }.
(** [Some amount] is the manual mode. *)
Record target_row := TargetRow { manual_target : option Z; target_revision : Z }.
Record target_event := TargetEvent { old_target : option Z; new_target : option Z }.

Record db := Db {
  stores : gmap string store_row;
  roster : gmap (month_key * string) roster_row;
  transfers : gmap (month_key * string * Z) transfer_row;
  (** Agent, date, allocation site. *)
  days : gmap (string * date * string) day_row;
  closures : gmap (date * string) Z;
  store_hours : gmap (month_key * string) hours_row;
  compensation : gmap (month_key * string) compensation_row;
  targets : gmap (month_key * string) target_row;
  target_events : gmap (month_key * string * Z) target_event;
}.

Definition set_roster x (d : db) : db :=
  Db (stores d) x (transfers d) (days d) (closures d) (store_hours d) (compensation d) (targets d) (target_events d).
Definition set_transfers x (d : db) : db :=
  Db (stores d) (roster d) x (days d) (closures d) (store_hours d) (compensation d) (targets d) (target_events d).
Definition set_days x (d : db) : db :=
  Db (stores d) (roster d) (transfers d) x (closures d) (store_hours d) (compensation d) (targets d) (target_events d).
Definition set_closures x (d : db) : db :=
  Db (stores d) (roster d) (transfers d) (days d) x (store_hours d) (compensation d) (targets d) (target_events d).
Definition set_hours x (d : db) : db :=
  Db (stores d) (roster d) (transfers d) (days d) (closures d) x (compensation d) (targets d) (target_events d).
Definition set_compensation x (d : db) : db :=
  Db (stores d) (roster d) (transfers d) (days d) (closures d) (store_hours d) x (targets d) (target_events d).
Definition set_targets x e (d : db) : db :=
  Db (stores d) (roster d) (transfers d) (days d) (closures d) (store_hours d) (compensation d) x e.

(** [CalendarConflict], the 422 of the service, a constraint of a table. *)
Inductive calendar_error := CalendarConflict (why : string) | Unprocessable (why : string) | Violation (what : string).

Definition conflict_if (b : bool) (why : string) : res calendar_error () := raise_if b (CalendarConflict why).

(** A row of a table satisfies a condition. *)
Definition exists_row {K V} `{Countable K} (p : K → V → bool) (t : gmap K V) : bool :=
  existsb (λ kv, p kv.1 kv.2) (map_to_list t).

(** [coalesce(old.revision, 0)]. *)
Definition revision_of {R} (f : R → Z) (old : option R) : Z := match old with Some r => f r | None => 0 end.

(** ** Stores *)

(** [locatie NOT ILIKE 'TR %']; not true of NULL. *)
Definition not_distribution (l : option string) : bool :=
  match l with
  | Some (String a (String b (String c _))) => negb (one_of "tT" a && one_of "rR" b && one_of " " c)
  | Some _ => true
  | None => false
  end.

Definition is_retail (site : string) (s : store_row) : bool :=
  is_open s && not_distribution (locatie s) && negb (bool_decide (site ∈ ["Cartele"; "TL"]%string)).

(** [_store]: the region of an active store. *)
Definition _store (site : string) (d : db) : res calendar_error (option string) :=
  match stores d !! site with
  | Some s => if is_retail site s then Ok (region s) else Err (CalendarConflict "Store is not active")
  | None => Err (CalendarConflict "Store is not active")
  end.

(** ** The roster *)

Definition stored_home (home_site_code : string) : option string :=
  if bool_decide (home_site_code = "TL"%string) then None else Some home_site_code.

(** [RosterInput]. *)
Definition roster_input_ok (home_site_code : string) (reg : option string) : bool :=
  let named := match reg with Some r => negb (bool_decide (r = EmptyString)) | None => false end in
  if bool_decide (home_site_code = "TL"%string) then named else bool_decide (reg = None).

Definition _validate_roster_base (home_site_code : string) (reg : option string) (act : bool)
    (old : option roster_row) (d : db) : res calendar_error () :=
  if negb (bool_decide (home_site_code = "TL"%string)) then _ ← _store home_site_code d; Ok tt
  else if negb act && match old with
                      | Some r => bool_decide (home r = None) && bool_decide (regional r = reg)
                      | None => false
                      end
  then Ok tt
  else match reg with
       | Some r =>
           conflict_if (bool_decide (r = EmptyString) || negb (exists_row (λ site s, is_retail site s && bool_decide (region s = Some r)) (stores d)))
             "Team Leader requires an active regional scope"
       | None => Err (CalendarConflict "Team Leader requires an active regional scope")
       end.

Definition has_transfer (m : month_key) (agent : string) (d : db) : bool :=
  exists_row (λ k _, bool_decide (k.1 = (m, agent))) (transfers d).

Definition is_live (x : day_row) : bool := negb (bool_decide (status x = CancelledDay)).

Definition has_days (m : month_key) (agent : string) (d : db) : bool :=
  exists_row (λ k x, bool_decide (k.1.1 = agent) && bool_decide (month_of k.1.2 = m) && is_live x) (days d).

Definition _validate_roster_changes (m : month_key) (agent : string) (new_home : option string) (act : bool)
    (old : option roster_row) (reg : option string) (d : db) : res calendar_error () :=
  let changed := match old with
                 | Some r => negb (bool_decide (home r = new_home)) || negb (bool_decide (regional r = reg)) || negb act
                 | None => false
                 end in
  _ ← conflict_if (changed && has_transfer m agent d) "Agent has dated transfers; use the team transfer editor";
  conflict_if (changed && has_days m agent d) "Cancel scheduled days before changing roster membership".

(** SQL's [x = btrim(x)] and [btrim(x) = ''], which strip spaces only, and [length(x)] of a
    UTF-8 text, whose continuation bytes begin no character. *)
Definition trimmed (s : string) : bool :=
  match String.list_ascii_of_string s with
  | [] => true
  | c :: l => negb (one_of " " c) && negb (one_of " " (List.last l c))
  end.
Definition blank : string → bool := all_chars (one_of " ").
Definition characters (s : string) : nat :=
  length (List.filter (λ c, let n := nat_of_ascii c in Nat.ltb n 128 || Nat.leb 192 n)
            (String.list_ascii_of_string s)).

(** The CHECKs of the roster. *)
Definition roster_check (agent : string) (r : roster_row) : bool :=
  trimmed agent && Nat.leb 1 (characters agent) && Nat.leb (characters agent) 80 && (0 <? revision r)
  && match home r, regional r with
     | Some _, _ => true
     | None, Some reg => negb (blank reg)
     | None, None => false
     end.

Definition put_roster (k : month_key * string) (r : roster_row) (d : db) : res calendar_error db :=
  if roster_check k.2 r then Ok (set_roster (<[k := r]> (roster d)) d) else Err (Violation "grile_calendar_roster").

Definition save_roster (m : month_key) (agent home_site_code : string) (act : bool) (expected : Z)
    (reg : option string) (d : db) : res calendar_error (roster_row * db) :=
  let old := roster d !! (m, agent) in
  _ ← conflict_if (negb (revision_of revision old =? expected)) "Roster revision changed; reload the calendar";
  _ ← _validate_roster_base home_site_code reg act old d;
  _ ← _validate_roster_changes m agent (stored_home home_site_code) act old reg d;
  let r := RosterRow (stored_home home_site_code) act reg (revision_of revision old + 1) in
  d' ← put_roster (m, agent) r d;
  Ok (r, d').

(** ** Dated homes *)

(** Later of two transfers: by date, then by revision. *)
Definition transfer_leb : Z * transfer_row → Z * transfer_row → bool :=
  λ x y, if date_leb (effective_from x.2) (effective_from y.2)
         then negb (date_leb (effective_from y.2) (effective_from x.2)) || (x.1 <=? y.1)
         else false.

Definition transfers_of (m : month_key) (agent : string) (d : db) : list (Z * transfer_row) :=
  sorted_by transfer_leb
    (omap (λ kt, if bool_decide (kt.1.1 = (m, agent)) then Some (kt.1.2, kt.2) else None) (map_to_list (transfers d))).

(** The home of the latest transfer up to a date; a null home is unassigned. *)
Definition dated_home (m : month_key) (agent : string) (on : date) (d : db) : option string :=
  (λ t, default "UNASSIGNED"%string (to_home t.2))
    <$> last (List.filter (λ t, date_leb (effective_from t.2) on) (transfers_of m agent d)).

(** ** Days *)

Record day_input := DayInput {
  work_date : date;
  agent_code : string;
  site_code : string;
  new_status : day_status;
  new_supplemental : bool;
  expected_revision : Z;
}.
Record closure_input := ClosureInput {
  c_date : date;
  c_site : string;
  c_closed : bool;
  c_expected : Z;
}.

(** [CalendarDayInput], [CalendarChanges]. *)
Definition day_input_ok (x : day_input) : bool :=
  negb (bool_decide (site_code x = EmptyString)) && negb (bool_decide (agent_code x = EmptyString))
  && (0 <=? expected_revision x)
  && negb (new_supplemental x && negb (bool_decide (new_status x = Work))).

Definition changes_ok (xs : list day_input) (cs : list closure_input) : bool :=
  forallb day_input_ok xs && Nat.leb (length xs) 93 && Nat.leb (length cs) 31
  && negb (Nat.eqb (length xs + length cs) 0)
  && bool_decide (NoDup ((λ x, (work_date x, agent_code x, site_code x)) <$> xs)).

(** The slot that a membership gives to a day. *)
Definition slot_of (r : roster_row) (site : string) : string :=
  match home r with None => site | Some _ => EmptyString end.

Definition stored_site (site : string) : option string :=
  if bool_decide (site = "TL"%string) then None else Some site.

Definition _validate_cancellation (x : day_input) (old : option day_row) : res calendar_error () :=
  match old with
  | None => Err (CalendarConflict "Cannot cancel an unassigned day")
  | Some o => conflict_if (negb (bool_decide (default "TL"%string (site o) = site_code x)))
                "Cancellation must retain the assigned store"
  end.

Definition _validate_home (x : day_input) (r : roster_row) (worked : option string) (d : db)
    : res calendar_error () :=
  match dated_home (month_of (work_date x)) (agent_code x) (work_date x) d, home r with
  | Some "UNASSIGNED"%string, _ =>
      Err (CalendarConflict "Agent has no home allocation on this date; assign a store first")
  | dated, base =>
      let h := match dated with Some h => if bool_decide (h = EmptyString) then base else Some h | None => base end in
      let h := default EmptyString h in
      reg ← _store h d;
      if bool_decide (site_code x = h) then Ok tt
      else if negb (bool_decide (new_status x = Work))
      then Err (CalendarConflict "Only work can be assigned at another store")
      else conflict_if (match reg with Some g => bool_decide (g = EmptyString) || negb (bool_decide (worked = reg)) | None => true end)
             "Supplemental store must be in the agent's home region"
  end.

Definition _validate_day (x : day_input) (r : roster_row) (d : db) : res calendar_error () :=
  let old := days d !! (agent_code x, work_date x, slot_of r (site_code x)) in
  _ ← conflict_if (negb (revision_of day_revision old =? expected_revision x)) "Day revision changed; reload the calendar";
  if bool_decide (new_status x = CancelledDay) then _validate_cancellation x old
  else
    _ ← conflict_if (negb (active r)) "Agent must be confirmed active for this month";
    if bool_decide (site_code x = "TL"%string) then
      conflict_if (negb (bool_decide (home r = None)) || negb (bool_decide (new_status x ∈ [Leave; Off])))
        "Virtual TL base accepts only Team Leader absences"
    else
      worked ← _store (site_code x) d;
      match home r with
      | None => conflict_if (negb (bool_decide (new_status x = Work)) || negb (bool_decide (worked = regional r)))
                  "Team Leader work must stay in the confirmed region"
      | Some _ => _validate_home x r worked d
      end.

(** The trigger [grile_calendar_set_allocation_site]. *)
Definition allocation_site (agent : string) (on : date) (s : option string) (d : db) : res calendar_error string :=
  match roster d !! (month_of on, agent) with
  | Some r => Ok (slot_of r (default "TL"%string s))
  | None => Err (Violation "Confirm monthly roster before scheduling")
  end.

(** The CHECKs of a day, its store and the index of one worker per store and day. *)
Definition day_check (x : day_row) : bool :=
  (0 <? day_revision x) && (negb (supplemental x) || bool_decide (status x = Work))
  && (negb (bool_decide (site x = None)) || negb (bool_decide (status x = Work))).

Definition other_worker (k : string * date * string) (x : day_row) (d : db) : bool :=
  bool_decide (status x = Work)
  && exists_row (λ k' y, negb (bool_decide (k' = k)) && bool_decide (k'.1.2 = k.1.2)
                         && bool_decide (status y = Work) && bool_decide (site y = site x)) (days d).

Definition put_day (k : string * date * string) (x : day_row) (d : db) : res calendar_error db :=
  _ ← raise_if (negb (day_check x)) (Violation "grile_calendar_days");
  _ ← raise_if (match site x with Some s => bool_decide (stores d !! s = None) | None => false end) (Violation "stores");
  _ ← conflict_if (other_worker k x d) "A store already has an assigned agent on that day";
  Ok (set_days (<[k := x]> (days d)) d).

(** The UPDATE of a row through the trigger, which may give it another slot. *)
Definition update_day (k : string * date * string) (x : day_row) (d : db) : res calendar_error db :=
  slot ← allocation_site k.1.1 k.1.2 (site x) d;
  if bool_decide (slot = k.2) then put_day k x d
  else match days d !! (k.1, slot) with
       | Some _ => Err (CalendarConflict "A store already has an assigned agent on that day")
       | None => put_day (k.1, slot) x (set_days (delete k (days d)) d)
       end.

(** The checks of the loop over the days, in order. *)
Fixpoint check_days (seen : list (string * date * string)) (xs : list day_input) (d : db)
    : res calendar_error (list (day_input * string)) :=
  match xs with
  | [] => Ok []
  | x :: xs' =>
      match roster d !! (month_of (work_date x), agent_code x) with
      | None => Err (CalendarConflict "Confirm the agent's monthly roster first")
      | Some r =>
          let slot := slot_of r (site_code x) in
          let k := (agent_code x, work_date x, slot) in
          _ ← conflict_if (bool_decide (k ∈ seen)) "Only TL accounts can have several stores on the same day";
          _ ← _validate_day x r d;
          rest ← check_days (k :: seen) xs' d;
          Ok ((x, slot) :: rest)
      end
  end.

Definition release_day (d : db) (xs : day_input * string) : res calendar_error db :=
  let '(x, slot) := xs in
  let d1 := if bool_decide (new_status x = Work)
            then set_closures (delete (work_date x, site_code x) (closures d)) d else d in
  let k := (agent_code x, work_date x, slot) in
  match days d1 !! k with
  | Some y => update_day k (DayRow (site y) CancelledDay false (day_revision y)) d1
  | None => Ok d1
  end.

(** The INSERT with ON CONFLICT DO UPDATE. *)
Definition upsert_day (d : db) (xs : day_input * string) : res calendar_error db :=
  let x := xs.1 in
  let s := stored_site (site_code x) in
  slot ← allocation_site (agent_code x) (work_date x) s d;
  let k := (agent_code x, work_date x, slot) in
  put_day k (DayRow s (new_status x) (new_supplemental x) (revision_of day_revision (days d !! k) + 1)) d.

(** *** Closed days *)

Definition works_at (on : date) (s : string) (d : db) : bool :=
  exists_row (λ k x, bool_decide (k.1.2 = on) && bool_decide (status x = Work) && bool_decide (site x = Some s)) (days d).

Definition save_closure (d : db) (c : closure_input) : res calendar_error db :=
  _ ← _store (c_site c) d;
  _ ← conflict_if (c_closed c && works_at (c_date c) (c_site c) d) "the scheduled agent comes first";
  let k := (c_date c, c_site c) in
  match closures d !! k, c_closed c with
  | None, true => Ok (set_closures (<[k := 1]> (closures d)) d)
  | Some r, true =>
      _ ← conflict_if (negb (r =? c_expected c)) "the closing of the day changed";
      Ok (set_closures (<[k := r + 1]> (closures d)) d)
  | Some r, false =>
      _ ← conflict_if (negb (r =? c_expected c)) "the closing of the day changed";
      Ok (set_closures (delete k (closures d)) d)
  | None, false => Err (CalendarConflict "the closing of the day changed")
  end.

Definition closure_leb : closure_input → closure_input → bool :=
  λ x y, if date_leb (c_date x) (c_date y)
         then negb (date_leb (c_date y) (c_date x)) || String.leb (c_site x) (c_site y) else false.

Definition save_closures_in_transaction (cs : list closure_input) (d : db) : res calendar_error db :=
  foldR save_closure d (sorted_by closure_leb cs).

(** By agent, date, store. *)
Definition day_leb : day_input → day_input → bool :=
  lex_leb (cmp_on agent_code String.compare)
    (λ x y, if date_leb (work_date x) (work_date y)
            then negb (date_leb (work_date y) (work_date x)) || String.leb (site_code x) (site_code y) else false).

Definition save_days (xs : list day_input) (cs : list closure_input) (d : db) : res calendar_error db :=
  checked ← check_days [] (sorted_by day_leb xs) d;
  d1 ← foldR release_day d checked;
  d2 ← foldR upsert_day d1 checked;
  save_closures_in_transaction cs d2.

(** *** Opening hours *)

(** [StoreHoursInput]: times of a day, a break of at most twelve hours, and time left. *)
Definition net_minutes (h : hours_row) : Z := closes h - opens h - break_minutes h.

Definition hours_ok (h : hours_row) : bool :=
  (0 <=? opens h) && (opens h <? 1440) && (0 <=? closes h) && (closes h <? 1440)
  && (0 <=? break_minutes h) && (break_minutes h <=? 720) && (0 <? net_minutes h).

Definition default_hours : hours_row := HoursRow 600 1320 60 0.

Definition save_hours (m : month_key) (s : string) (h : hours_row) (expected : Z) (d : db)
    : res calendar_error (hours_row * db) :=
  _ ← raise_if (negb (hours_ok h)) (Unprocessable "store hours");
  _ ← _store s d;
  let old := store_hours d !! (m, s) in
  _ ← conflict_if (negb (revision_of hours_revision old =? expected)) "Store hours changed; reload the calendar";
  let h' := HoursRow (opens h) (closes h) (break_minutes h) (revision_of hours_revision old + 1) in
  Ok (h', set_hours (<[(m, s) := h']> (store_hours d)) d).

(** ** Transfers *)

(** [TransferInput], [StoreTeamInput]: the activation of a code is not earlier. *)
Definition activation_ok (from : date) (activation : option date) : bool :=
  match activation with Some a => date_leb from a | None => true end.

Definition put_transfer (k : month_key * string * Z) (t : transfer_row) (d : db) : res calendar_error db :=
  _ ← raise_if (negb (bool_decide (transfers d !! k = None)) || bool_decide (roster d !! k.1 = None)
                || negb (0 <? k.2) || negb (bool_decide (month_of (effective_from t) = k.1.1))
                || negb (activation_ok (effective_from t) (location_code_active_from t))
                || match to_home t with Some s => bool_decide (stores d !! s = None) | None => false end)
        (Violation "grile_calendar_transfers");
  Ok (set_transfers (<[k := t]> (transfers d)) d).

Definition with_revision (n : Z) (r : roster_row) : roster_row := RosterRow (home r) (active r) (regional r) n.

Definition save_transfer (m : month_key) (agent home_site_code : string) (from : date) (activation : option date)
    (expected : Z) (d : db) : res calendar_error db :=
  _ ← raise_if (bool_decide (home_site_code = "TL"%string) || negb (activation_ok from activation)
                || negb (bool_decide (month_of from = m))) (Unprocessable "transfer");
  match roster d !! (m, agent) with
  | Some r =>
      _ ← conflict_if (negb (active r) || match home r with Some h => bool_decide (h = EmptyString) | None => true end)
            "Select an active store agent before transferring";
      _ ← conflict_if (negb (revision r =? expected)) "Roster changed; reload before saving the transfer";
      _ ← _store home_site_code d;
      d1 ← put_transfer (m, agent, revision r + 1) (TransferRow from (Some home_site_code) activation) d;
      put_roster (m, agent) (with_revision (revision r + 1) r) d1
  | None => Err (CalendarConflict "Select an active store agent before transferring")
  end.

(** ** The calendar as it is read ([read_on_connection]) *)

Record transfer_entry := TransferEntry { t_from : date; t_home : string; t_code_from : option date; t_revision : Z }.
Record roster_entry := RosterEntry {
  e_agent : string;
  e_home : string;
  e_regional : option string;
  e_active : bool;
  e_revision : Z;
  e_transfers : list transfer_entry;
}.
Record calendar_day := CalendarDay {
  d_date : date;
  d_agent : string;
  d_site : string;
  d_status : day_status;
  d_supplemental : bool;
  d_revision : Z;
}.
Record calendar := CalendarMonth {
  c_month : month_key;
  c_roster : list roster_entry;
  c_days : list calendar_day;
  c_hours : list (string * hours_row);
  c_closures : list (date * string * Z);
}.

(** [DISTINCT ON (agent_code, effective_from)]: of one date the latest revision. *)
Fixpoint last_of_date (l : list (Z * transfer_row)) : list (Z * transfer_row) :=
  match l with
  | [] => []
  | x :: l' =>
      match l' with
      | y :: _ => if bool_decide (effective_from x.2 = effective_from y.2) then last_of_date l' else x :: last_of_date l'
      | [] => [x]
      end
  end.

Definition entry_transfer (t : Z * transfer_row) : transfer_entry :=
  TransferEntry (effective_from t.2) (default "UNASSIGNED"%string (to_home t.2)) (location_code_active_from t.2) t.1.

Definition entry_of (m : month_key) (d : db) (ar : string * roster_row) : roster_entry :=
  RosterEntry ar.1 (match home ar.2 with Some h => if bool_decide (h = EmptyString) then "TL" else h | None => "TL" end)%string
    (regional ar.2) (active ar.2) (revision ar.2) (entry_transfer <$> last_of_date (transfers_of m ar.1 d)).

Definition roster_of (m : month_key) (d : db) : list (string * roster_row) :=
  sorted_by (leb_on fst String.leb)
    (omap (λ kr, if bool_decide (kr.1.1 = m) then Some (kr.1.2, kr.2) else None) (map_to_list (roster d))).

(** The join of the days with the roster. *)
Definition visible_day (m : month_key) (d : db) (kx : (string * date * string) * day_row) : option calendar_day :=
  let '((agent, on, slot), x) := kx in
  match roster d !! (m, agent) with
  | Some r =>
      if bool_decide (month_of on = m)
         && (is_live x || bool_decide (slot = slot_of r (default "TL"%string (site x))))
      then Some (CalendarDay on agent (default "TL"%string (site x)) (status x) (supplemental x) (day_revision x))
      else None
  | None => None
  end.

Definition calendar_day_leb : calendar_day → calendar_day → bool :=
  λ x y, if date_leb (d_date x) (d_date y)
         then negb (date_leb (d_date y) (d_date x))
              || lex_leb (cmp_on d_agent String.compare) (leb_on d_site String.leb) x y
         else false.

Definition days_of (m : month_key) (d : db) : list calendar_day :=
  sorted_by calendar_day_leb (omap (visible_day m d) (map_to_list (days d))).

Definition hours_of (m : month_key) (d : db) : list (string * hours_row) :=
  sorted_by (leb_on fst String.leb)
    (omap (λ kh, if bool_decide (kh.1.1 = m) then Some (kh.1.2, kh.2) else None) (map_to_list (store_hours d))).

Definition closure_row_leb : date * string * Z → date * string * Z → bool :=
  λ x y, if date_leb x.1.1 y.1.1 then negb (date_leb y.1.1 x.1.1) || String.leb x.1.2 y.1.2 else false.

Definition closures_of (m : month_key) (d : db) : list (date * string * Z) :=
  sorted_by closure_row_leb (List.filter (λ kr, bool_decide (month_of kr.1.1 = m)) (map_to_list (closures d))).

Definition read_on_connection (m : month_key) (d : db) : calendar :=
  CalendarMonth m (entry_of m d <$> roster_of m d) (days_of m d) (hours_of m d) (closures_of m d).

(** [home_on] ([grile/roster_history.py]). *)
Definition entry_transfer_leb : transfer_entry → transfer_entry → bool :=
  λ x y, if date_leb (t_from x) (t_from y)
         then negb (date_leb (t_from y) (t_from x)) || (t_revision x <=? t_revision y) else false.

Definition home_on (e : roster_entry) (on : date) : string :=
  foldl (λ h t, if date_leb (t_from t) on then t_home t else h) (e_home e)
    (sorted_by entry_transfer_leb (e_transfers e)).

(** ** The pair of a store *)

Section Team.
(** The digest of the projected calendar, and the candidates of the catalog. *)
Context (projection_revision : calendar → string) (candidates : db → month_key → list string).

Definition entry_for (agent : string) (c : calendar) : option roster_entry :=
  List.find (λ e, bool_decide (e_agent e = agent)) (c_roster c).

Definition later_transfer (from : date) (p : transfer_entry → bool) (e : roster_entry) : bool :=
  existsb (λ t, date_ltb from (t_from t) && p t) (e_transfers e).

Definition check_selected (c : calendar) (known : list string) (agent : string) : res calendar_error () :=
  match entry_for agent c with
  | Some e => conflict_if (negb (e_active e) || bool_decide (e_home e = "TL"%string)) "Select an active physical-store agent"
  | None => conflict_if (negb (bool_decide (agent ∈ known))) "Agent is not in the confirmed candidate catalog"
  end.

Definition _validate_team_change (c : calendar) (s : string) (selected : list string) (from : date)
    (known : list string) : res calendar_error (list string) :=
  _ ← foldR (λ _ a, check_selected c known a) tt selected;
  _ ← conflict_if (existsb (λ e, negb (bool_decide (e_agent e ∈ selected))
                                 && later_transfer from (λ t, bool_decide (t_home t = s)) e) (c_roster c))
        "A later transfer enters this store; review it before replacing the team";
  Ok (List.filter (λ a, negb (bool_decide (a ∈ selected)))
        (e_agent <$> List.filter (λ e, e_active e && bool_decide (home_on e from = s)) (c_roster c))).

(** One member of the new or of the old pair. *)
Definition move_agent (m : month_key) (s : string) (from : date) (activation : option date)
    (selected : list string) (c : calendar) (d : db) (agent : string) : res calendar_error db :=
  let destination := if bool_decide (agent ∈ selected) then Some s else None in
  match entry_for agent c with
  | Some e =>
      if bool_decide (Some (home_on e from) = destination) then Ok d
      else
        _ ← conflict_if (later_transfer from (λ _, true) e)
              "Agent has a later transfer; review that transfer before replacing the team";
        d1 ← put_transfer (m, agent, e_revision e + 1)
               (TransferRow from destination (if destination then activation else None)) d;
        match roster d1 !! (m, agent) with
        | Some r => put_roster (m, agent) (with_revision (e_revision e + 1) r) d1
        | None => Ok d1
        end
  | None =>
      _ ← raise_if (negb (bool_decide (roster d !! (m, agent) = None))) (Violation "grile_calendar_roster_pkey");
      d1 ← put_roster (m, agent) (RosterRow (Some s) true None 1) d;
      d2 ← (if date_ltb (first_of m) from
            then put_transfer (m, agent, 1) (TransferRow (first_of m) None None) d1 else Ok d1);
      d3 ← put_transfer (m, agent, 2) (TransferRow from destination (if destination then activation else None)) d2;
      put_roster (m, agent) (RosterRow (Some s) true None 2) d3
  end.

Definition save_store_team (m : month_key) (s : string) (pair : string * string) (from : date)
    (activation : option date) (expected : string) (d : db) : res calendar_error db :=
  let selected := [pair.1; pair.2] in
  _ ← raise_if (bool_decide (pair.1 = pair.2) || negb (activation_ok from activation)
                || negb (bool_decide (month_of from = m))) (Unprocessable "store team");
  let c := read_on_connection m d in
  _ ← conflict_if (negb (String.eqb (projection_revision c) expected)) "Calendar changed; reload before saving the team";
  _ ← _store s d;
  outgoing ← _validate_team_change c s selected from (candidates d m);
  foldR (move_agent m s from activation selected c) d (sorted_by String.leb (remove_dups (selected ++ outgoing))).

(** ** Pay inputs and targets *)

Definition HIGH_BASE_STORES : list string :=
  ["AFICOTRO"; "AUCHMILI"; "AUCHTRIC"; "CORALEX"; "MC-MEGAMALL"; "PROMEN"; "MCRFBAL"; "AUCHMIL2"; "PRKLK"; "PROM";
   "CRFFEER"; "COTROCENI"; "MEGAMALL"; "SUNPLZ"; "UNIRII"; "CCTCIT"; "CTCORA"; "CTVIVO"; "CTCRFTOM"; "CTCITYPRK";
   "CTAUCH"; "CJIULMALL"; "CLUJCFPOL"; "CJPPOL"]%string.

(** In hundredths; none for a team leader. *)
Definition base_salary (home_site : string) : option Z :=
  if bool_decide (home_site = "TL"%string) then None
  else Some (if bool_decide (home_site ∈ HIGH_BASE_STORES) then 260000 else 240000).

Definition between (low high : Z) (v : option Z) : bool :=
  match v with Some z => (low <=? z) && (z <=? high) | None => true end.

(** [CompensationValues] and the CHECKs, amounts in hundredths. *)
Definition compensation_ok (v : compensation_values) : bool :=
  between 0 100000000 (salary_base v) && between 0 100000000 (vouchers v) && between 0 100000 (sim_quantity v)
  && between 0 100000 (epay_under_50 v) && between 0 100000 (epay_over_50 v) && between 0 100000000 (incentive v)
  && between (-100000000) 100000000 (adjustment v).

Definition put_compensation (k : month_key * string) (v : compensation_values) (d : db)
    : compensation_row * db :=
  let c := CompensationRow v (revision_of compensation_revision (compensation d !! k) + 1) in
  (c, set_compensation (<[k := c]> (compensation d)) d).

Definition save_compensation (m : month_key) (agent : string) (v : compensation_values) (expected : Z) (d : db)
    : res calendar_error (compensation_row * db) :=
  _ ← raise_if (negb (compensation_ok v)) (Unprocessable "compensation");
  match roster d !! (m, agent) with
  | Some r =>
      _ ← conflict_if (negb (active r)) "Confirm the active agent before editing compensation";
      let h := match home r with Some h => if bool_decide (h = EmptyString) then "TL" else h | None => "TL" end%string in
      _ ← conflict_if (negb (bool_decide (h = "TL"%string)) && negb (bool_decide (salary_base v = None))
                       && negb (bool_decide (salary_base v = base_salary h)))
            "Base salary is fixed by the home store city rule";
      _ ← conflict_if (negb (revision_of compensation_revision (compensation d !! (m, agent)) =? expected))
            "Compensation changed; reload before saving";
      Ok (put_compensation (m, agent) v d)
  | None => Err (CalendarConflict "Confirm the active agent before editing compensation")
  end.

Definition save_epay (m : month_key) (agent : string) (under over : Z) (expected : Z) (d : db)
    : res calendar_error (compensation_row * db) :=
  _ ← raise_if (negb (between 0 15 (Some under) && between 0 15 (Some over))) (Unprocessable "epay");
  match roster d !! (m, agent) with
  | Some r =>
      _ ← conflict_if (negb (active r)) "Confirm the active agent before editing E-pay";
      let old := compensation d !! (m, agent) in
      _ ← conflict_if (negb (revision_of compensation_revision old =? expected)) "E-pay changed; reload the grid";
      let v := match old with Some c => values c | None => CompensationValues None None None None None None None end in
      Ok (put_compensation (m, agent)
            (CompensationValues (salary_base v) (vouchers v) (sim_quantity v) (Some under) (Some over) (incentive v)
               (adjustment v)) d)
  | None => Err (CalendarConflict "Confirm the active agent before editing E-pay")
  end.

Definition save_target (m : month_key) (agent : string) (manual : option Z) (expected : Z) (d : db)
    : res calendar_error (target_row * db) :=
  _ ← raise_if (negb (between 1 100000000 manual)) (Unprocessable "target");
  match roster d !! (m, agent) with
  | Some r =>
      _ ← conflict_if (negb (active r)) "the active agent must be confirmed";
      _ ← conflict_if (match home r with Some h => bool_decide (h = EmptyString) | None => true end)
            "team leader accounts have no individual target";
      let old := targets d !! (m, agent) in
      _ ← conflict_if (negb (revision_of target_revision old =? expected)) "the target changed; reload the grid";
      let t := TargetRow manual (revision_of target_revision old + 1) in
      let k := (m, agent, target_revision t) in
      _ ← raise_if (negb (bool_decide (target_events d !! k = None))) (Violation "grile_agent_target_events");
      Ok (t, set_targets (<[(m, agent) := t]> (targets d))
               (<[k := TargetEvent (old ≫= manual_target) manual]> (target_events d)) d)
  | None => Err (CalendarConflict "the active agent must be confirmed")
  end.

(** ** The service and its steps ([services/grile_calendar.py]) *)

Inductive call :=
| SaveRoster (m : month_key) (agent home_site_code : string) (act : bool) (expected : Z) (reg : option string)
| SaveDays (m : month_key) (xs : list day_input) (cs : list closure_input)
| SaveClosures (m : month_key) (cs : list closure_input)
| SaveHours (m : month_key) (s : string) (h : hours_row) (expected : Z)
| SaveTransfer (m : month_key) (agent home_site_code : string) (from : date) (activation : option date) (expected : Z)
| SaveStoreTeam (m : month_key) (s : string) (pair : string * string) (from : date) (activation : option date)
    (expected : string)
| SaveCompensation (m : month_key) (agent : string) (v : compensation_values) (expected : Z)
| SaveEpay (m : month_key) (agent : string) (under over : Z) (expected : Z)
| SaveTarget (m : month_key) (agent : string) (manual : option Z) (expected : Z).

Definition in_month (m : month_key) (xs : list day_input) (cs : list closure_input) : bool :=
  forallb (λ x, bool_decide (month_of (work_date x) = m)) xs && forallb (λ c, bool_decide (month_of (c_date c) = m)) cs.

(** The service's handler of an edit, with the validation of its input. *)
Definition handle (k : call) (d : db) : res calendar_error db :=
  match k with
  | SaveRoster m a h act n reg =>
      _ ← raise_if (negb (roster_input_ok h reg)
                    || (n =? 0) && negb (bool_decide (h = "TL"%string)) && negb (bool_decide (a ∈ candidates d m)))
            (Unprocessable "Agent code is not a current/previous month candidate");
      snd <$> save_roster m a h act n reg d
  | SaveDays m xs cs =>
      _ ← raise_if (negb (changes_ok xs cs) || negb (in_month m xs cs))
            (Unprocessable "Every changed day must belong to the selected month");
      match xs with [] => save_closures_in_transaction cs d | _ => save_days xs cs d end
  | SaveClosures m cs =>
      _ ← raise_if (negb (in_month m [] cs)) (Unprocessable "Every closed day must belong to the selected month");
      save_closures_in_transaction cs d
  | SaveHours m s h n => snd <$> save_hours m s h n d
  | SaveTransfer m a h from act n => save_transfer m a h from act n d
  | SaveStoreTeam m s p from act sha => save_store_team m s p from act sha d
  | SaveCompensation m a v n => snd <$> save_compensation m a v n d
  | SaveEpay m a u o n => snd <$> save_epay m a u o n d
  | SaveTarget m a t n => snd <$> save_target m a t n d
  end.

(** Edits in any order; between them stores are added, closed, moved or renamed,
    never deleted. *)
Inductive step : db → db → Prop :=
| Edit k d d' : handle k d = Ok d' → step d d'
| StoresChange ss d : (∀ s, is_Some (stores d !! s) → is_Some (ss !! s)) →
    step d (Db ss (roster d) (transfers d) (days d) (closures d) (store_hours d) (compensation d) (targets d)
              (target_events d)).

Definition empty_db : db := Db ∅ ∅ ∅ ∅ ∅ ∅ ∅ ∅ ∅.
Definition reachable (d : db) : Prop := rtc step empty_db d.
End Team.

End Calendar.
