(* ===== verification/GrileCalendarInv.v ===== *)
(** What every database of the calendar satisfies: one worker per store and day, one
    day per agent and date outside the team leaders, no worker on a closed day. *)

From S2P Require Import Prelude Text Grile GrileCalendar.
Import Calendar.

Local Open Scope Z_scope.

Module CalendarInv.

Abbreviation day_key := (string * date * string)%type.

Lemma exists_row_true {K V} `{Countable K} (p : K → V → bool) (t : gmap K V) :
  exists_row p t = true ↔ ∃ k v, t !! k = Some v ∧ p k v = true.
Proof.
  unfold exists_row. rewrite existsb_exists. split.
  - intros ([k v] & Hin & Hp). exists k, v. split; [|done]. by apply elem_of_map_to_list, list_elem_of_In.
  - intros (k & v & Ht & Hp). exists (k, v). split; [|done]. by apply list_elem_of_In, elem_of_map_to_list.
Qed.

Lemma exists_row_false {K V} `{Countable K} (p : K → V → bool) (t : gmap K V) k v :
  exists_row p t = false → t !! k = Some v → p k v = false.
Proof.
  intros He Ht. destruct (p k v) eqn:Hp; [|done]. rewrite <- He. symmetry. apply exists_row_true. eauto.
Qed.

(** The parts about the days, without the closures. *)
Record days_inv (d : db) : Prop := DaysInv {
  di_one : ∀ k1 x1 k2 x2, days d !! k1 = Some x1 → days d !! k2 = Some x2 →
      status x1 = Work → status x2 = Work → k1.1.2 = k2.1.2 → site x1 = site x2 → k1 = k2;
  di_owned : ∀ (k : day_key) x, days d !! k = Some x →
      ∃ r, roster d !! (month_of k.1.2, k.1.1) = Some r ∧
           (is_live x = true → k.2 = slot_of r (default "TL"%string (site x)));
  di_slot : ∀ (k : day_key) x, days d !! k = Some x → k.2 ≠ EmptyString → k.2 = default "TL"%string (site x);
  di_site : ∀ (k : day_key) x, days d !! k = Some x → status x = Work →
      ∃ s, site x = Some s ∧ is_Some (stores d !! s);
}.

Definition no_worker_when_closed (d : db) : Prop :=
  ∀ on s n k x, closures d !! (on, s) = Some n → days d !! k = Some x →
    status x = Work → k.1.2 = on → site x ≠ Some s.

Definition inv (d : db) : Prop := days_inv d ∧ no_worker_when_closed d.

(** Only some tables changed. *)
Definition same_days (d d' : db) : Prop :=
  days d' = days d ∧ roster d' = roster d ∧ stores d' = stores d ∧ closures d' = closures d.

Lemma same_days_inv d d' : same_days d d' → inv d → inv d'.
Proof.
  intros (E1 & E2 & E3 & E4) [[I1 I2 I3 I4] I5].
  split; [split|unfold no_worker_when_closed]; rewrite ?E1, ?E2, ?E3, ?E4; auto.
Qed.

Lemma calendar_empty_inv : inv empty_db.
Proof.
  split; [split|unfold no_worker_when_closed]; cbn; intros; 
    match goal with H : ∅ !! _ = Some _ |- _ => by rewrite lookup_empty in H end.
Qed.

(** ** The roster *)

Lemma has_days_false m agent d k x :
  has_days m agent d = false → days d !! k = Some x → k.1.1 = agent → month_of k.1.2 = m → is_live x = false.
Proof.
  intros H Hk <- <-. pose proof (exists_row_false _ _ _ _ H Hk) as Hp. cbn in Hp.
  by rewrite !bool_decide_eq_true_2 in Hp.
Qed.

Lemma put_roster_inv k r d d' :
  put_roster k r d = Ok d' → inv d →
  (∀ r0, roster d !! k = Some r0 → home r = home r0 ∨ has_days k.1 k.2 d = false) → inv d'.
Proof.
  unfold put_roster. destruct (roster_check k.2 r); [|done]. intros [= <-] [[I1 I2 I3 I4] I5] Hold.
  split; [|exact I5]. split; [exact I1| |exact I3|exact I4].
  cbn [set_roster days roster]. intros k' x Hx. destruct (I2 _ _ Hx) as (r0 & Hr0 & Hs).
  destruct (decide (k = (month_of k'.1.2, k'.1.1))) as [->|Hne].
  2: { exists r0. by rewrite lookup_insert_ne. }
  exists r. rewrite lookup_insert_eq. split; [done|]. intros Hl. destruct (Hold _ Hr0) as [Eh|Hd].
  - rewrite (Hs Hl). unfold slot_of. by rewrite Eh.
  - by rewrite (has_days_false _ _ _ _ _ Hd Hx eq_refl eq_refl) in Hl.
Qed.

Lemma put_transfer_same k t d d' : put_transfer k t d = Ok d' → same_days d d'.
Proof. unfold put_transfer. intros H. inv_res. by split_and!. Qed.

(** ** Days *)

Lemma put_day_inv (k : day_key) x d d' r :
  put_day k x d = Ok d' → days_inv d →
  roster d !! (month_of k.1.2, k.1.1) = Some r →
  (is_live x = true → k.2 = slot_of r (default "TL"%string (site x))) →
  (k.2 ≠ EmptyString → k.2 = default "TL"%string (site x)) →
  days_inv d' ∧ d' = set_days (<[k := x]> (days d)) d.
Proof.
  unfold put_day. intros H [I1 I2 I3 I4] Hr Hs Hk. inv_res. unfold day_check in *. bool_prop.
  assert (status x = Work → ∃ s, site x = Some s ∧ is_Some (stores d !! s)) as Hsite.
  { intros Hw. destruct (site x) as [s|] eqn:Es.
    - exists s. split; [done|]. bool_prop. destruct (stores d !! s); [by eexists|done].
    - rewrite (bool_decide_eq_true_2 (status x = Work)) in * by done. by cbn in *. }
  assert (status x = Work → ∀ k' y, days d !! k' = Some y → k' ≠ k → k'.1.2 = k.1.2 → status y = Work →
            site y ≠ site x) as Hone.
  { intros Hw k' y Hy Hne Hd Hwy Hsy. unfold other_worker, conflict_if in *. inv_res.
    rewrite (bool_decide_eq_true_2 (status x = Work)) in * by done.
    match goal with H : true && _ = false |- _ => cbn [andb] in H; pose proof (exists_row_false _ _ _ _ H Hy) as Hp end.
    cbn in Hp. rewrite (bool_decide_eq_false_2 (k' = k)), !bool_decide_eq_true_2 in Hp by done. done. }
  split; [|done]. split; cbn [set_days days roster stores].
  - intros k1 x1 k2 x2 [[<- <-]|[N1 H1]]%lookup_insert_Some [[<- <-]|[N2 H2]]%lookup_insert_Some W1 W2 Hd Hsite'.
    + done.
    + by destruct (Hone W1 k2 x2 H2 (not_eq_sym N2)).
    + by destruct (Hone W2 k1 x1 H1 (not_eq_sym N1)).
    + by eapply I1.
  - intros k' y [[<- <-]|[_ Hy]]%lookup_insert_Some; [by exists r|by apply I2].
  - intros k' y [[<- <-]|[_ Hy]]%lookup_insert_Some; [exact Hk|by apply I3].
  - intros k' y [[<- <-]|[_ Hy]]%lookup_insert_Some; [exact Hsite|by eapply I4].
Qed.

(** An accepted day with its slot. *)
Definition slotted (d : db) (xs : day_input * string) : Prop :=
  site_code xs.1 ≠ EmptyString ∧
  ∃ r, roster d !! (month_of (work_date xs.1), agent_code xs.1) = Some r ∧ xs.2 = slot_of r (site_code xs.1).

Lemma check_days_slotted seen xs d l :
  check_days seen xs d = Ok l → Forall (λ x, site_code x ≠ EmptyString) xs →
  Forall (slotted d) l ∧ l.*1 = xs.
Proof.
  revert seen l. induction xs as [|x xs IH]; intros seen l H Hs; cbn in H; [injection H as <-; by split|].
  destruct (roster d !! _) as [r|] eqn:Hr; [|done].
  apply bind_Ok in H as ([] & _ & H). apply bind_Ok in H as ([] & _ & H).
  apply bind_Ok in H as (rest & Hrest & [= <-]). apply Forall_cons in Hs as [Hx Hs].
  destruct (IH _ _ Hrest Hs) as [IH1 IH2]. split; [|cbn; congruence]. constructor; [|done].
  split; [done|]. by exists r.
Qed.

Lemma slotted_roster d d' xs : roster d' = roster d → slotted d xs → slotted d' xs.
Proof. unfold slotted. by intros ->. Qed.

(** Nothing but days changed, or closures went. *)
Definition released (d d' : db) : Prop :=
  roster d' = roster d ∧ stores d' = stores d ∧
  (∀ k, closures d !! k = None → closures d' !! k = None) ∧
  (∀ k n, closures d' !! k = Some n → closures d !! k = Some n).

Lemma release_day_inv d xs d' :
  slotted d xs → release_day d xs = Ok d' → inv d →
  inv d' ∧ released d d' ∧
  (new_status xs.1 = Work → closures d' !! (work_date xs.1, site_code xs.1) = None).
Proof.
  destruct xs as [x slot]. intros [Hne (r & Hr & Hsl)] H [I Ic]. cbn [fst snd] in *. unfold release_day in H.
  set (d1 := if bool_decide (new_status x = Work) then _ else d) in H.
  assert (days_inv d1 ∧ days d1 = days d ∧ roster d1 = roster d ∧ released d d1 ∧
          (new_status x = Work → closures d1 !! (work_date x, site_code x) = None)) as (I1 & Ed & Er & Hrel & Hcl).
  { subst d1. destruct I. case_bool_decide; (split_and!; [by split|done|done| |]).
    - split_and!; [done|done|..]; cbn.
      + intros k Hk. by apply lookup_delete_None; right.
      + by intros k n [_ Hk]%lookup_delete_Some.
    - intros _. cbn. by rewrite lookup_delete_eq.
    - by split_and!.
    - done. }
  assert (no_worker_when_closed d1) as Ic1.
  { intros on s n k y Hc. rewrite Ed. apply Hrel in Hc. by eapply Ic. }
  clearbody d1. destruct (days d1 !! (agent_code x, work_date x, slot)) as [y|] eqn:Hy.
  2: { injection H as <-. by split_and!. }
  unfold update_day, allocation_site in H. cbn [fst snd site] in H. rewrite Er, Hr in H. cbn in H.
  assert (slot_of r (default "TL"%string (site y)) = slot) as Es.
  { subst slot. unfold slot_of in *. destruct (home r); [done|]. symmetry.
    apply (di_slot _ I1 _ _ Hy). done. }
  rewrite Es, bool_decide_eq_true_2 in H by done.
  destruct (put_day_inv _ _ _ _ r H I1) as [I' ->].
  - cbn. by rewrite Er.
  - done.
  - cbn. intros Hn. by apply (di_slot _ I1 _ _ Hy).
  - split_and!; [split; [done|]|done|done].
    intros on s n k z Hc Hz. cbn [set_days days] in Hz.
    apply lookup_insert_Some in Hz as [[<- <-]|[_ Hz]]; [done|]. by eapply Ic1.
Qed.

Lemma released_trans d1 d2 d3 : released d1 d2 → released d2 d3 → released d1 d3.
Proof. intros (A1 & A2 & A3 & A4) (B1 & B2 & B3 & B4). split_and!; [congruence|congruence|auto|auto]. Qed.

Lemma release_all_inv d l d' :
  Forall (slotted d) l → foldR release_day d l = Ok d' → inv d →
  inv d' ∧ released d d' ∧
  (∀ xs, xs ∈ l → new_status xs.1 = Work → closures d' !! (work_date xs.1, site_code xs.1) = None).
Proof.
  intros Hl H Hi.
  set (I (pre : list (day_input * string)) (t : db) := inv t ∧ released d t ∧
    ∀ xs, xs ∈ pre → new_status xs.1 = Work → closures t !! (work_date xs.1, site_code xs.1) = None).
  revert Hl. cut (Forall (slotted d) l → ∀ pre t, I pre t → foldR release_day t l = Ok d' → I (pre ++ l) d').
  { intros C Hl. apply (C Hl [] d); [|done]. split_and!; [done|by split_and!|by intros xs ?%elem_of_nil]. }
  clear H. induction l as [|xs l IH]; intros Hl pre t Ht H; cbn in H; [injection H as <-; by rewrite app_nil_r|].
  apply Forall_cons in Hl as [Hx Hl]. apply bind_Ok in H as (t1 & Ht1 & H). destruct Ht as (T1 & T2 & T3).
  destruct (release_day_inv t xs t1) as (U1 & U2 & U3); [|done..|].
  { eapply slotted_roster; [|exact Hx]. apply T2. }
  rewrite cons_middle, app_assoc. eapply IH; [done| |done]. split_and!; [done|by eapply released_trans|].
  intros ys [Hys|Hys%list_elem_of_singleton]%elem_of_app Hw; [|subst ys; by apply U3]. apply U2. by apply T3.
Qed.

Lemma upsert_day_inv d xs d' :
  slotted d xs → (new_status xs.1 = Work → closures d !! (work_date xs.1, site_code xs.1) = None) →
  upsert_day d xs = Ok d' → inv d → inv d' ∧ roster d' = roster d ∧ closures d' = closures d ∧ stores d' = stores d.
Proof.
  destruct xs as [x slot]. intros [Hne (r & Hr & _)] Hcl H [I Ic]. cbn [fst] in *. unfold upsert_day in H. cbn [fst] in H.
  unfold allocation_site in H. rewrite Hr in H. apply bind_Ok in H as (slot' & [= <-] & H).
  assert (default "TL"%string (stored_site (site_code x)) = site_code x) as Es.
  { unfold stored_site. by case_bool_decide. }
  rewrite Es in H. destruct (put_day_inv _ _ _ _ r H I) as [I' ->].
  - done.
  - cbn [site fst snd]. by rewrite Es.
  - cbn [site fst snd]. rewrite Es. unfold slot_of. by destruct (home r).
  - split_and!; [split; [done|]|done|done|done].
    intros on s n k z Hc Hz. cbn [set_days days] in Hz.
    apply lookup_insert_Some in Hz as [[<- <-]|[_ Hz]]; [|by eapply Ic].
    cbn [status site fst snd]. intros Hw <-. unfold stored_site. case_bool_decide; [done|]. intros [= <-].
    cbn in Hc. by rewrite (Hcl Hw) in Hc.
Qed.

Lemma upsert_all_inv d l d' :
  Forall (slotted d) l →
  (∀ xs, xs ∈ l → new_status xs.1 = Work → closures d !! (work_date xs.1, site_code xs.1) = None) →
  foldR upsert_day d l = Ok d' → inv d → inv d'.
Proof.
  revert d. induction l as [|xs l IH]; intros d Hl Hcl H Hi; cbn in H; [by injection H as <-|].
  apply Forall_cons in Hl as [Hx Hl]. apply bind_Ok in H as (t & Ht & H).
  destruct (upsert_day_inv d xs t) as (T1 & T2 & T3 & _); [done| |done..|]; [apply Hcl; by left|].
  apply (IH t); [|by rewrite T3; intros ys Hys; apply Hcl; right|done|done].
  eapply Forall_impl; [exact Hl|]. intros ys. by apply slotted_roster.
Qed.

(** ** Closures *)

Lemma save_closure_inv d c d' : save_closure d c = Ok d' → inv d → inv d'.
Proof.
  intros H [I Ic]. unfold save_closure in H. apply bind_Ok in H as (reg & _ & H).
  apply bind_Ok in H as ([] & Hw%raise_if_Ok & H).
  assert (∀ n, c_closed c = true → no_worker_when_closed (set_closures (<[(c_date c, c_site c) := n]> (closures d)) d)) as Hins.
  { intros n Hc on s n' k x Hk. cbn [set_closures closures days] in *.
    apply lookup_insert_Some in Hk as [[[= <- <-] _]|[_ Hk]]; [|by eapply Ic].
    intros Hx Hs Hd Hsite. rewrite Hc in Hw. cbn [andb] in Hw.
    pose proof (exists_row_false _ _ _ _ Hw Hx) as Hp. cbn in Hp.
    rewrite Hd, Hsite, !bool_decide_eq_true_2 in Hp by done. done. }
  assert (∀ k, no_worker_when_closed (set_closures (delete k (closures d)) d)) as Hdel.
  { intros k on s n k' x Hk. cbn [set_closures closures days] in *. apply lookup_delete_Some in Hk as [_ Hk].
    by eapply Ic. }
  destruct I. destruct (closures d !! _) as [n|]; destruct (c_closed c); try done.
  - apply bind_Ok in H as ([] & _ & [= <-]). split; [by split|by apply Hins].
  - apply bind_Ok in H as ([] & _ & [= <-]). split; [by split|by apply Hdel].
  - injection H as <-. split; [by split|by apply Hins].
Qed.

Lemma save_closures_inv cs d d' : save_closures_in_transaction cs d = Ok d' → inv d → inv d'.
Proof.
  unfold save_closures_in_transaction. intros H Hi.
  apply (foldR_inv (λ _ t, inv t) save_closure _ _ _ (λ _ c t t' Ht Hc, save_closure_inv t c t' Hc Ht) Hi H).
Qed.

Lemma save_days_inv xs cs d d' :
  Forall (λ x, site_code x ≠ EmptyString) xs → save_days xs cs d = Ok d' → inv d → inv d'.
Proof.
  intros Hs H Hi. unfold save_days in H. apply bind_Ok in H as (l & Hl & H).
  apply bind_Ok in H as (d1 & H1 & H). apply bind_Ok in H as (d2 & H2 & H).
  apply check_days_slotted in Hl as [Hl _]; [|by rewrite sorted_by_perm].
  destruct (release_all_inv _ _ _ Hl H1 Hi) as (I1 & R1 & C1).
  eapply save_closures_inv; [exact H|]. eapply upsert_all_inv; [|exact C1|exact H2|exact I1].
  eapply Forall_impl; [exact Hl|]. intros x. apply slotted_roster, R1.
Qed.

Lemma changes_ok_sites xs cs : changes_ok xs cs = true → Forall (λ x, site_code x ≠ EmptyString) xs.
Proof.
  unfold changes_ok. intros Hok. split_bools. apply Forall_forall. intros x Hx.
  match goal with Hf : forallb day_input_ok xs = true |- _ =>
    rewrite forallb_forall in Hf; apply list_elem_of_In in Hx; apply Hf in Hx end.
  unfold day_input_ok in Hx. split_bools. by bool_prop.
Qed.

(** ** Every edit *)

Lemma same_days_refl d : same_days d d.
Proof. by split_and!. Qed.

Lemma put_roster_same_home k r d d' :
  put_roster k r d = Ok d' → (∀ r0, roster d !! k = Some r0 → home r = home r0) → inv d → inv d'.
Proof. intros H Hh Hi. eapply put_roster_inv; [done..|]. intros r0 Hr. left. by apply Hh. Qed.

Lemma move_agent_inv m s from act sel c d agent d' :
  move_agent m s from act sel c d agent = Ok d' → inv d → inv d'.
Proof.
  unfold move_agent. intros H Hi. destruct (entry_for agent c) as [e|].
  - case_bool_decide; [by injection H as <-|]. apply bind_Ok in H as ([] & _ & H).
    apply bind_Ok in H as (d1 & H1 & H). pose proof (put_transfer_same _ _ _ _ H1) as S.
    destruct (roster d1 !! (m, agent)) as [r|] eqn:Hr; [|injection H as <-; by eapply same_days_inv].
    eapply put_roster_same_home; [exact H| |by eapply same_days_inv].
    intros r0 Hr0. rewrite Hr in Hr0. by injection Hr0 as <-.
  - apply bind_Ok in H as ([] & Hn%raise_if_Ok & H). bool_prop.
    apply bind_Ok in H as (d1 & H1 & H). apply bind_Ok in H as (d2 & H2 & H). apply bind_Ok in H as (d3 & H3 & H).
    assert (inv d1) as I1 by (eapply put_roster_inv; [done..|]; intros r0 Hr0; congruence).
    assert (roster d1 !! (m, agent) = Some (RosterRow (Some s) true None 1)) as R1.
    { unfold put_roster in H1. destruct (roster_check _ _); [|done]. injection H1 as <-. cbn. by rewrite lookup_insert_eq. }
    assert (same_days d1 d2) as S2.
    { destruct (date_ltb _ _); [by eapply put_transfer_same|injection H2 as <-; apply same_days_refl]. }
    pose proof (put_transfer_same _ _ _ _ H3) as S3.
    eapply put_roster_same_home; [exact H| |by eapply same_days_inv, same_days_inv].
    destruct S2 as (_ & E2 & _), S3 as (_ & E3 & _). intros r0. rewrite E3, E2, R1. by intros [= <-].
Qed.

Lemma save_roster_inv m a h act n reg d x d' :
  save_roster m a h act n reg d = Ok (x, d') → inv d → inv d'.
Proof.
  unfold save_roster. intros H Hi. apply bind_Ok in H as ([] & _ & H). apply bind_Ok in H as ([] & _ & H).
  apply bind_Ok in H as ([] & Hc & H). apply bind_Ok in H as (d1 & H1 & [= _ <-]).
  eapply put_roster_inv; [done..|]. cbn [fst snd home]. intros r0 Hr0.
  destruct (decide (home r0 = stored_home h)) as [Eh|Hne]; [left; by rewrite Eh|right].
  unfold _validate_roster_changes in Hc. rewrite Hr0 in Hc. apply bind_Ok in Hc as ([] & _ & Hc%raise_if_Ok).
  by rewrite (bool_decide_eq_false_2 (home r0 = stored_home h)) in Hc.
Qed.

Lemma save_transfer_inv m a h from act n d d' : save_transfer m a h from act n d = Ok d' → inv d → inv d'.
Proof.
  unfold save_transfer. intros H Hi. apply bind_Ok in H as ([] & _ & H).
  destruct (roster d !! (m, a)) as [r|] eqn:Hr; [|done].
  apply bind_Ok in H as ([] & _ & H). apply bind_Ok in H as ([] & _ & H). apply bind_Ok in H as (reg & _ & H).
  apply bind_Ok in H as (d1 & H1 & H). pose proof (put_transfer_same _ _ _ _ H1) as S.
  eapply put_roster_same_home; [exact H| |by eapply same_days_inv].
  destruct S as (_ & -> & _). intros r0. rewrite Hr. by intros [= <-].
Qed.

Lemma snd_Ok {E A B} (m : res E (A * B)) b : snd <$> m = Ok b → ∃ a, m = Ok (a, b).
Proof. destruct m as [[a b']|]; [|done]. intros [= <-]. by exists a. Qed.

Section Steps.
Context (projection_revision : calendar → string) (candidates : db → month_key → list string).

Lemma handle_inv k d d' : handle projection_revision candidates k d = Ok d' → inv d → inv d'.
Proof.
  intros H Hi. destruct k as [m a h act n reg|m xs cs|m cs|m s h n|m a h from act n|m s p from act sha|m a v n|m a u o n|m a t n];
    cbn [handle] in H.
  - apply bind_Ok in H as ([] & _ & H). apply snd_Ok in H as [x H]. by eapply save_roster_inv.
  - apply bind_Ok in H as ([] & Hok%raise_if_Ok & H). bool_prop.
    assert (Forall (λ x, site_code x ≠ EmptyString) xs) as Hs by by eapply changes_ok_sites.
    destruct xs as [|x xs]; [by eapply save_closures_inv|].
    eapply save_days_inv; [exact Hs|exact H|exact Hi].
  - apply bind_Ok in H as ([] & _ & H). by eapply save_closures_inv.
  - apply snd_Ok in H as [x H]. unfold save_hours in H. do 3 (apply bind_Ok in H as (? & _ & H)).
    injection H as _ <-. by apply (same_days_inv d); [split_and!|].
  - by eapply save_transfer_inv.
  - unfold save_store_team in H. apply bind_Ok in H as ([] & _ & H). apply bind_Ok in H as ([] & _ & H).
    apply bind_Ok in H as (reg & _ & H). apply bind_Ok in H as (out & _ & H).
    apply (foldR_inv (λ _ t, inv t) _ _ _ _ (λ _ c t t' Ht Hc, move_agent_inv _ _ _ _ _ _ t c t' Hc Ht) Hi H).
  - apply snd_Ok in H as [x H]. unfold save_compensation in H. apply bind_Ok in H as (? & _ & H).
    destruct (roster d !! _); [|done]. do 3 (apply bind_Ok in H as (? & _ & H)).
    injection H as _ <-. by apply (same_days_inv d); [split_and!|].
  - apply snd_Ok in H as [x H]. unfold save_epay in H. apply bind_Ok in H as (? & _ & H).
    destruct (roster d !! _); [|done]. do 2 (apply bind_Ok in H as (? & _ & H)).
    injection H as _ <-. by apply (same_days_inv d); [split_and!|].
  - apply snd_Ok in H as [x H]. unfold save_target in H. apply bind_Ok in H as (? & _ & H).
    destruct (roster d !! _); [|done]. do 4 (apply bind_Ok in H as (? & _ & H)).
    injection H as _ <-. by apply (same_days_inv d); [split_and!|].
Qed.

Lemma calendar_step_inv d d' : step projection_revision candidates d d' → inv d → inv d'.
Proof.
  intros [k d0 d1 H|ss d0 Hs]; [by eapply handle_inv|]. intros [[I1 I2 I3 I4] I5].
  split; [|exact I5]. split; [exact I1|exact I2|exact I3|]. cbn [days stores].
  intros k x Hx Hw. destruct (I4 k x Hx Hw) as (s & Es & Hex). exists s. split; [done|by apply Hs].
Qed.

Lemma calendar_reachable_inv d : reachable projection_revision candidates d → inv d.
Proof.
  unfold reachable. intros H. cut (inv empty_db); [|apply calendar_empty_inv].
  induction H as [|x y z S _ IH]; [done|]. intros Hx. by eapply IH, calendar_step_inv.
Qed.

(** C25: in every reachable calendar a store has at most one worker a day, a closed
    day none; an agent with a store has at most one scheduled day a date; scheduled
    days belong to the roster of their month, and work to a store. *)
Theorem calendar_invariant d :
  reachable projection_revision candidates d →
  (∀ k1 x1 k2 x2, days d !! k1 = Some x1 → days d !! k2 = Some x2 → status x1 = Work → status x2 = Work →
     k1.1.2 = k2.1.2 → site x1 = site x2 → k1 = k2) ∧
  (∀ on s n k x, closures d !! (on, s) = Some n → days d !! k = Some x → status x = Work → k.1.2 = on →
     site x ≠ Some s) ∧
  (∀ k1 x1 k2 x2 r, days d !! k1 = Some x1 → days d !! k2 = Some x2 → is_live x1 = true → is_live x2 = true →
     k1.1 = k2.1 → roster d !! (month_of k1.1.2, k1.1.1) = Some r → home r ≠ None → k1 = k2) ∧
  (∀ k x, days d !! k = Some x → ∃ r, roster d !! (month_of k.1.2, k.1.1) = Some r) ∧
  (∀ k x, days d !! k = Some x → status x = Work → ∃ s, site x = Some s ∧ is_Some (stores d !! s)).
Proof.
  intros [[I1 I2 I3 I4] I5]%calendar_reachable_inv. split_and!; [exact I1|exact I5| | |exact I4].
  - intros [k1 s1] x1 [k2 s2] x2 r H1 H2 L1 L2 Hk Hr Hh. cbn in Hk, Hr. subst k2.
    destruct (I2 _ _ H1) as (r1 & Hr1 & E1), (I2 _ _ H2) as (r2 & Hr2 & E2). cbn in *.
    assert (r1 = r) as -> by congruence. assert (r2 = r) as -> by congruence.
    rewrite (E1 L1), (E2 L2). unfold slot_of. by destruct (home r).
  - intros k x Hx. destruct (I2 _ _ Hx) as (r & Hr & _). by exists r.
Qed.
End Steps.
End CalendarInv.
