(* ===== verification/GrileCalendarSpec.v ===== *)
(** Edits of the calendar are never lost: every edit names the revision it was made
    against, a revision only grows, so of two edits against one revision the later is
    refused. *)

From S2P Require Import Prelude Text Grile GrileCalendar GrileCalendarInv.
Import Calendar CalendarInv.

Local Open Scope Z_scope.

Module CalendarSpec.

(** What an edit changes, with the revision it expects. *)
Inductive object :=
| ORoster (k : month_key * string)
| ODay (k : day_key)
| OHours (k : month_key * string)
| OPay (k : month_key * string)
| OTarget (k : month_key * string).

#[local] Instance object_eq : EqDecision object.
Proof. solve_decision. Defined.

Definition rev (o : object) (d : db) : Z :=
  match o with
  | ORoster k => revision_of revision (roster d !! k)
  | ODay k => revision_of day_revision (days d !! k)
  | OHours k => revision_of hours_revision (store_hours d !! k)
  | OPay k => revision_of compensation_revision (compensation d !! k)
  | OTarget k => revision_of target_revision (targets d !! k)
  end.

Definition edited_day (d : db) (x : day_input) : option (object * Z) :=
  (λ r, (ODay (agent_code x, work_date x, slot_of r (site_code x)), expected_revision x))
    <$> roster d !! (month_of (work_date x), agent_code x).

Definition edits (k : call) (d : db) : list (object * Z) :=
  match k with
  | SaveRoster m a _ _ n _ | SaveTransfer m a _ _ _ n => [(ORoster (m, a), n)]
  | SaveDays _ xs _ => omap (edited_day d) xs
  | SaveHours m s _ n => [(OHours (m, s), n)]
  | SaveCompensation m a _ n | SaveEpay m a _ _ n => [(OPay (m, a), n)]
  | SaveTarget m a _ n => [(OTarget (m, a), n)]
  | SaveStoreTeam _ _ _ _ _ _ | SaveClosures _ _ => []
  end.

(** No revision went back. *)
Definition grows (d d' : db) : Prop := ∀ o, rev o d <= rev o d'.

Lemma grows_refl d : grows d d.
Proof. intros o. lia. Qed.
Lemma grows_trans d1 d2 d3 : grows d1 d2 → grows d2 d3 → grows d1 d3.
Proof. intros H1 H2 o. etrans; [apply H1|apply H2]. Qed.

Lemma put_roster_rev k r d d' :
  put_roster k r d = Ok d' → rev (ORoster k) d <= revision r → grows d d' ∧ rev (ORoster k) d' = revision r.
Proof.
  unfold put_roster. destruct (roster_check _ _); [|done]. intros [= <-] Hr. cbn. rewrite lookup_insert_eq. split; [|done].
  intros [k'| | | |]; cbn in *; [|lia..]. destruct (decide (k = k')) as [<-|Hne]; [by rewrite lookup_insert_eq|].
  rewrite lookup_insert_ne; [lia|done].
Qed.

Lemma put_transfer_rev k t d d' o : put_transfer k t d = Ok d' → rev o d' = rev o d.
Proof. unfold put_transfer. intros H. inv_res. by destruct o. Qed.

(** ** Days *)

Definition key_of (xs : day_input * string) : day_key := (agent_code xs.1, work_date xs.1, xs.2).

Lemma put_day_rev k x d d' :
  put_day k x d = Ok d' → ∀ o, rev o d' = (if decide (o = ODay k) then day_revision x else rev o d).
Proof.
  unfold put_day. intros H. inv_res. intros [k'|k'|k'|k'|k']; case_decide as E; try done; cbn in *.
  - injection E as ->. by rewrite lookup_insert_eq.
  - rewrite lookup_insert_ne; [done|]. by intros ->.
Qed.

Lemma release_day_rev d xs d' o :
  slotted d xs → release_day d xs = Ok d' → inv d → rev o d' = rev o d.
Proof.
  destruct xs as [x slot]. intros [Hne (r & Hr & Hsl)] H [I _]. cbn [fst snd] in *. unfold release_day in H.
  set (d1 := if bool_decide (new_status x = Work) then _ else d) in H.
  assert (days d1 = days d ∧ roster d1 = roster d ∧ ∀ o, rev o d1 = rev o d) as (Ed & Er & Eo).
  { subst d1. case_bool_decide; [|by split_and!]. split_and!; [done|done|]. by intros []. }
  clearbody d1. rewrite <- Eo. rewrite Ed in H.
  destruct (days d !! (agent_code x, work_date x, slot)) as [y|] eqn:Hy; [|by injection H as <-].
  unfold update_day, allocation_site in H. cbn [fst snd site] in H. rewrite Er, Hr in H. cbn in H.
  assert (slot_of r (default "TL"%string (site y)) = slot) as Es.
  { subst slot. unfold slot_of in *. destruct (home r); [done|]. symmetry. by apply (di_slot _ I _ _ Hy). }
  rewrite Es, bool_decide_eq_true_2 in H by done. rewrite (put_day_rev _ _ _ _ H).
  case_decide as E; [|done]. subst o. cbn. by rewrite Ed, Hy.
Qed.

Lemma release_all_rev l : ∀ d d',
  Forall (slotted d) l → foldR release_day d l = Ok d' → inv d → ∀ o, rev o d' = rev o d.
Proof.
  induction l as [|xs l IH]; intros d d' Hl H Hi o; cbn in H; [by injection H as <-|].
  apply Forall_cons in Hl as [Hx Hl]. apply bind_Ok in H as (d1 & H1 & H).
  destruct (release_day_inv _ _ _ Hx H1 Hi) as (I1 & R1 & _).
  rewrite (IH d1 d'); [by eapply release_day_rev| |done|done].
  eapply Forall_impl; [exact Hl|]. intros ys. apply slotted_roster, R1.
Qed.

Lemma upsert_day_rev d xs d' o :
  slotted d xs → upsert_day d xs = Ok d' →
  rev o d' = (if decide (o = ODay (key_of xs)) then rev o d + 1 else rev o d) ∧ roster d' = roster d.
Proof.
  destruct xs as [x slot]. intros [Hne (r & Hr & Hsl)] H. cbn [fst snd] in *. unfold upsert_day in H. cbn [fst] in H.
  unfold allocation_site in H. rewrite Hr in H. apply bind_Ok in H as (slot' & [= <-] & H).
  assert (default "TL"%string (stored_site (site_code x)) = site_code x) as Es.
  { unfold stored_site. by case_bool_decide. }
  rewrite Es, <- Hsl in H. rewrite (put_day_rev _ _ _ _ H). unfold key_of. cbn [fst snd].
  split; [case_decide as E; [by subst o|done]|]. unfold put_day in H. by inv_res.
Qed.

Lemma upsert_all_rev l : ∀ d d',
  Forall (slotted d) l → foldR upsert_day d l = Ok d' →
  grows d d' ∧ ∀ xs, xs ∈ l → rev (ODay (key_of xs)) d + 1 <= rev (ODay (key_of xs)) d'.
Proof.
  induction l as [|xs l IH]; intros d d' Hl H; cbn in H.
  { injection H as <-. split; [apply grows_refl|by intros xs ?%elem_of_nil]. }
  apply Forall_cons in Hl as [Hx Hl]. apply bind_Ok in H as (d1 & H1 & H).
  assert (∀ o, rev o d1 = (if decide (o = ODay (key_of xs)) then rev o d + 1 else rev o d)) as E1
    by (intros o; by eapply upsert_day_rev).
  assert (grows d d1) as G1 by (intros o; rewrite E1; case_decide; lia).
  destruct (IH d1 d') as [G2 H2]; [|done|].
  { eapply Forall_impl; [exact Hl|]. intros ys. apply slotted_roster.
    by eapply (upsert_day_rev d xs d1 (ORoster (1, 1, EmptyString))). }
  split; [by eapply grows_trans|]. intros ys [->|Hys]%elem_of_cons.
  - specialize (G2 (ODay (key_of xs))). rewrite E1, decide_True in G2 by done. done.
  - specialize (H2 ys Hys). specialize (G1 (ODay (key_of ys))). lia.
Qed.

Lemma check_days_fenced seen xs d l :
  check_days seen xs d = Ok l →
  Forall (λ xs, rev (ODay (key_of xs)) d = expected_revision xs.1) l.
Proof.
  revert seen l. induction xs as [|x xs IH]; intros seen l H; cbn in H; [by injection H as <-|].
  destruct (roster d !! _) as [r|] eqn:Hr; [|done].
  apply bind_Ok in H as ([] & _ & H). apply bind_Ok in H as ([] & Hv & H).
  apply bind_Ok in H as (rest & Hrest & [= <-]). constructor; [|by eapply IH].
  unfold _validate_day in Hv. apply bind_Ok in Hv as ([] & He%raise_if_Ok & _). by bool_prop.
Qed.

Lemma save_closures_rev cs d d' o : save_closures_in_transaction cs d = Ok d' → rev o d' = rev o d.
Proof.
  unfold save_closures_in_transaction. intros H.
  apply (foldR_inv (λ _ t, rev o t = rev o d) save_closure (sorted_by closure_leb cs) d); [|done|exact H].
  intros _ c t t' Ht Hc. rewrite <- Ht. unfold save_closure in Hc.
  apply bind_Ok in Hc as (reg & _ & Hc). apply bind_Ok in Hc as ([] & _ & Hc).
  destruct (closures t !! _), (c_closed c); try done; repeat (apply bind_Ok in Hc as ([] & _ & Hc));
    injection Hc as <-; by destruct o.
Qed.

Lemma elem_of_edits o n (xs : list day_input) d :
  (o, n) ∈ omap (edited_day d) xs ↔
  ∃ x r, x ∈ xs ∧ roster d !! (month_of (work_date x), agent_code x) = Some r ∧
         o = ODay (agent_code x, work_date x, slot_of r (site_code x)) ∧ n = expected_revision x.
Proof.
  rewrite list_elem_of_omap. split.
  - intros (x & Hx & He). unfold edited_day in He. destruct (roster d !! _) as [r|] eqn:Hr; [|done].
    injection He as <- <-. by exists x, r.
  - intros (x & r & Hx & Hr & -> & ->). exists x. split; [done|]. unfold edited_day. by rewrite Hr.
Qed.

Lemma save_days_rev xs cs d d' :
  Forall (λ x, site_code x ≠ EmptyString) xs → save_days xs cs d = Ok d' → inv d →
  grows d d' ∧ ∀ o n, (o, n) ∈ omap (edited_day d) xs → rev o d = n ∧ n + 1 <= rev o d'.
Proof.
  intros Hs H Hi. unfold save_days in H. apply bind_Ok in H as (l & Hl & H).
  apply bind_Ok in H as (d1 & H1 & H). apply bind_Ok in H as (d2 & H2 & H).
  pose proof (check_days_fenced _ _ _ _ Hl) as Hf.
  apply check_days_slotted in Hl as [Hsl El]; [|by rewrite sorted_by_perm].
  destruct (release_all_inv _ _ _ Hsl H1 Hi) as (I1 & R1 & _).
  assert (∀ o, rev o d1 = rev o d) as E1 by (intros o; by eapply release_all_rev).
  destruct (upsert_all_rev l d1 d2) as [G2 U2]; [|done|].
  { eapply Forall_impl; [exact Hsl|]. intros x. apply slotted_roster, R1. }
  assert (∀ o, rev o d' = rev o d2) as E3 by (intros o; by eapply save_closures_rev).
  split; [intros o; rewrite E3, <- E1; apply G2|].
  intros o n (x & r & Hx & Hr & -> & ->)%elem_of_edits.
  assert (x ∈ l.*1) as (ys & -> & Hys)%list_elem_of_fmap by by rewrite El, sorted_by_perm.
  rewrite Forall_forall in Hf, Hsl. specialize (Hf ys Hys). destruct (Hsl ys Hys) as [_ (r' & Hr' & Hsl')].
  assert (r' = r) as -> by congruence. rewrite <- Hsl'. change (agent_code ys.1, work_date ys.1, ys.2) with (key_of ys).
  split; [done|]. rewrite E3. specialize (U2 ys Hys). rewrite E1, Hf in U2. done.
Qed.

(** ** The roster, transfers and pairs of a store *)

Lemma put_transfer_roster k t d d' : put_transfer k t d = Ok d' → roster d' = roster d.
Proof. intros H. by apply put_transfer_same in H as (_ & ? & _). Qed.

Lemma entry_for_revision agent m d e :
  entry_for agent (read_on_connection m d) = Some e → rev (ORoster (m, agent)) d = e_revision e.
Proof.
  unfold entry_for. intros [Hin Ha]%find_some. apply bool_decide_eq_true in Ha. subst agent.
  apply list_elem_of_In, list_elem_of_fmap in Hin as ([a r] & -> & Hin).
  unfold roster_of in Hin. rewrite sorted_by_perm in Hin.
  apply list_elem_of_omap in Hin as ([[m' a'] r'] & Hr & He). cbn in He. case_bool_decide; [|done].
  injection He as -> ->. subst m'. apply elem_of_map_to_list in Hr. cbn. by rewrite Hr.
Qed.

(** Whatever the moves before it did, a move leaves no revision under the first database's. *)
Lemma move_agent_rev m s from act sel d0 d agent d' :
  move_agent m s from act sel (read_on_connection m d0) d agent = Ok d' → grows d0 d → grows d0 d'.
Proof.
  unfold move_agent. intros H G. destruct (entry_for agent _) as [e|] eqn:He.
  - apply entry_for_revision in He. case_bool_decide; [by injection H as <-|]. apply bind_Ok in H as ([] & _ & H).
    apply bind_Ok in H as (d1 & H1 & H).
    assert (grows d0 d1) as G1 by (intros o; rewrite (put_transfer_rev _ _ _ _ _ H1); apply G).
    destruct (roster d1 !! (m, agent)) as [r|]; [|by injection H as <-].
    unfold put_roster in H. destruct (roster_check _ _); [|done]. injection H as <-.
    intros [k| | | |]; [|apply G1..]. destruct (decide (k = (m, agent))) as [->|Hne].
    + rewrite He. cbn. rewrite lookup_insert_eq. cbn. lia.
    + specialize (G1 (ORoster k)). cbn in *. by rewrite lookup_insert_ne.
  - apply bind_Ok in H as ([] & Hn%raise_if_Ok & H). bool_prop.
    apply bind_Ok in H as (d1 & H1 & H). apply bind_Ok in H as (d2 & H2 & H). apply bind_Ok in H as (d3 & H3 & H).
    destruct (put_roster_rev _ _ _ _ H1) as [G1 E1]; [cbn; rewrite Hn; cbn; lia|].
    assert (∀ o, rev o d2 = rev o d1) as E2.
    { intros o. destruct (date_ltb _ _); [by eapply put_transfer_rev|by injection H2 as <-]. }
    assert (∀ o, rev o d3 = rev o d1) as E3 by (intros o; rewrite <- E2; by eapply put_transfer_rev).
    destruct (put_roster_rev _ _ _ _ H) as [G3 _]; [rewrite E3, E1; cbn; lia|].
    intros o. etrans; [apply G|]. etrans; [apply G1|]. rewrite <- E3. apply G3.
Qed.

Lemma insert_rev_singleton (o0 : object) n d d' :
  rev o0 d = n → rev o0 d' = n + 1 → (∀ o, o ≠ o0 → rev o d' = rev o d) →
  grows d d' ∧ ∀ o k, (o, k) ∈ [(o0, n)] → rev o d = k ∧ k + 1 <= rev o d'.
Proof.
  intros H1 H2 H3. split.
  - intros o. destruct (decide (o = o0)) as [->|Hne]; [lia|by rewrite H3].
  - intros o k [= -> ->]%list_elem_of_singleton. split; [done|lia].
Qed.

Lemma put_roster_fenced k r n d d' d'' :
  put_roster k r d' = Ok d'' → rev (ORoster k) d = n → (∀ o, rev o d' = rev o d) → revision r = n + 1 →
  grows d d'' ∧ ∀ o i, (o, i) ∈ [(ORoster k, n)] → rev o d = i ∧ i + 1 <= rev o d''.
Proof.
  intros H Hn E Hr. apply insert_rev_singleton; [done|..].
  - destruct (put_roster_rev _ _ _ _ H) as [_ ->]; [rewrite E; lia|done].
  - intros o Ho. rewrite <- E. unfold put_roster in H. destruct (roster_check _ _); [|done]. injection H as <-.
    destruct o as [k'| | | |]; try done. cbn. rewrite lookup_insert_ne; [done|]. by intros ->.
Qed.

Lemma put_compensation_fenced m a v n x d d' :
  (Ok (put_compensation (m, a) v d) : res calendar_error (compensation_row * db)) = Ok (x, d') → rev (OPay (m, a)) d = n →
  grows d d' ∧ ∀ o i, (o, i) ∈ [(OPay (m, a), n)] → rev o d = i ∧ i + 1 <= rev o d'.
Proof.
  intros [= <- <-] Hn. apply insert_rev_singleton; [done|..].
  - cbn. rewrite lookup_insert_eq. cbn. by rewrite <- Hn.
  - intros [| | |k|] Ho; try done. cbn. rewrite lookup_insert_ne; [done|]. by intros <-.
Qed.

Section Edits.
Context (projection_revision : calendar → string) (candidates : db → month_key → list string).
Abbreviation handle := (Calendar.handle projection_revision candidates).
Abbreviation step := (Calendar.step projection_revision candidates).
Abbreviation reachable := (Calendar.reachable projection_revision candidates).

(** An edit that goes through found the revision it names and moved it on. *)
Lemma handle_rev k d d' :
  handle k d = Ok d' → inv d →
  grows d d' ∧ ∀ o n, (o, n) ∈ edits k d → rev o d = n ∧ n + 1 <= rev o d'.
Proof.
  intros H Hi. destruct k as [m a h act n reg|m xs cs|m cs|m s h n|m a h from act n|m s p from act sha|m a v n|m a u o n|m a t n];
    cbn [handle edits] in *.
  - apply bind_Ok in H as ([] & _ & H). apply snd_Ok in H as [x H]. unfold save_roster in H.
    apply bind_Ok in H as ([] & Hf%raise_if_Ok & H). do 2 (apply bind_Ok in H as ([] & _ & H)).
    apply bind_Ok in H as (d1 & H1 & [= _ <-]). bool_prop.
    eapply put_roster_fenced; [exact H1|done|done|cbn; lia].
  - apply bind_Ok in H as ([] & Hok%raise_if_Ok & H). bool_prop.
    destruct xs as [|x xs].
    { split; [|by intros o n ?%elem_of_nil]. intros o. by rewrite (save_closures_rev _ _ _ _ H). }
    eapply save_days_rev; [|exact H|exact Hi].
    by eapply changes_ok_sites.
  - apply bind_Ok in H as ([] & _ & H). split; [|by intros o n ?%elem_of_nil].
    intros o. by rewrite (save_closures_rev _ _ _ _ H).
  - apply snd_Ok in H as [x H]. unfold save_hours in H. do 2 (apply bind_Ok in H as (? & _ & H)).
    apply bind_Ok in H as ([] & Hf%raise_if_Ok & H). bool_prop. injection H as _ <-.
    apply insert_rev_singleton; [done|..].
    + cbn. rewrite lookup_insert_eq. cbn. lia.
    + intros [| |k| |] Ho; try done. cbn. rewrite lookup_insert_ne; [done|]. by intros <-.
  - unfold save_transfer in H. apply bind_Ok in H as ([] & _ & H).
    destruct (roster d !! (m, a)) as [r|] eqn:Hr; [|done].
    apply bind_Ok in H as ([] & _ & H). apply bind_Ok in H as ([] & Hf%raise_if_Ok & H). bool_prop.
    apply bind_Ok in H as (reg & _ & H). apply bind_Ok in H as (d1 & H1 & H).
    eapply put_roster_fenced; [exact H|cbn; by rewrite Hr| |cbn; lia].
    intros o. by eapply put_transfer_rev.
  - split; [|by intros o n ?%elem_of_nil]. unfold save_store_team in H. do 4 (apply bind_Ok in H as (? & _ & H)).
    apply (foldR_inv (λ _ t, grows d t) _ _ _ _ (λ _ c t t' Ht Hc, move_agent_rev _ _ _ _ _ _ t c t' Hc Ht)
             (grows_refl d) H).
  - apply snd_Ok in H as [x H]. unfold save_compensation in H. apply bind_Ok in H as (? & _ & H).
    destruct (roster d !! _); [|done]. do 2 (apply bind_Ok in H as (? & _ & H)).
    apply bind_Ok in H as ([] & Hf%raise_if_Ok & Hp). bool_prop.
    eapply put_compensation_fenced; [exact Hp|done].
  - apply snd_Ok in H as [x H]. unfold save_epay in H. apply bind_Ok in H as (? & _ & H).
    destruct (roster d !! _); [|done]. apply bind_Ok in H as (? & _ & H).
    apply bind_Ok in H as ([] & Hf%raise_if_Ok & Hp). bool_prop.
    eapply put_compensation_fenced; [exact Hp|done].
  - apply snd_Ok in H as [x H]. unfold save_target in H. apply bind_Ok in H as (? & _ & H).
    destruct (roster d !! _); [|done]. do 2 (apply bind_Ok in H as (? & _ & H)).
    apply bind_Ok in H as ([] & Hf%raise_if_Ok & H). apply bind_Ok in H as (? & _ & H). bool_prop.
    injection H as _ <-. apply insert_rev_singleton; [done|..].
    + cbn. rewrite lookup_insert_eq. cbn. lia.
    + intros [| | | |k] Ho; try done. cbn. rewrite lookup_insert_ne; [done|]. by intros <-.
Qed.

Lemma steps_grow d d' : rtc step d d' → inv d → inv d' ∧ grows d d'.
Proof.
  induction 1 as [d|d1 d2 d3 S _ IH]; intros Hi; [split; [done|apply grows_refl]|].
  destruct IH as [I3 G]; [by eapply calendar_step_inv|]. split; [done|]. eapply grows_trans; [|exact G].
  destruct S as [k d d' H|ss d Hs]; [by eapply handle_rev|]. intros []; cbn; lia.
Qed.

(** C26: no edit of a roster, transfer, day, opening hours, pay or target is lost: once
    one made against a revision went through, every later one against the same
    revision is refused, whatever happened in between. *)
Theorem no_lost_edits k1 k2 o n d1 d2 d3 :
  reachable d1 → handle k1 d1 = Ok d2 → (o, n) ∈ edits k1 d1 →
  rtc step d2 d3 → (o, n) ∈ edits k2 d3 →
  ∀ d4, handle k2 d3 ≠ Ok d4.
Proof.
  intros Hr H1 E1 S E2 d4 H2. apply calendar_reachable_inv in Hr as I1.
  destruct (handle_rev _ _ _ H1 I1) as [_ F1]. destruct (F1 _ _ E1) as [_ Hn].
  destruct (steps_grow d2 d3 S) as [I3 G]; [by eapply handle_inv|].
  destruct (handle_rev _ _ _ H2 I3) as [_ F2]. destruct (F2 _ _ E2) as [Hn' _]. specialize (G o). lia.
Qed.
End Edits.
End CalendarSpec.

(** Runs of the calendar on concrete stores and people, the witnesses of its theorems. *)

Import CalendarSpec.


Module CalendarDemo.

Definition digest (c : calendar) : string :=
  if Nat.leb 2 (length (c_roster c)) then "two"%string else "few"%string.
Definition catalog (_ : db) (_ : month_key) : list string := ["ana"; "ion"; "mia"]%string.

Abbreviation handle := (Calendar.handle digest catalog).
Abbreviation step := (Calendar.step digest catalog).

Definition june : month_key := (2026, 6).
Definition on (n : Z) : date := Grile.Date 2026 6 n.

Definition opened : db :=
  Db {[ "PROM"%string := StoreRow true (Some "Iasi"%string) (Some "Est"%string);
        "CORA"%string := StoreRow true (Some "Bacau"%string) (Some "Est"%string);
        "SUD"%string := StoreRow true (Some "Craiova"%string) (Some "Sud"%string);
        "TRX"%string := StoreRow true (Some "TR Cluj"%string) (Some "Est"%string) ]}
     ∅ ∅ ∅ ∅ ∅ ∅ ∅ ∅.

Fixpoint run (ks : list call) (d : db) : res calendar_error db :=
  match ks with [] => Ok d | k :: ks' => d' ← handle k d; run ks' d' end.

Definition after (ks : list call) (d : db) : db := match run ks d with Ok d' => d' | Err _ => d end.

Lemma calendar_run_steps ks : ∀ d d', run ks d = Ok d' → rtc step d d'.
Proof.
  induction ks as [|k ks IH]; intros d d' H; cbn in H; [injection H as <-; apply rtc_refl|].
  apply bind_Ok in H as (d1 & H1 & H). eapply rtc_l; [by econstructor|by apply IH].
Qed.

Lemma opened_reachable : rtc step empty_db opened.
Proof. apply rtc_once. apply (StoresChange _ _ (stores opened) empty_db). intros s [r Hr]. done. Qed.

Definition day (a s : string) (n : Z) (st : day_status) (r : Z) : day_input := DayInput (on n) a s st false r.

(** Ana and Ion take the store PROM on the 10th; Tudor leads the region. *)
Definition staffed : list call :=
  [ SaveStoreTeam june "PROM" ("ana", "ion")%string (on 10) None "few";
    SaveRoster june "tudor" "TL" true 0 (Some "Est"%string);
    SaveDays june [ day "ana" "PROM" 10 Work 0; day "ion" "PROM" 11 Work 0; day "ion" "CORA" 12 Work 0;
                    day "tudor" "PROM" 12 Work 0; day "tudor" "TL" 13 Off 0 ] [];
    SaveClosures june [ClosureInput (on 20) "PROM" true 0];
    SaveHours june "PROM" (HoursRow 540 1260 30 0) 0;
    SaveTarget june "ana" (Some 5000) 0 ].

Definition june_db : db := after staffed opened.

Lemma run_staffed : run staffed opened = Ok june_db.
Proof. vm_compute. reflexivity. Qed.
Lemma june_reachable : Calendar.reachable digest catalog june_db.
Proof. unfold Calendar.reachable. etrans; [apply opened_reachable|]. exact (calendar_run_steps _ _ _ run_staffed). Qed.

(** Each member of the pair has two revisions: the entry and the move of the 10th. *)
Example june_roster :
  (λ e, (e_agent e, e_home e, e_revision e, home_on e (on 9), home_on e (on 10)))
    <$> c_roster (read_on_connection june june_db)
  = [("ana", "PROM", 2, "UNASSIGNED", "PROM"); ("ion", "PROM", 2, "UNASSIGNED", "PROM");
     ("tudor", "TL", 1, "TL", "TL")]%string.
Proof. vm_compute. reflexivity. Qed.

Example june_days :
  (λ x, (d_date x, d_agent x, d_site x, d_revision x)) <$> c_days (read_on_connection june june_db)
  = [(on 10, "ana", "PROM", 1); (on 11, "ion", "PROM", 1); (on 12, "ion", "CORA", 1);
     (on 12, "tudor", "PROM", 1); (on 13, "tudor", "TL", 1)]%string.
Proof. vm_compute. reflexivity. Qed.

(** The refusals. *)
Definition refused (k : call) : option calendar_error := match handle k june_db with Ok _ => None | Err e => Some e end.

Example refusals :
  refused <$> [ SaveDays june [day "ion" "PROM" 10 Work 0] [];
                SaveDays june [day "ana" "PROM" 9 Work 0] [];
                SaveDays june [day "ana" "SUD" 14 Work 0] [];
                SaveDays june [day "ana" "CORA" 14 Leave 0] [];
                SaveDays june [day "ana" "TRX" 14 Work 0] [];
                SaveDays june [day "tudor" "TL" 14 Work 0] [];
                SaveDays june [day "ana" "PROM" 10 CancelledDay 0] [];
                SaveClosures june [ClosureInput (on 10) "PROM" true 0];
                SaveRoster june "ana" "CORA" true 2 None;
                SaveTarget june "ana" (Some 6000) 0 ]
  = Some <$> [ CalendarConflict "A store already has an assigned agent on that day";
               CalendarConflict "Agent has no home allocation on this date; assign a store first";
               CalendarConflict "Supplemental store must be in the agent's home region";
               CalendarConflict "Only work can be assigned at another store";
               CalendarConflict "Store is not active";
               CalendarConflict "Virtual TL base accepts only Team Leader absences";
               CalendarConflict "Day revision changed; reload the calendar";
               CalendarConflict "the scheduled agent comes first";
               CalendarConflict "Agent has dated transfers; use the team transfer editor";
               CalendarConflict "the target changed; reload the grid" ].
Proof. vm_compute. reflexivity. Qed.

(** Two workers swap their stores in one edit; a day worked again reopens its store. *)
Definition swap : list call :=
  [ SaveDays june [ day "ion" "PROM" 12 Work 1; day "tudor" "PROM" 12 CancelledDay 1; day "tudor" "CORA" 12 Work 0;
                    day "ana" "PROM" 20 Work 0 ] [] ].
Example swapped :
  let d := after swap june_db in
  ((λ x, (d_date x, d_agent x, d_site x)) <$> List.filter (λ x, bool_decide (d_status x = Work)) (days_of june d),
   map_to_list (closures d))
  = ([(on 10, "ana", "PROM"); (on 11, "ion", "PROM"); (on 12, "ion", "PROM"); (on 12, "tudor", "CORA");
      (on 20, "ana", "PROM")]%string, []).
Proof. vm_compute. reflexivity. Qed.

Lemma calendar_invariant_witness :
  ∃ k x, days june_db !! k = Some x ∧ status x = Work ∧
    ∀ k' y, days june_db !! k' = Some y → status y = Work → k'.1.2 = k.1.2 → site y = site x → k' = k.
Proof.
  exists ("ion"%string, on 12, EmptyString), (DayRow (Some "CORA"%string) Work false 1).
  assert (days june_db !! ("ion"%string, on 12, EmptyString) = Some (DayRow (Some "CORA"%string) Work false 1)) as Hx
    by (vm_compute; reflexivity).
  split; [exact Hx|]. split; [reflexivity|]. intros k' y Hy Hw Hd Hs.
  destruct (calendar_invariant digest catalog june_db june_reachable) as [H _].
  exact (H _ _ _ _ Hy Hx Hw eq_refl Hd Hs).
Defined.

(** Two managers move Ion from one reading of the 12th: the second is refused. *)
Definition first_edit : call := SaveDays june [day "ion" "PROM" 13 Work 0] [].
Definition second_edit : call := SaveDays june [day "ion" "CORA" 13 Work 0] [].
Definition first_done : db := after [first_edit] june_db.
Definition later : db := after [SaveTarget june "ion" (Some 100) 0] first_done.

Lemma no_lost_edits_witness : is_ok (handle second_edit later) = false.
Proof.
  assert (∀ d, handle second_edit later ≠ Ok d) as H.
  { apply (no_lost_edits digest catalog first_edit second_edit
             (ODay ("ion"%string, on 13, EmptyString)) 0 june_db first_done later).
    - exact june_reachable.
    - vm_compute. reflexivity.
    - replace (edits first_edit june_db) with [(ODay ("ion"%string, on 13, EmptyString), 0)]
        by (vm_compute; reflexivity). by left.
    - apply (calendar_run_steps [SaveTarget june "ion" (Some 100) 0]). vm_compute. reflexivity.
    - replace (edits second_edit later) with [(ODay ("ion"%string, on 13, EmptyString), 0)]
        by (vm_compute; reflexivity). by left. }
  destruct (handle second_edit later) as [d|e] eqn:E; [destruct (H d eq_refl)|reflexivity].
Defined.
End CalendarDemo.
