(* ===== verification/GrileEarnings.v ===== *)
(** Attendance and provisional earnings of the stores' teams, projected from the
    calendar and the published sales ([grile/calendar_projection.py],
    [grile/earnings_rules.py], [grile/earnings_projection.py],
    [grile/earnings_dashboard.py], [repositories/grile_earnings.py], the readers of
    [services/grile_calendar.py]).

    Amounts are Python decimals in the default context.  The rows of the published
    sales, SIM cards, store targets, resolved agent targets and incentives come from
    queries and are data of the model. *)

From S2P Require Import Prelude Text Decimal Dict Grile GrileCalendar.

Local Open Scope Z_scope.

(** [pydantic.ValidationError] of opening hours, [KeyError], a signal of the decimal
    context, the 409 of an export. *)
Inductive projection_error := InvalidHours | KeyError | Signal (s : signal) | Changed.

(** A value that may be missing, through a function that may raise. *)
Definition opt_res {E A B} (f : A → res E B) (o : option A) : res E (option B) :=
  match o with Some a => Some <$> f a | None => Ok None end.

Module Attendance.
Import Calendar.

Record attendance := CalendarAttendance {
  a_agent : string;
  worked_minutes : Z;
  work_days : Z;
  leave_days : Z;
  off_days : Z;
  work_days_by_site : list (string * Z);
}.
Record attendance_day := AttendanceDay {
  ad_date : date;
  ad_agent : string;
  ad_site : string;
  ad_status : day_status;
  ad_minutes : Z;
  ad_opens : option Z;
  ad_closes : option Z;
  ad_break : Z;
}.

Definition no_attendance (agent : string) : attendance := CalendarAttendance agent 0 0 0 0 [].

(** [{row.site_code: row for row in hours}] *)
Definition settings_of (hours : list (string * hours_row)) : list (string * hours_row) :=
  foldl (λ s x, dput x.1 x.2 s) [] hours.

Definition hours_at (settings : list (string * hours_row)) (site : string) : hours_row :=
  default default_hours (dget site settings).

(** [StoreHours.net_minutes], which validates the row again. *)
Definition minutes_of (h : hours_row) : res projection_error Z :=
  if hours_ok h then Ok (net_minutes h) else Err InvalidHours.

Definition count_day (settings : list (string * hours_row)) (x : calendar_day) (a : attendance)
    : res projection_error attendance :=
  let '(CalendarAttendance agent minutes work leave off by_site) := a in
  match d_status x with
  | Work =>
      n ← minutes_of (hours_at settings (d_site x));
      Ok (CalendarAttendance agent (minutes + n) (work + 1) leave off (dadd_to (d_site x) 1 by_site))
  | Leave => Ok (CalendarAttendance agent minutes work (leave + 1) off by_site)
  | Off => Ok (CalendarAttendance agent minutes work leave (off + 1) by_site)
  | CancelledDay => Ok a
  end.

Definition is_cancelled (x : calendar_day) : bool := bool_decide (d_status x = CancelledDay).

(** The totals of the agents, and of each store the totals of its agents. *)
Abbreviation totals := (list (string * attendance) * list (string * list (string * attendance)))%type.

Definition attend (settings : list (string * hours_row)) (st : totals) (x : calendar_day)
    : res projection_error totals :=
  if is_cancelled x then Ok st
  else
    match dget (d_agent x) st.1 with
    | None => Err KeyError
    | Some agent =>
        let store := default [] (dget (d_site x) st.2) in
        let local := default (no_attendance (d_agent x)) (dget (d_agent x) store) in
        agent' ← count_day settings x agent;
        local' ← count_day settings x local;
        Ok (dput (d_agent x) agent' st.1, dput (d_site x) (dput (d_agent x) local' store) st.2)
    end.

Definition by_key {V} (d : list (string * V)) : list (string * V) := sorted_by (leb_on fst String.leb) d.

Definition attendance_by_agent_and_store (roster : list roster_entry) (days : list calendar_day)
    (hours : list (string * hours_row)) : res projection_error (list attendance * list (string * list attendance)) :=
  let agents := foldl (λ d e, dput (e_agent e) (no_attendance (e_agent e)) d) [] roster in
  st ← foldR (attend (settings_of hours)) (agents, []) days;
  Ok (snd <$> by_key st.1, (λ s, (s.1, snd <$> by_key s.2)) <$> by_key st.2).

Definition attendance_of (settings : list (string * hours_row)) (x : calendar_day)
    : res projection_error attendance_day :=
  let h := hours_at settings (d_site x) in
  match d_status x with
  | Work =>
      n ← minutes_of h;
      Ok (AttendanceDay (d_date x) (d_agent x) (d_site x) Work n (Some (opens h)) (Some (closes h)) (break_minutes h))
  | s => Ok (AttendanceDay (d_date x) (d_agent x) (d_site x) s 0 None None 0)
  end.

Definition attendance_days (days : list calendar_day) (hours : list (string * hours_row))
    : res projection_error (list attendance_day) :=
  mapR (attendance_of (settings_of hours)) (List.filter (λ x, negb (is_cancelled x)) days).

Record calendar_month := ProjectedMonth {
  read : calendar;
  attendance_list : list attendance;
  attendance_by_store : list (string * list attendance);
  attended_days : list attendance_day;
}.

(** The month without its digest, which is a function of it. *)
Definition project_calendar (c : calendar) : res projection_error calendar_month :=
  totals ← attendance_by_agent_and_store (c_roster c) (c_days c) (c_hours c);
  ds ← attendance_days (c_days c) (c_hours c);
  Ok (ProjectedMonth c totals.1 totals.2 ds).
End Attendance.

Module Earnings.
Import Calendar Attendance.

(** ** The rules of the commissions *)

Abbreviation mul := (dmul prec28).
Abbreviation add := (dadd prec28).
Abbreviation result := (res projection_error).

Definition whole_ron (v : dec) : result dec := lift_err Signal (quantize prec28 HALF_UP 0 v).
Definition divide (a b : dec) : result dec := lift_err Signal (ddiv prec28 a b).

Definition rate_3 : dec := Dec 3 (-2).

Definition monthly_commission (sales target : dec) (divisor : Z) : result (option dec) :=
  if dleb target d0 || (divisor <=? 0) then Ok None
  else
    let reached := mul sales (of_int divisor) in
    if dltb (mul reached (of_int 100)) (mul target (of_int 80)) then Ok (Some d0)
    else
      let bonus := if dleb (mul target (of_int 120)) (mul reached (of_int 100)) then of_int 400
                   else if dleb target reached then of_int 200 else d0 in
      Some <$> whole_ron (add (mul sales rate_3) bonus).

Definition daily_commission (sales target : dec) (divisor : Z) : result (option dec) :=
  if dleb target d0 || (divisor <=? 0) then Ok None
  else if dltb (mul (mul sales (of_int divisor)) (of_int 100)) (mul target (of_int 79)) then Ok (Some d0)
  else Some <$> whole_ron (mul sales rate_3).

(** [sum(l, Decimal(0))], and the sum that is missing when a part is. *)
Definition total (l : list dec) : dec := dsum prec28 l.
Definition total_known (l : list (option dec)) : option dec := total <$> mapM (M:=option) id l.

Definition truthy (o : option dec) : bool := match o with Some v => dbool v | None => false end.

(** ** Sources ([read_earnings_sources]) *)

Record sales_row := SalesRow { s_site : string; s_date : date; s_amount : dec }.
Record pay_inputs := PayInputs {
  p_base : option dec;
  p_vouchers : option dec;
  p_sim : option Z;
  p_under_50 : option Z;
  p_over_50 : option Z;
  p_incentive : option dec;
  p_adjustment : option dec;
  p_revision : Z;
}.
Record target_setting := TargetSetting { ts_agent : string; ts_manual : option dec; ts_revision : Z }.
Record agent_target := AgentTarget { at_agent : string; at_site : string; at_value : option dec }.

(** What the queries over the sales and targets return. *)
Record published := Published {
  cutoff : option date;
  sales : list sales_row;
  sim : list (string * date * Z);
  store_targets : list (string * dec);
  agent_target_rows : list agent_target;
  incentives : list (string * dec);
  incentives_complete : bool;
}.
(** Every key of [read_earnings_sources] is there. *)
Record sources := Sources {
  facts : published;
  settings : list target_setting;
  inputs : list (string * pay_inputs);
}.

Definition inputs_of (r : compensation_row) : pay_inputs :=
  let v := values r in
  PayInputs (cents <$> salary_base v) (cents <$> vouchers v) (sim_quantity v) (epay_under_50 v) (epay_over_50 v)
    (cents <$> incentive v) (cents <$> adjustment v) (compensation_revision r).

Definition rows_of_month {R A} (f : string → R → A) (m : month_key) (t : gmap (month_key * string) R) : list A :=
  (λ x, f x.1 x.2)
    <$> by_key (omap (λ kr, if bool_decide (kr.1.1 = m) then Some (kr.1.2, kr.2) else None) (map_to_list t)).

Definition read_earnings_sources (m : month_key) (p : published) (d : db) : sources :=
  Sources p
    (rows_of_month (λ a t, TargetSetting a (cents <$> manual_target t) (target_revision t)) m (targets d))
    (rows_of_month (λ a c, (a, inputs_of c)) m (compensation d)).

(** ** Days *)

Inductive issue := MissingSource | AfterCutoff | MissingSales | MissingTarget.
#[global] Instance issue_eq : EqDecision issue.
Proof. solve_decision. Defined.

Definition issue_text (i : issue) : string :=
  match i with
  | MissingSource => "missing_published_source"
  | AfterCutoff => "after_cutoff"
  | MissingSales => "missing_sales"
  | MissingTarget => "missing_positive_target"
  end.

Record earnings_day := EarningsDay {
  w_date : date;
  w_site : string;
  w_agent : string;
  w_supplemental : bool;
  w_away : bool;
  w_sales : option dec;
  w_target : option dec;
  w_commission : option dec;
  w_pay : option dec;
  w_issue : option issue;
}.

Definition _day_earnings (x : calendar_day) (home : string) (cut : option date)
    (sold : list (string * date * dec)) (daily : list (string * (dec * Z))) : result earnings_day :=
  let basis := dget (d_site x) daily in
  let away := negb (String.eqb (d_site x) home) in
  dt ← match basis with
       | Some (t, n) => if n =? 0 then Ok None else Some <$> divide t (of_int n)
       | None => Ok None
       end;
  let day s c pay i :=
    EarningsDay (d_date x) (d_site x) (d_agent x) (d_supplemental x) away s dt c pay i in
  match cut with
  | None => Ok (day None None None (Some MissingSource))
  | Some c =>
      if date_ltb c (d_date x) then Ok (day None None (Some d0) (Some AfterCutoff))
      else
        let pay := Some (if d_supplemental x then of_int 150 else d0) in
        match dget (d_site x, d_date x) sold with
        | None => Ok (day None None pay (Some MissingSales))
        | Some s =>
            if match dt with Some t => dleb t d0 | None => true end
            then Ok (day (Some s) None pay (Some MissingTarget))
            else if away then
              c ← match basis with Some (t, n) => daily_commission s t n | None => Ok None end;
              Ok (day (Some s) c pay None)
            else Ok (day (Some s) None pay None)
        end
  end.

(** Target, sales and commission of the days at home. *)
Definition _home_components (ds : list earnings_day) (basis : option (dec * Z))
    : result (option dec * option dec * option dec) :=
  let home := List.filter (λ x, negb (w_away x)) ds in
  let n := Z.of_nat (length home) in
  if n =? 0 then Ok (Some d0, Some d0, Some d0)
  else
    tgt ← match basis with
          | Some (t, k) => if negb (dleb t d0) && (0 <? k) then Some <$> divide (mul t (of_int n)) (of_int k) else Ok None
          | None => Ok None
          end;
    let elapsed := List.filter (λ x, negb (bool_decide (w_issue x = Some AfterCutoff))) home in
    match mapM (M:=option) w_sales elapsed with
    | None => Ok (tgt, None, None)
    | Some amounts =>
        let sum := total amounts in
        c ← match tgt, basis with
            | Some _, Some (t, k) => monthly_commission sum (mul t (of_int n)) k
            | _, _ => Ok None
            end;
        Ok (tgt, Some sum, c)
    end.

(** ** Agents *)

Record target_state := TargetState {
  st_manual : option dec;
  st_revision : Z;
  st_automatic : option dec;
}.
Record metrics := PerformanceMetrics {
  m_target : option dec;
  m_sales : option dec;
  m_progress : option dec;
  m_average : option dec;
  m_forecast : option dec;
  m_forecast_progress : option dec;
  m_scheduled : Z;
  m_worked : Z;
  m_leave : Z;
  m_supplemental : Z;
  m_daily_80 : option dec;
  m_daily_90 : option dec;
  m_daily_100 : option dec;
  m_daily_120 : option dec;
}.
Record pay := SalaryMetrics {
  sim_pay : option dec;
  epay_pay : option dec;
  commission_total : option dec;
  current_total : option dec;
  forecast_total : option dec;
  potential_100 : option dec;
  potential_120 : option dec;
}.
Record agent_earnings := AgentEarnings {
  g_agent : string;
  g_home : string;
  home_work_days : Z;
  home_target : option dec;
  home_sales : option dec;
  home_commission : option dec;
  away_commission : option dec;
  supplemental_pay : option dec;
  known_earnings : option dec;
  g_days : list earnings_day;
  issues : list string;
  g_setting : option target_state;
  performance_of : option metrics;
  compensation_of : option pay_inputs;
  salary_of : option pay;
}.

Definition set_home h (g : agent_earnings) : agent_earnings :=
  AgentEarnings (g_agent g) h (home_work_days g) (home_target g) (home_sales g) (home_commission g) (away_commission g)
    (supplemental_pay g) (known_earnings g) (g_days g) (issues g) (g_setting g) (performance_of g) (compensation_of g)
    (salary_of g).
(** Target, sales and commission at home, and what is known of the whole. *)
Definition set_home_part tgt sold com (g : agent_earnings) : agent_earnings :=
  AgentEarnings (g_agent g) (g_home g) (home_work_days g) tgt sold com (away_commission g) (supplemental_pay g)
    (total_known [com; away_commission g; supplemental_pay g]) (g_days g) (issues g) (g_setting g) (performance_of g)
    (compensation_of g) (salary_of g).
Definition set_setting t (g : agent_earnings) : agent_earnings :=
  AgentEarnings (g_agent g) (g_home g) (home_work_days g) (home_target g) (home_sales g) (home_commission g)
    (away_commission g) (supplemental_pay g) (known_earnings g) (g_days g) (issues g) (Some t) (performance_of g)
    (compensation_of g) (salary_of g).
Definition set_pay m i p (g : agent_earnings) : agent_earnings :=
  AgentEarnings (g_agent g) (g_home g) (home_work_days g) (home_target g) (home_sales g) (home_commission g)
    (away_commission g) (supplemental_pay g) (known_earnings g) (g_days g) (issues g) (g_setting g) (Some m) (Some i)
    (Some p).

Definition only_if (b : bool) (o : option dec) : option dec := if b then o else None.

Definition _agent_earnings (e : roster_entry) (ds : list earnings_day) (basis : option (dec * Z)) (has_source : bool)
    : result agent_earnings :=
  '(tgt, sold, com) ← _home_components ds basis;
  let away_days := List.filter (λ x, w_away x && negb (bool_decide (w_issue x = Some AfterCutoff))) ds in
  let away := total <$> mapM (M:=option) w_commission away_days in
  let supp := only_if has_source (Some (total (omap w_pay ds))) in
  let known := match com, away, supp with
               | Some c, Some a, Some s => Some (add (add c a) s)
               | _, _, _ => None
               end in
  Ok (AgentEarnings (e_agent e) (e_home e) (Z.of_nat (length (List.filter (λ x, negb (w_away x)) ds))) tgt
        (only_if has_source sold) (only_if has_source com) (only_if has_source away) supp known ds
        (sorted_by String.leb (remove_dups
           (issue_text <$> List.filter (λ i, negb (bool_decide (i = AfterCutoff))) (omap w_issue ds))))
        None None None None).

Definition site_parts (ds : list earnings_day) (daily : list (string * (dec * Z)))
    : result (list (option dec * option dec * option dec)) :=
  mapR (λ s, _home_components (List.filter (λ x, String.eqb (w_site x) s) ds) (dget s daily))
    (sorted_by String.leb (remove_dups (w_site <$> List.filter (λ x, negb (w_away x)) ds))).

Definition _apply_transfer_projection (g : agent_earnings) (e : roster_entry) (ds : list earnings_day)
    (daily : list (string * (dec * Z))) (cut : option date) : result agent_earnings :=
  match e_transfers e with
  | [] => Ok g
  | _ =>
      parts ← site_parts ds daily;
      let tgt := total_known ((λ p, p.1.1) <$> parts) in
      let sold := total_known ((λ p, p.1.2) <$> parts) in
      com ← match sold, tgt with
            | Some s, Some t =>
                if dbool t then monthly_commission s t 1
                else Ok (match parts with [] => Some d0 | _ => None end)
            | _, _ => Ok (match parts with [] => Some d0 | _ => None end)
            end;
      let has := bool_decide (cut ≠ None) in
      Ok (set_home_part tgt (only_if has sold) (only_if has com) g)
  end.

Definition _refresh_target_earnings (tgt : option dec) (g : agent_earnings) : result agent_earnings :=
  com ← match home_sales g, tgt with
        | Some s, Some t =>
            if dbool t then monthly_commission s t 1
            else Ok (if negb (dbool s) then Some d0 else None)
        | _, _ => Ok None
        end;
  Ok (set_home_part tgt (home_sales g) com g).

(** [_target_setting_inputs] for the rows of this month. *)
Definition _target_setting_inputs (g : agent_earnings) (e : roster_entry) (ds : list earnings_day) (s : sources)
    : target_state * list agent_target :=
  let row := List.find (λ r, String.eqb (ts_agent r) (e_agent e)) (settings s) in
  let home_sites := e_home e :: (w_site <$> List.filter (λ x, negb (w_away x)) ds) in
  (TargetState (row ≫= ts_manual) (match row with Some r => ts_revision r | None => 0 end) (home_target g),
   List.filter (λ r, String.eqb (at_agent r) (e_agent e) && bool_decide (at_site r ∈ home_sites))
     (agent_target_rows (facts s))).

Definition _apply_target_setting (g : agent_earnings) (e : roster_entry) (ds : list earnings_day) (s : sources)
    : result agent_earnings :=
  let '(t, resolved) := _target_setting_inputs g e ds s in
  let g1 := set_setting t g in
  match resolved, st_manual t with
  | _ :: _, _ => _refresh_target_earnings (total_known (at_value <$> resolved)) g1
  | [], Some v => _refresh_target_earnings (Some v) g1
  | [], None => Ok g1
  end.

Section Projection.
(** [business_today()], and the order in which this process walks a set of strings. *)
Context (today : date) (set_order : list string → list string).

Definition date_max (a b : date) : date := if date_ltb a b then b else a.
Definition date_min (a b : date) : date := if date_ltb b a then b else a.
Definition last_of (m : month_key) : date := Grile.Date m.1 m.2 (Grile.month_days m.1 m.2).

Definition _project_agent (m : month_key) (work : list calendar_day) (daily : list (string * (dec * Z)))
    (sold : list (string * date * dec)) (s : sources) (e : roster_entry) : result (option agent_earnings) :=
  let cut := cutoff (facts s) in
  ds ← mapR (λ x, _day_earnings x (home_on e (d_date x)) cut sold daily)
         (List.filter (λ x, String.eqb (d_agent x) (e_agent e)) work);
  if negb (e_active e) && Nat.eqb (length ds) 0 then Ok None
  else
    g ← _agent_earnings e ds (dget (e_home e) daily) (bool_decide (cut ≠ None));
    g1 ← _apply_transfer_projection g e ds daily cut;
    g2 ← _apply_target_setting g1 e ds s;
    Ok (Some (set_home (home_on e (date_min (date_max today (first_of m)) (last_of m))) g2)).

(** ** The dashboard ([earnings_dashboard.py]) *)

Definition reached_by (cut : option date) (on : date) : bool :=
  match cut with Some c => date_leb on c | None => false end.

Definition daily_need (rate : dec) (tgt sold : option dec) (remaining : Z) : result (option dec) :=
  match tgt, sold with
  | Some t, Some s =>
      if negb (dleb t d0) && (0 <? remaining)
      then Some <$> divide (dmax d0 (dsub prec28 (mul t rate) s)) (of_int remaining) else Ok None
  | _, _ => Ok None
  end.

Definition percent_of (a b : option dec) : result (option dec) :=
  match a, b with
  | Some x, Some y => if dbool y then q ← divide x y; Ok (Some (mul q (of_int 100))) else Ok None
  | _, _ => Ok None
  end.

Definition performance (tgt sold : option dec) (scheduled elapsed leave supplemental : Z) : result metrics :=
  average ← match sold with
            | Some s => if elapsed =? 0 then Ok None else Some <$> divide s (of_int elapsed)
            | None => Ok None
            end;
  let forecast := (λ a, mul a (of_int scheduled)) <$> average in
  let remaining := scheduled - elapsed in
  n80 ← daily_need (Dec 8 (-1)) tgt sold remaining;
  n90 ← daily_need (Dec 9 (-1)) tgt sold remaining;
  n100 ← daily_need (of_int 1) tgt sold remaining;
  n120 ← daily_need (Dec 12 (-1)) tgt sold remaining;
  progress ← percent_of sold tgt;
  forecast_progress ← percent_of forecast tgt;
  Ok (PerformanceMetrics tgt sold progress average forecast forecast_progress scheduled elapsed leave supplemental
        n80 n90 n100 n120).

Definition commission_for (sold tgt : option dec) : result (option dec) :=
  match sold, tgt with
  | Some s, Some t => if dbool t then monthly_commission s t 1 else Ok None
  | _, _ => Ok None
  end.

Definition _salary_projections (k : metrics) : result (option dec * option dec * option dec) :=
  f ← commission_for (m_forecast k) (m_target k);
  p100 ← commission_for (m_target k) (m_target k);
  p120 ← commission_for ((λ t, mul t (Dec 12 (-1))) <$> m_target k) (m_target k);
  Ok (f, p100, p120).

Definition whole_sum (a b : option dec) : result (option dec) :=
  match a, b with Some x, Some y => Some <$> whole_ron (add x y) | _, _ => Ok None end.

Definition salary (g : agent_earnings) (i : pay_inputs) (k : metrics) : result pay :=
  let sim := (λ q, mul (of_int q) (of_int 3)) <$> p_sim i in
  let epay := match p_under_50 i, p_over_50 i with
              | Some u, Some o => Some (add (mul (of_int u) (of_int 5)) (mul (of_int o) (of_int 12)))
              | _, _ => None
              end in
  let rest := total_known [p_base i; p_vouchers i; sim; epay; p_incentive i; p_adjustment i; away_commission g;
                           supplemental_pay g] in
  '(f, p100, p120) ← _salary_projections k;
  now ← whole_sum rest (home_commission g);
  forecast ← whole_sum rest f;
  at_100 ← whole_sum rest p100;
  at_120 ← whole_sum rest p120;
  Ok (SalaryMetrics sim epay
        (total_known [home_commission g; away_commission g; sim; epay; p_incentive i]) now forecast at_100 at_120).

(** The latest home that is a store, of an agent without one. *)
Definition salary_home (c : calendar) (g : agent_earnings) : result string :=
  if negb (String.eqb (g_home g) "UNASSIGNED") then Ok (g_home g)
  else match List.find (λ e, String.eqb (e_agent e) (g_agent g)) (c_roster c) with
       | Some e =>
           Ok (foldl (λ h t, if date_leb (t_from t) today && negb (String.eqb (t_home t) "UNASSIGNED") then t_home t else h)
                 (e_home e) (sorted_by entry_transfer_leb (e_transfers e)))
       | None => Err KeyError
       end.

Definition no_inputs : pay_inputs := PayInputs None None None None None None None 0.

Definition sim_sold (rows : list (string * date * Z)) (cut : option date) (ds : list earnings_day) : option Z :=
  let by_day := foldl (λ d r, dput r.1 r.2 d) [] rows in
  match cut with
  | Some _ => Some (Z.max 0 (sumZ ((λ x, default 0 (dget (w_site x, w_date x) by_day))
                                     <$> List.filter (λ x, reached_by cut (w_date x)) ds)))
  | None => None
  end.

Definition or_default {A} (v : A) (o : option A) : option A := Some (default v o).

Definition _prepare_agent_compensation (c : calendar) (s : sources) (g : agent_earnings) : result pay_inputs :=
  let i := default no_inputs (dget (g_agent g) (foldl (λ d r, dput r.1 r.2 d) [] (inputs s))) in
  base ← (if negb (String.eqb (g_home g) "TL") then h ← salary_home c g; Ok ((λ z, of_int (z / 100)) <$> base_salary h) else Ok (p_base i));
  let p := facts s in
  Ok (PayInputs base (or_default (of_int 480) (p_vouchers i)) (sim_sold (sim p) (cutoff p) (g_days g))
        (or_default 0 (p_under_50 i)) (or_default 0 (p_over_50 i))
        (if incentives_complete p && bool_decide (cutoff p ≠ None)
         then Some (default d0 (dget (g_agent g) (incentives p))) else None)
        (or_default d0 (p_adjustment i)) (p_revision i)).

Definition _enrich_agent (c : calendar) (s : sources) (g : agent_earnings) : result agent_earnings :=
  let cut := cutoff (facts s) in
  let home := List.filter (λ x, negb (w_away x)) (g_days g) in
  let elapsed := List.filter (λ x, reached_by cut (w_date x)) home in
  let leave := List.filter (λ x, bool_decide (d_status x = Leave) && String.eqb (d_agent x) (g_agent g)) (c_days c) in
  k ← performance (home_target g) (home_sales g) (Z.of_nat (length home)) (Z.of_nat (length elapsed))
        (Z.of_nat (length leave)) (Z.of_nat (length (List.filter w_supplemental (g_days g))));
  i ← _prepare_agent_compensation c s g;
  p ← salary g i k;
  Ok (set_pay k i p g).

(** The metrics of a store; no forecast when sales are missing or on other days. *)
Definition store_performance (c : calendar) (s : sources) (site : string) : result (string * metrics) :=
  let cut := cutoff (facts s) in
  let work := List.filter (λ x, String.eqb (d_site x) site && bool_decide (d_status x = Work)) (c_days c) in
  let elapsed := List.filter (λ x, reached_by cut (d_date x)) work in
  let rows := List.filter (λ r, String.eqb (s_site r) site && reached_by cut (s_date r)) (sales (facts s)) in
  let covered := s_date <$> rows in
  let all_covered := forallb (λ x, bool_decide (d_date x ∈ covered)) elapsed in
  let sold := if negb (Nat.eqb (length rows) 0) && all_covered then Some (total (s_amount <$> rows)) else None in
  k ← performance (dget site (foldl (λ d r, dput r.1 r.2 d) [] (store_targets (facts s)))) sold
        (Z.of_nat (length work)) (Z.of_nat (length elapsed)) 0 0;
  let same_days := forallb (λ on, bool_decide (on ∈ d_date <$> elapsed)) covered && all_covered in
  Ok (site, if bool_decide (sold ≠ None) && negb same_days
            then PerformanceMetrics (m_target k) (m_sales k) (m_progress k) None None None (m_scheduled k) (m_worked k)
                   (m_leave k) (m_supplemental k) (m_daily_80 k) (m_daily_90 k) (m_daily_100 k) (m_daily_120 k)
            else k).

Record earnings_month := EarningsMonth {
  g_month : month_key;
  g_cutoff : option date;
  selling_days : list (string * Z);
  agents : list agent_earnings;
  unassigned_sales : list sales_row;
  stores_of : list (string * metrics);
}.

Definition work_of (c : calendar) : list calendar_day :=
  List.filter (λ x, bool_decide (d_status x = Work)) (c_days c).

Definition selling (work : list calendar_day) : list (string * Z) :=
  foldl (λ d x, dadd_to (d_site x) 1 d) [] work.

Definition daily_targets (targets : list (string * dec)) (days : list (string * Z)) : list (string * (dec * Z)) :=
  foldl (λ d r, match dget r.1 days with
                | Some n => if n =? 0 then d else dput r.1 (r.2, n) d
                | None => d
                end) [] targets.

Definition sold_on (rows : list sales_row) : list (string * date * dec) :=
  foldl (λ d r, dput (s_site r, s_date r) (s_amount r) d) [] rows.

Definition assigned (work : list calendar_day) (r : sales_row) : bool :=
  existsb (λ x, bool_decide ((d_site x, d_date x) = (s_site r, s_date r))) work.

(** The month without its digest, which is taken of it and of the store targets. *)
Definition project_earnings (c : calendar) (s : sources) : result earnings_month :=
  let work := work_of c in
  let days := selling work in
  let daily := daily_targets (store_targets (facts s)) days in
  projected ← mapR (_project_agent (c_month c) work daily (sold_on (sales (facts s))) s) (c_roster c);
  enriched ← mapR (_enrich_agent c s) (omap id projected);
  by_store ← mapR (store_performance c s)
               (set_order (remove_dups ((store_targets (facts s)).*1 ++ days.*1)));
  Ok (EarningsMonth (c_month c) (cutoff (facts s)) days enriched
        (List.filter (λ r, negb (assigned work r)) (sales (facts s))) by_store).

(** [projection_revision]: a digest of the result, in the order of its stores, and of
    the store targets. *)
Definition earnings (p : published) (m : month_key) (d : db) : result earnings_month :=
  cm ← project_calendar (read_on_connection m d);
  project_earnings (read cm) (read_earnings_sources m p d).

Definition export_earnings (digest : earnings_month → list (string * dec) → string) (p : published) (m : month_key)
    (expected : string) (d : db) : result earnings_month :=
  e ← earnings p m d;
  if String.eqb (digest e (store_targets p)) expected then Ok e else Err Changed.
End Projection.
End Earnings.
