(* ===== verification/GrileEarningsSpec.v ===== *)
(** What the projections of the calendar promise: attendance counts every scheduled
    day once, published sales are credited to at most one worker, commissions rise
    with sales; and a run in which the digest of the earnings depends on the process. *)

From S2P Require Import Prelude Text Decimal Dict Grile GrileCalendar GrileCalendarInv GrileCalendarSpec GrileEarnings.

Local Open Scope Z_scope.

(** ** Lists *)

Lemma NoDup_omap_key {A B K} (f : A → option B) (key : B → K) (l : list A) :
  NoDup l →
  (∀ x y a b, x ∈ l → y ∈ l → f x = Some a → f y = Some b → key a = key b → x = y) →
  NoDup (key <$> omap f l).
Proof.
  induction 1 as [|x l Hx Hl IH]; intros Hinj; cbn; [constructor|].
  assert (NoDup (key <$> omap f l)) as IH' by (apply IH; intros; eapply Hinj; [by right|by right|done..]).
  destruct (f x) as [a|] eqn:Ha; [|done]. cbn. constructor; [|done].
  intros (b & Hk & (y & Hy & Hb)%list_elem_of_omap)%list_elem_of_fmap.
  assert (x = y) as <- by (eapply Hinj; [by left|by right|done..]). done.
Qed.

Lemma omap_perm {A B} (f : A → option B) l k : l ≡ₚ k → omap f l ≡ₚ omap f k.
Proof. by intros ->. Qed.

Lemma concat_filter_empty {A K} `{EqDecision K} (key : A → K) ks :
  concat ((λ k, List.filter (λ x, bool_decide (key x = k)) []) <$> ks) = [].
Proof. induction ks as [|k ks IH]; [done|]. cbn. apply IH. Qed.

(** A list in parts, one for each key. *)
Lemma partition_by {A K} `{EqDecision K} (key : A → K) (ks : list K) (l : list A) :
  NoDup ks → (∀ x, x ∈ l → key x ∈ ks) →
  concat ((λ k, List.filter (λ x, bool_decide (key x = k)) l) <$> ks) ≡ₚ l.
Proof.
  intros Hks. induction l as [|x l IH]; intros Hin; [by rewrite concat_filter_empty|].
  assert (concat ((λ k, List.filter (λ y, bool_decide (key y = k)) l) <$> ks) ≡ₚ l) as IH'
    by (apply IH; intros; apply Hin; by right). clear IH.
  etrans; [|by apply Permutation_skip, IH']. clear IH'.
  destruct (list_elem_of_split ks (key x)) as (k1 & k2 & ->); [apply Hin; by left|].
  apply NoDup_app in Hks as (_ & Hd & [Hk2 _]%NoDup_cons).
  rewrite !fmap_app, !fmap_cons, !concat_app. cbn. rewrite bool_decide_eq_true_2 by done. cbn.
  assert (∀ kk : list K, key x ∉ kk →
    (λ k, List.filter (λ y, bool_decide (key y = k)) (x :: l)) <$> kk
    = (λ k, List.filter (λ y, bool_decide (key y = k)) l) <$> kk) as Hskip.
  { intros kk Hkk. apply list_fmap_ext. intros i k Hk%list_elem_of_lookup_2. cbn.
    rewrite bool_decide_eq_false_2; [done|]. by intros <-. }
  cbn in Hskip. rewrite !Hskip; [by rewrite <- Permutation_middle|done|].
  intros Hk1. apply (Hd (key x)); [done|by left].
Qed.

Lemma filter_split {A} (P : A → bool) l : l ≡ₚ List.filter P l ++ List.filter (λ x, negb (P x)) l.
Proof.
  induction l as [|x l IH]; [done|]. cbn. destruct (P x); cbn; [by constructor|].
  rewrite <- Permutation_middle. by constructor.
Qed.

Lemma filter_filter {A} (P Q : A → bool) l :
  List.filter P (List.filter Q l) = List.filter (λ x, Q x && P x) l.
Proof. induction l as [|x l IH]; [done|]. cbn. destruct (Q x); cbn; [destruct (P x); by rewrite IH|done]. Qed.

Lemma filterb_perm {A} (P : A → bool) l k : l ≡ₚ k → List.filter P l ≡ₚ List.filter P k.
Proof.
  induction 1; cbn; [done| | |by etrans]; repeat case_match; try done; by constructor.
Qed.

Lemma foldl_dput_get {A K V} `{EqDecision K} (key : A → K) (val : A → V) l : ∀ d,
  NoDup (key <$> l) → (∀ x, x ∈ l → key x ∉ d.*1) →
  ∀ k v, dget k (foldl (λ d x, dput (key x) (val x) d) d l) = Some v ↔
         dget k d = Some v ∨ ∃ x, x ∈ l ∧ key x = k ∧ val x = v.
Proof.
  induction l as [|x l IH]; intros d Hn Hd k v; cbn.
  { split; [by left|]. intros [H|(x & ?%elem_of_nil & _)]; done. }
  apply NoDup_cons in Hn as [Hx Hn]. rewrite IH; [|done|].
  2: { intros y Hy. rewrite elem_of_dput_keys. intros [Hk|Hk]; [|by apply (Hd y); [right|]].
       apply Hx. rewrite <- Hk. apply list_elem_of_fmap. by exists y. }
  rewrite dget_dput. split.
  - intros [H|(y & Hy & Hk & Hv)]; [|right; exists y; split; [by right|done]].
    case_decide as E; [|by left]. right. exists x. injection H as ->. split; [by left|done].
  - intros [H|(y & [->|Hy]%elem_of_cons & Hk & Hv)].
    + left. case_decide as E; [|done]. subst k. exfalso. apply (Hd x); [by left|].
      apply dget_is_Some. by eexists.
    + left. subst. by rewrite decide_True.
    + right. by exists y.
Qed.

Lemma filter_omap {A B} (P : B → bool) (f : A → option B) (l : list A) :
  List.filter P (omap f l) = omap (λ x, f x ≫= λ y, if P y then Some y else None) l.
Proof.
  induction l as [|x l IH]; [done|]. cbn. destruct (f x) as [y|]; cbn; [destruct (P y); cbn; by rewrite IH|done].
Qed.

(** ** The calendar as it is read *)

Module CalendarRead.
Import Calendar CalendarInv.

Lemma elem_of_roster m d a r :
  (a, r) ∈ roster_of m d ↔ roster d !! (m, a) = Some r.
Proof.
  unfold roster_of. rewrite elem_of_sorted_by, list_elem_of_omap. split.
  - intros ([[m' a'] r'] & Hr & He). cbn in He. case_bool_decide; [|done]. injection He as -> ->. subst m'.
    by apply elem_of_map_to_list.
  - intros H. exists ((m, a), r). split; [by apply elem_of_map_to_list|]. cbn. by rewrite bool_decide_eq_true_2.
Qed.

Lemma roster_codes m d :
  NoDup (e_agent <$> c_roster (read_on_connection m d)) ∧
  ∀ a, a ∈ e_agent <$> c_roster (read_on_connection m d) ↔ is_Some (roster d !! (m, a)).
Proof.
  cbn. rewrite <- list_fmap_compose. split.
  - unfold roster_of. rewrite sorted_by_perm. change (e_agent ∘ entry_of m d) with (@fst string roster_row).
    apply NoDup_omap_key; [apply NoDup_map_to_list|].
    intros [[m1 a1] r1] [[m2 a2] r2] x y H1%elem_of_map_to_list H2%elem_of_map_to_list. cbn.
    do 2 case_bool_decide; try done. subst. intros [= <-] [= <-]. cbn. intros <-. by rewrite H1 in H2; injection H2 as ->.
  - intros a. rewrite list_elem_of_fmap. split.
    + intros ([a' r] & -> & Hr). cbn. exists r. by apply elem_of_roster.
    + intros [r Hr]. exists (a, r). split; [done|]. by apply elem_of_roster.
Qed.

Lemma elem_of_days m d x :
  x ∈ c_days (read_on_connection m d) ↔ ∃ kx, days d !! kx.1 = Some kx.2 ∧ visible_day m d kx = Some x.
Proof.
  cbn. unfold days_of. rewrite elem_of_sorted_by, list_elem_of_omap. split.
  - intros ([k y] & H & Hv). exists (k, y). split; [by apply elem_of_map_to_list|done].
  - intros ([k y] & H & Hv). exists (k, y). split; [by apply elem_of_map_to_list|done].
Qed.

Lemma visible_agent m d kx x : visible_day m d kx = Some x → is_Some (roster d !! (m, d_agent x)).
Proof.
  destruct kx as [[[agent on] slot] y]. cbn. destruct (roster d !! (m, agent)) eqn:Hr; [|done].
  case_match; [|done]. intros [= <-]. cbn. by rewrite Hr.
Qed.

Lemma day_agent m d x :
  x ∈ c_days (read_on_connection m d) → d_agent x ∈ e_agent <$> c_roster (read_on_connection m d).
Proof. intros (kx & _ & Hv)%elem_of_days. apply roster_codes. by eapply visible_agent. Qed.

Definition place (x : calendar_day) : string * date := (d_site x, d_date x).

(** Nobody else works at the same store on the same day. *)
Lemma work_places m d :
  inv d → NoDup (place <$> List.filter (λ x, bool_decide (d_status x = Work)) (c_days (read_on_connection m d))).
Proof.
  intros [I _]. cbn [c_days read_on_connection]. unfold days_of.
  rewrite (filterb_perm _ _ _ (sorted_by_perm _ _)), filter_omap.
  apply NoDup_omap_key; [apply NoDup_map_to_list|].
  assert (∀ k y x, days d !! k = Some y →
            visible_day m d (k, y) ≫= (λ x, if bool_decide (d_status x = Work) then Some x else None) = Some x →
            status y = Work ∧ d_date x = k.1.2 ∧ Some (d_site x) = site y) as Hx.
  { intros [[agent on] slot] y x Hk. cbn. destruct (roster d !! (m, agent)); [|done]. case_match; [|done].
    cbn. destruct (bool_decide (status y = Work)) eqn:Hw; [|done]. apply bool_decide_eq_true in Hw.
    intros [= <-]. cbn. split_and!; [done|done|].
    destruct (di_site _ I _ _ Hk Hw) as (s & -> & _). done. }
  intros [k1 y1] [k2 y2] a b H1%elem_of_map_to_list H2%elem_of_map_to_list Ha Hb [= Hs Hd].
  destruct (Hx _ _ _ H1 Ha) as (W1 & D1 & S1), (Hx _ _ _ H2 Hb) as (W2 & D2 & S2).
  assert (k1 = k2) as -> by (eapply (di_one _ I); [done..| |]; congruence).
  by rewrite H1 in H2; injection H2 as ->.
Qed.
End CalendarRead.

Module EarningsSpec.
Import Calendar CalendarInv Attendance Earnings CalendarRead.

(** ** Sales are credited once *)

Definition sale_key (r : sales_row) : string * date := (s_site r, s_date r).
Definition is_published (p : published) (r : sales_row) : bool := reached_by (cutoff p) (s_date r).

(** The sales that a day of an agent carries. *)
Definition credit (y : earnings_day) : option sales_row := SalesRow (w_site y) (w_date y) <$> w_sales y.
Definition credited (e : earnings_month) : list sales_row := omap credit (concat (g_days <$> agents e)).

(** The same, of a day of the calendar. *)
Definition credit_of (cut : option date) (sold : list (string * date * dec)) (x : calendar_day) : option sales_row :=
  if reached_by cut (d_date x) then SalesRow (d_site x) (d_date x) <$> dget (place x) sold else None.

Lemma day_credit x home cut sold daily y :
  _day_earnings x home cut sold daily = Ok y → credit y = credit_of cut sold x.
Proof.
  unfold _day_earnings, credit, credit_of. intros H. apply bind_Ok in H as (dt & _ & H). unfold reached_by.
  destruct cut as [c|]; [|by injection H as <-]. unfold date_ltb in H.
  destruct (date_leb (d_date x) c); cbn [negb] in H; [|by injection H as <-]. unfold place.
  destruct (dget _ sold) as [s|]; [|by injection H as <-].
  destruct (match dt with Some t => _ | None => _ end); [by injection H as <-|].
  destruct (negb _); [apply bind_Ok in H as (o & _ & H)|]; by injection H as <-.
Qed.

Lemma days_credit {home cut sold daily} xs ds :
  mapR (λ x, _day_earnings x (home x) cut sold daily) xs = Ok ds → omap credit ds = omap (credit_of cut sold) xs.
Proof.
  intros H%mapR_Ok. induction H as [|x y xs ds Hy _ IH]; [done|]. cbn. by rewrite (day_credit _ _ _ _ _ _ Hy), IH.
Qed.

Lemma agent_days e ds basis has g : _agent_earnings e ds basis has = Ok g → g_days g = ds.
Proof. unfold _agent_earnings. intros H. apply bind_Ok in H as ([[a b] c] & _ & H). by injection H as <-. Qed.

Lemma transfer_days g e ds daily cut g' : _apply_transfer_projection g e ds daily cut = Ok g' → g_days g' = g_days g.
Proof.
  unfold _apply_transfer_projection. destruct (e_transfers e); [by intros [= <-]|].
  intros H. do 2 (apply bind_Ok in H as (? & _ & H)). by injection H as <-.
Qed.

Lemma refresh_days tgt g g' : _refresh_target_earnings tgt g = Ok g' → g_days g' = g_days g.
Proof. unfold _refresh_target_earnings. intros H. apply bind_Ok in H as (? & _ & H). by injection H as <-. Qed.

Lemma setting_days g e ds s g' : _apply_target_setting g e ds s = Ok g' → g_days g' = g_days g.
Proof.
  unfold _apply_target_setting. destruct (_target_setting_inputs _ _ _ _) as [t resolved].
  destruct resolved as [|r resolved]; [destruct (st_manual t)|]; try (intros H%refresh_days; exact H).
  by intros [= <-].
Qed.

Section Projection.
Context (today : date) (set_order : list string → list string).

Lemma project_agent_days m work daily sold s e o :
  _project_agent today m work daily sold s e = Ok o →
  omap credit (default [] (g_days <$> o))
  = omap (credit_of (cutoff (facts s)) sold) (List.filter (λ x, String.eqb (d_agent x) (e_agent e)) work).
Proof.
  unfold _project_agent. intros H. apply bind_Ok in H as (ds & Hds & H). apply days_credit in Hds. rewrite <- Hds.
  destruct (negb (e_active e) && Nat.eqb (length ds) 0) eqn:He.
  { injection H as <-. apply andb_prop in He as [_ He%Nat.eqb_eq]. by destruct ds. }
  apply bind_Ok in H as (g & Hg%agent_days & H). apply bind_Ok in H as (g1 & H1%transfer_days & H).
  apply bind_Ok in H as (g2 & H2%setting_days & H). injection H as <-. cbn. congruence.
Qed.

Lemma enrich_days c s g g' : _enrich_agent today c s g = Ok g' → g_days g' = g_days g.
Proof. unfold _enrich_agent. intros H. do 3 (apply bind_Ok in H as (? & _ & H)). by injection H as <-. Qed.

Lemma eqb_decide a b : String.eqb a b = bool_decide (a = b).
Proof. destruct (String.eqb_spec a b); [by rewrite bool_decide_eq_true_2|by rewrite bool_decide_eq_false_2]. Qed.

(** What the agents carry is what their scheduled days sold. *)
Lemma credited_days m work daily sold s roster projected enriched c :
  mapR (_project_agent today m work daily sold s) roster = Ok projected →
  mapR (_enrich_agent today c s) (omap id projected) = Ok enriched →
  omap credit (concat (g_days <$> enriched))
  = omap (credit_of (cutoff (facts s)) sold)
      (concat ((λ k, List.filter (λ x, bool_decide (d_agent x = k)) work) <$> (e_agent <$> roster))).
Proof.
  intros Hp He. assert (g_days <$> enriched = g_days <$> omap id projected) as ->.
  { apply mapR_Ok in He. clear Hp. induction He as [|g g' gs gs' Hg _ IH]; [done|].
    cbn. by rewrite (enrich_days _ _ _ _ Hg), IH. }
  clear He. apply mapR_Ok in Hp. induction Hp as [|e o es os Ho _ IH]; [done|].
  apply project_agent_days in Ho. cbn. rewrite omap_app, <- IH.
  erewrite (List.filter_ext _ (λ x, String.eqb (d_agent x) (e_agent e)))
    by (intros x; symmetry; apply eqb_decide).
  rewrite <- Ho. destruct o as [g|]; cbn; [by rewrite omap_app|done].
Qed.

Lemma sold_on_get rows k v :
  NoDup (sale_key <$> rows) → dget k (sold_on rows) = Some v ↔ ∃ r, r ∈ rows ∧ sale_key r = k ∧ s_amount r = v.
Proof.
  intros Hn. unfold sold_on. rewrite (foldl_dput_get sale_key s_amount rows []); [|done|by intros ? _ ?%elem_of_nil].
  cbn. split; [by intros [|]|by right].
Qed.

Lemma assigned_true work r : assigned work r = true ↔ ∃ x, x ∈ work ∧ place x = sale_key r.
Proof.
  unfold assigned. rewrite existsb_exists. split.
  - intros (x & Hx%list_elem_of_In & H%bool_decide_eq_true). by exists x.
  - intros (x & Hx%list_elem_of_In & H). exists x. split; [done|]. by apply bool_decide_eq_true.
Qed.

Lemma credit_of_Some cut rows x r :
  NoDup (sale_key <$> rows) →
  credit_of cut (sold_on rows) x = Some r ↔ reached_by cut (s_date r) = true ∧ place x = sale_key r ∧ r ∈ rows.
Proof.
  intros Hn. unfold credit_of. split.
  - destruct (reached_by cut (d_date x)) eqn:Hr; [|done]. destruct (dget _ _) as [v|] eqn:Hv; [|done].
    intros [= <-]. apply sold_on_get in Hv as (r & Hin & Hk & Ha); [|done]. cbn. split_and!; [done|done|].
    unfold place, sale_key in Hk. injection Hk as Hs Hd. rewrite <- Hs, <- Hd, <- Ha. by destruct r.
  - intros (Hr & Hk & Hin). assert (dget (place x) (sold_on rows) = Some (s_amount r)) as ->
      by (apply sold_on_get; [done|]; by exists r).
    unfold place, sale_key in Hk. injection Hk as -> ->. rewrite Hr. cbn. by destruct r.
Qed.

Lemma work_credit cut rows work :
  NoDup (sale_key <$> rows) → NoDup (place <$> work) →
  omap (credit_of cut (sold_on rows)) work
  ≡ₚ List.filter (λ r, reached_by cut (s_date r) && assigned work r) rows ∧
  NoDup (sale_key <$> omap (credit_of cut (sold_on rows)) work).
Proof.
  intros Hn Hw.
  assert (NoDup (sale_key <$> omap (credit_of cut (sold_on rows)) work)) as Hk.
  { apply NoDup_omap_key; [by eapply NoDup_fmap_1|]. intros x y a b Hx Hy Ha Hb Hab.
    apply credit_of_Some in Ha as (_ & Pa & _); [|done]. apply credit_of_Some in Hb as (_ & Pb & _); [|done].
    eapply (list_fmap_NoDup_inj place); [done..|congruence]. }
  split; [|done]. apply NoDup_Permutation; [by eapply NoDup_fmap_1| |].
  - by eapply NoDup_fmap_1, NoDup_fmap_filter.
  - intros r. rewrite list_elem_of_omap, elem_of_filterb, andb_true_iff, assigned_true.
    setoid_rewrite credit_of_Some; [|done..]. naive_solver.
Qed.

(** C27: published sales are credited at most once: the sales up to the cutoff are,
    each one time, either those of a day of one agent, or left without an agent. *)
Theorem sales_credited_once projection_revision candidates p m d e :
  Calendar.reachable projection_revision candidates d → NoDup (sale_key <$> sales p) →
  earnings today set_order p m d = Ok e →
  List.filter (is_published p) (sales p) ≡ₚ List.filter (is_published p) (unassigned_sales e) ++ credited e ∧
  NoDup (sale_key <$> credited e).
Proof.
  intros Hr Hn H. apply calendar_reachable_inv in Hr. unfold earnings in H.
  apply bind_Ok in H as (cm & Hcm & H). unfold project_calendar in Hcm.
  do 2 (apply bind_Ok in Hcm as (? & _ & Hcm)). injection Hcm as <-. cbn [read] in H.
  unfold project_earnings in H. set (c := read_on_connection m d) in *. cbn [facts read_earnings_sources] in H.
  apply bind_Ok in H as (projected & Hp & H). apply bind_Ok in H as (enriched & He & H).
  apply bind_Ok in H as (by_store & _ & H). injection H as <-. cbn [unassigned_sales]. unfold credited. cbn [agents].
  rewrite (credited_days _ _ _ _ _ _ _ _ _ Hp He). cbn [facts].
  assert (concat ((λ k, List.filter (λ x, bool_decide (d_agent x = k)) (work_of c)) <$> (e_agent <$> c_roster c))
          ≡ₚ work_of c) as Hpart.
  { apply partition_by; [apply roster_codes|]. intros y [Hy _]%elem_of_filterb. by apply day_agent. }
  rewrite (omap_perm _ _ _ Hpart). destruct (work_credit (cutoff p) (sales p) (work_of c) Hn) as [Hw Hk].
  { by apply work_places. }
  split; [|done]. rewrite Hw, filter_filter. etrans; [apply (filter_split (assigned (work_of c)))|].
  rewrite !filter_filter, Permutation_app_comm. apply reflexive_eq.
  f_equal. apply List.filter_ext; intros r; apply andb_comm.
Qed.
End Projection.
End EarningsSpec.

Module Commissions.
Import Earnings.

(** ** Commissions on amounts in hundredths, over [n] selling days *)

(** The bonus in whole RON, and 3% with the bonus rounded half up. *)
Definition bonus (s t n : Z) : Z :=
  if 120 * t <=? 100 * (s * n) then 400 else if t <=? s * n then 200 else 0.
Definition rounded (s b : Z) : Z := rdiv HALF_UP (3 * s + 10000 * b) 10000.
Definition monthly (s t n : Z) : Z := if 100 * (s * n) <? 80 * t then 0 else rounded s (bonus s t n).
Definition daily (s t n : Z) : Z := if 100 * (s * n) <? 79 * t then 0 else rounded s 0.

Lemma fixed z e : Z.abs z < 10 ^ 28 → fix_prec prec28 (Dec z e) = Dec z e.
Proof. intros H. by apply fix_prec_small. Qed.

Lemma times_int a z : Z.abs (a * z) < 10 ^ 28 → dmul prec28 (cents a) (of_int z) = cents (a * z).
Proof. intros H. unfold dmul. cbn. by apply fixed. Qed.

Lemma not_positive t : dleb (cents t) d0 = (t <=? 0).
Proof.
  unfold dleb, dcompare, scaled. cbn. change (pow10 0) with 1. rewrite Z.mul_1_r. unfold Z.leb.
  rewrite Z.mul_0_l. by destruct (t ?= 0).
Qed.

Lemma three_percent s : Z.abs s < 10 ^ 14 → dmul prec28 (cents s) rate_3 = Dec (3 * s) (-4).
Proof. intros H. unfold dmul, rate_3. cbn. rewrite Z.mul_comm. apply fixed. lia. Qed.

Lemma with_bonus s b :
  Z.abs s < 10 ^ 14 → 0 <= b <= 400 → dadd prec28 (Dec (3 * s) (-4)) (of_int b) = Dec (3 * s + 10000 * b) (-4).
Proof.
  intros Hs Hb. unfold dadd, scaled. cbn. change (pow10 0) with 1. change (pow10 4) with 10000.
  rewrite Z.mul_1_r, (Z.mul_comm b). apply fixed. lia.
Qed.

Lemma rounded_bound s b : Z.abs s < 10 ^ 14 → 0 <= b <= 400 → Z.abs (rounded s b) < 10 ^ 28.
Proof. intros Hs Hb. unfold rounded. pose proof (rdiv_half_up_error (3 * s + 10000 * b) 10000 ltac:(lia)). lia. Qed.

Lemma round_ron s b :
  Z.abs s < 10 ^ 14 → 0 <= b <= 400 → whole_ron (Dec (3 * s + 10000 * b) (-4)) = Ok (of_int (rounded s b)).
Proof.
  intros Hs Hb. unfold whole_ron, quantize. cbn. change (pow10 (0 - -4)) with 10000. fold (rounded s b).
  pose proof (rounded_bound s b Hs Hb) as H.
  destruct (Z.ltb_spec (Z.abs (rounded s b)) (pow10 prec28)) as [|Hge]; [done|].
  change (pow10 prec28) with (10 ^ 28) in Hge. lia.
Qed.

Lemma monthly_commission_cents s t n :
  Z.abs s < 10 ^ 14 → 0 < t < 10 ^ 14 → 0 < n <= 1000 →
  monthly_commission (cents s) (cents t) n = Ok (Some (of_int (monthly s t n))).
Proof.
  intros Hs Ht Hn. unfold monthly_commission. rewrite not_positive.
  rewrite (proj2 (Z.leb_gt t 0)), (proj2 (Z.leb_gt n 0)) by lia. cbn [orb].
  rewrite !times_int by nia. rewrite !dltb_cents, !dleb_cents. unfold monthly.
  rewrite (Z.mul_comm 100), (Z.mul_comm 80). destruct (s * n * 100 <? t * 80); [done|].
  rewrite three_percent by done. unfold bonus. rewrite (Z.mul_comm 120), (Z.mul_comm 100).
  destruct (t * 120 <=? s * n * 100); [|destruct (t <=? s * n)];
    unfold d0; rewrite with_bonus, round_ron by lia; done.
Qed.

Lemma daily_commission_cents s t n :
  Z.abs s < 10 ^ 14 → 0 < t < 10 ^ 14 → 0 < n <= 1000 →
  daily_commission (cents s) (cents t) n = Ok (Some (of_int (daily s t n))).
Proof.
  intros Hs Ht Hn. unfold daily_commission. rewrite not_positive.
  rewrite (proj2 (Z.leb_gt t 0)), (proj2 (Z.leb_gt n 0)) by lia. cbn [orb].
  rewrite !times_int by nia. rewrite !dltb_cents. unfold daily.
  rewrite (Z.mul_comm 100), (Z.mul_comm 79). destruct (s * n * 100 <? t * 79); [done|].
  rewrite three_percent by done. replace (3 * s) with (3 * s + 10000 * 0) by lia. by rewrite round_ron by lia.
Qed.

Lemma rounded_mono s s' b b' : 0 <= s <= s' → 0 <= b <= b' → 0 <= rounded s b <= rounded s' b'.
Proof.
  intros Hs Hb. unfold rounded. rewrite !rdiv_half_up_nonneg by lia.
  split; [apply Z.div_pos; lia|apply Z.div_le_mono; lia].
Qed.

Lemma bonus_range s t n : 0 <= bonus s t n <= 400.
Proof. unfold bonus. repeat case_match; lia. Qed.

Lemma bonus_mono s s' t n : s <= s' → 0 <= n → bonus s t n <= bonus s' t n.
Proof.
  intros Hs Hn. assert (s * n <= s' * n) by nia. unfold bonus.
  destruct (Z.leb_spec (120 * t) (100 * (s * n))), (Z.leb_spec (120 * t) (100 * (s' * n)));
    destruct (Z.leb_spec t (s * n)), (Z.leb_spec t (s' * n)); lia.
Qed.

(** C29: a commission is nothing under its threshold, 80% of the target for a month and
    79% for a day, and above it 3% of the sales, with 200 RON from the target and 400
    from 120% of it for a month, to half a RON; it never falls when sales rise.  For
    amounts below 10^14 cents, a positive target and n from 1 to 1000. *)
Theorem commission_rises_with_sales s s' t n :
  Z.abs s < 10 ^ 14 → Z.abs s' < 10 ^ 14 → 0 < t < 10 ^ 14 → 0 < n <= 1000 → s <= s' →
  ∃ m m' k k',
    monthly_commission (cents s) (cents t) n = Ok (Some (of_int m)) ∧
    monthly_commission (cents s') (cents t) n = Ok (Some (of_int m')) ∧
    daily_commission (cents s) (cents t) n = Ok (Some (of_int k)) ∧
    daily_commission (cents s') (cents t) n = Ok (Some (of_int k')) ∧
    0 <= m <= m' ∧ 0 <= k <= k' ∧
    (if 100 * (s * n) <? 80 * t then m = 0 else Z.abs (10000 * m - (3 * s + 10000 * bonus s t n)) <= 5000) ∧
    (if 100 * (s * n) <? 79 * t then k = 0 else Z.abs (10000 * k - 3 * s) <= 5000).
Proof.
  intros Hs Hs' Ht Hn Hle. exists (monthly s t n), (monthly s' t n), (daily s t n), (daily s' t n).
  rewrite !monthly_commission_cents, !daily_commission_cents by done. assert (s * n <= s' * n) by nia.
  pose proof (bonus_range s t n). pose proof (bonus_range s' t n). pose proof (bonus_mono s s' t n Hle ltac:(lia)).
  do 4 (split; [done|]). unfold monthly, daily. split; [|split; [|split]].
  - destruct (Z.ltb_spec (100 * (s * n)) (80 * t)), (Z.ltb_spec (100 * (s' * n)) (80 * t)); try lia.
    + split; [done|]. apply (rounded_mono s' s' (bonus s' t n) (bonus s' t n)); nia.
    + apply rounded_mono; nia.
  - destruct (Z.ltb_spec (100 * (s * n)) (79 * t)), (Z.ltb_spec (100 * (s' * n)) (79 * t)); try lia.
    + split; [done|]. apply (rounded_mono s' s' 0 0); nia.
    + apply rounded_mono; nia.
  - destruct (_ <? _); [done|]. unfold rounded.
    pose proof (rdiv_half_up_error (3 * s + 10000 * bonus s t n) 10000 ltac:(lia)). lia.
  - destruct (_ <? _); [done|]. unfold rounded.
    pose proof (rdiv_half_up_error (3 * s + 10000 * 0) 10000 ltac:(lia)). lia.
Qed.
End Commissions.

Module AttendanceSpec.
Import Calendar CalendarInv Attendance CalendarRead.

(** ** Opening hours stay valid *)

Definition hours_valid (d : db) : Prop := map_Forall (λ _ h, hours_ok h = true) (store_hours d).

Lemma put_roster_hours k r d d' : put_roster k r d = Ok d' → store_hours d' = store_hours d.
Proof. unfold put_roster. destruct (roster_check _ _); [|done]. by intros [= <-]. Qed.
Lemma put_transfer_hours k t d d' : put_transfer k t d = Ok d' → store_hours d' = store_hours d.
Proof. unfold put_transfer. intros H. by inv_res. Qed.
Lemma put_day_hours k x d d' : put_day k x d = Ok d' → store_hours d' = store_hours d.
Proof. unfold put_day. intros H. by inv_res. Qed.

Lemma release_day_hours d xs d' : release_day d xs = Ok d' → store_hours d' = store_hours d.
Proof.
  destruct xs as [x slot]. unfold release_day.
  set (d1 := if bool_decide (new_status x = Work) then _ else d).
  assert (store_hours d1 = store_hours d) as <- by (subst d1; by case_bool_decide).
  destruct (days d1 !! _); [|by intros [= <-]]. unfold update_day. intros H.
  apply bind_Ok in H as (slot' & _ & H). case_bool_decide; [by eapply put_day_hours|].
  destruct (days d1 !! _); [done|]. by apply put_day_hours in H.
Qed.

Lemma upsert_day_hours d xs d' : upsert_day d xs = Ok d' → store_hours d' = store_hours d.
Proof. unfold upsert_day. intros H. apply bind_Ok in H as (slot & _ & H). by apply put_day_hours in H. Qed.

Lemma save_closure_hours d c d' : save_closure d c = Ok d' → store_hours d' = store_hours d.
Proof.
  unfold save_closure. intros H. do 2 (apply bind_Ok in H as (? & _ & H)).
  destruct (closures d !! _), (c_closed c); try done; repeat (apply bind_Ok in H as (? & _ & H)); by injection H as <-.
Qed.

Lemma move_agent_hours m s from act sel c d a d' :
  move_agent m s from act sel c d a = Ok d' → store_hours d' = store_hours d.
Proof.
  unfold move_agent. intros H. destruct (entry_for a c) as [e|].
  - case_bool_decide; [by injection H as <-|]. apply bind_Ok in H as (? & _ & H).
    apply bind_Ok in H as (d1 & H1%put_transfer_hours & H).
    destruct (roster d1 !! _); [apply put_roster_hours in H|injection H as <-]; congruence.
  - apply bind_Ok in H as (? & _ & H). apply bind_Ok in H as (d1 & H1%put_roster_hours & H).
    apply bind_Ok in H as (d2 & H2 & H). apply bind_Ok in H as (d3 & H3%put_transfer_hours & H).
    apply put_roster_hours in H.
    assert (store_hours d2 = store_hours d1) by (destruct (date_ltb _ _); [by apply put_transfer_hours in H2|congruence]).
    congruence.
Qed.

Lemma fold_hours {A} (f : db → A → res calendar_error db) l d d' :
  (∀ t x t', f t x = Ok t' → store_hours t' = store_hours t) → foldR f d l = Ok d' → store_hours d' = store_hours d.
Proof.
  intros Hf H. apply (foldR_inv (λ _ t, store_hours t = store_hours d) f l d); [|done|done].
  intros _ x t t' Ht Hx. by rewrite (Hf _ _ _ Hx).
Qed.

Lemma save_closures_hours cs d d' : save_closures_in_transaction cs d = Ok d' → store_hours d' = store_hours d.
Proof. apply fold_hours, save_closure_hours. Qed.

Section Hours.
Context (projection_revision : calendar → string) (candidates : db → month_key → list string).

Lemma handle_hours k d d' : handle projection_revision candidates k d = Ok d' → hours_valid d → hours_valid d'.
Proof.
  intros H Hv. destruct k as [m a h act n reg|m xs cs|m cs|m s h n|m a h from act n|m s p from act sha|m a v n|m a u o n|m a t n];
    cbn [handle] in H; unfold hours_valid.
  - apply bind_Ok in H as (? & _ & H). apply snd_Ok in H as [saved H]. unfold save_roster in H.
    do 3 (apply bind_Ok in H as (? & _ & H)). apply bind_Ok in H as (d1 & H1%put_roster_hours & [= _ <-]). by rewrite H1.
  - apply bind_Ok in H as ([] & _ & H). destruct xs as [|y xs]; [by rewrite (save_closures_hours _ _ _ H)|].
    unfold save_days in H. apply bind_Ok in H as (l & _ & H).
    apply bind_Ok in H as (d1 & H1%(fold_hours _ _ _ _ release_day_hours) & H).
    apply bind_Ok in H as (d2 & H2%(fold_hours _ _ _ _ upsert_day_hours) & H). apply save_closures_hours in H.
    by rewrite H, H2, H1.
  - apply bind_Ok in H as (? & _ & H). by rewrite (save_closures_hours _ _ _ H).
  - apply snd_Ok in H as [saved H]. unfold save_hours in H. apply bind_Ok in H as ([] & Hok%raise_if_Ok & H).
    do 2 (apply bind_Ok in H as (? & _ & H)). injection H as _ <-. cbn. apply map_Forall_insert_2; [|done].
    change (hours_ok h = true). by destruct (hours_ok h).
  - unfold save_transfer in H. apply bind_Ok in H as (? & _ & H). destruct (roster d !! _); [|done].
    do 3 (apply bind_Ok in H as (? & _ & H)). apply bind_Ok in H as (d1 & H1%put_transfer_hours & H%put_roster_hours).
    by rewrite H, H1.
  - unfold save_store_team in H. do 4 (apply bind_Ok in H as (? & _ & H)).
    by rewrite (fold_hours _ _ _ _ (move_agent_hours _ _ _ _ _ _) H).
  - apply snd_Ok in H as [saved H]. unfold save_compensation in H. apply bind_Ok in H as (? & _ & H).
    destruct (roster d !! _); [|done]. do 3 (apply bind_Ok in H as (? & _ & H)). by injection H as _ <-.
  - apply snd_Ok in H as [saved H]. unfold save_epay in H. apply bind_Ok in H as (? & _ & H).
    destruct (roster d !! _); [|done]. do 2 (apply bind_Ok in H as (? & _ & H)). by injection H as _ <-.
  - apply snd_Ok in H as [saved H]. unfold save_target in H. apply bind_Ok in H as (? & _ & H).
    destruct (roster d !! _); [|done]. do 4 (apply bind_Ok in H as (? & _ & H)). by injection H as _ <-.
Qed.

Lemma reachable_hours d : Calendar.reachable projection_revision candidates d → hours_valid d.
Proof.
  unfold Calendar.reachable. intros H. cut (hours_valid empty_db); [|apply map_Forall_empty].
  induction H as [|x y z S _ IH]; [done|]. intros Hx. apply IH.
  destruct S as [k d d' H|ss d _]; [by eapply handle_hours|done].
Qed.
End Hours.

Lemma valid_hours_at m d s : hours_valid d → hours_ok (hours_at (settings_of (c_hours (read_on_connection m d))) s) = true.
Proof.
  intros Hv. unfold hours_at. destruct (dget s _) as [h|] eqn:Hd; [|reflexivity]. cbn.
  assert (∃ x, x ∈ hours_of m d ∧ x.2 = h) as ([s' h'] & Hin & <-).
  { revert Hd. unfold settings_of. cbn [c_hours read_on_connection]. generalize (hours_of m d) as l.
    intros l. cut (∀ acc : list (string * hours_row), dget s (foldl (λ s x, dput x.1 x.2 s) acc l) = Some h →
              (∃ x, x ∈ l ∧ x.2 = h) ∨ dget s acc = Some h).
    { intros C H. destruct (C [] H) as [|]; done. }
    induction l as [|x l IH]; intros acc H; cbn in H; [by right|].
    destruct (IH _ H) as [(y & Hy & He)|Hg]; [left; exists y; split; [by right|done]|].
    rewrite dget_dput in Hg. case_decide; [|by right]. injection Hg as <-. left. exists x. split; [by left|done]. }
  unfold hours_of in Hin. rewrite elem_of_sorted_by, list_elem_of_omap in Hin.
  destruct Hin as ([k h] & Hk%elem_of_map_to_list & He). cbn in He. case_bool_decide; [|done]. injection He as _ <-.
  by eapply Hv.
Qed.

(** ** Counting *)

Inductive kind := Minutes | Worked | OnLeave | DayOff.

Definition measure (q : kind) (a : attendance) : Z :=
  match q with Minutes => worked_minutes a | Worked => work_days a | OnLeave => leave_days a | DayOff => off_days a end.

(** What one scheduled day adds. *)
Definition gain (settings : list (string * hours_row)) (q : kind) (x : calendar_day) : Z :=
  match q, d_status x with
  | Minutes, Work => net_minutes (hours_at settings (d_site x))
  | Worked, Work | OnLeave, Leave | DayOff, Off => 1
  | _, _ => 0
  end.

Definition tally settings (q : kind) (P : calendar_day → bool) (xs : list calendar_day) : Z :=
  sumZ (gain settings q <$> List.filter P xs).

Definition of_agent (k : string) (x : calendar_day) : bool := bool_decide (d_agent x = k).
Definition of_agent_at (k s : string) (x : calendar_day) : bool := bool_decide (d_agent x = k ∧ d_site x = s).

Lemma of_agent_eq k x : of_agent k x = bool_decide (d_agent x = k).
Proof. done. Qed.
Lemma of_agent_at_eq k s x : of_agent_at k s x = bool_decide (d_agent x = k ∧ d_site x = s).
Proof. done. Qed.

Lemma tally_snoc settings q P xs x :
  tally settings q P (xs ++ [x]) = tally settings q P xs + (if P x then gain settings q x else 0).
Proof. unfold tally. rewrite List.filter_app, fmap_app, sumZ_app. cbn. destruct (P x); cbn; lia. Qed.

Lemma count_day_gain settings x a a' q :
  count_day settings x a = Ok a' → measure q a' = measure q a + gain settings q x ∧ a_agent a' = a_agent a.
Proof.
  unfold count_day, gain. destruct a as [agent minutes work leave off by_site], (d_status x); intros H.
  - unfold minutes_of in H. destruct (hours_ok _); [|done]. injection H as <-. destruct q; cbn; split; try done; lia.
  - injection H as <-. destruct q; cbn; split; try done; lia.
  - injection H as <-. destruct q; cbn; split; try done; lia.
  - injection H as <-. destruct q; cbn; split; try done; lia.
Qed.

Lemma count_day_total settings x a :
  (∀ s, hours_ok (hours_at settings s) = true) → ∃ a', count_day settings x a = Ok a'.
Proof.
  intros Hv. destruct a as [agent minutes work leave off by_site]. unfold count_day, minutes_of.
  destruct (d_status x); [rewrite Hv|..]; by eexists.
Qed.

(** The entry of an agent in a table of a store, empty at first. *)
Definition entry (k : string) (rows : list (string * attendance)) : attendance :=
  default (no_attendance k) (dget k rows).

Lemma dput_sum {V} (g : string * V → Z) k v d :
  sumZ (g <$> dput k v d) + match dget k d with Some w => g (k, w) | None => 0 end = sumZ (g <$> d) + g (k, v).
Proof.
  induction d as [|[k' w] d IH]; cbn; [lia|]. destruct (decide (k = k')) as [<-|]; cbn; lia.
Qed.

(** The totals after some days. *)
Record counted settings (codes : list string) (pre : list calendar_day) (st : totals) : Prop := Counted {
  ct_codes : st.1.*1 = codes;
  ct_agents : ∀ k a, dget k st.1 = Some a →
    a_agent a = k ∧ ∀ q, measure q a = tally settings q (of_agent k) pre;
  ct_stores : NoDup st.2.*1;
  ct_rows : ∀ s rows, dget s st.2 = Some rows → NoDup rows.*1 ∧ ∀ k a, dget k rows = Some a → a_agent a = k;
  ct_local : ∀ s k q, measure q (entry k (default [] (dget s st.2))) = tally settings q (of_agent_at k s) pre;
  ct_sum : ∀ k q, sumZ ((λ x, measure q (entry k x.2)) <$> st.2) = tally settings q (of_agent k) pre;
}.

Lemma entry_dput k k' a rows : entry k (dput k' a rows) = if decide (k = k') then a else entry k rows.
Proof. unfold entry. rewrite dget_dput. by case_decide. Qed.

Lemma entry_agent k rows : (∀ a, dget k rows = Some a → a_agent a = k) → a_agent (entry k rows) = k.
Proof. unfold entry. destruct (dget k rows) as [a|]; [|done]. intros H. by apply H. Qed.

Lemma attend_counted settings codes pre x st st' :
  counted settings codes pre st → attend settings st x = Ok st' → counted settings codes (pre ++ [x]) st'.
Proof.
  intros [C1 C2 C3 C4 C5 C6] H. unfold attend in H.
  destruct (is_cancelled x) eqn:Hc.
  { injection H as <-. apply bool_decide_eq_true in Hc.
    assert (∀ q, gain settings q x = 0) as G by (intros []; unfold gain; by rewrite Hc).
    assert (∀ q P, tally settings q P (pre ++ [x]) = tally settings q P pre) as T.
    { intros q P. rewrite tally_snoc, G. destruct (P x); lia. }
    split; [done| |done|done|..]; intros; rewrite ?T; try done.
    destruct (C2 _ _ ltac:(eassumption)) as [E M]. split; [done|]. intros q. by rewrite T. }
  destruct (dget (d_agent x) st.1) as [a|] eqn:Ha; [|done].
  apply bind_Ok in H as (a' & Ha' & H). apply bind_Ok in H as (l' & Hl' & H). injection H as <-.
  set (store := default [] (dget (d_site x) st.2)) in *. fold (entry (d_agent x) store) in Hl'.
  assert (∀ q, measure q a' = measure q a + gain settings q x) as Ga by (intros q; by apply (count_day_gain _ _ _ _ q)).
  assert (∀ q, measure q l' = measure q (entry (d_agent x) store) + gain settings q x) as Gl
    by (intros q; by apply (count_day_gain _ _ _ _ q)).
  assert (NoDup store.*1 ∧ ∀ k b, dget k store = Some b → a_agent b = k) as [Sn Sa].
  { subst store. destruct (dget (d_site x) st.2) as [rows|] eqn:Hr; [by apply C4 in Hr|]. split; [constructor|done]. }
  assert (a_agent l' = d_agent x) as El.
  { destruct (count_day_gain _ _ _ _ Worked Hl') as [_ ->]. by apply entry_agent, Sa. }
  split; cbn [fst snd].
  - rewrite dput_keys, decide_True; [done|]. apply dget_is_Some. by eexists.
  - intros k b. rewrite dget_dput. case_decide as E.
    + intros [= <-]. subst k. destruct (C2 _ _ Ha) as [E M].
      split; [by destruct (count_day_gain _ _ _ _ Worked Ha') as [_ ->]|].
      intros q. rewrite tally_snoc, Ga, M. rewrite of_agent_eq. by rewrite bool_decide_eq_true_2.
    + intros Hb. destruct (C2 _ _ Hb) as [Eb M]. split; [done|]. intros q. rewrite tally_snoc, M. rewrite of_agent_eq.
      rewrite bool_decide_eq_false_2 by congruence. lia.
  - by apply dput_NoDup.
  - intros s rows. rewrite dget_dput. case_decide as E; [|apply C4]. intros [= <-]. split; [by apply dput_NoDup|].
    intros k b. rewrite dget_dput. case_decide; [|apply Sa]. intros [= <-]. by subst.
  - intros s k q. rewrite dget_dput, tally_snoc. rewrite of_agent_at_eq. case_decide as E.
    + subst s. cbn [from_option id]. rewrite entry_dput. case_decide as Ek.
      * subst k. rewrite bool_decide_eq_true_2 by done. rewrite Gl. f_equal. apply C5.
      * rewrite bool_decide_eq_false_2 by naive_solver. rewrite <- C5. fold store. lia.
    + rewrite bool_decide_eq_false_2 by naive_solver. rewrite C5. lia.
  - intros k q. rewrite tally_snoc, <- C6.
    pose proof (dput_sum (λ y, measure q (entry k y.2)) (d_site x) (dput (d_agent x) l' store) st.2) as D. cbn [snd] in D.
    assert (match dget (d_site x) st.2 with Some w => measure q (entry k w) | None => 0 end = measure q (entry k store)) as E0.
    { subst store. destruct (dget (d_site x) st.2); [done|]. by destruct q. }
    rewrite E0, entry_dput in D. rewrite of_agent_eq. case_decide as Ek.
    + subst k. rewrite bool_decide_eq_true_2 by done. rewrite Gl in D. lia.
    + rewrite bool_decide_eq_false_2 by congruence. lia.
Qed.

Lemma attend_ok settings st x :
  (∀ s, hours_ok (hours_at settings s) = true) → d_agent x ∈ st.1.*1 →
  ∃ st', attend settings st x = Ok st' ∧ ∀ k, k ∈ st.1.*1 → k ∈ st'.1.*1.
Proof.
  intros Hv Hin. unfold attend. destruct (is_cancelled x); [by eexists|].
  apply dget_is_Some in Hin as [a Ha]. rewrite Ha. destruct (count_day_total settings x a Hv) as [a' ->].
  destruct (count_day_total settings x (default (no_attendance (d_agent x))
    (dget (d_agent x) (default [] (dget (d_site x) st.2)))) Hv) as [l' Hl].
  eexists. cbn. rewrite Hl. split; [done|]. intros k Hk. cbn. apply elem_of_dput_keys. by right.
Qed.

Lemma attend_total settings days : ∀ st,
  (∀ s, hours_ok (hours_at settings s) = true) → (∀ x, x ∈ days → d_agent x ∈ st.1.*1) →
  ∃ st', foldR (attend settings) st days = Ok st'.
Proof.
  induction days as [|x days IH]; intros st Hv Hin; [by eexists|]. cbn [foldR].
  destruct (attend_ok settings st x Hv) as (st1 & -> & Hk); [apply Hin; by left|]. cbn [mbind res_bind].
  apply IH; [done|]. intros y Hy. apply Hk, Hin. by right.
Qed.

(** The agents of the roster, none of them counted yet. *)
Definition fresh (roster : list roster_entry) : list (string * attendance) :=
  foldl (λ d e, dput (e_agent e) (no_attendance (e_agent e)) d) [] roster.

Lemma fresh_agents roster :
  NoDup (e_agent <$> roster) →
  NoDup (fresh roster).*1 ∧ (∀ k, k ∈ (fresh roster).*1 ↔ k ∈ e_agent <$> roster) ∧
  ∀ k a, dget k (fresh roster) = Some a → a = no_attendance k.
Proof.
  intros Hn. assert (∀ k a, dget k (fresh roster) = Some a ↔ ∃ e, e ∈ roster ∧ e_agent e = k ∧ no_attendance (e_agent e) = a) as D.
  { intros k a. unfold fresh. rewrite (foldl_dput_get e_agent (λ e, no_attendance (e_agent e)) roster []);
      [|done|by intros ? _ ?%elem_of_nil]. cbn. split; [by intros [|]|by right]. }
  split_and!.
  - unfold fresh. clear. assert (NoDup (([] : list (string * attendance)).*1)) as H by constructor. revert H.
    generalize ([] : list (string * attendance)) as d.
    induction roster as [|e roster IH]; intros d H; [done|]. cbn. by apply IH, dput_NoDup.
  - intros k. rewrite <- dget_is_Some, list_elem_of_fmap. split.
    + intros [a (e & He & <- & _)%D]. by exists e.
    + intros (e & -> & He). exists (no_attendance (e_agent e)). apply D. by exists e.
  - intros k a (e & _ & <- & <-)%D. done.
Qed.

Lemma fresh_counted settings roster :
  NoDup (e_agent <$> roster) → counted settings (fresh roster).*1 [] (fresh roster, []).
Proof.
  intros Hn. destruct (fresh_agents roster Hn) as (F1 & F2 & F3).
  split; cbn; try done; [|by constructor|by intros s k []].
  intros k a ->%F3. split; [done|]. by intros [].
Qed.

Lemma elem_by_key {V} (d : list (string * V)) v : NoDup d.*1 → v ∈ snd <$> by_key d ↔ ∃ k, dget k d = Some v.
Proof.
  intros Hn. unfold by_key. rewrite list_elem_of_fmap. setoid_rewrite elem_of_sorted_by. split.
  - intros ([k w] & -> & Hin). exists k. by apply dget_elem.
  - intros (k & Hk). exists (k, v). split; [done|]. by apply dget_elem.
Qed.

(** Of the rows of a store only one is an agent's. *)
Lemma rows_sum q k rows :
  NoDup rows.*1 → (∀ k a, dget k rows = Some a → a_agent a = k) →
  sumZ (measure q <$> List.filter (λ a, bool_decide (a_agent a = k)) (snd <$> by_key rows)) = measure q (entry k rows).
Proof.
  intros Hn Ha. unfold by_key. rewrite (filterb_perm _ (snd <$> _) (snd <$> rows)) by by rewrite sorted_by_perm.
  induction rows as [|[k' a] rows IH]; [by destruct q|]. apply NoDup_cons in Hn as [Hk Hn].
  assert (a_agent a = k') as Ea by (apply Ha; apply dget_here).
  assert (sumZ (measure q <$> List.filter (λ a, bool_decide (a_agent a = k)) (snd <$> rows)) = measure q (entry k rows)) as IH'.
  { apply IH; [done|]. intros j b Hj. apply Ha. cbn. rewrite decide_False; [done|]. intros ->.
    apply Hk, dget_is_Some. by eexists. }
  unfold entry in *. cbn. case_bool_decide as E; cbn; rewrite IH'.
  - rewrite decide_True by congruence. subst. assert (dget (a_agent a) rows = None) as -> by by apply dget_None.
    cbn. destruct q; cbn; lia.
  - rewrite decide_False by congruence. done.
Qed.

Lemma codes_listed (st : list (string * attendance)) codes (roster : list string) :
  st.*1 = codes → NoDup codes → NoDup roster → (∀ k, k ∈ codes ↔ k ∈ roster) →
  (∀ k a, dget k st = Some a → a_agent a = k) →
  a_agent <$> (snd <$> by_key st) ≡ₚ roster.
Proof.
  intros <- Hc Hr Hin Ha. unfold by_key. rewrite sorted_by_perm, <- list_fmap_compose.
  assert ((a_agent ∘ snd) <$> st = st.*1) as ->.
  { apply list_fmap_ext. intros i [k a] H%list_elem_of_lookup_2. cbn. apply Ha. by apply dget_elem. }
  by apply NoDup_Permutation.
Qed.

Lemma stores_sum q k (st : list (string * list (string * attendance))) :
  NoDup st.*1 → (∀ s rows, dget s st = Some rows → NoDup rows.*1 ∧ ∀ k a, dget k rows = Some a → a_agent a = k) →
  sumZ (measure q <$> List.filter (λ a, bool_decide (a_agent a = k))
          (concat (snd <$> ((λ s, (s.1, snd <$> by_key s.2)) <$> by_key st))))
  = sumZ ((λ x, measure q (entry k x.2)) <$> st).
Proof.
  intros Hn Hrows. rewrite <- list_fmap_compose. unfold by_key at 2.
  rewrite <- (sorted_by_perm (leb_on fst String.leb) st) at 2.
  assert (∀ x, x ∈ sorted_by (leb_on fst String.leb) st → x ∈ st) as Hin by (intros x; apply elem_of_sorted_by).
  revert Hin. generalize (sorted_by (leb_on fst String.leb) st) as l. intros l Hin.
  induction l as [|[s rows] l IH]; [done|]. cbn. rewrite List.filter_app, fmap_app, sumZ_app.
  rewrite IH by (intros x Hx; apply Hin; by right). f_equal.
  assert (dget s st = Some rows) as H by (apply dget_elem; [done|]; apply Hin; by left).
  destruct (Hrows _ _ H). by apply rows_sum.
Qed.

Section Counts.
Context (projection_revision : calendar → string) (candidates : db → month_key → list string).

(** C28: attendance is the calendar: in every reachable database it is computed, lists
    every agent of the roster once, and counts each scheduled day that was not
    cancelled once, with the opening hours of its store, for its agent and at its
    recorded store only; over the stores an agent's counts add up to the agent's. *)
Theorem attendance_counts m d :
  Calendar.reachable projection_revision candidates d →
  let c := read_on_connection m d in
  let settings := settings_of (c_hours c) in
  ∃ cm, project_calendar c = Ok cm ∧
    a_agent <$> attendance_list cm ≡ₚ e_agent <$> c_roster c ∧
    ∀ q,
      (∀ a, a ∈ attendance_list cm → measure q a = tally settings q (of_agent (a_agent a)) (c_days c)) ∧
      (∀ s rows a, (s, rows) ∈ attendance_by_store cm → a ∈ rows →
         measure q a = tally settings q (of_agent_at (a_agent a) s) (c_days c)) ∧
      (∀ k, sumZ (measure q <$> List.filter (λ a, bool_decide (a_agent a = k)) (concat (snd <$> attendance_by_store cm)))
            = tally settings q (of_agent k) (c_days c)).
Proof.
  intros Hr%reachable_hours c settings. destruct (roster_codes m d) as [Hn _].
  destruct (fresh_agents _ Hn) as (F1 & F2 & F3).
  assert (∀ s, hours_ok (hours_at settings s) = true) as Hv by (intros s; by apply valid_hours_at).
  destruct (attend_total settings (c_days c) (fresh (c_roster c), [])) as [st Hst]; [done| |].
  { intros x Hx. apply F2. by apply day_agent. }
  pose proof (foldR_inv (counted settings (fresh (c_roster c)).*1) _ _ _ _
    (λ done x t t' Ht, attend_counted _ _ _ _ _ _ Ht) (fresh_counted settings _ Hn) Hst) as [C1 C2 C3 C4 C5 C6].
  destruct (mapR_total (attendance_of settings) (λ _ _, True) (List.filter (λ x, negb (is_cancelled x)) (c_days c)))
    as (ds & Hds & _).
  { intros x _. unfold attendance_of, minutes_of. rewrite Hv. destruct (d_status x); by eexists. }
  eexists. split.
  { unfold project_calendar, attendance_by_agent_and_store, attendance_days. fold (fresh (c_roster c)). fold settings.
    rewrite Hst. cbn [mbind res_bind]. rewrite Hds. reflexivity. }
  cbn [attendance_list attendance_by_store fst snd].
  split; [apply (codes_listed st.1 (fresh (c_roster c)).*1); [done..|intros k a Ha; by apply C2]|].
  intros q. split_and!.
  - intros a (k & Hk)%elem_by_key; [|by rewrite C1]. destruct (C2 _ _ Hk) as [-> M]. apply M.
  - intros s rows a ([s' rows'] & [= -> ->] & Hs)%list_elem_of_fmap Ha.
    unfold by_key in Hs. rewrite elem_of_sorted_by in Hs. apply dget_elem in Hs; [|done].
    destruct (C4 _ _ Hs) as [Rn Ra]. apply elem_by_key in Ha as (k & Hk); [|done].
    rewrite (Ra _ _ Hk). rewrite <- C5, Hs. cbn. unfold entry. by rewrite Hk.
  - intros k. rewrite <- C6. by apply stores_sum.
Qed.
End Counts.
End AttendanceSpec.

Module EarningsDemo.
Import Calendar CalendarDemo Attendance Earnings AttendanceSpec EarningsSpec Commissions.

(** ** Runs: the calendar of [CalendarDemo] with published sales up to the 12th *)

Definition ron (z : Z) : dec := cents (100 * z).

Definition sold_rows : list sales_row :=
  [ SalesRow "PROM" (on 10) (ron 1000); SalesRow "PROM" (on 11) (ron 500); SalesRow "CORA" (on 12) (ron 800);
    SalesRow "PROM" (on 12) (ron 700); SalesRow "CORA" (on 11) (ron 90); SalesRow "PROM" (on 13) (ron 60) ].
Definition june_sales : published :=
  Published (Some (on 12)) sold_rows [("PROM"%string, on 10, 4)]
    [("PROM", ron 3000); ("CORA", ron 1000); ("SUD", ron 10)]%string [] [("ion"%string, ron 20)] true.

Definition in_order (l : list string) : list string := l.

Definition june_earnings (set_order : list string → list string) : result earnings_month :=
  earnings (on 15) set_order june_sales june june_db.

Definition known (g : agent_earnings) : string * option Z := (g_agent g, to_int <$> known_earnings g).

(** Ana is over 120% of her own target; the visit of Ion at CORA pays by the day, that
    of Tudor is under the threshold. *)
Example june_pay :
  match june_earnings in_order with
  | Ok e => (known <$> agents e, s_amount <$> unassigned_sales e)
  | Err _ => ([], [])
  end = ([("ana", Some 430); ("ion", Some 24); ("tudor", Some 0)]%string, [ron 90; ron 60]).
Proof. vm_compute. reflexivity. Qed.

Lemma sales_credited_once_witness :
  ∃ e, june_earnings in_order = Ok e ∧
    List.filter (is_published june_sales) sold_rows
    ≡ₚ List.filter (is_published june_sales) (unassigned_sales e) ++ credited e ∧
    length (credited e) = 4%nat.
Proof.
  destruct (june_earnings in_order) as [e|x] eqn:E; [|vm_compute in E; discriminate E].
  exists e. split; [reflexivity|]. split.
  - refine (proj1 (sales_credited_once (on 15) in_order digest catalog june_sales june june_db e june_reachable _ E)).
    apply NoDup_ListNoDup. repeat (constructor; [cbn; intuition discriminate|]). constructor.
  - vm_compute in E. injection E as <-. vm_compute. reflexivity.
Defined.

Lemma attendance_counts_witness :
  ∃ cm, project_calendar (read_on_connection june june_db) = Ok cm ∧
    a_agent <$> attendance_list cm ≡ₚ ["ana"; "ion"; "tudor"]%string ∧
    worked_minutes <$> attendance_list cm = [690; 690 + 660; 690] .
Proof.
  destruct (attendance_counts digest catalog june june_db june_reachable) as (cm & H & L & _).
  exists cm. split; [exact H|]. split; [exact L|]. vm_compute in H. injection H as <-. vm_compute. reflexivity.
Defined.

Lemma commission_rises_with_sales_witness :
  ∃ m m', monthly_commission (ron 800) (ron 1000) 1 = Ok (Some (of_int m)) ∧
    monthly_commission (ron 1200) (ron 1000) 1 = Ok (Some (of_int m')) ∧ m <= m'.
Proof.
  destruct (commission_rises_with_sales 80000 120000 100000 1) as (m & m' & k & k' & H & H' & _ & _ & Hm & _);
    [lia..|]. exists m, m'. split; [exact H|]. split; [exact H'|]. lia.
Defined.

(** The cases of the rules at their thresholds. *)
Example thresholds :
  (λ s, monthly s 100000 1) <$> [79999; 80000; 99999; 100000; 119999; 120000] = [0; 24; 30; 230; 236; 436] ∧
  (λ s, daily s 100000 1) <$> [78999; 79000; 80000; -1000] = [0; 24; 24; 0].
Proof. split; reflexivity. Qed.

(** C: the revision of the earnings depends on the process that computes it: one
    database and one publication give results that differ only in the order of the
    stores, which follows the order of a set; whatever the digest, unless it confuses
    the two, the export asked for the revision of the one is refused by the other. *)
Theorem earnings_revision_depends_on_process :
  ∃ order1 order2 e1 e2,
    (∀ l, order1 l ≡ₚ l) ∧ (∀ l, order2 l ≡ₚ l) ∧
    june_earnings order1 = Ok e1 ∧ june_earnings order2 = Ok e2 ∧
    agents e1 = agents e2 ∧ stores_of e1 ≡ₚ stores_of e2 ∧
    ∀ dg : earnings_month → list (string * dec) → string,
      dg e1 (store_targets june_sales) ≠ dg e2 (store_targets june_sales) →
      export_earnings (on 15) order2 dg june_sales june (dg e1 (store_targets june_sales)) june_db = Err Changed.
Proof.
  exists in_order, (@rev string).
  destruct (june_earnings in_order) as [e1|x] eqn:E1; [|vm_compute in E1; discriminate E1].
  destruct (june_earnings (@rev string)) as [e2|x] eqn:E2; [|vm_compute in E2; discriminate E2].
  exists e1, e2. split_and!; [done|intros l; symmetry; apply Permutation_rev|done|done|..].
  - vm_compute in E1, E2. injection E1 as <-. injection E2 as <-. reflexivity.
  - vm_compute in E1, E2. injection E1 as <-. injection E2 as <-. vm_compute. apply (Permutation_rev [_; _; _]).
  - intros dg Hd. unfold export_earnings. change (earnings (on 15) (@rev string) june_sales june june_db) with (june_earnings (@rev string)).
    rewrite E2. cbn [mbind res_bind]. destruct (String.eqb_spec (dg e2 (store_targets june_sales)) (dg e1 (store_targets june_sales))); [congruence|done].
Qed.
End EarningsDemo.
