(* ===== verification/Promo.v ===== *)
(** Promotion actuals: the exact allocation of store-level units and values to
    agents ([services/promo_allocation.py]), the aggregation primitives
    ([services/promo_types.py]) and the receipts of same-model promotions
    ([services/promo_same_model.py]). *)

From S2P Require Import Prelude Decimal.

Local Open Scope Z_scope.

Module Promo.

(** ** Units *)

Record share := Share {
  agent : string;
  positive_qty : Z;
  units : Z;
  remainder : Z;
}.

Definition eligible (c : string * Z) : bool :=
  negb (bool_decide (c.1 = ""%string)) && negb (bool_decide (c.1 = "-"%string)) && (0 <? c.2).

Definition base_share (distributable total_positive : Z) (c : string * Z) : share :=
  let numerator := distributable * c.2 in
  Share c.1 c.2 (Z.min c.2 (numerator / total_positive)) (numerator mod total_positive).

(** Largest remainder first, then larger quantity, then agent name; the order
    lists positions of the allocations. *)
Definition share_leb : nat * share → nat * share → bool :=
  lex_leb (cmp_on (λ p, - remainder p.2) Z.compare)
    (lex_leb (cmp_on (λ p, - positive_qty p.2) Z.compare)
       (leb_on (λ p, agent p.2) String.leb)).

Definition share_order (l : list share) : list nat :=
  fst <$> sorted_by share_leb (zip (seq 0 (length l)) l).

Definition add_unit (s : share) : share :=
  Share (agent s) (positive_qty s) (units s + 1) (remainder s).

(** The loop that hands out the remaining units, one per allocation. *)
Fixpoint give_units (order : list nat) (remaining : Z) (l : list share) : list share :=
  match order with
  | [] => l
  | i :: order' =>
      if remaining <=? 0 then l
      else match l !! i with
           | Some s =>
               if positive_qty s <=? units s then give_units order' remaining l
               else give_units order' (remaining - 1) (<[i := add_unit s]> l)
           | None => l
           end
  end.

Definition allocate_units_to_agents (promo_units : Z) (candidates : list (string * Z))
    : list (string * Z) :=
  let promo_units := Z.max 0 promo_units in
  if promo_units <=? 0 then []
  else
    let normalized := List.filter eligible candidates in
    let total_positive := sumZ (snd <$> normalized) in
    if total_positive <=? 0 then [("-"%string, promo_units)]
    else
      let distributable := Z.min promo_units total_positive in
      let shares := base_share distributable total_positive <$> normalized in
      let remaining := distributable - sumZ (units <$> shares) in
      let final := give_units (share_order shares) remaining shares in
      let rows := (λ s, (agent s, units s)) <$> List.filter (λ s, 0 <? units s) final in
      if total_positive <? promo_units
      then rows ++ [("-"%string, promo_units - total_positive)]
      else rows.

(** ** Values *)

Record part := Part { part_agent : string; part_cents : Z; part_remainder : dec }.

Definition value_part (total_cents total_units : Z) (a : string * Z) : res signal part :=
  exact ← ddiv prec28 (of_int (total_cents * a.2)) (of_int total_units);
  let cents := to_integral FLOOR exact in
  Ok (Part a.1 cents (dsub prec28 exact (of_int cents))).

Definition part_leb : nat * part → nat * part → bool :=
  lex_leb (cmp_on (λ p, part_remainder p.2) (cmp_desc dcompare))
    (leb_on (λ p, part_agent p.2) String.leb).

Fixpoint give_cents (order : list nat) (assigned total : Z) (l : list part) : list part :=
  match order with
  | [] => l
  | i :: order' =>
      if total <=? assigned then l
      else match l !! i with
           | Some p =>
               give_cents order' (assigned + 1) total
                 (<[i := Part (part_agent p) (part_cents p + 1) (part_remainder p)]> l)
           | None => l
           end
  end.

(** The result is a dict by agent: a repeated agent keeps its last amount, at
    its first position. *)
Fixpoint dict_set (k : string) (v : dec) (d : list (string * dec)) : list (string * dec) :=
  match d with
  | [] => [(k, v)]
  | (k', v') :: d' => if bool_decide (k' = k) then (k, v) :: d' else (k', v') :: dict_set k v d'
  end.

Definition allocate_value_to_agents (total_value : dec) (allocations : list (string * Z))
    : res signal (list (string * dec)) :=
  let total_units := sumZ (snd <$> allocations) in
  if total_units <=? 0 then Ok []
  else
    q ← quantize prec28 HALF_UP 0 (dmul prec28 total_value (of_int 100));
    let total_cents := to_int q in
    parts ← mapR (value_part total_cents total_units) allocations;
    let order := fst <$> sorted_by part_leb (zip (seq 0 (length parts)) parts) in
    let final := give_cents order (sumZ (part_cents <$> parts)) total_cents parts in
    foldR (λ d p, v ← ddiv prec28 (of_int (part_cents p)) (of_int 100);
                  Ok (dict_set (part_agent p) v d)) [] final.

(** ** Aggregation *)

Definition item_key : Type := string * string * string.

Record result := Result {
  qualifying_bons : Z;
  discounted_units : Z;
  active_stores : nat;
  active_agents : nat;
  excluded_units : gmap item_key Z;
  excluded_discount_values : gmap item_key dec;
}.

Definition total_units (m : gmap item_key Z) : Z := map_fold (λ _ u acc, u + acc) 0 m.

Definition result_from_metrics (us : gmap item_key Z) (vs : gmap item_key dec) : result :=
  let stores : gset string := set_map (λ k : item_key, k.1.1) (dom us) in
  let agents : gset string :=
    filter (λ a, a ≠ ""%string ∧ a ≠ "-"%string) (set_map (λ k : item_key, k.1.2) (dom us)) in
  let total := total_units us in
  Result total total (size stores) (size agents) us vs.

(** [for key, units in d.items(): acc[key] = acc.get(key, 0) + units]. *)
Definition add_units (acc m : gmap item_key Z) : gmap item_key Z :=
  map_fold (λ k u acc, <[k := default 0 (acc !! k) + u]> acc) acc m.

Definition add_values (acc m : gmap item_key dec) : gmap item_key dec :=
  map_fold (λ k v acc, <[k := dadd prec28 (default d0 (acc !! k)) v]> acc) acc m.

Definition merge_promo_results (results : list (option result)) : result :=
  let merged := foldl (λ acc r, match r with
    | None => acc
    | Some r => (add_units acc.1 (excluded_units r), add_values acc.2 (excluded_discount_values r))
    end) (∅, ∅) results in
  result_from_metrics merged.1 merged.2.

(** [excluded_by_site_item]: the agents are summed away. *)
Definition excluded_by_site_item (r : result) : gmap (string * string) Z :=
  map_fold (λ (k : item_key) u acc,
      <[(k.1.1, k.2) := default 0 (acc !! (k.1.1, k.2)) + u]> acc) ∅ (excluded_units r).

(** ** Same-model receipts *)

Record sale := Sale {
  sale_id : Z;
  sale_date : string;
  sale_site : string;
  sale_agent : string;
  bon_nr : string;
  item_code : string;
  quantity : Z;
  unit_price : dec;
}.

Record camera_line := Camera {
  line_price : dec;
  line_item : string;
  line_id : Z;
  line_models : gset string;
}.

Record receipt := Receipt { screen_models : gset string; camera_lines : list camera_line }.

Definition receipt_key : Type := string * string * string * string.

(** A Python dict in insertion order: update the entry of a key, or append it. *)
Fixpoint update_entry {K V} `{EqDecision K} (k : K) (init : V) (f : V → V) (d : list (K * V))
    : list (K * V) :=
  match d with
  | [] => [(k, f init)]
  | (k', v) :: d' => if bool_decide (k' = k) then (k', f v) :: d' else (k', v) :: update_entry k init f d'
  end.

Section SameModel.
Context (screen_code_models camera_code_models : gmap string (gset string)).

Definition add_line (s : sale) (r : receipt) : receipt :=
  let screens := screen_models r ∪ default ∅ (screen_code_models !! item_code s) in
  let cameras := default ∅ (camera_code_models !! item_code s) in
  Receipt screens
    (if bool_decide (cameras = ∅) then camera_lines r
     else camera_lines r ++ [Camera (unit_price s) (item_code s) (sale_id s) cameras]).

Definition same_model_receipts (rows : list sale) : list (receipt_key * receipt) :=
  foldl (λ d s,
    if quantity s <=? 0 then d
    else update_entry (sale_date s, sale_site s, sale_agent s, bon_nr s)
           (Receipt ∅ []) (add_line s) d) [] rows.
End SameModel.

Definition candidates (r : receipt) : list camera_line :=
  List.filter (λ l, negb (bool_decide (screen_models r ∩ line_models l = ∅))) (camera_lines r).

(** [key=lambda line: (line[0], line[1], line[2])]. *)
Definition line_leb : camera_line → camera_line → bool :=
  lex_leb (cmp_on line_price dcompare)
    (lex_leb (cmp_on line_item String.compare) (leb_on line_id Z.leb)).

(** [min(candidates, key=...)]: the first of the smallest lines. *)
Definition cheapest (l : camera_line) (ls : list camera_line) : camera_line :=
  foldl (λ best x, if line_leb best x then best else x) l ls.

Definition discount_step (acc : list (item_key * (Z * dec))) (kr : receipt_key * receipt)
    : list (item_key * (Z * dec)) :=
  let '((_, site, agent, _), r) := kr in
  match candidates r with
  | [] => acc
  | l :: ls =>
      let best := cheapest l ls in
      update_entry (site, agent, line_item best) (0, d0)
        (λ uv, (uv.1 + 1, dadd prec28 uv.2 (line_price best))) acc
  end.

Definition same_model_discounted_rows (receipts : list (receipt_key * receipt))
    : list (item_key * (Z * dec)) := foldl discount_step [] receipts.

End Promo.
