(* ===== verification/PromoSpec.v ===== *)
(** Properties of the promotion actuals of [Promo.v]: the unit allocation is
    exact and proportional, merging adds up, and a same-model promotion
    discounts one unit per qualifying receipt. *)

From S2P Require Import Prelude Decimal Promo.
Import Promo.

Local Open Scope Z_scope.

(** ** The largest-remainder allocation *)

Definition raised (s s' : share) : Prop :=
  agent s' = agent s ∧ positive_qty s' = positive_qty s ∧
  (units s' = units s ∨ (units s' = units s + 1 ∧ units s < positive_qty s)).

Lemma raised_refl s : raised s s.
Proof. split_and!; auto. Qed.

Lemma give_units_spec order rem l :
  NoDup order → (∀ i, i ∈ order → ∃ s, l !! i = Some s ∧ units s < positive_qty s) →
  rem <= Z.of_nat (length order) →
  Forall2 raised l (give_units order rem l) ∧
  (∀ i, i ∉ order → give_units order rem l !! i = l !! i) ∧
  sumZ (units <$> give_units order rem l) = sumZ (units <$> l) + Z.max 0 rem.
Proof.
  intros Hnd. revert rem l. induction Hnd as [|i order Hi Hnd IH]; intros rem l Hroom Hlen; cbn.
  - split_and!; [|done|cbn in Hlen; lia]. apply Forall_Forall2_diag, Forall_forall.
    intros; apply raised_refl.
  - destruct (Z.leb_spec rem 0).
    { split_and!; [|done|lia]. apply Forall_Forall2_diag, Forall_forall. intros; apply raised_refl. }
    destruct (Hroom i) as (s & Hs & Hlt); [by left|]. rewrite Hs.
    replace (positive_qty s <=? units s) with false by lia.
    destruct (IH (rem - 1) (<[i := add_unit s]> l)) as (H1 & H2 & H3).
    + intros j Hj. destruct (Hroom j) as (t & Ht & ?); [by right|]. exists t.
      rewrite list_lookup_insert_ne; [done|]. by intros ->.
    + cbn in Hlen. lia.
    + split_and!.
      * apply Forall2_lookup. intros j. destruct (decide (j = i)) as [->|Hne].
        -- rewrite H2 by done.
           rewrite list_lookup_insert_eq by (by eapply lookup_lt_Some). rewrite Hs.
           constructor. split_and!; cbn; auto.
        -- rewrite Forall2_lookup in H1. specialize (H1 j).
           by rewrite list_lookup_insert_ne in H1.
      * intros j Hj. rewrite H2 by set_solver. rewrite list_lookup_insert_ne; [done|].
        intros ->. apply Hj. by left.
      * rewrite H3, (sumZ_insert units l i s) by done. cbn. lia.
Qed.

Lemma share_order_perm l : share_order l ≡ₚ seq 0 (length l).
Proof.
  unfold share_order. rewrite sorted_by_perm.
  rewrite fst_zip; [done|]. by rewrite length_seq.
Qed.

Lemma base_share_bounds d t c :
  0 <= d <= t → 0 < t → 0 < c.2 →
  let s := base_share d t c in
  units s = d * c.2 / t ∧ 0 <= units s <= positive_qty s ∧
  d * c.2 = t * units s + remainder s ∧ 0 <= remainder s < t ∧ (d < t → units s < positive_qty s).
Proof.
  intros Hd Ht Hc s. subst s. cbn.
  pose proof (Z.div_mod (d * c.2) t ltac:(lia)) as Hdm.
  pose proof (Z.mod_pos_bound (d * c.2) t Ht) as Hmod.
  assert (Hle : d * c.2 / t <= c.2) by (apply Z.div_le_upper_bound; nia).
  rewrite Z.min_r by done. split_and!; try lia.
  - apply Z.div_pos; nia.
  - intros Hlt. apply Z.div_lt_upper_bound; nia.
Qed.

(** The deficit left by rounding down is below the number of shares. *)
Lemma deficit_bound d t l :
  0 <= d <= t → 0 < t → Forall (λ c : string * Z, 0 < c.2) l → sumZ (snd <$> l) = t →
  let shares := base_share d t <$> l in
  0 <= d - sumZ (units <$> shares) <= Z.of_nat (length shares) ∧
  (d = t → d - sumZ (units <$> shares) = 0).
Proof.
  intros Hd Ht Hl Hsum shares.
  assert (Hb : d * sumZ (snd <$> l) = t * sumZ (units <$> shares) + sumZ (remainder <$> shares) ∧
               0 <= sumZ (remainder <$> shares) <= t * Z.of_nat (length shares) ∧
               (d = t → sumZ (units <$> shares) = sumZ (snd <$> l))).
  { subst shares. clear Hsum. induction Hl as [|c l Hc Hl IH]; cbn [fmap list_fmap sumZ length].
    - cbn. lia.
    - destruct (base_share_bounds d t c Hd Ht Hc) as (Hu & _ & H1 & H2 & _).
      destruct IH as (I1 & I2 & I3). cbn [fmap list_fmap] in *.
      split_and!; [lia|lia|nia|]. intros ->. rewrite I3 by done.
      rewrite Hu, Z.mul_comm, Z.div_mul by lia. lia. }
  destruct Hb as (H1 & H2 & H3). rewrite Hsum in *. split; [nia|].
  intros Heq. rewrite H3 by done. lia.
Qed.

Lemma zip_rows_filter (l : list share) :
  snd <$> ((λ s, (agent s, units s)) <$> List.filter (λ s, 0 <? units s) l)
  = units <$> List.filter (λ s, 0 <? units s) l.
Proof. by rewrite <- list_fmap_compose. Qed.

Lemma sumZ_filter_pos {A} (f : A → Z) l :
  Forall (λ x, 0 <= f x) l → sumZ (f <$> List.filter (λ x, 0 <? f x) l) = sumZ (f <$> l).
Proof.
  induction 1 as [|x l Hx Hl IH]; [done|]. cbn. destruct (Z.ltb_spec 0 (f x)); cbn; lia.
Qed.

Lemma raised_bounds d t l final :
  0 <= d <= t → 0 < t → Forall (λ c : string * Z, 0 < c.2) l →
  Forall2 raised (base_share d t <$> l) final →
  Forall2 (λ c s, agent s = c.1 ∧ 0 <= units s <= c.2 ∧ Z.abs (units s * t - d * c.2) <= t) l final.
Proof.
  intros Hd Ht Hl. revert final. induction Hl as [|c l Hc Hl IH]; intros final H.
  - apply Forall2_nil_inv_l in H as ->. constructor.
  - apply Forall2_cons_inv_l in H as (s & final' & (Ha & Hq & Hu) & Hf & ->).
    constructor; [|by apply IH].
    destruct (base_share_bounds d t c Hd Ht Hc) as (_ & H1 & H2 & H3 & _).
    cbn [agent positive_qty base_share] in *. cbn in Ha. cbn in H1. split; [done|].
    cbn [base_share units remainder positive_qty] in *. destruct Hu as [-> | [-> Hlt]]; lia.
Qed.

(** The output rows, from the aligned units. *)
Lemma rows_zip (l : list (string * Z)) (final : list share) :
  Forall2 (λ c s, agent s = c.1) l final →
  (λ s, (agent s, units s)) <$> List.filter (λ s, 0 <? units s) final =
  List.filter (λ p, 0 <? p.2) (zip (fst <$> l) (units <$> final)).
Proof.
  induction 1 as [|c s l final Hc _ IH]; [done|]. cbn.
  destruct (0 <? units s); cbn; rewrite IH, ?Hc; done.
Qed.

(** C40: the allocation hands out every promoted unit: named agents share
    min(promoted, sold) units in proportion to what they sold, each within one
    unit of the exact share and never above its own sales; what nobody can have
    sold stays on the anonymous row. *)
Theorem allocate_units_exact promo_units cands :
  let normalized := List.filter eligible cands in
  let t := sumZ (snd <$> normalized) in
  let d := Z.min (Z.max 0 promo_units) t in
  sumZ (snd <$> allocate_units_to_agents promo_units cands) = Z.max 0 promo_units ∧
  (0 < promo_units → 0 < t → ∃ us,
     Forall2 (λ c u, 0 <= u <= c.2 ∧ Z.abs (u * t - d * c.2) <= t) normalized us ∧
     sumZ us = d ∧
     allocate_units_to_agents promo_units cands =
       List.filter (λ p, 0 <? p.2) (zip (fst <$> normalized) us) ++
       (if t <? promo_units then [("-"%string, promo_units - t)] else [])).
Proof.
  intros normalized t d.
  assert (Hpos : Forall (λ c : string * Z, 0 < c.2) normalized).
  { apply List.Forall_forall. intros c [_ Hc]%filter_In. unfold eligible in Hc. by split_bools. }
  unfold allocate_units_to_agents. fold normalized t.
  destruct (Z.leb_spec (Z.max 0 promo_units) 0); [cbn; split; lia|].
  replace (Z.max 0 promo_units) with promo_units in * by lia.
  destruct (Z.leb_spec t 0); [cbn; split; lia|].
  replace (Z.min promo_units t) with d by lia.
  set (shares := base_share d t <$> normalized).
  destruct (deficit_bound d t normalized) as [Hrem Hrem0]; try done; [lia|].
  fold shares in Hrem, Hrem0. set (rem := d - sumZ (units <$> shares)) in *.
  assert (Hspec : Forall2 raised shares (give_units (share_order shares) rem shares) ∧
                  sumZ (units <$> give_units (share_order shares) rem shares) = d).
  { destruct (decide (d = t)) as [Hdt|Hdt].
    - assert (Hz : give_units (share_order shares) rem shares = shares).
      { replace rem with 0 by (symmetry; apply Hrem0, Hdt). by destruct (share_order shares). }
      rewrite Hz. split; [|pose proof (Hrem0 Hdt); lia].
      apply Forall_Forall2_diag, Forall_forall. intros; apply raised_refl.
    - destruct (give_units_spec (share_order shares) rem shares) as (H1 & _ & H3).
      + rewrite share_order_perm. apply NoDup_seq.
      + intros i Hi. rewrite share_order_perm in Hi. apply elem_of_seq in Hi.
        destruct (lookup_lt_is_Some_2 shares i) as [s Hs]; [lia|]. exists s. split; [done|].
        subst shares. apply list_lookup_fmap_Some in Hs as (c & -> & Hc).
        apply base_share_bounds; try lia. by eapply (Forall_lookup_1 _ _ _ _ Hpos Hc).
      + rewrite share_order_perm, length_seq. lia.
      + split; [done|]. lia. }
  destruct Hspec as [Hr Hsum]. set (final := give_units _ _ _) in *.
  assert (Hus := raised_bounds d t normalized final ltac:(lia) ltac:(lia) Hpos Hr).
  rewrite (rows_zip normalized final) by (eapply Forall2_impl; [exact Hus|]; by intros ?? (? & _)).
  assert (Hnn : Forall (λ s, 0 <= units s) final).
  { eapply Forall2_right; [|exact Hus]. cbn. lia. }
  split.
  - rewrite <- (rows_zip normalized final) by (eapply Forall2_impl; [exact Hus|]; by intros ?? (? & _)).
    destruct (Z.ltb_spec t promo_units).
    + rewrite fmap_app, sumZ_app, zip_rows_filter, sumZ_filter_pos by done. cbn. lia.
    + rewrite zip_rows_filter, sumZ_filter_pos by done. lia.
  - intros _ _. exists (units <$> final). split_and!; [|done|].
    + apply Forall2_fmap_r. eapply Forall2_impl; [exact Hus|]. cbn. by intros ?? (_ & ? & ?).
    + destruct (t <? promo_units); [done|by rewrite app_nil_r].
Qed.

Lemma allocate_units_exact_witness :
  allocate_units_to_agents 10 [("ana", 6); ("dan", 5); ("-", 9); ("eva", 1)]%string
    = [("ana", 5); ("dan", 4); ("eva", 1)]%string ∧
  ∃ us, Forall2 (λ c u, 0 <= u <= c.2 ∧ Z.abs (u * 12 - 10 * c.2) <= 12)
    [("ana", 6); ("dan", 5); ("eva", 1)]%string us ∧ sumZ us = 10.
Proof.
  split; [vm_compute; reflexivity|].
  destruct (allocate_units_exact 10 [("ana", 6); ("dan", 5); ("-", 9); ("eva", 1)]%string)
    as [_ H].
  destruct H as (us & H1 & H2 & _); [lia|vm_compute; reflexivity|].
  exists us. split; [exact H1|exact H2].
Defined.

(** ** Merging results *)

Lemma total_units_fresh m k v : m !! k = None → total_units (<[k := v]> m) = v + total_units m.
Proof. intros Hk. unfold total_units. apply map_fold_insert_L; [|done]. intros; lia. Qed.

Lemma total_units_bump m k u :
  total_units (<[k := default 0 (m !! k) + u]> m) = total_units m + u.
Proof.
  destruct (m !! k) as [v|] eqn:Hk; cbn.
  - rewrite <- (insert_delete_id m k v) at 2 by done.
    rewrite <- insert_delete_eq, !total_units_fresh by apply lookup_delete_eq. lia.
  - rewrite total_units_fresh by done. lia.
Qed.

Lemma add_units_total acc m : total_units (add_units acc m) = total_units acc + total_units m.
Proof.
  unfold add_units.
  apply (map_fold_weak_ind (λ r m, total_units r = total_units acc + total_units m)).
  - unfold total_units at 3. rewrite map_fold_empty. lia.
  - intros k u m' r Hk IH. rewrite total_units_bump, IH, total_units_fresh by done. lia.
Qed.

Lemma add_units_lookup acc m k :
  default 0 (add_units acc m !! k) = default 0 (acc !! k) + default 0 (m !! k).
Proof.
  unfold add_units.
  apply (map_fold_weak_ind (λ r m, default 0 (r !! k) = default 0 (acc !! k) + default 0 (m !! k))).
  - rewrite lookup_empty. cbn. lia.
  - intros j u m' r Hj IH. destruct (decide (k = j)) as [->|Hne].
    + rewrite !lookup_insert_eq. cbn. rewrite IH, Hj. cbn. lia.
    + by rewrite !lookup_insert_ne by done.
Qed.

Definition units_of (r : option result) : gmap item_key Z :=
  match r with Some r => excluded_units r | None => ∅ end.

Lemma merge_units results acc :
  let merged := foldl (λ acc r, match r with
    | None => acc
    | Some r => (add_units acc.1 (excluded_units r), add_values acc.2 (excluded_discount_values r))
    end) acc results in
  total_units merged.1 = total_units acc.1 + sumZ ((λ r, total_units (units_of r)) <$> results) ∧
  ∀ k, default 0 (merged.1 !! k) =
       default 0 (acc.1 !! k) + sumZ ((λ r, default 0 (units_of r !! k)) <$> results).
Proof.
  revert acc. induction results as [|[r|] results IH]; intros acc; cbn zeta; cbn [foldl fmap list_fmap sumZ].
  - split; intros; lia.
  - destruct (IH (add_units acc.1 (excluded_units r), add_values acc.2 (excluded_discount_values r)))
      as [H1 H2]. cbn [fst units_of] in *. split.
    + rewrite H1, add_units_total. lia.
    + intros k. rewrite H2, add_units_lookup. lia.
  - destruct (IH acc) as [H1 H2]. cbn [units_of]. split.
    + rewrite H1. unfold total_units at 4. rewrite map_fold_empty. lia.
    + intros k. rewrite H2, lookup_empty. cbn. lia.
Qed.

(** Merging adds up: the merged result's units are, key by key and in total,
    the sums over the results that are present. *)
Theorem merge_adds_up results :
  let m := merge_promo_results results in
  discounted_units m = sumZ ((λ r, total_units (units_of r)) <$> results) ∧
  qualifying_bons m = discounted_units m ∧
  ∀ k, default 0 (excluded_units m !! k) = sumZ ((λ r, default 0 (units_of r !! k)) <$> results).
Proof.
  intros m. subst m. unfold merge_promo_results.
  destruct (merge_units results (∅, ∅)) as [H1 H2].
  set (merged := foldl _ _ _) in *. cbn [result_from_metrics discounted_units qualifying_bons excluded_units].
  split_and!; [|done|].
  - rewrite H1. unfold total_units at 1. cbn [fst]. rewrite map_fold_empty. lia.
  - intros k. rewrite H2. cbn [fst]. rewrite lookup_empty. cbn. lia.
Qed.

(** ** Same-model receipts *)

#[local] Instance line_leb_total : TotalLeb line_leb.
Proof. unfold line_leb. apply _. Qed.

Lemma cheapest_spec l ls :
  cheapest l ls ∈ l :: ls ∧ ∀ x, x ∈ l :: ls → line_leb (cheapest l ls) x = true.
Proof.
  unfold cheapest. revert l. induction ls as [|y ls IH]; intros l; cbn [foldl].
  - split; [by left|]. intros x ->%list_elem_of_singleton. by destruct (leb_total (le := line_leb) l l).
  - destruct (line_leb l y) eqn:Hly.
    + destruct (IH l) as [Hin Hmin]. split; [set_solver|].
      intros x [->|[->|Hx]%elem_of_cons]%elem_of_cons.
      * apply Hmin. by left.
      * eapply leb_trans; [|exact Hly]. apply Hmin. by left.
      * apply Hmin. by right.
    + destruct (IH y) as [Hin Hmin]. split; [set_solver|].
      intros x [->|Hx]%elem_of_cons; [|by apply Hmin].
      eapply leb_trans; [apply Hmin; by left|].
      destruct (leb_total (le := line_leb) l y); congruence.
Qed.

Lemma update_entry_units k f (d : list (item_key * (Z * dec))) :
  (∀ uv, (f uv).1 = uv.1 + 1) →
  sumZ ((λ e, e.2.1) <$> update_entry k (0, d0) f d) = sumZ ((λ e, e.2.1) <$> d) + 1.
Proof.
  intros Hf. induction d as [|[k' v] d IH]; cbn.
  - rewrite Hf. cbn. lia.
  - case_bool_decide; cbn; [rewrite Hf; lia|]. unfold fmap in IH |- *. lia.
Qed.

Lemma update_entry_NoDup {K V} `{EqDecision K} (k : K) (init : V) f d :
  NoDup (fst <$> d) → NoDup (fst <$> update_entry k init f d) ∧
  (∀ x, x ∈ fst <$> update_entry k init f d → x = k ∨ x ∈ fst <$> d).
Proof.
  induction d as [|[k' v] d IH]; cbn; intros Hn.
  - split; [apply NoDup_singleton|]. intros x ->%list_elem_of_singleton. by left.
  - apply NoDup_cons in Hn as [Hk Hn]. destruct (IH Hn) as [I1 I2].
    case_bool_decide as Heq; cbn.
    + split; [by apply NoDup_cons|]. set_solver.
    + split; [|set_solver]. apply NoDup_cons. split; [|done]. intros [->|?]%I2; done.
Qed.

(** A same-model promotion discounts one unit per receipt that has a
    qualifying camera line: the aggregated units count those receipts, every
    (store, agent, item) has one row, and the line discounted on a receipt is a
    cheapest qualifying one. *)
Theorem same_model_one_per_receipt receipts :
  let out := same_model_discounted_rows receipts in
  sumZ ((λ e, e.2.1) <$> out) =
    Z.of_nat (length (List.filter (λ kr, negb (bool_decide (length (candidates kr.2) = 0%nat))) receipts)) ∧
  NoDup (fst <$> out) ∧
  (∀ r l ls, candidates r = l :: ls → cheapest l ls ∈ camera_lines r ∧
     ∀ x, x ∈ camera_lines r → screen_models r ∩ line_models x ≠ ∅ →
       line_leb (cheapest l ls) x = true).
Proof.
  intros out. subst out. unfold same_model_discounted_rows. split_and!.
  - rewrite <- (Z.add_0_l (Z.of_nat _)).
    change 0 with (sumZ ((λ e : item_key * (Z * dec), e.2.1) <$> [])) at 1.
    generalize (@nil (item_key * (Z * dec))) as acc.
    induction receipts as [|[[[[dt site] ag] bon] r] rs IH]; intros acc; cbn [foldl]; [cbn; lia|].
    rewrite IH. cbn [discount_step List.filter snd].
    destruct (candidates r) as [|l ls]; cbn [length negb]; [done|].
    rewrite update_entry_units by done. rewrite bool_decide_eq_false_2 by done.
    cbn [negb length]. lia.
  - assert (H : NoDup (fst <$> @nil (item_key * (Z * dec)))) by apply NoDup_nil_2.
    revert H. generalize (@nil (item_key * (Z * dec))) as acc.
    induction receipts as [|[[[[dt site] ag] bon] r] rs IH]; intros acc Hacc; [done|].
    cbn [foldl]. apply IH. cbn [discount_step]. destruct (candidates r) as [|l ls]; [done|].
    by apply update_entry_NoDup.
  - intros r l ls Hc. destruct (cheapest_spec l ls) as [Hin Hmin]. rewrite <- Hc in *.
    split.
    + unfold candidates in Hin. by apply list_elem_of_In, filter_In in Hin as [?%list_elem_of_In _].
    + intros x Hx Hne. apply Hmin. unfold candidates. apply list_elem_of_In, filter_In.
      split; [by apply list_elem_of_In|]. by apply negb_true_iff, bool_decide_eq_false.
Qed.
