(* ===== verification/SalesText.v ===== *)
(** The canonical text of a staged sales generation
    ([services/sales_generation.py], migration 037): the digest that binds a
    manifest to its rows is taken of this text. *)

From Stdlib Require Import Ascii DecimalString DecimalN DecimalZ.
From S2P Require Import Prelude Text Grile.

Local Open Scope Z_scope.

Module SalesText.

(** ** Rows *)

(** The facts a staged row shares with the live table. *)
Record facts := Facts {
  f_month : string;
  sale_date : Grile.date;
  site_code : string;
  bon_nr : string;
  item_code : string;
  item_name : string;
  brand : option string;
  category : option string;
  subcategory : option string;
  quantity : Z;
  unit_price : Z;   (* NUMERIC(10,2), in hundredths *)
  total_value : Z;
  agent : string;
  is_cartela : bool;
  is_return : bool;
}.
#[global] Instance facts_eq : EqDecision facts.
Proof. solve_decision. Defined.

(** A row of [sales_import_stage_rows]; its number is its position. *)
Record stage_row := StageRow {
  locatie : string;
  firma : string;
  regional : string;
  asm : string;
  row_facts : facts;
}.
#[global] Instance stage_row_eq : EqDecision stage_row.
Proof. solve_decision. Defined.

(** ** Scalars *)

Notation text := (list ascii).
Definition chars : string → text := String.list_ascii_of_string.

(** [str(n)]. *)
Definition int_text (z : Z) : string := NilEmpty.string_of_int (Z.to_int z).
Definition nat_text (n : nat) : string := NilEmpty.string_of_uint (N.to_uint (N.of_nat n)).

Definition pad (width : nat) (s : string) : string :=
  String.concat "" (repeat "0"%string (width - String.length s)) +:+ s.

(** [date.isoformat()]. *)
Definition isoformat (d : Grile.date) : string :=
  pad 4 (int_text (Grile.year d)) +:+ "-" +:+ pad 2 (int_text (Grile.month d)) +:+ "-"
  +:+ pad 2 (int_text (Grile.day d)).

(** [f"{value:.2f}"] of a number of hundredths. *)
Definition money_text (c : Z) : string :=
  (if c <? 0 then "-" else "") +:+ int_text (Z.abs c / 100) +:+ "."
  +:+ pad 2 (int_text (Z.abs c mod 100)).

Definition bool_text (b : bool) : string := if b then "true" else "false".

(** The values of a row, in the digest's order. *)
Definition stage_values (number : nat) (r : stage_row) : list (option string) :=
  let f := row_facts r in
  [Some (nat_text number); Some (f_month f); Some (isoformat (sale_date f)); Some (site_code f);
   Some (locatie r); Some (firma r); Some (regional r); Some (asm r); Some (bon_nr f);
   Some (item_code f); Some (item_name f); brand f; category f; subcategory f;
   Some (int_text (quantity f)); Some (money_text (unit_price f)); Some (money_text (total_value f));
   Some (agent f); Some (bool_text (is_cartela f)); Some (bool_text (is_return f))].

(** ** The text *)

(** [_stage_digest_scalar]: ["N"] or ["V"], the length in bytes, [":"], the text. *)
Definition scalar (value : option string) : text :=
  match value with
  | None => ["N"%char]
  | Some s => "V"%char :: chars (nat_text (String.length s)) ++ ":"%char :: chars s
  end.

Definition field_separator : ascii := "031".
Definition row_separator : ascii := "030".

Fixpoint join (sep : ascii) (l : list text) : text :=
  match l with
  | [] => []
  | [x] => x
  | x :: l' => x ++ sep :: join sep l'
  end.

Definition row_text (vs : list (option string)) : text := join field_separator (scalar <$> vs).

Definition text_of_values (rows : list (list (option string))) : text :=
  join row_separator (row_text <$> rows).

(** [enumerate(df.itertuples(), start=1)]. *)
Definition numbered (rows : list stage_row) : list (list (option string)) :=
  imap (λ i r, stage_values (S i) r) rows.

Definition stage_text (rows : list stage_row) : text := text_of_values (numbered rows).

(** ** A decoder *)

Fixpoint split_colon (l : text) : option (text * text) :=
  match l with
  | [] => None
  | c :: l' => if one_of ":" c then Some ([], l')
               else match split_colon l' with Some (a, b) => Some (c :: a, b) | None => None end
  end.

Definition parse_scalar (l : text) : option (option string * text) :=
  match l with
  | c :: l' =>
      if one_of "N" c then Some (None, l')
      else if one_of "V" c then
        '(digits, rest) ← split_colon l';
        u ← NilEmpty.uint_of_string (String.string_of_list_ascii digits);
        let n := N.to_nat (N.of_uint u) in
        if Nat.leb n (length rest)
        then Some (Some (String.string_of_list_ascii (take n rest)), drop n rest)
        else None
      else None
  | [] => None
  end.

Fixpoint parse_rows (fuel : nat) (l : text) : option (list (list (option string))) :=
  match fuel with
  | O => None
  | S fuel' =>
      '(x, rest) ← parse_scalar l;
      match rest with
      | [] => Some [[x]]
      | c :: rest' =>
          rows ← parse_rows fuel' rest';
          if bool_decide (c = row_separator) then Some ([x] :: rows)
          else if bool_decide (c = field_separator)
               then match rows with row :: rows' => Some ((x :: row) :: rows') | [] => None end
               else None
      end
  end.

Definition values_of_text (l : text) : option (list (list (option string))) :=
  match l with [] => Some [] | _ => parse_rows (length l) l end.

End SalesText.

(** The canonical text of a staged generation determines its rows. *)

Module SalesTextSpec.
Import SalesText.

Lemma chars_of_string l : chars (String.string_of_list_ascii l) = l.
Proof. apply String.list_ascii_of_string_of_list_ascii. Qed.

Lemma string_of_chars s : String.string_of_list_ascii (chars s) = s.
Proof. apply String.string_of_list_ascii_of_string. Qed.

Lemma chars_length s : length (chars s) = String.length s.
Proof. induction s; cbn; congruence. Qed.

(** ** Digits hold no colon *)

Lemma digits_no_colon u rest :
  split_colon (chars (NilEmpty.string_of_uint u) ++ ":"%char :: rest)
  = Some (chars (NilEmpty.string_of_uint u), rest).
Proof. induction u; cbn; [done|by rewrite IHu..]. Qed.

Lemma parse_scalar_none rest : parse_scalar (scalar None ++ rest) = Some (None, rest).
Proof. done. Qed.

Lemma parse_scalar_some s rest : parse_scalar (scalar (Some s) ++ rest) = Some (Some s, rest).
Proof.
  cbn. unfold nat_text. rewrite <- app_assoc. cbn.
  rewrite digits_no_colon. cbn. rewrite string_of_chars, NilEmpty.usu. cbn.
  rewrite DecimalN.Unsigned.of_to, Nat2N.id.
  rewrite <- (chars_length s).
  rewrite (proj2 (Nat.leb_le _ _)) by (rewrite length_app; lia).
  by rewrite take_app_length, drop_app_length, string_of_chars.
Qed.

Lemma parse_scalar_ok v rest : parse_scalar (scalar v ++ rest) = Some (v, rest).
Proof. destruct v; [apply parse_scalar_some|apply parse_scalar_none]. Qed.

Lemma scalar_cons v : ∃ c l, scalar v = c :: l.
Proof. destruct v; cbn; eauto. Qed.

(** ** Rows *)

(** A non-empty row followed by a row separator or the end. *)
Lemma parse_rows_step v vs rows fuel rest :
  (length (row_text (v :: vs) ++ rest) ≤ fuel)%nat →
  match rest with
  | [] => rows = []
  | c :: rest' => c = row_separator ∧
                  ∀ fuel', (length rest' ≤ fuel')%nat → parse_rows fuel' rest' = Some rows
  end →
  parse_rows fuel (row_text (v :: vs) ++ rest) = Some ((v :: vs) :: rows).
Proof.
  revert v fuel. induction vs as [|w vs IH]; intros v fuel Hf Hrest.
  - unfold row_text in *; cbn [fmap list_fmap join] in *.
    destruct fuel as [|fuel].
    { destruct (scalar_cons v) as (c & l & E). rewrite E in Hf. cbn in Hf. lia. }
    cbn [parse_rows]. rewrite parse_scalar_ok. cbn.
    destruct rest as [|c rest']; [by subst|]. destruct Hrest as [-> Hr].
    rewrite Hr; [done|]. destruct (scalar_cons v) as (c & l & E).
    rewrite E in Hf. cbn in Hf. rewrite length_app in Hf. cbn in Hf. lia.
  - unfold row_text in *; cbn [fmap list_fmap join] in *.
    rewrite <- app_assoc in *. cbn [app] in *.
    destruct (scalar_cons v) as (c & l & E).
    assert (Hlen : (1 ≤ length (scalar v))%nat) by (rewrite E; cbn; lia).
    rewrite length_app in Hf. cbn [length] in Hf.
    destruct fuel as [|fuel]; [exfalso; lia|].
    cbn [parse_rows]. rewrite parse_scalar_ok. cbn.
    rewrite (IH w fuel); [done|lia|done].
Qed.

(** Every row has at least one field: the digest writes twenty. *)
Definition rows_ok (rows : list (list (option string))) : Prop := Forall (λ r, r ≠ []) rows.

Lemma row_text_cons v vs : ∃ c l, row_text (v :: vs) = c :: l.
Proof.
  destruct (scalar_cons v) as (c & l & E). unfold row_text.
  destruct vs; cbn; rewrite E; cbn; eauto.
Qed.

Lemma parse_rows_ok rows fuel :
  rows_ok rows → rows ≠ [] → (length (text_of_values rows) ≤ fuel)%nat →
  parse_rows fuel (text_of_values rows) = Some rows.
Proof.
  intros Hrows. revert fuel. induction Hrows as [|r rows Hr Hrows IH]; [done|].
  intros fuel _. destruct r as [|v vs]; [done|].
  unfold text_of_values. cbn [fmap list_fmap]. destruct rows as [|r' rows].
  - cbn [fmap list_fmap join].
    rewrite <- (app_nil_r (row_text (v :: vs))). intros Hf. by apply parse_rows_step.
  - cbn [fmap list_fmap] in *. cbn [join]. intros Hf.
    apply parse_rows_step; [done|]. split; [done|]. intros fuel' Hf'. by apply IH.
Qed.

Lemma values_roundtrip rows : rows_ok rows → values_of_text (text_of_values rows) = Some rows.
Proof.
  intros Hrows. destruct rows as [|r rows]; [done|].
  unfold values_of_text. destruct (text_of_values (r :: rows)) eqn:E.
  - exfalso. inversion Hrows as [|? ? Hr _]; subst. destruct r as [|v vs]; [done|].
    unfold text_of_values in E. cbn [fmap list_fmap] in E. destruct (row_text_cons v vs) as (c & l & Ec).
    destruct rows; cbn [fmap list_fmap join] in E; rewrite Ec in E; done.
  - rewrite <- E. apply parse_rows_ok; [done..|]. lia.
Qed.

Lemma text_of_values_inj rows rows' :
  rows_ok rows → rows_ok rows' → text_of_values rows = text_of_values rows' → rows = rows'.
Proof.
  intros H1%values_roundtrip H2%values_roundtrip E. rewrite E in H1. congruence.
Qed.

(** ** Numbers and dates *)

Lemma int_text_inj a b : int_text a = int_text b → a = b.
Proof.
  unfold int_text. intros E. apply (f_equal NilEmpty.int_of_string) in E.
  rewrite !NilEmpty.isi in E. injection E as E.
  by rewrite <- (DecimalZ.of_to a), E, DecimalZ.of_to.
Qed.

(** The sign of a number cannot be read off two ways. *)
Lemma int_text_sign a b : 0 <= b → "-" +:+ int_text a ≠ int_text b.
Proof.
  unfold int_text. intros Hb E. apply (f_equal NilEmpty.int_of_string) in E.
  rewrite NilEmpty.isi in E.
  assert (∃ u, Z.to_int b = Decimal.Pos u) as [u Hu] by (destruct b; cbn; eauto; lia).
  rewrite Hu in E. destruct (Z.to_int a) as [v|v].
  - change (option_map Decimal.Neg (NilEmpty.uint_of_string (NilEmpty.string_of_uint v))
            = Some (Decimal.Pos u)) in E. by rewrite NilEmpty.usu in E.
  - change (option_map Decimal.Neg (uint_of_char "-"
              (NilEmpty.uint_of_string (NilEmpty.string_of_uint v))) = Some (Decimal.Pos u)) in E.
    by rewrite NilEmpty.usu in E.
Qed.

Lemma string_app_inj_right s1 s2 t1 t2 :
  String.length t1 = String.length t2 → s1 +:+ t1 = s2 +:+ t2 → s1 = s2 ∧ t1 = t2.
Proof.
  intros Hl. revert s2. induction s1 as [|c s1 IH]; intros [|c2 s2].
  - done.
  - intros E. apply (f_equal String.length) in E. rewrite !string_length_app in E. cbn in E. lia.
  - intros E. apply (f_equal String.length) in E. rewrite !string_length_app in E. cbn in E. lia.
  - rewrite !string_app_cons. intros [= -> E]. by apply IH in E as [-> ->].
Qed.

Lemma string_app_inj_left s1 s2 t1 t2 :
  String.length s1 = String.length s2 → s1 +:+ t1 = s2 +:+ t2 → s1 = s2 ∧ t1 = t2.
Proof.
  revert s2. induction s1 as [|c s1 IH]; intros [|c2 s2]; cbn [String.length]; try done.
  rewrite !string_app_cons. intros [= Hl] [= -> E]. by apply IH in E as [-> ->].
Qed.

Lemma scalar_inj v w : scalar v = scalar w → v = w.
Proof.
  intros E. assert (H : parse_scalar (scalar v ++ []) = parse_scalar (scalar w ++ [])) by congruence.
  rewrite !parse_scalar_ok in H. congruence.
Qed.

(** [padded w n]: the [w] digits of a number below [10^w], read back. *)
Definition padded_ok (w : nat) (n : Z) : bool :=
  Nat.eqb (String.length (pad w (int_text n))) w
  && bool_decide ((Z.of_int <$> NilEmpty.int_of_string (pad w (int_text n))) = Some n).

Lemma padded_range w k n :
  forallb (padded_ok w) (Z.of_nat <$> seq 0 k) = true → 0 <= n < Z.of_nat k → padded_ok w n = true.
Proof.
  rewrite forallb_forall. intros H Hn. apply H. apply list_elem_of_In, list_elem_of_fmap.
  exists (Z.to_nat n). split; [lia|]. apply elem_of_seq. lia.
Qed.

Lemma pad2_ok n : 0 <= n < 100 → padded_ok 2 n = true.
Proof. apply (padded_range 2 100). vm_compute. reflexivity. Qed.

Lemma pad4_ok n : 0 <= n < 10000 → padded_ok 4 n = true.
Proof. apply (padded_range 4 (100 * 100)). vm_compute. reflexivity. Qed.

Lemma padded_length w n : padded_ok w n = true → String.length (pad w (int_text n)) = w.
Proof. unfold padded_ok. intros [H%Nat.eqb_eq _]%andb_true_iff. done. Qed.

Lemma padded_inj w a b :
  padded_ok w a = true → padded_ok w b = true → pad w (int_text a) = pad w (int_text b) → a = b.
Proof.
  unfold padded_ok. rewrite !andb_true_iff, !bool_decide_eq_true.
  intros [_ Ha] [_ Hb] E. rewrite E in Ha. congruence.
Qed.

Lemma money_text_inj a b : money_text a = money_text b → a = b.
Proof.
  unfold money_text. rewrite !string_app_assoc. intros E.
  assert (Ha : 0 <= Z.abs a mod 100 < 100) by (apply Z.mod_pos_bound; lia).
  assert (Hb : 0 <= Z.abs b mod 100 < 100) by (apply Z.mod_pos_bound; lia).
  apply pad2_ok in Ha, Hb.
  apply string_app_inj_right in E as [E Er]; [|by rewrite !padded_length].
  apply string_app_inj_right in E as [E _]; [|done].
  apply (padded_inj 2) in Er; [|done..].
  assert (Hqa : 0 <= Z.abs a / 100) by (apply Z.div_pos; lia).
  assert (Hqb : 0 <= Z.abs b / 100) by (apply Z.div_pos; lia).
  pose proof (Z.div_mod (Z.abs a) 100). pose proof (Z.div_mod (Z.abs b) 100).
  destruct (Z.ltb_spec a 0), (Z.ltb_spec b 0).
  - injection E as E. apply int_text_inj in E. lia.
  - destruct (int_text_sign _ _ Hqb E).
  - symmetry in E. destruct (int_text_sign _ _ Hqa E).
  - apply (int_text_inj (Z.abs a / 100) (Z.abs b / 100)) in E. lia.
Qed.

Lemma month_days_le y m : Grile.month_days y m <= 31.
Proof. unfold Grile.month_days. repeat case_match; lia. Qed.

Lemma isoformat_inj d d' :
  Grile.valid_date d = true → Grile.valid_date d' = true → isoformat d = isoformat d' → d = d'.
Proof.
  destruct d as [y m k], d' as [y' m' k']. unfold Grile.valid_date, isoformat.
  cbn [Grile.year Grile.month Grile.day]. intros H H' E.
  split_bools. pose proof (month_days_le y m). pose proof (month_days_le y' m').
  assert (Hy : padded_ok 4 y = true) by (apply pad4_ok; lia).
  assert (Hy' : padded_ok 4 y' = true) by (apply pad4_ok; lia).
  assert (Hm : padded_ok 2 m = true) by (apply pad2_ok; lia).
  assert (Hm' : padded_ok 2 m' = true) by (apply pad2_ok; lia).
  assert (Hk : padded_ok 2 k = true) by (apply pad2_ok; lia).
  assert (Hk' : padded_ok 2 k' = true) by (apply pad2_ok; lia).
  apply string_app_inj_left in E as [Ey E]; [|by rewrite !padded_length].
  apply string_app_inj_left in E as [_ E]; [|done].
  apply string_app_inj_left in E as [Em E]; [|by rewrite !padded_length].
  apply string_app_inj_left in E as [_ Ek]; [|done].
  f_equal; by eapply padded_inj.
Qed.

Lemma bool_text_inj a b : bool_text a = bool_text b → a = b.
Proof. by destruct a, b. Qed.

(** ** Rows *)

Definition row_ok (r : stage_row) : bool := Grile.valid_date (sale_date (row_facts r)).

Lemma stage_values_inj n r r' :
  row_ok r = true → row_ok r' = true → stage_values n r = stage_values n r' → r = r'.
Proof.
  destruct r as [? ? ? ? [? d ? ? ? ? ? ? ? ? ? ? ? ? ?]].
  destruct r' as [? ? ? ? [? d' ? ? ? ? ? ? ? ? ? ? ? ? ?]].
  unfold row_ok, stage_values; cbn -[isoformat int_text money_text bool_text nat_text].
  intros Hd Hd' E. injection E as ? E ? ? ? ? ? ? ? ? ? ? ? Eq Eu Et ? Ec Er.
  apply isoformat_inj in E; [|done..]. apply int_text_inj in Eq. apply money_text_inj in Eu, Et.
  apply bool_text_inj in Ec, Er. by subst.
Qed.

Lemma imap_inj {A B} (f : nat → A → B) (P : A → Prop) l l' :
  (∀ n x y, P x → P y → f n x = f n y → x = y) →
  Forall P l → Forall P l' → imap f l = imap f l' → l = l'.
Proof.
  intros Hf Hl. revert f Hf l'. induction Hl as [|x l Hx Hl IH]; intros f Hf [|y l'] Hl' E;
    cbn in E; try done.
  injection E as E1 E2. inversion Hl'; subst. f_equal; [by eapply Hf|].
  eapply (IH (f ∘ S)); [|done|done]. intros n a b. apply Hf.
Qed.

Lemma numbered_ok rows : rows_ok (numbered rows).
Proof.
  unfold numbered, rows_ok. apply Forall_lookup. intros i r H.
  rewrite list_lookup_imap in H. destruct (rows !! i); [|done]. by injection H as <-.
Qed.

Lemma stage_text_inj rows rows' :
  Forall (λ r, row_ok r = true) rows → Forall (λ r, row_ok r = true) rows' →
  stage_text rows = stage_text rows' → rows = rows'.
Proof.
  intros H H' E%text_of_values_inj; [|apply numbered_ok..].
  unfold numbered in E. eapply imap_inj; [|exact H|exact H'|exact E].
  intros n x y Hx Hy. by apply stage_values_inj.
Qed.
End SalesTextSpec.
