(* ===== verification/SalesManifest.v ===== *)
(** The parsed sales report and the manifest that describes it
    ([services/sales_import_parsing.py], [services/sales_generation.py]). *)

From Stdlib Require Import Ascii.
From S2P Require Import Prelude Text Decimal Grile SalesText.

Local Open Scope Z_scope.

Module SalesManifest.
Import SalesText.

(** ** Anomalies and errors *)

(** [SalesAnomalyClassification] *)
Inductive classification := INFORMATIONAL | STRUCTURAL_CONTRADICTION.
#[global] Instance classification_eq : EqDecision classification.
Proof. solve_decision. Defined.

Inductive detail := DInt (z : Z) | DText (s : string) | DTexts (l : list string) | DNum (d : dec).
#[global] Instance detail_eq : EqDecision detail.
Proof. solve_decision. Defined.

(** [SalesAnomaly]; the operator-facing message is not represented. *)
Record anomaly := Anomaly {
  code : string;
  classified : classification;
  details : list (string * detail);
}.
#[global] Instance anomaly_eq : EqDecision anomaly.
Proof. solve_decision. Defined.

(** [SalesAnomaly.blocking], the key [blocking] of the JSON object. *)
Definition blocking (a : anomaly) : bool := bool_decide (classified a = STRUCTURAL_CONTRADICTION).

Inductive sales_error :=
| SalesPolicyValidationError (anomalies : list anomaly)
| SalesGenerationConflictError (message : string)
| ValueError (message : string)
| ImportAlreadyRunningError
| SalesImportArtifactError
| PostgresError (message : string)
| DecimalError (s : signal)
| KeyError (key : string)
| ProducerError.

(** [SalesGenerationValidationError(message)] *)
Definition generation_validation : sales_error :=
  SalesPolicyValidationError [Anomaly "generation_validation" STRUCTURAL_CONTRADICTION []].

Definition structural (c : string) (d : list (string * detail)) : sales_error :=
  SalesPolicyValidationError [Anomaly c STRUCTURAL_CONTRADICTION d].

(** ** The parsed report *)

(** A row of the DataFrame; money is the [Decimal] that [str(value)] denotes. *)
Record frame_row := FrameRow {
  Data : Grile.date;
  SiteCode : string;
  Locatie : string;
  Firma : string;
  Regional : string;
  ASM : option string;
  Nr : string;
  ItemCode : string;
  ItemName : string;
  Brand : option string;
  Categorie : option string;
  SubCategorie : option string;
  Cantitate : Z;
  Pret : dec;
  Valoare : dec;
  Agent : string;
  df_cartela : bool;
  df_return : bool;
}.

(** The stripped ASM column is neither empty (or missing) nor a dash. *)
Definition has_asm (r : frame_row) : bool :=
  let a := strip (default "" (ASM r)) in
  negb (bool_decide (a = "")) && negb (bool_decide (a = "-")).

(** [filter_asm_rows] *)
Definition filter_asm_rows (df : list frame_row) : list frame_row * Z :=
  let filtered := List.filter has_asm df in
  (filtered, Z.of_nat (length df) - Z.of_nat (length filtered)).

Definition int32_max : Z := 2147483647.
(** 99999999.99 *)
Definition money_max : dec := cents 9999999999.

Definition bad_quantity (r : frame_row) : bool := int32_max <? Z.abs (Cantitate r).
Definition bad_money (v : dec) : bool := dltb money_max (Dec (Z.abs (coef v)) (dexp v)).

Definition blank (s : string) : bool := bool_decide (strip s = "").

Definition required_identifiers : list (string * (frame_row → string)) :=
  [("SiteCode", SiteCode); ("ItemCode", ItemCode); ("ItemName", ItemName); ("Locatie", Locatie);
   ("Firma", Firma); ("Regional", Regional); ("Nr", Nr); ("Agent", Agent)]%string.

Definition metadata (r : frame_row) : string * string * string * option string :=
  (Locatie r, Firma r, Regional r, ASM r).

Definition conflicting (rows : list frame_row) (site : string) : bool :=
  Nat.ltb 1 (length (remove_dups (metadata <$>
    List.filter (λ r, bool_decide (SiteCode r = site)) rows))).

(** [validate_sales_dataframe], the checks on typed cells. *)
Definition validate_sales_dataframe (df : list frame_row) : res sales_error () :=
  _ ← raise_if (existsb bad_quantity df) (structural "invalid_quantity" []);
  _ ← raise_if (existsb (λ r, bad_money (Pret r)) df)
        (structural "invalid_money" [("column"%string, DText "Pret")]);
  _ ← raise_if (existsb (λ r, bad_money (Valoare r)) df)
        (structural "invalid_money" [("column"%string, DText "Valoare")]);
  let importable := List.filter has_asm df in
  let invalid := List.filter (λ p, existsb (λ r, blank (p.2 r)) importable) required_identifiers in
  _ ← raise_if (negb (bool_decide (fst <$> invalid = [])))
        (structural "missing_required_identifiers" [("columns"%string, DTexts (fst <$> invalid))]);
  let sites := List.filter (conflicting importable) (remove_dups (SiteCode <$> importable)) in
  raise_if (negb (bool_decide (sites = [])))
    (structural "contradictory_store_metadata"
       [("store_count"%string, DInt (Z.of_nat (length sites)));
        ("store_codes"%string, DTexts (sorted_by String.leb sites))]).

(** [date.strftime("%Y-%m")] *)
Definition month_text (d : Grile.date) : string :=
  int_text (Grile.year d) +:+ "-" +:+ pad 2 (int_text (Grile.month d)).

(** [detect_month] *)
Definition detect_month (df : list frame_row) : res sales_error string :=
  match remove_dups (month_text ∘ Data <$> df) with
  | [m] => Ok m
  | ms => Err (structural "mixed_import_months" [("months"%string, DTexts ms)])
  end.

(** [_money]: [Decimal(str(value)).quantize(Decimal("0.01"))], in hundredths. *)
Definition money (v : dec) : res sales_error Z :=
  coef <$> lift_err DecimalError (quantize prec28 HALF_EVEN (-2) v).

(** The staged row of a report row. *)
Definition stage_of (import_month : string) (r : frame_row) : res sales_error stage_row :=
  pret ← money (Pret r);
  valoare ← money (Valoare r);
  Ok (StageRow (Locatie r) (Firma r) (Regional r) (default "nan" (ASM r))
        (Facts import_month (Data r) (SiteCode r) (Nr r) (ItemCode r) (ItemName r)
           (Brand r) (Categorie r) (SubCategorie r) (Cantitate r) pret valoare (Agent r)
           (df_cartela r) (df_return r))).

(** ** Manifest *)

Inductive generation_state := GValidated | GPromoting | GPromoted.
#[global] Instance generation_state_eq : EqDecision generation_state.
Proof. solve_decision. Defined.

Record site_day := SiteDay {
  sd_site : string;
  sd_date : Grile.date;
  sd_rows : Z;
  sd_receipts : Z;
  sd_quantity : Z;
  sd_value : Z;
}.
#[global] Instance site_day_eq : EqDecision site_day.
Proof. solve_decision. Defined.

(** The totals the staged rows are checked against. *)
Record controls := Controls {
  rows_imported : Z;
  store_count : Z;
  total_quantity : Z;
  total_value : Z;
  max_sale_date : option Grile.date;
}.
#[global] Instance controls_eq : EqDecision controls.
Proof. solve_decision. Defined.

Record manifest := Manifest {
  mf_month : string;
  mf_source_sha256 : string;
  mf_cutoff : Grile.date;
  rows_in_file : Z;
  rows_filtered : Z;
  mf_controls : controls;
  agent_count : Z;
  receipt_count : Z;
  site_days : list site_day;
  site_day_sha256 : string;
  business_sha256 : string;
  anomalies : list anomaly;
  gen_state : generation_state;
  mf_stage_sha256 : option string;
  rollback_of : option Z;
  rollback_source : option Z;
}.
#[global] Instance manifest_eq : EqDecision manifest.
Proof. solve_decision. Defined.

(** [jsonb_set(manifest, '{generation_state}', ...)] *)
Definition set_gen_state (g : generation_state) (m : manifest) : manifest :=
  Manifest (mf_month m) (mf_source_sha256 m) (mf_cutoff m) (rows_in_file m) (rows_filtered m)
    (mf_controls m) (agent_count m) (receipt_count m) (site_days m) (site_day_sha256 m)
    (business_sha256 m) (anomalies m) g (mf_stage_sha256 m) (rollback_of m) (rollback_source m).

(** Chronological order of dates. *)
Definition date_leb : Grile.date → Grile.date → bool :=
  lex_leb (cmp_on Grile.year Z.compare)
    (lex_leb (cmp_on Grile.month Z.compare) (leb_on Grile.day Z.leb)).

Definition max_date (l : list Grile.date) : option Grile.date :=
  match l with
  | [] => None
  | d :: l' => Some (foldl (λ a b, if date_leb a b then b else a) d l')
  end.

(** Row count, [COUNT(DISTINCT site_code)], [SUM(quantity)], [SUM(total_value)],
    [MAX(sale_date)] of staged rows. *)
Definition controls_of (rows : list stage_row) : controls :=
  let fs := row_facts <$> rows in
  Controls (Z.of_nat (length rows))
    (Z.of_nat (length (remove_dups (site_code <$> fs))))
    (sumZ (quantity <$> fs)) (sumZ (SalesText.total_value <$> fs)) (max_date (sale_date <$> fs)).

Section Build.
(** NFKC normalisation and case folding of an agent's name; SHA-256 in
    hexadecimal; the canonical JSON text of a row and of the site-day list. *)
Context (normalized_agent : string → string) (sha256_hex : text → string)
  (json_row : facts → string) (json_site_days : list site_day → string).

Definition receipt_key (f : facts) : Grile.date * string * string * string :=
  (sale_date f, site_code f, normalized_agent (agent f), bon_nr f).

(** The aggregate of one [(site_code, sale_date)]. *)
Definition site_day_of (fs : list facts) (key : string * Grile.date) : site_day :=
  let own := List.filter (λ f, bool_decide ((site_code f, sale_date f) = key)) fs in
  SiteDay key.1 key.2 (Z.of_nat (length own)) (Z.of_nat (length (remove_dups (receipt_key <$> own))))
    (sumZ (quantity <$> own)) (sumZ (SalesText.total_value <$> own)).

(** [sorted(site_days.items())]: by site code, then date. *)
Definition key_leb : string * Grile.date → string * Grile.date → bool :=
  lex_leb (cmp_on fst String.compare) (leb_on snd date_leb).

Definition site_days_of (fs : list facts) : list site_day :=
  site_day_of fs <$> sorted_by key_leb (remove_dups ((λ f, (site_code f, sale_date f)) <$> fs)).

Definition newline : ascii := "010".

(** [build_sales_generation_manifest] of the staged form of the rows. *)
Definition build_sales_generation_manifest (rows : list stage_row)
    (source_sha256 : string) (cutoff_date : Grile.date) (in_file filtered : Z)
    : res sales_error manifest :=
  let fs := row_facts <$> rows in
  _ ← raise_if (negb (run_match is_hex 64 64 source_sha256)) (structural "invalid_source_sha256" []);
  match max_date (sale_date <$> fs) with
  | None => Err (structural "empty_generation" [])
  | Some maximum =>
      match remove_dups (month_text ∘ sale_date <$> fs) with
      | [import_month] =>
          _ ← raise_if (negb (bool_decide (month_text cutoff_date = import_month)))
                (structural "cutoff_month_mismatch"
                   [("import_month"%string, DText import_month);
                    ("cutoff_date"%string, DText (isoformat cutoff_date))]);
          _ ← raise_if (negb (date_leb maximum cutoff_date))
                (structural "row_after_cutoff"
                   [("max_sale_date"%string, DText (isoformat maximum));
                    ("cutoff_date"%string, DText (isoformat cutoff_date))]);
          let days := site_days_of fs in
          Ok (Manifest import_month source_sha256 cutoff_date in_file filtered (controls_of rows)
                (Z.of_nat (length (remove_dups (agent <$> fs))))
                (Z.of_nat (length (remove_dups (receipt_key <$> fs))))
                days (sha256_hex (chars (json_site_days days)))
                (sha256_hex (join newline (chars <$> sorted_by String.leb (json_row <$> fs))))
                [] GValidated None None None)
      | ms => Err (structural "mixed_import_months"
                     [("months"%string, DTexts (sorted_by String.leb ms))])
      end
  end.
End Build.

(** ** The authoritative-replace policy *)

(** [_drop_pct] *)
Definition drop_pct (current previous : dec) : res sales_error dec :=
  if dleb previous d0 || dleb previous current then Ok d0
  else
    q ← lift_err DecimalError
          (ddiv prec28 (dmul prec28 (dsub prec28 previous current) (of_int 100)) previous);
    lift_err DecimalError (quantize prec28 HALF_EVEN (-2) q).

(** The four measures compared, with their thresholds in percent. *)
Definition comparisons : list (string * (manifest → dec) * dec) :=
  [("rows_imported", λ m, of_int (rows_imported (mf_controls m)), of_int 5);
   ("receipt_count", λ m, of_int (receipt_count m), of_int 5);
   ("total_value", λ m, cents (total_value (mf_controls m)), of_int 10);
   ("total_quantity", λ m, of_int (total_quantity (mf_controls m)), of_int 10)]%string.

Definition informational (c : string) (d : list (string * detail)) : anomaly :=
  Anomaly c INFORMATIONAL d.

Definition regression (incoming previous : manifest) (c : string * (manifest → dec) * dec)
    : res sales_error (list anomaly) :=
  let '(key, measure, threshold) := c in
  drop ← drop_pct (measure incoming) (measure previous);
  Ok (if dltb threshold drop
      then [informational (key +:+ "_regression")
              [("previous"%string, DNum (measure previous)); ("incoming"%string, DNum (measure incoming));
               ("drop_pct"%string, DNum drop); ("threshold_pct"%string, DNum threshold)]]
      else []).

(** The site-days the previous generation reported up to the new cutoff and the
    new one lacks. *)
Definition missing_site_days (incoming previous : manifest) : list (string * Grile.date) :=
  let keys m := (λ d, (sd_site d, sd_date d)) <$> site_days m in
  sorted_by key_leb (List.filter
    (λ k, date_leb k.2 (mf_cutoff incoming) && negb (bool_decide (k ∈ keys incoming)))
    (remove_dups (keys previous))).

(** [classify_authoritative_replace_anomalies] *)
Definition classify_authoritative_replace_anomalies (incoming : manifest)
    (previous : option manifest) : res sales_error (list anomaly) :=
  match previous with
  | None => Ok [informational "first_generation_review" []]
  | Some previous =>
      let cutoff :=
        if negb (date_leb (mf_cutoff previous) (mf_cutoff incoming))
        then [informational "cutoff_regression"
                [("previous"%string, DText (isoformat (mf_cutoff previous)));
                 ("incoming"%string, DText (isoformat (mf_cutoff incoming)))]]
        else [] in
      let missing := missing_site_days incoming previous in
      let gone :=
        match missing with
        | [] => []
        | _ => [informational "site_day_disappeared"
                  [("count"%string, DInt (Z.of_nat (length missing)));
                   ("site_days"%string,
                    DTexts ((λ k, k.1 +:+ ":" +:+ isoformat k.2) <$> missing))]]
        end in
      drops ← mapR (regression incoming previous) comparisons;
      Ok (cutoff ++ gone ++ concat drops)
  end.

(** [manifest_has_structural_contradictions] *)
Definition manifest_has_structural_contradictions (m : manifest) : bool :=
  existsb (λ a, bool_decide (classified a = STRUCTURAL_CONTRADICTION)) (anomalies m).

(** [manifest_requires_override] *)
Definition manifest_requires_override (m : manifest) : bool :=
  manifest_has_structural_contradictions m.

End SalesManifest.
