(* ===== verification/SalesGen.v ===== *)
(** Sales generations: reservation, staging, validation, promotion and rollback
    ([services/sales_generation*.py], [services/sales_import_storage.py],
    [services/sales_import_recovery.py], [services/importer.py], [worker.py]) over
    the tables, triggers and functions of migrations 011, 033, 037, 040 and 043. *)

From Stdlib Require Import Ascii.
From S2P Require Import Prelude Text Decimal Grile Outbox SalesText SalesManifest.

Local Open Scope Z_scope.

Module SalesGen.
Import SalesText SalesManifest.

(** ** Tables *)

Inductive snapshot_status := Processing | Completed | Failed.
#[global] Instance snapshot_status_eq : EqDecision snapshot_status.
Proof. solve_decision. Defined.

Inductive artifact_state := Retaining | Retained | RecoveryRequired.
#[global] Instance artifact_state_eq : EqDecision artifact_state.
Proof. solve_decision. Defined.

(** Columns of [import_snapshots] written once, at INSERT. *)
Record origin := Origin {
  import_month : string;
  filename : string;
  file_rows : Z;
  month_final : bool;
  created_at : Z;
  source_sha256 : option string;
  cutoff_date : option Grile.date;
  generation_token : string;
  expected_head_revision : Z;
  artifact_required : bool;
}.

(** Status and lease. *)
Record work := Work {
  status : snapshot_status;
  owner_id : string;
  lease_until : option Z;
  heartbeat_at : option Z;
  finished_at : option Z;
  imported : option Z;
  error_message : option string;
}.

(** Manifest, its hash, the digest of the staged rows and the coverage report. *)
Record content := Content {
  manifest_of : option manifest;
  manifest_sha256 : option string;
  stage_rows_sha256 : option string;
  coverage_report : string;
}.

(** The source artifact. *)
Record artifact := Artifact {
  spool_path : option string;
  art_state : option artifact_state;
  art_sha256 : option string;
  art_bytes : option Z;
  retained_at : option Z;
  retained_path : option string;
}.
#[global] Instance artifact_eq : EqDecision artifact.
Proof. solve_decision. Defined.

(** The promotion decision. *)
Record decision := DecisionCols {
  previous_snapshot_id : option Z;
  promoted_at : option Z;
  approved_by_sub : option string;
  override_reason : option string;
}.

Record snapshot := Snapshot {
  orig : origin;
  wk : work;
  cont : content;
  art : artifact;
  dcs : decision;
}.

Record head := Head { h_snapshot : Z; h_revision : Z }.

Inductive promote_action := ActPromote | ActRollback.
#[global] Instance promote_action_eq : EqDecision promote_action.
Proof. solve_decision. Defined.

(** A row of [sales_generation_promotions]. *)
Record ledger_row := LedgerRow {
  l_month : string;
  l_from : option Z;
  l_to : Z;
  l_revision : Z;
  l_action : promote_action;
  l_actor : string;
  l_reason : option string;
}.

Record store := Store {
  st_locatie : string;
  st_firma : string;
  st_regional : string;
  st_asm : string;
  is_active : bool;
  first_seen : string;
  last_seen : string;
}.

Record db := Db {
  snaps : gmap Z snapshot;
  stage : gmap Z (list stage_row);
  heads : gmap string head;
  live : list (facts * Z);
  stores : gmap string store;
  ledger : list ledger_row;
  events : Outbox.db;
}.

Definition empty_db : db := Db ∅ ∅ ∅ [] ∅ [] Outbox.empty_db.

Definition with_snaps (m : gmap Z snapshot) (d : db) : db :=
  Db m (stage d) (heads d) (live d) (stores d) (ledger d) (events d).
Definition with_stage (m : gmap Z (list stage_row)) (d : db) : db :=
  Db (snaps d) m (heads d) (live d) (stores d) (ledger d) (events d).
Definition with_heads (m : gmap string head) (d : db) : db :=
  Db (snaps d) (stage d) m (live d) (stores d) (ledger d) (events d).
Definition with_live (l : list (facts * Z)) (d : db) : db :=
  Db (snaps d) (stage d) (heads d) l (stores d) (ledger d) (events d).
Definition with_stores (m : gmap string store) (d : db) : db :=
  Db (snaps d) (stage d) (heads d) (live d) m (ledger d) (events d).
Definition with_ledger (l : list ledger_row) (d : db) : db :=
  Db (snaps d) (stage d) (heads d) (live d) (stores d) l (events d).
Definition with_events (e : Outbox.db) (d : db) : db :=
  Db (snaps d) (stage d) (heads d) (live d) (stores d) (ledger d) e.

Definition staged (d : db) (sid : Z) : list stage_row := default [] (stage d !! sid).

Definition state_of (s : snapshot) : option generation_state := gen_state <$> manifest_of (cont s).
Definition is_processing (s : snapshot) : bool := bool_decide (status (wk s) = Processing).
Definition leased (now : Z) (s : snapshot) : bool :=
  match lease_until (wk s) with Some u => now <? u | None => false end.
Definition fenced (token owner : string) (s : snapshot) : bool :=
  bool_decide (generation_token (orig s) = token) && bool_decide (owner_id (wk s) = owner)
  && is_processing s.

Definition second : Z := 1000000.
Definition two_hours : Z := 7200 * second.
Definition one_hour : Z := 3600 * second.

Section Ops.
(** SHA-256 in hexadecimal. *)
Context (sha256_hex : text → string).

Definition digest_of (rows : list stage_row) : string := sha256_hex (stage_text rows).

(** ** Triggers and constraints of [import_snapshots] *)

Definition sha_ok (o : option string) : bool :=
  match o with Some s => run_match is_hex 64 64 s | None => true end.

(** [guard_import_snapshot_sales_provenance] (037), BEFORE UPDATE: the row to
    store.  An UPDATE never touches the columns of [origin]. *)
Definition provenance_guard (d : db) (sid : Z) (old new : snapshot) : res sales_error snapshot :=
  let rows := staged d sid in
  let actual := digest_of rows in
  match manifest_sha256 (cont old) with
  | None =>
      match manifest_sha256 (cont new) with
      | None => Ok new
      | Some _ =>
          _ ← raise_if (bool_decide (rows = [])) (PostgresError "has no staged rows");
          let claimed := manifest_of (cont new) ≫= mf_stage_sha256 in
          _ ← raise_if (negb (bool_decide (claimed = Some actual) && sha_ok claimed))
                (PostgresError "does not match staged rows");
          Ok (Snapshot (orig new) (wk new)
                (Content (manifest_of (cont new)) (manifest_sha256 (cont new)) (Some actual)
                   (coverage_report (cont new)))
                (art new) (dcs new))
      end
  | Some _ =>
      _ ← raise_if (negb (bool_decide (manifest_sha256 (cont new) = manifest_sha256 (cont old)))
                    || negb (bool_decide (set_gen_state GValidated <$> manifest_of (cont new)
                                          = set_gen_state GValidated <$> manifest_of (cont old))))
            (PostgresError "sales provenance is immutable");
      _ ← (if bool_decide (stage_rows_sha256 (cont new) = stage_rows_sha256 (cont old)) then Ok ()
           else
             _ ← raise_if (bool_decide (is_Some (stage_rows_sha256 (cont old))))
                   (PostgresError "stage digest is immutable");
             match manifest_of (cont new) ≫= rollback_source with
             | None => Err (PostgresError "stage digest cannot be assigned manually")
             | Some src =>
                 let source := snaps d !! src ≫= (λ s, stage_rows_sha256 (cont s)) in
                 raise_if (bool_decide (rows = []) || bool_decide (source = None)
                           || negb (bool_decide (stage_rows_sha256 (cont new) = source))
                           || negb (bool_decide (Some actual = source)))
                   (PostgresError "rollback staging does not match source")
             end);
      Ok new
  end.

Definition artifact_exact (s : snapshot) : bool :=
  let a := art s in
  bool_decide (art_sha256 a = source_sha256 (orig s))
  && bool_decide (is_Some (art_bytes a)) && bool_decide (is_Some (retained_at a))
  && bool_decide (is_Some (retained_path a)).

Definition retained (a : artifact) : bool := bool_decide (art_state a = Some Retained).

(** [guard_sales_source_artifact_lifecycle] (043), BEFORE INSERT OR UPDATE. *)
Definition artifact_guard (old : option snapshot) (new : snapshot) : res sales_error () :=
  let a := art new in
  _ ← raise_if (artifact_required (orig new) && bool_decide (status (wk new) = Completed)
                && negb (retained a && artifact_exact new))
        (PostgresError "completed sales generation requires an exact retained source artifact");
  _ ← raise_if
        (match old with
         | None => false
         | Some o =>
             retained (art o)
             && negb (bool_decide (art_state a = Some RecoveryRequired)
                      && bool_decide (status (wk new) = Failed))
             && negb (bool_decide
                  ((art_state a, art_sha256 a, art_bytes a, retained_at a, retained_path a)
                   = (art_state (art o), art_sha256 (art o), art_bytes (art o),
                      retained_at (art o), retained_path (art o))))
         end)
        (PostgresError "retained sales source artifact metadata is immutable");
  raise_if (retained a && negb (artifact_exact new))
    (PostgresError "retained sales source artifact metadata is incomplete").

(** [btrim], which removes spaces only. *)
Fixpoint ltrim (l : list ascii) : list ascii :=
  match l with
  | [] => []
  | c :: l' => if one_of " " c then ltrim l' else l
  end.
Definition btrim_length (s : string) : Z :=
  Z.of_nat (length (rev (ltrim (rev (ltrim (chars s)))))).

Definition actor_check (s : string) : bool := (1 <=? btrim_length s) && (btrim_length s <=? 256).

(** CHECK constraints of the table. *)
Definition row_check (s : snapshot) : bool :=
  sha_ok (source_sha256 (orig s)) && sha_ok (manifest_sha256 (cont s))
  && sha_ok (stage_rows_sha256 (cont s)) && sha_ok (art_sha256 (art s))
  && match art_bytes (art s) with Some n => 0 <=? n | None => true end
  && match approved_by_sub (dcs s) with Some a => actor_check a | None => true end.

(** One row of an UPDATE: the triggers, in name order, then the constraints. *)
Definition write (d : db) (sid : Z) (old new : snapshot) : res sales_error db :=
  new' ← provenance_guard d sid old new;
  _ ← artifact_guard (Some old) new';
  _ ← raise_if (negb (row_check new')) (PostgresError "check violation");
  Ok (with_snaps (<[sid := new']> (snaps d)) d).

(** [UPDATE import_snapshots SET ... WHERE id = $1 AND p RETURNING id]. *)
Definition update_where (sid : Z) (p : snapshot → bool) (set : snapshot → snapshot) (d : db)
    : res sales_error (option db) :=
  match snaps d !! sid with
  | Some s => if p s then Some <$> write d sid s (set s) else Ok None
  | None => Ok None
  end.

(** The same, where no matching row is a [SalesGenerationConflictError]. *)
Definition fenced_update (message : string) (sid : Z) (p : snapshot → bool)
    (set : snapshot → snapshot) (d : db) : res sales_error db :=
  o ← update_where sid p set d;
  match o with Some d' => Ok d' | None => Err (SalesGenerationConflictError message) end.

(** An UPDATE without an id: the rows of its WHERE clause, one after the other. *)
Definition update_all (p : snapshot → bool) (set : snapshot → snapshot) (d : db)
    : res sales_error (list Z * db) :=
  let ids := fst <$> List.filter (λ x, p x.2) (map_to_list (snaps d)) in
  d' ← foldR (λ d' sid, o ← update_where sid (λ _, true) set d'; Ok (default d' o)) d ids;
  Ok (ids, d').

(** INSERT: primary key, unique generation token, one processing snapshot a month. *)
Definition insert_snapshot (sid : Z) (s : snapshot) (d : db) : res sales_error db :=
  _ ← artifact_guard None s;
  _ ← raise_if (negb (row_check s)) (PostgresError "check violation");
  let all := snd <$> map_to_list (snaps d) in
  _ ← raise_if (bool_decide (is_Some (snaps d !! sid))) (PostgresError "import_snapshots_pkey");
  _ ← raise_if (existsb (λ x, bool_decide (generation_token (orig x) = generation_token (orig s))) all)
        (PostgresError "uq_import_snapshots_generation_token");
  _ ← raise_if (existsb (λ x, is_processing x
                           && bool_decide (import_month (orig x) = import_month (orig s))) all)
        (PostgresError "uq_import_snapshots_month_processing");
  Ok (with_snaps (<[sid := s]> (snaps d)) d).

(** ** Reservation *)

(** Neither validated nor being promoted. *)
Definition unvalidated (s : snapshot) : bool :=
  match state_of s with Some GValidated | Some GPromoting => false | _ => true end.

(** The lease ran out; without a lease, no heartbeat for an hour. *)
Definition expired (now : Z) (s : snapshot) : bool :=
  match lease_until (wk s) with
  | Some u => u <=? now
  | None => default (created_at (orig s)) (heartbeat_at (wk s)) <? now - one_hour
  end.

Definition set_work (f : work → work) (s : snapshot) : snapshot :=
  Snapshot (orig s) (f (wk s)) (cont s) (art s) (dcs s).
Definition set_art (f : artifact → artifact) (s : snapshot) : snapshot :=
  Snapshot (orig s) (wk s) (cont s) (f (art s)) (dcs s).
Definition set_content (f : content → content) (s : snapshot) : snapshot :=
  Snapshot (orig s) (wk s) (f (cont s)) (art s) (dcs s).
Definition set_decision (f : decision → decision) (s : snapshot) : snapshot :=
  Snapshot (orig s) (wk s) (cont s) (art s) (f (dcs s)).

Definition put_state (g : generation_state) : content → content := λ c,
  Content (set_gen_state g <$> manifest_of c) (manifest_sha256 c) (stage_rows_sha256 c)
    (coverage_report c).

Definition beat (now : Z) : work → work := λ w,
  Work (status w) (owner_id w) (lease_until w) (Some now) (finished_at w) (imported w)
    (error_message w).

(** The abandoned-import SET clause, the lease kept. *)
Definition abandon (now : Z) (message : string) : work → work := λ w,
  Work Failed (owner_id w) (lease_until w) (Some now) (Some now) (Some 0) (Some message).

Definition expire_abandoned (month : string) (now : Z) (d : db) : res sales_error db :=
  snd <$> update_all
    (λ s, bool_decide (import_month (orig s) = month) && is_processing s
          && unvalidated s && expired now s)
    (set_work (abandon now "Import processing abandonat si inchis automat")) d.

Definition head_revision (d : db) (month : string) : Z :=
  match heads d !! month with Some h => h_revision h | None => 0 end.

(** The head its SELECT read, without a lock: another transaction may have moved the head
    on when the INSERT runs. *)
Definition seen_revision (seen : option head) : Z :=
  match seen with Some h => h_revision h | None => 0 end.
Definition past_head (month : string) (d : db) (seen : option head) : Prop :=
  seen = None ∨
  ∃ r, r ∈ ledger d ∧ l_month r = month ∧ seen = Some (Head (l_to r) (l_revision r)).

(** [reserve_snapshot]; [sid] is drawn from the table's sequence. *)
Definition reserve_snapshot (sid now : Z) (seen : option head) (month file : string) (in_file : Z) (final : bool)
    (source : option string) (cutoff : option Grile.date) (token owner : string)
    (required : bool) (path : option string) (bytes : option Z) (lease_seconds : Z) (d : db)
    : res sales_error (Z * db) :=
  _ ← raise_if (lease_seconds <? 60) (ValueError "Sales generation lease must be at least 60 seconds");
  _ ← raise_if (required && (match path with Some p => bool_decide (p = EmptyString) | None => true end
                             || bool_decide (source = None)
                             || match bytes with Some n => n <? 0 | None => true end))
        (ValueError "Required sales artifact metadata is incomplete");
  d1 ← expire_abandoned month now d;
  let s := Snapshot
    (Origin month file in_file final now source cutoff token (seen_revision seen) required)
    (Work Processing owner (Some (now + lease_seconds * second)) (Some now) None None None)
    (Content None None None "{}")
    (Artifact path (if required then Some Retaining else None)
       (if required then source else None) bytes None None)
    (DecisionCols (h_snapshot <$> seen) None None None) in
  if existsb (λ x, is_processing x && bool_decide (import_month (orig x) = month))
       (snd <$> map_to_list (snaps d1))
  then Err ImportAlreadyRunningError
  else d2 ← insert_snapshot sid s d1; Ok (sid, d2).

(** ** Lease, failure, coverage report *)

(** [fenced_generation_heartbeat] *)
Definition fenced_generation_heartbeat (sid now : Z) (token owner : string) (lease_seconds : Z)
    : db → res sales_error db :=
  fenced_update "Sales generation lease was lost" sid
    (λ s, fenced token owner s && leased now s)
    (set_work (λ w, Work (status w) (owner_id w) (Some (now + lease_seconds * second)) (Some now)
                      (finished_at w) (imported w) (error_message w))).

(** [fail_sales_generation] *)
Definition fail_sales_generation (sid now : Z) (token owner error : string)
    : db → res sales_error db :=
  fenced_update "Stale worker cannot finalize sales generation" sid
    (λ s, fenced token owner s && leased now s)
    (set_work (λ w, Work Failed (owner_id w) (Some now) (Some now) (Some now) (Some 0)
                      (Some (String.substring 0 500 error)))).

(** [record_coverage_report] *)
Definition record_coverage_report (sid now : Z) (report : string) (d : db) : res sales_error db :=
  o ← update_where sid is_processing
        (λ s, set_work (beat now)
           (set_content (λ c, Content (manifest_of c) (manifest_sha256 c) (stage_rows_sha256 c) report) s)) d;
  Ok (default d o).

(** ** Staging and validation *)

(** Does a row fit its columns, INTEGER and NUMERIC(10,2)? *)
Definition row_fits (r : stage_row) : bool :=
  let f := row_facts r in
  (- int32_max - 1 <=? quantity f) && (quantity f <=? int32_max)
  && (Z.abs (unit_price f) <? 10 ^ 10) && (Z.abs (SalesText.total_value f) <? 10 ^ 10).

(** The INSERT branch of [guard_sales_stage_mutation] (040) for the rows of one
    COPY or INSERT ... SELECT, then the primary key [(snapshot_id, row_number)]. *)
Definition insert_stage (sid : Z) (rows : list stage_row) (d : db) : res sales_error db :=
  match rows with
  | [] => Ok d
  | _ =>
      match snaps d !! sid with
      | None => Err (PostgresError "sales staging row does not belong to an active matching snapshot")
      | Some s =>
          _ ← raise_if (negb (is_processing s)
                || existsb (λ r, negb (bool_decide (f_month (row_facts r) = import_month (orig s)))) rows)
                (PostgresError "sales staging row does not belong to an active matching snapshot");
          _ ← raise_if (bool_decide (is_Some (stage_rows_sha256 (cont s))))
                (PostgresError "validated sales staging is immutable");
          _ ← raise_if (negb (forallb row_fits rows)) (PostgresError "value out of range");
          _ ← raise_if (negb (bool_decide (staged d sid = [])))
                (PostgresError "sales_import_stage_rows_pkey");
          Ok (with_stage (<[sid := rows]> (stage d)) d)
      end
  end.

(** [stage_sales_generation_rows] *)
Definition stage_sales_generation_rows (sid : Z) (month : string) (df : list frame_row) (d : db)
    : res sales_error (Z * db) :=
  rows ← mapR (stage_of month) df;
  d' ← insert_stage sid rows d;
  Ok (Z.of_nat (length df), d').

(** [persist_validated_sales_generation] *)
Definition persist_validated_sales_generation (sid now : Z) (token owner : string)
    (m : manifest) (manifest_sha coverage : string) : db → res sales_error db :=
  fenced_update "Sales generation lease was lost before validation" sid
    (λ s, fenced token owner s && leased now s)
    (λ s, set_work (λ w, Work (status w) (owner_id w) (lease_until w) (Some now) (finished_at w)
                       (Some (rows_imported (mf_controls m))) (error_message w))
            (set_content (λ c, Content (Some m) (Some manifest_sha) (stage_rows_sha256 c) coverage) s)).

(** ** Source artifact *)

(** [attach_sales_generation_source] *)
Definition attach_sales_generation_source (sid now : Z) (token owner path : string)
    (sha : option string) (bytes : option Z) : db → res sales_error db :=
  fenced_update "Sales source cannot be attached by a stale worker" sid
    (λ s, fenced token owner s && bool_decide (state_of s = Some GValidated))
    (λ s, set_work (beat now)
            (set_art (λ a, Artifact (Some path) (Some Retaining)
                (match sha with Some _ => sha | None => source_sha256 (orig s) end)
                (match bytes with Some _ => bytes | None => art_bytes a end)
                (retained_at a) (retained_path a)) s)).

Definition retain (now : Z) (path sha : string) (bytes : Z) : artifact → artifact := λ a,
  Artifact (Some path) (Some Retained) (Some sha) (Some bytes)
    (Some (default now (retained_at a))) (Some path).

(** [mark_sales_generation_artifact_retained] *)
Definition mark_sales_generation_artifact_retained (sid now : Z) (token owner path sha : string)
    (bytes : Z) : db → res sales_error db :=
  fenced_update "Sales artifact retain fence was lost" sid
    (λ s, fenced token owner s
          && (bool_decide (art_state (art s) = Some Retaining)
              || retained (art s) && bool_decide (retained_path (art s) = Some path)
                 && bool_decide (art_sha256 (art s) = Some sha)
                 && bool_decide (art_bytes (art s) = Some bytes)))
    (λ s, set_work (beat now) (set_art (retain now path sha bytes) s)).

(** ** Claim of a validated generation *)

(** [claim_validated_sales_generation]: the previous owner. *)
Definition claim_validated_sales_generation (sid now : Z) (token manifest_sha new_owner : string)
    (lease_seconds : Z) (d : db) : res sales_error (string * db) :=
  _ ← raise_if (lease_seconds <? 60) (ValueError "Sales generation lease must be at least 60 seconds");
  let candidate := λ s,
    bool_decide (generation_token (orig s) = token)
    && bool_decide (manifest_sha256 (cont s) = Some manifest_sha) && is_processing s
    && bool_decide (state_of s = Some GValidated)
    && (negb (artifact_required (orig s)) || retained (art s)) in
  o ← update_where sid candidate
        (λ s, set_work (λ w, Work (status w) new_owner (Some (now + lease_seconds * second)) (Some now)
                           (finished_at w) (imported w) (error_message w))
                (set_content (put_state GPromoting) s)) d;
  match o, snaps d !! sid with
  | Some d', Some s => Ok (owner_id (wk s), d')
  | _, _ => Err (SalesGenerationConflictError "Validated sales generation cannot be claimed")
  end.

(** [restore_sales_generation_claim] *)
Definition restore_sales_generation_claim (sid now : Z) (token current previous : string)
    : db → res sales_error db :=
  fenced_update "Sales generation claim changed concurrently" sid
    (λ s, fenced token current s && bool_decide (state_of s = Some GPromoting))
    (λ s, set_work (λ w, Work (status w) previous (lease_until w) (Some now) (finished_at w)
                       (imported w) (error_message w))
            (set_content (put_state GValidated) s)).

(** ** Recovery at startup *)

(** [_IMPORT_RECOVERY_SQL_1]; [fresh] is [gen_random_uuid()] per row. *)
Definition recover_promoting (now : Z) (fresh : snapshot → string) (d : db)
    : res sales_error (list Z * db) :=
  update_all
    (λ s, is_processing s && bool_decide (state_of s = Some GPromoting)
          && bool_decide (art_state (art s) = None) && expired now s)
    (λ s, set_work (λ w, Work (status w) (fresh s) (Some (now + two_hours)) (Some now) None
             (match manifest_of (cont s) with
              | Some m => Some (rows_imported (mf_controls m))
              | None => imported w
              end)
             (Some "Promovarea a fost intrerupta de restart; retry permis"%string))
            (set_content (put_state GValidated) s)) d.

(** [_IMPORT_RECOVERY_SQL_2] *)
Definition close_interrupted (now : Z) (d : db) : res sales_error (list Z * db) :=
  update_all
    (λ s, is_processing s && unvalidated s
          && match art_state (art s) with Some Retaining | Some Retained => false | _ => true end
          && expired now s)
    (set_work (abandon now "Import intrerupt de restartul workerului; retry permis")) d.

(** [reconcile_interrupted_imports], the transaction on leases. *)
Definition reconcile_leases (now : Z) (fresh : snapshot → string) (d : db)
    : res sales_error (list Z * db) :=
  '(recovered, d1) ← recover_promoting now fresh d;
  '(closed, d2) ← close_interrupted now d1;
  Ok (recovered ++ closed, d2).

Definition keeps_claim (s : snapshot) : bool := negb (unvalidated s).
Definition back_to_validated : snapshot → snapshot := λ s,
  set_content (λ c, if bool_decide (state_of s = Some GPromoting) then put_state GValidated c else c) s.

(** [_IMPORT_RECOVERY_SQL_4]: the artifact was retained. *)
Definition recover_retained (sid now : Z) (token owner path sha : string) (bytes : Z)
    : db → res sales_error (option db) :=
  update_where sid
    (λ s, fenced token owner s
          && match art_state (art s) with Some Retaining | Some Retained => true | _ => false end)
    (λ s, set_work (λ w,
             if keeps_claim s
             then Work (status w) (owner_id w) (Some (now + two_hours)) (Some now) (finished_at w)
                    (imported w) (error_message w)
             else Work Failed (owner_id w) (Some now) (Some now) (Some now) (Some 0)
                    (Some "Import interrupted before validation; exact-source retry permitted"%string))
            (set_art (retain now path sha bytes) (back_to_validated s))).

(** [_IMPORT_RECOVERY_SQL_5]: the artifact conflicts or is damaged. *)
Definition recover_conflict (sid now : Z) (token owner error : string)
    : db → res sales_error (option db) :=
  update_where sid (fenced token owner)
    (λ s, set_work (λ w, Work Failed (owner_id w) (Some now) (Some now) (Some now) (Some 0) (Some error))
            (set_art (λ a, Artifact (spool_path a) (Some RecoveryRequired) (art_sha256 a) (art_bytes a)
                        (retained_at a) (retained_path a)) s)).

(** [_IMPORT_RECOVERY_SQL_6]: a transient filesystem failure. *)
Definition recover_transient (sid now : Z) (token owner error : string)
    : db → res sales_error (option db) :=
  update_where sid (fenced token owner)
    (λ s, set_work (λ w, Work (status w) (owner_id w) (Some now) (Some now) (finished_at w)
                       (imported w) (Some error))
            (set_art (λ a, if retained a then a else Artifact (spool_path a) None None None None None)
               (back_to_validated s))).

(** What the retain and verify calls of one candidate ended in. *)
Inductive retain_outcome :=
| RetainedAs (path : string) (size : Z)
| RetainConflict (error : string)
| RetainTransient (error : string).

(** [_reconcile_sales_artifacts], one candidate read by [_IMPORT_RECOVERY_SQL_3];
    true when its id is reported. *)
Definition reconcile_candidate (sid now : Z) (s : snapshot) (outcome : retain_outcome) (d : db)
    : res sales_error (bool * db) :=
  let token := generation_token (orig s) in
  let owner := owner_id (wk s) in
  match outcome with
  | RetainedAs path size =>
      o ← recover_retained sid now token owner path (default "None"%string (source_sha256 (orig s))) size d;
      Ok (bool_decide (is_Some o), default d o)
  | RetainConflict e => o ← recover_conflict sid now token owner e d; Ok (true, default d o)
  | RetainTransient e => o ← recover_transient sid now token owner e d; Ok (true, default d o)
  end.

End Ops.
End SalesGen.
