(* ===== verification/SalesPromotion.v ===== *)
(** Promotion and rollback of a sales generation, the import that stages one and
    the worker that promotes it. *)

From Stdlib Require Import Ascii.
From S2P Require Import Prelude Text Decimal Grile Outbox SalesText SalesManifest SalesGen.

Local Open Scope Z_scope.

Module SalesPromotion.
Import SalesText SalesManifest SalesGen.

(** The environment of the sales pipeline: hashes and JSON texts, the source
    artifact on disk, the reporting rebuild, the time zone, the producer's
    payload digest and CHECK constraints. *)
Record env := Env {
  sha256_hex : text → string;
  normalized_agent : string → string;
  json_row : facts → string;
  json_site_days : list site_day → string;
  json_manifest : manifest → string;
  json_coverage : db → list frame_row → string;
  json_frame : string → list frame_row → string;
  artifact_intact : string → string → Z → bool;
  reporting_rebuilds : string → list (facts * Z) → bool;
  bucharest_midnight : Grile.date → Z;
  payload_digest : Outbox.identity → Outbox.payload → string;
  identity_check : Outbox.identity → bool;
}.

Section Promotion.
Context (E : env).
Notation digest_of := (digest_of (sha256_hex E)).
Notation update_where := (update_where (sha256_hex E)).
Notation fenced_update := (fenced_update (sha256_hex E)).

(** [canonical_json_sha256(manifest)] *)
Definition canonical_manifest_sha256 (m : manifest) : string :=
  sha256_hex E (chars (json_manifest E m)).

(** ** The current manifest of a month *)

Definition completed_of (month : string) (d : db) : list (Z * snapshot) :=
  List.filter (λ x, bool_decide (import_month (orig x.2) = month)
                    && bool_decide (status (wk x.2) = Completed)
                    && bool_decide (is_Some (manifest_of (cont x.2)))) (map_to_list (snaps d)).

(** [ORDER BY promoted_at DESC NULLS LAST, created_at DESC] *)
Definition promoted_key (x : Z * snapshot) : Z * Z * Z :=
  match promoted_at (dcs x.2) with
  | Some t => (0, - t, - created_at (orig x.2))
  | None => (1, 0, - created_at (orig x.2))
  end.
Definition promoted_leb (x y : Z * snapshot) : bool :=
  lex_leb (cmp_on (λ x, (promoted_key x).1.1) Z.compare)
    (lex_leb (cmp_on (λ x, (promoted_key x).1.2) Z.compare)
       (leb_on (λ x, (promoted_key x).2) Z.leb)) x y.

(** [load_current_sales_manifest] *)
Definition load_current_sales_manifest (month : string) (d : db) : option Z * option manifest :=
  match heads d !! month ≫= (λ h, pair (h_snapshot h) <$> snaps d !! h_snapshot h) with
  | Some (sid, s) => (Some sid, manifest_of (cont s))
  | None =>
      match sorted_by promoted_leb (completed_of month d) with
      | (sid, s) :: _ => (Some sid, manifest_of (cont s))
      | [] => (None, None)
      end
  end.

(** ** Promotion *)

(** [_verify_stage_controls] *)
Definition verify_stage_controls (sid : Z) (m : manifest) (d : db) : res sales_error () :=
  raise_if (negb (bool_decide (controls_of (staged d sid) = mf_controls m))) generation_validation.

(** [^[0-9]{4}-[0-9]{2}$] *)
Definition month_re (s : string) : bool :=
  match take_runs [(is_digit, 4%nat); (one_of "-", 1%nat); (is_digit, 2%nat)] (chars s) with
  | Some [] => true
  | _ => false
  end.

(** [verify_sales_generation_head_target] (037), BEFORE INSERT OR UPDATE OF
    [snapshot_id]; [old] is the snapshot the head leaves. *)
Definition verify_head_target (old : option Z) (sid : Z) (d : db) : res sales_error db :=
  if bool_decide (old = Some sid) then Ok d
  else
    match snaps d !! sid with
    | None => Err (PostgresError "sales head target is not validated")
    | Some s =>
        match manifest_of (cont s) with
        | None => Err (PostgresError "sales head target is not validated")
        | Some m =>
            let rows := staged d sid in
            let actual := digest_of rows in
            '(stored, d') ←
              (match stage_rows_sha256 (cont s) with
               | Some h => Ok (h, d)
               | None =>
                   match rollback_source m with
                   | None => Err (PostgresError "sales head target has no validated stage digest")
                   | Some src =>
                       let source := snaps d !! src ≫= (λ x, stage_rows_sha256 (cont x)) in
                       _ ← raise_if (bool_decide (rows = []) || bool_decide (source = None)
                                     || negb (bool_decide (mf_stage_sha256 m = source))
                                     || negb (bool_decide (Some actual = source)))
                             (PostgresError "rollback snapshot differs from retained source");
                       o ← update_where sid (λ x, bool_decide (stage_rows_sha256 (cont x) = None))
                             (set_content (λ c, Content (manifest_of c) (manifest_sha256 c)
                                (Some actual) (coverage_report c))) d;
                       Ok (actual, default d o)
                   end
               end);
            _ ← raise_if (bool_decide (rows = [])
                  || match mf_stage_sha256 m with
                     | Some claimed => negb (bool_decide (claimed = stored)) | None => false end
                  || negb (bool_decide (actual = stored)))
                  (PostgresError "sales head target staging digest mismatch");
            Ok d'
        end
    end.

(** [guard_sales_generation_head_source_artifact] (043) *)
Definition head_artifact_guard (sid : Z) (d : db) : res sales_error () :=
  match snaps d !! sid with
  | None => Err (PostgresError "sales generation head references a missing snapshot")
  | Some s => raise_if (artifact_required (orig s) && negb (retained (art s) && artifact_exact s))
                (PostgresError "sales generation head requires an exact retained source artifact")
  end.

(** One INSERT or UPDATE of [sales_generation_heads], its triggers in name order. *)
Definition write_head (month : string) (sid revision : Z) (d : db) : res sales_error db :=
  _ ← head_artifact_guard sid d;
  d' ← verify_head_target (h_snapshot <$> heads d !! month) sid d;
  Ok (with_heads (<[month := Head sid revision]> (heads d')) d').

(** The validated stage controls [advance_sales_generation_head] (040) demands. *)
Definition head_controls (s : snapshot) (rows : list stage_row) : bool :=
  match manifest_of (cont s) with
  | None => false
  | Some m =>
      bool_decide (gen_state m ≠ GPromoted)
      && bool_decide (stage_rows_sha256 (cont s) = Some (digest_of rows))
      && bool_decide (mf_stage_sha256 m = Some (digest_of rows))
      && bool_decide (mf_controls m = controls_of rows)
      && negb (existsb blocking (anomalies m))
  end.

(** [advance_sales_generation_head] (040): the snapshot replaced and the revision. *)
Definition advance_head (month : string) (sid now : Z) (token owner : string) (expected : Z) (d : db)
    : res sales_error (option Z * Z * db) :=
  _ ← raise_if (negb (month_re month) || (expected <? 0))
        (PostgresError "sales head CAS parameters are invalid");
  match snaps d !! sid with
  | None => Err (PostgresError "sales head target is not the current leased generation")
  | Some s =>
      _ ← raise_if (negb (bool_decide (import_month (orig s) = month) && fenced token owner s
                          && leased now s))
            (PostgresError "sales head target is not the current leased generation");
      _ ← raise_if (negb (head_controls s (staged d sid)))
            (PostgresError "sales head target lacks validated stage controls");
      match heads d !! month with
      | None =>
          _ ← raise_if (negb (expected =? 0)) (PostgresError "sales generation head disappeared");
          d' ← write_head month sid 1 d;
          Ok (None, 1, d')
      | Some h =>
          _ ← raise_if (negb (h_revision h =? expected))
                (PostgresError "sales generation head changed before promote");
          d' ← write_head month sid (h_revision h + 1) d;
          Ok (Some (h_snapshot h), h_revision h + 1, d')
      end
  end.

(** [_advance_sales_head]: any database error is a conflict. *)
Definition advance_sales_head (month : string) (sid now : Z) (token owner : string) (expected : Z)
    (d : db) : res sales_error (option Z * Z * db) :=
  match advance_head month sid now token owner expected d with
  | Ok r => Ok r
  | Err _ => Err (SalesGenerationConflictError "Sales generation head CAS failed")
  end.

(** [SELECT MAX(import_month) ... WHERE status = 'completed'] *)
Definition string_max (a b : string) : string := if String.leb a b then b else a.
Definition string_min (a b : string) : string := if String.leb a b then a else b.

Definition latest_completed_month (d : db) : option string :=
  match (λ x, import_month (orig x.2)) <$>
        List.filter (λ x, bool_decide (status (wk x.2) = Completed)) (map_to_list (snaps d)) with
  | [] => None
  | m :: ms => Some (foldl string_max m ms)
  end.

(** [DISTINCT ON (site_code) ... ORDER BY site_code, row_number] *)
Fixpoint first_per_site (seen : list string) (rows : list stage_row) : list stage_row :=
  match rows with
  | [] => []
  | r :: rows' =>
      let site := site_code (row_facts r) in
      if bool_decide (site ∈ seen) then first_per_site seen rows'
      else r :: first_per_site (site :: seen) rows'
  end.

Definition upsert_store (month : string) (current : bool) (m : gmap string store) (r : stage_row)
    : gmap string store :=
  let site := site_code (row_facts r) in
  <[site :=
    match m !! site with
    | None => Store (locatie r) (firma r) (regional r) (asm r) current month month
    | Some o =>
        Store (if current then locatie r else st_locatie o) (if current then firma r else st_firma o)
          (if current then regional r else st_regional o) (if current then asm r else st_asm o)
          (is_active o) (string_min (first_seen o) month) (string_max (last_seen o) month)
    end]> m.

(** [_upsert_stores_from_stage] *)
Definition upsert_stores_from_stage (sid : Z) (month : string) (d : db) : db :=
  let current := match latest_completed_month d with
                 | None => true | Some latest => String.leb latest month end in
  with_stores (foldl (upsert_store month current) (stores d) (first_per_site [] (staged d sid))) d.

(** [DELETE FROM sales_transactions WHERE import_month = $1] *)
Definition delete_live (month : string) (d : db) : db :=
  with_live (List.filter (λ x, negb (bool_decide (f_month x.1 = month))) (live d)) d.

(** [copy_staged_generation_to_live]; [site_code] references [stores]. *)
Definition copy_staged_generation_to_live (sid : Z) (month : string) (d : db)
    : res sales_error (Z * db) :=
  let rows := List.filter (λ f, bool_decide (f_month f = month)) (row_facts <$> staged d sid) in
  _ ← raise_if (existsb (λ f, bool_decide (stores d !! site_code f = None)) rows)
        (PostgresError "sales_transactions_site_code_fkey");
  Ok (Z.of_nat (length rows), with_live (live d ++ ((λ f, (f, sid)) <$> rows)) d).

(** [guard_sales_generation_promotion_mutation] (040), BEFORE INSERT. *)
Definition ledger_guard (r : ledger_row) (d : db) : res sales_error () :=
  match heads d !! l_month r, snaps d !! l_to r with
  | Some h, Some s =>
      _ ← raise_if (negb ((h_snapshot h =? l_to r) && (h_revision h =? l_revision r)))
            (PostgresError "sales promotion ledger must attest to the current CAS head");
      _ ← raise_if (negb (bool_decide (import_month (orig s) = l_month r)
                          && bool_decide (status (wk s) = Completed)
                          && bool_decide (previous_snapshot_id (dcs s) = l_from r)))
            (PostgresError "sales promotion ledger target is not the completed CAS generation");
      let undone := manifest_of (cont s) ≫= rollback_of in
      let source := manifest_of (cont s) ≫= rollback_source in
      match l_action r with
      | ActPromote =>
          raise_if (bool_decide (is_Some undone) || bool_decide (is_Some source))
            (PostgresError "rollback generation cannot be recorded as promote")
      | ActRollback =>
          let before := match l_from r with
                        | Some f => snaps d !! f ≫= (λ x, previous_snapshot_id (dcs x))
                        | None => None
                        end in
          raise_if (negb (bool_decide (undone = l_from r)) || bool_decide (source = None)
                    || negb (bool_decide (before = source)))
            (PostgresError "sales rollback ledger does not match retained lineage")
      end
  | _, _ => Err (PostgresError "sales promotion ledger must attest to the current CAS head")
  end.

(** [record_sales_generation_promotion] (040) *)
Definition record_promotion (r : ledger_row) (d : db) : res sales_error db :=
  _ ← raise_if (negb (actor_check (l_actor r))) (PostgresError "sales promotion ledger parameters are invalid");
  _ ← ledger_guard r d;
  Ok (with_ledger (ledger d ++ [r]) d).

(** [_sales_event_cutoff] of the DATE column. *)
Definition sales_event_cutoff (cutoff : option Grile.date) : res sales_error Outbox.datetime :=
  match cutoff with
  | Some c => Ok (Outbox.Aware (bucharest_midnight E c))
  | None => Err generation_validation
  end.

(** The artifact checks of [promote_sales_generation]. *)
Definition check_artifact (s : snapshot) : res sales_error () :=
  if artifact_required (orig s) then
    match art_bytes (art s), retained_path (art s) with
    | Some bytes, Some path =>
        _ ← raise_if (negb (retained (art s))
                      || negb (bool_decide (art_sha256 (art s) = source_sha256 (orig s)))
                      || bool_decide (path = EmptyString)) generation_validation;
        raise_if (negb (artifact_intact E path (default "None"%string (source_sha256 (orig s))) bytes))
          SalesImportArtifactError
    | _, _ => Err generation_validation
    end
  else Ok ().

(** [_PROMOTION_SQL_2] *)
Definition finish_promotion (sid now : Z) (token owner : string) (rows : Z) (previous : option Z)
    (actor : string) (reason : option string) : db → res sales_error db :=
  fenced_update "Stale worker cannot finalize promoted generation" sid
    (λ s, fenced token owner s && leased now s)
    (λ s, set_decision (λ _, DecisionCols previous (Some now) (Some actor) reason)
            (set_work (λ w, Work Completed (owner_id w) (Some now) (Some now) (Some now) (Some rows) None)
               (set_content (put_state GPromoted) s))).

Definition opt_strip (reason : option string) : option string :=
  match reason with
  | Some r => if bool_decide (r = EmptyString) then None else Some (strip r)
  | None => None
  end.

(** [promote_sales_generation]: the rows imported and the revision.  [now] is the
    transaction's clock, [occurred] [clock_timestamp()], [drawn] the event's UUID. *)
Definition promote_sales_generation (sid now occurred drawn : Z) (token owner expected_sha : string)
    (requested_by_sub : string) (override : option string) (action : promote_action) (d : db)
    : res sales_error (Z * Z * db) :=
  let actor := strip requested_by_sub in
  _ ← raise_if (bool_decide (actor = EmptyString)) (ValueError "requested_by_sub is required");
  let reason := opt_strip override in
  match snaps d !! sid with
  | None => Err (SalesGenerationConflictError "Sales generation lease was lost before promote")
  | Some s =>
      _ ← raise_if (negb (fenced token owner s && leased now s))
            (SalesGenerationConflictError "Sales generation lease was lost before promote");
      _ ← raise_if (negb (bool_decide (manifest_sha256 (cont s) = Some expected_sha)))
            (SalesGenerationConflictError "Approved sales manifest does not match staged generation");
      _ ← check_artifact s;
      match manifest_of (cont s) with
      | None => Err (KeyError "rows_imported")
      | Some m =>
          _ ← raise_if (manifest_requires_override m) generation_validation;
          _ ← verify_stage_controls sid m d;
          let month := import_month (orig s) in
          '(previous, revision, d1) ←
            advance_sales_head month sid now token owner (expected_head_revision (orig s)) d;
          let d2 := upsert_stores_from_stage sid month d1 in
          let d3 := delete_live month d2 in
          '(rows, d4) ← copy_staged_generation_to_live sid month d3;
          _ ← raise_if (negb (rows =? rows_imported (mf_controls m))) generation_validation;
          _ ← raise_if (negb (reporting_rebuilds E month (live d4)))
                (PostgresError "reporting rebuild failed");
          d5 ← finish_promotion sid now token owner rows previous actor reason d4;
          d6 ← record_promotion (LedgerRow month previous sid revision action actor reason) d5;
          cutoff ← sales_event_cutoff (cutoff_date (orig s));
          '(_, ev) ← lift_err (λ _, ProducerError)
            (Outbox.emit_sales_generation_promoted (payload_digest E) (identity_check E) int_text
               drawn now ("sales-" +:+ month) expected_sha
               (default "None"%string (source_sha256 (orig s))) month cutoff revision
               (Outbox.Aware occurred) (events d6));
          Ok (rows, revision, with_events ev d6)
      end
  end.

(** ** Rollback *)

Definition rollback_anomaly : anomaly := Anomaly "operator_rollback" INFORMATIONAL [].

Definition rollback_manifest (digest : string) (current target : Z) (m : manifest) : manifest :=
  Manifest (mf_month m) (mf_source_sha256 m) (mf_cutoff m) (rows_in_file m) (rows_filtered m)
    (mf_controls m) (agent_count m) (receipt_count m) (site_days m) (site_day_sha256 m)
    (business_sha256 m) [rollback_anomaly] GValidated (Some digest) (Some current) (Some target).

(** [rollback_sales_generation]: the new snapshot, the rows imported and the
    revision.  [new_sid], [token] and [owner] are drawn. *)
Definition rollback_sales_generation (current new_sid now occurred drawn : Z)
    (current_token expected_sha requested_by_sub reason token owner : string) (d : db)
    : res sales_error (Z * Z * Z * db) :=
  let actor := strip requested_by_sub in
  let why := strip reason in
  _ ← raise_if (bool_decide (actor = EmptyString)) (ValueError "requested_by_sub is required");
  _ ← raise_if (Nat.ltb (String.length why) 10)
        (ValueError "Rollback reason must contain at least 10 characters");
  match List.filter (λ x, h_snapshot x.2 =? current) (map_to_list (heads d)), snaps d !! current with
  | (month, h) :: _, Some cur =>
      _ ← raise_if (negb (bool_decide (generation_token (orig cur) = current_token)))
            (SalesGenerationConflictError "Rollback generation token does not match current head");
      _ ← raise_if (negb (bool_decide (manifest_sha256 (cont cur) = Some expected_sha)))
            (SalesGenerationConflictError "Rollback manifest hash does not match current head");
      match previous_snapshot_id (dcs cur) with
      | None => Err generation_validation
      | Some target =>
          match snaps d !! target with
          | None => Err generation_validation
          | Some src =>
              _ ← raise_if (negb (bool_decide (import_month (orig src) = month)
                                  && bool_decide (status (wk src) = Completed)
                                  && negb (bool_decide (staged d target = [])))) generation_validation;
              match stage_rows_sha256 (cont src) with
              | None => Err generation_validation
              | Some digest =>
                  _ ← raise_if (negb (Nat.eqb (String.length digest) 64)) generation_validation;
                  match manifest_of (cont src) with
                  | None => Err (KeyError "rows_imported")
                  | Some m0 =>
                      let m := rollback_manifest digest current target m0 in
                      let sha := canonical_manifest_sha256 m in
                      let rows := rows_imported (mf_controls m) in
                      let s := Snapshot
                        (Origin month
                           ("rollback:" +:+ int_text current +:+ "->" +:+ int_text target +:+ ":"
                            +:+ filename (orig src))
                           (if file_rows (orig src) =? 0 then rows else file_rows (orig src))
                           (month_final (orig src)) now (source_sha256 (orig src))
                           (cutoff_date (orig src)) token (h_revision h) (artifact_required (orig src)))
                        (Work Processing owner (Some (now + two_hours)) (Some now) None (Some rows) None)
                        (Content (Some m) (Some sha) None (coverage_report (cont src)))
                        (art src)
                        (DecisionCols (Some current) None None None) in
                      d1 ← insert_snapshot new_sid s d;
                      d2 ← insert_stage new_sid (staged d1 target) d1;
                      o ← update_where new_sid (λ x, bool_decide (stage_rows_sha256 (cont x) = None))
                            (set_content (λ c, Content (manifest_of c) (manifest_sha256 c)
                               (Some digest) (coverage_report c))) d2;
                      '(imported, revision, d3) ←
                        promote_sales_generation new_sid now occurred drawn token owner sha actor
                          (Some why) ActRollback (default d2 o);
                      Ok (new_sid, imported, revision, d3)
                  end
              end
          end
      end
  | _, _ => Err (SalesGenerationConflictError "Rollback source is no longer the current head")
  end.

End Promotion.
End SalesPromotion.
