(* ===== verification/SalesFlow.v ===== *)
(** The import of a sales report, the promotion job of the worker, and the
    transitions of the sales tables. *)

From Stdlib Require Import Ascii.
From S2P Require Import Prelude Text Decimal Grile Outbox SalesText SalesManifest SalesGen SalesPromotion.

Local Open Scope Z_scope.

Module SalesFlow.
Import SalesText SalesManifest SalesGen SalesPromotion.

Section Flow.
Context (E : env).

(** ** Validation and staging *)

(** The site codes of the latest completed snapshot, by month, then creation. *)
Definition latest_leb (x y : Z * snapshot) : bool :=
  lex_leb (cmp_desc (cmp_on (λ x, import_month (orig x.2)) String.compare))
    (leb_on (λ x, - created_at (orig x.2)) Z.leb) x y.
Definition prior_sites (d : db) : list string :=
  match sorted_by latest_leb
          (List.filter (λ x, bool_decide (status (wk x.2) = Completed)) (map_to_list (snaps d))) with
  | [] => []
  | (sid, _) :: _ =>
      remove_dups ((λ x, site_code x.1) <$> List.filter (λ x, x.2 =? sid) (live d))
  end.

(** [sorted(site_codes)] joined by newlines and hashed. *)
Definition site_set_digest (sites : list string) : string :=
  sha256_hex E (join newline (chars <$> sorted_by String.leb sites)).

Definition site_anomaly (c : string) (sites : list string) : list anomaly :=
  match sites with
  | [] => []
  | _ => [informational c [("count"%string, DInt (Z.of_nat (length sites)));
                           ("set_sha256"%string, DText (site_set_digest sites))]]
  end.

Definition list_minus (a b : list string) : list string :=
  List.filter (λ x, negb (bool_decide (x ∈ b))) a.

(** The first row of each site: [drop_duplicates(subset=["SiteCode"])]. *)
Fixpoint first_rows (seen : list string) (df : list frame_row) : list frame_row :=
  match df with
  | [] => []
  | r :: df' => if bool_decide (SiteCode r ∈ seen) then first_rows seen df'
                else r :: first_rows (SiteCode r :: seen) df'
  end.

(** The anomalies of [build_import_coverage_report]. *)
Definition coverage_anomalies (d : db) (df : list frame_row) : list anomaly :=
  let incoming := remove_dups (SiteCode <$> df) in
  let existing := (map_to_list (stores d)).*1 in
  let active := (List.filter (λ x, is_active x.2 && negb (bool_decide (x.1 = "TL"%string)))
                   (map_to_list (stores d))).*1 in
  let changed := List.filter (λ r, match stores d !! SiteCode r with
      | Some o => negb (bool_decide (metadata r = (st_locatie o, st_firma o, st_regional o, Some (st_asm o))))
      | None => false end) (first_rows [] df) in
  site_anomaly "missing_active_stores" (list_minus active incoming)
  ++ site_anomaly "missing_prior_snapshot_stores" (list_minus (prior_sites d) incoming)
  ++ site_anomaly "new_stores" (list_minus incoming existing)
  ++ match changed with
     | [] => []
     | _ => [informational "master_store_metadata_changed"
               [("count"%string, DInt (Z.of_nat (length changed)))]]
     end.

Definition with_anomalies (l : list anomaly) (stage_sha : string) (m : manifest) : manifest :=
  Manifest (mf_month m) (mf_source_sha256 m) (mf_cutoff m) (rows_in_file m) (rows_filtered m)
    (mf_controls m) (agent_count m) (receipt_count m) (site_days m) (site_day_sha256 m)
    (business_sha256 m) l GValidated (Some stage_sha) (rollback_of m) (rollback_source m).

(** [_validate_and_stage_generation]: rows, manifest and manifest hash. *)
Definition validate_and_stage_generation (sid now : Z) (month : string) (cutoff : Grile.date)
    (digest : string) (in_file filtered : Z) (token owner : string) (df : list frame_row) (d : db)
    : res sales_error (Z * manifest * string * db) :=
  rows ← mapR (stage_of month) df;
  base ← build_sales_generation_manifest (normalized_agent E) (sha256_hex E) (json_row E)
           (json_site_days E) rows digest cutoff in_file filtered;
  compared ← classify_authoritative_replace_anomalies base (load_current_sales_manifest month d).2;
  let dropped := if filtered =? 0 then [] else [informational "rows_filtered" [("count"%string, DInt filtered)]] in
  let m := with_anomalies (compared ++ dropped ++ coverage_anomalies d df)
             (digest_of (sha256_hex E) rows) base in
  let sha := canonical_manifest_sha256 E m in
  d1 ← fenced_generation_heartbeat (sha256_hex E) sid now token owner 7200 d;
  '(imported, d2) ← stage_sales_generation_rows sid month df d1;
  d3 ← persist_validated_sales_generation (sha256_hex E) sid now token owner m sha
         (json_coverage E d df) d2;
  Ok (imported, m, sha, d3).

(** ** Import *)

(** The clocks of the transactions of one import, the head its reservation reads, and what
    is drawn in it. *)
Record import_clock := ImportClock {
  c_reserve : Z;
  c_seen : option head;
  c_stage : Z;
  c_promote : Z;
  c_occurred : Z;
  c_fail : Z;
  c_sid : Z;
  c_event : Z;
  c_token : string;
  c_owner : string;
}.

Record import_request := ImportRequest {
  rq_filename : string;
  rq_source : option string;
  rq_cutoff : option Grile.date;
  rq_stage_only : bool;
  rq_actor : string;
  rq_reason : option string;
  rq_required : bool;
  rq_path : option string;
  rq_bytes : option Z;
}.

Record import_result := ImportResult {
  res_month : string;
  res_rows_in_file : Z;
  res_rows_imported : Z;
  res_rows_filtered : Z;
  res_snapshot : Z;
  res_state : generation_state;
  res_manifest_sha256 : string;
}.

(** [str(exc)] of the error that fails the generation. *)
Context (error_text : sales_error → string).

(** After the reservation: stage, then promote unless [stage_only]; an error
    before validation fails the generation. *)
Definition stage_and_promote (c : import_clock) (rq : import_request) (month digest : string)
    (cutoff : Grile.date) (in_file filtered : Z) (df : list frame_row) (d : db)
    : res sales_error import_result * db :=
  match validate_and_stage_generation (c_sid c) (c_stage c) month cutoff digest in_file filtered
          (c_token c) (c_owner c) df d with
  | Err e =>
      match fail_sales_generation (sha256_hex E) (c_sid c) (c_fail c) (c_token c) (c_owner c)
              (error_text e) d with
      | Ok d' => (Err e, d')
      | Err e' => (Err e', d)
      end
  | Ok (rows, m, sha, d1) =>
      if rq_stage_only rq
      then (Ok (ImportResult month in_file rows filtered (c_sid c) GValidated sha), d1)
      else
        match promote_sales_generation E (c_sid c) (c_promote c) (c_occurred c) (c_event c)
                (c_token c) (c_owner c) sha (rq_actor rq) (rq_reason rq) ActPromote d1 with
        | Ok (rows', _, d2) =>
            (Ok (ImportResult month in_file rows' filtered (c_sid c) GPromoted sha), d2)
        | Err e => (Err e, d1)
        end
  end.

(** [import_sales_dataframe]: the answer and the database it leaves. *)
Definition import_sales_dataframe (c : import_clock) (rq : import_request) (today : Grile.date)
    (df0 : list frame_row) (d : db) : res sales_error import_result * db :=
  let prepared :=
    _ ← validate_sales_dataframe df0;
    let '(df, filtered) := filter_asm_rows df0 in
    match max_date (Data <$> df) with
    | None => Err (structural "empty_after_filter" [("rows_filtered"%string, DInt filtered)])
    | Some latest =>
        month ← detect_month df;
        let cutoff := default latest (rq_cutoff rq) in
        let digest := match rq_source rq with
          | Some s => if bool_decide (s = EmptyString)
                      then sha256_hex E (chars (json_frame E (rq_filename rq) df)) else s
          | None => sha256_hex E (chars (json_frame E (rq_filename rq) df)) end in
        let in_file := Z.of_nat (length df0) in
        '(_, d1) ← reserve_snapshot (sha256_hex E) (c_sid c) (c_reserve c) (c_seen c) month (rq_filename rq)
          in_file (negb (String.leb (month_text today) month)) (Some digest) (Some cutoff)
          (c_token c) (c_owner c) (rq_required rq) (rq_path rq) (rq_bytes rq) 7200 d;
        Ok (df, filtered, month, cutoff, digest, in_file, d1)
    end in
  match prepared with
  | Err e => (Err e, d)
  | Ok (df, filtered, month, cutoff, digest, in_file, d1) =>
      stage_and_promote c rq month digest cutoff in_file filtered df d1
  end.

(** ** The promotion job *)

(** [promote_sales_background]: claim, promote, and give the claim back when the
    promotion fails; a failing restore is only logged. *)
Definition promote_sales_background (sid t_claim t_promote occurred drawn t_restore : Z)
    (token owner sha actor : string) (reason : option string) (d : db)
    : res sales_error Z * db :=
  match claim_validated_sales_generation (sha256_hex E) sid t_claim token sha owner 7200 d with
  | Err e => (Err e, d)
  | Ok (previous, d1) =>
      match promote_sales_generation E sid t_promote occurred drawn token owner sha actor reason
              ActPromote d1 with
      | Ok (rows, _, d2) => (Ok rows, d2)
      | Err e =>
          match restore_sales_generation_claim (sha256_hex E) sid t_restore token owner previous d1 with
          | Ok d2 => (Err e, d2)
          | Err _ => (Err e, d1)
          end
      end
  end.

(** The databases the job may leave when it is cancelled, by a timeout or at shutdown:
    [except Exception] does not catch the cancellation, so after the claim nothing is given
    back, unless the promotion had failed and the claim was just being restored. *)
Definition promote_sales_cancelled (sid t_claim t_promote occurred drawn t_restore : Z)
    (token owner sha actor : string) (reason : option string) (d : db) : list db :=
  match claim_validated_sales_generation (sha256_hex E) sid t_claim token sha owner 7200 d with
  | Err _ => [d]
  | Ok (previous, d1) =>
      [d; d1] ++
      match promote_sales_generation E sid t_promote occurred drawn token owner sha actor reason
              ActPromote d1 with
      | Ok (_, _, d2) => [d2]
      | Err _ =>
          match restore_sales_generation_claim (sha256_hex E) sid t_restore token owner previous d1 with
          | Ok d2 => [d2]
          | Err _ => []
          end
      end
  end.

(** ** Transitions *)

(** One committed transaction of any worker, at any clock. *)
Inductive step (d : db) : db → Prop :=
| StepReserve sid now seen month file in_file final source cutoff token owner required path bytes secs d' :
    past_head month d seen →
    reserve_snapshot (sha256_hex E) sid now seen month file in_file final source cutoff token owner
      required path bytes secs d = Ok (sid, d') → step d d'
| StepHeartbeat sid now token owner secs d' :
    fenced_generation_heartbeat (sha256_hex E) sid now token owner secs d = Ok d' → step d d'
| StepCoverage sid now report d' :
    record_coverage_report (sha256_hex E) sid now report d = Ok d' → step d d'
| StepFail sid now token owner error d' :
    fail_sales_generation (sha256_hex E) sid now token owner error d = Ok d' → step d d'
| StepStage sid now month cutoff digest in_file filtered token owner df rows m sha d' :
    validate_and_stage_generation sid now month cutoff digest in_file filtered token owner df d
    = Ok (rows, m, sha, d') → step d d'
| StepAttach sid now token owner path sha bytes d' :
    attach_sales_generation_source (sha256_hex E) sid now token owner path sha bytes d = Ok d' → step d d'
| StepRetain sid now token owner path sha bytes d' :
    mark_sales_generation_artifact_retained (sha256_hex E) sid now token owner path sha bytes d = Ok d' →
    step d d'
| StepClaim sid now token sha owner secs previous d' :
    claim_validated_sales_generation (sha256_hex E) sid now token sha owner secs d = Ok (previous, d') →
    step d d'
| StepRestore sid now token current previous d' :
    restore_sales_generation_claim (sha256_hex E) sid now token current previous d = Ok d' → step d d'
| StepPromote sid now occurred drawn token owner sha actor reason action r d' :
    promote_sales_generation E sid now occurred drawn token owner sha actor reason action d = Ok (r, d') →
    step d d'
| StepRollback current sid now occurred drawn ctoken sha actor reason token owner r d' :
    rollback_sales_generation E current sid now occurred drawn ctoken sha actor reason token owner d
    = Ok (r, d') → step d d'
| StepLeases now fresh ids d' :
    reconcile_leases (sha256_hex E) now fresh d = Ok (ids, d') → step d d'
| StepArtifact sid now s outcome b d' :
    reconcile_candidate (sha256_hex E) sid now s outcome d = Ok (b, d') → step d d'
| StepStoreActivity site active d' :
    d' = with_stores (alter (λ o, Store (st_locatie o) (st_firma o) (st_regional o) (st_asm o) active
                                    (first_seen o) (last_seen o)) site (stores d)) d → step d d'
(** A transaction of the outbox: the dispatcher, the replay, or the producer of another
    aggregate; only a promotion emits an event of a sales generation. *)
| StepOutbox e :
    Outbox.step (payload_digest E) (identity_check E) (events d) e →
    (∀ i x, Outbox.events e !! i = Some x →
       Outbox.aggregate_type (Outbox.ident x) = "sales_generation"%string →
       is_Some (Outbox.events (events d) !! i)) →
    step d (with_events e d).

Definition steps : db → db → Prop := rtc step.
Definition reachable (d : db) : Prop := steps empty_db d.
End Flow.
End SalesFlow.
