(* ===== verification/SalesInv.v ===== *)
(** The invariant of the sales tables and the lemmas on single writes: a calm
    UPDATE, an INSERT, a COPY into the stage. *)

From S2P Require Import Prelude Text Decimal Grile Outbox SalesText SalesManifest SalesGen SalesPromotion SalesFlow.

Local Open Scope Z_scope.

Module SalesInv.
Import SalesText SalesManifest SalesGen SalesPromotion SalesFlow.

(** ** The ledger *)

Definition head_next (h : option head) : Z := match h with Some h => h_revision h + 1 | None => 1 end.

(** Replaying promotion records from an absent head: each one leaves the head it
    found and takes the next revision. *)
Fixpoint follow (h : option head) (l : list ledger_row) : option (option head) :=
  match l with
  | [] => Some h
  | r :: l' =>
      if bool_decide (l_from r = h_snapshot <$> h) && (l_revision r =? head_next h)
      then follow (Some (Head (l_to r) (l_revision r))) l'
      else None
  end.

Definition ledger_of (month : string) (d : db) : list ledger_row :=
  List.filter (λ r, bool_decide (l_month r = month)) (ledger d).

Definition live_of (month : string) (d : db) : list (facts * Z) :=
  List.filter (λ x, bool_decide (f_month x.1 = month)) (live d).

(** What the live table shows of a month: its head's staged rows, in order. *)
Definition materialised (month : string) (d : db) : list (facts * Z) :=
  match heads d !! month with
  | None => []
  | Some h => (λ r, (row_facts r, h_snapshot h)) <$> staged d (h_snapshot h)
  end.

Section Inv.
Context (E : env).
Notation digest_of := (digest_of (sha256_hex E)).

(** What a manifest says of the rows staged under it. *)
Record manifest_ok (rows : list stage_row) (s : snapshot) (m : manifest) : Prop := {
  mo_controls : mf_controls m = controls_of rows;
  mo_digest : mf_stage_sha256 m = Some (digest_of rows);
  mo_stored : stage_rows_sha256 (cont s) = Some (digest_of rows);
  mo_calm : manifest_requires_override m = false;
  mo_hash : manifest_sha256 (cont s) = Some (canonical_manifest_sha256 E (set_gen_state GValidated m));
  mo_open : status (wk s) = Processing → gen_state m ≠ GPromoted;
}.

(** The invariant; [x] is a snapshot whose manifest is not yet attached. *)
Record inv (x : option Z) (d : db) : Prop := {
  i_one i j s t : snaps d !! i = Some s → snaps d !! j = Some t →
    status (wk s) = Processing → status (wk t) = Processing →
    import_month (orig s) = import_month (orig t) → i = j;
  i_expect i s : snaps d !! i = Some s → status (wk s) = Processing →
    ∃ seen, past_head (import_month (orig s)) d seen ∧
      expected_head_revision (orig s) = seen_revision seen ∧
      previous_snapshot_id (dcs s) = h_snapshot <$> seen;
  i_head m h : heads d !! m = Some h → 1 <= h_revision h ∧
    ∃ s, snaps d !! h_snapshot h = Some s ∧ import_month (orig s) = m ∧
         status (wk s) = Completed ∧ staged d (h_snapshot h) ≠ [];
  i_live m : live_of m d = materialised m d;
  i_stage i rows : stage d !! i = Some rows → ∃ s, snaps d !! i = Some s ∧
    Forall (λ r, f_month (row_facts r) = import_month (orig s)) rows;
  i_digest i s h : snaps d !! i = Some s → stage_rows_sha256 (cont s) = Some h →
    staged d i ≠ [] ∧ h = digest_of (staged d i);
  i_manifest i s m : x ≠ Some i → snaps d !! i = Some s → manifest_of (cont s) = Some m →
    manifest_ok (staged d i) s m;
  i_hash i s : x ≠ Some i → snaps d !! i = Some s → manifest_of (cont s) = None →
    manifest_sha256 (cont s) = None ∧ stage_rows_sha256 (cont s) = None;
  i_token i j s t : snaps d !! i = Some s → snaps d !! j = Some t →
    generation_token (orig s) = generation_token (orig t) → i = j;
  i_ledger m : follow None (ledger_of m d) = Some (heads d !! m);
  i_stores : Forall (λ y, is_Some (stores d !! site_code y.1)) (live d);
}.

Lemma empty_inv : inv None empty_db.
Proof. split; cbn; intros; try done; by constructor. Qed.

(** ** Present and past heads *)

Lemma follow_seen h l g :
  follow h l = Some (Some g) → h = Some g ∨ ∃ r, r ∈ l ∧ g = Head (l_to r) (l_revision r).
Proof.
  revert h. induction l as [|r l IH]; intros h; cbn; [intros [= ->]; by left|].
  destruct (_ && _); [|done]. intros [[= <-]|(r' & Hr & ->)]%IH; right.
  - exists r. split; [by left|done].
  - exists r'. split; [by right|done].
Qed.

Lemma follow_grows h l g :
  follow h l = Some g → seen_revision h <= seen_revision g ∧
  (∀ r, r ∈ l → seen_revision h < l_revision r <= seen_revision g ∧
     (l_revision r = seen_revision g → g = Some (Head (l_to r) (l_revision r)))) ∧
  (seen_revision h = seen_revision g → h = g).
Proof.
  revert h. induction l as [|r l IH]; intros h; cbn.
  - intros [= ->]. split_and!; [lia| |done]. by intros r ?%elem_of_nil.
  - destruct (_ && _) eqn:Hn; [|done]. apply andb_true_iff in Hn as [_ Hn]. apply Z.eqb_eq in Hn.
    assert (Er : l_revision r = seen_revision h + 1) by (rewrite Hn; by destruct h).
    intros (Hle & Hr & Heq)%IH. cbn [seen_revision h_revision] in *. split_and!; [lia| |lia].
    intros r' [->|Hin]%elem_of_cons.
    + split; [lia|]. intros He. symmetry. by apply Heq.
    + destruct (Hr r' Hin) as [? ?]. split; [lia|done].
Qed.

Lemma elem_of_ledger month d r : r ∈ ledger_of month d ↔ r ∈ ledger d ∧ l_month r = month.
Proof.
  unfold ledger_of. rewrite list_elem_of_In, filter_In, <- list_elem_of_In.
  by rewrite bool_decide_eq_true.
Qed.

Lemma head_is_past x d month : inv x d → past_head month d (heads d !! month).
Proof.
  intros I. destruct (heads d !! month) as [h|] eqn:Hh; [|by left]. right.
  pose proof (i_ledger _ _ I month) as H. rewrite Hh in H.
  apply follow_seen in H as [?|(r & Hr & ->)]; [done|].
  apply elem_of_ledger in Hr as [? ?]. by exists r.
Qed.

(** A head of the past has a smaller revision, unless it is still the head. *)
Lemma past_head_le x d month seen :
  inv x d → past_head month d seen →
  seen_revision seen <= head_revision d month ∧
  (seen_revision seen = head_revision d month → seen = heads d !! month).
Proof.
  intros I Hp. change (head_revision d month) with (seen_revision (heads d !! month)).
  destruct (follow_grows _ _ _ (i_ledger _ _ I month)) as (Hle & Hr & Heq).
  destruct Hp as [->|(r & Hin & Hm & ->)]; [split; [done|exact Heq]|].
  destruct (Hr r) as [[_ H1] H2]; [by apply elem_of_ledger|]. cbn. split; [done|].
  intros He. symmetry. by apply H2.
Qed.

(** ** Writes *)

Lemma provenance_same d sid old new r :
  manifest_sha256 (cont new) = manifest_sha256 (cont old) →
  provenance_guard (sha256_hex E) d sid old new = Ok r → r = new.
Proof.
  unfold provenance_guard. intros ->. destruct (manifest_sha256 (cont old)); intros H.
  - by inv_res.
  - by injection H.
Qed.

Lemma write_same d sid old new d' :
  manifest_sha256 (cont new) = manifest_sha256 (cont old) →
  write (sha256_hex E) d sid old new = Ok d' →
  d' = with_snaps (<[sid := new]> (snaps d)) d.
Proof. unfold write. intros Hs H. inv_res. by apply provenance_same in Hv as ->. Qed.

Lemma write_lookup d sid old new d' j :
  write (sha256_hex E) d sid old new = Ok d' → j ≠ sid → snaps d' !! j = snaps d !! j.
Proof. unfold write. intros H Hj. inv_res. cbn. by rewrite lookup_insert_ne. Qed.

Lemma update_where_Ok sid p set d o :
  update_where (sha256_hex E) sid p set d = Ok o →
  (o = None ∧ ∀ s, snaps d !! sid = Some s → p s = false) ∨
  ∃ s d', snaps d !! sid = Some s ∧ p s = true ∧ o = Some d' ∧
          write (sha256_hex E) d sid s (set s) = Ok d'.
Proof.
  unfold update_where. destruct (snaps d !! sid) as [s|]; [|intros [= <-]; by left].
  destruct (p s) eqn:Hp.
  - destruct (write _ d sid s (set s)) as [d'|e] eqn:Hw; cbn; [|done].
    intros [= <-]. right. eauto 10.
  - intros [= <-]. left. split; [done|]. by intros ? [= <-].
Qed.

Lemma sales_fenced_update_Ok msg sid p set d d' :
  fenced_update (sha256_hex E) msg sid p set d = Ok d' →
  ∃ s, snaps d !! sid = Some s ∧ p s = true ∧ write (sha256_hex E) d sid s (set s) = Ok d'.
Proof.
  unfold fenced_update. intros (o & Ho & H)%bind_Ok.
  apply update_where_Ok in Ho as [[-> _]|(s & t & Hs & Hp & -> & Hw)]; [done|].
  injection H as ->. eauto.
Qed.

(** Every write of a multi-row UPDATE meets its row as the WHERE clause saw it. *)
Lemma update_all_ind (P : db → Prop) p set d ids d' :
  update_all (sha256_hex E) p set d = Ok (ids, d') → P d →
  (∀ t sid s t', P t → snaps t !! sid = Some s → p s = true →
     write (sha256_hex E) t sid s (set s) = Ok t' → P t') → P d'.
Proof.
  unfold update_all. intros H HP Hstep. apply bind_Ok in H as (t & Hf & [= <- <-]).
  set (l := List.filter (λ x, p x.2) (map_to_list (snaps d))) in *.
  assert (Hnd : NoDup (fst <$> l)) by apply NoDup_fmap_filter, NoDup_fst_map_to_list.
  assert (Hl : ∀ i, i ∈ (fst <$> l) → ∃ s, snaps d !! i = Some s ∧ p s = true).
  { intros i ([j s] & -> & Hin%list_elem_of_In%filter_In)%list_elem_of_fmap.
    destruct Hin as [Hin Hp]. exists s. split; [|done].
    by apply elem_of_map_to_list, list_elem_of_In. }
  clearbody l. generalize dependent d.
  induction (fst <$> l) as [|i k IH]; intros d Hf HP Hl; cbn in Hf; [by injection Hf as <-|].
  apply NoDup_cons in Hnd as [Hi Hnd].
  apply bind_Ok in Hf as (t1 & Ht1 & Hf). apply bind_Ok in Ht1 as (o & Ho & [= <-]).
  destruct (Hl i) as (s & Hs & Hp); [by left|].
  apply update_where_Ok in Ho as [[_ Hn]|(s' & d1 & Hs' & _ & -> & Hw)].
  { by apply Hn in Hs. }
  assert (s' = s) as -> by congruence. cbn in Hf.
  apply (IH Hnd d1); [done|by eapply Hstep|].
  intros j Hj. destruct (Hl j) as (u & Hu & Hpu); [by right|].
  exists u. split; [|done]. rewrite (write_lookup _ _ _ _ _ j Hw); [done|congruence].
Qed.

(** ** A calm UPDATE: lease, artifact, claim and failure columns *)

Record calm (old new : snapshot) : Prop := {
  ca_orig : orig new = orig old;
  ca_dcs : dcs new = dcs old;
  ca_status : status (wk new) = status (wk old)
              ∨ status (wk old) = Processing ∧ status (wk new) = Failed;
  ca_hash : manifest_sha256 (cont new) = manifest_sha256 (cont old);
  ca_stage : stage_rows_sha256 (cont new) = stage_rows_sha256 (cont old);
  ca_manifest : manifest_of (cont new) = manifest_of (cont old)
                ∨ ∃ g, g ≠ GPromoted ∧ manifest_of (cont new) = set_gen_state g <$> manifest_of (cont old);
}.

Lemma calm_open old new : calm old new → status (wk new) = Processing → status (wk old) = Processing.
Proof. intros C. destruct (ca_status _ _ C) as [->|[? ->]]; done. Qed.

Lemma calm_completed old new : calm old new → status (wk old) = Completed → status (wk new) = Completed.
Proof. intros C. destruct (ca_status _ _ C) as [->|[-> _]]; done. Qed.

Lemma set_gen_state_twice g g' m : set_gen_state g (set_gen_state g' m) = set_gen_state g m.
Proof. done. Qed.

Lemma manifest_ok_calm rows old new m :
  calm old new → manifest_of (cont new) = Some m →
  (∀ m0, manifest_of (cont old) = Some m0 → manifest_ok rows old m0) → manifest_ok rows new m.
Proof.
  intros C Hm Hold.
  assert (∃ m0, manifest_of (cont old) = Some m0 ∧ manifest_ok rows old m0 ∧
    (m = m0 ∨ ∃ g, g ≠ GPromoted ∧ m = set_gen_state g m0)) as (m0 & Hm0 & [] & Hcase).
  { destruct (ca_manifest _ _ C) as [Hs|(g & Hg & Hs)]; rewrite Hs in Hm.
    - exists m. auto.
    - destruct (manifest_of (cont old)) as [m0|]; [|done]. injection Hm as <-. eauto 10. }
  pose proof (calm_open _ _ C) as Ho.
  destruct Hcase as [->|(g & Hg & ->)]; split; cbn;
    rewrite ?(ca_hash _ _ C), ?(ca_stage _ _ C), ?set_gen_state_twice; auto.
Qed.

Ltac lookup_cases H i sid :=
  destruct (decide (i = sid)) as [->|?];
  [rewrite lookup_insert_eq in H; injection H as H; try subst
  |rewrite lookup_insert_ne in H by done].

Lemma inv_calm x d sid old new :
  inv x d → snaps d !! sid = Some old → calm old new →
  inv x (with_snaps (<[sid := new]> (snaps d)) d).
Proof.
  intros I Hold C.
  assert (Hback : ∀ i s, <[sid := new]> (snaps d) !! i = Some s →
    ∃ s0, snaps d !! i = Some s0 ∧ calm s0 s).
  { intros i s H. lookup_cases H i sid; [by exists old|]. exists s. split; [done|].
    split; auto. }
  split; cbn [snaps stage heads live stores ledger with_snaps];
    unfold staged, head_revision, live_of, materialised, ledger_of;
    cbn [snaps stage heads live stores ledger with_snaps].
  - intros i j s t Hi Hj Ps Pt Hm.
    apply Hback in Hi as (s0 & Hi & Cs), Hj as (t0 & Hj & Ct).
    eapply (i_one _ _ I i j s0 t0); eauto using calm_open.
    by rewrite <- (ca_orig _ _ Cs), <- (ca_orig _ _ Ct).
  - intros i s Hi Ps. apply Hback in Hi as (s0 & Hi & Cs).
    rewrite (ca_orig _ _ Cs), (ca_dcs _ _ Cs). apply (i_expect _ _ I i); eauto using calm_open.
  - intros m h Hh. destruct (i_head _ _ I m h Hh) as (Hr & s & Hs & Hm & Hc & Hst).
    split; [done|]. destruct (decide (h_snapshot h = sid)) as [He|Hne].
    + exists new. rewrite He, lookup_insert_eq. assert (s = old) as -> by congruence.
      rewrite (ca_orig _ _ C). split_and!; [done|done|by eapply calm_completed|by rewrite <- He].
    + exists s. by rewrite lookup_insert_ne by congruence.
  - apply (i_live _ _ I).
  - intros i rows Hi. destruct (i_stage _ _ I i rows Hi) as (s & Hs & Hf).
    destruct (decide (i = sid)) as [->|Hne].
    + exists new. rewrite lookup_insert_eq. assert (s = old) as -> by congruence.
      by rewrite (ca_orig _ _ C).
    + exists s. by rewrite lookup_insert_ne.
  - intros i s h Hi Hh. apply Hback in Hi as (s0 & Hi & Cs).
    rewrite (ca_stage _ _ Cs) in Hh. by apply (i_digest _ _ I i s0 h).
  - intros i s m Hx Hi Hm. apply Hback in Hi as (s0 & Hi & Cs).
    eapply manifest_ok_calm; [exact Cs|done|]. intros m0 Hm0. by apply (i_manifest _ _ I).
  - intros i s Hx Hi Hm. apply Hback in Hi as (s0 & Hi & Cs).
    rewrite (ca_hash _ _ Cs), (ca_stage _ _ Cs). apply (i_hash _ _ I i s0 Hx Hi).
    destruct (ca_manifest _ _ Cs) as [<-|(g & _ & Hs)]; [done|].
    rewrite Hs in Hm. by destruct (manifest_of (cont s0)).
  - intros i j s t Hi Hj Ht. apply Hback in Hi as (s0 & Hi & Cs), Hj as (t0 & Hj & Ct).
    apply (i_token _ _ I i j s0 t0 Hi Hj). by rewrite <- (ca_orig _ _ Cs), <- (ca_orig _ _ Ct).
  - apply (i_ledger _ _ I).
  - apply (i_stores _ _ I).
Qed.

Lemma write_calm x d sid old new d' :
  inv x d → snaps d !! sid = Some old → calm old new →
  write (sha256_hex E) d sid old new = Ok d' → inv x d'.
Proof.
  intros I Hs C Hw. apply write_same in Hw as ->; [by eapply inv_calm|apply (ca_hash _ _ C)].
Qed.

Lemma update_where_calm x sid p set d o :
  inv x d → (∀ s, p s = true → calm s (set s)) →
  update_where (sha256_hex E) sid p set d = Ok o → inv x (default d o).
Proof.
  intros I Hc [[-> _]|(s & d' & Hs & Hp & -> & Hw)]%update_where_Ok; [done|].
  cbn. eapply write_calm; eauto.
Qed.

Lemma fenced_update_calm x msg sid p set d d' :
  inv x d → (∀ s, p s = true → calm s (set s)) →
  fenced_update (sha256_hex E) msg sid p set d = Ok d' → inv x d'.
Proof. intros I Hc (s & Hs & Hp & Hw)%sales_fenced_update_Ok. eapply write_calm; eauto. Qed.

Lemma update_all_calm x p set d ids d' :
  inv x d → (∀ s, p s = true → calm s (set s)) →
  update_all (sha256_hex E) p set d = Ok (ids, d') → inv x d'.
Proof.
  intros I Hc H. eapply (update_all_ind (inv x)); [exact H|exact I|].
  intros t sid s t' It Hs Hp Hw. eapply write_calm; eauto.
Qed.

(** ** Attaching a manifest *)

Lemma inv_attach x d sid old new m :
  inv x d → x = None ∨ x = Some sid → snaps d !! sid = Some old →
  orig new = orig old → dcs new = dcs old → status (wk new) = status (wk old) →
  manifest_of (cont new) = Some m → manifest_ok (staged d sid) new m → staged d sid ≠ [] →
  inv None (with_snaps (<[sid := new]> (snaps d)) d).
Proof.
  intros I Hx Hold Ho Hd Hst Hm Hok Hne.
  assert (Hback : ∀ i s, <[sid := new]> (snaps d) !! i = Some s →
    ∃ s0, snaps d !! i = Some s0 ∧ orig s = orig s0 ∧ dcs s = dcs s0 ∧
          status (wk s) = status (wk s0) ∧ (i ≠ sid → s = s0) ∧ (i = sid → s = new)).
  { intros i s H. lookup_cases H i sid; [by exists old|]. by exists s. }
  split; cbn [snaps stage heads live stores ledger with_snaps];
    unfold staged, head_revision, live_of, materialised, ledger_of;
    cbn [snaps stage heads live stores ledger with_snaps].
  - intros i j s t Hi Hj Ps Pt Hmo.
    apply Hback in Hi as (s0 & Hi & Es & _ & Ss & _), Hj as (t0 & Hj & Et & _ & St & _).
    eapply (i_one _ _ I i j s0 t0); congruence.
  - intros i s Hi Ps. apply Hback in Hi as (s0 & Hi & Es & Ds & Ss & _).
    rewrite Es, Ds. apply (i_expect _ _ I i); congruence.
  - intros mo h Hh. destruct (i_head _ _ I mo h Hh) as (Hr & s & Hs & Hmo & Hc & Hsg).
    split; [done|]. destruct (decide (h_snapshot h = sid)) as [He|Hn].
    + exists new. rewrite He, lookup_insert_eq. assert (s = old) as -> by congruence.
      split_and!; [done|congruence|congruence|by rewrite <- He].
    + exists s. by rewrite lookup_insert_ne by congruence.
  - apply (i_live _ _ I).
  - intros i rows Hi. destruct (i_stage _ _ I i rows Hi) as (s & Hs & Hf).
    destruct (decide (i = sid)) as [->|Hn].
    + exists new. rewrite lookup_insert_eq. assert (s = old) as -> by congruence. by rewrite Ho.
    + exists s. by rewrite lookup_insert_ne.
  - intros i s h Hi Hh. apply Hback in Hi as (s0 & Hi & _ & _ & _ & Hn & He).
    destruct (decide (i = sid)) as [->|Hne'].
    + rewrite (He eq_refl), (mo_stored _ _ _ Hok) in Hh. by injection Hh as <-.
    + rewrite (Hn Hne') in Hh. by apply (i_digest _ _ I i s0 h).
  - intros i s m' _ Hi Hm'. apply Hback in Hi as (s0 & Hi & _ & _ & _ & Hn & He).
    destruct (decide (i = sid)) as [->|Hne'].
    + rewrite (He eq_refl) in *. by assert (m' = m) as -> by congruence.
    + rewrite (Hn Hne') in *. apply (i_manifest _ _ I i); [|done..]. destruct Hx; congruence.
  - intros i s _ Hi Hm'. apply Hback in Hi as (s0 & Hi & _ & _ & _ & Hn & He).
    destruct (decide (i = sid)) as [->|Hne'].
    + rewrite (He eq_refl) in *. congruence.
    + rewrite (Hn Hne') in *. apply (i_hash _ _ I i); [|done..]. destruct Hx; congruence.
  - intros i j s t Hi Hj Ht.
    apply Hback in Hi as (s0 & Hi & Es & _), Hj as (t0 & Hj & Et & _).
    apply (i_token _ _ I i j s0 t0 Hi Hj). congruence.
  - apply (i_ledger _ _ I).
  - apply (i_stores _ _ I).
Qed.

(** ** INSERT of a snapshot *)

Lemma insert_snapshot_Ok sid s d d' :
  insert_snapshot sid s d = Ok d' →
  snaps d !! sid = None ∧
  (∀ i t, snaps d !! i = Some t → generation_token (orig t) ≠ generation_token (orig s)) ∧
  (∀ i t, snaps d !! i = Some t → status (wk t) = Processing →
          import_month (orig t) ≠ import_month (orig s)) ∧
  d' = with_snaps (<[sid := s]> (snaps d)) d.
Proof.
  unfold insert_snapshot. intros H. inv_res.
  assert (Hall : ∀ i t, snaps d !! i = Some t → In t (snd <$> map_to_list (snaps d))).
  { intros i t Hi. apply list_elem_of_In, list_elem_of_fmap. exists (i, t). split; [done|].
    by apply elem_of_map_to_list. }
  split_and!; [|intros i t Hi|intros i t Hi Hp|done].
  - apply bool_decide_eq_false in Hv1. by apply eq_None_not_Some.
  - intros Ht. apply not_true_iff_false in Hv2. apply Hv2, existsb_exists.
    exists t. split; [by eapply Hall|]. by apply bool_decide_eq_true.
  - intros Hm. apply not_true_iff_false in Hv3. apply Hv3, existsb_exists.
    exists t. split; [by eapply Hall|]. unfold is_processing. by rewrite Hp, Hm, !bool_decide_true.
Qed.

Lemma inv_insert sid s seen d d' :
  inv None d → insert_snapshot sid s d = Ok d' → status (wk s) = Processing →
  past_head (import_month (orig s)) d seen →
  expected_head_revision (orig s) = seen_revision seen →
  previous_snapshot_id (dcs s) = h_snapshot <$> seen →
  stage_rows_sha256 (cont s) = None →
  inv (Some sid) d' ∧ staged d' sid = [].
Proof.
  intros I (Hfree & Htok & Hpro & ->)%insert_snapshot_Ok Hst Hpast Hex Hpr Hsh.
  assert (Hns : stage d !! sid = None).
  { destruct (stage d !! sid) eqn:Hs; [|done]. apply (i_stage _ _ I) in Hs as (? & ? & _). congruence. }
  split; [|by unfold staged; cbn; rewrite Hns].
  split; cbn [snaps stage heads live stores ledger with_snaps];
    unfold staged, head_revision, live_of, materialised, ledger_of;
    cbn [snaps stage heads live stores ledger with_snaps].
  - intros i j t u Hi Hj Pt Pu Hm. lookup_cases Hi i sid; lookup_cases Hj j sid; [done| | |].
    + by destruct (Hpro _ _ Hj Pu).
    + by destruct (Hpro _ _ Hi Pt).
    + by apply (i_one _ _ I i j t u).
  - intros i t Hi Pt. lookup_cases Hi i sid; [by exists seen|]. by apply (i_expect _ _ I i).
  - intros m h Hh. destruct (i_head _ _ I m h Hh) as (Hr & t & Ht & ?). split; [done|].
    exists t. by rewrite lookup_insert_ne by congruence.
  - apply (i_live _ _ I).
  - intros i rows Hi. destruct (i_stage _ _ I i rows Hi) as (t & Ht & Hf).
    exists t. by rewrite lookup_insert_ne by congruence.
  - intros i t h Hi Hh. lookup_cases Hi i sid; [congruence|]. by apply (i_digest _ _ I i t h).
  - intros i t m Hx Hi Hm. lookup_cases Hi i sid; [done|]. by apply (i_manifest _ _ I i).
  - intros i t Hx Hi Hm. lookup_cases Hi i sid; [done|]. by apply (i_hash _ _ I i).
  - intros i j t u Hi Hj Ht. lookup_cases Hi i sid; lookup_cases Hj j sid; [done| | |].
    + by destruct (Htok _ _ Hj).
    + by destruct (Htok _ _ Hi).
    + by apply (i_token _ _ I i j t u).
  - apply (i_ledger _ _ I).
  - apply (i_stores _ _ I).
Qed.

Lemma inv_settle sid d s :
  inv (Some sid) d → snaps d !! sid = Some s → manifest_of (cont s) = None →
  manifest_sha256 (cont s) = None → stage_rows_sha256 (cont s) = None → inv None d.
Proof.
  intros [] Hs Hm Hh Hst. split; try done.
  - intros i t m _ Hi Him. apply i_manifest0; [|done..]. intros [= ->]. congruence.
  - intros i t _ Hi Him. destruct (decide (i = sid)) as [->|]; [|apply (i_hash0 i); [congruence|done..]].
    assert (t = s) as -> by congruence. done.
Qed.

(** ** COPY into the stage *)

Lemma insert_stage_Ok sid rows d d' :
  insert_stage sid rows d = Ok d' → rows ≠ [] →
  ∃ s, snaps d !! sid = Some s ∧ status (wk s) = Processing ∧
       Forall (λ r, f_month (row_facts r) = import_month (orig s)) rows ∧
       stage_rows_sha256 (cont s) = None ∧ staged d sid = [] ∧ Forall (λ r, row_fits r = true) rows ∧
       d' = with_stage (<[sid := rows]> (stage d)) d.
Proof.
  unfold insert_stage. destruct rows as [|r rows]; [done|]. intros H _.
  destruct (snaps d !! sid) as [s|]; [|done]. inv_res.
  apply orb_false_iff in Hv as [Hp Hf]. apply negb_false_iff, bool_decide_eq_true in Hp.
  apply bool_decide_eq_false in Hv0. apply negb_false_iff in Hv1, Hv2.
  apply bool_decide_eq_true in Hv2. exists s. split_and!; [done|done| |by apply eq_None_not_Some|done| |done].
  - apply List.Forall_forall. intros y Hy. apply not_true_iff_false in Hf.
    destruct (decide (f_month (row_facts y) = import_month (orig s))) as [|Hn]; [done|].
    destruct Hf. apply existsb_exists. exists y. by rewrite bool_decide_false.
  - by apply List.Forall_forall, forallb_forall.
Qed.

Lemma staged_insert d sid rows i :
  staged (with_stage (<[sid := rows]> (stage d)) d) i = if decide (i = sid) then rows else staged d i.
Proof.
  unfold staged; cbn. destruct (decide (i = sid)) as [->|Hn]; [by rewrite lookup_insert_eq|].
  by rewrite lookup_insert_ne.
Qed.

Lemma inv_stage x d sid rows d' :
  inv x d → insert_stage sid rows d = Ok d' → inv x d'.
Proof.
  intros I H. destruct (decide (rows = [])) as [->|Hne]; [by injection H as <-|].
  apply insert_stage_Ok in H as (s & Hs & Hp & Hf & Hsh & Hempty & _ & ->); [|done].
  assert (Hhead : ∀ m h, heads d !! m = Some h → h_snapshot h ≠ sid).
  { intros m h Hh He. destruct (i_head _ _ I m h Hh) as (_ & t & Ht & _ & Hc & _).
    rewrite He in Ht. congruence. }
  assert (Hun : x ≠ Some sid → manifest_of (cont s) = None).
  { intros Hx. destruct (manifest_of (cont s)) as [m|] eqn:Hm; [|done].
    pose proof (mo_stored _ _ _ (i_manifest _ _ I _ _ _ Hx Hs Hm)). congruence. }
  split; unfold head_revision, live_of, ledger_of;
    cbn [snaps stage heads live stores ledger with_stage]; try apply I.
  - intros m h Hh. destruct (i_head _ _ I m h Hh) as (Hr & t & Ht & ? & ? & ?).
    split; [done|]. exists t. rewrite staged_insert, decide_False by eauto. done.
  - intros m. fold (live_of m d). rewrite (i_live _ _ I m). unfold materialised.
    cbn [heads with_stage]. destruct (heads d !! m) as [h|] eqn:Hh; [|done].
    by rewrite staged_insert, decide_False by eauto.
  - intros i rows' Hi. destruct (decide (i = sid)) as [->|Hn].
    + rewrite lookup_insert_eq in Hi. injection Hi as <-. eauto.
    + rewrite lookup_insert_ne in Hi by done. by apply (i_stage _ _ I).
  - intros i t h Hi Hh. rewrite staged_insert. case_decide as Hd; [subst|].
    + by apply (i_digest _ _ I _ _ _ Hi) in Hh as [? _].
    + by apply (i_digest _ _ I i t h).
  - intros i t m Hx Hi Hm. rewrite staged_insert. case_decide as Hd; [subst|].
    + assert (t = s) as -> by congruence. rewrite Hun in Hm by done. done.
    + by apply (i_manifest _ _ I i).
Qed.
End Inv.
End SalesInv.
