(* ===== verification/SalesPromotionInv.v ===== *)
(** What a successful promotion or rollback does to the sales tables, and that
    both keep the invariant. *)

From S2P Require Import Prelude Text Decimal Grile Outbox SalesText SalesManifest SalesGen SalesPromotion SalesFlow SalesInv.

Local Open Scope Z_scope.

Module SalesPromotionInv.
Import SalesText SalesManifest SalesGen SalesPromotion SalesFlow SalesInv.

(** ** Stores *)

Lemma upsert_store_lookup month current m r site :
  is_Some (upsert_store month current m r !! site) ↔ site = site_code (row_facts r) ∨ is_Some (m !! site).
Proof.
  unfold upsert_store. rewrite lookup_insert_is_Some'. naive_solver.
Qed.

Lemma upsert_stores_lookup month current rows m site :
  is_Some (foldl (upsert_store month current) m rows !! site) ↔
  (∃ r, r ∈ rows ∧ site = site_code (row_facts r)) ∨ is_Some (m !! site).
Proof.
  revert m. induction rows as [|r rows IH]; intros m; cbn.
  - split; [by right|]. by intros [(? & []%not_elem_of_nil & _)|].
  - rewrite IH, upsert_store_lookup. split.
    + intros [(y & ? & ?)|[?|?]]; [left; exists y|left; exists r|by right]; rewrite elem_of_cons; auto.
    + intros [(y & [->|?]%elem_of_cons & ?)|?]; eauto.
Qed.

Lemma first_per_site_sites seen rows site :
  site ∉ seen → (∃ r, r ∈ rows ∧ site = site_code (row_facts r)) →
  ∃ r, r ∈ first_per_site seen rows ∧ site = site_code (row_facts r).
Proof.
  revert seen. induction rows as [|r rows IH]; intros seen Hs (y & Hy & ->); [by apply not_elem_of_nil in Hy|].
  cbn. apply elem_of_cons in Hy. case_bool_decide as Hr.
  - apply IH; [done|]. destruct Hy as [->|Hy]; [done|]. by exists y.
  - destruct (decide (site_code (row_facts y) = site_code (row_facts r))) as [He|Hn].
    + exists r. by rewrite elem_of_cons; auto.
    + destruct Hy as [->|Hy]; [done|].
      destruct (IH (site_code (row_facts r) :: seen)) as (z & Hz & Ez); [by rewrite elem_of_cons; tauto|by exists y|].
      exists z. by rewrite elem_of_cons; auto.
Qed.

(** Every staged row's store exists after the upsert, and no store goes. *)
Lemma upsert_stores_covers sid month d :
  (∀ r, r ∈ staged d sid → is_Some (stores (upsert_stores_from_stage sid month d) !! site_code (row_facts r)))
  ∧ ∀ site, is_Some (stores d !! site) → is_Some (stores (upsert_stores_from_stage sid month d) !! site).
Proof.
  split; intros; cbn; apply upsert_stores_lookup; [left|by right].
  apply first_per_site_sites; [by apply not_elem_of_nil|eauto].
Qed.

(** ** The ledger *)

Lemma follow_snoc h l g r :
  follow h l = Some g → l_from r = h_snapshot <$> g → l_revision r = head_next g →
  follow h (l ++ [r]) = Some (Some (Head (l_to r) (l_revision r))).
Proof.
  revert h. induction l as [|y l IH]; intros h; cbn.
  - intros [= ->] -> ->. by rewrite bool_decide_true, Z.eqb_refl by done.
  - destruct (_ && _); [apply IH|done].
Qed.

(** ** A successful promotion *)

Section Promotion.
Context (E : env).
Notation digest_of := (digest_of (sha256_hex E)).

(** The snapshot row a promotion leaves. *)
Definition promoted_row (now rows : Z) (previous : option Z) (actor : string) (reason : option string)
    (s : snapshot) : snapshot :=
  Snapshot (orig s)
    (Work Completed (owner_id (wk s)) (Some now) (Some now) (Some now) (Some rows) None)
    (put_state GPromoted (cont s)) (art s) (DecisionCols previous (Some now) (Some actor) reason).

(** The live rows a promotion writes for its month. *)
Definition promoted_live (sid : Z) (month : string) (d : db) : list (facts * Z) :=
  (λ f, (f, sid)) <$>
    List.filter (λ f, bool_decide (f_month f = month)) (row_facts <$> staged d sid).

Record promoted (sid now occurred drawn : Z) (token owner sha actor : string) (reason : option string)
    (action : promote_action) (rows revision : Z) (d d' : db) (s : snapshot) (m : manifest) : Prop := {
  pr_row : snaps d !! sid = Some s;
  pr_fenced : fenced token owner s = true;
  pr_leased : leased now s = true;
  pr_hash : manifest_sha256 (cont s) = Some sha;
  pr_manifest : manifest_of (cont s) = Some m;
  pr_policy : manifest_requires_override m = false;
  pr_controls : controls_of (staged d sid) = mf_controls m;
  pr_stored : stage_rows_sha256 (cont s) = Some (digest_of (staged d sid));
  pr_expected : expected_head_revision (orig s) = head_revision d (import_month (orig s));
  pr_revision : revision = head_next (heads d !! import_month (orig s));
  pr_rows : rows = Z.of_nat (length (promoted_live sid (import_month (orig s)) d));
  pr_count : rows = rows_imported (mf_controls m);
  pr_ledger : ledger_guard
    (LedgerRow (import_month (orig s)) (h_snapshot <$> heads d !! import_month (orig s)) sid revision
       action actor reason)
    (with_heads (<[import_month (orig s) := Head sid revision]> (heads d))
       (with_snaps (<[sid := promoted_row now rows (h_snapshot <$> heads d !! import_month (orig s)) actor reason s]>
          (snaps d)) d)) = Ok ();
  pr_event : ∃ c eid, cutoff_date (orig s) = Some c ∧
    Outbox.emit_sales_generation_promoted (payload_digest E) (identity_check E) int_text drawn now
      ("sales-" +:+ import_month (orig s)) sha (default "None"%string (source_sha256 (orig s)))
      (import_month (orig s)) (Outbox.Aware (bucharest_midnight E c)) revision (Outbox.Aware occurred)
      (events d) = Ok (eid, events d');
  pr_snaps : snaps d' =
    <[sid := promoted_row now rows (h_snapshot <$> heads d !! import_month (orig s)) actor reason s]> (snaps d);
  pr_stage : stage d' = stage d;
  pr_heads : heads d' = <[import_month (orig s) := Head sid revision]> (heads d);
  pr_live : live d' = List.filter (λ x, negb (bool_decide (f_month x.1 = import_month (orig s)))) (live d)
                      ++ promoted_live sid (import_month (orig s)) d;
  pr_stores : stores d' = stores (upsert_stores_from_stage sid (import_month (orig s)) d);
  pr_ledger_rows : ledger d' = ledger d ++
    [LedgerRow (import_month (orig s)) (h_snapshot <$> heads d !! import_month (orig s)) sid revision
       action actor reason];
}.

Arguments pr_row {sid now occurred drawn token owner sha actor reason action rows revision d d' s m} _.
Arguments pr_fenced {sid now occurred drawn token owner sha actor reason action rows revision d d' s m} _.
Arguments pr_leased {sid now occurred drawn token owner sha actor reason action rows revision d d' s m} _.
Arguments pr_hash {sid now occurred drawn token owner sha actor reason action rows revision d d' s m} _.
Arguments pr_manifest {sid now occurred drawn token owner sha actor reason action rows revision d d' s m} _.
Arguments pr_policy {sid now occurred drawn token owner sha actor reason action rows revision d d' s m} _.
Arguments pr_controls {sid now occurred drawn token owner sha actor reason action rows revision d d' s m} _.
Arguments pr_stored {sid now occurred drawn token owner sha actor reason action rows revision d d' s m} _.
Arguments pr_expected {sid now occurred drawn token owner sha actor reason action rows revision d d' s m} _.
Arguments pr_revision {sid now occurred drawn token owner sha actor reason action rows revision d d' s m} _.
Arguments pr_rows {sid now occurred drawn token owner sha actor reason action rows revision d d' s m} _.
Arguments pr_count {sid now occurred drawn token owner sha actor reason action rows revision d d' s m} _.
Arguments pr_ledger {sid now occurred drawn token owner sha actor reason action rows revision d d' s m} _.
Arguments pr_event {sid now occurred drawn token owner sha actor reason action rows revision d d' s m} _.
Arguments pr_snaps {sid now occurred drawn token owner sha actor reason action rows revision d d' s m} _.
Arguments pr_stage {sid now occurred drawn token owner sha actor reason action rows revision d d' s m} _.
Arguments pr_heads {sid now occurred drawn token owner sha actor reason action rows revision d d' s m} _.
Arguments pr_live {sid now occurred drawn token owner sha actor reason action rows revision d d' s m} _.
Arguments pr_stores {sid now occurred drawn token owner sha actor reason action rows revision d d' s m} _.
Arguments pr_ledger_rows {sid now occurred drawn token owner sha actor reason action rows revision d d' s m} _.

Lemma write_head_Ok month sid rev d d' s :
  write_head E month sid rev d = Ok d' → snaps d !! sid = Some s →
  is_Some (stage_rows_sha256 (cont s)) → d' = with_heads (<[month := Head sid rev]> (heads d)) d.
Proof.
  unfold write_head, verify_head_target. intros H Hs [h Hh].
  apply bind_Ok in H as (u & _ & H). apply bind_Ok in H as (d1 & H1 & [= <-]).
  case_bool_decide; [by injection H1 as <-|].
  rewrite Hs in H1. destruct (manifest_of (cont s)); [|done]. rewrite Hh in H1. cbn in H1.
  apply bind_Ok in H1 as (u' & _ & [= <-]). done.
Qed.

Lemma advance_head_Ok month sid now token owner expected d prev rev d' :
  advance_sales_head E month sid now token owner expected d = Ok (prev, rev, d') →
  ∃ s, snaps d !! sid = Some s ∧ head_controls E s (staged d sid) = true ∧
    expected = head_revision d month ∧ prev = h_snapshot <$> heads d !! month ∧
    rev = head_next (heads d !! month) ∧ d' = with_heads (<[month := Head sid rev]> (heads d)) d.
Proof.
  unfold advance_sales_head.
  destruct (advance_head E month sid now token owner expected d) as [r|e] eqn:Ha; [|done].
  intros [= ->]. unfold advance_head in Ha. apply bind_Ok in Ha as (u & Hu & Ha).
  destruct (snaps d !! sid) as [s|] eqn:Hs; [|done].
  apply bind_Ok in Ha as (u1 & Hu1 & Ha). apply bind_Ok in Ha as (u2 & Hu2 & Ha).
  apply raise_if_Ok, negb_false_iff in Hu2.
  assert (Hsha : is_Some (stage_rows_sha256 (cont s))).
  { unfold head_controls in Hu2. destruct (manifest_of (cont s)); [|done].
    rewrite !andb_true_iff, !bool_decide_eq_true in Hu2. destruct Hu2 as [[[[_ ->] _] _] _]. eauto. }
  exists s. split; [done|]. split; [done|]. unfold head_revision.
  destruct (heads d !! month) as [h|] eqn:Hh; inv_res.
  - apply negb_false_iff, Z.eqb_eq in Hv. subst. cbn. split_and!; [done..|].
    by eapply write_head_Ok.
  - apply negb_false_iff, Z.eqb_eq in Hv. subst. cbn. split_and!; [done..|].
    by eapply write_head_Ok.
Qed.

Lemma staged_with_heads h d i : staged (with_heads h d) i = staged d i.
Proof. done. Qed.

Lemma promote_Ok sid now occurred drawn token owner sha requested override action d rows rev d' :
  promote_sales_generation E sid now occurred drawn token owner sha requested override action d
  = Ok (rows, rev, d') →
  ∃ s m, strip requested ≠ EmptyString ∧
    promoted sid now occurred drawn token owner sha (strip requested) (opt_strip override) action
      rows rev d d' s m.
Proof.
  unfold promote_sales_generation. intros H.
  apply bind_Ok in H as (u0 & Hactor & H). apply raise_if_Ok, bool_decide_eq_false in Hactor.
  destruct (snaps d !! sid) as [s|] eqn:Hs; [|done].
  apply bind_Ok in H as (u1 & Hf & H). apply raise_if_Ok, negb_false_iff, andb_true_iff in Hf as [Hf Hl].
  apply bind_Ok in H as (u2 & Hh & H). apply raise_if_Ok, negb_false_iff, bool_decide_eq_true in Hh.
  apply bind_Ok in H as (u3 & _ & H).
  destruct (manifest_of (cont s)) as [m|] eqn:Hm; [|done].
  apply bind_Ok in H as (u4 & Hp & H). apply raise_if_Ok in Hp.
  apply bind_Ok in H as (u5 & Hc & H).
  apply raise_if_Ok, negb_false_iff, bool_decide_eq_true in Hc.
  apply bind_Ok in H as ([[prev rev'] d1] & Ha & H).
  apply advance_head_Ok in Ha as (s' & Hs' & Hhc & Hexp & -> & -> & ->).
  assert (s' = s) as -> by congruence.
  unfold head_controls in Hhc. rewrite Hm, !andb_true_iff, !bool_decide_eq_true in Hhc.
  destruct Hhc as [[[[_ Hst] _] _] _].
  set (month := import_month (orig s)) in *.
  set (d1 := with_heads _ d) in *.
  apply bind_Ok in H as ([n d4] & Hcopy & H). unfold copy_staged_generation_to_live in Hcopy.
  apply bind_Ok in Hcopy as (u6 & _ & Hcopy).
  apply bind_Ok in H as (u7 & Hn & H). apply raise_if_Ok, negb_false_iff, Z.eqb_eq in Hn.
  apply bind_Ok in H as (u8 & _ & H).
  apply bind_Ok in H as (d5 & Hfin & H).
  apply sales_fenced_update_Ok in Hfin as (s5 & Hs5 & _ & Hw).
  apply write_same in Hw; [|done].
  injection Hcopy as Hn4 Hd4.
  assert (s5 = s) as -> by (rewrite <- Hd4 in Hs5; cbn in Hs5; congruence).
  apply bind_Ok in H as (d6 & Hled & H). unfold record_promotion in Hled.
  apply bind_Ok in Hled as (u9 & _ & Hled). apply bind_Ok in Hled as ([] & Hg & [= Hd6]).
  apply bind_Ok in H as (cutoff & Hcut & H). unfold sales_event_cutoff in Hcut.
  destruct (cutoff_date (orig s)) as [c|] eqn:Hcd; [|done]. injection Hcut as <-.
  apply bind_Ok in H as ([eid ev] & Hev & H). injection H as <- <- Hd'.
  unfold lift_err in Hev.
  destruct (Outbox.emit_sales_generation_promoted _ _ _ _ _ _ _ _ _ _ _ _ _) as [[eid' ev']|e] eqn:Hemit;
    [|done]. injection Hev as -> ->.
  assert (Hst1 : staged (delete_live month (upsert_stores_from_stage sid month d1)) sid = staged d sid) by done.
  rewrite Hst1 in Hn4, Hd4.
  exists s, m. split; [done|].
  assert (Hlen : n = Z.of_nat (length (promoted_live sid month d)))
    by (subst n; unfold promoted_live; by rewrite length_fmap).
  subst d' d6 d5 d4.
  split; try done; try (by cbn).
  exists c, eid. split; [done|]. exact Hemit.
Qed.

(** ** The invariant after a promotion *)

Lemma live_filter_other (m m' : string) (l : list (facts * Z)) :
  m ≠ m' →
  List.filter (λ x, bool_decide (f_month x.1 = m))
    (List.filter (λ x, negb (bool_decide (f_month x.1 = m'))) l)
  = List.filter (λ x, bool_decide (f_month x.1 = m)) l.
Proof.
  intros Hn. induction l as [|x l IH]; cbn; [done|].
  destruct (decide (f_month x.1 = m')) as [He|He]; cbn.
  - rewrite (bool_decide_true (f_month x.1 = m')) by done. cbn.
    rewrite bool_decide_false by congruence. done.
  - rewrite (bool_decide_false (f_month x.1 = m')) by done. cbn. by rewrite IH.
Qed.

Lemma live_filter_same (m : string) (l : list (facts * Z)) :
  List.filter (λ x, bool_decide (f_month x.1 = m))
    (List.filter (λ x, negb (bool_decide (f_month x.1 = m))) l) = [].
Proof.
  induction l as [|x l IH]; cbn; [done|].
  destruct (bool_decide (f_month x.1 = m)) eqn:He; cbn; [done|]. by rewrite He.
Qed.

(** Staged rows carry their snapshot's month, so all of them go live. *)
Lemma promoted_live_all x sid d s :
  inv E x d → snaps d !! sid = Some s →
  promoted_live sid (import_month (orig s)) d = (λ r, (row_facts r, sid)) <$> staged d sid.
Proof.
  intros I Hs. unfold promoted_live. rewrite filter_all.
  - by rewrite <- list_fmap_compose.
  - unfold staged. destruct (stage d !! sid) as [rows|] eqn:Hr; [|constructor]. cbn.
    destruct (i_stage _ _ _ I _ _ Hr) as (s' & Hs' & Hf).
    assert (s' = s) as -> by congruence. apply Forall_fmap. eapply Forall_impl; [exact Hf|].
    intros r He. by apply bool_decide_eq_true.
Qed.

Lemma filter_app_live (m : string) (l k : list (facts * Z)) :
  List.filter (λ x, bool_decide (f_month x.1 = m)) (l ++ k)
  = List.filter (λ x, bool_decide (f_month x.1 = m)) l
    ++ List.filter (λ x, bool_decide (f_month x.1 = m)) k.
Proof. apply List.filter_app. Qed.

Lemma promoted_month sid month d : Forall (λ x, f_month x.1 = month) (promoted_live sid month d).
Proof.
  unfold promoted_live. apply Forall_fmap, List.Forall_forall.
  intros f [_ Hf]%filter_In. by apply bool_decide_eq_true in Hf.
Qed.

(** The live table after a promotion: the month replaced, the others kept. *)
Lemma promoted_live_of sid now occurred drawn token owner sha actor reason action rows rev d d' s m mo :
  promoted sid now occurred drawn token owner sha actor reason action rows rev d d' s m →
  live_of mo d' = if decide (mo = import_month (orig s))
                  then promoted_live sid (import_month (orig s)) d else live_of mo d.
Proof.
  intros P. unfold live_of. rewrite (pr_live P), filter_app_live.
  pose proof (promoted_month sid (import_month (orig s)) d) as Hm.
  case_decide as Hd; [subst mo|].
  - rewrite live_filter_same, filter_all; [done|]. eapply Forall_impl; [exact Hm|].
    intros x Hx. by apply bool_decide_eq_true.
  - rewrite live_filter_other, (filter_none _ (promoted_live _ _ _)); [by rewrite app_nil_r| |done].
    eapply Forall_impl; [exact Hm|]. intros x Hx. apply bool_decide_eq_false. congruence.
Qed.

Lemma fenced_processing token owner s : fenced token owner s = true → status (wk s) = Processing.
Proof.
  unfold fenced, is_processing. rewrite !andb_true_iff, !bool_decide_eq_true. tauto.
Qed.

Lemma promoted_inv sid now occurred drawn token owner sha actor reason action rows rev d d' s m :
  promoted sid now occurred drawn token owner sha actor reason action rows rev d d' s m →
  inv E None d → inv E None d'.
Proof.
  intros P I.
  pose proof (pr_row P) as Hs. pose proof (fenced_processing _ _ _ (pr_fenced P)) as Hproc.
  set (month := import_month (orig s)) in *.
  set (new := promoted_row now rows (h_snapshot <$> heads d !! month) actor reason s).
  assert (Esn : snaps d' = <[sid := new]> (snaps d)) by exact (pr_snaps P).
  assert (Ehd : heads d' = <[month := Head sid rev]> (heads d)) by exact (pr_heads P).
  assert (Est : ∀ i, staged d' i = staged d i) by (intros; unfold staged; by rewrite (pr_stage P)).
  destruct (i_digest _ _ _ I _ _ _ Hs (pr_stored P)) as [Hne _].
  assert (Hother : ∀ i t, snaps d' !! i = Some t → i ≠ sid → snaps d !! i = Some t).
  { intros i t. rewrite Esn. intros Hi Hn. by rewrite lookup_insert_ne in Hi. }
  assert (Hself : ∀ t, snaps d' !! sid = Some t → t = new).
  { intros t. rewrite Esn, lookup_insert_eq. congruence. }
  assert (Hback : ∀ i t, snaps d' !! i = Some t → ∃ t0, snaps d !! i = Some t0 ∧ orig t = orig t0 ∧
     (status (wk t) = Processing → t = t0 ∧ import_month (orig t) ≠ month)).
  { intros i t Hi. destruct (decide (i = sid)) as [->|Hn].
    - apply Hself in Hi as ->. exists s. by split_and!.
    - exists t. split_and!; [by apply Hother|done|]. intros Hp. split; [done|]. intros Hmo.
      apply Hn, (i_one _ _ _ I i sid t s); auto. }
  split.
  - intros i j t u Hi Hj Pt Pu Hm.
    apply Hback in Hi as (t0 & Hi & _ & [-> _]%(λ f, f Pt)), Hj as (u0 & Hj & _ & [-> _]%(λ f, f Pu)).
    by apply (i_one _ _ _ I i j t0 u0).
  - intros i t Hi Pt. apply Hback in Hi as (t0 & Hi & _ & [-> Hn]%(λ f, f Pt)).
    destruct (i_expect _ _ _ I i t0 Hi Pt) as (seen & Hpast & ?). exists seen. split; [|done].
    destruct Hpast as [->|(r & Hr & ?)]; [by left|right]. exists r. split; [|done].
    rewrite (pr_ledger_rows P). set_solver.
  - intros mo h Hh. rewrite Ehd in Hh. rewrite Est.
    destruct (decide (mo = month)) as [->|Hn].
    + rewrite lookup_insert_eq in Hh. injection Hh as <-. cbn. split.
      * assert (Erev : rev = head_next (heads d !! month)) by exact (pr_revision P).
        rewrite Erev. destruct (heads d !! month) as [h|] eqn:Hh; unfold head_next; [|lia].
        destruct (i_head _ _ _ I _ _ Hh) as [Hr _]. lia.
      * exists new. by rewrite Esn, lookup_insert_eq.
    + rewrite lookup_insert_ne in Hh by done.
      destruct (i_head _ _ _ I mo h Hh) as (Hr & t & Ht & Hmo & Hc & Hst).
      split; [done|]. exists t. rewrite Esn, lookup_insert_ne; [done|]. intros He.
      rewrite <- He in Ht. congruence.
  - intros mo. rewrite (promoted_live_of _ _ _ _ _ _ _ _ _ _ _ _ _ _ _ _ mo P).
    unfold materialised. rewrite Ehd. fold month. case_decide as Hd.
    + subst mo. rewrite lookup_insert_eq. cbn. rewrite Est. by eapply promoted_live_all.
    + rewrite lookup_insert_ne by congruence. rewrite (i_live _ _ _ I mo). unfold materialised.
      destruct (heads d !! mo) as [h|]; [|done]. by rewrite Est.
  - intros i rws Hi. rewrite (pr_stage P) in Hi.
    destruct (i_stage _ _ _ I i rws Hi) as (t & Ht & Hf).
    destruct (decide (i = sid)) as [->|Hn].
    + exists new. rewrite Esn, lookup_insert_eq. assert (t = s) as -> by congruence. done.
    + exists t. by rewrite Esn, lookup_insert_ne.
  - intros i t h Hi Hh. rewrite Est. destruct (decide (i = sid)) as [->|Hn].
    + apply Hself in Hi as ->. apply (i_digest _ _ _ I sid s h Hs Hh).
    + apply (i_digest _ _ _ I i t h); auto.
  - intros i t mf _ Hi Hm. rewrite Est. destruct (decide (i = sid)) as [->|Hn].
    + apply Hself in Hi as ->. cbn in Hm. rewrite (pr_manifest P) in Hm. injection Hm as <-.
      destruct (i_manifest _ _ _ I sid s m (ltac:(done)) Hs (pr_manifest P)).
      by split; cbn.
    + apply (i_manifest _ _ _ I i t); auto.
  - intros i t _ Hi Hm. destruct (decide (i = sid)) as [->|Hn].
    + apply Hself in Hi as ->. cbn in Hm. by rewrite (pr_manifest P) in Hm.
    + apply (i_hash _ _ _ I i t); auto.
  - intros i j t u Hi Hj Ht.
    apply Hback in Hi as (t0 & Hi & Et & _), Hj as (u0 & Hj & Eu & _).
    apply (i_token _ _ _ I i j t0 u0 Hi Hj). congruence.
  - intros mo. unfold ledger_of. rewrite (pr_ledger_rows P), List.filter_app. cbn. fold month.
    rewrite Ehd. destruct (decide (mo = month)) as [->|Hn].
    + rewrite bool_decide_true, lookup_insert_eq by done.
      apply (follow_snoc _ _ (heads d !! month) (LedgerRow month _ sid rev action actor reason));
        [apply (i_ledger _ _ _ I)|done|exact (pr_revision P)].
    + rewrite bool_decide_false, app_nil_r, lookup_insert_ne by congruence. apply (i_ledger _ _ _ I).
  - rewrite (pr_live P), (pr_stores P). fold month.
    destruct (upsert_stores_covers sid month d) as [Hnew Hkeep].
    apply Forall_app. split.
    + apply List.Forall_forall. intros x [Hx _]%filter_In. apply Hkeep.
      pose proof (i_stores _ _ _ I) as Ha. rewrite List.Forall_forall in Ha. by apply Ha.
    + unfold promoted_live. apply Forall_fmap, List.Forall_forall. intros f [Hf _]%filter_In.
      apply list_elem_of_In, list_elem_of_fmap in Hf as (r & -> & Hr). by apply Hnew.
Qed.

(** ** Preparing a rollback *)

(** The database in which a rollback promotes its clone: the clone holds the
    rows of the predecessor, everything else is as before. *)
Record prepared (current new_sid target : Z) (month token owner sha : string) (d d3 : db) : Prop := {
  rb_head : ∃ h, heads d !! month = Some h ∧ h_snapshot h = current;
  rb_current : ∃ cur, snaps d !! current = Some cur ∧ previous_snapshot_id (dcs cur) = Some target;
  rb_target : ∃ src, snaps d !! target = Some src ∧ import_month (orig src) = month ∧
              status (wk src) = Completed;
  rb_fresh : snaps d !! new_sid = None;
  rb_clone : ∃ s, snaps d3 !! new_sid = Some s ∧ import_month (orig s) = month;
  rb_rows : staged d3 new_sid = staged d target;
  rb_staged i : i ≠ new_sid → staged d3 i = staged d i;
  rb_snaps i : i ≠ new_sid → snaps d3 !! i = snaps d !! i;
  rb_heads : heads d3 = heads d;
  rb_live : live d3 = live d;
  rb_stores : stores d3 = stores d;
  rb_ledger : ledger d3 = ledger d;
  rb_events : events d3 = events d;
  rb_inv : inv E None d3;
}.

Lemma rollback_manifest_state digest c t m :
  set_gen_state GValidated (rollback_manifest digest c t m) = rollback_manifest digest c t m.
Proof. done. Qed.

Lemma rollback_Ok current new_sid now occurred drawn ctoken esha requested reason token owner d
    r imported rev d' :
  rollback_sales_generation E current new_sid now occurred drawn ctoken esha requested reason token owner d
  = Ok (r, imported, rev, d') → inv E None d →
  ∃ target month sha d3,
    prepared current new_sid target month token owner sha d d3 ∧
    promote_sales_generation E new_sid now occurred drawn token owner sha (strip requested)
      (Some (strip reason)) ActRollback d3 = Ok (imported, rev, d') ∧ r = new_sid.
Proof.
  unfold rollback_sales_generation. intros H I.
  apply bind_Ok in H as (u0 & _ & H). apply bind_Ok in H as (u1 & _ & H).
  destruct (List.filter _ (map_to_list (heads d))) as [|[month h] hs] eqn:Hf; [done|].
  destruct (snaps d !! current) as [cur|] eqn:Hcur; [|done].
  assert (Hh : heads d !! month = Some h ∧ h_snapshot h = current).
  { assert (Hin : In (month, h) (List.filter (λ x, h_snapshot x.2 =? current) (map_to_list (heads d))))
      by (rewrite Hf; by left).
    apply filter_In in Hin as [Hin He]. apply Z.eqb_eq in He.
    split; [|done]. by apply elem_of_map_to_list, list_elem_of_In. }
  destruct Hh as [Hh Hhc].
  apply bind_Ok in H as (u2 & _ & H). apply bind_Ok in H as (u3 & _ & H).
  destruct (previous_snapshot_id (dcs cur)) as [target|] eqn:Hprev; [|done].
  destruct (snaps d !! target) as [src|] eqn:Hsrc; [|done].
  apply bind_Ok in H as (u4 & Hs4 & H).
  apply raise_if_Ok, negb_false_iff in Hs4. rewrite !andb_true_iff, !bool_decide_eq_true in Hs4.
  destruct Hs4 as [[Hmo Hc] Hne]. apply negb_true_iff, bool_decide_eq_false in Hne.
  destruct (stage_rows_sha256 (cont src)) as [digest|] eqn:Hdg; [|done].
  apply bind_Ok in H as (u5 & _ & H).
  destruct (manifest_of (cont src)) as [m0|] eqn:Hm0; [|done].
  set (m := rollback_manifest digest current target m0) in *.
  apply bind_Ok in H as (d1 & Hins & H). apply bind_Ok in H as (d2 & Hstg & H).
  apply bind_Ok in H as (o & Hupd & H). apply bind_Ok in H as ([[im rv] d3'] & Hpro & H).
  injection H as <- <- <- <-.
  match type of Hins with insert_snapshot _ ?s0 _ = _ => set (s := s0) in * end.
  pose proof (insert_snapshot_Ok _ _ _ _ Hins) as (Hfree & _ & _ & Ed1).
  assert (inv E (Some new_sid) d1 ∧ staged d1 new_sid = []) as [I1 Hemp].
  { eapply (inv_insert _ _ _ (heads d !! month)); [exact I|exact Hins|done| | | |done]; cbn.
    - by eapply head_is_past.
    - by rewrite Hh.
    - by rewrite Hh, <- Hhc. }
  assert (Htn : target ≠ new_sid) by congruence.
  assert (Hst1 : staged d1 target = staged d target) by by rewrite Ed1.
  rewrite Hst1 in Hstg.
  pose proof (inv_stage _ _ _ _ _ _ I1 Hstg) as I2.
  apply insert_stage_Ok in Hstg as (s1 & Hs1 & _ & _ & Hsha1 & _ & _ & Ed2); [|done].
  assert (s1 = s) as -> by (rewrite Ed1 in Hs1; cbn in Hs1; rewrite lookup_insert_eq in Hs1; congruence).
  assert (Hst2 : staged d2 new_sid = staged d target)
    by (rewrite Ed2, staged_insert, decide_True; done).
  assert (Hs2 : snaps d2 !! new_sid = Some s)
    by (rewrite Ed2, Ed1; cbn; by rewrite lookup_insert_eq).
  destruct (i_digest _ _ _ I _ _ _ Hsrc Hdg) as [_ Hdig].
  pose proof (i_manifest _ _ _ I _ _ _ (ltac:(done)) Hsrc Hm0) as [Hctl _ _ _ _ _].
  apply update_where_Ok in Hupd as [[-> Hno]|(s' & d3 & Hs' & _ & -> & Hw)].
  { specialize (Hno s Hs2). apply bool_decide_eq_false in Hno. by destruct Hno. }
  assert (s' = s) as -> by congruence.
  apply write_same in Hw; [|done].
  exists target, month, (canonical_manifest_sha256 E m), d3. split_and!; [|exact Hpro|done].
  match type of Hw with _ = with_snaps (<[_ := ?n]> _) _ => set (new := n) in * end.
  assert (Eothers : heads d3 = heads d ∧ live d3 = live d ∧ stores d3 = stores d ∧
                    ledger d3 = ledger d ∧ events d3 = events d)
    by (rewrite Hw, Ed2, Ed1; done).
  destruct Eothers as (? & ? & ? & ? & ?).
  split; try done.
  - by exists h.
  - by exists cur.
  - by exists src.
  - exists new. rewrite Hw. cbn. by rewrite lookup_insert_eq.
  - by rewrite Hw.
  - intros i Hi. rewrite Hw. change (staged d2 i = staged d i).
    rewrite Ed2, staged_insert, decide_False by done. by rewrite Ed1.
  - intros i Hi. rewrite Hw, Ed2, Ed1. cbn. by rewrite !lookup_insert_ne.
  - rewrite Hw. apply (inv_attach E (Some new_sid) d2 new_sid s new m); auto; [|by rewrite Hst2].
    rewrite Hst2. split; cbn; try done; by rewrite <- ?Hdig.
Qed.

Lemma rollback_inv current new_sid now occurred drawn ctoken esha requested reason token owner d r d' :
  rollback_sales_generation E current new_sid now occurred drawn ctoken esha requested reason token owner d
  = Ok (r, d') → inv E None d → inv E None d'.
Proof.
  destruct r as [[r im] rv]. intros H I.
  apply rollback_Ok in H as (target & month & sha & d3 & P & Hp & _); [|done].
  apply promote_Ok in Hp as (s & m & _ & Hp). eapply promoted_inv; [exact Hp|apply (rb_inv _ _ _ _ _ _ _ _ _ P)].
Qed.
End Promotion.
#[global] Arguments pr_row {E sid now occurred drawn token owner sha actor reason action rows revision d d' s m} _.
#[global] Arguments pr_fenced {E sid now occurred drawn token owner sha actor reason action rows revision d d' s m} _.
#[global] Arguments pr_leased {E sid now occurred drawn token owner sha actor reason action rows revision d d' s m} _.
#[global] Arguments pr_hash {E sid now occurred drawn token owner sha actor reason action rows revision d d' s m} _.
#[global] Arguments pr_manifest {E sid now occurred drawn token owner sha actor reason action rows revision d d' s m} _.
#[global] Arguments pr_policy {E sid now occurred drawn token owner sha actor reason action rows revision d d' s m} _.
#[global] Arguments pr_controls {E sid now occurred drawn token owner sha actor reason action rows revision d d' s m} _.
#[global] Arguments pr_stored {E sid now occurred drawn token owner sha actor reason action rows revision d d' s m} _.
#[global] Arguments pr_expected {E sid now occurred drawn token owner sha actor reason action rows revision d d' s m} _.
#[global] Arguments pr_revision {E sid now occurred drawn token owner sha actor reason action rows revision d d' s m} _.
#[global] Arguments pr_rows {E sid now occurred drawn token owner sha actor reason action rows revision d d' s m} _.
#[global] Arguments pr_count {E sid now occurred drawn token owner sha actor reason action rows revision d d' s m} _.
#[global] Arguments pr_ledger {E sid now occurred drawn token owner sha actor reason action rows revision d d' s m} _.
#[global] Arguments pr_event {E sid now occurred drawn token owner sha actor reason action rows revision d d' s m} _.
#[global] Arguments pr_snaps {E sid now occurred drawn token owner sha actor reason action rows revision d d' s m} _.
#[global] Arguments pr_stage {E sid now occurred drawn token owner sha actor reason action rows revision d d' s m} _.
#[global] Arguments pr_heads {E sid now occurred drawn token owner sha actor reason action rows revision d d' s m} _.
#[global] Arguments pr_live {E sid now occurred drawn token owner sha actor reason action rows revision d d' s m} _.
#[global] Arguments pr_stores {E sid now occurred drawn token owner sha actor reason action rows revision d d' s m} _.
#[global] Arguments pr_ledger_rows {E sid now occurred drawn token owner sha actor reason action rows revision d d' s m} _.
#[global] Arguments rb_head {E current new_sid target month token owner sha d d3} _.
#[global] Arguments rb_current {E current new_sid target month token owner sha d d3} _.
#[global] Arguments rb_target {E current new_sid target month token owner sha d d3} _.
#[global] Arguments rb_fresh {E current new_sid target month token owner sha d d3} _.
#[global] Arguments rb_clone {E current new_sid target month token owner sha d d3} _.
#[global] Arguments rb_rows {E current new_sid target month token owner sha d d3} _.
#[global] Arguments rb_staged {E current new_sid target month token owner sha d d3} _ _ _.
#[global] Arguments rb_snaps {E current new_sid target month token owner sha d d3} _ _ _.
#[global] Arguments rb_heads {E current new_sid target month token owner sha d d3} _.
#[global] Arguments rb_live {E current new_sid target month token owner sha d d3} _.
#[global] Arguments rb_stores {E current new_sid target month token owner sha d d3} _.
#[global] Arguments rb_ledger {E current new_sid target month token owner sha d d3} _.
#[global] Arguments rb_events {E current new_sid target month token owner sha d d3} _.
#[global] Arguments rb_inv {E current new_sid target month token owner sha d d3} _.
End SalesPromotionInv.
