(* ===== verification/SalesFlowInv.v ===== *)
(** Every transition of the sales tables keeps the invariant. *)

From S2P Require Import Prelude Text Decimal Grile Outbox SalesText SalesManifest SalesGen SalesPromotion SalesFlow SalesInv SalesPromotionInv.

Local Open Scope Z_scope.

Module SalesFlowInv.
Import SalesText SalesManifest SalesGen SalesPromotion SalesFlow SalesInv SalesPromotionInv.

(** ** What the import writes is informational *)

Definition all_informational (l : list anomaly) : Prop :=
  Forall (λ a, classified a = INFORMATIONAL) l.

Lemma informational_calm m :
  all_informational (anomalies m) → manifest_requires_override m = false.
Proof.
  unfold manifest_requires_override, manifest_has_structural_contradictions.
  induction 1 as [|a l Ha _ IH]; cbn; [done|]. by rewrite Ha, IH.
Qed.

Lemma regression_informational incoming previous c l :
  regression incoming previous c = Ok l → all_informational l.
Proof.
  unfold regression. destruct c as [[key measure] threshold]. intros (drop & _ & H)%bind_Ok.
  injection H as <-. destruct (dltb threshold drop); by repeat constructor.
Qed.

Lemma classify_informational incoming previous l :
  classify_authoritative_replace_anomalies incoming previous = Ok l → all_informational l.
Proof.
  unfold classify_authoritative_replace_anomalies.
  destruct previous as [previous|]; [|intros [= <-]; by repeat constructor].
  intros (drops & Hd & H)%bind_Ok. injection H as <-. apply Forall_app. split.
  - destruct (negb _); by repeat constructor.
  - apply Forall_app. split; [destruct (missing_site_days _ _); by repeat constructor|].
    apply mapR_Ok in Hd. apply Forall_concat.
    eapply Forall2_right; [|exact Hd]. intros c k. apply regression_informational.
Qed.

Lemma site_anomaly_informational E c sites : all_informational (site_anomaly E c sites).
Proof. destruct sites; by repeat constructor. Qed.

Lemma coverage_informational E d df : all_informational (coverage_anomalies E d df).
Proof.
  unfold coverage_anomalies, all_informational. rewrite !Forall_app.
  split_and!; try apply site_anomaly_informational. destruct (List.filter _ _); by repeat constructor.
Qed.

Lemma build_controls na sh jr js rows sha cutoff n k m :
  build_sales_generation_manifest na sh jr js rows sha cutoff n k = Ok m →
  mf_controls m = controls_of rows ∧ rows ≠ [] ∧ rollback_of m = None ∧ rollback_source m = None.
Proof.
  unfold build_sales_generation_manifest. intros (u & _ & H)%bind_Ok.
  destruct (max_date _) eqn:Hmax; [|done].
  destruct (remove_dups _) as [|mo [|mo' l]]; try done.
  apply bind_Ok in H as (u1 & _ & H). apply bind_Ok in H as (u2 & _ & H). injection H as <-.
  split_and!; try done. intros ->. done.
Qed.

Section Flow.
Context (E : env).

(** ** The calm operations *)

Ltac calm_set :=
  intros ? Hp; unfold fenced, is_processing in Hp;
  rewrite ?andb_true_iff, ?bool_decide_eq_true in Hp;
  unfold set_work, set_art, set_content, put_state; split; cbn; try done; auto;
  try (right; split; [tauto|done]); try (right; eexists; split; [|done]; done).

Lemma expire_abandoned_inv month now d d' :
  inv E None d → expire_abandoned (sha256_hex E) month now d = Ok d' → inv E None d'.
Proof.
  unfold expire_abandoned. intros I H.
  destruct (update_all _ _ _ d) as [[ids t]|] eqn:Hu; [|done]. injection H as <-.
  eapply update_all_calm; [exact I| |exact Hu]. calm_set.
Qed.

Lemma heartbeat_inv x sid now token owner secs d d' :
  inv E x d → fenced_generation_heartbeat (sha256_hex E) sid now token owner secs d = Ok d' → inv E x d'.
Proof. intros I H. eapply fenced_update_calm; [exact I| |exact H]. calm_set. Qed.

Lemma fail_inv sid now token owner error d d' :
  inv E None d → fail_sales_generation (sha256_hex E) sid now token owner error d = Ok d' → inv E None d'.
Proof. intros I H. eapply fenced_update_calm; [exact I| |exact H]. calm_set. Qed.

Lemma coverage_inv sid now report d d' :
  inv E None d → record_coverage_report (sha256_hex E) sid now report d = Ok d' → inv E None d'.
Proof.
  intros I (o & Ho & [= <-])%bind_Ok. eapply update_where_calm; [exact I| |exact Ho]. calm_set.
Qed.

Lemma attach_inv sid now token owner path sha bytes d d' :
  inv E None d → attach_sales_generation_source (sha256_hex E) sid now token owner path sha bytes d = Ok d' →
  inv E None d'.
Proof. intros I H. eapply fenced_update_calm; [exact I| |exact H]. calm_set. Qed.

Lemma retain_inv sid now token owner path sha bytes d d' :
  inv E None d →
  mark_sales_generation_artifact_retained (sha256_hex E) sid now token owner path sha bytes d = Ok d' →
  inv E None d'.
Proof. intros I H. eapply fenced_update_calm; [exact I| |exact H]. calm_set. Qed.

Lemma claim_inv sid now token sha owner secs previous d d' :
  inv E None d →
  claim_validated_sales_generation (sha256_hex E) sid now token sha owner secs d = Ok (previous, d') →
  inv E None d'.
Proof.
  intros I (u & _ & H)%bind_Ok. apply bind_Ok in H as (o & Ho & H).
  assert (Hd : inv E None (default d o)) by (eapply update_where_calm; [exact I| |exact Ho]; calm_set).
  destruct o as [t|]; [|done]. destruct (snaps d !! sid); [|done]. by injection H as _ <-.
Qed.

Lemma restore_inv sid now token current previous d d' :
  inv E None d →
  restore_sales_generation_claim (sha256_hex E) sid now token current previous d = Ok d' → inv E None d'.
Proof. intros I H. eapply fenced_update_calm; [exact I| |exact H]. calm_set. Qed.

Lemma leases_inv now fresh ids d d' :
  inv E None d → reconcile_leases (sha256_hex E) now fresh d = Ok (ids, d') → inv E None d'.
Proof.
  unfold reconcile_leases. intros I H.
  apply bind_Ok in H as ([l1 d1] & H1 & H). apply bind_Ok in H as ([l2 d2] & H2 & [= _ <-]).
  eapply update_all_calm; [|  |exact H2]; [|calm_set].
  eapply update_all_calm; [exact I| |exact H1]. calm_set.
Qed.

Lemma back_to_validated_calm s w f :
  status w = status (wk s) ∨ status (wk s) = Processing ∧ status w = Failed →
  calm s (set_work (λ _, w) (set_art f (back_to_validated s))).
Proof.
  intros Hw. unfold back_to_validated, set_work, set_art, set_content, put_state.
  split; cbn; auto; case_bool_decide; cbn; auto. right. by exists GValidated.
Qed.

Lemma candidate_inv sid now s outcome b d d' :
  inv E None d → reconcile_candidate (sha256_hex E) sid now s outcome d = Ok (b, d') → inv E None d'.
Proof.
  unfold reconcile_candidate. intros I H.
  destruct outcome; apply bind_Ok in H as (o & Ho & [= _ <-]);
    (eapply update_where_calm; [exact I| |exact Ho]).
  - intros t Hp. apply andb_true_iff in Hp as [Hp _]. apply fenced_processing in Hp.
    apply (back_to_validated_calm t (if keeps_claim t then _ else _)).
    destruct (keeps_claim t); cbn; auto.
  - calm_set.
  - intros t Hp. apply (back_to_validated_calm t). by left.
Qed.

(** ** Reservation *)

Lemma expire_abandoned_ledger month now d d' :
  expire_abandoned (sha256_hex E) month now d = Ok d' → ledger d' = ledger d.
Proof.
  unfold expire_abandoned. intros H.
  destruct (update_all _ _ _ d) as [[ids t]|] eqn:Hu; [|done]. injection H as <-.
  eapply (update_all_ind E (λ t, ledger t = ledger d)); [exact Hu|done|].
  intros t1 i s t' Ht _ _ Hw. rewrite <- Ht. unfold write in Hw. by inv_res.
Qed.

Lemma reserve_Ok sid now seen month file in_file final source cutoff token owner required path bytes
    secs d r d' :
  reserve_snapshot (sha256_hex E) sid now seen month file in_file final source cutoff token owner
    required path bytes secs d = Ok (r, d') → past_head month d seen → inv E None d →
  r = sid ∧ inv E None d' ∧
  ∃ s, snaps d' !! sid = Some s ∧ fenced token owner s = true ∧ import_month (orig s) = month ∧
       manifest_of (cont s) = None ∧ lease_until (wk s) = Some (now + secs * second).
Proof.
  unfold reserve_snapshot. intros H Hpast I.
  apply bind_Ok in H as (u & _ & H). apply bind_Ok in H as (u1 & _ & H).
  apply bind_Ok in H as (d1 & H1 & H). pose proof (expire_abandoned_inv _ _ _ _ I H1) as I1.
  destruct (existsb _ _); [done|].
  apply bind_Ok in H as (d2 & H2 & [= <- <-]).
  match type of H2 with insert_snapshot _ ?s0 _ = _ => set (s := s0) in * end.
  pose proof (insert_snapshot_Ok _ _ _ _ H2) as (_ & _ & _ & Ed2).
  assert (Hs : snaps d2 !! sid = Some s) by (rewrite Ed2; cbn; by rewrite lookup_insert_eq).
  split; [done|]. split.
  - eapply (inv_insert _ _ _ seen) in H2 as [I2 _]; [|exact I1|done| |done..].
    + by eapply inv_settle.
    + unfold past_head. by rewrite (expire_abandoned_ledger _ _ _ _ H1).
  - exists s. split_and!; try done. unfold fenced, is_processing. cbn.
    by rewrite !bool_decide_true.
Qed.

(** ** Validation *)

Lemma stage_of_stage month df rows : mapR (stage_of month) df = Ok rows → length rows = length df.
Proof. apply mapR_length. Qed.

Lemma heartbeat_Ok sid now token owner secs d d' :
  fenced_generation_heartbeat (sha256_hex E) sid now token owner secs d = Ok d' →
  ∃ s, snaps d !! sid = Some s ∧ stage d' = stage d ∧ heads d' = heads d ∧ live d' = live d.
Proof.
  intros (s & Hs & _ & Hw)%sales_fenced_update_Ok. apply write_same in Hw as ->; [|done]. by exists s.
Qed.

Lemma validate_inv sid now month cutoff digest in_file filtered token owner df d n m sha d' :
  validate_and_stage_generation E sid now month cutoff digest in_file filtered token owner df d
  = Ok (n, m, sha, d') → inv E None d →
  inv E None d' ∧
  ∃ rows s, mapR (stage_of month) df = Ok rows ∧ staged d' sid = rows ∧ rows ≠ [] ∧
    snaps d' !! sid = Some s ∧ fenced token owner s = true ∧ manifest_of (cont s) = Some m ∧
    manifest_sha256 (cont s) = Some sha ∧ gen_state m = GValidated ∧
    lease_until (wk s) = Some (now + 7200 * second) ∧ rollback_of m = None ∧ rollback_source m = None ∧
    live d' = live d ∧ heads d' = heads d.
Proof.
  unfold validate_and_stage_generation. intros H I.
  apply bind_Ok in H as (rows & Hrows & H). apply bind_Ok in H as (base & Hbase & H).
  apply bind_Ok in H as (compared & Hcmp & H).
  match type of H with context [with_anomalies ?l ?g base] => set (mf := with_anomalies l g base) in * end.
  apply bind_Ok in H as (d1 & Hbeat & H). apply bind_Ok in H as ([k d2] & Hstg & H).
  apply bind_Ok in H as (d3 & Hper & H). injection H as <- <- <- <-.
  pose proof (build_controls _ _ _ _ _ _ _ _ _ _ Hbase) as (Hctl & Hne & Hro & Hrs).
  pose proof (heartbeat_inv _ _ _ _ _ _ _ _ I Hbeat) as I1.
  unfold stage_sales_generation_rows in Hstg. rewrite Hrows in Hstg. cbn in Hstg.
  apply bind_Ok in Hstg as (d2' & Hstg & [= _ ->]).
  pose proof (inv_stage _ _ _ _ _ _ I1 Hstg) as I2.
  apply insert_stage_Ok in Hstg as (s1 & Hs1 & Hp1 & _ & Hsha1 & _ & _ & Ed2); [|done].
  assert (Hst2 : staged d2 sid = rows) by (rewrite Ed2, staged_insert, decide_True; done).
  apply sales_fenced_update_Ok in Hper as (s & Hs & Hpf & Hw).
  apply andb_true_iff in Hpf as [Hfen _].
  assert (s1 = s) as -> by (rewrite Ed2 in Hs; cbn in Hs; congruence).
  assert (Hm0 : manifest_of (cont s) = None).
  { destruct (manifest_of (cont s)) as [m0|] eqn:Hm0; [|done].
    pose proof (mo_stored _ _ _ _ (i_manifest _ _ _ I2 sid s m0 (ltac:(done)) Hs Hm0)). congruence. }
  destruct (i_hash _ _ _ I2 sid s (ltac:(done)) Hs Hm0) as [Hh0 _].
  unfold write in Hw. apply bind_Ok in Hw as (new & Hnew & Hw).
  unfold provenance_guard in Hnew. rewrite Hh0 in Hnew. cbn in Hnew.
  apply bind_Ok in Hnew as (u1 & _ & Hnew). apply bind_Ok in Hnew as (u2 & _ & Hnew).
  injection Hnew as Enew.
  apply bind_Ok in Hw as (u3 & _ & Hw). apply bind_Ok in Hw as (u4 & _ & Hw). injection Hw as Ed3.
  destruct (heartbeat_Ok _ _ _ _ _ _ _ Hbeat) as (s0 & _ & _ & Hh1 & Hl1).
  assert (Hinf : all_informational (anomalies mf)).
  { cbn. unfold all_informational. rewrite !Forall_app. split_and!.
    - by eapply classify_informational.
    - destruct (filtered =? 0); by repeat constructor.
    - apply coverage_informational. }
  assert (Hlease : lease_until (wk s) = Some (now + 7200 * second)).
  { apply sales_fenced_update_Ok in Hbeat as (t & Ht & _ & Hwt). apply write_same in Hwt; [|done].
    rewrite Hwt in Hs1. cbn in Hs1. rewrite lookup_insert_eq in Hs1. by injection Hs1 as <-. }
  split.
  - rewrite <- Ed3. apply (inv_attach E None d2 sid s new mf); auto; [by rewrite <- Enew..| |].
    + rewrite Hst2. rewrite <- Enew. split; cbn; try done; try congruence.
      exact (informational_calm mf Hinf).
    + by rewrite Hst2.
  - exists rows, new. rewrite <- Ed3. split_and!; try done; try (by rewrite <- Enew).
    + cbn. by rewrite lookup_insert_eq.
    + cbn. by rewrite Ed2.
    + cbn. by rewrite Ed2.
Qed.

(** ** Preservation *)

Lemma inv_stores_alter site f d :
  inv E None d → inv E None (with_stores (alter f site (stores d)) d).
Proof.
  intros []. split; try done. cbn. eapply Forall_impl; [exact i_stores0|].
  intros y Ho. cbn. by apply lookup_alter_is_Some.
Qed.

Lemma step_inv d d' : step E d d' → inv E None d → inv E None d'.
Proof.
  intros S I. destruct S as
    [? ? ? ? ? ? ? ? ? ? ? ? ? ? ? ? Hpast H|? ? ? ? ? ? H|? ? ? ? H|? ? ? ? ? ? H
    |? ? ? ? ? ? ? ? ? ? ? ? ? ? H|? ? ? ? ? ? ? ? H|? ? ? ? ? ? ? ? H|? ? ? ? ? ? ? ? H|? ? ? ? ? ? H
    |? ? ? ? ? ? ? ? ? ? [? ?] ? H|? ? ? ? ? ? ? ? ? ? ? r ? H|? ? ? ? H|? ? ? ? ? ? H|? ? ? ->|e ? ?].
  - by apply reserve_Ok in H as (_ & ? & _).
  - by eapply heartbeat_inv.
  - by eapply coverage_inv.
  - by eapply fail_inv.
  - by apply validate_inv in H as [? _].
  - by eapply attach_inv.
  - by eapply retain_inv.
  - by eapply claim_inv.
  - by eapply restore_inv.
  - apply promote_Ok in H as (s & m & _ & P). by eapply promoted_inv.
  - by eapply rollback_inv.
  - by eapply leases_inv.
  - by eapply candidate_inv.
  - by apply inv_stores_alter.
  - by destruct I.
Qed.

Lemma sales_steps_inv d d' : steps E d d' → inv E None d → inv E None d'.
Proof. induction 1; eauto using step_inv. Qed.

Lemma sales_reachable_inv d : reachable E d → inv E None d.
Proof. intros H. eapply sales_steps_inv; [exact H|apply empty_inv]. Qed.
End Flow.
End SalesFlowInv.

(** Every stored snapshot satisfies its CHECK constraints, and a retained source
    artifact is exact: an invariant of the writes themselves. *)

Module SalesRowInv.
Import SalesText SalesManifest SalesGen SalesPromotion SalesFlow SalesInv SalesPromotionInv.

(** Constraints of a row, and trigger 043 on its artifact columns. *)
Definition row_valid (s : snapshot) : bool :=
  row_check s && implb (retained (art s)) (artifact_exact s).

Definition rows_valid (d : db) : Prop := map_Forall (λ _ s, row_valid s = true) (snaps d).

Lemma rows_valid_lookup d i s : rows_valid d → snaps d !! i = Some s → row_valid s = true.
Proof. intros H Hs. exact (H i s Hs). Qed.

Lemma artifact_guard_exact old new u :
  artifact_guard old new = Ok u → implb (retained (art new)) (artifact_exact new) = true.
Proof.
  unfold artifact_guard. intros H. inv_res. destruct (retained (art new)), (artifact_exact new); done.
Qed.

Lemma rows_valid_insert d i s :
  rows_valid d → row_valid s = true → rows_valid (with_snaps (<[i := s]> (snaps d)) d).
Proof. intros H Hs. apply map_Forall_insert_2; done. Qed.

Section Rows.
Context (E : env).

Lemma write_rows d sid old new d' :
  write (sha256_hex E) d sid old new = Ok d' → rows_valid d → rows_valid d'.
Proof.
  unfold write. intros H Hd. inv_res. apply rows_valid_insert; [done|]. unfold row_valid.
  apply negb_false_iff in Hv1. rewrite Hv1. by eapply artifact_guard_exact.
Qed.

Lemma update_where_rows sid p set d o :
  update_where (sha256_hex E) sid p set d = Ok o → rows_valid d → rows_valid (default d o).
Proof.
  intros [[-> _]|(s & d' & _ & _ & -> & Hw)]%update_where_Ok; [done|]. by eapply write_rows.
Qed.

Lemma fenced_update_rows msg sid p set d d' :
  fenced_update (sha256_hex E) msg sid p set d = Ok d' → rows_valid d → rows_valid d'.
Proof. intros (s & _ & _ & Hw)%sales_fenced_update_Ok. by eapply write_rows. Qed.

Lemma update_all_rows p set d ids d' :
  update_all (sha256_hex E) p set d = Ok (ids, d') → rows_valid d → rows_valid d'.
Proof.
  intros H Hd. eapply (update_all_ind E rows_valid); [exact H|exact Hd|].
  intros t sid s t' Ht _ _ Hw. by eapply write_rows.
Qed.

Lemma insert_rows sid s d d' : insert_snapshot sid s d = Ok d' → rows_valid d → rows_valid d'.
Proof.
  unfold insert_snapshot. intros H Hd. inv_res. apply rows_valid_insert; [done|]. unfold row_valid.
  apply negb_false_iff in Hv0. rewrite Hv0. by eapply artifact_guard_exact.
Qed.

Lemma insert_stage_rows sid rows d d' : insert_stage sid rows d = Ok d' → rows_valid d → rows_valid d'.
Proof.
  intros H Hd. destruct (decide (rows = [])) as [->|Hne]; [by injection H as <-|].
  by apply insert_stage_Ok in H as (s & _ & _ & _ & _ & _ & _ & ->).
Qed.

Lemma promote_rows sid now occurred drawn token owner sha actor override action d r d' :
  promote_sales_generation E sid now occurred drawn token owner sha actor override action d = Ok (r, d') →
  rows_valid d → rows_valid d'.
Proof.
  destruct r as [rows rev]. unfold promote_sales_generation. intros H Hd.
  apply bind_Ok in H as (u0 & _ & H). destruct (snaps d !! sid) as [s|]; [|done].
  do 3 apply bind_Ok in H as (? & _ & H). destruct (manifest_of (cont s)) as [m|]; [|done].
  do 2 apply bind_Ok in H as (? & _ & H). apply bind_Ok in H as ([[prev rev'] d1] & Ha & H).
  apply advance_head_Ok in Ha as (s1 & _ & _ & _ & _ & _ & ->).
  apply bind_Ok in H as ([n d4] & Hcopy & H). unfold copy_staged_generation_to_live in Hcopy.
  apply bind_Ok in Hcopy as (? & _ & Hcopy). injection Hcopy as _ <-.
  do 2 apply bind_Ok in H as (? & _ & H). apply bind_Ok in H as (d5 & Hfin & H).
  apply fenced_update_rows in Hfin; [|done].
  apply bind_Ok in H as (d6 & Hled & H). unfold record_promotion in Hled.
  do 2 apply bind_Ok in Hled as (? & _ & Hled). injection Hled as <-.
  apply bind_Ok in H as (? & _ & H). apply bind_Ok in H as ([eid ev] & _ & H). by injection H as _ _ <-.
Qed.

Lemma rollback_rows current new_sid now occurred drawn ctoken esha requested reason token owner d r d' :
  rollback_sales_generation E current new_sid now occurred drawn ctoken esha requested reason token owner d
  = Ok (r, d') → rows_valid d → rows_valid d'.
Proof.
  unfold rollback_sales_generation. intros H Hd.
  do 2 apply bind_Ok in H as (? & _ & H).
  destruct (List.filter _ (map_to_list (heads d))) as [|[month h] hs]; [done|].
  destruct (snaps d !! current) as [cur|]; [|done]. do 2 apply bind_Ok in H as (? & _ & H).
  destruct (previous_snapshot_id (dcs cur)) as [target|]; [|done].
  destruct (snaps d !! target) as [src|]; [|done]. apply bind_Ok in H as (? & _ & H).
  destruct (stage_rows_sha256 (cont src)) as [digest|]; [|done]. apply bind_Ok in H as (? & _ & H).
  destruct (manifest_of (cont src)) as [m0|]; [|done].
  apply bind_Ok in H as (d1 & Hins & H). apply bind_Ok in H as (d2 & Hstg & H).
  apply bind_Ok in H as (o & Hupd & H). apply bind_Ok in H as ([[im rv] d3'] & Hpro & H).
  injection H as _ <-.
  eapply promote_rows; [exact Hpro|]. eapply update_where_rows; [exact Hupd|].
  eapply insert_stage_rows; [exact Hstg|]. by eapply insert_rows.
Qed.

Lemma reserve_rows sid now seen month file in_file final source cutoff token owner required path bytes
    secs d r d' :
  reserve_snapshot (sha256_hex E) sid now seen month file in_file final source cutoff token owner
    required path bytes secs d = Ok (r, d') → rows_valid d → rows_valid d'.
Proof.
  unfold reserve_snapshot. intros H Hd. do 2 apply bind_Ok in H as (? & _ & H).
  apply bind_Ok in H as (d1 & H1 & H). destruct (existsb _ _); [done|].
  apply bind_Ok in H as (d2 & H2 & [= _ <-]). eapply insert_rows; [exact H2|].
  unfold expire_abandoned in H1.
  destruct (update_all _ _ _ d) as [[ids t]|] eqn:Hu; [|done]. injection H1 as <-.
  by eapply update_all_rows.
Qed.

Lemma validate_rows sid now month cutoff digest in_file filtered token owner df d r d' :
  validate_and_stage_generation E sid now month cutoff digest in_file filtered token owner df d
  = Ok (r, d') → rows_valid d → rows_valid d'.
Proof.
  unfold validate_and_stage_generation. intros H Hd. do 3 apply bind_Ok in H as (? & _ & H).
  apply bind_Ok in H as (d1 & Hbeat & H). apply bind_Ok in H as ([k d2] & Hstg & H).
  apply bind_Ok in H as (d3 & Hper & H). injection H as _ <-.
  eapply fenced_update_rows; [exact Hper|]. unfold stage_sales_generation_rows in Hstg.
  apply bind_Ok in Hstg as (? & _ & Hstg). apply bind_Ok in Hstg as (? & Hstg & [= _ ->]).
  eapply insert_stage_rows; [exact Hstg|]. by eapply fenced_update_rows.
Qed.

Lemma step_rows d d' : step E d d' → rows_valid d → rows_valid d'.
Proof.
  intros S Hd. destruct S as
    [? ? ? ? ? ? ? ? ? ? ? ? ? ? ? ? _ H|? ? ? ? ? ? H|? ? ? ? H|? ? ? ? ? ? H
    |? ? ? ? ? ? ? ? ? ? ? ? ? ? H|? ? ? ? ? ? ? ? H|? ? ? ? ? ? ? ? H|? ? ? ? ? ? ? ? H|? ? ? ? ? ? H
    |? ? ? ? ? ? ? ? ? ? ? ? H|? ? ? ? ? ? ? ? ? ? ? r ? H|? ? ? ? H|? ? ? ? ? ? H|? ? ? ->|e ? ?].
  - by eapply reserve_rows.
  - by eapply fenced_update_rows.
  - apply bind_Ok in H as (o & Ho & [= <-]). by eapply update_where_rows.
  - by eapply fenced_update_rows.
  - by eapply validate_rows.
  - by eapply fenced_update_rows.
  - by eapply fenced_update_rows.
  - apply bind_Ok in H as (? & _ & H). apply bind_Ok in H as (o & Ho & H).
    apply update_where_rows in Ho; [|done].
    destruct o as [t|]; [|done]. destruct (snaps d !! sid); [|done]. by injection H as _ <-.
  - by eapply fenced_update_rows.
  - by eapply promote_rows.
  - by eapply rollback_rows.
  - apply bind_Ok in H as ([l1 d1] & H1 & H). apply bind_Ok in H as ([l2 d2] & H2 & [= _ <-]).
    eapply update_all_rows; [exact H2|]. by eapply update_all_rows.
  - unfold reconcile_candidate in H. destruct outcome; apply bind_Ok in H as (o & Ho & [= _ <-]);
      by eapply update_where_rows.
  - done.
  - done.
Qed.

Lemma reachable_rows d : reachable E d → rows_valid d.
Proof.
  unfold reachable, steps. cut (∀ d0, rtc (step E) d0 d → rows_valid d0 → rows_valid d).
  { intros H Hr. apply (H _ Hr). by apply map_Forall_empty. }
  induction 1; eauto using step_rows.
Qed.

(** ** A committed write, computed *)

(** A write that keeps the manifest hash, the manifest up to its state and the
    stage digest, and that the constraints and the artifact trigger accept. *)
Lemma write_run d sid old new :
  manifest_sha256 (cont new) = manifest_sha256 (cont old) →
  stage_rows_sha256 (cont new) = stage_rows_sha256 (cont old) →
  set_gen_state GValidated <$> manifest_of (cont new) = set_gen_state GValidated <$> manifest_of (cont old) →
  artifact_guard (Some old) new = Ok () → row_check new = true →
  write (sha256_hex E) d sid old new = Ok (with_snaps (<[sid := new]> (snaps d)) d).
Proof.
  intros Hh Hs Hm Ha Hr. unfold write.
  assert (provenance_guard (sha256_hex E) d sid old new = Ok new) as ->.
  { unfold provenance_guard. rewrite Hh, Hs, Hm.
    destruct (manifest_sha256 (cont old)); [|done].
    by rewrite !bool_decide_true by done. }
  cbn. rewrite Ha. cbn. by rewrite Hr.
Qed.

Lemma sales_fenced_update_run msg sid p set d s d' :
  snaps d !! sid = Some s → p s = true → write (sha256_hex E) d sid s (set s) = Ok d' →
  fenced_update (sha256_hex E) msg sid p set d = Ok d'.
Proof. intros Hs Hp Hw. unfold fenced_update, update_where. by rewrite Hs, Hp, Hw. Qed.

(** The artifact columns untouched and the row not completed. *)
Lemma artifact_guard_kept old new :
  row_valid old = true → art new = art old → orig new = orig old →
  (artifact_required (orig old) = true → status (wk new) = Completed → retained (art old) = true) →
  artifact_guard (Some old) new = Ok ().
Proof.
  intros Hv Ha Ho Hreq. apply andb_true_iff in Hv as [_ Hx].
  assert (He : artifact_exact new = artifact_exact old) by (unfold artifact_exact; by rewrite Ha, Ho).
  unfold artifact_guard. rewrite Ha, Ho, He.
  rewrite (bool_decide_true (_ = (art_state (art old), _, _, _, _))) by done. cbn [negb andb].
  rewrite andb_false_r. cbn.
  destruct (retained (art old)) eqn:Hr, (artifact_exact old) eqn:Hex; try done; cbn.
  - by rewrite andb_false_r.
  - destruct (artifact_required (orig old)) eqn:Hq; [|done]. cbn.
    case_bool_decide as Hc; [|done]. by specialize (Hreq eq_refl Hc).
  - destruct (artifact_required (orig old)) eqn:Hq; [|done]. cbn.
    case_bool_decide as Hc; [|done]. by specialize (Hreq eq_refl Hc).
Qed.
End Rows.
End SalesRowInv.
