(* ===== verification/SalesSpec.v ===== *)
(** What the sales pipeline guarantees: the live table always shows the heads,
    a promotion replaces exactly one month, a ready generation is promoted, a
    rollback restores its predecessor, a stale worker changes nothing. *)

From S2P Require Import Prelude Text Decimal Grile Outbox SalesText SalesManifest SalesGen SalesPromotion SalesFlow SalesInv SalesPromotionInv SalesFlowInv.

Local Open Scope Z_scope.

Module SalesSpec.
Import SalesText SalesManifest SalesGen SalesPromotion SalesFlow SalesInv SalesPromotionInv SalesFlowInv
  SalesRowInv.

Section Spec.
Context (E : env).

(** ** A ready generation is promoted *)

(** The artifact conditions of a promotion. *)
Lemma check_artifact_retained s :
  check_artifact E s = Ok () → artifact_required (orig s) = true → retained (art s) = true.
Proof.
  unfold check_artifact. intros H Hr. rewrite Hr in H.
  destruct (art_bytes (art s)), (retained_path (art s)); try done.
  apply bind_Ok in H as (u & H & _). apply raise_if_Ok in H.
  apply orb_false_iff in H as [H _]. apply orb_false_iff in H as [H _]. by apply negb_false_iff in H.
Qed.

Lemma write_head_run month sid rev d s m :
  snaps d !! sid = Some s → manifest_of (cont s) = Some m → manifest_ok E (staged d sid) s m →
  staged d sid ≠ [] → head_artifact_guard sid d = Ok () →
  write_head E month sid rev d = Ok (with_heads (<[month := Head sid rev]> (heads d)) d).
Proof.
  intros Hs Hm [_ Hdg Hst _ _ _] Hne Ha. unfold write_head. rewrite Ha. cbn.
  assert (verify_head_target E (h_snapshot <$> heads d !! month) sid d = Ok d) as ->; [|done].
  unfold verify_head_target. case_bool_decide; [done|].
  rewrite Hs, Hm, Hst, Hdg. cbn. rewrite bool_decide_false by done.
  by rewrite !bool_decide_true by done.
Qed.

Lemma overrides_block m : manifest_requires_override m = existsb blocking (anomalies m).
Proof. done. Qed.

Lemma advance_head_run sid now token owner d s m :
  inv E None d → snaps d !! sid = Some s → fenced token owner s = true → leased now s = true →
  manifest_of (cont s) = Some m → staged d sid ≠ [] → head_artifact_guard sid d = Ok () →
  month_re (import_month (orig s)) = true →
  expected_head_revision (orig s) = head_revision d (import_month (orig s)) →
  advance_sales_head E (import_month (orig s)) sid now token owner (expected_head_revision (orig s)) d
  = Ok (h_snapshot <$> heads d !! import_month (orig s), head_next (heads d !! import_month (orig s)),
        with_heads (<[import_month (orig s) :=
          Head sid (head_next (heads d !! import_month (orig s)))]> (heads d)) d).
Proof.
  intros I Hs Hf Hl Hm Hne Ha Hmo He. set (month := import_month (orig s)) in *.
  pose proof (i_manifest _ _ _ I _ _ _ (ltac:(done)) Hs Hm) as Hok.
  pose proof (fenced_processing _ _ _ Hf) as Hp.
  assert (Hhc : head_controls E s (staged d sid) = true).
  { unfold head_controls. rewrite Hm. destruct Hok as [Hc Hdg Hst Hcalm _ Hop].
    rewrite Hdg, Hst, Hc, <- overrides_block, Hcalm, !bool_decide_true by auto. done. }
  unfold advance_sales_head, advance_head. rewrite Hmo, He. unfold head_revision.
  assert (0 <= match heads d !! month with Some h => h_revision h | None => 0 end) as Hrev.
  { destruct (heads d !! month) as [h|] eqn:Hh; [|done]. destruct (i_head _ _ _ I _ _ Hh). lia. }
  apply Z.ltb_ge in Hrev. rewrite Hrev. cbn [negb orb].
  rewrite Hs, Hf, Hl, Hhc. fold month. rewrite bool_decide_true by done. cbn.
  destruct (heads d !! month) as [h|] eqn:Hh.
  - rewrite Z.eqb_refl. cbn. by rewrite (write_head_run month sid _ d s m).
  - cbn. by rewrite (write_head_run month sid _ d s m).
Qed.

(** The live rows with the month replaced by the rows staged of the generation. *)
Definition live_after (sid : Z) (month : string) (d : db) : list (facts * Z) :=
  List.filter (λ x, negb (bool_decide (f_month x.1 = month))) (live d) ++ promoted_live sid month d.

(** What a promotion asks for beyond the invariant. *)
Record ready (sid now occurred drawn : Z) (token owner sha actor : string) (d : db) (s : snapshot)
    (m : manifest) : Prop := {
  rd_row : snaps d !! sid = Some s;
  rd_fenced : fenced token owner s = true;
  rd_leased : leased now s = true;
  rd_hash : manifest_sha256 (cont s) = Some sha;
  rd_manifest : manifest_of (cont s) = Some m;
  rd_expected : expected_head_revision (orig s) = head_revision d (import_month (orig s));
  rd_import : rollback_of m = None ∧ rollback_source m = None;
  rd_month : month_re (import_month (orig s)) = true;
  rd_actor : strip actor ≠ EmptyString ∧ actor_check (strip actor) = true;
  rd_artifact : check_artifact E s = Ok ();
  rd_reporting : reporting_rebuilds E (import_month (orig s))
                   (live_after sid (import_month (orig s)) d) = true;
  rd_event : ∃ c r, cutoff_date (orig s) = Some c ∧
    Outbox.emit_sales_generation_promoted (payload_digest E) (identity_check E) int_text drawn now
      ("sales-" +:+ import_month (orig s)) sha (default "None"%string (source_sha256 (orig s)))
      (import_month (orig s)) (Outbox.Aware (bucharest_midnight E c))
      (head_next (heads d !! import_month (orig s))) (Outbox.Aware occurred) (events d) = Ok r;
}.

Lemma copy_run sid month d d2 s :
  inv E None d → snaps d !! sid = Some s → import_month (orig s) = month →
  staged d2 sid = staged d sid → stores d2 = stores (upsert_stores_from_stage sid month d) →
  copy_staged_generation_to_live sid month d2
  = Ok (Z.of_nat (length (staged d sid)), with_live (live d2 ++ promoted_live sid month d) d2).
Proof.
  intros I Hs <- Hst Hso. unfold copy_staged_generation_to_live. rewrite Hst, Hso.
  assert (Hl : length (promoted_live sid (import_month (orig s)) d) = length (staged d sid)).
  { rewrite (promoted_live_all E None sid d s I Hs). by rewrite length_fmap. }
  unfold promoted_live in Hl |- *. rewrite length_fmap in Hl. rewrite Hl.
  assert (existsb (λ f, bool_decide
     (stores (upsert_stores_from_stage sid (import_month (orig s)) d) !! site_code f = None))
     (List.filter (λ f, bool_decide (f_month f = import_month (orig s))) (row_facts <$> staged d sid))
     = false) as ->; [|done].
  apply not_true_iff_false. intros (f & Hf & Hn)%existsb_exists.
  apply filter_In in Hf as [Hf _]. apply list_elem_of_In, list_elem_of_fmap in Hf as (r & -> & Hr).
  destruct (upsert_stores_covers sid (import_month (orig s)) d) as [Hc _].
  destruct (Hc r Hr) as [o Ho]. apply bool_decide_eq_true in Hn. congruence.
Qed.

Lemma promote_run sid now occurred drawn token owner sha actor reason d s m :
  inv E None d → rows_valid d → ready sid now occurred drawn token owner sha actor d s m →
  ∃ d', promote_sales_generation E sid now occurred drawn token owner sha actor reason ActPromote d
        = Ok (Z.of_nat (length (staged d sid)), head_revision d (import_month (orig s)) + 1, d').
Proof.
  intros I V R. pose proof (rd_row _ _ _ _ _ _ _ _ _ _ _ R) as Hs.
  destruct R as [_ Hf Hl Hh Hm Hexp [Hro Hrs] Hmo [Hne Hact] Ha Hrep (c & [eid ev] & Hc & Hev)].
  pose proof (i_manifest _ _ _ I _ _ _ (ltac:(done)) Hs Hm) as Hok.
  destruct (i_digest _ _ _ I _ _ _ Hs (mo_stored _ _ _ _ Hok)) as [Hstaged _].
  pose proof (rows_valid_lookup _ _ _ V Hs) as Hv.
  pose proof (fenced_processing _ _ _ Hf) as Hp.
  set (month := import_month (orig s)) in *.
  assert (Hguard : head_artifact_guard sid d = Ok ()).
  { unfold head_artifact_guard. rewrite Hs.
    destruct (artifact_required (orig s)) eqn:Hq; [|done].
    rewrite (check_artifact_retained _ Ha Hq). apply andb_true_iff in Hv as [_ Hx].
    rewrite (check_artifact_retained _ Ha Hq) in Hx. cbn in Hx |- *. by rewrite Hx. }
  unfold promote_sales_generation. rewrite bool_decide_false by done. cbn [raise_if mbind res_bind].
  rewrite Hs, Hf, Hl, Hh, bool_decide_true by done. cbn [negb andb raise_if mbind res_bind].
  rewrite Ha. cbn [mbind res_bind]. rewrite Hm, (mo_calm _ _ _ _ Hok). cbn [raise_if mbind res_bind].
  unfold verify_stage_controls. rewrite (mo_controls _ _ _ _ Hok), bool_decide_true by done.
  cbn [negb raise_if mbind res_bind]. fold month.
  pose proof (advance_head_run sid now token owner d s m I Hs Hf Hl Hm Hstaged Hguard Hmo Hexp) as Hadv.
  fold month in Hadv. rewrite Hadv. cbn [mbind res_bind]. clear Hadv.
  set (rev := head_next (heads d !! month)) in *. set (prev := h_snapshot <$> heads d !! month) in *.
  rewrite (copy_run sid month d _ s I Hs eq_refl) by done. cbn [mbind res_bind].
  set (n := Z.of_nat (length (staged d sid))).
  change (rows_imported (controls_of (staged d sid))) with n. rewrite Z.eqb_refl. cbn [negb raise_if mbind res_bind].
  match goal with |- context [reporting_rebuilds E month ?l] =>
    change (reporting_rebuilds E month l) with (reporting_rebuilds E month (live_after sid month d)) end.
  rewrite Hrep. cbn [negb raise_if mbind res_bind].
  match goal with |- context [finish_promotion _ _ _ _ _ _ _ _ _ ?x] => set (d4 := x) end.
  assert (Hs4 : snaps d4 = snaps d) by done.
  set (new := promoted_row now n prev (strip actor) (opt_strip reason) s).
  assert (Hfin : finish_promotion E sid now token owner n prev (strip actor)
                   (opt_strip reason) d4 = Ok (with_snaps (<[sid := new]> (snaps d4)) d4)).
  { eapply sales_fenced_update_run; [by rewrite Hs4|by rewrite Hf, Hl|].
    change (write (sha256_hex E) d4 sid s new = Ok (with_snaps (<[sid := new]> (snaps d4)) d4)).
    apply write_run; [done|done| | |].
    - cbn. by rewrite <- option_fmap_compose.
    - apply artifact_guard_kept; [done..|]. intros Hq _. by apply check_artifact_retained.
    - apply andb_true_iff in Hv as [Hv _]. unfold row_check in *. cbn.
      rewrite !andb_true_iff in Hv |- *. destruct Hv as [[[[[? ?] ?] ?] ?] _]. done. }
  rewrite Hfin. cbn [mbind res_bind].
  unfold record_promotion. cbn [l_actor]. rewrite Hact. cbn [negb raise_if mbind res_bind].
  match goal with |- context [ledger_guard ?x ?y] => assert (ledger_guard x y = Ok ()) as -> end.
  { unfold ledger_guard. cbn. rewrite !lookup_insert_eq. cbn.
    rewrite !Z.eqb_refl, Hm. cbn. rewrite Hro, Hrs.
    by rewrite (bool_decide_true (_ = month)), (bool_decide_true (prev = _)) by done. }
  cbn [mbind res_bind]. rewrite Hc. cbn [sales_event_cutoff mbind res_bind].
  match goal with |- context [Outbox.emit_sales_generation_promoted _ _ _ _ _ _ _ _ _ _ _ _ ?x] =>
    change x with (events d) end.
  rewrite Hev. cbn. eexists. do 3 f_equal.
  unfold rev, head_revision, head_next. by destruct (heads d !! month).
Qed.

(** And what a promotion that succeeded was given. *)
Lemma promote_needs sid now occurred drawn token owner sha actor reason action d rows rev d' :
  promote_sales_generation E sid now occurred drawn token owner sha actor reason action d
  = Ok (rows, rev, d') →
  ∃ s, snaps d !! sid = Some s ∧ check_artifact E s = Ok () ∧
    month_re (import_month (orig s)) = true ∧ actor_check (strip actor) = true ∧
    reporting_rebuilds E (import_month (orig s)) (live d') = true.
Proof.
  unfold promote_sales_generation. intros H. apply bind_Ok in H as (u0 & _ & H).
  destruct (snaps d !! sid) as [s|] eqn:Hs; [|done]. exists s.
  do 2 apply bind_Ok in H as (? & _ & H). apply bind_Ok in H as ([] & Hart & H).
  destruct (manifest_of (cont s)) as [m|]; [|done].
  do 2 apply bind_Ok in H as (? & _ & H). apply bind_Ok in H as ([[prev rev'] d1] & Ha & H).
  apply bind_Ok in H as ([n d4] & Hcopy & H). apply bind_Ok in H as (? & _ & H).
  apply bind_Ok in H as (? & Hrep & H). apply bind_Ok in H as (d5 & Hfin & H).
  apply bind_Ok in H as (d6 & Hled & H). apply bind_Ok in H as (? & _ & H).
  apply bind_Ok in H as ([eid ev] & _ & [= _ _ <-]).
  apply raise_if_Ok, negb_false_iff in Hrep.
  apply sales_fenced_update_Ok in Hfin as (s5 & _ & _ & Hw). apply write_same in Hw; [|done].
  unfold record_promotion in Hled. apply bind_Ok in Hled as (? & Hact & Hled).
  apply bind_Ok in Hled as (? & _ & [= <-]). apply raise_if_Ok, negb_false_iff in Hact.
  split_and!; try done; [|by rewrite Hw].
  unfold advance_sales_head in Ha. destruct (advance_head _ _ _ _ _ _ _ _) as [r|] eqn:Hadv; [|done].
  unfold advance_head in Hadv. apply bind_Ok in Hadv as (? & Hmo & _).
  by apply raise_if_Ok, orb_false_iff in Hmo as [Hmo%negb_false_iff _].
Qed.

Lemma promote_ready sid now occurred drawn token owner sha actor reason d rows rev d' :
  promote_sales_generation E sid now occurred drawn token owner sha actor reason ActPromote d
  = Ok (rows, rev, d') →
  ∃ s m, ready sid now occurred drawn token owner sha actor d s m.
Proof.
  intros H. destruct (promote_needs _ _ _ _ _ _ _ _ _ _ _ _ _ _ H) as (s & Hs & Hart & Hmo & Hact & Hrep).
  apply promote_Ok in H as (s' & m & Hne & P).
  assert (s' = s) as -> by (pose proof (pr_row P); congruence).
  exists s, m. pose proof (pr_live P) as Hlive. destruct (pr_event P) as (c & eid & Hc & Hev).
  rewrite (pr_revision P) in Hev. split; try apply P; try done.
  - pose proof (pr_ledger P) as Hg. unfold ledger_guard in Hg. cbn in Hg.
    rewrite !lookup_insert_eq in Hg. cbn in Hg. rewrite (pr_manifest P) in Hg. cbn in Hg.
    do 2 apply bind_Ok in Hg as (? & _ & Hg). apply raise_if_Ok, orb_false_iff in Hg as [H1 H2].
    apply bool_decide_eq_false, eq_None_not_Some in H1, H2. done.
  - rewrite <- Hrep. f_equal. by rewrite Hlive.
  - by exists c, (eid, events d').
Qed.

(** ** The theorems *)

(** C1: in every reachable state the live table shows, for each month, exactly
    the staged rows of that month's head generation, in order, and nothing for a
    month without a head; a month has at most one generation in processing; it
    expects a revision the month's head has or has had, with the snapshot that
    was the head then, and it is promoted only while the head is still the one it
    expects, so a promotion never overwrites a head it has not seen; replaying the promotion ledger of a month, where each record
    leaves the head it found and takes the next revision, yields that head; a
    generation with a manifest holds the very rows, totals and digest that the
    manifest states. *)
Theorem live_table_shows_heads d :
  reachable E d →
  (∀ month, live_of month d = materialised month d) ∧
  (∀ i j s t, snaps d !! i = Some s → snaps d !! j = Some t →
     status (wk s) = Processing → status (wk t) = Processing →
     import_month (orig s) = import_month (orig t) → i = j) ∧
  (∀ i s, snaps d !! i = Some s → status (wk s) = Processing →
     expected_head_revision (orig s) <= head_revision d (import_month (orig s)) ∧
     (expected_head_revision (orig s) = head_revision d (import_month (orig s)) →
      previous_snapshot_id (dcs s) = h_snapshot <$> heads d !! import_month (orig s))) ∧
  (∀ sid now occurred drawn token owner sha actor reason action r s,
     promote_sales_generation E sid now occurred drawn token owner sha actor reason action d = Ok r →
     snaps d !! sid = Some s →
     expected_head_revision (orig s) = head_revision d (import_month (orig s))) ∧
  (∀ month, follow None (ledger_of month d) = Some (heads d !! month)) ∧
  (∀ i s m, snaps d !! i = Some s → manifest_of (cont s) = Some m →
     mf_controls m = controls_of (staged d i) ∧
     mf_stage_sha256 m = Some (digest_of (sha256_hex E) (staged d i)) ∧
     manifest_sha256 (cont s) = Some (canonical_manifest_sha256 E (set_gen_state GValidated m))).
Proof.
  intros H%sales_reachable_inv. split_and!; [apply H|apply H| | |apply H|].
  - intros i s Hs Hp. destruct (i_expect _ _ _ H i s Hs Hp) as (seen & Hpast & -> & ->).
    destruct (past_head_le _ _ _ _ _ H Hpast) as [? Heq]. split; [done|]. by intros ->%Heq.
  - intros sid now occurred drawn token owner sha actor reason action [[rows rev] d'] s Hp Hs.
    apply promote_Ok in Hp as (s' & m & _ & P). pose proof (pr_row P) as Hs'. pose proof (pr_expected P).
    congruence.
  - intros i s m Hs Hm. by destruct (i_manifest _ _ _ H i s m (ltac:(done)) Hs Hm).
Qed.

(** C2: a successful promotion of a generation replaces the live rows of its
    month by exactly the staged rows, leaves every other month, generation and
    head alone, moves the month's head to the generation with the next revision,
    completes the generation, appends one ledger record that names the replaced
    head, the actor and the reason, and emits one outbox event with the approved
    manifest hash, the month and the new revision, in the same transaction. *)
Theorem promotion_replaces_one_month d sid now occurred drawn token owner sha actor reason action
    rows rev d' :
  reachable E d →
  promote_sales_generation E sid now occurred drawn token owner sha actor reason action d
  = Ok (rows, rev, d') →
  ∃ s c eid, snaps d !! sid = Some s ∧
    let month := import_month (orig s) in
    rows = Z.of_nat (length (staged d sid)) ∧ rev = head_revision d month + 1 ∧
    (∀ m, live_of m d' = if decide (m = month)
                         then (λ r, (row_facts r, sid)) <$> staged d sid else live_of m d) ∧
    heads d' = <[month := Head sid rev]> (heads d) ∧
    (∀ i, i ≠ sid → snaps d' !! i = snaps d !! i) ∧
    (∃ s', snaps d' !! sid = Some s' ∧ status (wk s') = Completed) ∧
    ledger d' = ledger d ++ [LedgerRow month (h_snapshot <$> heads d !! month) sid rev action
                               (strip actor) (opt_strip reason)] ∧
    cutoff_date (orig s) = Some c ∧
    Outbox.emit_sales_generation_promoted (payload_digest E) (identity_check E) int_text drawn now
      ("sales-" +:+ month) sha (default "None"%string (source_sha256 (orig s))) month
      (Outbox.Aware (bucharest_midnight E c)) rev (Outbox.Aware occurred) (events d)
    = Ok (eid, events d').
Proof.
  intros I%sales_reachable_inv (s & m & _ & P)%promote_Ok.
  pose proof (promoted_live_all _ _ _ _ _ I (pr_row P)) as Hall.
  destruct (pr_event P) as (c & eid & Hc & Hev).
  exists s, c, eid. split; [exact (pr_row P)|]. cbn zeta. split_and!; [| | | | | | |done|done].
  - by rewrite (pr_rows P), Hall, length_fmap.
  - rewrite (pr_revision P). unfold head_revision, head_next.
    by destruct (heads d !! import_month (orig s)).
  - intros mo. rewrite (promoted_live_of _ _ _ _ _ _ _ _ _ _ _ _ _ _ _ _ _ mo P). by rewrite Hall.
  - exact (pr_heads P).
  - intros i Hi. by rewrite (pr_snaps P), lookup_insert_ne.
  - eexists. by rewrite (pr_snaps P), lookup_insert_eq.
  - exact (pr_ledger_rows P).
Qed.

(** C3: what decides a promotion.  In a reachable state a generation is promoted exactly
    when it is ready: leased to the caller, with the approved manifest hash stored, an
    import and not the clone of a rollback, expecting the present revision of its
    month's head, with a well-formed month and actor, its artifact retained and intact
    where one is required, the reporting rebuild from the month's new live rows
    succeeding, and the event accepted by the outbox.  Then all its rows go live under
    the next revision.  Nothing else can refuse it: not the staging controls, the
    override policy, the digest, provenance and artifact triggers of the tables, the
    foreign key to the stores, the row count or the ledger's trigger. *)
Theorem ready_generation_is_promoted d sid now occurred drawn token owner sha actor reason :
  reachable E d →
  (∀ s m, ready sid now occurred drawn token owner sha actor d s m →
     ∃ d', promote_sales_generation E sid now occurred drawn token owner sha actor reason ActPromote d
           = Ok (Z.of_nat (length (staged d sid)), head_revision d (import_month (orig s)) + 1, d')) ∧
  (∀ r, promote_sales_generation E sid now occurred drawn token owner sha actor reason ActPromote d = Ok r →
     ∃ s m, ready sid now occurred drawn token owner sha actor d s m).
Proof.
  intros Hr. split.
  - intros s m. apply promote_run; [by apply sales_reachable_inv|by eapply reachable_rows].
  - intros [[rows rev] d']. apply promote_ready.
Qed.

(** C4: rolling back a month's head makes the rows of its predecessor live again,
    as a new generation with the next revision; rolling that one back brings the
    original rows back; no other month changes either time. *)
Theorem rollback_twice_restores d d1 d2 current n1 n2 t1 t2 o1 o2 e1 e2 k1 k2 sha1 sha2 actor actor'
    reason reason' tok1 tok2 own1 own2 r1 r2 v1 v2 m1 m2 :
  reachable E d →
  rollback_sales_generation E current n1 t1 o1 e1 k1 sha1 actor reason tok1 own1 d = Ok (m1, r1, v1, d1) →
  rollback_sales_generation E n1 n2 t2 o2 e2 k2 sha2 actor' reason' tok2 own2 d1 = Ok (m2, r2, v2, d2) →
  ∃ month target h, heads d !! month = Some h ∧ h_snapshot h = current ∧
    v1 = h_revision h + 1 ∧ v2 = h_revision h + 2 ∧
    (live_of month d1).*1 = row_facts <$> staged d target ∧
    (∃ cur, snaps d !! current = Some cur ∧ previous_snapshot_id (dcs cur) = Some target) ∧
    (live_of month d2).*1 = (live_of month d).*1 ∧
    (∀ m, m ≠ month → live_of m d1 = live_of m d ∧ live_of m d2 = live_of m d).
Proof.
  intros I%sales_reachable_inv H1 H2.
  pose proof (rollback_inv _ _ _ _ _ _ _ _ _ _ _ _ _ _ _ H1 I) as I1.
  apply rollback_Ok in H1 as (target & month & s1 & d3 & P1 & Hp1 & _); [|done].
  apply rollback_Ok in H2 as (target2 & month2 & s2 & d4 & P2 & Hp2 & _); [|done].
  apply promote_Ok in Hp1 as (x1 & y1 & _ & Q1), Hp2 as (x2 & y2 & _ & Q2).
  destruct (rb_head P1) as (h & Hh & Hhc).
  destruct (rb_clone P1) as (c1 & Hc1 & Hm1).
  destruct (rb_clone P2) as (c2 & Hc2 & Hm2).
  assert (x1 = c1) as -> by (pose proof (pr_row Q1); congruence).
  assert (x2 = c2) as -> by (pose proof (pr_row Q2); congruence).
  assert (Hsn1 : ∃ z, snaps d1 !! n1 = Some z ∧ import_month (orig z) = month ∧
                      previous_snapshot_id (dcs z) = Some current).
  { eexists. split; [by rewrite (pr_snaps Q1), lookup_insert_eq|]. split; [done|]. cbn.
    by rewrite Hm1, (rb_heads P1), Hh, <- Hhc. }
  destruct Hsn1 as (z & Hz & Hzm & Hzp).
  destruct (rb_head P2) as (h2 & Hh2 & Hhc2).
  assert (month2 = month) as ->.
  { destruct (i_head _ _ _ I1 _ _ Hh2) as (_ & w & Hw & Hwm & _). rewrite Hhc2 in Hw. congruence. }
  assert (target2 = current) as ->.
  { destruct (rb_current P2) as (w & Hw & Hwp). congruence. }
  destruct (rb_current P1) as (cur & Hcur & Hcurp).
  assert (Hne : current ≠ n1).
  { intros ->. pose proof (rb_fresh P1). congruence. }
  pose proof (promoted_live_all _ _ _ _ _ (rb_inv P1) Hc1) as Hall1.
  pose proof (promoted_live_all _ _ _ _ _ (rb_inv P2) Hc2) as Hall2.
  assert (Hrows1 : ∀ i, staged d1 i = staged d3 i) by (intros; unfold staged; by rewrite (pr_stage Q1)).
  assert (Hlive : ∀ m, live_of m d3 = live_of m d ∧ live_of m d4 = live_of m d1).
  { intros m. unfold live_of.
    by rewrite (rb_live P1), (rb_live P2). }
  assert (Hl1 := λ mo, promoted_live_of _ _ _ _ _ _ _ _ _ _ _ _ _ _ _ _ _ mo Q1).
  assert (Hl2 := λ mo, promoted_live_of _ _ _ _ _ _ _ _ _ _ _ _ _ _ _ _ _ mo Q2).
  rewrite Hm1 in Hl1, Hall1. rewrite Hm2 in Hl2, Hall2.
  exists month, target, h. split_and!; [done|done| | | |by exists cur| |].
  - rewrite (pr_revision Q1), Hm1, (rb_heads P1), Hh. done.
  - rewrite (pr_revision Q2), Hm2, (rb_heads P2), Hh2. cbn.
    rewrite (pr_heads Q1), Hm1, lookup_insert_eq in Hh2. injection Hh2 as <-. cbn.
    rewrite (pr_revision Q1), Hm1, (rb_heads P1), Hh. unfold head_next. lia.
  - rewrite Hl1, decide_True, Hall1, (rb_rows P1) by done.
    by rewrite <- list_fmap_compose.
  - rewrite Hl2, decide_True, Hall2, (rb_rows P2), Hrows1 by done.
    rewrite (rb_staged P1) by done.
    rewrite (i_live _ _ _ I month). unfold materialised. rewrite Hh, Hhc.
    by rewrite <- !list_fmap_compose.
  - intros m Hm. destruct (Hlive m) as [E1 E2].
    rewrite Hl2, decide_False, E2, Hl1, decide_False by done. done.
Qed.

End Spec.
End SalesSpec.
