(* ===== verification/SalesGuards.v ===== *)
(** The fences and the bounds of the sales pipeline: stale workers, failed
    promotion jobs, what fits the staging columns, the outbox as a component. *)

From S2P Require Import Prelude OutboxInv Text Decimal Grile Outbox SalesText SalesManifest SalesGen SalesPromotion SalesFlow SalesInv SalesPromotionInv SalesFlowInv.

Local Open Scope Z_scope.

Module SalesGuards.
Import SalesText SalesManifest SalesGen SalesPromotion SalesFlow SalesInv SalesPromotionInv SalesFlowInv
  SalesRowInv.

(** ** The staged text *)

(** The canonical text whose SHA-256 binds a manifest to its staged rows can
    be parsed back to the values of the rows, and two lists of rows with valid
    dates have the same text only when they are the same list: order,
    multiplicity and every field, source metadata included. *)
Theorem stage_text_determines_rows rows :
  values_of_text (stage_text rows) = Some (numbered rows) ∧
  (∀ rows', Forall (λ r, SalesTextSpec.row_ok r = true) rows →
     Forall (λ r, SalesTextSpec.row_ok r = true) rows' →
     stage_text rows = stage_text rows' → rows = rows').
Proof.
  split; [apply SalesTextSpec.values_roundtrip, SalesTextSpec.numbered_ok|].
  intros rows'. apply SalesTextSpec.stage_text_inj.
Qed.

(** ** Bounds of a validated report *)

Lemma rdiv_half_even_le a b n : 0 < b → 0 <= n → Z.abs a <= n * b → Z.abs (rdiv HALF_EVEN a b) <= n.
Proof.
  intros Hb Hn Ha. unfold rdiv.
  pose proof (Z.div_mod (Z.abs a) b ltac:(lia)) as Hdm.
  pose proof (Z.mod_pos_bound (Z.abs a) b Hb) as Hmod.
  pose proof (Z.div_pos (Z.abs a) b ltac:(lia) Hb) as Hq.
  assert (Hqn : Z.abs a / b <= n) by (apply Z.div_le_upper_bound; lia).
  assert (Hlt : 0 < Z.abs a mod b → Z.abs a / b + 1 <= n) by nia.
  assert (Hs : Z.abs (Z.sgn a) <= 1) by (destruct a; cbn; lia).
  rewrite Z.abs_mul. repeat case_match; bool_prop; nia.
Qed.

Lemma money_bound v c : bad_money v = false → money v = Ok c → Z.abs c <= 9999999999.
Proof.
  unfold bad_money, money. intros Hb Hm.
  destruct (quantize prec28 HALF_EVEN (-2) v) as [d|e] eqn:Hq; [|done]. injection Hm as <-.
  set (k := if -2 <=? dexp v then scaled v (-2) else rdiv HALF_EVEN (coef v) (pow10 (-2 - dexp v))).
  assert (Hd : d = Dec k (-2)).
  { change ((if Z.abs k <? pow10 prec28 then Ok (Dec k (-2)) else Err InvalidOperation) = Ok d) in Hq.
    destruct (Z.abs k <? pow10 prec28); [by injection Hq as <-|done]. }
  subst d. cbn. clear Hq. unfold dltb in Hb.
  assert (Hc : dcompare money_max (Dec (Z.abs (coef v)) (dexp v)) ≠ Lt) by (intros Hc; by rewrite Hc in Hb).
  clear Hb. unfold dcompare in Hc. cbn [dexp money_max cents coef] in Hc.
  rewrite Z.compare_nlt_iff in Hc. unfold scaled in Hc. cbn [dexp coef money_max cents] in Hc.
  unfold k, scaled. clear k. destruct (Z.leb_spec (-2) (dexp v)) as [Hle|Hgt].
  - rewrite Z.min_l in Hc by lia. rewrite Z.sub_diag in Hc.
    rewrite Z.abs_mul, (Z.abs_eq (pow10 _)) by (apply Z.lt_le_incl, pow10_pos; lia).
    change (pow10 0) with 1 in Hc. lia.
  - rewrite Z.min_r, Z.sub_diag in Hc by lia. change (pow10 0) with 1 in Hc.
    apply rdiv_half_even_le; [apply pow10_pos; lia|lia|]. lia.
Qed.

(** The staged row of any row of a report that passed validation fits its
    columns: the quantity is in the INTEGER range and both amounts are below
    10^8 in absolute value after rounding to cents, so COPY never fails on a
    value. *)
Theorem validated_report_fits_stage df month r row :
  validate_sales_dataframe df = Ok () → In r df → stage_of month r = Ok row → row_fits row = true.
Proof.
  intros Hv Hr Hs. unfold validate_sales_dataframe in Hv.
  apply bind_Ok in Hv as (u1 & H1 & Hv). apply bind_Ok in Hv as (u2 & H2 & Hv).
  apply bind_Ok in Hv as (u3 & H3 & _).
  apply raise_if_Ok in H1, H2, H3.
  pose proof (existsb_false_in _ _ _ H1 Hr) as Q. pose proof (existsb_false_in _ _ _ H2 Hr) as P.
  pose proof (existsb_false_in _ _ _ H3 Hr) as V. cbn beta in P, V.
  unfold stage_of in Hs. apply bind_Ok in Hs as (p & Hp & Hs). apply bind_Ok in Hs as (v & Hv' & [= <-]).
  pose proof (money_bound _ _ P Hp). pose proof (money_bound _ _ V Hv').
  unfold bad_quantity, int32_max in Q. apply Z.ltb_ge in Q.
  unfold row_fits, int32_max. cbn [row_facts quantity unit_price SalesText.total_value].
  change (10 ^ 10) with 10000000000.
  rewrite !andb_true_iff, !Z.leb_le, !Z.ltb_lt. lia.
Qed.

Section Guards.
Context (E : env).

(** ** Stale workers *)

Lemma sales_fenced_update_stale msg sid p set d s :
  snaps d !! sid = Some s → p s = false →
  fenced_update (sha256_hex E) msg sid p set d = Err (SalesGenerationConflictError msg).
Proof. intros Hs Hp. unfold fenced_update, update_where. by rewrite Hs, Hp. Qed.

(** C6: a worker that does not hold a generation (another token, another owner
    since, or the generation no longer in processing) cannot renew it, fail it,
    attach or retain its artifact, give back its claim or promote it; each
    attempt is a conflict, and it cannot validate it either. *)
Theorem stale_worker_is_fenced d sid token owner s now :
  snaps d !! sid = Some s → fenced token owner s = false →
  (∀ secs, ∃ msg, fenced_generation_heartbeat (sha256_hex E) sid now token owner secs d
                  = Err (SalesGenerationConflictError msg)) ∧
  (∀ e, ∃ msg, fail_sales_generation (sha256_hex E) sid now token owner e d
               = Err (SalesGenerationConflictError msg)) ∧
  (∀ path sha n, ∃ msg, attach_sales_generation_source (sha256_hex E) sid now token owner path sha n d
                        = Err (SalesGenerationConflictError msg)) ∧
  (∀ path sha n, ∃ msg, mark_sales_generation_artifact_retained (sha256_hex E) sid now token owner path sha n d
                        = Err (SalesGenerationConflictError msg)) ∧
  (∀ back, ∃ msg, restore_sales_generation_claim (sha256_hex E) sid now token owner back d
                  = Err (SalesGenerationConflictError msg)) ∧
  (∀ occurred drawn sha actor reason action, strip actor ≠ EmptyString →
     ∃ msg, promote_sales_generation E sid now occurred drawn token owner sha actor reason action d
            = Err (SalesGenerationConflictError msg)) ∧
  (∀ month cutoff digest n k df r,
     validate_and_stage_generation E sid now month cutoff digest n k token owner df d ≠ Ok r).
Proof.
  intros Hs Hf.
  split_and!; intros; try (eexists; eapply sales_fenced_update_stale; [exact Hs|by rewrite Hf]).
  - eexists. unfold promote_sales_generation. rewrite bool_decide_false by done. cbn.
    rewrite Hs, Hf. done.
  - unfold validate_and_stage_generation. intros Hr.
    do 3 apply bind_Ok in Hr as (? & _ & Hr). apply bind_Ok in Hr as (d1 & Hb & _).
    apply sales_fenced_update_Ok in Hb as (t & Ht & Hp & _).
    assert (t = s) as -> by congruence. rewrite Hf in Hp. done.
Qed.

(** ** A failed promotion job *)

Lemma claim_Ok sid now token sha owner secs d previous d' :
  claim_validated_sales_generation (sha256_hex E) sid now token sha owner secs d = Ok (previous, d') →
  ∃ s, snaps d !! sid = Some s ∧ generation_token (orig s) = token ∧ state_of s = Some GValidated ∧
    status (wk s) = Processing ∧ previous = owner_id (wk s) ∧
    d' = with_snaps (<[sid := set_work (λ w, Work (status w) owner (Some (now + secs * second)) (Some now)
           (finished_at w) (imported w) (error_message w)) (set_content (put_state GPromoting) s)]> (snaps d)) d.
Proof.
  unfold claim_validated_sales_generation. intros (u & _ & H)%bind_Ok.
  apply bind_Ok in H as (o & Ho & H).
  apply update_where_Ok in Ho as [[-> _]|(s & t & Hs & Hp & -> & Hw)]; [done|].
  rewrite Hs in H. injection H as <- <-. apply write_same in Hw; [|done].
  unfold is_processing in Hp. rewrite !andb_true_iff, !bool_decide_eq_true in Hp.
  destruct Hp as [[[[? ?] ?] ?] _]. exists s. done.
Qed.

(** A cancelled job published all of the promotion or nothing of it, and what it leaves is
    reachable by the transactions of the pipeline; the generation may stay in promoting,
    until the recovery at startup gives it back. *)
Lemma cancelled_promotion_is_whole d sid t_claim t_promote occurred drawn t_restore token owner sha actor
    reason d' :
  d' ∈ promote_sales_cancelled E sid t_claim t_promote occurred drawn t_restore token owner sha actor
         reason d →
  steps E d d' ∧
  (live d' = live d ∧ heads d' = heads d ∧ ledger d' = ledger d ∧ events d' = events d ∨
   ∃ d1 r, promote_sales_generation E sid t_promote occurred drawn token owner sha actor reason
             ActPromote d1 = Ok (r, d')).
Proof.
  unfold promote_sales_cancelled, steps.
  destruct (claim_validated_sales_generation _ _ _ _ _ _ _ d) as [[previous d1]|e] eqn:Hcl.
  2:{ intros ->%list_elem_of_singleton. split; [done|]. by left. }
  pose proof (rtc_once _ _ (StepClaim E d _ _ _ _ _ _ _ _ Hcl)) as Hc.
  apply claim_Ok in Hcl as (s & Hs & _ & _ & _ & _ & Ed1).
  assert (Hsame : live d1 = live d ∧ heads d1 = heads d ∧ ledger d1 = ledger d ∧ events d1 = events d)
    by by rewrite Ed1.
  intros [->|[->|H]%elem_of_cons]%elem_of_cons; [by split; [|left]|by split; [|left]|].
  destruct (promote_sales_generation _ _ _ _ _ _ _ _ _ _ _ d1) as [[[rows rev] d2]|e] eqn:Hp.
  - apply list_elem_of_singleton in H as ->. split; [|right; by eexists _, _].
    eapply rtc_r; [exact Hc|by eapply StepPromote].
  - destruct (restore_sales_generation_claim _ _ _ _ _ _ d1) as [d2|] eqn:Hr; [|by apply elem_of_nil in H].
    apply list_elem_of_singleton in H as ->. split.
    + eapply rtc_r; [exact Hc|by eapply StepRestore].
    + left. apply sales_fenced_update_Ok in Hr as (t & _ & _ & Hw). apply write_same in Hw; [|done].
      by rewrite Hw.
Qed.


(** ** The outbox inside the sales database *)

(** A transaction that touches neither the ledger nor the outbox, and keeps the origin and
    the manifest hash of every generation. *)
Definition grows (d d' : db) : Prop := ∀ i s, snaps d !! i = Some s →
  ∃ s', snaps d' !! i = Some s' ∧ orig s' = orig s ∧
    ∀ h, manifest_sha256 (cont s) = Some h → manifest_sha256 (cont s') = Some h.
Definition quiet (d d' : db) : Prop := events d' = events d ∧ ledger d' = ledger d ∧ grows d d'.

#[local] Instance grows_preorder : PreOrder grows.
Proof.
  split; [by intros d i s Hs; exists s|]. intros a b c Hab Hbc i s Hs.
  destruct (Hab i s Hs) as (s1 & H1 & O1 & M1), (Hbc i s1 H1) as (s2 & H2 & O2 & M2).
  exists s2. split_and!; [done|congruence|auto].
Qed.
#[local] Instance quiet_preorder : PreOrder quiet.
Proof.
  split; [by intros d; split_and!|]. intros a b c (? & ? & ?) (? & ? & ?).
  split_and!; [congruence..|by etransitivity].
Qed.

Lemma quiet_insert d i s s' :
  snaps d !! i = Some s → orig s' = orig s →
  (∀ h, manifest_sha256 (cont s) = Some h → manifest_sha256 (cont s') = Some h) →
  quiet d (with_snaps (<[i := s']> (snaps d)) d).
Proof.
  intros Hs Ho Hh. split_and!; [done..|]. intros j t Hj. cbn.
  destruct (decide (j = i)) as [->|Hn].
  - exists s'. rewrite lookup_insert_eq. assert (t = s) as -> by congruence. done.
  - exists t. by rewrite lookup_insert_ne.
Qed.

Lemma write_quiet d sid old new d' :
  write (sha256_hex E) d sid old new = Ok d' → snaps d !! sid = Some old → orig new = orig old →
  quiet d d'.
Proof.
  unfold write. intros H Hs Ho. apply bind_Ok in H as (new' & Hp & H).
  do 2 apply bind_Ok in H as (? & _ & H). injection H as <-.
  assert (orig new' = orig new ∧
    ∀ h, manifest_sha256 (cont old) = Some h → manifest_sha256 (cont new') = Some h) as [Ho' Hh].
  { unfold provenance_guard in Hp. destruct (manifest_sha256 (cont old)) as [h|] eqn:Hold.
    - apply bind_Ok in Hp as (? & Hsame & Hp). apply bind_Ok in Hp as (? & _ & [= <-]).
      apply raise_if_Ok, orb_false_iff in Hsame as [Hsame%negb_false_iff%bool_decide_eq_true _].
      by rewrite Hsame.
    - destruct (manifest_sha256 (cont new)); [|by injection Hp as <-].
      do 2 apply bind_Ok in Hp as (? & _ & Hp). by injection Hp as <-. }
  eapply quiet_insert; [exact Hs|congruence|done].
Qed.

Lemma update_where_quiet sid p set d o :
  (∀ s, orig (set s) = orig s) → update_where (sha256_hex E) sid p set d = Ok o → quiet d (default d o).
Proof.
  intros Ho [[-> _]|(s & t & Hs & _ & -> & Hw)]%update_where_Ok; [done|]. by eapply write_quiet.
Qed.

Lemma fenced_update_quiet msg sid p set d d' :
  (∀ s, orig (set s) = orig s) → fenced_update (sha256_hex E) msg sid p set d = Ok d' → quiet d d'.
Proof. intros Ho (s & Hs & _ & Hw)%sales_fenced_update_Ok. by eapply write_quiet. Qed.

Lemma update_all_quiet p set d ids d' :
  (∀ s, orig (set s) = orig s) → update_all (sha256_hex E) p set d = Ok (ids, d') → quiet d d'.
Proof.
  intros Ho H. eapply (update_all_ind E (quiet d)); [exact H|done|].
  intros t sid s t' Ht Hs _ Hw. etransitivity; [exact Ht|by eapply write_quiet].
Qed.

Lemma insert_stage_quiet sid rows d d' : insert_stage sid rows d = Ok d' → quiet d d'.
Proof.
  intros H. destruct (decide (rows = [])) as [->|Hne]; [by injection H as <-|].
  apply insert_stage_Ok in H as (s & _ & _ & _ & _ & _ & _ & ->); [|done].
  split_and!; [done..|]. by intros i t Ht; exists t.
Qed.

Lemma reserve_quiet sid now seen month file in_file final source cutoff token owner required path bytes
    secs d r d' :
  reserve_snapshot (sha256_hex E) sid now seen month file in_file final source cutoff token owner
    required path bytes secs d = Ok (r, d') → quiet d d'.
Proof.
  unfold reserve_snapshot. intros H. do 2 apply bind_Ok in H as (? & _ & H).
  apply bind_Ok in H as (d1 & H1 & H). destruct (existsb _ _); [done|].
  apply bind_Ok in H as (d2 & H2 & [= _ <-]). unfold expire_abandoned in H1.
  destruct (update_all _ _ _ d) as [[ids t]|] eqn:Hu; [|done]. injection H1 as <-.
  etransitivity; [eapply update_all_quiet; [|exact Hu]; done|].
  apply insert_snapshot_Ok in H2 as (Hfree & _ & _ & ->). split_and!; [done..|].
  intros i u Hi. exists u. cbn. by rewrite lookup_insert_ne by congruence.
Qed.

Lemma validate_quiet sid now month cutoff digest in_file filtered token owner df d r d' :
  validate_and_stage_generation E sid now month cutoff digest in_file filtered token owner df d
  = Ok (r, d') → quiet d d'.
Proof.
  unfold validate_and_stage_generation. intros H. do 3 apply bind_Ok in H as (? & _ & H).
  apply bind_Ok in H as (d1 & Hb & H). apply bind_Ok in H as ([k d2] & Hstg & H).
  apply bind_Ok in H as (d3 & Hper & H). injection H as _ <-.
  unfold stage_sales_generation_rows in Hstg. apply bind_Ok in Hstg as (? & _ & Hstg).
  apply bind_Ok in Hstg as (? & Hstg & [= _ ->]).
  etransitivity; [by eapply fenced_update_quiet; [|exact Hb]|].
  etransitivity; [by eapply insert_stage_quiet|]. by eapply fenced_update_quiet; [|exact Hper].
Qed.

(** What the event of a promotion says: the month, the revision, and the manifest hash, the
    source and the cutoff of the generation that was promoted. *)
Definition sales_event (x : Outbox.identity) : Prop :=
  Outbox.aggregate_type x = "sales_generation"%string.
Record announces (d : db) (r : ledger_row) (x : Outbox.identity) : Prop := {
  an_sales : sales_event x;
  an_aggregate : Outbox.aggregate_id x = "sales-" +:+ l_month r;
  an_revision : Outbox.revision x = l_revision r;
  an_sequence : Outbox.aggregate_sequence x = l_revision r;
  an_generation : ∃ s c, snaps d !! l_to r = Some s ∧ cutoff_date (orig s) = Some c ∧
    manifest_sha256 (cont s) = Some (Outbox.generation_hash x) ∧
    Outbox.body x = Outbox.Payload (default "None"%string (source_sha256 (orig s)))
                      (Some (bucharest_midnight E c)) (l_month r);
}.
Record announced (d : db) : Prop := {
  ad_ledger r : r ∈ ledger d →
    ∃ i e, Outbox.events (events d) !! i = Some e ∧ announces d r (Outbox.ident e);
  ad_events i e : Outbox.events (events d) !! i = Some e → sales_event (Outbox.ident e) →
    ∃ r, r ∈ ledger d ∧ announces d r (Outbox.ident e);
}.

Lemma announces_grows d d' r x : grows d d' → announces d r x → announces d' r x.
Proof.
  intros Hg [Hs Ha Hr Hq (s & c & Hl & Hc & Hh & Hb)]. split; [done..|].
  destruct (Hg _ _ Hl) as (s' & Hl' & Ho & Hh'). exists s', c. rewrite Ho. auto.
Qed.

Lemma quiet_announced d d' : quiet d d' → announced d → announced d'.
Proof.
  intros (He & Hl & Hg) [Al Ae]. split; rewrite He, ?Hl.
  - intros r (i & e & Hi & Ha)%Al. exists i, e. split; [done|]. exact (announces_grows _ _ _ _ Hg Ha).
  - intros i e Hi Hs. destruct (Ae i e Hi Hs) as (r & Hr & Ha). exists r.
    split; [done|]. exact (announces_grows _ _ _ _ Hg Ha).
Qed.

Lemma outbox_announced d e :
  Outbox.step (payload_digest E) (identity_check E) (events d) e → wf (events d) →
  (∀ i x, Outbox.events e !! i = Some x → sales_event (Outbox.ident x) →
     is_Some (Outbox.events (events d) !! i)) →
  announced d → announced (with_events e d).
Proof.
  intros Hs Hwf Hnew [Al Ae]. destruct (step_wf _ _ _ _ Hs Hwf) as [_ [Hrow _]].
  assert (Hg : grows d (with_events e d)) by (by intros i s; exists s).
  split; cbn.
  - intros r (i & x & Hi & Ha)%Al. destruct (Hrow _ _ Hi) as (x' & Hi' & Hid & _).
    exists i, x'. rewrite Hid. split; [done|]. exact (announces_grows _ _ _ _ Hg Ha).
  - intros i x Hi Hsx. destruct (Hnew _ _ Hi Hsx) as [y Hy].
    destruct (Hrow _ _ Hy) as (x' & Hi' & Hid & _). assert (x' = x) as -> by congruence.
    rewrite Hid in Hsx |- *. destruct (Ae i y Hy Hsx) as (r & Hr & Ha). exists r.
    split; [done|]. exact (announces_grows _ _ _ _ Hg Ha).
Qed.

Lemma max_sequence_le i (o : Outbox.db) n :
  0 <= n → (∀ j e, Outbox.events o !! j = Some e → Outbox.same_aggregate i (Outbox.ident e) = true →
            Outbox.aggregate_sequence (Outbox.ident e) <= n) →
  Outbox.max_sequence i o <= n.
Proof.
  intros Hn Hb. unfold Outbox.max_sequence.
  set (l := List.filter _ _). assert (Hl : Forall (λ x, Outbox.aggregate_sequence x <= n) l).
  { apply List.Forall_forall. intros x [Hin Ha]%filter_In.
    apply list_elem_of_In, list_elem_of_fmap in Hin as ([j e] & -> & Hj%elem_of_map_to_list).
    by apply (Hb j e). }
  clearbody l. induction Hl as [|x l Hx _ IH]; cbn in *; lia.
Qed.

Lemma max_sequence_nonneg i (o : Outbox.db) : 0 <= Outbox.max_sequence i o.
Proof. unfold Outbox.max_sequence. induction (_ <$> _) as [|x l IH]; cbn; lia. Qed.

Lemma sales_aggregate_inj a b : "sales-" +:+ a = "sales-" +:+ b → a = b.
Proof. intros H. injection H as H. exact H. Qed.

(** The revisions of a month are numbered by its head. *)
Lemma ledger_revisions d r :
  inv E None d → r ∈ ledger d → l_revision r <= head_revision d (l_month r).
Proof.
  intros I Hr. eapply (past_head_le E None d (l_month r) (Some (Head (l_to r) (l_revision r)))); [done|].
  right. by exists r.
Qed.

Lemma sales_event_revision d month i e :
  inv E None d → announced d → Outbox.events (events d) !! i = Some e → sales_event (Outbox.ident e) →
  Outbox.aggregate_id (Outbox.ident e) = "sales-" +:+ month →
  Outbox.revision (Outbox.ident e) = Outbox.aggregate_sequence (Outbox.ident e) ∧
  Outbox.revision (Outbox.ident e) <= head_revision d month.
Proof.
  intros I A He Hs Hag. destruct (ad_events _ A _ _ He Hs) as (r & Hr & Ha).
  pose proof (ledger_revisions _ _ I Hr) as Hle. rewrite (an_aggregate _ _ _ Ha) in Hag.
  apply sales_aggregate_inj in Hag. rewrite (an_revision _ _ _ Ha), (an_sequence _ _ _ Ha), <- Hag.
  done.
Qed.

(** The last event of a month is its head's. *)
Lemma max_sequence_head d month proto :
  inv E None d → announced d → sales_event proto → Outbox.aggregate_id proto = "sales-" +:+ month →
  Outbox.max_sequence proto (events d) = head_revision d month.
Proof.
  intros I A Hs Hag. apply Z.le_antisymm.
  - apply max_sequence_le.
    + unfold head_revision. destruct (heads d !! month) eqn:Hh; [|done].
      destruct (i_head _ _ _ I _ _ Hh). lia.
    + intros j e Hj Ha. unfold Outbox.same_aggregate in Ha.
      rewrite andb_true_iff, !bool_decide_eq_true in Ha. destruct Ha as [Ht Hi].
      destruct (sales_event_revision d month j e I A Hj) as [<- ?];
        [unfold sales_event; by rewrite <- Ht|by rewrite <- Hi|done].
  - destruct (head_is_past E None d month I) as [Hn|(r & Hr & Hm & Hh)].
    + unfold head_revision. rewrite Hn. apply max_sequence_nonneg.
    + unfold head_revision. rewrite Hh. cbn.
      destruct (ad_ledger _ A _ Hr) as (i & e & He & Ha).
      rewrite <- (an_sequence _ _ _ Ha). apply (max_sequence_ge proto _ i e He).
      unfold Outbox.same_aggregate. rewrite (an_aggregate _ _ _ Ha), Hm, Hag.
      pose proof (an_sales _ _ _ Ha) as Hs'. unfold sales_event in *. by rewrite Hs, Hs', !bool_decide_true.
Qed.

(** A promotion appends one record and one event, and the event announces the record. *)
Lemma promoted_announced sid now occurred drawn token owner sha actor reason action rows rev d d' s m :
  promoted E sid now occurred drawn token owner sha actor reason action rows rev d d' s m →
  inv E None d → announced d →
  announced d' ∧
  ∃ r i e, ledger d' = ledger d ++ [r] ∧ Outbox.events (events d) !! i = None ∧
    announces d' r (Outbox.ident e) ∧ Outbox.state e = Outbox.Pending ∧
    events d' = Outbox.Db (<[i := e]> (Outbox.events (events d))) (Outbox.receipts (events d))
                  (Outbox.audits (events d)).
Proof.
  intros P I A. set (month := import_month (orig s)).
  assert (Hrev : rev = head_revision d month + 1).
  { rewrite (pr_revision P). unfold head_revision, head_next, month. by destruct (heads d !! _). }
  assert (Hg : grows d d').
  { intros i t Ht. rewrite (pr_snaps P). destruct (decide (i = sid)) as [->|Hn].
    - eexists. rewrite lookup_insert_eq. split; [done|]. pose proof (pr_row P).
      assert (t = s) as -> by congruence. done.
    - exists t. by rewrite lookup_insert_ne. }
  destruct (pr_event P) as (c & eid & Hc & Hev). fold month in Hev.
  unfold Outbox.emit_sales_generation_promoted in Hev. cbn in Hev.
  match type of Hev with Outbox.emit_internal _ _ ?p _ = _ => set (proto := p) in * end.
  pose proof (max_sequence_head d month proto I A eq_refl eq_refl) as Hseq.
  apply emit_internal_Ok in Hev as [(_ & i & e & He & Ha & Hr)|(Hfree & e & Hid & Hst & Hev)].
  { exfalso. unfold Outbox.same_aggregate in Ha. cbn in Ha, Hr.
    rewrite andb_true_iff, !bool_decide_eq_true in Ha. destruct Ha as [Ht Hi].
    destruct (sales_event_revision d month i e I A He Ht Hi) as [_ ?]. lia. }
  change (Outbox.id proto) with drawn in *.
  set (r := LedgerRow month (h_snapshot <$> heads d !! month) sid rev action actor reason).
  assert (Hl : ledger d' = ledger d ++ [r]) by exact (pr_ledger_rows P).
  assert (Hann : announces d' r (Outbox.ident e)).
  { rewrite Hid. split; cbn; [done..|rewrite Hseq; lia|].
    exists (promoted_row now rows (h_snapshot <$> heads d !! month) actor reason s), c.
    rewrite (pr_snaps P), lookup_insert_eq. split_and!; [done|done|exact (pr_hash P)|done]. }
  split.
  - split.
    + intros r'. rewrite Hl. intros [Hr'|Hr'%list_elem_of_singleton]%elem_of_app; [|subst r'].
      * destruct (ad_ledger _ A _ Hr') as (i & x & Hi & Ha). exists i, x. rewrite Hev. cbn.
        rewrite lookup_insert_ne by congruence. split; [done|exact (announces_grows _ _ _ _ Hg Ha)].
      * exists drawn, e. rewrite Hev. cbn. by rewrite lookup_insert_eq.
    + intros i x. rewrite Hev. cbn. rewrite Hl. destruct (decide (i = drawn)) as [->|Hn].
      * rewrite lookup_insert_eq. intros [= <-] _. exists r. split; [set_solver|done].
      * rewrite lookup_insert_ne by congruence. intros Hi Hs.
        destruct (ad_events _ A _ _ Hi Hs) as (r' & Hr' & Ha). exists r'.
        split; [set_solver|exact (announces_grows _ _ _ _ Hg Ha)].
  - exists r, drawn, e. done.
Qed.

Lemma rollback_quiet current new_sid target month token owner sha d d3 :
  prepared E current new_sid target month token owner sha d d3 → quiet d d3.
Proof.
  intros P. split_and!; [apply (rb_events P)|apply (rb_ledger P)|]. intros i s Hs. exists s.
  rewrite (rb_snaps P); [done|]. intros ->. pose proof (rb_fresh P). congruence.
Qed.

Lemma promoted_outbox sid now occurred drawn token owner sha actor reason action rows rev d d' s m :
  promoted E sid now occurred drawn token owner sha actor reason action rows rev d d' s m →
  Outbox.step (payload_digest E) (identity_check E) (events d) (events d').
Proof.
  intros P. destruct (pr_event P) as (c & eid & _ & Hev). cbn in Hev. eapply Outbox.step_emit. exact Hev.
Qed.

(** What a transaction does to the ledger and the outbox. *)
Definition announcing_step (d d' : db) : Prop :=
  events d' = events d ∧ ledger d' = ledger d ∨
  (ledger d' = ledger d ∧
   Outbox.step (payload_digest E) (identity_check E) (events d) (events d') ∧
   ∀ i e, Outbox.events (events d') !! i = Some e → sales_event (Outbox.ident e) →
     is_Some (Outbox.events (events d) !! i)) ∨
  (Outbox.step (payload_digest E) (identity_check E) (events d) (events d') ∧
   ∃ r i e, ledger d' = ledger d ++ [r] ∧ Outbox.events (events d) !! i = None ∧
    announces d' r (Outbox.ident e) ∧ Outbox.state e = Outbox.Pending ∧
    events d' = Outbox.Db (<[i := e]> (Outbox.events (events d))) (Outbox.receipts (events d))
                  (Outbox.audits (events d))).

Lemma step_announced d d' :
  step E d d' → inv E None d → wf (events d) → announced d → announced d' ∧ announcing_step d d'.
Proof.
  intros S I Hwf A.
  assert (Hq : quiet d d' → announced d' ∧ announcing_step d d').
  { intros Hq. split; [by eapply quiet_announced|]. left. by destruct Hq as (? & ? & _). }
  destruct S as
      [? ? ? ? ? ? ? ? ? ? ? ? ? ? ? ? _ H|? ? ? ? ? ? H|? ? ? ? H|? ? ? ? ? ? H
      |? ? ? ? ? ? ? ? ? ? ? ? ? ? H|? ? ? ? ? ? ? ? H|? ? ? ? ? ? ? ? H|? ? ? ? ? ? ? ? H|? ? ? ? ? ? H
      |? ? ? ? ? ? ? ? ? ? [? ?] ? H|? ? ? ? ? ? ? ? ? ? ? [[? ?] ?] ? H|? ? ? ? H|? ? ? ? ? ? H|? ? ? ->
      |e He Hnew].
  - apply Hq. by eapply reserve_quiet.
  - apply Hq. by eapply fenced_update_quiet; [|exact H].
  - apply Hq. apply bind_Ok in H as (o & Ho & [= <-]). by eapply update_where_quiet; [|exact Ho].
  - apply Hq. by eapply fenced_update_quiet; [|exact H].
  - apply Hq. by eapply validate_quiet.
  - apply Hq. by eapply fenced_update_quiet; [|exact H].
  - apply Hq. by eapply fenced_update_quiet; [|exact H].
  - apply Hq. apply claim_Ok in H as (s & Hs & _ & _ & _ & _ & ->). by eapply quiet_insert.
  - apply Hq. by eapply fenced_update_quiet; [|exact H].
  - apply promote_Ok in H as (s & m & _ & P).
    destruct (promoted_announced _ _ _ _ _ _ _ _ _ _ _ _ _ _ _ _ P I A) as [Ha He].
    split; [done|]. right. right. split; [by eapply promoted_outbox|done].
  - apply rollback_Ok in H as (target & month & sha' & d3 & P & Hp & _); [|done].
    apply promote_Ok in Hp as (s & m & _ & Hp). pose proof (rollback_quiet _ _ _ _ _ _ _ _ _ P) as Hq3.
    destruct (promoted_announced _ _ _ _ _ _ _ _ _ _ _ _ _ _ _ _ Hp (rb_inv P)
                (quiet_announced _ _ Hq3 A)) as [Ha He].
    destruct Hq3 as (Ee & El & _). split; [done|]. right. right. rewrite <- Ee, <- El.
    split; [by eapply promoted_outbox|done].
  - apply Hq. apply bind_Ok in H as ([l1 d1] & H1 & H). apply bind_Ok in H as ([l2 d2] & H2 & [= _ <-]).
    etransitivity; eapply update_all_quiet; try eassumption; done.
  - apply Hq. unfold reconcile_candidate in H.
    destruct outcome; apply bind_Ok in H as (o & Ho & [= _ <-]); by eapply update_where_quiet; [|exact Ho].
  - apply Hq. split_and!; [done..|]. by intros i s; exists s.
  - split; [by apply outbox_announced|]. right. left. done.
Qed.

Lemma reachable_announced d :
  reachable E d →
  inv E None d ∧ announced d ∧ Outbox.reachable (payload_digest E) (identity_check E) (events d).
Proof.
  unfold reachable, steps. cut (∀ d0, rtc (step E) d0 d →
    inv E None d0 ∧ announced d0 ∧ Outbox.reachable (payload_digest E) (identity_check E) (events d0) →
    inv E None d ∧ announced d ∧ Outbox.reachable (payload_digest E) (identity_check E) (events d)).
  { intros Hc H. apply (Hc _ H). split_and!; [apply empty_inv| |apply rtc_refl].
    split; cbn; [by intros r ?%elem_of_nil|by intros i e]. }
  intros d0. induction 1 as [|x y z Hxy _ IH]; [done|]. intros (I & A & R). apply IH.
  destruct (step_announced _ _ Hxy I (reachable_wf _ _ _ R) A) as [A' St].
  split_and!; [by eapply step_inv|done|].
  destruct St as [[-> _]|[(_ & Hs & _)|[Hs _]]]; [done|by eapply rtc_r..].
Qed.

(** C7: the outbox announces the promotions, one to one.  In every reachable state the
    outbox is a reachable outbox, so everything proved of it holds; each record of the
    promotion ledger has exactly one event, with the month, the revision, the manifest
    hash, the source and the cutoff of the generation it promoted; each event of a sales
    generation announces such a record, and its place in the delivery order of the month
    is the revision.  A transaction of the sales tables either leaves the ledger and the
    outbox alone, or is the outbox's own, or appends one record to the ledger and one
    pending event that announces it to the outbox. *)
Theorem sales_refine_outbox d :
  reachable E d →
  Outbox.reachable (payload_digest E) (identity_check E) (events d) ∧
  (∀ r, r ∈ ledger d → ∃ i e, Outbox.events (events d) !! i = Some e ∧ announces d r (Outbox.ident e) ∧
     ∀ j f, Outbox.events (events d) !! j = Some f → announces d r (Outbox.ident f) → j = i) ∧
  (∀ i e, Outbox.events (events d) !! i = Some e → sales_event (Outbox.ident e) →
     ∃ r, r ∈ ledger d ∧ announces d r (Outbox.ident e)) ∧
  (∀ d', step E d d' → announcing_step d d').
Proof.
  intros H. destruct (reachable_announced d H) as (I & A & R).
  pose proof (reachable_wf _ _ _ R) as Hwf. split_and!; [done| |apply A|].
  - intros r Hr. destruct (ad_ledger _ A r Hr) as (i & e & Hi & Ha). exists i, e. split_and!; [done..|].
    intros j f Hj Hf. apply (wf_sequence _ Hwf j i f e Hj Hi).
    + pose proof (an_sales _ _ _ Ha) as Hs. pose proof (an_sales _ _ _ Hf) as Hs'. unfold sales_event in *.
      unfold Outbox.same_aggregate.
      by rewrite Hs, Hs', (an_aggregate _ _ _ Ha), (an_aggregate _ _ _ Hf), !bool_decide_true.
    + by rewrite (an_sequence _ _ _ Ha), (an_sequence _ _ _ Hf).
  - intros d' S. by eapply step_announced.
Qed.
(** ** A generation that expects a past head *)

(** It is never promoted, and as long as it is validated it keeps its month from being
    imported again: a reservation does not close it, however old it is. *)
Lemma stale_generation_blocks d i s :
  snaps d !! i = Some s → status (wk s) = Processing → unvalidated s = false →
  expected_head_revision (orig s) ≠ head_revision d (import_month (orig s)) →
  (∀ now occurred drawn token owner sha actor reason action r,
     promote_sales_generation E i now occurred drawn token owner sha actor reason action d ≠ Ok r) ∧
  (∀ sid now seen file in_file final source cutoff token owner required path bytes secs r,
     reserve_snapshot (sha256_hex E) sid now seen (import_month (orig s)) file in_file final source cutoff
       token owner required path bytes secs d ≠ Ok r).
Proof.
  intros Hs Hp Hv He. split.
  - intros now occurred drawn token owner sha actor reason action [[rows rev] d'] H.
    apply promote_Ok in H as (t & m & _ & P). pose proof (pr_row P) as Ht.
    assert (t = s) as -> by congruence. by apply He, (pr_expected P).
  - intros sid now seen file in_file final source cutoff token owner required path bytes secs r H.
    unfold reserve_snapshot in H. do 2 apply bind_Ok in H as (? & _ & H).
    apply bind_Ok in H as (d1 & H1 & H). unfold expire_abandoned in H1.
    destruct (update_all _ _ _ d) as [[ids t]|] eqn:Hu; [|done]. injection H1 as <-.
    assert (Hi : snaps t !! i = Some s).
    { eapply (update_all_ind E (λ t, snaps t !! i = Some s)); [exact Hu|done|].
      intros t1 j u t' Ht1 Hj Hpj Hw. destruct (decide (j = i)) as [->|Hn].
      - assert (u = s) as -> by congruence. rewrite Hv, andb_false_r in Hpj. done.
      - by rewrite (write_lookup _ _ _ _ _ _ i Hw). }
    assert (existsb (λ x, is_processing x && bool_decide (import_month (orig x) = import_month (orig s)))
              (snd <$> map_to_list (snaps t)) = true) as Hx.
    { apply existsb_exists. exists s. split.
      - apply list_elem_of_In, list_elem_of_fmap. exists (i, s). split; [done|].
        by apply elem_of_map_to_list.
      - unfold is_processing. by rewrite Hp, !bool_decide_true. }
    by rewrite Hx in H.
Qed.

(** ** A rollback while a generation is pending *)

(** With another generation of the month in processing, the INSERT of the clone
    trips the unique index of the month: a database error, not the conflict the
    code reports for a reservation that failed. *)
Lemma insert_pending_refused sid s d i t :
  artifact_guard None s = Ok () → row_check s = true → snaps d !! sid = None →
  (∀ j u, snaps d !! j = Some u → generation_token (orig u) ≠ generation_token (orig s)) →
  snaps d !! i = Some t → status (wk t) = Processing → import_month (orig t) = import_month (orig s) →
  insert_snapshot sid s d = Err (PostgresError "uq_import_snapshots_month_processing").
Proof.
  intros Ha Hc Hf Ht Hi Hp Hm. unfold insert_snapshot. rewrite Ha, Hc, Hf. cbn.
  assert (existsb (λ x, bool_decide (generation_token (orig x) = generation_token (orig s)))
            (snd <$> map_to_list (snaps d)) = false) as ->.
  { apply not_true_iff_false. intros (x & Hx & He)%existsb_exists.
    apply list_elem_of_In, list_elem_of_fmap in Hx as ([j u] & -> & Hj).
    apply elem_of_map_to_list in Hj. apply bool_decide_eq_true in He. by destruct (Ht j u Hj). }
  cbn. assert (existsb (λ x, is_processing x && bool_decide (import_month (orig x) = import_month (orig s)))
            (snd <$> map_to_list (snaps d)) = true) as ->; [|done].
  apply existsb_exists. exists t. split.
  - apply list_elem_of_In, list_elem_of_fmap. exists (i, t). split; [done|]. by apply elem_of_map_to_list.
  - unfold is_processing. by rewrite Hp, Hm, !bool_decide_true.
Qed.
End Guards.
End SalesGuards.
