(* ===== verification/SalesRuns.v ===== *)
(** A concrete month of sales: two generations imported and promoted, a rollback
    and its undoing; the theorems of [SalesSpec.v] and [SalesGuards.v] at these
    states. *)

From Stdlib Require Import Ascii.
From S2P Require Import Prelude Text Decimal Grile Outbox SalesText SalesManifest SalesGen SalesPromotion SalesFlow SalesInv SalesFlowInv SalesSpec SalesGuards.

Local Open Scope Z_scope.

Module SalesDemo.
Import SalesText SalesManifest SalesGen SalesPromotion SalesFlow SalesInv SalesSpec SalesGuards.

(** ** A small environment *)

Fixpoint hex_text (n : nat) (z : Z) : string :=
  match n with
  | O => ""
  | S n' => String (nth (Z.to_nat (z mod 16)) (chars "0123456789abcdef") "0"%char) (hex_text n' (z / 16))
  end.
Definition checksum (t : text) : Z :=
  foldl (λ a c, (a * 31 + Z.of_nat (nat_of_ascii c)) mod 4294967296) 7 t.
Definition hash (t : text) : string := hex_text 64 (checksum t).

Definition demo_env : env := Env hash (λ s, s) item_code (λ l, int_text (Z.of_nat (length l)))
  (λ m, default ""%string (mf_stage_sha256 m) +:+ match rollback_of m with Some i => int_text i | None => "" end)
  (λ _ _, "{}"%string) (λ f _, f) (λ _ _ _, true) (λ _ _, true)
  (λ d, (Grile.year d * 372 + Grile.month d * 31 + Grile.day d) * 86400 * SalesGen.second)
  (λ _ _, hash []) (λ _, true).

Definition march (k : Z) : Grile.date := Grile.Date 2026 3 k.
Definition sale (k : Z) (site : string) (qty cts : Z) : frame_row :=
  FrameRow (march k) site "Centru" "Mobiup" "Nord" (Some "ana"%string) "B1" "I1" "Husa" None None None
    qty (Dec cts (-2)) (Dec (qty * cts) (-2)) "ion" false false.

Definition report1 : list frame_row := [sale 1 "S1" 2 1050; sale 2 "S2" 1 999].
Definition report2 : list frame_row := [sale 1 "S1" 2 1050; sale 3 "S1" 1 500; sale 2 "S2" 1 999].
Definition source : string := hash (chars "report").

Definition sec (t : Z) : Z := t * SalesGen.second.
Definition after {A} (r : res sales_error (A * db)) : db :=
  match r with Ok (_, d) => d | Err _ => empty_db end.

(** ** The run *)

Definition month : string := "2026-03".
Definition r1 := reserve_snapshot hash 1 (sec 10) None month "a.xlsx" 2 false (Some source)
  (Some (march 3)) "tok-1" "own-1" false None None 7200 empty_db.
Definition s1 : db := Eval vm_compute in after r1.
Definition r2 := validate_and_stage_generation demo_env 1 (sec 11) month (march 3) source 2 0 "tok-1" "own-1"
  report1 s1.
Definition s2 : db := Eval vm_compute in after r2.
Definition sha1 : string := Eval vm_compute in match r2 with Ok (_, _, sha, _) => sha | Err _ => "" end.
Definition r3 := promote_sales_generation demo_env 1 (sec 12) (sec 12) 901 "tok-1" "own-1" sha1 "ana" None
  ActPromote s2.
Definition s3 : db := Eval vm_compute in after r3.
Definition r4 := reserve_snapshot hash 2 (sec 20) (heads s3 !! month) month "b.xlsx" 3 false (Some source)
  (Some (march 3)) "tok-2" "own-2" false None None 7200 s3.
Definition s4 : db := Eval vm_compute in after r4.
Definition r5 := validate_and_stage_generation demo_env 2 (sec 21) month (march 3) source 3 0 "tok-2" "own-2"
  report2 s4.
Definition s5 : db := Eval vm_compute in after r5.
Definition sha2 : string := Eval vm_compute in match r5 with Ok (_, _, sha, _) => sha | Err _ => "" end.
Definition r6 := claim_validated_sales_generation hash 2 (sec 22) "tok-2" sha2 "own-3" 7200 s5.
Definition s6 : db := Eval vm_compute in after r6.
Definition r7 := promote_sales_generation demo_env 2 (sec 23) (sec 23) 902 "tok-2" "own-3" sha2 "ana" None
  ActPromote s6.
Definition s7 : db := Eval vm_compute in after r7.
Definition r8 := rollback_sales_generation demo_env 2 3 (sec 30) (sec 30) 903 "tok-2" sha2 "ana"
  "wrong file uploaded" "tok-3" "own-4" s7.
Definition s8 : db := Eval vm_compute in after r8.
Definition sha3 : string := Eval vm_compute in match snaps s8 !! 3 with
  | Some s => default ""%string (manifest_sha256 (cont s)) | None => "" end.
Definition r9 := rollback_sales_generation demo_env 3 4 (sec 40) (sec 40) 904 "tok-3" sha3 "ana"
  "undo the rollback" "tok-4" "own-5" s8.
Definition s9 : db := Eval vm_compute in after r9.

Example run_ok :
  forallb id [is_ok r1; is_ok r2; is_ok r3; is_ok r4; is_ok r5; is_ok r6; is_ok r7; is_ok r8; is_ok r9] = true.
Proof. vm_compute. reflexivity. Qed.
Example run_live : (length (live s3), length (live s7), length (live s8), length (live s9)) = (2, 3, 2, 3)%nat.
Proof. vm_compute. reflexivity. Qed.

(** ** The states are reachable *)

Lemma after_Ok {A} (r : res sales_error (A * db)) : is_ok r = true → ∃ a, r = Ok (a, after r).
Proof. destruct r as [[a d]|e]; [by exists a|done]. Qed.

Lemma reach_next d d' : reachable demo_env d → step demo_env d d' → reachable demo_env d'.
Proof. intros H S. eapply rtc_r; [exact H|exact S]. Qed.

Lemma reserved_step {n t se0 m f k b so c tk ow rq pa by_ se d} :
  past_head m d se0 →
  match reserve_snapshot hash n t se0 m f k b so c tk ow rq pa by_ se d with
  | Ok (i, _) => i =? n | Err _ => false end = true →
  step demo_env d (after (reserve_snapshot hash n t se0 m f k b so c tk ow rq pa by_ se d)).
Proof.
  intros Hp H. destruct (reserve_snapshot _ _ _ _ _ _ _ _ _ _ _ _ _ _ _ _ _) as [[i d']|e] eqn:Hr; [|done].
  apply Z.eqb_eq in H as ->. by eapply (StepReserve demo_env).
Qed.

Lemma staged_step {n t m c dg k b tk ow df d} :
  is_ok (validate_and_stage_generation demo_env n t m c dg k b tk ow df d) = true →
  step demo_env d (after (validate_and_stage_generation demo_env n t m c dg k b tk ow df d)).
Proof.
  destruct (validate_and_stage_generation _ _ _ _ _ _ _ _ _ _ _ _) as [[[[a mf] h] d']|e] eqn:Hr; [|done].
  intros _. by eapply StepStage.
Qed.

Lemma promoted_step {n t o dr tk ow sha ac re act d} :
  is_ok (promote_sales_generation demo_env n t o dr tk ow sha ac re act d) = true →
  step demo_env d (after (promote_sales_generation demo_env n t o dr tk ow sha ac re act d)).
Proof.
  destruct (promote_sales_generation _ _ _ _ _ _ _ _ _ _ _ _) as [[a d']|e] eqn:Hr; [|done].
  intros _. by eapply StepPromote.
Qed.

Lemma claimed_step {n t tk sha ow se d} :
  is_ok (claim_validated_sales_generation hash n t tk sha ow se d) = true →
  step demo_env d (after (claim_validated_sales_generation hash n t tk sha ow se d)).
Proof.
  destruct (claim_validated_sales_generation _ _ _ _ _ _ _ _) as [[a d']|e] eqn:Hr; [|done].
  intros _. by eapply (StepClaim demo_env).
Qed.

Lemma reach_s1 : reachable demo_env s1.
Proof.
  apply (reach_next empty_db s1); [apply rtc_refl|]. replace s1 with (after r1) by (vm_compute; reflexivity).
  unfold r1. apply reserved_step; [by left|]. vm_compute. reflexivity.
Qed.

Lemma reach_s2 : reachable demo_env s2.
Proof.
  apply (reach_next s1 s2 reach_s1). replace s2 with (after r2) by (vm_compute; reflexivity).
  unfold r2. apply staged_step. vm_compute. reflexivity.
Qed.

Lemma reach_s3 : reachable demo_env s3.
Proof.
  apply (reach_next s2 s3 reach_s2). replace s3 with (after r3) by (vm_compute; reflexivity).
  unfold r3. apply promoted_step. vm_compute. reflexivity.
Qed.

Lemma reach_s4 : reachable demo_env s4.
Proof.
  apply (reach_next s3 s4 reach_s3). replace s4 with (after r4) by (vm_compute; reflexivity).
  unfold r4. apply reserved_step; [|vm_compute; reflexivity].
  eapply head_is_past, (SalesFlowInv.sales_reachable_inv demo_env), reach_s3.
Qed.

Lemma reach_s5 : reachable demo_env s5.
Proof.
  apply (reach_next s4 s5 reach_s4). replace s5 with (after r5) by (vm_compute; reflexivity).
  unfold r5. apply staged_step. vm_compute. reflexivity.
Qed.

Lemma reach_s6 : reachable demo_env s6.
Proof.
  apply (reach_next s5 s6 reach_s5). replace s6 with (after r6) by (vm_compute; reflexivity).
  unfold r6. apply claimed_step. vm_compute. reflexivity.
Qed.

Lemma reach_s7 : reachable demo_env s7.
Proof.
  apply (reach_next s6 s7 reach_s6). replace s7 with (after r7) by (vm_compute; reflexivity).
  unfold r7. apply promoted_step. vm_compute. reflexivity.
Qed.

(** A reservation whose SELECT saw the head before the second promotion, and whose INSERT
    came after it: the generation is validated, never promoted, never closed by the
    recovery, and three years later the month still cannot be imported. *)
Definition x1 := reserve_snapshot hash 3 (sec 50) (heads s3 !! month) month "c.xlsx" 3 false (Some source)
  (Some (march 3)) "tok-9" "own-9" false None None 7200 s7.
Definition x2 := validate_and_stage_generation demo_env 3 (sec 51) month (march 3) source 3 0 "tok-9" "own-9"
  report2 (after x1).
Definition xsha : string := Eval vm_compute in match x2 with Ok (_, _, sha, _) => sha | Err _ => "" end.
Definition years : Z := sec 100000000.
Definition x3 := reconcile_leases hash years (λ _, "own-x"%string) (after x2).
Definition x_state : option generation_state := snaps (after x3) !! 3 ≫= state_of.
Example stale_reservation_blocks_month :
  past_head month s7 (heads s3 !! month) ∧ x_state = Some GValidated ∧
  (promote_sales_background demo_env 3 (sec 52) (sec 53) (sec 53) 909 (sec 54) "tok-9" "own-a" xsha "ana"
     None (after x2)).1 = Err (SalesGenerationConflictError "Sales generation head CAS failed") ∧
  reserve_snapshot hash 4 years (heads s7 !! month) month "d.xlsx" 3 false (Some source)
    (Some (march 3)) "tok-a" "own-b" false None None 7200 (after x3) = Err ImportAlreadyRunningError.
Proof.
  split_and!; [|vm_compute; reflexivity..]. right.
  eexists (LedgerRow month None 1 1 ActPromote "ana" None). vm_compute.
  split; [left|split; reflexivity].
Qed.

(** ** Witnesses *)

#[local] Opaque promote_sales_generation rollback_sales_generation promote_sales_background.

Lemma live_table_shows_heads_witness :
  live_of month s7 = materialised month s7 ∧ length (live_of month s7) = 3%nat.
Proof.
  split; [|vm_compute; reflexivity]. exact (proj1 (live_table_shows_heads demo_env s7 reach_s7) month).
Defined.

Lemma promotion_replaces_one_month_witness :
  ∃ rows rev d', promote_sales_generation demo_env 2 (sec 23) (sec 23) 902 "tok-2" "own-3" sha2 "ana" None
      ActPromote s6 = Ok (rows, rev, d') ∧ rev = 2 ∧ heads d' = <[month := Head 2 2]> (heads s6).
Proof.
  destruct (after_Ok (promote_sales_generation demo_env 2 (sec 23) (sec 23) 902 "tok-2" "own-3" sha2 "ana" None ActPromote s6))
    as [[rows rev] H]; [vm_compute; reflexivity|].
  eexists rows, rev, _. split; [exact H|].
  destruct (promotion_replaces_one_month demo_env s6 _ _ _ _ _ _ _ _ _ _ _ _ _ reach_s6 H)
    as (s & c & eid & Hs & _ & Hr & _ & Hh & _).
  assert (import_month (orig s) = month ∧ head_revision s6 (import_month (orig s)) = 1) as [Hm Hv].
  { vm_compute in Hs. injection Hs as <-. split; vm_compute; reflexivity. }
  rewrite Hv in Hr. cbn in Hr. split; [exact Hr|]. by rewrite Hh, Hm, Hr.
Defined.

Lemma ready_generation_is_promoted_witness :
  ∃ d', promote_sales_generation demo_env 2 (sec 23) (sec 23) 902 "tok-2" "own-3" sha2 "ana" None
      ActPromote s6 = Ok (3, 2, d').
Proof.
  assert (is_Some (snaps s6 !! 2)) as [s Hs] by (vm_compute; eexists; reflexivity).
  assert (is_Some (manifest_of (cont s))) as [m Hm]
    by (vm_compute in Hs; injection Hs as <-; vm_compute; eexists; reflexivity).
  assert (R : ready demo_env 2 (sec 23) (sec 23) 902 "tok-2" "own-3" sha2 "ana" s6 s m).
  { assert (Hs' := Hs). vm_compute in Hs'. injection Hs' as <-. vm_compute in Hm. injection Hm as <-.
    split; try (vm_compute; reflexivity).
    - split; vm_compute; reflexivity.
    - split; [vm_compute; discriminate|vm_compute; reflexivity].
    - eexists _, _. split; vm_compute; reflexivity. }
  destruct (proj1 (ready_generation_is_promoted demo_env s6 2 (sec 23) (sec 23) 902 "tok-2" "own-3" sha2
              "ana" None reach_s6) s m R) as [d' H].
  assert (import_month (orig s) = month) as Hmo
    by (vm_compute in Hs; injection Hs as <-; vm_compute; reflexivity).
  exists d'. rewrite H, Hmo. vm_compute. reflexivity.
Defined.

Lemma sales_refine_outbox_witness :
  length (ledger s7) = 2%nat ∧
  ∃ r i e, r ∈ ledger s7 ∧ l_revision r = 2 ∧ Outbox.events (events s7) !! i = Some e ∧
    Outbox.generation_hash (Outbox.ident e) = sha2 ∧ Outbox.aggregate_sequence (Outbox.ident e) = 2.
Proof.
  split; [vm_compute; reflexivity|].
  assert (Hr : LedgerRow month (Some 1) 2 2 ActPromote "ana" None ∈ ledger s7)
    by (vm_compute; right; left).
  destruct (proj1 (proj2 (sales_refine_outbox demo_env s7 reach_s7)) _ Hr) as (i & e & He & Ha & _).
  exists (LedgerRow month (Some 1) 2 2 ActPromote "ana" None), i, e.
  split; [exact Hr|]. split; [reflexivity|]. split; [exact He|].
  split; [|exact (an_sequence _ _ _ _ Ha)].
  destruct (an_generation _ _ _ _ Ha) as (s & c & Hs & _ & Hh & _).
  assert (Hs2 : manifest_sha256 (cont s) = Some sha2)
    by (vm_compute in Hs; injection Hs as <-; vm_compute; reflexivity).
  congruence.
Defined.

Lemma rollback_twice_restores_witness :
  ∃ d1 d2 r1 r2 v1 v2,
    rollback_sales_generation demo_env 2 3 (sec 30) (sec 30) 903 "tok-2" sha2 "ana"
      "wrong file uploaded" "tok-3" "own-4" s7 = Ok (3, r1, v1, d1) ∧
    rollback_sales_generation demo_env 3 4 (sec 40) (sec 40) 904 "tok-3" sha3 "ana"
      "undo the rollback" "tok-4" "own-5" d1 = Ok (4, r2, v2, d2) ∧
    ∃ mo, (live_of mo d2).*1 = (live_of mo s7).*1.
Proof.
  assert (H8 : ∃ r v, rollback_sales_generation demo_env 2 3 (sec 30) (sec 30) 903 "tok-2" sha2 "ana"
      "wrong file uploaded" "tok-3" "own-4" s7 = Ok (3, r, v, s8)) by (vm_compute; eauto).
  assert (H9 : ∃ r v, rollback_sales_generation demo_env 3 4 (sec 40) (sec 40) 904 "tok-3" sha3 "ana"
      "undo the rollback" "tok-4" "own-5" s8 = Ok (4, r, v, s9)) by (vm_compute; eauto).
  destruct H8 as (a & v & H8), H9 as (b & w & H9).
  exists s8, s9, a, b, v, w. split; [exact H8|]. split; [exact H9|].
  destruct (rollback_twice_restores demo_env s7 s8 s9 2 3 4 _ _ _ _ _ _ _ _ _ _ _ _ _ _ _ _ _ _ _ _ _ _ _ _
              reach_s7 H8 H9) as (mo & target & h & _ & _ & _ & _ & _ & _ & Hl & _).
  exists mo. exact Hl.
Defined.

Lemma validated_report_fits_stage_witness :
  ∃ row, stage_of month (sale 1 "S1" 2 1050) = Ok row ∧ row_fits row = true.
Proof.
  assert (∃ row, stage_of month (sale 1 "S1" 2 1050) = Ok row) as [row H]
    by (vm_compute; eexists; reflexivity).
  exists row. split; [exact H|].
  apply (validated_report_fits_stage report1 month (sale 1 "S1" 2 1050) row);
    [vm_compute; reflexivity|by left|exact H].
Defined.

Lemma stale_worker_is_fenced_witness :
  ∃ msg, fail_sales_generation hash 2 (sec 23) "tok-2" "own-2" "late" s6
         = Err (SalesGenerationConflictError msg).
Proof.
  assert (is_Some (snaps s6 !! 2)) as [s Hs] by (vm_compute; eexists; reflexivity).
  assert (Hf : fenced "tok-2" "own-2" s = false)
    by (vm_compute in Hs; injection Hs as <-; vm_compute; reflexivity).
  destruct (stale_worker_is_fenced demo_env s6 2 "tok-2" "own-2" s (sec 23) Hs Hf) as (_ & H & _).
  apply H.
Defined.


End SalesDemo.
