(* ===== verification/Scenarios.v ===== *)
(** Target Calculator scenarios: [repositories/target_calculator_scenarios.py] over
    the tables of [db/schema_v2.sql] and migration 036, with the editing and
    finalization handlers of [services/target_calculator/service.py].

    Each repository call is one transaction: it returns the new database, or an
    error, and then the transaction is rolled back.  The advisory lock on the month
    and the [FOR UPDATE] on the scenario serialise the calls.  [now] is the clock of
    the transaction.  NUMERIC columns are integers in units of their last decimal;
    JSON arguments are the text that [json.dumps] makes of them, a falsy optional
    one being [None]. *)

From stdpp Require Import pretty.
From S2P Require Import Prelude Text Decimal.

Local Open Scope Z_scope.

Module Scenarios.

Inductive status := Draft | Finalized.
#[global] Instance status_eq : EqDecision status.
Proof. solve_decision. Defined.

Inductive error :=
| TargetScenarioFinalizedError
| TargetScenarioVersionConflict
| TargetScenarioAlgorithmMismatch
| NumericOverflow
| IntegerOverflow
| UniqueViolation
| ForeignKeyViolation
| CheckViolation
| LegacyMutationBlocked
| InvalidDecimal.

(** ** Tables *)

(** The columns of [target_scenarios] that a calculation writes. *)
Record header := Header {
  cohort_month : string;
  total_target : Z;
  min_floor : Z;
  previous_month_floor_pct : Z;
  calculation_method : string;
  source_months : string;
  warnings : string;
  calculation_params : string;
  rule_set_id : option string;
  rule_set_hash : option string;
  rule_set_snapshot : option string;
  calculation_input_sha256 : option string;
  profitability_input_sha256 : option string;
}.

Record scenario := Scenario {
  target_month : string;
  head : header;
  stat : status;
  revision : Z;
  created_at : Z;
  updated_at : Z;
  finalized_at : option Z;
}.

(** The columns of [target_scenario_rows] that a calculation writes. *)
Record proposal := Proposal {
  locatie : string;
  firma : string;
  regional : string;
  asm : string;
  calculated_weight : Z;
  floor_target : Z;
  cap_target : option Z;
  proposed_target : Z;
  is_floor_limited : bool;
  is_cap_limited : bool;
  history : string;
  calculation_details : string;
  profitability_snapshot : option string;
}.

Record row := Row {
  prop : proposal;
  final_target : option Z;
  note : option string;
  manager_override_target : option Z;
  manager_override_reason : option string;
  manager_override_actor : option string;
  manager_override_at : option Z;
  manager_override_revision : option Z;
  row_updated_at : Z;
}.

Record store_target := StoreTarget {
  target_value : Z;
  source_file : option string;
  target_created_at : Z;
}.

(** [target_scenario_rows] by scenario and store, [store_targets] by month and
    store: the primary keys of the two tables. *)
Record db := Db {
  stores : gset string;
  scenarios : gmap Z scenario;
  rows : gmap Z (gmap string row);
  store_targets : gmap string (gmap string store_target);
  next_id : Z;
}.

Definition empty_db (sites : gset string) : db := Db sites ∅ ∅ ∅ 1.

Definition rows_of (d : db) (id : Z) : gmap string row := default ∅ (rows d !! id).
Definition targets_of (d : db) (month : string) : gmap string store_target :=
  default ∅ (store_targets d !! month).

Definition with_scenario (id : Z) (s : scenario) (d : db) : db :=
  Db (stores d) (<[id := s]> (scenarios d)) (rows d) (store_targets d) (next_id d).
Definition with_rows (id : Z) (m : gmap string row) (d : db) : db :=
  Db (stores d) (scenarios d) (<[id := m]> (rows d)) (store_targets d) (next_id d).
Definition with_targets (month : string) (m : gmap string store_target) (d : db) : db :=
  Db (stores d) (scenarios d) (rows d) (<[month := m]> (store_targets d)) (next_id d).

(** ** Column types *)

(** A [Decimal] stored in a [NUMERIC(digits, scale)] column is rounded half away
    from zero and must fit. *)
Definition at_scale (scale : Z) (d : dec) : Z :=
  if - scale <=? dexp d then scaled d (- scale)
  else rdiv HALF_UP (coef d) (pow10 (- scale - dexp d)).
Definition numeric (digits scale : Z) (d : dec) : res error Z :=
  let z := at_scale scale d in
  if Z.abs z <? pow10 digits then Ok z else Err NumericOverflow.
Definition numeric_opt (digits scale : Z) (o : option dec) : res error (option Z) :=
  match o with
  | Some d => z ← numeric digits scale d; Ok (Some z)
  | None => Ok None
  end.

Definition int4_max : Z := 2147483647.
Definition int4 (z : Z) : res error Z := if z <=? int4_max then Ok z else Err IntegerOverflow.

(** [x IS NULL OR x ~ '^[0-9a-f]{64}$'] *)
Definition sha_check (o : option string) : bool :=
  match o with Some s => run_match is_hex 64 64 s | None => true end.
Definition header_check (h : header) : bool :=
  sha_check (rule_set_hash h) && sha_check (calculation_input_sha256 h)
  && sha_check (profitability_input_sha256 h).

(** ** Triggers of migration 036 *)

Definition RULESET_METHOD : string := "seasonal_blended_multiyear_v2_ruleset".

(** [target_calculator_block_legacy_v2_recalculation], before the method changes. *)
Definition block_recalculation (old new : header) : bool :=
  bool_decide (calculation_method old = RULESET_METHOD)
  && negb (bool_decide (calculation_method new = calculation_method old)).

(** [target_calculator_block_legacy_v2_mutation], before final target and note change. *)
Definition block_mutation (method : option string) (new : row) : bool :=
  bool_decide (method = Some RULESET_METHOD)
  && bool_decide (manager_override_revision new = None).

(** ** Saving a draft *)

Record scenario_in := ScenarioIn {
  in_target_month : string;
  in_cohort_month : string;
  in_total_target : dec;
  in_min_floor : dec;
  in_previous_month_floor_pct : dec;
  in_calculation_method : string;
  in_source_months : string;
  in_warnings : string;
  in_calculation_params : string;
  in_rule_set_id : option string;
  in_rule_set_hash : option string;
  in_rule_set_snapshot : option string;
  in_calculation_input_sha256 : option string;
  in_profitability_input_sha256 : option string;
}.

Record row_in := RowIn {
  in_site_code : string;
  in_locatie : string;
  in_firma : string;
  in_regional : string;
  in_asm : string;
  in_calculated_weight : dec;
  in_floor_target : dec;
  in_cap_target : option dec;
  in_proposed_target : dec;
  in_is_floor_limited : bool;
  in_is_cap_limited : bool;
  in_history : string;
  in_calculation_details : string;
  in_profitability_snapshot : option string;
}.

Definition header_of (s : scenario_in) : res error header :=
  total ← numeric 14 2 (in_total_target s);
  floor ← numeric 12 2 (in_min_floor s);
  pct ← numeric 7 4 (in_previous_month_floor_pct s);
  let h := Header (in_cohort_month s) total floor pct (in_calculation_method s)
    (in_source_months s) (in_warnings s) (in_calculation_params s) (in_rule_set_id s)
    (in_rule_set_hash s) (in_rule_set_snapshot s) (in_calculation_input_sha256 s)
    (in_profitability_input_sha256 s) in
  _ ← raise_if (negb (header_check h)) CheckViolation;
  Ok h.

Definition redraft (now rev : Z) (h : header) (s : scenario) : scenario :=
  Scenario (target_month s) h (stat s) rev (created_at s) now (finalized_at s).
Definition new_draft (now : Z) (month : string) (h : header) : scenario :=
  Scenario month h Draft 1 now now None.

Definition _update_existing_draft (now id : Z) (existing : scenario) (s : scenario_in)
    (expected_revision : option Z) (d : db) : res error (Z * db) :=
  _ ← raise_if (bool_decide (stat existing ≠ Draft)) TargetScenarioFinalizedError;
  _ ← raise_if (bool_decide (calculation_method (head existing) ≠ in_calculation_method s))
        TargetScenarioAlgorithmMismatch;
  _ ← raise_if (bool_decide (expected_revision ≠ Some (revision existing)))
        TargetScenarioVersionConflict;
  h ← header_of s;
  _ ← raise_if (block_recalculation (head existing) h) LegacyMutationBlocked;
  rev ← int4 (revision existing + 1);
  Ok (id, with_scenario id (redraft now rev h existing) d).

(** The scenario of a month: at most one by the unique index. *)
Definition month_scenario (d : db) (month : string) : option (Z * scenario) :=
  List.find (λ p, bool_decide (target_month p.2 = month)) (map_to_list (scenarios d)).

Definition _insert_draft (now : Z) (s : scenario_in) (expected_revision : option Z) (d : db)
    : res error (Z * db) :=
  _ ← raise_if (bool_decide (expected_revision ≠ None)) TargetScenarioVersionConflict;
  h ← header_of s;
  id ← int4 (next_id d);
  _ ← raise_if (bool_decide (is_Some (scenarios d !! id))) UniqueViolation;
  _ ← raise_if (bool_decide (is_Some (month_scenario d (in_target_month s)))) UniqueViolation;
  Ok (id, Db (stores d)
    (<[id := new_draft now (in_target_month s) h]> (scenarios d))
    (rows d) (store_targets d) (id + 1)).

Definition proposal_of (r : row_in) : res error proposal :=
  weight ← numeric 16 10 (in_calculated_weight r);
  floor ← numeric 12 2 (in_floor_target r);
  cap ← numeric_opt 12 2 (in_cap_target r);
  proposed ← numeric 12 2 (in_proposed_target r);
  Ok (Proposal (in_locatie r) (in_firma r) (in_regional r) (in_asm r) weight floor cap proposed
    (in_is_floor_limited r) (in_is_cap_limited r) (in_history r) (in_calculation_details r)
    (in_profitability_snapshot r)).

Definition fresh_row (now : Z) (p : proposal) : row :=
  Row p None None None None None None None now.

Definition insert_row (now : Z) (sites : gset string) (m : gmap string row) (r : row_in)
    : res error (gmap string row) :=
  p ← proposal_of r;
  _ ← raise_if (bool_decide (is_Some (m !! in_site_code r))) UniqueViolation;
  _ ← raise_if (bool_decide (in_site_code r ∉ sites)) ForeignKeyViolation;
  Ok (<[in_site_code r := fresh_row now p]> m).

(** [DELETE] of the rows of the scenario, then the [executemany] of the inserts. *)
Definition _replace_scenario_rows (now id : Z) (rs : list row_in) (d : db) : res error db :=
  m ← foldR (insert_row now (stores d)) ∅ rs;
  Ok (with_rows id m d).

Definition save_draft_scenario (now : Z) (s : scenario_in) (rs : list row_in)
    (expected_revision : option Z) (d : db) : res error (Z * db) :=
  saved ← match month_scenario d (in_target_month s) with
          | Some (id, existing) => _update_existing_draft now id existing s expected_revision d
          | None => _insert_draft now s expected_revision d
          end;
  d' ← _replace_scenario_rows now saved.1 rs saved.2;
  Ok (saved.1, d').

(** ** Final targets of the managers *)

Record final_in := FinalIn {
  f_site_code : string;
  f_final_target : option dec;
  f_note : option string;
  f_override_reason : option string;
}.

(** Python's [a or b] on optional strings. *)
Definition or_text (a b : option string) : option string :=
  match a with
  | Some s => if String.eqb s "" then b else a
  | None => b
  end.

(** [$3 IS DISTINCT FROM proposed_target]: the argument before it is rounded. *)
Definition is_override (target : option dec) (r : row) : bool :=
  match target with
  | Some t => negb (deqb t (cents (proposed_target (prop r))))
  | None => true
  end.

Definition final_row (now expected_revision : Z) (actor : option string) (f : final_in) (r : row)
    : res error row :=
  final ← numeric_opt 12 2 (f_final_target f);
  let text := or_text (f_override_reason f) (f_note f) in
  let over := is_override (f_final_target f) r in
  Ok (Row (prop r) final text
    (if over then final else None) (if over then text else None)
    (if over then actor else None) (if over then Some now else None)
    (Some (expected_revision + 1)) now).

Definition update_row (now expected_revision : Z) (actor method : option string)
    (m : gmap string row) (f : final_in) : res error (gmap string row) :=
  match m !! f_site_code f with
  | None => Ok m
  | Some r =>
      r' ← final_row now expected_revision actor f r;
      _ ← raise_if (block_mutation method r') LegacyMutationBlocked;
      Ok (<[f_site_code f := r']> m)
  end.

(** [SELECT COUNT(STAR) ... WHERE site_code = ANY(codes)] *)
Definition count_sites (m : gmap string row) (codes : list string) : Z :=
  Z.of_nat (length (List.filter (λ s, bool_decide (s ∈ codes)) (map_to_list m).*1)).

Definition touch (now rev : Z) (s : scenario) : scenario :=
  Scenario (target_month s) (head s) (stat s) rev (created_at s) now (finalized_at s).

Definition update_final_targets (now id : Z) (fs : list final_in) (expected_revision : Z)
    (actor : option string) (d : db) : res error (Z * db) :=
  if bool_decide (fs = []) then Ok (0, d) else
  match scenarios d !! id with
  | None => Ok (0, d)
  | Some s =>
      if bool_decide (stat s ≠ Draft) then Ok (0, d) else
      _ ← raise_if (negb (revision s =? expected_revision)) TargetScenarioVersionConflict;
      let existing := count_sites (rows_of d id) (f_site_code <$> fs) in
      if negb (existing =? Z.of_nat (length fs)) then Ok (existing, d) else
      m ← foldR (update_row now expected_revision actor (Some (calculation_method (head s))))
            (rows_of d id) fs;
      rev ← int4 (revision s + 1);
      Ok (existing, with_scenario id (touch now rev s) (with_rows id m d))
  end.

(** ** Finalization *)

Definition final_total (m : gmap string row) : Z :=
  sumZ ((λ r, default 0 (final_target r)) <$> (map_to_list m).*2).
Definition pending_count (m : gmap string row) : Z :=
  Z.of_nat (length (List.filter (λ r, bool_decide (final_target r = None)) (map_to_list m).*2)).

(** [Decimal(x).quantize(Decimal('0.01'))] of an amount read from the database. *)
Definition quantize_cents (z : Z) : res error dec :=
  match quantize prec28 HALF_EVEN (-2) (cents z) with Ok d => Ok d | Err _ => Err InvalidDecimal end.

Definition source_name (id : Z) : string := "target-calculator:" +:+ pretty id.

Definition publish (now id : Z) (m : gmap string row) (old : gmap string store_target)
    : gmap string store_target :=
  let kept := filter (λ st, is_Some (m !! st.1)) old in
  ((λ r, StoreTarget (default 0 (final_target r)) (Some (source_name id)) now) <$> m) ∪ kept.

Definition finalized_of (now rev : Z) (s : scenario) : scenario :=
  Scenario (target_month s) (head s) Finalized rev (created_at s) now (Some now).

Definition finalize_scenario (now id expected_revision : Z) (d : db) : res error (bool * db) :=
  match scenarios d !! id with
  | None => Ok (false, d)
  | Some s =>
      if bool_decide (stat s ≠ Draft) then Ok (false, d) else
      _ ← raise_if (negb (revision s =? expected_revision)) TargetScenarioVersionConflict;
      let m := rows_of d id in
      if 0 <? pending_count m then Ok (false, d) else
      final ← quantize_cents (final_total m);
      total ← quantize_cents (total_target (head s));
      if negb (deqb final total) then Ok (false, d) else
      rev ← int4 (revision s + 1);
      Ok (true, with_scenario id (finalized_of now rev s)
        (with_targets (target_month s) (publish now id m (targets_of d (target_month s))) d))
  end.

(** ** Reads *)

Definition row_cmp (a b : string * row) : bool :=
  lex_leb (cmp_on (λ x : string * row, regional (prop x.2)) String.compare)
    (lex_leb (cmp_on (λ x : string * row, locatie (prop x.2)) String.compare)
       (leb_on (λ x : string * row, x.1) String.leb)) a b.
Definition get_scenario_rows (d : db) (id : Z) : list (string * row) :=
  sorted_by row_cmp (map_to_list (rows_of d id)).

Definition get_scenario (d : db) (id : Z) : option scenario := scenarios d !! id.

Record summary := Summary {
  sum_id : Z;
  sum_scenario : scenario;
  store_count : Z;
  proposed_total : Z;
  sum_final_total : Z;
  pending_final_count : Z;
}.
Definition summarise (d : db) (p : Z * scenario) : summary :=
  let m := rows_of d p.1 in
  Summary p.1 p.2 (Z.of_nat (size m))
    (sumZ ((λ r, proposed_target (prop r)) <$> (map_to_list m).*2)) (final_total m) (pending_count m).
Definition newest_first (a b : summary) : bool :=
  created_at (sum_scenario b) <=? created_at (sum_scenario a).
Definition list_scenarios (d : db) (limit : nat) : list summary :=
  take limit (sorted_by newest_first (summarise d <$> map_to_list (scenarios d))).

End Scenarios.
