(* ===== verification/ScenarioService.v ===== *)
(** The editing and finalization handlers of the Target Calculator:
    [save_final_targets], [finalize] and the guards they use
    ([services/target_calculator/service.py], [editing.py], [scenarios.py],
    [finalization.py]), over the repository of [Scenarios], and the steps that the
    database takes.

    A handler reads the scenario before its transaction: [d0] is the database at that
    read and [d] the one its transaction finds.  [attach_profitability] is the check of
    the frozen profitability snapshot that ends every detail read: it can only raise.
    Amounts reach the handler as floats of at most 14 significant digits, which [str]
    prints back exactly, so they are compared here in cents. *)

From S2P Require Import Prelude Text Decimal Scenarios.

Local Open Scope Z_scope.

Module ScenarioService.
Import Scenarios.

Inductive http_error :=
| HTTPException (status_code : Z) (detail : string)
| Uncaught (e : error).

Definition CALCULATION_METHOD : string := "seasonal_blended_multiyear_v2_ruleset".

Definition is_editable_scenario (s : scenario) : bool := bool_decide (stat s = Draft).

(** [len({codes}) != len(rows)] *)
Definition duplicate_sites (fs : list final_in) : bool :=
  negb (Z.of_nat (size (list_to_set (f_site_code <$> fs) : gset string)) =? Z.of_nat (length fs)).

Definition detail : Type := scenario * list (string * row).

Definition detail_pending (dt : detail) : Z :=
  Z.of_nat (length (List.filter (λ r, bool_decide (final_target r.2 = None)) dt.2)).
Definition detail_total (dt : detail) : Z :=
  sumZ ((λ r, default 0 (final_target r.2)) <$> dt.2).

Definition finalization_error (dt : detail) : res http_error (option string) :=
  if bool_decide (calculation_method (head dt.1) ≠ CALCULATION_METHOD) then Ok (Some "formula_veche"%string)
  else if 0 <? detail_pending dt then Ok (Some "targete_incomplete"%string)
  else
    final ← lift_err Uncaught (quantize_cents (detail_total dt));
    total ← lift_err Uncaught (quantize_cents (total_target (head dt.1)));
    Ok (if negb (deqb final total) then Some "total_nealiniat"%string else None).

Definition messages (code : string) : option http_error :=
  if String.eqb code "formula_veche" then Some (HTTPException 409 "Scenariul a fost calculat cu o formula veche. Genereaza o propunere noua inainte de finalizare.")
  else if String.eqb code "targete_incomplete" then Some (HTTPException 400 "Toate locatiile trebuie sa aiba target final completat inainte de finalizare.")
  else if String.eqb code "total_nealiniat" then Some (HTTPException 400 "Totalul targetelor finale trebuie sa fie egal cu bugetul scenariului inainte de finalizare.")
  else None.

Section Handlers.
Context (attach_profitability : detail → res http_error ()).

Definition get_scenario_detail (d : db) (id : Z) : res http_error detail :=
  match get_scenario d id with
  | None => Err (HTTPException 404 "Scenariul de target nu exista.")
  | Some s =>
      let dt := (s, get_scenario_rows d id) in
      _ ← attach_profitability dt;
      Ok dt
  end.

(** [money(x)] of the Target Calculator. *)
Definition money (d : dec) : res http_error dec :=
  match quantize prec28 HALF_UP (-2) d with Ok x => Ok x | Err _ => Err (Uncaught InvalidDecimal) end.

(** A manager's change of a proposed target needs a reason. *)
Definition check_reason (dt : detail) (f : final_in) : res http_error () :=
  match list_to_map (M := gmap string row) dt.2 !! f_site_code f, f_final_target f with
  | Some r, Some t =>
      wanted ← money t;
      proposed ← money (cents (proposed_target (prop r)));
      raise_if (negb (deqb wanted proposed)
                && String.eqb (strip (default ""%string (or_text (f_override_reason f) (f_note f)))) "")
        (HTTPException 400 "Override-ul managerial necesita un motiv explicit.")
  | _, _ => Ok ()
  end.

Definition check_reasons (dt : detail) (fs : list final_in) : res http_error () :=
  foldR (λ _ f, check_reason dt f) () fs.

(** The handler's database after the call, and its response. *)
Definition save_final_targets (now id : Z) (fs : list final_in) (expected_revision : Z)
    (actor : option string) (d0 d : db) : db * res http_error detail :=
  let checked :=
    _ ← raise_if (duplicate_sites fs) (HTTPException 400 "Aceeasi locatie apare de mai multe ori in salvare.");
    match actor with
    | Some _ => current ← get_scenario_detail d0 id; check_reasons current fs
    | None => Ok ()
    end in
  match checked with
  | Err e => (d, Err e)
  | Ok _ =>
      match update_final_targets now id fs expected_revision actor d with
      | Err TargetScenarioVersionConflict => (d, Err (HTTPException 409 "Scenariul a fost modificat de alt utilizator. Reincarca datele inainte de salvare."))
      | Err e => (d, Err (Uncaught e))
      | Ok (updated, d') =>
          (d', if negb (updated =? Z.of_nat (length fs)) then
                 match get_scenario d' id with
                 | None => Err (HTTPException 404 "Scenariul de target nu exista.")
                 | Some s =>
                     if negb (is_editable_scenario s) then
                       Err (HTTPException 409 "Un scenariu finalizat nu mai poate fi editat.")
                     else Err (HTTPException 400 "Una sau mai multe locatii nu apartin scenariului.")
                 end
               else get_scenario_detail d' id)
      end
  end.

Definition finalize (now id expected_revision : Z) (d0 d : db) : db * res http_error detail :=
  let checked :=
    scenario ← get_scenario_detail d0 id;
    final_error ← finalization_error scenario;
    match final_error ≫= messages with Some e => Err e | None => Ok () end in
  match checked with
  | Err e => (d, Err e)
  | Ok _ =>
      match finalize_scenario now id expected_revision d with
      | Err TargetScenarioVersionConflict => (d, Err (HTTPException 409 "Scenariul a fost modificat de alt utilizator. Reincarca datele inainte de finalizare."))
      | Err e => (d, Err (Uncaught e))
      | Ok (finalized, d') =>
          (d', if finalized then get_scenario_detail d' id
               else Err (HTTPException 409 "Scenariul nu poate fi finalizat."))
      end
  end.
End Handlers.

(** ** The steps of the database *)

(** The repository's transactions with any arguments, an identifier lost to a rolled
    back transaction, a new store, and the target import that also writes
    [store_targets]. *)
Inductive step (d : db) : db → Prop :=
| step_save now s rs expected id d' :
    save_draft_scenario now s rs expected d = Ok (id, d') → step d d'
| step_update now id fs expected actor n d' :
    update_final_targets now id fs expected actor d = Ok (n, d') → step d d'
| step_finalize now id expected b d' :
    finalize_scenario now id expected d = Ok (b, d') → step d d'
| step_lost_id n : next_id d <= n →
    step d (Db (stores d) (scenarios d) (rows d) (store_targets d) n)
| step_store site :
    step d (Db ({[site]} ∪ stores d) (scenarios d) (rows d) (store_targets d) (next_id d))
| step_import month m : step d (with_targets month m d).

Definition steps : db → db → Prop := rtc step.
Definition reachable (d : db) : Prop := ∃ sites, steps (empty_db sites) d.

End ScenarioService.
