(* ===== verification/ScenarioSpec.v ===== *)
(** What the scenario repository and its handlers guarantee: one scenario per month,
    a finalized scenario that adds up to its budget and never changes again, revisions
    that pin the contents, and a publication of exactly the approved targets. *)

From S2P Require Import Prelude Text Decimal Scenarios ScenarioService.

Local Open Scope Z_scope.

Module ScenarioSpec.
Import Scenarios ScenarioService.

(** ** Columns and totals *)

Lemma quantize_cents_Ok z d : quantize_cents z = Ok d → d = cents z.
Proof.
  unfold quantize_cents. destruct (quantize _ _ _ _) eqn:H; [|done]. intros [= <-].
  by eapply quantize_cents_inv.
Qed.

Lemma int4_Ok z r : int4 z = Ok r ↔ r = z ∧ z <= int4_max.
Proof.
  unfold int4. destruct (Z.leb_spec z int4_max); split; [intros [= <-]|intros [-> _]|done|intros [? ?]];
    done || lia.
Qed.

Lemma pending_zero m :
  pending_count m = 0 ↔ ∀ site r, m !! site = Some r → is_Some (final_target r).
Proof.
  unfold pending_count. split.
  - intros H site r Hr. destruct (final_target r) as [z|] eqn:Hf; [by eexists|]. exfalso.
    assert (Hin : In r (List.filter (λ r, bool_decide (final_target r = None)) (map_to_list m).*2)).
    { apply filter_In. rewrite bool_decide_eq_true. split; [|done].
      apply list_elem_of_In, list_elem_of_fmap. exists (site, r).
      split; [done|]. by apply elem_of_map_to_list. }
    destruct (List.filter _ _); [done|cbn in H; lia].
  - intros H. rewrite filter_none; [done|]. apply Forall_fmap, Forall_forall.
    intros [site r] Hin%elem_of_map_to_list. cbn. apply bool_decide_eq_false.
    destruct (H _ _ Hin) as [z ->]. done.
Qed.

(** ** What the statements on rows change *)

Lemma insert_rows_stores now sites rs m m' :
  foldR (insert_row now sites) m rs = Ok m' →
  (∀ site, is_Some (m !! site) → site ∈ sites) → ∀ site, is_Some (m' !! site) → site ∈ sites.
Proof.
  revert m. induction rs as [|r rs IH]; intros m H Hm; cbn in H; inv_res; [done|].
  eapply IH; [done|]. intros site. unfold insert_row in Hv. inv_res. bool_prop.
  destruct (decide (site = in_site_code r)) as [->|Hne].
  - intros _. by apply dec_stable.
  - rewrite lookup_insert_ne by done. apply Hm.
Qed.

Lemma final_row_dom now rev actor method m f m' :
  update_row now rev actor method m f = Ok m' → ∀ site, is_Some (m' !! site) ↔ is_Some (m !! site).
Proof.
  unfold update_row. destruct (m !! f_site_code f) as [r|] eqn:Hr; intros H site; inv_res; [|done].
  destruct (decide (site = f_site_code f)) as [->|?].
  - rewrite lookup_insert_eq, Hr. split; by eexists.
  - by rewrite lookup_insert_ne.
Qed.

Lemma update_rows_dom now rev actor method fs m m' :
  foldR (update_row now rev actor method) m fs = Ok m' →
  ∀ site, is_Some (m' !! site) ↔ is_Some (m !! site).
Proof.
  revert m. induction fs as [|f fs IH]; intros m H site; cbn in H; inv_res; [done|].
  rewrite (IH _ H). by eapply final_row_dom.
Qed.

(** ** The transactions, inverted *)

Lemma month_scenario_Some d month id s :
  month_scenario d month = Some (id, s) → scenarios d !! id = Some s ∧ target_month s = month.
Proof.
  intros [Hin Hm%bool_decide_eq_true]%find_some. split; [|done].
  by apply elem_of_map_to_list, list_elem_of_In.
Qed.

Lemma month_scenario_None d month :
  month_scenario d month = None → ∀ id s, scenarios d !! id = Some s → target_month s ≠ month.
Proof.
  intros H id s Hs ?. apply elem_of_map_to_list, list_elem_of_In in Hs.
  apply (find_none _ _ H) in Hs. by apply bool_decide_eq_false in Hs.
Qed.

(** [moved d d' id s m]: only scenario [id] changed, to [s] with the rows [m]. *)
Record moved (d d' : db) (id : Z) (s : scenario) (m : gmap string row) : Prop := {
  moved_scen : scenarios d' = <[id := s]> (scenarios d);
  moved_rows j : rows_of d' j = if decide (j = id) then m else rows_of d j;
  moved_stores : stores d' = stores d;
  moved_id : next_id d <= next_id d';
}.

(** The scenario before and after an edit, and how the two compare. *)
Record edited (d : db) (id : Z) (s s' : scenario) (m : gmap string row) : Prop := {
  edited_old : scenarios d !! id = Some s;
  edited_draft : stat s = Draft;
  edited_month : target_month s' = target_month s;
  edited_rev : revision s' = revision s + 1;
  edited_int4 : revision s' <= int4_max;
  edited_rows site : is_Some (m !! site) → is_Some (rows_of d id !! site) ∨ site ∈ stores d;
  edited_method : calculation_method (head s') = calculation_method (head s);
  edited_budget : Z.abs (total_target (head s')) < pow10 14 ∨ head s' = head s;
  edited_stat : (stat s' = Draft ∧ finalized_at s' = finalized_at s) ∨
    (stat s' = Finalized ∧ is_Some (finalized_at s') ∧ m = rows_of d id ∧ pending_count m = 0
     ∧ head s' = head s ∧ final_total m = total_target (head s));
}.

Record created (d d' : db) (id : Z) (s : scenario) (m : gmap string row) : Prop := {
  created_new : id = next_id d;
  created_next : next_id d' = id + 1;
  created_none : scenarios d !! id = None;
  created_month : month_scenario d (target_month s) = None;
  created_draft : stat s = Draft ∧ finalized_at s = None ∧ revision s = 1;
  created_budget : Z.abs (total_target (head s)) < pow10 14;
  created_rows site : is_Some (m !! site) → site ∈ stores d;
}.

Lemma header_of_Ok s h :
  header_of s = Ok h →
  Z.abs (total_target h) < pow10 14 ∧ calculation_method h = in_calculation_method s.
Proof.
  unfold header_of. intros H. inv_res. cbn. split; [|done].
  unfold numeric in *. by destruct (Z.ltb_spec (Z.abs (at_scale 2 (in_total_target s))) (pow10 14)); inv_res.
Qed.

Lemma rows_of_with id m s d j :
  rows_of (with_rows id m (with_scenario id s d)) j = if decide (j = id) then m else rows_of d j.
Proof.
  unfold rows_of; cbn. case_decide; subst; [by rewrite lookup_insert_eq|by rewrite lookup_insert_ne].
Qed.

Lemma save_cases now s rs expected d id d' :
  save_draft_scenario now s rs expected d = Ok (id, d') →
  ∃ s' m, moved d d' id s' m ∧ store_targets d' = store_targets d ∧
    header_of s = Ok (head s') ∧ foldR (insert_row now (stores d)) ∅ rs = Ok m ∧
    target_month s' = in_target_month s ∧ stat s' = Draft ∧
    ((∃ s0, expected = Some (revision s0) ∧ edited d id s0 s' m) ∨
     (expected = None ∧ created d d' id s' m)).
Proof.
  unfold save_draft_scenario. intros H. inv_res. destruct v as [i d1]; cbn in *.
  unfold _replace_scenario_rows in Hv0. inv_res.
  assert (Hstores : stores d1 = stores d).
  { destruct (month_scenario d _) as [[j s0]|];
      unfold _update_existing_draft, _insert_draft in Hv; by inv_res. }
  rewrite Hstores in Hv1.
  assert (Hsites : ∀ site, is_Some (v !! site) → site ∈ stores d).
  { eapply insert_rows_stores; [done|]. intros k [x Hx]. by rewrite lookup_empty in Hx. }
  destruct (month_scenario d (in_target_month s)) as [[j s0]|] eqn:Hm.
  - apply month_scenario_Some in Hm as [Hs0 Hmonth].
    unfold _update_existing_draft in Hv. inv_res. bool_prop.
    match goal with H : int4 _ = Ok _ |- _ => apply int4_Ok in H as [-> Hmax] end.
    assert (stat s0 = Draft) as Hdraft by (by apply dec_stable).
    match goal with H : header_of s = Ok ?h |- _ =>
      destruct (header_of_Ok _ _ H) as [Hbudget Hmethod];
      exists (redraft now (revision s0 + 1) h s0), v end.
    split_and!; cbn; try done.
    + split; cbn; [done|intros k; apply rows_of_with|done|lia].
    + left. exists s0. split; [by apply dec_stable|].
      split; cbn; try done; try lia; auto. rewrite Hmethod. symmetry. by apply dec_stable.
  - unfold _insert_draft in Hv. inv_res. bool_prop.
    match goal with H : int4 _ = Ok _ |- _ => apply int4_Ok in H as [-> Hmax] end.
    match goal with H : header_of s = Ok ?h |- _ =>
      destruct (header_of_Ok _ _ H) as [Hbudget _];
      exists (new_draft now (in_target_month s) h), v end.
    split_and!; cbn; try done.
    + split; cbn; [done| |done|lia]. intros k. unfold rows_of; cbn.
      case_decide; subst; [by rewrite lookup_insert_eq|by rewrite lookup_insert_ne].
    + right. split; [by apply dec_stable|]. split; cbn; try done. by apply eq_None_not_Some.
Qed.

Lemma update_cases now id fs expected actor d n d' :
  update_final_targets now id fs expected actor d = Ok (n, d') →
  (d' = d ∧ (fs = [] ∨ n ≠ Z.of_nat (length fs))) ∨
  ∃ s m, moved d d' id (touch now (expected + 1) s) m ∧ store_targets d' = store_targets d ∧
    expected = revision s ∧ edited d id s (touch now (expected + 1) s) m ∧
    n = Z.of_nat (length fs) ∧ count_sites (rows_of d id) (f_site_code <$> fs) = n ∧
    foldR (update_row now expected actor (Some (calculation_method (head s)))) (rows_of d id) fs = Ok m.
Proof.
  unfold update_final_targets. case_bool_decide as Hfs; [intros [= <- <-]; left; split; [done|by left]|].
  assert (0 ≠ Z.of_nat (length fs)) as Hlen by (destruct fs; cbn; [done|lia]).
  destruct (scenarios d !! id) as [s|] eqn:Hs; [|intros [= <- <-]; left; auto].
  case_bool_decide as Hst; [intros [= <- <-]; left; auto|]. intros H. inv_res. bool_prop.
  destruct (Z.eqb_spec (count_sites (rows_of d id) (f_site_code <$> fs)) (Z.of_nat (length fs)))
    as [Hc|Hc]; cbn in H; [|injection H as <- <-; left; auto].
  inv_res. apply int4_Ok in Hv1 as [-> Hmax]. right. exists s, v0.
  split_and!; cbn; try done.
  - split; cbn; [done| |done|lia]. intros j. apply (rows_of_with id v0 _ d j).
  - split; cbn; try done; try lia; [|by right|by left].
    intros site Hin. left. by apply (update_rows_dom _ _ _ _ _ _ _ Hv0).
Qed.

Lemma finalize_cases now id expected d b d' :
  finalize_scenario now id expected d = Ok (b, d') →
  (b = false ∧ d' = d ∧ ∀ s, scenarios d !! id = Some s → stat s = Draft →
     expected = revision s ∧
     (0 < pending_count (rows_of d id) ∨ final_total (rows_of d id) ≠ total_target (head s))) ∨
  (b = true ∧ ∃ s, expected = revision s ∧ moved d d' id (finalized_of now (expected + 1) s) (rows_of d id) ∧
    edited d id s (finalized_of now (expected + 1) s) (rows_of d id) ∧
    store_targets d' = <[target_month s :=
      publish now id (rows_of d id) (targets_of d (target_month s))]> (store_targets d)).
Proof.
  unfold finalize_scenario.
  destruct (scenarios d !! id) as [s|] eqn:Hs; [|intros [= <- <-]; by left].
  case_bool_decide as Hst.
  { intros [= <- <-]. left. split_and!; [done..|]. by intros ? [= <-] ?. }
  intros H. inv_res. bool_prop.
  destruct (Z.ltb_spec 0 (pending_count (rows_of d id))) as [|Hp].
  { injection H as <- <-. left. split_and!; [done..|]. intros ? [= <-] _. auto. }
  inv_res. apply quantize_cents_Ok in Hv0 as ->, Hv1 as ->. rewrite deqb_cents in H.
  destruct (Z.eqb_spec (final_total (rows_of d id)) (total_target (head s))) as [Ht|]; cbn in H; last first.
  { injection H as <- <-. left. split_and!; [done..|]. intros ? [= <-] _. auto. }
  inv_res. apply int4_Ok in Hv0 as [-> Hmax]. right. split; [done|]. exists s.
  assert (pending_count (rows_of d id) = 0) by (unfold pending_count in *; lia).
  split_and!; cbn; try done.
  - split; cbn; [done| |done|lia]. intros j. unfold rows_of; cbn. case_decide; by subst.
  - split; cbn; try done; try lia; auto.
    right. split; [done|]. split; [by eexists|]. done.
Qed.

(** Every step leaves the scenarios alone, or edits or creates exactly one. *)
Lemma step_cases d d' :
  step d d' →
  (scenarios d' = scenarios d ∧ (∀ j, rows_of d' j = rows_of d j) ∧ stores d ⊆ stores d'
   ∧ next_id d <= next_id d') ∨
  ∃ id s' m, moved d d' id s' m ∧ ((∃ s, edited d id s s' m) ∨ created d d' id s' m).
Proof.
  intros [now s rs ex id d1 H|now id fs ex actor n d1 H|now id ex b d1 H|n Hn|site|month m].
  - right. apply save_cases in H as (s' & m & Hm & _ & _ & _ & _ & _ & [(s0 & _ & He)|[_ Hc]]);
      exists id, s', m; split; eauto.
  - apply update_cases in H as [[-> _]|(s & m & Hm & _ & _ & He & _)]; [left; done|].
    right. exists id; eauto 8.
  - apply finalize_cases in H as [(_ & -> & _)|(_ & s & _ & Hm & He & _)]; [left; done|].
    right. exists id; eauto 8.
  - by left.
  - left. split_and!; try done; cbn; set_solver.
  - by left.
Qed.

(** ** The invariant *)

Record inv (d : db) : Prop := {
  inv_month i j s t : scenarios d !! i = Some s → scenarios d !! j = Some t →
    target_month s = target_month t → i = j;
  inv_rows i site : is_Some (rows_of d i !! site) → is_Some (scenarios d !! i) ∧ site ∈ stores d;
  inv_final i s : scenarios d !! i = Some s → stat s = Finalized →
    pending_count (rows_of d i) = 0 ∧ final_total (rows_of d i) = total_target (head s);
  inv_stamp i s : scenarios d !! i = Some s → stat s = Finalized ↔ is_Some (finalized_at s);
  inv_id i s : scenarios d !! i = Some s → i < next_id d ∧ 1 <= revision s <= int4_max;
  inv_budget i s : scenarios d !! i = Some s → Z.abs (total_target (head s)) < pow10 14;
}.

Lemma scen_inv_empty sites : inv (empty_db sites).
Proof.
  split; cbn; intros *; rewrite ?lookup_empty; try done.
  unfold rows_of; cbn. rewrite lookup_empty; cbn. rewrite lookup_empty. by intros [].
Qed.

(** The moved scenario against the others. *)
Lemma moved_lookup d d' id s m i t :
  moved d d' id s m → scenarios d' !! i = Some t →
  (i = id ∧ t = s) ∨ (i ≠ id ∧ scenarios d !! i = Some t).
Proof.
  intros Hm. rewrite (moved_scen _ _ _ _ _ Hm). intros [[-> ->]|[]]%lookup_insert_Some; auto.
Qed.

Lemma inv_edited d d' id s s' m : inv d → moved d d' id s' m → edited d id s s' m → inv d'.
Proof.
  intros HI Hm He. pose proof (edited_old _ _ _ _ _ He) as Hs.
  pose proof (edited_rev _ _ _ _ _ He). pose proof (edited_int4 _ _ _ _ _ He).
  pose proof (inv_id _ HI _ _ Hs). pose proof (moved_id _ _ _ _ _ Hm).
  pose proof (edited_month _ _ _ _ _ He) as Hmonth.
  split.
  - intros i j a b Ha Hb Hab.
    apply (moved_lookup _ _ _ _ _ _ _ Hm) in Ha as [[-> ->]|[? Ha]], Hb as [[-> ->]|[? Hb]]; try done;
      eapply (inv_month _ HI); eauto; congruence.
  - intros i site. rewrite (moved_rows _ _ _ _ _ Hm), (moved_scen _ _ _ _ _ Hm), (moved_stores _ _ _ _ _ Hm).
    case_decide as Hi; [subst i; rewrite lookup_insert_eq|rewrite lookup_insert_ne by done; apply (inv_rows _ HI)].
    intros Hin. split; [by eexists|].
    destruct (edited_rows _ _ _ _ _ He _ Hin) as [Ho|]; [|done]. by eapply (inv_rows _ HI).
  - intros i t Ht Hf. rewrite (moved_rows _ _ _ _ _ Hm).
    apply (moved_lookup _ _ _ _ _ _ _ Hm) in Ht as [[-> ->]|[? Ht]].
    + rewrite decide_True by done.
      destruct (edited_stat _ _ _ _ _ He) as [[? _]|(_ & _ & _ & ? & -> & ?)]; [congruence|done].
    + rewrite decide_False by done. by apply (inv_final _ HI).
  - intros i t Ht. apply (moved_lookup _ _ _ _ _ _ _ Hm) in Ht as [[-> ->]|[? Ht]];
      [|by eapply (inv_stamp _ HI)].
    destruct (edited_stat _ _ _ _ _ He) as [[-> Hfa]|(-> & ? & _)]; [|done].
    rewrite Hfa, <- (inv_stamp _ HI _ _ Hs), (edited_draft _ _ _ _ _ He). done.
  - intros i t Ht. apply (moved_lookup _ _ _ _ _ _ _ Hm) in Ht as [[-> ->]|[? Ht]]; [lia|].
    destruct (inv_id _ HI _ _ Ht). lia.
  - intros i t Ht. apply (moved_lookup _ _ _ _ _ _ _ Hm) in Ht as [[-> ->]|[? Ht]];
      [|by eapply (inv_budget _ HI)].
    destruct (edited_budget _ _ _ _ _ He) as [? | ->]; [done|]. by apply (inv_budget _ HI _ _ Hs).
Qed.

Lemma inv_created d d' id s m : inv d → moved d d' id s m → created d d' id s m → inv d'.
Proof.
  intros HI Hm Hc. destruct (created_draft _ _ _ _ _ Hc) as (Hdraft & Hnone & Hrev).
  pose proof (month_scenario_None _ _ (created_month _ _ _ _ _ Hc)) as Hfresh.
  pose proof (created_new _ _ _ _ _ Hc). pose proof (created_next _ _ _ _ _ Hc).
  split.
  - intros i j a b Ha Hb Hab.
    apply (moved_lookup _ _ _ _ _ _ _ Hm) in Ha as [[-> ->]|[? Ha]], Hb as [[-> ->]|[? Hb]]; try done.
    + symmetry in Hab. by apply (Hfresh _ _ Hb) in Hab.
    + by apply (Hfresh _ _ Ha) in Hab.
    + by eapply (inv_month _ HI).
  - intros i site. rewrite (moved_rows _ _ _ _ _ Hm), (moved_scen _ _ _ _ _ Hm), (moved_stores _ _ _ _ _ Hm).
    case_decide as Hi; [subst i; rewrite lookup_insert_eq|rewrite lookup_insert_ne by done; apply (inv_rows _ HI)].
    intros Hin. split; [by eexists|]. by apply (created_rows _ _ _ _ _ Hc).
  - intros i t Ht Hf. apply (moved_lookup _ _ _ _ _ _ _ Hm) in Ht as [[-> ->]|[? Ht]]; [congruence|].
    rewrite (moved_rows _ _ _ _ _ Hm), decide_False by done. by apply (inv_final _ HI).
  - intros i t Ht. apply (moved_lookup _ _ _ _ _ _ _ Hm) in Ht as [[-> ->]|[? Ht]];
      [|by eapply (inv_stamp _ HI)].
    rewrite Hdraft, Hnone. split; [done|by intros []].
  - intros i t Ht. apply (moved_lookup _ _ _ _ _ _ _ Hm) in Ht as [[-> ->]|[? Ht]].
    + unfold int4_max. lia.
    + destruct (inv_id _ HI _ _ Ht). lia.
  - intros i t Ht. apply (moved_lookup _ _ _ _ _ _ _ Hm) in Ht as [[-> ->]|[? Ht]];
      [by eapply created_budget|by eapply (inv_budget _ HI)].
Qed.

Lemma inv_step d d' : inv d → step d d' → inv d'.
Proof.
  intros HI [(Hs & Hr & Hst & Hn)|(id & s & m & Hm & [[s0 He]|Hc])]%step_cases.
  - destruct HI as [H1 H2 H3 H4 H5 H6]. split; rewrite ?Hs; try done.
    + intros i site. rewrite Hr. intros [? ?]%H2. split; [done|]. by apply Hst.
    + intros i t Ht Hf. rewrite Hr. by apply H3.
    + intros i t Ht. destruct (H5 _ _ Ht). lia.
  - by eapply inv_edited.
  - by eapply inv_created.
Qed.

Lemma inv_reachable d : reachable d → inv d.
Proof.
  intros [sites H]. assert (H0 : inv (empty_db sites)) by apply scen_inv_empty. revert H0.
  unfold steps in H. induction H; eauto using inv_step.
Qed.

Lemma scen_steps_inv d d' : inv d → steps d d' → inv d'.
Proof. intros Hi H. unfold steps in H. induction H; eauto using inv_step. Qed.

(** ** What a run does to one scenario *)

(** [later d i s d'] compares the scenario [i] of [d], which is [s], with [d']. *)
Definition later (d : db) (i : Z) (s : scenario) (d' : db) : Prop :=
  ∃ s', scenarios d' !! i = Some s' ∧ target_month s' = target_month s ∧
    calculation_method (head s') = calculation_method (head s) ∧ revision s <= revision s' ∧
    (revision s' = revision s → s' = s ∧ rows_of d' i = rows_of d i) ∧
    (stat s = Finalized → s' = s ∧ rows_of d' i = rows_of d i).

Lemma later_step d d' i s : step d d' → scenarios d !! i = Some s → later d i s d'.
Proof.
  intros [(Hs & Hr & _)|(id & t & m & Hm & [[s0 He]|Hc])]%step_cases Hi.
  - exists s. rewrite Hs, Hr. by split_and!.
  - unfold later. rewrite (moved_scen _ _ _ _ _ Hm), (moved_rows _ _ _ _ _ Hm).
    destruct (decide (i = id)) as [->|Hne].
    + rewrite lookup_insert_eq. pose proof (edited_old _ _ _ _ _ He) as Ho. rewrite Hi in Ho.
      injection Ho as ->. exists t. pose proof (edited_rev _ _ _ _ _ He).
      split_and!; [done|by eapply edited_month|by eapply edited_method|lia|lia|].
      rewrite (edited_draft _ _ _ _ _ He). done.
    + rewrite lookup_insert_ne by done. exists s. by split_and!.
  - unfold later. rewrite (moved_scen _ _ _ _ _ Hm), (moved_rows _ _ _ _ _ Hm).
    pose proof (created_none _ _ _ _ _ Hc). destruct (decide (i = id)) as [->|Hne]; [congruence|].
    rewrite lookup_insert_ne by done. exists s. by split_and!.
Qed.

Lemma later_steps d d' i s : steps d d' → scenarios d !! i = Some s → later d i s d'.
Proof.
  intros H. revert s. unfold steps in H. induction H as [d|d d1 d' H1 _ IH]; intros s Hi.
  { exists s. by split_and!. }
  destruct (later_step _ _ _ _ H1 Hi) as (s1 & Hs1 & Hm1 & Hc1 & Hr1 & He1 & Hf1).
  destruct (IH _ Hs1) as (s2 & Hs2 & Hm2 & Hc2 & Hr2 & He2 & Hf2).
  exists s2. split_and!; [done|congruence|congruence|lia| |].
  - intros Heq. destruct He1 as [-> <-]; [lia|]. apply He2. lia.
  - intros Hfin. destruct (Hf1 Hfin) as [-> <-]. by apply Hf2.
Qed.

(** ** Totals of the published targets *)

Definition published_total (m : gmap string store_target) : Z :=
  sumZ (target_value <$> (map_to_list m).*2).

Lemma publish_lookup now id m old site :
  publish now id m old !! site =
  (λ r, StoreTarget (default 0 (final_target r)) (Some (source_name id)) now) <$> m !! site.
Proof.
  unfold publish. rewrite lookup_union, lookup_fmap. destruct (m !! site) as [r|] eqn:Hr; cbn.
  - by destruct (filter _ _ !! site).
  - destruct (filter _ old !! site) as [t|] eqn:Ht; [|done].
    apply map_lookup_filter_Some in Ht as [_ H]. cbn in H. rewrite Hr in H. by destruct H.
Qed.

Lemma publish_fmap now id m old :
  publish now id m old =
  (λ r, StoreTarget (default 0 (final_target r)) (Some (source_name id)) now) <$> m.
Proof. apply map_eq. intros site. by rewrite publish_lookup, lookup_fmap. Qed.

Lemma publish_total now id m old : published_total (publish now id m old) = final_total m.
Proof.
  rewrite publish_fmap. unfold published_total, final_total. rewrite map_to_list_fmap.
  rewrite <- !list_fmap_compose. f_equal.
Qed.

(** ** The rows of a manager's save *)

Lemma count_sites_all m codes :
  count_sites m codes = Z.of_nat (length codes) → NoDup codes ∧ ∀ s, s ∈ codes → is_Some (m !! s).
Proof.
  unfold count_sites. set (found := List.filter _ _). intros Hlen.
  assert (Hin : ∀ s, s ∈ found → s ∈ codes ∧ is_Some (m !! s)).
  { intros s [Hs Hc%bool_decide_eq_true]%list_elem_of_In%filter_In. split; [done|].
    apply list_elem_of_In, list_elem_of_fmap in Hs as ([k r] & -> & Hr%elem_of_map_to_list). by eexists. }
  assert (Hnd : NoDup found).
  { unfold found. rewrite <- (list_fmap_id (List.filter _ _)).
    apply NoDup_fmap_filter. rewrite list_fmap_id. apply NoDup_fst_map_to_list. }
  assert (Hperm : found ≡ₚ codes).
  { apply submseteq_length_Permutation; [apply NoDup_submseteq; [done|by intros s [? _]%Hin]|lia]. }
  split; [by rewrite <- Hperm|]. intros s Hs. rewrite <- Hperm in Hs. by apply Hin.
Qed.

Lemma update_row_other now rev actor method m f m' site :
  update_row now rev actor method m f = Ok m' → site ≠ f_site_code f → m' !! site = m !! site.
Proof.
  unfold update_row. destruct (m !! f_site_code f) as [r|]; intros H Hne; inv_res; [|done].
  by rewrite lookup_insert_ne.
Qed.

Lemma update_rows_other now rev actor method fs m m' site :
  foldR (update_row now rev actor method) m fs = Ok m' →
  site ∉ (f_site_code <$> fs) → m' !! site = m !! site.
Proof.
  revert m. induction fs as [|f fs IH]; intros m H Hs; cbn in *; inv_res; [done|].
  apply not_elem_of_cons in Hs as [Hne Hs]. rewrite (IH _ H Hs). by eapply update_row_other.
Qed.

Lemma update_rows_listed now rev actor method fs m m' f r :
  foldR (update_row now rev actor method) m fs = Ok m' → NoDup (f_site_code <$> fs) →
  f ∈ fs → m !! f_site_code f = Some r →
  ∃ r', final_row now rev actor f r = Ok r' ∧ m' !! f_site_code f = Some r'.
Proof.
  revert m. induction fs as [|g fs IH]; intros m H Hnd Hf Hr; cbn in *; [by apply elem_of_nil in Hf|].
  inv_res. apply NoDup_cons in Hnd as [Hg Hnd].
  apply elem_of_cons in Hf as [-> | Hf].
  - rewrite (update_rows_other _ _ _ _ _ _ _ _ H Hg). unfold update_row in Hv. rewrite Hr in Hv.
    inv_res. eexists. split; [done|]. by rewrite lookup_insert_eq.
  - apply (IH _ H Hnd Hf). rewrite <- Hr. eapply update_row_other; [done|].
    intros Heq. apply Hg. rewrite <- Heq. by apply list_elem_of_fmap_2.
Qed.

(** The row of a store after a manager's entry [f]. *)
Definition decided (now rev : Z) (actor : option string) (f : final_in) (r r' : row) : Prop :=
  prop r' = prop r ∧ note r' = or_text (f_override_reason f) (f_note f) ∧
  manager_override_revision r' = Some rev ∧
  match f_final_target f with
  | None => final_target r' = None ∧ manager_override_target r' = None
  | Some t =>
      final_target r' = Some (at_scale 2 t) ∧
      (t ≡ cents (proposed_target (prop r)) →
         manager_override_target r' = None ∧ manager_override_actor r' = None) ∧
      (¬ t ≡ cents (proposed_target (prop r)) →
         manager_override_target r' = Some (at_scale 2 t) ∧ manager_override_actor r' = actor ∧
         manager_override_reason r' = note r' ∧ manager_override_at r' = Some now)
  end.

Lemma final_row_decided now rev actor f r r' :
  final_row now rev actor f r = Ok r' → decided now (rev + 1) actor f r r'.
Proof.
  unfold final_row, decided, is_override. intros H. inv_res. cbn. split_and!; try done.
  destruct (f_final_target f) as [t|]; cbn in Hv; inv_res; [|done]. unfold numeric in *.
  destruct (Z.ltb_spec (Z.abs (at_scale 2 t)) (pow10 12)); inv_res. split; [done|].
  destruct (deqb t (cents (proposed_target (prop r)))) eqn:Hd; cbn.
  - apply deqb_val in Hd. by split.
  - split; [intros He; apply deqb_val in He; congruence|done].
Qed.

(** ** Properties *)

(** C34: in every reachable database a month has at most one scenario, every scenario row
    belongs to a scenario and to a known store, and a scenario is finalized exactly when
    it carries a finalization time; then no final target is missing and the final targets
    add up to the budget. *)
Theorem scenario_invariant d (Hd : reachable d) :
  (∀ i j s t, scenarios d !! i = Some s → scenarios d !! j = Some t →
     target_month s = target_month t → i = j) ∧
  (∀ i site r, rows_of d i !! site = Some r → is_Some (scenarios d !! i) ∧ site ∈ stores d) ∧
  (∀ i s, scenarios d !! i = Some s → (stat s = Finalized ↔ is_Some (finalized_at s)) ∧
     (stat s = Finalized →
        (∀ site r, rows_of d i !! site = Some r → is_Some (final_target r)) ∧
        final_total (rows_of d i) = total_target (head s))).
Proof.
  apply inv_reachable in Hd as HI. split_and!.
  - apply (inv_month _ HI).
  - intros i site r Hr. apply (inv_rows _ HI). by eexists.
  - intros i s Hs. split; [exact (inv_stamp _ HI _ _ Hs)|]. intros Hf.
    destruct (inv_final _ HI _ _ Hs Hf) as [Hp Ht]. split; [by apply pending_zero|done].
Qed.

(** The revision pins the contents.  Whatever calls run in between, a scenario found
    later has the same month and method and no smaller revision, and if its revision is
    the same then neither the scenario nor any of its rows changed. *)
Theorem revision_pins_contents d d' i s s'
    (Hsteps : steps d d') (Hs : scenarios d !! i = Some s) (Hs' : scenarios d' !! i = Some s') :
  target_month s' = target_month s ∧
  calculation_method (head s') = calculation_method (head s) ∧
  revision s <= revision s' ∧
  (revision s' = revision s → s' = s ∧ rows_of d' i = rows_of d i).
Proof.
  destruct (later_steps _ _ _ _ Hsteps Hs) as (t & Ht & Hm & Hc & Hr & He & _).
  rewrite Hs' in Ht. injection Ht as ->. done.
Qed.

(** A finalized scenario is final: no sequence of calls changes it or its rows, and
    every later attempt to recalculate its month raises and every edit is refused. *)
Theorem finalized_is_final d d' i s (Hd : reachable d) (Hsteps : steps d d')
    (Hs : scenarios d !! i = Some s) (Hf : stat s = Finalized) :
  scenarios d' !! i = Some s ∧ rows_of d' i = rows_of d i ∧
  (∀ now c rs expected, in_target_month c = target_month s →
     save_draft_scenario now c rs expected d' = Err TargetScenarioFinalizedError) ∧
  (∀ now fs expected actor, update_final_targets now i fs expected actor d' = Ok (0, d')) ∧
  (∀ now expected, finalize_scenario now i expected d' = Ok (false, d')).
Proof.
  destruct (later_steps _ _ _ _ Hsteps Hs) as (t & Ht & _ & _ & _ & _ & Hfin).
  destruct (Hfin Hf) as [-> Hrows]. apply inv_reachable in Hd as HI.
  pose proof (scen_steps_inv _ _ HI Hsteps) as HI'. split_and!; try done.
  - intros now c rs expected Hmonth. unfold save_draft_scenario.
    destruct (month_scenario d' (in_target_month c)) as [[j u]|] eqn:Hj.
    + apply month_scenario_Some in Hj as [Hu Hum].
      assert (j = i) as -> by (eapply (inv_month _ HI'); eauto; congruence).
      assert (u = s) as -> by congruence. unfold _update_existing_draft. by rewrite Hf.
    + by destruct (month_scenario_None _ _ Hj _ _ Ht).
  - intros now fs expected actor. unfold update_final_targets. case_bool_decide; [done|].
    by rewrite Ht, Hf.
  - intros now expected. unfold finalize_scenario. by rewrite Ht, Hf.
Qed.

(** What [finalize_scenario] does when it does not raise.  Either it publishes: the
    scenario was a draft at the expected revision, the targets of its month become
    exactly the final targets of its rows, their sum is the budget, no other month and no
    other scenario changes.  Or it changes nothing, because the scenario is missing, is
    not a draft, has a missing final target or misses its budget. *)
Theorem finalize_effect now id expected d b d'
    (Hrun : finalize_scenario now id expected d = Ok (b, d')) :
  if b then ∃ s, scenarios d !! id = Some s ∧ stat s = Draft ∧ revision s = expected ∧
    scenarios d' = <[id := finalized_of now (expected + 1) s]> (scenarios d) ∧
    (∀ i, rows_of d' i = rows_of d i) ∧
    (∀ site, is_Some (targets_of d' (target_month s) !! site) ↔ is_Some (rows_of d id !! site)) ∧
    (∀ site r, rows_of d id !! site = Some r → ∃ z, final_target r = Some z ∧
       targets_of d' (target_month s) !! site = Some (StoreTarget z (Some (source_name id)) now)) ∧
    published_total (targets_of d' (target_month s)) = total_target (head s) ∧
    (∀ month, month ≠ target_month s → targets_of d' month = targets_of d month)
  else d' = d ∧ ∀ s, scenarios d !! id = Some s → stat s = Draft →
    (∃ site r, rows_of d id !! site = Some r ∧ final_target r = None) ∨
    final_total (rows_of d id) ≠ total_target (head s).
Proof.
  apply finalize_cases in Hrun as [(-> & -> & Hno)|(-> & s & -> & Hm & He & Ht)].
  - split; [done|]. intros s Hs Hd. destruct (Hno s Hs Hd) as [_ [Hp|]]; [left|by right].
    assert (Hne : filter (λ x, final_target x.2 = None) (rows_of d id) ≠ (∅ : gmap string row)).
    { intros Hempty. apply (Z.lt_irrefl 0). replace 0 with (pending_count (rows_of d id)) at 2; [done|].
      apply pending_zero. intros site r Hr. destruct (final_target r) eqn:Hf; [by eexists|].
      assert (H : filter (λ x, final_target x.2 = None) (rows_of d id) !! site = Some r)
        by (by apply map_lookup_filter_Some).
      by rewrite Hempty, lookup_empty in H. }
    apply map_choose in Hne as (site & r & [Hr Hn]%map_lookup_filter_Some). eauto.
  - exists s. destruct (edited_stat _ _ _ _ _ He) as [[? _]|(_ & _ & _ & Hp & _ & Hsum)]; [done|].
    assert (Htg : targets_of d' (target_month s) =
      publish now id (rows_of d id) (targets_of d (target_month s))).
    { unfold targets_of at 1. by rewrite Ht, lookup_insert_eq. }
    split_and!; [by eapply edited_old|by eapply edited_draft|done|by eapply moved_scen| | | | |].
    + intros i. rewrite (moved_rows _ _ _ _ _ Hm). case_decide; by subst.
    + intros site. by rewrite Htg, publish_lookup, fmap_is_Some.
    + intros site r Hr. destruct (proj1 (pending_zero _) Hp _ _ Hr) as [z Hz]. exists z.
      split; [done|]. by rewrite Htg, publish_lookup, Hr; cbn; rewrite Hz.
    + by rewrite Htg, publish_total.
    + intros month Hne. unfold targets_of. by rewrite Ht, lookup_insert_ne.
Qed.

(** What [update_final_targets] does when it does not raise.  It records all the
    entries, or it changes nothing and returns a number other than that of the entries.
    When it records them the stores are distinct and belong to the draft, every entry is
    stored rounded to cents, marked as the manager's override exactly when it differs from
    the proposal, and the proposal, the other stores and the other scenarios stay. *)
Theorem update_final_effect now id fs expected actor d n d'
    (Hrun : update_final_targets now id fs expected actor d = Ok (n, d')) :
  (d' = d ∧ (fs = [] ∨ n ≠ Z.of_nat (length fs))) ∨
  (n = Z.of_nat (length fs) ∧ NoDup (f_site_code <$> fs) ∧ ∃ s,
     scenarios d !! id = Some s ∧ stat s = Draft ∧ revision s = expected ∧
     scenarios d' = <[id := touch now (expected + 1) s]> (scenarios d) ∧
     store_targets d' = store_targets d ∧
     (∀ i, i ≠ id → rows_of d' i = rows_of d i) ∧
     (∀ site, site ∉ (f_site_code <$> fs) → rows_of d' id !! site = rows_of d id !! site) ∧
     (∀ f, f ∈ fs → ∃ r r', rows_of d id !! f_site_code f = Some r ∧
        rows_of d' id !! f_site_code f = Some r' ∧ decided now (expected + 1) actor f r r')).
Proof.
  apply update_cases in Hrun as [?|(s & m & Hm & Ht & -> & He & -> & Hc & Hfold)]; [by left|right].
  destruct (count_sites_all _ _ (eq_trans Hc (f_equal Z.of_nat (eq_sym (length_fmap f_site_code fs)))))
    as [Hnd Hin].
  assert (Hrows : rows_of d' id = m) by (by rewrite (moved_rows _ _ _ _ _ Hm), decide_True).
  split_and!; try done. exists s.
  split_and!; [by eapply edited_old|by eapply edited_draft|done|by eapply moved_scen|done| | |].
  - intros i Hi. by rewrite (moved_rows _ _ _ _ _ Hm), decide_False.
  - intros site Hs. rewrite Hrows. by eapply update_rows_other.
  - intros f Hf. destruct (Hin (f_site_code f)) as [r Hr]; [by apply list_elem_of_fmap_2|].
    destruct (update_rows_listed _ _ _ _ _ _ _ _ _ Hfold Hnd Hf Hr) as (r' & Hr' & Hl).
    exists r, r'. rewrite Hrows. split_and!; [done..|by apply final_row_decided].
Qed.
End ScenarioSpec.
