(* ===== verification/ScenarioHandlers.v ===== *)
(** The handlers of the Target Calculator under concurrent editors: a stale revision
    changes nothing, of two editors of one revision the second is turned away, and a
    finalization whose check passed is not refused while the revision stands.  Then a run
    of a draft of two stores, the manager's entries and the finalization, with the
    witnesses of the scenario properties (Module ScenarioDemo). *)

From S2P Require Import Prelude Text Decimal Scenarios ScenarioService ScenarioSpec.

Local Open Scope Z_scope.

Module ScenarioHandlers.
Import Scenarios ScenarioService ScenarioSpec.

(** ** The detail read agrees with the totals of the repository *)

Lemma rows_snd d id : (get_scenario_rows d id).*2 ≡ₚ (map_to_list (rows_of d id)).*2.
Proof. unfold get_scenario_rows. by rewrite sorted_by_perm. Qed.

Lemma detail_total_eq d id s : detail_total (s, get_scenario_rows d id) = final_total (rows_of d id).
Proof.
  unfold detail_total, final_total; cbn. rewrite <- (rows_snd d id), <- list_fmap_compose. done.
Qed.

Lemma length_filter_fmap {A B} (f : A → B) (P : B → bool) l :
  length (List.filter P (f <$> l)) = length (List.filter (λ x, P (f x)) l).
Proof. induction l as [|x l IH]; cbn; [done|]. destruct (P (f x)); cbn; by rewrite IH. Qed.

Lemma filter_perm {A} (P : A → bool) l k : l ≡ₚ k → length (List.filter P l) = length (List.filter P k).
Proof. induction 1; cbn; repeat case_match; cbn; congruence. Qed.

Lemma detail_pending_eq d id s : detail_pending (s, get_scenario_rows d id) = pending_count (rows_of d id).
Proof.
  unfold detail_pending, pending_count; cbn. f_equal.
  rewrite <- (filter_perm _ _ _ (rows_snd d id)). by rewrite length_filter_fmap.
Qed.

Lemma quantize_cents_run z : Z.abs z < pow10 28 → quantize_cents z = Ok (cents z).
Proof. intros H. unfold quantize_cents. by rewrite Decimal.quantize_cents. Qed.

Section Handlers.
Context (attach_profitability : detail → res http_error ()).

Lemma detail_Ok d id dt :
  get_scenario_detail attach_profitability d id = Ok dt →
  scenarios d !! id = Some dt.1 ∧ dt = (dt.1, get_scenario_rows d id).
Proof.
  unfold get_scenario_detail, get_scenario. destruct (scenarios d !! id) as [s|]; [|done].
  intros H. by inv_res.
Qed.

(** A detail without a finalization error. *)
Lemma finalization_error_None d id s :
  finalization_error (s, get_scenario_rows d id) = Ok None →
  calculation_method (head s) = CALCULATION_METHOD ∧ pending_count (rows_of d id) = 0 ∧
  final_total (rows_of d id) = total_target (head s).
Proof.
  unfold finalization_error. rewrite detail_pending_eq, detail_total_eq. cbn.
  case_bool_decide as Hm; [done|].
  destruct (Z.ltb_spec 0 (pending_count (rows_of d id))); [done|]. intros Hno. apply bind_Ok in Hno as (f & Hf1 & Hno). apply bind_Ok in Hno as (g & Hg1 & Hno).
  destruct (quantize_cents (final_total _)) eqn:Hf; [|done].
  destruct (quantize_cents (total_target _)) eqn:Ht; [|done]. cbn in *. injection Hf1 as <-. injection Hg1 as <-.
  apply quantize_cents_Ok in Hf as ->, Ht as ->. rewrite deqb_cents in Hno.
  destruct (Z.eqb_spec (final_total (rows_of d id)) (total_target (head s))); [|done].
  split_and!; [done|unfold pending_count in *; lia|done].
Qed.

(** A stale revision changes nothing.  Once a scenario has moved past revision [e], no
    later edit or finalization made for [e] changes the database, and every recalculation
    of its month for [e] raises. *)
Theorem stale_revision_changes_nothing d d' id s e (Hd : reachable d)
    (Hsteps : steps d d') (Hs : scenarios d !! id = Some s) (He : e < revision s) :
  (∀ now fs actor n d2, update_final_targets now id fs e actor d' = Ok (n, d2) → d2 = d') ∧
  (∀ now b d2, finalize_scenario now id e d' = Ok (b, d2) → d2 = d') ∧
  (∀ now c rs, in_target_month c = target_month s →
     ∃ err, save_draft_scenario now c rs (Some e) d' = Err err) ∧
  (∀ now fs actor d0, (save_final_targets attach_profitability now id fs e actor d0 d').1 = d') ∧
  (∀ now d0, (finalize attach_profitability now id e d0 d').1 = d').
Proof.
  destruct (later_steps _ _ _ _ Hsteps Hs) as (t & Ht & Hm & _ & Hr & _).
  apply inv_reachable in Hd as HI. pose proof (scen_steps_inv _ _ HI Hsteps) as HI'.
  assert (Hu : ∀ now fs actor n d2,
    update_final_targets now id fs e actor d' = Ok (n, d2) → d2 = d').
  { intros now fs actor n d2 [[-> _]|(u & m & _ & _ & -> & Hed & _)]%update_cases; [done|].
    pose proof (edited_old _ _ _ _ _ Hed). assert (u = t) as -> by congruence. lia. }
  assert (Hf : ∀ now b d2, finalize_scenario now id e d' = Ok (b, d2) → d2 = d').
  { intros now b d2 [(_ & -> & _)|(_ & u & -> & _ & Hed & _)]%finalize_cases; [done|].
    pose proof (edited_old _ _ _ _ _ Hed). assert (u = t) as -> by congruence. lia. }
  split_and!; [done|done| | |].
  - intros now c rs Hc. destruct (save_draft_scenario _ _ _ _ _) as [[j d2]|err] eqn:Hsave; [|by eexists].
    exfalso. apply save_cases in Hsave as (u & m & _ & _ & _ & _ & Humonth & _ & [(s0 & [= Hs0] & Hed)|[? _]]);
      [|done].
    pose proof (edited_old _ _ _ _ _ Hed) as Ho. pose proof (edited_month _ _ _ _ _ Hed).
    assert (j = id) as -> by (eapply (inv_month _ HI'); eauto; congruence).
    assert (s0 = t) as -> by congruence. lia.
  - intros now fs actor d0. unfold save_final_targets. case_match; [|done].
    destruct (update_final_targets _ _ _ _ _ _) as [[n d2]|err] eqn:Hup; [by apply Hu in Hup|].
    by destruct err.
  - intros now d0. unfold finalize. case_match; [|done].
    destruct (finalize_scenario _ _ _ _) as [[b d2]|err] eqn:Hup; [by apply Hf in Hup|].
    by destruct err.
Qed.

(** No lost update.  When a manager's save went through, another save prepared on the
    same revision gets an error and changes nothing, whatever ran in between. *)
Theorem second_editor_turned_away d d1 d2 now id fs e actor n
    (Hd : reachable d) (Hfirst : update_final_targets now id fs e actor d = Ok (n, d1)) (Hne : d1 ≠ d)
    (Hsteps : steps d1 d2) now' fs' actor' d0 (Hfs : fs' ≠ []) :
  ∃ err, save_final_targets attach_profitability now' id fs' e actor' d0 d2 = (d2, Err err).
Proof.
  assert (Hd1 : reachable d1).
  { destruct Hd as [sites Hd]. exists sites. unfold steps in *. eapply rtc_r; [done|]. by eapply step_update. }
  apply update_cases in Hfirst as [[-> _]|(s & m & Hm & _ & -> & Hed & _)]; [done|].
  assert (Hs1 : scenarios d1 !! id = Some (touch now (revision s + 1) s)).
  { by rewrite (moved_scen _ _ _ _ _ Hm), lookup_insert_eq. }
  destruct (stale_revision_changes_nothing _ _ _ _ (revision s) Hd1 Hsteps Hs1 ltac:(cbn; lia))
    as (Hu & _ & _ & _ & _).
  unfold save_final_targets. case_match; [|by eexists].
  destruct (update_final_targets _ _ _ _ _ d2) as [[k d3]|err] eqn:Hup; [|by destruct err; eexists].
  pose proof (Hu _ _ _ _ _ Hup) as ->.
  assert (k ≠ Z.of_nat (length fs')) as Hk.
  { apply update_cases in Hup as [[_ [?|?]]|(u & v & Hmv & _ & _ & He & _)]; [done|done|].
    pose proof (edited_old _ _ _ _ _ He) as Ho. pose proof (edited_rev _ _ _ _ _ He).
    pose proof (moved_scen _ _ _ _ _ Hmv) as Hsc. rewrite Hsc, lookup_insert_eq in Ho.
    injection Ho as Ho. rewrite Ho in *. lia. }
  destruct (Z.eqb_spec k (Z.of_nat (length fs'))); [done|]. cbn.
  destruct (get_scenario d2 id) as [t|]; [|by eexists]. destruct (is_editable_scenario t); by eexists.
Qed.

(** The check before the transaction is worth what it says.  When the detail read at
    [d0] raised nothing and had no finalization error, and the transaction finds the
    expected revision of that same detail, then the finalization is accepted (the revision
    column has room), it publishes the targets and the response is the new detail. *)
Theorem checked_finalize_accepted d0 d now id expected dt s
    (Hd : reachable d0) (Hsteps : steps d0 d)
    (Hread : get_scenario_detail attach_profitability d0 id = Ok dt)
    (Hcheck : finalization_error dt = Ok None)
    (Hrev : revision dt.1 = expected) (Hs : scenarios d !! id = Some s)
    (Hsame : revision s = expected) (Hdraft : stat s = Draft) (Hroom : expected < int4_max) :
  calculation_method (head s) = CALCULATION_METHOD ∧
  ∃ d', finalize_scenario now id expected d = Ok (true, d') ∧
    finalize attach_profitability now id expected d0 d =
      (d', get_scenario_detail attach_profitability d' id) ∧
    scenarios d' !! id = Some (finalized_of now (expected + 1) s) ∧
    published_total (targets_of d' (target_month s)) = total_target (head s).
Proof.
  destruct (detail_Ok _ _ _ Hread) as [H0 Hdt]. destruct dt as [s0 rs]. cbn in *. injection Hdt as ->.
  destruct (later_steps _ _ _ _ Hsteps H0) as (t & Ht & _ & _ & _ & Hpin & _).
  assert (t = s) as -> by congruence. destruct Hpin as [-> Hrows]; [congruence|].
  destruct (finalization_error_None _ _ _ Hcheck) as (Hm & Hp & Hsum). split; [done|].
  apply inv_reachable in Hd as HI. pose proof (scen_steps_inv _ _ HI Hsteps) as HI'.
  pose proof (inv_budget _ HI' _ _ Hs) as Hb.
  assert (Hbig : pow10 14 < pow10 28) by (vm_compute; done).
  assert (Hrun : ∃ d', finalize_scenario now id expected d = Ok (true, d')).
  { unfold finalize_scenario. rewrite Hs, Hdraft, Hsame, Z.eqb_refl; cbn.
    rewrite Hrows, Hp, Hsum; cbn. rewrite quantize_cents_run by lia. cbn.
    rewrite deqb_cents, Z.eqb_refl; cbn. unfold int4.
    rewrite (proj2 (Z.leb_le _ _)) by lia. cbn. by eexists. }
  destruct Hrun as [d' Hrun]. exists d'. split; [done|].
  apply finalize_effect in Hrun as Heff.
  destruct Heff as (u & Hu & _ & _ & Hsc & _ & _ & _ & Hpub & _).
  assert (u = s0) as -> by congruence. split_and!; [|by rewrite Hsc, lookup_insert_eq|done].
  unfold finalize. rewrite Hread; cbn. rewrite Hcheck; cbn. by rewrite Hrun.
Qed.
End Handlers.

End ScenarioHandlers.

Module ScenarioDemo.
Local Open Scope string_scope.
Import Scenarios ScenarioService ScenarioSpec ScenarioHandlers.

Definition attach : detail → res http_error () := λ _, Ok ().

Definition plan : scenario_in :=
  ScenarioIn "2026-09" "2026-08" (Dec 300 0) (Dec 35000 0) (Dec 90 (-2)) RULESET_METHOD
    "[]" "[]" "{}" None None None None None.
Definition store (site : string) (proposed : dec) : row_in :=
  RowIn site "Mall" "SRL" "Sud" "ASM" (Dec 5 (-1)) (Dec 0 0) None proposed false false "[]" "{}" None.
Definition entry (site : string) (final : dec) : final_in :=
  FinalIn site (Some final) None (Some "renovation").

Definition plan_rows : list row_in := [store "A" (Dec 100 0); store "B" (Dec 200 0)].
Definition entries : list final_in := [entry "A" (Dec 12000 (-2)); entry "B" (Dec 180004 (-3))].

Definition after_save (r : res error (Z * db)) : db :=
  match r with Ok (_, d) => d | Err _ => empty_db ∅ end.
Definition after_finalize (r : res error (bool * db)) : db :=
  match r with Ok (_, d) => d | Err _ => empty_db ∅ end.

Definition sites : gset string := {["A"; "B"; "C"]}.
Definition s0 : db := Eval vm_compute in empty_db sites.
Definition s1 : db := Eval vm_compute in after_save (save_draft_scenario 10 plan plan_rows None s0).
Definition s2 : db := Eval vm_compute in after_save (update_final_targets 20 1 entries 1 (Some "m") s1).
Definition s3 : db := Eval vm_compute in after_finalize (finalize_scenario 30 1 2 s2).

Example run_save : save_draft_scenario 10 plan plan_rows None s0 = Ok (1, s1).
Proof. vm_compute. reflexivity. Qed.
Example run_update : update_final_targets 20 1 entries 1 (Some "m") s1 = Ok (2, s2).
Proof. vm_compute. reflexivity. Qed.
Example run_finalize : finalize_scenario 30 1 2 s2 = Ok (true, s3).
Proof. vm_compute. reflexivity. Qed.
Example run_partial :
  update_final_targets 20 1 [entry "A" (Dec 1 0); entry "Z" (Dec 1 0)] 1 None s1 = Ok (1, s1).
Proof. vm_compute. reflexivity. Qed.
Example published_A :
  targets_of s3 "2026-09" !! "A" = Some (StoreTarget 12000 (Some "target-calculator:1") 30).
Proof. vm_compute. reflexivity. Qed.

#[local] Opaque save_draft_scenario update_final_targets finalize_scenario.

Lemma planned_s0 : reachable s0.
Proof. exists sites. unfold steps. apply rtc_refl. Qed.

Lemma reach_by d d' : reachable d → step d d' → reachable d'.
Proof. intros [ss H] Hs. exists ss. unfold steps in *. by eapply rtc_r. Qed.

Lemma step_s1 : step s0 s1.
Proof. eapply step_save. exact run_save. Qed.
Lemma step_s2 : step s1 s2.
Proof. eapply step_update. exact run_update. Qed.
Lemma step_s3 : step s2 s3.
Proof. eapply step_finalize. exact run_finalize. Qed.

Lemma planned_s1 : reachable s1.
Proof. apply (reach_by _ _ planned_s0 step_s1). Qed.
Lemma planned_s2 : reachable s2.
Proof. apply (reach_by _ _ planned_s1 step_s2). Qed.
Lemma planned_s3 : reachable s3.
Proof. apply (reach_by _ _ planned_s2 step_s3). Qed.

Lemma steps_one d d' : step d d' → steps d d'.
Proof. apply rtc_once. Qed.

(** ** Witnesses *)

Lemma scenario_invariant_witness :
  ∃ s, scenarios s3 !! 1 = Some s ∧ stat s = Finalized ∧ final_total (rows_of s3 1) = 30000.
Proof.
  assert (∃ s, scenarios s3 !! 1 = Some s ∧ stat s = Finalized ∧ total_target (head s) = 30000)
    as (s & Hs & Hf & Ht) by (eexists; vm_compute; done).
  exists s. split; [exact Hs|]. split; [exact Hf|].
  destruct (scenario_invariant s3 planned_s3) as (_ & _ & H). rewrite <- Ht.
  exact (proj2 (proj2 (H 1 s Hs) Hf)).
Defined.

Lemma revision_pins_contents_witness :
  ∃ s s', scenarios s1 !! 1 = Some s ∧ scenarios s3 !! 1 = Some s' ∧ revision s <= revision s'.
Proof.
  assert (is_Some (scenarios s1 !! 1)) as [s Hs] by (vm_compute; eexists; reflexivity).
  assert (is_Some (scenarios s3 !! 1)) as [s' Hs'] by (vm_compute; eexists; reflexivity).
  exists s, s'. split; [exact Hs|]. split; [exact Hs'|].
  apply (revision_pins_contents s1 s3 1 s s'); [|exact Hs|exact Hs'].
  unfold steps. eapply rtc_l; [exact step_s2|apply rtc_once, step_s3].
Defined.

Lemma finalized_is_final_witness :
  save_draft_scenario 40 plan plan_rows (Some 3) s3 = Err TargetScenarioFinalizedError.
Proof.
  assert (∃ s, scenarios s3 !! 1 = Some s ∧ stat s = Finalized ∧ target_month s = "2026-09")
    as (s & Hs & Hf & Ht) by (eexists; vm_compute; done).
  destruct (finalized_is_final s3 s3 1 s planned_s3 (rtc_refl _ _) Hs Hf) as (_ & _ & H & _).
  apply H. rewrite Ht. reflexivity.
Defined.

Lemma finalize_effect_witness :
  ∃ s, scenarios s2 !! 1 = Some s ∧ published_total (targets_of s3 (target_month s)) = total_target (head s).
Proof.
  destruct (finalize_effect 30 1 2 s2 true s3 run_finalize) as (s & Hs & _ & _ & _ & _ & _ & _ & Hp & _).
  exists s. split; [exact Hs|exact Hp].
Defined.

Lemma update_final_effect_witness : NoDup (f_site_code <$> entries).
Proof.
  destruct (update_final_effect 20 1 entries 1 (Some "m") s1 2 s2 run_update) as [[_ [H|H]]|(_ & H & _)].
  - discriminate H.
  - exfalso. apply H. reflexivity.
  - exact H.
Defined.

Lemma stale_revision_changes_nothing_witness :
  (finalize attach 50 1 1 s2 s2).1 = s2.
Proof.
  assert (∃ s, scenarios s2 !! 1 = Some s ∧ revision s = 2) as (s & Hs & Hr) by (eexists; vm_compute; done).
  assert (Hlt : 1 < revision s) by (rewrite Hr; lia).
  destruct (stale_revision_changes_nothing attach s2 s2 1 s 1 planned_s2 (rtc_refl _ _) Hs Hlt)
    as (_ & _ & _ & _ & H).
  apply H.
Defined.

Lemma second_editor_turned_away_witness :
  ∃ err, save_final_targets attach 60 1 [entry "A" (Dec 110 0)] 1 (Some "n") s1 s2 = (s2, Err err).
Proof.
  assert (Hne : s2 ≠ s1) by (intros H; apply (f_equal (λ d, revision <$> scenarios d !! 1)) in H;
    vm_compute in H; discriminate H).
  exact (second_editor_turned_away attach s1 s2 s2 20 1 entries 1 (Some "m") 2 planned_s1 run_update Hne
    (rtc_refl _ _) 60 [entry "A" (Dec 110 0)] (Some "n") s1 ltac:(discriminate)).
Defined.

Lemma checked_finalize_accepted_witness :
  ∃ d', finalize_scenario 30 1 2 s2 = Ok (true, d').
Proof.
  assert (∃ s, scenarios s2 !! 1 = Some s ∧ revision s = 2 ∧ stat s = Draft)
    as (s & Hs & Hr & Hd) by (eexists; vm_compute; done).
  assert (Hread : get_scenario_detail attach s2 1 = Ok (s, get_scenario_rows s2 1)).
  { unfold get_scenario_detail, get_scenario. rewrite Hs. reflexivity. }
  assert (Hcheck : finalization_error (s, get_scenario_rows s2 1) = Ok None).
  { vm_compute in Hs. injection Hs as <-. vm_compute. reflexivity. }
  assert (Hroom : 2 < int4_max) by reflexivity.
  destruct (checked_finalize_accepted attach s2 s2 30 1 2 _ s planned_s2 (rtc_refl _ _) Hread Hcheck Hr Hs
    Hr Hd Hroom) as (_ & d' & H & _).
  exists d'. exact H.
Defined.

End ScenarioDemo.
