(* ===== verification/TargetProposal.v ===== *)
(** A Target proposal from the request to the saved draft
    ([services/target_calculator/proposal.py], [proposal_rows.py], [seasonality.py],
    [rules.py]): the parameters, the scope, the metrics of the source months, the
    seasonal estimate of each store, the allocation of the budget and the draft.

    Months are texts [YYYY-MM].  The answers of the source queries, of the rule
    registry and of the profitability step are arguments, and so are the texts under
    which JSON documents are stored; floats of those documents are the decimals they
    were made from. *)

From S2P Require Import Prelude Text Decimal Dict Grile SalesText TargetAlloc Scenarios.

Local Open Scope Z_scope.

Module Proposal.

(** What the client is told with a 400 or a 409; what no handler catches. *)
Inductive refusal :=
| BadMonth | NoSales | CohortNotBefore | EmptyCohort | BadParameters
| NoRuleSet | BadRuleSet | BelowFloors (requested floors : dec) | AboveCaps (requested caps : dec) | Infeasible
| ForecastIncomplete | AlreadyFinalized | OtherAlgorithm | StaleRevision.
Definition status_of (r : refusal) : Z :=
  match r with
  | NoRuleSet | BadRuleSet | ForecastIncomplete | AlreadyFinalized | OtherAlgorithm | StaleRevision => 409
  | _ => 400
  end.
Inductive failure := Http (r : refusal) | Crash (e : alloc_error) | Database (e : Scenarios.error).

Abbreviation result := (res failure).
Definition refuse_if (b : bool) (r : refusal) : result () := raise_if b (Http r).

Abbreviation mul := (dmul prec28).
Abbreviation add := (dadd prec28).
Definition divide (a b : dec) : result dec := lift_err Crash (lift_dec (ddiv prec28 a b)).
Definition money (d : dec) : result dec := lift_err Crash (TargetAlloc.money d).
Definition total (l : list dec) : dec := dsum prec28 l.

(** [q.quantize(Decimal("0.0001"))] *)
Definition four_places (d : dec) : result dec := lift_err Crash (lift_dec (quantize prec28 HALF_EVEN (-4) d)).

(** A missing value through a function that may raise. *)
Definition opt_res {A B} (f : A → result B) (o : option A) : result (option B) :=
  match o with Some a => Some <$> f a | None => Ok None end.

(** ** Months and seasonality ([seasonality.py]) *)

Definition shift_month (month : string) (offset : Z) : result string :=
  match Grile.split_dash (String.list_ascii_of_string month) with
  | Some (y, m) =>
      match Grile.py_int y, Grile.py_int m with
      | Some y, Some m =>
          if (m <? 1) || (12 <? m) then Err (Http BadMonth)
          else
            let index := y * 12 + m - 1 + offset in
            Ok (SalesText.pad 4 (SalesText.int_text (index / 12)) +:+ "-"
                +:+ SalesText.pad 2 (SalesText.int_text (index mod 12 + 1)))
      | _, _ => Err (Http BadMonth)
      end
  | None => Err (Http BadMonth)
  end.

Definition DEFAULT_SEASONALITY_YEARS : Z := 3.
Definition MAX_SEASONALITY_YEARS : Z := 3.
Definition MIN_SEASONALITY_BASE : dec := of_int 10000.

Record pair := Pair { year_offset : Z; base_month : string; pair_month : string }.
Record source_month := SourceMonth { sm_month : string; sm_label : string; sm_role : string }.

Definition pair_of (target_month : string) (k : Z) : result pair :=
  b ← shift_month target_month (-1 - 12 * k);
  t ← shift_month target_month (-12 * k);
  Ok (Pair k b t).

Definition seasonality_pair_configuration (target_month : string) (years : Z) : result (list pair) :=
  mapR (pair_of target_month) (seqZ 1 (Z.max 1 (Z.min years MAX_SEASONALITY_YEARS))).

Definition months_of_pair (p : pair) : list source_month :=
  let y := SalesText.int_text (year_offset p) in
  [ SourceMonth (base_month p) ("Baza sezoniera Y-" +:+ y) ("seasonality_base_y" +:+ y);
    SourceMonth (pair_month p) ("Luna target Y-" +:+ y) ("seasonality_target_y" +:+ y) ].

Definition build_source_month_configuration (target_month : string) (pairs : list pair) : result (list source_month) :=
  current ← shift_month target_month (-1);
  Ok ((sorted_by (leb_on base_month String.leb) pairs ≫= months_of_pair)
      ++ [SourceMonth current "Forecast luna curenta" "floor_reference"]).

Definition seasonal_year_weights (count : nat) : list dec :=
  match count with
  | O | S O => [of_int 1]
  | S (S O) => [Dec 70 (-2); Dec 30 (-2)]
  | _ => [Dec 50 (-2); Dec 30 (-2); Dec 20 (-2)]
  end.

Record year_detail := YearDetail {
  yd_offset : Z;
  yd_base_month : string;
  yd_target_month : string;
  yd_base : dec;
  yd_target : dec;
  yd_ratio : option dec;
}.

Abbreviation values := (list (string * dec)).

Definition year_ratio (by_month : values) (minimum : dec) (p : pair) : result (option dec * year_detail) :=
  b ← money (default d0 (dget (base_month p) by_month));
  t ← money (default d0 (dget (pair_month p) by_month));
  ratio ← (if dltb minimum b && dltb d0 t then Some <$> divide t b else Ok None);
  shown ← opt_res four_places ratio;
  Ok (ratio, YearDetail (year_offset p) (base_month p) (pair_month p) b t shown).

Definition weighted_ratio (pairs : list pair) (by_month : values) (minimum : dec)
    : result (option dec * list year_detail) :=
  years ← mapR (year_ratio by_month minimum) pairs;
  let usable := omap fst years in
  Ok (match usable with
      | [] => None
      | _ => Some (total (zip_with mul usable (seasonal_year_weights (length usable))))
      end, snd <$> years).

(** ** Rules ([rules.py]) *)

Definition realized_for_calculation (realized factor : dec) : result dec := money (mul realized factor).

(** [list(dict.fromkeys(l))] *)
Definition fromkeys {A} `{EqDecision A} (l : list A) : list A := (foldl (λ d x, dput x () d) [] l).*1.

Definition unique_months (months : list string) : list string := fromkeys months.

Definition clamp_decimal (value minimum maximum : dec) : dec := dmin (dmax value minimum) maximum.

Definition weighted_available (components : list (option dec * dec)) : result (option dec) :=
  let usable := omap (λ x, match x.1 with Some v => if dltb d0 x.2 then Some (v, x.2) else None | None => None end)
                  components in
  let weight := total usable.*2 in
  if dleb weight d0 then Ok None
  else parts ← mapR (λ x, divide (mul x.1 x.2) weight) usable; Ok (Some (total parts)).

(** ** Parameters and scope ([proposal.py]) *)

Record payload := Payload {
  p_target_month : string;
  p_total_target : dec;
  p_min_floor : option dec;
  p_floor_pct : option dec;
  p_cap_pct : option dec;
  p_trend_weight : option dec;
  p_seasonality_min : option dec;
  p_seasonality_max : option dec;
  p_trend_min : option dec;
  p_trend_max : option dec;
  p_seasonality_years : option Z;
  p_cohort_month : option string;
  p_expected_revision : option Z;
}.
Record parameters := Parameters {
  total_target : dec;
  min_floor : dec;
  floor_pct : dec;
  cap_pct : dec;
  trend_weight : dec;
  seasonality_min : dec;
  seasonality_max : dec;
  trend_min : dec;
  trend_max : dec;
}.

(** The defaults of [service.py]. *)
Definition DEFAULT_PARAMETERS : parameters :=
  Parameters d0 (of_int 35000) (Dec 90 (-2)) (Dec 170 (-2)) (Dec 10 (-2)) (Dec 70 (-2)) (Dec 170 (-2)) (Dec 95 (-2))
    (Dec 110 (-2)).

Definition normalize_proposal_parameters (p : payload) : res alloc_error (option parameters) :=
  t ← TargetAlloc.money (p_total_target p);
  f ← TargetAlloc.money (default (min_floor DEFAULT_PARAMETERS) (p_min_floor p));
  let x := Parameters t f
    (default (floor_pct DEFAULT_PARAMETERS) (p_floor_pct p)) (default (cap_pct DEFAULT_PARAMETERS) (p_cap_pct p))
    (default (trend_weight DEFAULT_PARAMETERS) (p_trend_weight p))
    (default (seasonality_min DEFAULT_PARAMETERS) (p_seasonality_min p))
    (default (seasonality_max DEFAULT_PARAMETERS) (p_seasonality_max p))
    (default (trend_min DEFAULT_PARAMETERS) (p_trend_min p)) (default (trend_max DEFAULT_PARAMETERS) (p_trend_max p)) in
  Ok (if dltb d0 t && dleb d0 f && dleb d0 (floor_pct x) && dltb d0 (cap_pct x)
         && dleb (floor_pct x) (cap_pct x) && dleb d0 (trend_weight x) && dltb d0 (seasonality_min x)
         && dleb (seasonality_min x) (seasonality_max x) && dltb d0 (trend_min x) && dleb (trend_min x) (trend_max x)
      then Some x else None).

Definition _proposal_parameters (p : payload) : result parameters :=
  match normalize_proposal_parameters p with
  | Ok (Some x) => Ok x
  | Ok None | Err _ => Err (Http BadParameters)
  end.

Record cohort_row := CohortRow { co_site : string; co_locatie : string; co_firma : string; co_regional : string; co_asm : string }.
Record metric_row := MetricRow { me_site : string; me_month : string; me_target : dec; me_realized : dec }.

(** The identity of a validated rule set, with its snapshot as text. *)
Record rule_set := RuleSet { rule_set_id : string; rules_hash : string; rules_snapshot : string }.

Record scope := Scope {
  target_month : string;
  cohort_month : string;
  seasonality_years : Z;
  source_pairs : list pair;
  source_months : list source_month;
  cohort : list cohort_row;
  rules : rule_set;
  params : parameters;
}.

Record source_metric := SourceMetric {
  target : dec;
  actual_realized : dec;
  realized : dec;
  forecast_factor : dec;
  is_forecast : bool;
}.
Record proposal_metrics := ProposalMetrics {
  months : list string;
  site_codes : list string;
  metric_map : list ((string * string) * source_metric);
  totals : list (string * (dec * dec));
  regional_month_values : list ((string * string) * dec);
  forecast_factors : list (string * dec);
  input_sha256 : string;
}.

Definition at_key {K V} `{EqDecision K} (k : K) (d : list (K * V)) : result V :=
  match dget k d with Some v => Ok v | None => Err (Crash KeyError) end.

Definition metric_of (factors : values) (r : metric_row) : result ((string * string) * source_metric) :=
  f ← at_key (me_month r) factors;
  actual ← money (me_realized r);
  estimated ← realized_for_calculation (me_realized r) f;
  Ok ((me_site r, me_month r), SourceMetric (me_target r) actual estimated f (dltb (of_int 1) f)).

(** [setdefault] of an empty metric. *)
Definition with_empty (factors : values) (d : list ((string * string) * source_metric)) (k : string * string)
    : result (list ((string * string) * source_metric)) :=
  match dget k d with
  | Some _ => Ok d
  | None => f ← at_key k.2 factors; Ok (dput k (SourceMetric d0 d0 d0 f (dltb (of_int 1) f)) d)
  end.

Definition total_of (get : source_metric → dec) (mm : list ((string * string) * source_metric)) (sites : list string)
    (month : string) : result dec :=
  ms ← mapR (λ s, at_key (s, month) mm) sites; Ok (total (get <$> ms)).

Definition _metric_aggregates (co : list cohort_row) (rows : list metric_row) (ms sites : list string) (factors : values)
    : result (list ((string * string) * source_metric) * list (string * (dec * dec)) * list ((string * string) * dec)) :=
  found ← mapR (metric_of factors) rows;
  mm ← foldR (with_empty factors) (foldl (λ d x, dput x.1 x.2 d) [] found)
         (sites ≫= λ s, (λ m, (s, m)) <$> ms);
  sums ← mapR (λ m, t ← total_of target mm sites m; r ← total_of realized mm sites m; Ok (m, (t, r))) ms;
  let regionals := sorted_by String.leb (remove_dups (co_regional <$> co)) in
  let site_regional := foldl (λ d x, dput (co_site x) (co_regional x) d) [] co in
  zones ← mapR (λ x, v ← total_of realized mm
                          (List.filter (λ s, bool_decide (dget s site_regional = Some x.1)) sites) x.2;
                     Ok (x, v))
            (regionals ≫= λ g, (λ m, (g, m)) <$> ms);
  Ok (mm, sums, zones).

Inductive warning := NoData (month : string) | Partial (month : string) (factor : dec) | MultiYear (years : Z) | Uniform.
#[global] Instance warning_eq : EqDecision warning.
Proof. solve_decision. Defined.

Definition month_warnings (m : proposal_metrics) (x : source_month) : result (list warning) :=
  t ← at_key (sm_month x) (totals m);
  f ← at_key (sm_month x) (forecast_factors m);
  Ok ((if deqb t.1 d0 && deqb t.2 d0 then [NoData (sm_month x)] else [])
      ++ (if dltb (of_int 1) f then [Partial (sm_month x) f] else [])).

Definition _source_warnings (s : scope) (m : proposal_metrics) : result (list warning) :=
  ws ← mapR (month_warnings m) (source_months s);
  Ok (concat ws ++ (if 1 <? seasonality_years s then [MultiYear (seasonality_years s)] else [])).

(** ** The row of a store ([proposal_rows.py]) *)

Record history_item := HistoryItem {
  h_month : source_month;
  h_target : dec;
  h_realized : dec;
  h_actual : dec;
  h_is_forecast : bool;
  h_factor : dec;
  h_attainment : option dec;
  h_weight : dec;
}.

Definition history_of (m : proposal_metrics) (site : string) (x : source_month) : result history_item :=
  k ← at_key (site, sm_month x) (metric_map m);
  t ← at_key (sm_month x) (totals m);
  a ← (if dltb d0 t.1 then (λ v, [v]) <$> divide (target k) t.1 else Ok []);
  b ← (if dltb d0 t.2 then (λ v, [v]) <$> divide (realized k) t.2 else Ok []);
  weight ← match a ++ b with [] => Ok d0 | shares => divide (total shares) (of_int (Z.of_nat (length shares))) end;
  attained ← (if dltb d0 (target k) then q ← divide (realized k) (target k); Ok (Some (mul q (of_int 100))) else Ok None);
  ht ← money (target k); hr ← money (realized k); ha ← money (actual_realized k);
  shown ← opt_res (λ v, lift_err Crash (lift_dec (quantize prec28 HALF_EVEN (-2) v))) attained;
  Ok (HistoryItem x ht hr ha (is_forecast k) (forecast_factor k) shown weight).

Record weights := Weights { w_store : dec; w_zone : dec; w_network : dec }.
Definition STRONG_SEASONALITY_WEIGHTS : weights := Weights (Dec 50 (-2)) (Dec 30 (-2)) (Dec 20 (-2)).
Definition WEAK_SEASONALITY_WEIGHTS : weights := Weights (Dec 30 (-2)) (Dec 40 (-2)) (Dec 30 (-2)).
Definition NEW_STORE_SEASONALITY_WEIGHTS : weights := Weights d0 (Dec 60 (-2)) (Dec 40 (-2)).

Record seasonality := Seasonality {
  store_factor : option dec;
  zone_factor : option dec;
  store_years : list year_detail;
  zone_years : list year_detail;
  last_year_store_factor : option dec;
  multiyear_store_factor : option dec;
  used_weights : weights;
  season_flags : list string;
  raw_blended : dec;
  factor : dec;
}.

Definition extreme (ratios : list dec) : bool :=
  match ratios with
  | [] => false
  | r :: l => dltb (foldl dmin r l) (Dec 50 (-2)) || dltb (Dec 200 (-2)) (foldl dmax r l)
  end.

(** The weights of the three factors, and why. *)
Definition season_weights (years : Z) (factor : option dec) (store_years : list year_detail) : weights * list string :=
  let usable := omap yd_ratio store_years in
  let '(w, flags) :=
    match factor with
    | None => (NEW_STORE_SEASONALITY_WEIGHTS, ["NEW_STORE"; "LOW_HISTORY"]%string)
    | Some _ =>
        if Nat.leb (length usable) 1 && (1 <? years) then (WEAK_SEASONALITY_WEIGHTS, ["LOW_HISTORY"%string])
        else if (1 <? years)
                && existsb (λ y, (yd_offset y =? 1) && bool_decide (yd_ratio y = None)) store_years
        then (WEAK_SEASONALITY_WEIGHTS, ["LOW_RECENT_HISTORY"%string])
        else (STRONG_SEASONALITY_WEIGHTS, [])
    end in
  if extreme usable then (WEAK_SEASONALITY_WEIGHTS, flags ++ ["EXTREME_SEASONALITY"%string]) else (w, flags).

Definition _seasonality_result (s : scope) (m : proposal_metrics) (site regional : string) (network : dec)
    : result seasonality :=
  store_values ← mapR (λ mo, k ← at_key (site, mo) (metric_map m); Ok (mo, realized k)) (months m);
  zone_values ← mapR (λ mo, v ← at_key (regional, mo) (regional_month_values m); Ok (mo, v)) (months m);
  st ← weighted_ratio (source_pairs s) store_values MIN_SEASONALITY_BASE;
  zo ← weighted_ratio (source_pairs s) zone_values d0;
  last ← weighted_ratio (take 1 (source_pairs s)) store_values MIN_SEASONALITY_BASE;
  let '(w, flags) := season_weights (seasonality_years s) st.1 st.2 in
  blended ← weighted_available [(st.1, w_store w); (zo.1, w_zone w); (Some network, w_network w)];
  let raw := default (of_int 1) blended in
  let used := clamp_decimal raw (seasonality_min (params s)) (seasonality_max (params s)) in
  Ok (Seasonality st.1 zo.1 st.2 zo.2 last.1 st.1 w
        (flags ++ (if deqb used raw then [] else ["SEASONALITY_CAPPED"%string])) raw used).

Record details := Details {
  dt_current_month : string;
  dt_current_forecast : dec;
  dt_season : seasonality;
  dt_network_years : list year_detail;
  dt_factors : list (option dec);
  dt_trend_base : string;
  dt_trend_ratio : option dec;
  dt_trend_raw : dec;
  dt_trend_used : dec;
  dt_raw_estimate : dec;
}.
Record calc_row := CalcRow {
  c_store : cohort_row;
  c_row : TargetAlloc.row;
  c_history : list history_item;
  c_details : details;
}.

Definition first_pair (s : scope) : result pair :=
  match source_pairs s with p :: _ => Ok p | [] => Err (Crash IndexError) end.

Definition _calculated_store_row (s : scope) (m : proposal_metrics) (network : dec) (network_years : list year_detail)
    (co : cohort_row) : result calc_row :=
  season ← _seasonality_result s m (co_site co) (co_regional co) network;
  current_month ← shift_month (target_month s) (-1);
  current ← at_key (co_site co, current_month) (metric_map m);
  base_pair ← first_pair s;
  trend_base ← at_key (co_site co, base_month base_pair) (metric_map m);
  trend_ratio ← (if dltb MIN_SEASONALITY_BASE (realized trend_base)
                 then Some <$> divide (realized current) (realized trend_base) else Ok None);
  let trend_raw := match trend_ratio with
                   | Some q => add (of_int 1) (mul (dsub prec28 q (of_int 1)) (trend_weight (params s)))
                   | None => of_int 1
                   end in
  let trend := clamp_decimal trend_raw (trend_min (params s)) (trend_max (params s)) in
  let flags := season_flags season ++ (if deqb trend trend_raw then [] else ["TREND_ADJUSTMENT_CAPPED"%string]) in
  raw_estimate ← money (mul (mul (realized current) (factor season)) trend);
  f ← money (mul (realized current) (floor_pct (params s)));
  let floor_target := dmax (min_floor (params s)) f in
  c ← money (mul (realized current) (cap_pct (params s)));
  let cap_target := dmax floor_target c in
  shown_current ← money (realized current);
  shown ← mapR (opt_res four_places)
            [store_factor season; zone_factor season; Some network; Some (raw_blended season); Some (factor season);
             last_year_store_factor season; multiyear_store_factor season];
  shown_ratio ← opt_res four_places trend_ratio;
  shown_raw ← four_places trend_raw;
  shown_trend ← four_places trend;
  history ← mapR (history_of m (co_site co)) (source_months s);
  Ok (CalcRow co (TargetAlloc.Row (co_site co) raw_estimate floor_target cap_target d0 false false Proportional flags)
        history
        (Details current_month shown_current season network_years shown (base_month base_pair) shown_ratio shown_raw
           shown_trend raw_estimate)).

Definition _calculated_rows (s : scope) (m : proposal_metrics) : result (list calc_row) :=
  network_values ← mapR (λ mo, t ← at_key mo (totals m); Ok (mo, t.2)) (months m);
  network ← weighted_ratio (source_pairs s) network_values d0;
  mapR (_calculated_store_row s m (default (of_int 1) network.1) network.2) (cohort s).

(** ** Allocation *)

Definition set_weight (w : dec) (fs : list string) (r : TargetAlloc.row) : TargetAlloc.row :=
  TargetAlloc.Row (site_code r) w (floor_target r) (cap_target r) (proposed_target r) (is_floor_limited r)
    (is_cap_limited r) (allocation_reason r) fs.

Definition with_row (r : TargetAlloc.row) (c : calc_row) : calc_row := CalcRow (c_store c) r (c_history c) (c_details c).

(** The shares of the stores, or equal ones. *)
Definition normalize_weights (rows : list TargetAlloc.row) : result (list TargetAlloc.row * list warning) :=
  let raw := total (calculated_weight <$> rows) in
  if deqb raw d0 then
    w ← divide (of_int 1) (of_int (Z.of_nat (length rows)));
    Ok ((λ r, set_weight w (flags r ++ ["LOW_HISTORY"%string]) r) <$> rows, [Uniform])
  else
    rs ← mapR (λ r, w ← divide (calculated_weight r) raw; Ok (set_weight w (flags r) r)) rows;
    Ok (rs, []).

Definition allocated_error (e : alloc_error) : failure :=
  match e with TargetBudgetInfeasible _ _ _ => Http Infeasible | e => Crash e end.

Definition _allocate_rows (rows : list calc_row) (budget : dec) : result (list calc_row * list warning) :=
  '(rs, ws) ← normalize_weights (c_row <$> rows);
  let floors := total (floor_target <$> rs) in
  let caps := total (cap_target <$> rs) in
  _ ← refuse_if (dltb budget floors) (BelowFloors budget floors);
  _ ← refuse_if (dltb caps budget) (AboveCaps budget caps);
  out ← lift_err allocated_error (allocate_with_bounds rs budget);
  Ok (zip_with with_row out rows, ws).

(** ** The whole calculation *)

Section Calculation.
(** Answers of the queries ([get_latest_sales_month], [get_active_cohort],
    [get_source_metrics]), the forecast factor of a month, the effective rule set with
    its validation against the cohort, and the profitability of the rows: its digest,
    its summary and a snapshot for each store. *)
Context (latest_sales_month : string → option string) (active_cohort : string → string → list cohort_row).
Context (source_metrics : list string → list string → list metric_row) (factor_of : string → dec).
Context (effective_rules : string → list cohort_row → result rule_set).
Context (profitability : scope → list calc_row → result (string * string * (string → string))).
(** The texts of the documents and the digest of the inputs. *)
Context (sha256_of : scope → list metric_row → values → string).
Context (months_text : list source_month → string) (warnings_text : list warning → string).
Context (params_text : scope → string → string) (history_text : list history_item → string).
Context (details_text : details → TargetAlloc.row → string).

Definition _proposal_scope (p : payload) : result scope :=
  let years := match p_seasonality_years p with
               | Some y => if y =? 0 then DEFAULT_SEASONALITY_YEARS else y
               | None => DEFAULT_SEASONALITY_YEARS
               end in
  let years := Z.max 1 (Z.min years MAX_SEASONALITY_YEARS) in
  pairs ← seasonality_pair_configuration (p_target_month p) years;
  sms ← build_source_month_configuration (p_target_month p) pairs;
  let chosen := Scenarios.or_text (p_cohort_month p) (latest_sales_month (p_target_month p)) in
  match chosen with
  | None | Some EmptyString => Err (Http NoSales)
  | Some cm =>
      _ ← refuse_if (String.leb (p_target_month p) cm) CohortNotBefore;
      let co := active_cohort cm (p_target_month p) in
      _ ← refuse_if (bool_decide (co = [])) EmptyCohort;
      x ← _proposal_parameters p;
      rs ← effective_rules (p_target_month p) co;
      Ok (Scope (p_target_month p) cm years pairs sms co rs x)
  end.

Definition _proposal_metrics (s : scope) : result proposal_metrics :=
  let ms := unique_months (sm_month <$> source_months s) in
  let sites := co_site <$> cohort s in
  let rows := source_metrics sites ms in
  let factors := (λ m, (m, factor_of m)) <$> ms in
  '(mm, sums, zones) ← _metric_aggregates (cohort s) rows ms sites factors;
  Ok (ProposalMetrics ms sites mm sums zones factors (sha256_of s rows factors)).

Definition row_in_of (snapshots : string → string) (c : calc_row) : Scenarios.row_in :=
  let r := c_row c in
  Scenarios.RowIn (site_code r) (co_locatie (c_store c)) (co_firma (c_store c)) (co_regional (c_store c)) (co_asm (c_store c))
    (calculated_weight r) (floor_target r) (Some (cap_target r)) (proposed_target r) (is_floor_limited r)
    (is_cap_limited r) (history_text (c_history c))
    (details_text (c_details c) (set_weight (calculated_weight r) (fromkeys (flags r)) r)) (Some (snapshots (site_code r))).

Definition scenario_of (s : scope) (m : proposal_metrics) (ws : list warning) (digest summary : string) : Scenarios.scenario_in :=
  Scenarios.ScenarioIn (target_month s) (cohort_month s) (total_target (params s)) (min_floor (params s)) (floor_pct (params s))
    Scenarios.RULESET_METHOD (months_text (source_months s)) (warnings_text ws) (params_text s summary)
    (Some (rule_set_id (rules s))) (Some (rules_hash (rules s))) (Some (rules_snapshot (rules s)))
    (Some (input_sha256 m)) (Some digest).

Definition saved_error (e : Scenarios.error) : failure :=
  match e with
  | Scenarios.TargetScenarioFinalizedError => Http AlreadyFinalized
  | Scenarios.TargetScenarioAlgorithmMismatch => Http OtherAlgorithm
  | Scenarios.TargetScenarioVersionConflict => Http StaleRevision
  | e => Database e
  end.

Definition _save_proposal (now : Z) (p : payload) (s : scope) (m : proposal_metrics) (rows : list calc_row)
    (ws : list warning) (profit : string * string * (string → string)) (d : Scenarios.db) : result (Z * Scenarios.db) :=
  lift_err saved_error
    (Scenarios.save_draft_scenario now (scenario_of s m ws profit.1.1 profit.1.2) (row_in_of profit.2 <$> rows)
       (p_expected_revision p) d).

Definition calculate_proposal (now : Z) (p : payload) (d : Scenarios.db) : result (Z * Scenarios.db) :=
  s ← _proposal_scope p;
  m ← _proposal_metrics s;
  ws ← _source_warnings s m;
  rows ← _calculated_rows s m;
  '(allocated, more) ← _allocate_rows rows (total_target (params s));
  profit ← profitability s allocated;
  _save_proposal now p s m allocated (fromkeys (ws ++ more)) profit d.
End Calculation.
End Proposal.
