(* ===== verification/TargetProposalSpec.v ===== *)
(** What the saved draft of a Target proposal guarantees: it holds one row for each
    store of the cohort, inside its floor and cap and above the minimum floor, and the
    proposed targets add up to the budget of the month. *)

From S2P Require Import Prelude Text Decimal Dict TargetAlloc TargetAllocSpec Scenarios ScenarioSpec TargetProposal.

Local Open Scope Z_scope.

Module ProposalSpec.
Import Proposal.

(** ** Amounts *)

Lemma lift_err_Ok {E F A} (g : E → F) (r : res E A) a : lift_err g r = Ok a → r = Ok a.
Proof. destruct r; cbn; [by intros [= ->]|done]. Qed.

(** Amounts in cents of at most 28 digits. *)
Definition is_money (d : dec) (z : Z) : Prop := d = cents z ∧ Z.abs z < pow10 28.

Lemma money_is d m : TargetAlloc.money d = Ok m → is_money m (coef m).
Proof. intros H. exact (money_Ok d m H). Qed.

Lemma proposal_money d m : Proposal.money d = Ok m → is_money m (coef m).
Proof. intros H%lift_err_Ok. by eapply money_is. Qed.

Lemma dmax_money a b x y : is_money a x → is_money b y → is_money (dmax a b) (Z.max x y).
Proof.
  intros [-> Hx] [-> Hy]. unfold dmax. rewrite dltb_cents.
  destruct (Z.ltb_spec x y); split; try (f_equal; lia); lia.
Qed.

Lemma money_exact z m : Z.abs z < pow10 28 → TargetAlloc.money (cents z) = Ok (cents m) → m = z.
Proof. intros Hz. rewrite money_cents by done. by intros [= ->]. Qed.

Lemma dleb_0_cents z : dleb d0 (cents z) = true → 0 <= z.
Proof.
  change (dleb d0 (cents z)) with (dleb (cents 0) (cents z)). rewrite dleb_cents. by intros ?%Z.leb_le.
Qed.

Lemma at_scale_cents z : Scenarios.at_scale 2 (cents z) = z.
Proof. exact (Z.mul_1_r z). Qed.

Lemma numeric_cents digits z n :
  Scenarios.numeric digits 2 (cents z) = Ok n → n = z ∧ Z.abs z < pow10 digits.
Proof.
  unfold Scenarios.numeric. rewrite at_scale_cents. destruct (Z.ltb_spec (Z.abs z) (pow10 digits)); [|done].
  by intros [= <-].
Qed.

(** ** The rows before the allocation *)

(** The bounds of a row for the minimum floor [b]. *)
Definition bounded (b : Z) (r : row) : Prop :=
  ∃ f c, is_money (floor_target r) f ∧ is_money (cap_target r) c ∧ b <= f <= c.

Lemma parameters_facts p x :
  _proposal_parameters p = Ok x →
  ∃ t b, is_money (total_target x) t ∧ 0 < t ∧ is_money (min_floor x) b ∧ 0 <= b.
Proof.
  unfold _proposal_parameters. destruct (normalize_proposal_parameters p) as [[y|]|] eqn:H; try done.
  intros [= ->]. unfold normalize_proposal_parameters in H. inv_res.
  apply money_is in Hv as [Hv ?]. apply money_is in Hv0 as [Hv0 ?].
  case_match eqn:Hc; [|done]. injection H as <-. cbn in Hc |- *.
  rewrite Hv, Hv0, dltb_0_cents in Hc.
  repeat match type of Hc with (_ && dleb d0 (cents _))%bool = true => fail 1 | _ => apply andb_true_iff in Hc as [Hc _] end.
  apply andb_true_iff in Hc as [Ht Hb%dleb_0_cents]. bool_prop.
  by exists (coef v), (coef v0).
Qed.

Section Rows.
Context (s : scope) (m : proposal_metrics).

Lemma store_row_bounded network years co c b :
  is_money (min_floor (params s)) b → _calculated_store_row s m network years co = Ok c →
  site_code (c_row c) = co_site co ∧ bounded b (c_row c).
Proof.
  intros Hb H. unfold _calculated_store_row in H. inv_res. cbn. split; [done|].
  repeat match goal with H : Proposal.money _ = Ok _ |- _ => apply proposal_money in H end.
  match goal with |- bounded _ (Row _ _ (dmax _ ?f) (dmax _ ?c) _ _ _ _ _) =>
    exists (Z.max b (coef f)), (Z.max (Z.max b (coef f)) (coef c)) end.
  cbn. split_and!; [by apply dmax_money|by repeat apply dmax_money|lia..].
Qed.

Lemma calculated_rows_bounded rows b :
  is_money (min_floor (params s)) b → _calculated_rows s m = Ok rows →
  (site_code ∘ c_row <$> rows) = co_site <$> cohort s ∧ Forall (bounded b) (c_row <$> rows).
Proof.
  intros Hb H. unfold _calculated_rows in H. inv_res. apply mapR_Ok in H.
  induction H as [|co c cos rows Hc _ [IH1 IH2]]; [by split; [|constructor]|].
  destruct (store_row_bounded _ _ _ _ _ Hb Hc) as [Hs Hbd].
  cbn. rewrite Hs, IH1. split; [done|]. by constructor.
Qed.
End Rows.

(** ** The allocation *)

Lemma normalize_weights_rows rows rs ws :
  normalize_weights rows = Ok (rs, ws) →
  Forall2 (λ r r', site_code r' = site_code r ∧ floor_target r' = floor_target r ∧ cap_target r' = cap_target r) rows rs.
Proof.
  unfold normalize_weights. intros H. case_match; inv_res.
  - apply Forall2_fmap_r. by apply Forall_Forall2_diag, Forall_true.
  - apply mapR_Ok in Hv. eapply Forall2_impl; [done|].
    intros r r' Hr. cbn in Hr. inv_res. done.
Qed.

(** A row inside its bounds, for the minimum floor [b]. *)
Definition placed (b : Z) (r : row) : Prop :=
  ∃ f c p, floor_target r = cents f ∧ cap_target r = cents c ∧ proposed_target r = cents p ∧ b <= f ∧ f <= p <= c.

Lemma allocated_placed b r r' : bounded b r → allocated r r' → placed b r'.
Proof.
  intros (f & c & [Hf Hf'] & [Hc Hc'] & Hb) (f1 & c1 & p & Hf1 & Hc1 & Hp & _ & _ & ? & ? & ?).
  rewrite Hf in Hf1. rewrite Hc in Hc1. apply money_exact in Hf1 as ->, Hc1 as ->; [|done..].
  exists f, c, p. split_and!; try done; lia.
Qed.

Lemma with_row_rows (rs : list row) rows :
  length rs = length rows → c_row <$> zip_with with_row rs rows = rs.
Proof. revert rows. induction rs as [|r rs IH]; intros [|c rows] H; cbn in *; [done..|]. f_equal. apply IH. lia. Qed.

Lemma allocate_rows_placed rows budget out ws b :
  _allocate_rows rows budget = Ok (out, ws) → rows ≠ [] → 0 <= b → Forall (bounded b) (c_row <$> rows) →
  (site_code ∘ c_row <$> out) = (site_code ∘ c_row <$> rows) ∧ Forall (placed b) (c_row <$> out)
  ∧ (sumZ (caps (c_row <$> out)) < pow10 28 →
     TargetAlloc.money budget = Ok (cents (sumZ (proposals (c_row <$> out))))).
Proof.
  intros H Hne Hb Hbd. unfold _allocate_rows in H. inv_res. destruct v as [rs ws0]. inv_res.
  unfold refuse_if in *. inv_res. apply lift_err_Ok in Hv2.
  apply normalize_weights_rows in Hv as Hw.
  assert (Hrs : Forall (bounded b) rs).
  { clear -Hw Hbd. induction Hw as [|r r' l l' (_ & Hf & Hc) _ IH]; [constructor|].
    inversion Hbd as [|? ? Hr Hl]; subst. constructor; [|by apply IH].
    unfold bounded. by rewrite Hf, Hc. }
  assert (Hlen : length rs = length rows) by (apply Forall2_length in Hw; by rewrite length_fmap in Hw).
  assert (Hrne : rs ≠ []) by (intros ->; by destruct rows).
  pose proof (allocate_with_bounds_allocated _ _ _ Hv2 Hrne) as HA.
  assert (Hout : c_row <$> zip_with with_row v1 rows = v1).
  { apply with_row_rows. rewrite <- (Forall2_length _ _ _ HA). done. }
  rewrite !(list_fmap_compose c_row site_code), !Hout.
  assert (HP : Forall (placed b) v1).
  { clear -HA Hrs. induction HA as [|r r' l l' Hr _ IH]; [constructor|]. inversion Hrs; subst.
    constructor; [by eapply allocated_placed|by apply IH]. }
  split_and!; [|done|].
  - transitivity (site_code <$> rs).
    + clear -HA. induction HA as [|r r' l l' (? & ? & ? & _ & _ & _ & Hs & _) _ IH]; [done|].
      cbn. by rewrite Hs, IH.
    + clear -Hw. induction Hw as [|r r' l l' [Hs _] _ IH]; [done|]. cbn. by rewrite Hs, IH.
  - apply (allocate_with_bounds_total _ _ _ Hv2 Hrne). unfold floors. apply Forall_fmap.
    eapply Forall_impl; [exact HP|]. intros r (f & c & p & Hf & _ & _ & ? & _). cbn. rewrite Hf; cbn. lia.
Qed.

(** ** The saved rows *)

Section Saved.
Import Scenarios.

Lemma insert_rows_list now sites rs rows :
  foldR (insert_row now sites) ∅ rs = Ok rows →
  ∃ ps, Forall2 (λ r p, proposal_of r = Ok p) rs ps
    ∧ map_to_list rows ≡ₚ zip (in_site_code <$> rs) (fresh_row now <$> ps).
Proof.
  apply (foldR_inv (λ done m, ∃ ps, Forall2 (λ r p, proposal_of r = Ok p) done ps
    ∧ map_to_list m ≡ₚ zip (in_site_code <$> done) (fresh_row now <$> ps))).
  - intros done r m m' (ps & Hps & Hm) H. unfold insert_row in H. inv_res. bool_prop.
    exists (ps ++ [v]). split; [by apply Forall2_app; [|by repeat constructor]|].
    rewrite map_to_list_insert by (by apply eq_None_not_Some).
    rewrite !fmap_app, zip_with_app, Hm; [apply Permutation_cons_append|].
    rewrite !length_fmap. by eapply Forall2_length.
  - exists []. by split; [constructor|rewrite map_to_list_empty].
Qed.

(** A saved row of [r], inside its bounds for the minimum floor [b]. *)
Definition stored (b : Z) (p : proposal) : Prop :=
  ∃ c, cap_target p = Some c ∧ b <= floor_target p <= proposed_target p ∧ proposed_target p <= c < pow10 12.

Definition proposed_sum (rows : gmap string row) : Z :=
  sumZ ((λ r, proposed_target (prop r)) <$> (map_to_list rows).*2).
End Saved.

Lemma placed_stored history_text details_text snapshots b c p :
  placed b (c_row c) → Scenarios.proposal_of (row_in_of history_text details_text snapshots c) = Ok p →
  stored b p ∧ Scenarios.proposed_target p = coef (proposed_target (c_row c))
  ∧ Scenarios.cap_target p = Some (coef (cap_target (c_row c))).
Proof.
  intros (f & k & q & Hf & Hk & Hq & Hb & Hbox) H. unfold Scenarios.proposal_of in H; cbn in H.
  rewrite Hf, Hk, Hq in *. inv_res.
  cbn in *. inv_res.
  repeat match goal with H : Scenarios.numeric 12 2 (cents _) = Ok _ |- _ => apply numeric_cents in H as [-> ?] end.
  cbn. split; [|done]. exists k. cbn. split; [done|]. lia.
Qed.

Lemma sumZ_below (B : Z) l : Forall (λ z, z <= B) l → sumZ l <= B * Z.of_nat (length l).
Proof. induction 1; cbn [sumZ length]; lia. Qed.

(** The saved rows of an allocation: each inside its bounds, together the budget. *)
Lemma saved_rows now sites history_text details_text snapshots budget b rows out ws m :
  foldR (Scenarios.insert_row now sites) ∅ (row_in_of history_text details_text snapshots <$> out) = Ok m →
  _allocate_rows rows budget = Ok (out, ws) → rows ≠ [] → 0 <= b → Forall (bounded b) (c_row <$> rows) →
  (map_to_list m).*1 ≡ₚ (site_code ∘ c_row <$> rows)
  ∧ (∀ site r, m !! site = Some r → stored b (Scenarios.prop r))
  ∧ (Z.of_nat (size m) < 10 ^ 16 → TargetAlloc.money budget = Ok (cents (proposed_sum m))).
Proof.
  intros Hm Ha Hne Hb Hbd. destruct (allocate_rows_placed _ _ _ _ _ Ha Hne Hb Hbd) as (Hsites & Hplaced & Htotal).
  destruct (insert_rows_list _ _ _ _ Hm) as (ps & Hps & Hperm).
  apply Forall2_fmap_l in Hps. apply Forall_fmap in Hplaced.
  assert (HF : Forall2 (λ c p, stored b p ∧ Scenarios.proposed_target p = coef (proposed_target (c_row c))
    ∧ Scenarios.cap_target p = Some (coef (cap_target (c_row c)))) out ps).
  { clear -Hps Hplaced. induction Hps as [|c p out ps Hp _ IH]; [constructor|]. inversion Hplaced; subst.
    constructor; [by eapply placed_stored|by apply IH]. }
  clear Hps Hplaced. pose proof (Forall2_length _ _ _ HF) as Hlen.
  split_and!.
  - rewrite Hperm, fst_zip, <- Hsites, <- list_fmap_compose; [done|]. rewrite !length_fmap. lia.
  - intros site r Hr%elem_of_map_to_list. rewrite Hperm in Hr.
    apply elem_of_zip_r, list_elem_of_fmap in Hr as (p & -> & Hp). cbn.
    apply list_elem_of_lookup in Hp as [i Hi]. by destruct (Forall2_lookup_r _ _ _ _ _ HF Hi) as (c & _ & ? & _).
  - intros Hsize. unfold proposed_sum. rewrite Hperm, snd_zip by (rewrite !length_fmap; lia).
    assert (Hn : Z.of_nat (length out) < 10 ^ 16).
    { rewrite <- length_map_to_list, Hperm, length_zip_with, !length_fmap in Hsize. lia. }
    rewrite Htotal.
    + do 2 f_equal. clear -HF. unfold proposals. induction HF as [|c p out ps (_ & Hp & _) _ IH]; [done|].
      cbn. rewrite Hp. f_equal. exact IH.
    + eapply Z.le_lt_trans; [apply (sumZ_below (pow10 12))|].
      * unfold caps. apply Forall_fmap, Forall_fmap. clear -HF.
        induction HF as [|c p out ps ((k & Hk & _ & _ & Hlt) & _ & Hc) _ IH]; constructor; [|done].
        rewrite Hk in Hc. injection Hc as Hc. cbn. lia.
      * unfold caps. rewrite !length_fmap. change (pow10 28) with (pow10 12 * 10 ^ 16). 
        apply Z.mul_lt_mono_pos_l; [done|lia].
Qed.

(** ** The proposal *)

Section Proposals.
Context (latest_sales_month : string → option string) (active_cohort : string → string → list cohort_row).
Context (source_metrics : list string → list string → list metric_row) (factor_of : string → dec).
Context (effective_rules : string → list cohort_row → result rule_set).
Context (profitability : scope → list calc_row → result (string * string * (string → string))).
Context (sha256_of : scope → list metric_row → values → string).
Context (months_text : list source_month → string) (warnings_text : list warning → string).
Context (params_text : scope → string → string) (history_text : list history_item → string).
Context (details_text : details → TargetAlloc.row → string).

Lemma scope_facts p s :
  _proposal_scope latest_sales_month active_cohort effective_rules p = Ok s →
  target_month s = p_target_month p ∧ String.leb (target_month s) (cohort_month s) = false
  ∧ cohort s = active_cohort (cohort_month s) (target_month s) ∧ cohort s ≠ []
  ∧ _proposal_parameters p = Ok (params s).
Proof.
  unfold _proposal_scope. intros H. inv_res.
  destruct (Scenarios.or_text _ _) as [[|c cm]|]; try done. unfold refuse_if in H. inv_res. bool_prop. by split_and!.
Qed.

Lemma header_facts s m ws digest summary h t b :
  Scenarios.header_of (scenario_of months_text warnings_text params_text s m ws digest summary) = Ok h →
  is_money (total_target (params s)) t → is_money (min_floor (params s)) b →
  Scenarios.total_target h = t ∧ Scenarios.min_floor h = b ∧ Scenarios.cohort_month h = cohort_month s.
Proof.
  intros H [Ht _] [Hb _]. unfold Scenarios.header_of in H; cbn in H. rewrite Ht, Hb in H. inv_res.
  repeat match goal with H : Scenarios.numeric _ 2 (cents _) = Ok _ |- _ => apply numeric_cents in H as [-> ?] end.
  done.
Qed.

(** C22: a saved proposal meets its budget. *)
Theorem proposal_meets_budget now p d id d' :
  calculate_proposal latest_sales_month active_cohort source_metrics factor_of effective_rules profitability
    sha256_of months_text warnings_text params_text history_text details_text now p d = Ok (id, d') →
  ∃ sc, Scenarios.scenarios d' = <[id := sc]> (Scenarios.scenarios d)
    ∧ Scenarios.store_targets d' = Scenarios.store_targets d
    ∧ (∀ j, j ≠ id → Scenarios.rows_of d' j = Scenarios.rows_of d j)
    ∧ Scenarios.stat sc = Scenarios.Draft ∧ Scenarios.target_month sc = p_target_month p
    ∧ String.leb (Scenarios.target_month sc) (Scenarios.cohort_month (Scenarios.head sc)) = false
    ∧ 0 < Scenarios.total_target (Scenarios.head sc) ∧ 0 <= Scenarios.min_floor (Scenarios.head sc)
    ∧ (map_to_list (Scenarios.rows_of d' id)).*1 ≡ₚ
        co_site <$> active_cohort (Scenarios.cohort_month (Scenarios.head sc)) (Scenarios.target_month sc)
    ∧ (∀ site r, Scenarios.rows_of d' id !! site = Some r →
         stored (Scenarios.min_floor (Scenarios.head sc)) (Scenarios.prop r))
    ∧ (Z.of_nat (size (Scenarios.rows_of d' id)) < 10 ^ 16 →
       proposed_sum (Scenarios.rows_of d' id) = Scenarios.total_target (Scenarios.head sc)).
Proof.
  intros H. unfold calculate_proposal in H. inv_res. destruct v3 as [out ws]. inv_res.
  apply lift_err_Ok, ScenarioSpec.save_cases in H
    as (sc & m & [Hscen Hrows _ _] & Hpub & Hhead & Hm & Hmonth & Hdraft & _).
  apply scope_facts in Hv as (Htm & Hlt & Hco & Hne & Hpar).
  destruct (parameters_facts _ _ Hpar) as (t & b & Ht & Htpos & Hb & Hbpos).
  destruct (calculated_rows_bounded _ _ _ _ Hb Hv2) as [Hsites Hbd].
  destruct (header_facts _ _ _ _ _ _ _ _ Hhead Ht Hb) as (Htot & Hfloor & Hcm).
  assert (Hv2ne : v2 ≠ []) by (intros ->; symmetry in Hsites; by apply fmap_nil_inv in Hsites).
  destruct (saved_rows _ _ _ _ _ _ _ _ _ _ _ Hm Hv3 Hv2ne Hbpos Hbd) as (Hdom & Hstored & Hsum).
  assert (Hid : Scenarios.rows_of d' id = m) by (by rewrite Hrows, decide_True).
  exists sc. cbn in Hmonth. rewrite Hid, Htot, Hfloor, Hcm, Hmonth, Htm in *.
  split_and!; try done.
  - intros j Hj. by rewrite Hrows, decide_False.
  - by rewrite Hdom, Hsites, Hco.
  - intros Hsize. apply Hsum in Hsize. destruct Ht as [Ht Hta]. rewrite Ht in Hsize. by apply money_exact in Hsize.
Qed.
End Proposals.
End ProposalSpec.

(** ** A proposal for three stores *)

Module ProposalDemo.
Import Proposal ProposalSpec.
Local Open Scope string_scope.

Definition hex64 : string := "0123456789abcdef0123456789abcdef0123456789abcdef0123456789abcdef".
Definition store (site regional : string) : cohort_row := CohortRow site "Mall" "SRL" regional "ASM".
Definition sold (site month : string) (lei : Z) : metric_row := MetricRow site month (of_int 60000) (of_int lei).

Definition latest (month : string) : option string := Some "2026-08".
Definition cohort_of (month before : string) : list cohort_row := [store "A" "Sud"; store "B" "Sud"; store "C" "Nord"].
(** C opened this year; the current month is known to the 20th of its 31 days. *)
Definition metrics_of (new_sales : Z) (sites months : list string) : list metric_row :=
  [sold "A" "2025-08" 50000; sold "A" "2025-09" 55000; sold "A" "2026-08" 40000;
   sold "B" "2025-08" 80000; sold "B" "2025-09" 60000; sold "B" "2026-08" 50000;
   sold "C" "2026-08" new_sales].
Definition factor (month : string) : dec := if decide (month = "2026-08") then Dec 155 (-2) else of_int 1.
Definition registry (month : string) (co : list cohort_row) : result rule_set := Ok (RuleSet "v1" hex64 "{}").
Definition costs (s : scope) (rows : list calc_row) : result (string * string * (string → string)) :=
  Ok (hex64, "{}", λ site, "{}").

Definition ask (lei : Z) : payload :=
  Payload "2026-09" (of_int lei) None None None None None None None None (Some 1) None None.
(** Abbreviations, so that a run below is an application of the code's own function. *)
#[local] Notation propose_with new_sales lei :=
  (calculate_proposal latest cohort_of (metrics_of new_sales) factor registry costs (λ _ _ _, hex64) (λ _, "[]") (λ _, "[]")
    (λ _ _, "{}") (λ _, "[]") (λ _ _, "{}") 7 (ask lei) (Scenarios.empty_db {["A"; "B"; "C"]})).
#[local] Notation propose lei := (propose_with 20000 lei).
Definition saved : Scenarios.db :=
  match propose 200000 with Ok (_, d) => d | Err _ => Scenarios.empty_db ∅ end.

Example run_propose : propose 200000 = Ok (1, saved).
Proof. vm_compute. reflexivity. Qed.
Example too_little : propose 100000 = Err (Http (BelowFloors (cents 10000000) (cents 16055000))).
Proof. vm_compute. reflexivity. Qed.
Example proposed_rows :
  (λ x, (x.1, Scenarios.floor_target (Scenarios.prop x.2), Scenarios.proposed_target (Scenarios.prop x.2)))
    <$> Scenarios.get_scenario_rows saved 1 = [("C", 3500000, 3571502); ("A", 5580000, 8204887); ("B", 6975000, 8223611)].
Proof. vm_compute. reflexivity. Qed.
(** More returns than sales in one store: the allocator refuses its negative weight with
    an error that no handler catches. *)
Example negative_store_crashes : propose_with (-1000) 200000 = Err (Crash NegativeWeight).
Proof. vm_compute. reflexivity. Qed.

Example saved_total :
  (λ s, Scenarios.total_target (Scenarios.head s)) <$> Scenarios.scenarios saved !! 1 = Some 20000000.
Proof. vm_compute. reflexivity. Qed.
Example few_stores : Z.of_nat (size (Scenarios.rows_of saved 1)) < 10 ^ 16.
Proof. vm_compute. reflexivity. Qed.

Lemma proposal_meets_budget_witness :
  proposed_sum (Scenarios.rows_of saved 1) = 20000000
  ∧ (map_to_list (Scenarios.rows_of saved 1)).*1 ≡ₚ ["A"; "B"; "C"].
Proof.
  destruct (proposal_meets_budget _ _ _ _ _ _ _ _ _ _ _ _ _ _ _ _ _ run_propose)
    as (sc & Hsc & _ & _ & _ & _ & _ & _ & _ & Hsites & _ & Hsum).
  pose proof saved_total as Ht. rewrite Hsc, lookup_insert_eq in Ht. apply Some_inj in Ht.
  split; [|exact Hsites]. rewrite <- Ht. apply Hsum. exact few_stores.
Defined.
End ProposalDemo.
