(* ===== verification/CampaignMoney.v ===== *)
(** Exact money and the deterministic allocations of Campaigns
    ([services/campaigns/money.py]), and the agent dimension of the incentive
    projection that uses them ([services/campaigns/aggregation.py] and the store
    accumulator of [services/campaigns/incentives.py]).

    [casefold] is Python's [str.casefold], which only breaks ties here: nothing below
    depends on its Unicode tables.  Floats appear only in the public response; the model
    keeps the two-decimal amounts they are made from.  Dates are their ISO text. *)

From S2P Require Import Prelude Decimal Dict.

Local Open Scope Z_scope.

Module CampaignMoney.

Inductive error := InvalidDecimal | IndexError | OutOfFuel.

(** [money]: normalised once, at the calculation boundary. *)
Definition money (value : dec) : res error dec :=
  match quantize prec28 HALF_UP (-2) value with Ok d => Ok d | Err _ => Err InvalidDecimal end.

(** An agent of a store: the store's code and the agent's label. *)
Notation key := (string * string)%type (only parsing).

Section Allocation.
Context (casefold : string → string).

(** ** Units of a store over its agents *)

Definition agent_label (agent : option string) : string := casefold (default ""%string agent).

(** Largest remainder first, then the label; Python's sort is stable. *)
Definition unit_leb (quantities : list (option string * Z)) (target current : Z)
    : option string → option string → bool :=
  lex_leb (cmp_on (λ a, - (default 0 (dget a quantities) * target mod current)) Z.compare)
    (leb_on agent_label String.leb).

Definition add_one (d : list (option string * Z)) (agent : option string) : list (option string * Z) :=
  dput agent (default 0 (dget agent d) + 1) d.

Definition allocate_integer_target (quantities : list (option string * Z)) (target : Z)
    : list (option string * Z) :=
  let target := Z.max 0 target in
  let normalized := (λ q, (q.1, Z.max 0 q.2)) <$> quantities in
  let current := dtotal normalized in
  if current =? target then normalized
  else if current <? target then
    dput None (default 0 (dget None normalized) + target - current) normalized
  else if target =? 0 then (λ q, (q.1, 0)) <$> normalized
  else
    let allocated := (λ q, (q.1, q.2 * target / current)) <$> normalized in
    let remainder := target - dtotal allocated in
    let ranked := sorted_by (unit_leb normalized target current) normalized.*1 in
    foldl add_one allocated (take (Z.to_nat remainder) ranked).

(** ** Amounts of the stores over their agents *)

(** [max(Decimal(0), x)] *)
Definition at_least_0 (x : dec) : dec := dmax d0 x.

(** The loop that hands out missing cents, one per agent and pass. *)
Definition up_pass (ranked : list key) (s : gmap key Z * Z) : gmap key Z * Z :=
  foldl (λ s k, if s.2 =? 0 then s else (<[k := s.1 !!! k + 1]> s.1, s.2 - 1)) s ranked.

Fixpoint up_loop (fuel : nat) (ranked : list key) (s : gmap key Z * Z) : option (gmap key Z * Z) :=
  if (0 <? s.2) && negb (bool_decide (ranked = [])) then
    match fuel with
    | O => None
    | S fuel' => up_loop fuel' ranked (up_pass ranked s)
    end
  else Some s.

(** The loop that takes excess cents back from the agents that have any. *)
Definition down_pass (ranked : list key) (s : gmap key Z * Z) : gmap key Z * Z * bool :=
  foldl (λ s k,
    if s.1.2 =? 0 then s
    else if 0 <? s.1.1 !!! k then (<[k := s.1.1 !!! k - 1]> s.1.1, s.1.2 + 1, true) else s)
    (s, false) ranked.

Fixpoint down_loop (fuel : nat) (ranked : list key) (s : gmap key Z * Z) : option (gmap key Z * Z) :=
  if (s.2 <? 0) && negb (bool_decide (ranked = [])) then
    match fuel with
    | O => None
    | S fuel' =>
        let '(s', progressed) := down_pass ranked s in
        if negb progressed then Some s' else down_loop fuel' ranked s'
    end
  else Some s.

(** The largest fractional part first, then the agent's name. *)
Definition cents_leb (raw : key → dec) (cents : key → Z) : key → key → bool :=
  lex_leb (cmp_on (λ k, dneg (dsub prec28 (raw k) (of_int (cents k)))) dcompare)
    (leb_on (λ k, casefold k.2) String.leb).

Definition raw_cents (values : list (key * dec)) (k : key) : dec :=
  dmul prec28 (at_least_0 (default d0 (dget k values))) (of_int 100).

Definition target_cents (store_targets : list (string * dec)) (site : string) : Z :=
  to_integral HALF_EVEN (dmul prec28 (at_least_0 (default d0 (dget site store_targets))) (of_int 100)).

(** The cents of one store's agents. *)
Definition allocate_store (values : list (key * dec)) (target : Z) (keys : list key)
    : res error (list (key * Z)) :=
  let ordered := sorted_by (leb_on (λ k : key, casefold k.2) String.leb) keys in
  let raw := raw_cents values in
  let floor k := to_int (raw k) in
  let cents : gmap key Z := list_to_map ((λ k, (k, floor k)) <$> ordered) in
  let remainder := target - sumZ (floor <$> ordered) in
  let ranked_up := sorted_by (cents_leb raw floor) ordered in
  let ranked_down := rev ranked_up in
  let fuel := S (Z.to_nat (Z.abs remainder)) in
  match up_loop fuel ranked_up (cents, remainder) with
  | None => Err OutOfFuel
  | Some s =>
      match down_loop fuel ranked_down s with
      | None => Err OutOfFuel
      | Some (final, _) => Ok ((λ k, (k, final !!! k)) <$> ordered)
      end
  end.

(** [(Decimal(cents) / Decimal('100')).quantize(Decimal('0.01'))] *)
Definition as_amount (cents : Z) : res error dec :=
  match (x ← ddiv prec28 (of_int cents) (of_int 100); quantize prec28 HALF_EVEN (-2) x) with
  | Ok d => Ok d
  | Err _ => Err InvalidDecimal
  end.

(** The stores in the order in which the values first name them. *)
Definition sites_of (values : list (key * dec)) : list string :=
  foldl (λ l x, if bool_decide (x.1.1 ∈ l) then l else l ++ [x.1.1]) [] values.
Definition keys_of_site (values : list (key * dec)) (site : string) : list key :=
  List.filter (λ k, bool_decide (k.1 = site)) values.*1.

Definition allocate_site (values : list (key * dec)) (store_targets : list (string * dec)) (site : string)
    : res error (list (key * dec)) :=
  cents ← allocate_store values (target_cents store_targets site) (keys_of_site values site);
  mapR (λ x, d ← as_amount x.2; Ok (x.1, d)) cents.

Definition allocate_currency_targets (values : list (key * dec)) (store_targets : list (string * dec))
    : res error (list (key * dec)) :=
  parts ← mapR (allocate_site values store_targets) (sites_of values);
  Ok (concat parts).
End Allocation.

End CampaignMoney.
