(* ===== verification/CampaignMoneySpec.v ===== *)
(** The allocations of Campaigns are exact: they add up to the store's figure, credit no
    agent with more than was sold, follow the shares to within one unit and do not depend
    on the order of the input; the cents loops have a closed form. *)

From Stdlib Require Import QArith Lqa.
From S2P Require Import Prelude Decimal Dict CampaignMoney.

Local Open Scope Z_scope.

Module CampaignMoneySpec.
Import CampaignMoney.

(** ** Largest remainders *)

Section Quota.
Context {A : Type} (q : A → Z) (target current : Z).
Context (Hq : ∀ x, 0 <= q x) (Ht : 0 < target) (Hc : target < current).

(** The shares rounded down miss the target by less than one unit per agent that has a
    fractional part. *)
Lemma floors_total l :
  sumZ (q <$> l) * target =
  current * sumZ ((λ x, q x * target / current) <$> l) + sumZ ((λ x, q x * target mod current) <$> l).
Proof.
  induction l as [|x l IH]; cbn; [lia|].
  pose proof (Z.div_mod (q x * target) current ltac:(lia)). lia.
Qed.

Lemma mods_bound l :
  0 <= sumZ ((λ x, q x * target mod current) <$> l) ∧
  (sumZ ((λ x, q x * target mod current) <$> l) = 0 ∨
   sumZ ((λ x, q x * target mod current) <$> l) <
     current * Z.of_nat (length (List.filter (λ x, 0 <? q x * target mod current) l))).
Proof.
  induction l as [|x l [IH1 IH2]]; cbn; [lia|].
  pose proof (Z.mod_pos_bound (q x * target) current ltac:(lia)).
  destruct (Z.ltb_spec 0 (q x * target mod current)); cbn [length]; [|split; [lia|destruct IH2; lia]].
  split; [lia|right]. rewrite Nat2Z.inj_succ, Z.mul_succ_r.
  set (n := Z.of_nat _) in *. assert (0 <= current * n) by (subst n; nia). destruct IH2; lia.
Qed.

(** A share rounded up is no more than the quantity. *)
Lemma share_up x : 0 < q x * target mod current → q x * target / current + 1 <= q x.
Proof.
  intros Hm. pose proof (Z.div_mod (q x * target) current ltac:(lia)).
  pose proof (Z.mod_pos_bound (q x * target) current ltac:(lia)). pose proof (Hq x).
  destruct (Z.eq_dec (q x) 0) as [E|]; [rewrite E in Hm; cbn in Hm; rewrite Z.mod_0_l in Hm; lia|].
  set (d := q x * target / current) in *. destruct (Z.le_gt_cases (d + 1) (q x)); [done|].
  assert (current * q x <= current * d) by nia. assert (q x * target < current * q x) by nia. lia.
Qed.

Lemma share_down x : 0 <= q x * target / current <= q x.
Proof.
  pose proof (Hq x). split; [apply Z.div_pos; nia|]. apply Z.div_le_upper_bound; nia.
Qed.
End Quota.

(** ** A dictionary updated key by key *)

Lemma map_values_keys {K} (f : K * Z → Z) (l : list (K * Z)) : ((λ x, (x.1, f x)) <$> l).*1 = l.*1.
Proof. rewrite <- list_fmap_compose. by apply list_fmap_ext. Qed.

Lemma dget_map `{EqDecision K} (f : K → Z → Z) (l : list (K * Z)) k :
  dget k ((λ x, (x.1, f x.1 x.2)) <$> l) = f k <$> dget k l.
Proof. induction l as [|[k' v] l IH]; cbn; [done|]. case_decide; by subst. Qed.

(** The keys of [ks] get one unit each. *)
Lemma add_ones ks d :
  NoDup ks → (∀ k, k ∈ ks → k ∈ d.*1) →
  (foldl add_one d ks).*1 = d.*1 ∧
  ∀ k, dget k (foldl add_one d ks) = (λ z, z + if decide (k ∈ ks) then 1 else 0) <$> dget k d.
Proof.
  revert d. induction ks as [|x ks IH]; intros d Hnd Hin; cbn.
  { split; [done|]. intros k. rewrite decide_False by apply not_elem_of_nil.
    destruct (dget k d); cbn; [by rewrite Z.add_0_r|done]. }
  apply NoDup_cons in Hnd as [Hx Hnd].
  assert (Hkeys : (add_one d x).*1 = d.*1).
  { unfold add_one. rewrite dput_keys, decide_True; [done|]. apply Hin. by left. }
  destruct (IH (add_one d x) Hnd) as [IH1 IH2]; [intros k Hk; rewrite Hkeys; apply Hin; by right|].
  split; [by rewrite IH1|]. intros k. rewrite IH2. unfold add_one. rewrite dget_dput.
  destruct (decide (k = x)) as [->|Hne].
  - rewrite (decide_False (P := x ∈ ks)), decide_True by (done || by left).
    assert (is_Some (dget x d)) as [v Hv] by (apply dget_is_Some, Hin; by left). rewrite Hv. cbn.
    f_equal. lia.
  - destruct (dget k d) as [v|]; [|done]. cbn. f_equal. f_equal.
    repeat case_decide; try done; exfalso; set_solver.
Qed.

Lemma dtotal_lookup `{EqDecision K} (d : list (K * Z)) (f : K → Z) :
  NoDup d.*1 → (∀ k v, dget k d = Some v → f k = v) → dtotal d = sumZ (f <$> d.*1).
Proof.
  intros Hnd Hf. unfold dtotal. rewrite <- list_fmap_compose. f_equal. apply list_fmap_ext.
  intros i [k v] Hi%list_elem_of_lookup_2. cbn. symmetry. apply Hf. by apply dget_elem.
Qed.

Lemma sumZ_indicator `{EqDecision K} (ks l : list K) :
  NoDup ks → NoDup l → (∀ k, k ∈ ks → k ∈ l) →
  sumZ ((λ k, if decide (k ∈ ks) then 1 else 0) <$> l) = Z.of_nat (length ks).
Proof.
  revert l. induction ks as [|x ks IH]; intros l Hks Hl Hin.
  { induction l; cbn; [done|]. apply NoDup_cons in Hl as [_ Hl].
    rewrite decide_False by apply not_elem_of_nil. apply IHl; [done|]. by intros k ?%elem_of_nil. }
  apply NoDup_cons in Hks as [Hx Hks].
  destruct (list_elem_of_split l x) as (l1 & l2 & ->); [apply Hin; by left|].
  rewrite <- Permutation_middle in Hl |- *. apply NoDup_cons in Hl as [Hxl Hl]. cbn.
  rewrite decide_True by (by left).
  rewrite (list_fmap_ext _ (λ k, if decide (k ∈ ks) then 1 else 0)); last first.
  { intros i k Hk%list_elem_of_lookup_2. repeat case_decide; try done; exfalso; set_solver. }
  rewrite IH; [lia|done|done|]. intros k Hk. assert (k ≠ x) by (by intros ->).
  specialize (Hin k ltac:(by right)). set_solver.
Qed.

Section Units.
Context (casefold : string → string).

#[local] Instance unit_leb_total q t c : TotalLeb (unit_leb casefold q t c).
Proof. unfold unit_leb. apply _. Qed.

Lemma unit_leb_mod n t c a b :
  unit_leb casefold n t c a b = true →
  default 0 (dget b n) * t mod c <= default 0 (dget a n) * t mod c.
Proof.
  unfold unit_leb, lex_leb, cmp_on.
  destruct (Z.compare_spec (- (default 0 (dget a n) * t mod c)) (- (default 0 (dget b n) * t mod c)));
    done || lia.
Qed.

(** The branch that scales the quantities down. *)
Section Scaled.
Context (n : list (option string * Z)) (t c : Z).
Context (Hnd : NoDup n.*1) (Hn : ∀ k v, dget k n = Some v → 0 <= v).
Context (Ht : 0 < t) (Htc : t < c) (Hc : dtotal n = c).

Let q (k : option string) : Z := default 0 (dget k n).
Let floors : list (option string * Z) := (λ x, (x.1, x.2 * t / c)) <$> n.
Let R : Z := t - dtotal floors.
Let ranked : list (option string) := sorted_by (unit_leb casefold n t c) n.*1.
Let bumped : list (option string) := take (Z.to_nat R) ranked.

Lemma q_nonneg k : 0 <= q k.
Proof. unfold q. destruct (dget k n) eqn:H; cbn; [by eapply Hn|lia]. Qed.

Lemma q_total : sumZ (q <$> n.*1) = c.
Proof. rewrite <- Hc. symmetry. apply dtotal_lookup; [done|]. intros k v H. unfold q. by rewrite H. Qed.

Lemma floors_get k : dget k floors = (λ v, v * t / c) <$> dget k n.
Proof. apply (dget_map (λ _ v, v * t / c)). Qed.

Lemma floors_dtotal : dtotal floors = sumZ ((λ k, q k * t / c) <$> n.*1).
Proof.
  unfold floors. rewrite (dtotal_lookup _ (λ k, q k * t / c)).
  - f_equal. f_equal. apply (map_values_keys (λ x, x.2 * t / c)).
  - by rewrite (map_values_keys (λ x, x.2 * t / c)).
  - intros k v. fold floors. rewrite floors_get. unfold q. destruct (dget k n); cbn; [by intros [= <-]|done].
Qed.

Lemma remainder_bound :
  0 <= R ∧ (R = 0 ∨ R < Z.of_nat (length (List.filter (λ k, 0 <? q k * t mod c) n.*1))).
Proof.
  pose proof (floors_total q t c Ht Htc n.*1) as Hf.
  rewrite q_total, <- floors_dtotal in Hf.
  destruct (mods_bound q t c Ht Htc n.*1) as [H0 H1]. unfold R.
  set (M := sumZ _) in *. assert (c * (t - dtotal floors) = M) by lia.
  split; [nia|]. destruct H1 as [H1|H1]; [left; nia|right; nia].
Qed.

Lemma ranked_perm : ranked ≡ₚ n.*1.
Proof. apply sorted_by_perm. Qed.

Lemma ranked_NoDup : NoDup ranked.
Proof. by rewrite ranked_perm. Qed.

Lemma bumped_NoDup : NoDup bumped.
Proof. unfold bumped. pose proof ranked_NoDup as H. rewrite <- (take_drop (Z.to_nat R)) in H.
  by apply NoDup_app in H as (? & _). Qed.

Lemma bumped_in k : k ∈ bumped → k ∈ n.*1.
Proof. intros H. rewrite <- ranked_perm. by apply elem_of_take in H as (i & ?%list_elem_of_lookup_2 & _). Qed.

Lemma bumped_before x y : x ∈ bumped → y ∈ n.*1 → y ∉ bumped → q y * t mod c <= q x * t mod c.
Proof.
  intros Hx Hy Hny. apply (unit_leb_mod n t c).
  apply (StronglySorted_left_out (λ a b, unit_leb casefold n t c a b = true) (Z.to_nat R) ranked); [apply sorted_by_sorted, _|done| |done].
  by rewrite ranked_perm.
Qed.

Lemma bumped_positive x : x ∈ bumped → 0 < q x * t mod c.
Proof.
  intros Hx. pose proof (Z.mod_pos_bound (q x * t) c ltac:(lia)).
  destruct (Z.eq_dec (q x * t mod c) 0) as [E|]; [exfalso|lia].
  set (pos := List.filter (λ k, 0 <? q k * t mod c) n.*1) in *.
  assert (Hpos : ∀ k, k ∈ pos → k ∈ n.*1 ∧ 0 < q k * t mod c).
  { intros k [? ?%Z.ltb_lt]%list_elem_of_In%filter_In. by rewrite list_elem_of_In. }
  assert (Hsub : x :: pos ⊆+ bumped).
  { apply NoDup_submseteq.
    - apply NoDup_cons. split; [intros [_ ?]%Hpos; lia|].
      unfold pos. rewrite <- (list_fmap_id (List.filter _ _)). apply NoDup_fmap_filter. by rewrite list_fmap_id.
    - intros k [-> | Hk]%elem_of_cons; [done|]. destruct (Hpos _ Hk) as [Hin Hlt].
      destruct (decide (k ∈ bumped)) as [|Hno]; [done|]. pose proof (bumped_before x k Hx Hin Hno). lia. }
  apply submseteq_length in Hsub. cbn in Hsub. unfold bumped in Hsub, Hx. rewrite length_take in Hsub.
  destruct remainder_bound as [HR0 [HR|HR]]; [rewrite HR in Hx; by apply elem_of_nil in Hx|].
  fold pos in HR. lia.
Qed.

Lemma bumped_length : Z.of_nat (length bumped) = R.
Proof.
  unfold bumped. rewrite length_take, ranked_perm. destruct remainder_bound as [? [?|HR]]; [lia|].
  pose proof (filter_length_le (λ k, 0 <? q k * t mod c) n.*1). lia.
Qed.

Let result := foldl add_one floors bumped.

Lemma result_keys : result.*1 = n.*1.
Proof.
  unfold result. rewrite (proj1 (add_ones bumped floors bumped_NoDup
    ltac:(intros k Hk; unfold floors; rewrite (map_values_keys (λ x, x.2 * t / c)); by apply bumped_in))).
  apply (map_values_keys (λ x, x.2 * t / c)).
Qed.

Lemma result_get k v : dget k result = Some v →
  k ∈ n.*1 ∧ v = q k * t / c + (if decide (k ∈ bumped) then 1 else 0).
Proof.
  unfold result. rewrite (proj2 (add_ones bumped floors bumped_NoDup
    ltac:(intros j Hj; unfold floors; rewrite (map_values_keys (λ x, x.2 * t / c)); by apply bumped_in))).
  rewrite floors_get. unfold q. destruct (dget k n) eqn:Hk; cbn; [|done]. intros [= <-].
  split; [|done]. apply dget_is_Some. by eexists.
Qed.

Lemma result_total : dtotal result = t.
Proof.
  rewrite (dtotal_lookup _ (λ k, q k * t / c + (if decide (k ∈ bumped) then 1 else 0))).
  - rewrite result_keys, sumZ_add, <- floors_dtotal.
    rewrite (sumZ_indicator bumped n.*1 bumped_NoDup Hnd bumped_in), bumped_length. unfold R. lia.
  - by rewrite result_keys.
  - intros k v H. by apply result_get in H as [_ ->].
Qed.

Lemma result_bounds k v : dget k result = Some v →
  0 <= v <= q k ∧ v * c < q k * t + c ∧ q k * t < v * c + c.
Proof.
  intros [_ ->]%result_get. pose proof (share_down q t c q_nonneg Ht Htc k).
  pose proof (Z.div_mod (q k * t) c ltac:(lia)). pose proof (Z.mod_pos_bound (q k * t) c ltac:(lia)).
  case_decide as Hb; [|nia].
  pose proof (share_up q t c q_nonneg Ht Htc k (bumped_positive k Hb)).
  pose proof (bumped_positive k Hb). nia.
Qed.

Lemma result_monotone a b x y :
  dget a result = Some x → dget b result = Some y → q a < q b → x <= y.
Proof.
  intros [Ha ->]%result_get [Hb ->]%result_get Hlt.
  pose proof (Z.div_le_mono (q a * t) (q b * t) c ltac:(lia) ltac:(nia)).
  destruct (decide (a ∈ bumped)) as [Hina|]; [|case_decide; lia].
  destruct (decide (b ∈ bumped)) as [|Hnb]; [lia|].
  pose proof (bumped_before a b Hina Hb Hnb).
  pose proof (Z.div_mod (q a * t) c ltac:(lia)). pose proof (Z.div_mod (q b * t) c ltac:(lia)). nia.
Qed.
End Scaled.
End Units.

(** ** The whole allocation of units *)

Section UnitTheorems.
Context (casefold : string → string).

Definition normalized (quantities : list (option string * Z)) : list (option string * Z) :=
  (λ q, (q.1, Z.max 0 q.2)) <$> quantities.

Lemma normalized_get qs k : dget k (normalized qs) = Z.max 0 <$> dget k qs.
Proof. apply (dget_map (λ _, Z.max 0)). Qed.

Lemma normalized_keys qs : (normalized qs).*1 = qs.*1.
Proof. apply (map_values_keys (λ q, Z.max 0 q.2)). Qed.

Lemma normalized_nonneg qs k v : dget k (normalized qs) = Some v → 0 <= v.
Proof. rewrite normalized_get. destruct (dget k qs); cbn; [intros [= <-]; lia|done]. Qed.

(** [allocate_integer_target] is exact and fair.  The agents' units add up to the
    store's figure; every agent gets a non-negative number, at most the quantity sold (only
    the unattributed row may get more); when the quantities are scaled down each agent is
    within one unit of the exact share, and who sold more never gets less. *)
Theorem allocate_integer_exact quantities target (Hnd : NoDup quantities.*1) :
  let r := allocate_integer_target casefold quantities target in
  let sold k := default 0 (dget k (normalized quantities)) in
  let current := dtotal (normalized quantities) in
  dtotal r = Z.max 0 target ∧ NoDup r.*1 ∧ (∀ k, k ∈ quantities.*1 → k ∈ r.*1) ∧
  (∀ k v, dget k r = Some v → 0 <= v ∧ (k ≠ None → v <= sold k)) ∧
  (0 < target < current →
     (∀ k v, dget k r = Some v → v <= sold k ∧
        v * current < sold k * target + current ∧ sold k * target < v * current + current) ∧
     (∀ a b x y, dget a r = Some x → dget b r = Some y → sold a < sold b → x <= y)).
Proof.
  cbv zeta. unfold allocate_integer_target. fold (normalized quantities).
  set (n := normalized quantities). set (t := Z.max 0 target).
  assert (Hn : NoDup n.*1) by (unfold n; by rewrite normalized_keys).
  assert (Hpos : ∀ k v, dget k n = Some v → 0 <= v) by apply normalized_nonneg.
  assert (Hkeys : n.*1 = quantities.*1) by apply normalized_keys.
  destruct (Z.eqb_spec (dtotal n) t) as [E|Ne].
  { rewrite Hkeys. split_and!; [done|by rewrite <- Hkeys|done| |lia].
    intros k v Hk. rewrite Hk. split; [by eapply Hpos|done]. }
  destruct (Z.ltb_spec (dtotal n) t) as [Hlt|Hge].
  { split_and!; [rewrite dput_total; lia|by apply dput_NoDup| | |lia].
    - intros k Hk. apply elem_of_dput_keys. right. by rewrite Hkeys.
    - intros k v. rewrite dget_dput. case_decide as Hk; [intros [= <-]|].
      + split; [|done]. pose proof (Hpos None) as H0. destruct (dget None n); cbn; [|lia].
        pose proof (H0 _ eq_refl). lia.
      + intros Hv. rewrite Hv. split; [by eapply Hpos|done]. }
  destruct (Z.eqb_spec t 0) as [E0|Ht].
  { rewrite (map_values_keys (λ _, 0)), Hkeys. split_and!; [|by rewrite <- Hkeys|done| |lia].
    - unfold dtotal. rewrite <- list_fmap_compose.
      rewrite E0. clear. induction n as [|x l IH]; cbn; [done|exact IH].
    - intros k v. rewrite (dget_map (λ _ _, 0)). destruct (dget k n) as [w|] eqn:Hk; [|done].
      cbn. intros [= <-]. split; [lia|]. intros _. by eapply Hpos. }
  assert (Ht' : 0 < t) by lia. assert (Htc : t < dtotal n) by lia.
  pose proof (result_bounds casefold n t (dtotal n) Hn Hpos Ht' Htc eq_refl) as Hb.
  split_and!.
  - apply (result_total casefold n t (dtotal n)); auto.
  - rewrite (result_keys casefold n t (dtotal n)); auto.
  - intros k Hk. rewrite (result_keys casefold n t (dtotal n)), Hkeys; auto.
  - intros k v Hk. destruct (Hb k v Hk) as (? & _ & _). split; [lia|lia].
  - intros Hsc. assert (t = target) as Et by lia. rewrite <- Et. split.
    + intros k v Hk. destruct (Hb k v Hk) as (? & ? & ?). lia.
    + intros a b x y. apply (result_monotone casefold n t (dtotal n)); auto.
Qed.

Lemma dget_perm (d e : list (option string * Z)) k : NoDup d.*1 → d ≡ₚ e → dget k d = dget k e.
Proof.
  intros Hd Hp. assert (He : NoDup e.*1) by (by rewrite <- Hp).
  apply option_eq. intros v. rewrite <- !dget_elem by done. by rewrite Hp.
Qed.

#[local] Instance dtotal_perm : Proper (Permutation ==> eq) (dtotal (K := option string)).
Proof. intros d e H. unfold dtotal. by rewrite H. Qed.

(** The allocation of units is a function of the quantities, not of the order in which
    the rows arrive: permuted inputs give the same number to every agent, as long as no two
    agents share a folded label. *)
Theorem allocate_integer_order_free quantities quantities' target (Hnd : NoDup quantities.*1)
    (Hperm : quantities ≡ₚ quantities')
    (Hlabels : ∀ a b, a ∈ quantities.*1 → b ∈ quantities.*1 →
       agent_label casefold a = agent_label casefold b → a = b) :
  ∀ k, dget k (allocate_integer_target casefold quantities target) =
       dget k (allocate_integer_target casefold quantities' target).
Proof.
  intros k. unfold allocate_integer_target.
  fold (normalized quantities) (normalized quantities').
  assert (Hp : normalized quantities ≡ₚ normalized quantities') by (unfold normalized; by rewrite Hperm).
  assert (Hn : NoDup (normalized quantities).*1) by (by rewrite normalized_keys).
  assert (Hkeys : (normalized quantities).*1 = quantities.*1) by apply normalized_keys.
  assert (Hget : ∀ j, dget j (normalized quantities) = dget j (normalized quantities'))
    by (intros j; by apply dget_perm).
  rewrite <- Hkeys in Hlabels.
  revert Hp Hn Hget Hlabels. generalize (normalized quantities) (normalized quantities'). clear. intros n n' Hp Hn Hget Hl.
  assert (Hn' : NoDup n'.*1) by (by rewrite <- Hp).
  assert (Htot : dtotal n' = dtotal n) by (by rewrite Hp). rewrite !Htot. clear Htot.
  set (t := Z.max 0 target). case_match; [apply Hget|].
  case_match; [by rewrite !dget_dput, (Hget None), (Hget k)|].
  case_match; [by rewrite !(dget_map (λ _ _, 0)), Hget|].
  set (f := λ x : option string * Z, (x.1, x.2 * t / dtotal n)).
  assert (Hrank : sorted_by (unit_leb casefold n t (dtotal n)) n.*1
                  = sorted_by (unit_leb casefold n' t (dtotal n)) n'.*1).
  { assert (Hle : ∀ a b, unit_leb casefold n t (dtotal n) a b = unit_leb casefold n' t (dtotal n) a b).
    { intros a b. unfold unit_leb, lex_leb, cmp_on. by rewrite !Hget. }
    apply (sorted_perm_eq (unit_leb casefold n t (dtotal n))).
    - apply sorted_by_sorted, _.
    - rewrite <- list_fmap_id. eapply StronglySorted_fmap;
        [|apply (sorted_by_sorted (unit_leb casefold n' t (dtotal n)))].
      cbn. intros a b. by rewrite Hle.
    - by rewrite !sorted_by_perm, Hp.
    - intros a b Ha Hb Hab Hba. rewrite elem_of_sorted_by in Ha, Hb. apply Hl; [done..|].
      unfold unit_leb, lex_leb, cmp_on, leb_on in Hab, Hba.
      rewrite (cmp_antisym Z.compare) in Hba. destruct (Z.compare _ _); try done. cbn in Hba.
      unfold String.leb in *. rewrite (cmp_antisym String.compare) in Hba.
      destruct (String.compare (agent_label casefold a) (agent_label casefold b)) eqn:E; try done.
      by apply String.compare_eq_iff. }
  rewrite <- Hrank. assert (Hf : dtotal (f <$> n) = dtotal (f <$> n')) by (by rewrite Hp).
  rewrite <- Hf. set (ks := take _ _).
  assert (Hks : NoDup ks ∧ ∀ j, j ∈ ks → j ∈ n.*1).
  { pose proof (sorted_by_perm (unit_leb casefold n t (dtotal n)) n.*1) as Hr. split.
    - assert (NoDup (sorted_by (unit_leb casefold n t (dtotal n)) n.*1)) as Hnd by (by rewrite Hr).
      eapply sublist_NoDup; [done|apply sublist_take].
    - intros j (i & ?%list_elem_of_lookup_2 & _)%elem_of_take. by rewrite <- Hr. }
  destruct Hks as [Hks Hin].
  assert (Hk1 : (f <$> n).*1 = n.*1) by apply (map_values_keys (λ x, x.2 * t / dtotal n)).
  assert (Hk2 : (f <$> n').*1 = n'.*1) by apply (map_values_keys (λ x, x.2 * t / dtotal n)).
  rewrite (proj2 (add_ones ks (f <$> n) Hks ltac:(by rewrite Hk1))).
  rewrite (proj2 (add_ones ks (f <$> n') Hks ltac:(intros j Hj; rewrite Hk2, <- Hp; auto))).
  unfold f. by rewrite !(dget_map (λ _ v, v * t / dtotal n)), Hget.
Qed.
End UnitTheorems.
End CampaignMoneySpec.
