(* ===== verification/CampaignCents.v ===== *)
(** The cents loops of Campaigns: they terminate, keep the store's total, hand out the
    missing cents by the closed form of a round robin, and give every agent a two-decimal,
    non-negative amount. *)

From Stdlib Require Import QArith Lqa.
From S2P Require Import Prelude Decimal Dict CampaignMoney CampaignMoneySpec.

Local Open Scope Z_scope.

Module CampaignCents.
Import CampaignMoney CampaignMoneySpec.

(** ** Sums over the ranked keys *)

Definition ksum (ks : list key) (c : gmap key Z) : Z := sumZ ((λ k, c !!! k) <$> ks).

Lemma total_insert (c : gmap key Z) k v j : <[k := v]> c !!! j = if decide (j = k) then v else c !!! j.
Proof. case_decide; subst; [apply lookup_total_insert_eq|by apply lookup_total_insert_ne]. Qed.

Lemma ksum_insert ks c k v :
  NoDup ks → k ∈ ks → ksum ks (<[k := v]> c) = ksum ks c + v - c !!! k.
Proof.
  intros Hnd. unfold ksum. induction Hnd as [|x ks Hx Hnd IH]; intros Hk; cbn; [by apply elem_of_nil in Hk|].
  rewrite total_insert. apply elem_of_cons in Hk as [-> | Hk].
  - rewrite decide_True by done.
    rewrite (list_fmap_ext (λ j, <[x := v]> c !!! j) (λ j, c !!! j)); [lia|].
    intros i j Hj%list_elem_of_lookup_2. rewrite total_insert, decide_False; [done|]. by intros ->.
  - rewrite decide_False by (by intros ->). rewrite IH by done. lia.
Qed.

Lemma ksum_perm ks ks' c : ks ≡ₚ ks' → ksum ks c = ksum ks' c.
Proof. intros H. unfold ksum. by rewrite H. Qed.

(** ** Handing out missing cents *)

Lemma up_pass_spec ranked c r :
  NoDup ranked → 0 <= r →
  (up_pass ranked (c, r)).2 = Z.max 0 (r - Z.of_nat (length ranked)) ∧
  ∀ k, (up_pass ranked (c, r)).1 !!! k =
       c !!! k + if decide (k ∈ take (Z.to_nat r) ranked) then 1 else 0.
Proof.
  unfold up_pass. intros Hnd. revert c r. induction Hnd as [|x ks Hx Hnd IH]; intros c r Hr; cbn [foldl].
  { rewrite take_nil. split; [cbn; lia|]. intros k. rewrite decide_False by apply not_elem_of_nil. cbn. lia. }
  cbn [fst snd]. destruct (Z.eqb_spec r 0) as [->|Hne].
  { destruct (IH c 0 ltac:(lia)) as [H1 H2]. cbn [length]. rewrite H1. split; [lia|].
    intros k. rewrite H2. by rewrite !take_0. }
  destruct (IH (<[x := c !!! x + 1]> c) (r - 1) ltac:(lia)) as [H1 H2]. rewrite H1.
  split; [cbn [length]; lia|]. intros k. rewrite H2, total_insert.
  replace (Z.to_nat r) with (S (Z.to_nat (r - 1))) by lia. cbn [take].
  destruct (decide (k = x)) as [->|Hk].
  - rewrite (decide_True (P := x ∈ x :: _)) by (by left). rewrite decide_False; [lia|].
    intros (i & ?%list_elem_of_lookup_2 & _)%elem_of_take. done.
  - f_equal. repeat case_decide; try done; exfalso; set_solver.
Qed.

(** A round robin over the ranked keys: everybody gets the quotient, the first ones the
    remainder. *)
Definition round_robin (ranked : list key) (r : Z) (k : key) : Z :=
  let n := Z.of_nat (length ranked) in
  if decide (k ∈ ranked)
  then r / n + (if decide (k ∈ take (Z.to_nat (r mod n)) ranked) then 1 else 0) else 0.

Lemma round_robin_0 ranked k : round_robin ranked 0 k = 0.
Proof.
  unfold round_robin. rewrite Zmod_0_l, Zdiv_0_l, take_0.
  rewrite (decide_False (P := k ∈ [])) by apply not_elem_of_nil. by case_decide.
Qed.

Lemma up_loop_spec fuel ranked c r :
  NoDup ranked → ranked ≠ [] → 0 <= r <= Z.of_nat fuel →
  ∃ c', up_loop fuel ranked (c, r) = Some (c', 0) ∧
    ∀ k, c' !!! k = c !!! k + round_robin ranked r k.
Proof.
  intros Hnd Hne. revert c r. induction fuel as [|fuel IH]; intros c r Hr; cbn [up_loop fst snd].
  - assert (r = 0) as -> by lia. exists c. split; [done|]. intros k. rewrite round_robin_0. lia.
  - rewrite (bool_decide_eq_false_2 (ranked = [])) by done. rewrite andb_true_r.
    destruct (Z.ltb_spec 0 r) as [Hpos|]; last first.
    { assert (r = 0) as -> by lia. exists c. split; [done|]. intros k. rewrite round_robin_0. lia. }
    destruct (up_pass_spec ranked c r Hnd ltac:(lia)) as [H1 H2].
    destruct (up_pass ranked (c, r)) as [c1 r1]. cbn [fst snd] in *.
    set (n := Z.of_nat (length ranked)) in *.
    assert (Hn : 0 < n) by (subst n; destruct ranked; cbn; [done|lia]).
    destruct (IH c1 r1 ltac:(lia)) as (c' & Hc' & Hk'). exists c'. split; [done|]. intros k.
    rewrite Hk', H2, H1. unfold round_robin. fold n.
    destruct (decide (k ∈ ranked)) as [Hin|Hout]; last first.
    { rewrite decide_False; [lia|]. intros (i & ?%list_elem_of_lookup_2 & _)%elem_of_take. done. }
    destruct (Z.lt_ge_cases r n) as [Hlt|Hge].
    + rewrite Z.max_l by lia. rewrite Z.div_0_l, Z.mod_0_l by lia. rewrite take_0.
      rewrite (decide_False (P := k ∈ [])) by apply not_elem_of_nil.
      rewrite Z.div_small, Z.mod_small by lia. lia.
    + rewrite Z.max_r by lia. rewrite (take_ge ranked) by lia. rewrite (decide_True (P := k ∈ ranked)) by done.
      replace (r - n) with (r + (-1) * n) by lia. rewrite Z.div_add, Z.mod_add by lia. lia.
Qed.

Lemma up_loop_idle fuel ranked c r : r <= 0 ∨ ranked = [] → up_loop fuel ranked (c, r) = Some (c, r).
Proof.
  intros H. destruct fuel; cbn; (destruct (Z.ltb_spec 0 r); cbn; [|done]);
    (destruct H as [? | ->]; [lia|done]).
Qed.

Lemma down_loop_idle fuel ranked c r : 0 <= r ∨ ranked = [] → down_loop fuel ranked (c, r) = Some (c, r).
Proof.
  intros H. destruct fuel; cbn; (destruct (Z.ltb_spec r 0); cbn; [|done]);
    (destruct H as [? | ->]; [lia|done]).
Qed.

(** The round robin hands out everything. *)
Lemma round_robin_total ranked r :
  NoDup ranked → ranked ≠ [] → 0 <= r → sumZ (round_robin ranked r <$> ranked) = r.
Proof.
  intros Hnd Hne Hr. set (n := Z.of_nat (length ranked)).
  assert (Hn : 0 < n) by (subst n; destruct ranked; cbn; [done|lia]).
  pose proof (Z.mod_pos_bound r n Hn). pose proof (Z.div_mod r n ltac:(lia)).
  rewrite (list_fmap_ext _ (λ k, r / n + if decide (k ∈ take (Z.to_nat (r mod n)) ranked) then 1 else 0)).
  2: { intros i k Hk%list_elem_of_lookup_2. unfold round_robin. by rewrite decide_True. }
  rewrite sumZ_add, (sumZ_const (r / n)), sumZ_indicator, length_take; fold n;
    [lia|eapply sublist_NoDup; [done|apply sublist_take]|done|].
  by intros k (i & ?%list_elem_of_lookup_2 & _)%elem_of_take.
Qed.

(** ** Taking excess cents back *)

Lemma down_pass_spec all ranked c r p :
  NoDup all → (∀ k, k ∈ ranked → k ∈ all) → NoDup ranked → r <= 0 →
  (∀ k, k ∈ all → 0 <= c !!! k) →
  let s := foldl (λ s k,
    if s.1.2 =? 0 then s
    else if 0 <? s.1.1 !!! k then (<[k := s.1.1 !!! k - 1]> s.1.1, s.1.2 + 1, true) else s)
    (c, r, p) ranked in
  ksum all s.1.1 + s.1.2 = ksum all c + r ∧ r <= s.1.2 <= 0 ∧
  (∀ k, k ∈ all → 0 <= s.1.1 !!! k <= c !!! k) ∧ (p = true → s.2 = true) ∧
  (s.2 = true → p = true ∨ r < s.1.2) ∧
  (s.2 = false → s.1 = (c, r) ∧ (r = 0 ∨ ∀ k, k ∈ ranked → c !!! k <= 0)).
Proof.
  intros Hall. revert c r p. induction ranked as [|x ks IH]; intros c r p Hin Hnd Hr Hc; cbn [foldl].
  { cbn. split_and!; try done; try lia; [intros k Hk; specialize (Hc k Hk); lia|by left|].
    intros _. split; [done|]. right. by intros k ?%elem_of_nil. }
  apply NoDup_cons in Hnd as [Hx Hnd]. cbn [fst snd].
  assert (Hin' : ∀ k, k ∈ ks → k ∈ all) by (intros k Hk; apply Hin; by right).
  destruct (Z.eqb_spec r 0) as [->|Hne].
  { destruct (IH c 0 p Hin' Hnd ltac:(lia) Hc) as (H1 & H2 & H3 & H4 & H5 & H6). split_and!; try done; try lia.
    intros Hs. destruct (H6 Hs) as [? _]. split; [done|by left]. }
  destruct (Z.ltb_spec 0 (c !!! x)) as [Hpos|Hnp]; last first.
  { destruct (IH c r p Hin' Hnd Hr Hc) as (H1 & H2 & H3 & H4 & H5 & H6). split_and!; try done; try lia.
    intros Hs. destruct (H6 Hs) as [? Hz]. split; [done|]. right.
    intros k [-> | Hk]%elem_of_cons; [done|]. destruct Hz; [lia|auto]. }
  assert (Hxa : x ∈ all) by (apply Hin; by left).
  destruct (IH (<[x := c !!! x - 1]> c) (r + 1) true Hin' Hnd ltac:(lia)) as (H1 & H2 & H3 & H4 & H5 & H6).
  { intros k Hk. rewrite total_insert. specialize (Hc k Hk). case_decide; lia. }
  rewrite ksum_insert in H1 by done. split_and!; try lia.
  - intros k Hk. specialize (H3 k Hk). rewrite total_insert in H3. case_decide; subst; lia.
  - intros _. by apply H4.
  - intros Hs. rewrite (H4 eq_refl) in Hs. done.
Qed.

Lemma down_loop_spec fuel ranked c r :
  NoDup ranked → - r <= Z.of_nat fuel → r <= 0 → (∀ k, k ∈ ranked → 0 <= c !!! k) →
  0 <= ksum ranked c + r →
  ∃ c', down_loop fuel ranked (c, r) = Some (c', 0) ∧
    ksum ranked c' = ksum ranked c + r ∧ ∀ k, k ∈ ranked → 0 <= c' !!! k <= c !!! k.
Proof.
  intros Hnd. revert c r. induction fuel as [|fuel IH]; intros c r Hf Hr Hc Hsum.
  { assert (r = 0) as -> by lia. exists c. rewrite down_loop_idle by (left; lia).
    split_and!; [done|lia|]. intros k Hk. specialize (Hc k Hk). lia. }
  cbn [down_loop snd]. destruct (Z.ltb_spec r 0) as [Hneg|]; last first.
  { assert (r = 0) as -> by lia. exists c. cbn.
    split_and!; [done|lia|]. intros k Hk. specialize (Hc k Hk). lia. }
  destruct (bool_decide_reflect (ranked = [])) as [->|Hne]; [cbn in Hsum; lia|]. cbn [andb negb].
  destruct (down_pass_spec ranked ranked c r false Hnd ltac:(done) Hnd Hr Hc)
    as (H1 & H2 & H3 & _ & H5 & H6).
  unfold down_pass. destruct (foldl _ (c, r, false) ranked) as [[c1 r1] p]. cbn [fst snd] in *.
  destruct p; cbn [negb].
  - destruct (H5 eq_refl) as [|Hlt]; [done|].
    destruct (IH c1 r1) as (c' & Hc' & Hs' & Hk'); try lia; [intros k Hk; by apply H3|].
    exists c'. split_and!; [done|lia|]. intros k Hk. specialize (H3 k Hk). specialize (Hk' k Hk). lia.
  - destruct (H6 eq_refl) as [[= -> ->] [?|Hz]]; [lia|]. exfalso.
    assert (ksum ranked c <= 0); [|lia]. unfold ksum.
    transitivity (sumZ ((λ _ : key, 0) <$> ranked)); [|rewrite (sumZ_const 0); lia].
    revert Hz. clear. induction ranked as [|x l IH]; intros Hz; cbn; [lia|].
    specialize (IH ltac:(intros k Hk; apply Hz; by right)). specialize (Hz x ltac:(by left)). cbn in *. lia.
Qed.

(** ** Decimal arithmetic on amounts *)

Lemma rdiv_nonneg m a b : 0 <= a → 0 < b → 0 <= rdiv m a b.
Proof.
  intros Ha Hb. unfold rdiv. pose proof (Z.div_pos (Z.abs a) b ltac:(lia) Hb).
  pose proof (Z.div_pos a b Ha Hb). pose proof (Z.sgn_nonneg a).
  destruct m; try done; try (apply Z.mul_nonneg_nonneg; [lia|repeat case_match; lia]).
Qed.

Lemma fix_prec_nonneg p d : 1 <= p → 0 <= coef d → 0 <= coef (fix_prec p d).
Proof.
  intros Hp Hd. unfold fix_prec. case_match eqn:Hlt; [done|]. bool_prop.
  pose proof (ndigits_gt p (coef d) ltac:(lia) Hlt).
  pose proof (rdiv_nonneg HALF_EVEN (coef d) _ Hd (pow10_pos (ndigits (coef d) - p) ltac:(lia))).
  case_match; cbn; [done|]. apply Z.div_pos; lia.
Qed.

Lemma to_integral_nonneg m d : 0 <= coef d → 0 <= to_integral m d.
Proof.
  intros Hd. unfold to_integral. case_match eqn:He; bool_prop.
  - unfold scaled. rewrite Z.sub_0_r. pose proof (pow10_pos (dexp d) He). nia.
  - apply rdiv_nonneg; [done|]. apply pow10_pos. lia.
Qed.

Lemma at_least_0_nonneg d : 0 <= coef (at_least_0 d).
Proof.
  unfold at_least_0, dmax. destruct (dltb d0 d) eqn:H; [|cbn; lia].
  apply dltb_val in H. destruct (Z.le_gt_cases (coef d) 0) as [Hd|]; [|lia].
  apply dval_nonpos in Hd. assert (⟦d0⟧ == 0)%Q by reflexivity. lra.
Qed.

(** Cents are never negative before the loops. *)
Lemma scaled_up_nonneg m d : 0 <= to_integral m (dmul prec28 (at_least_0 d) (of_int 100)).
Proof.
  apply to_integral_nonneg. unfold dmul. apply fix_prec_nonneg; [done|].
  cbn. pose proof (at_least_0_nonneg d). lia.
Qed.

(** A two-decimal store amount is its cents. *)
Lemma target_cents_exact store_targets site z :
  dget site store_targets = Some (cents z) → z < pow10 26 → target_cents store_targets site = Z.max 0 z.
Proof.
  intros H Hz. unfold target_cents. rewrite H; cbn [default from_option id].
  assert (Hp : pow10 28 = 100 * pow10 26) by (vm_compute; done).
  unfold at_least_0, dmax. rewrite dltb_0_cents. destruct (Z.ltb_spec 0 z) as [Hpos|]; [|by rewrite Z.max_l by lia].
  unfold dmul. rewrite fix_prec_small by (cbn; unfold prec28; lia).
  unfold to_integral, cents, of_int; cbn [coef dexp]. change (0 <=? -2 + 0) with false.
  change (- (-2 + 0)) with 2. unfold rdiv. rewrite Z.abs_eq by lia.
  change (pow10 2) with 100. rewrite Z.div_mul, Z.mod_mul by lia. change (2 * 0 <? 100) with true. cbn match. rewrite Z.sgn_pos by lia. lia.
Qed.

(** Dividing cents by a hundred loses nothing. *)
Lemma strip_zeros_spec fuel c e ideal :
  e <= ideal → 0 <= c →
  let d := strip_zeros fuel c e ideal in
  e <= dexp d <= ideal ∧ c = coef d * pow10 (dexp d - e) ∧ 0 <= coef d ∧
  (dexp d = Z.min ideal (e + Z.of_nat fuel) ∨ coef d mod 10 ≠ 0).
Proof.
  revert c e. induction fuel as [|fuel IH]; intros c e He Hc; cbn [strip_zeros].
  { cbn. rewrite Z.sub_diag. change (pow10 0) with 1. split_and!; try lia. }
  destruct (Z.ltb_spec e ideal) as [Hlt|]; cbn [andb]; last first.
  { cbn. rewrite Z.sub_diag. change (pow10 0) with 1. split_and!; try lia. }
  destruct (Z.eqb_spec (c mod 10) 0) as [Hm|Hm]; last first.
  { cbn. rewrite Z.sub_diag. change (pow10 0) with 1. split_and!; try lia. }
  pose proof (Z.div_mod c 10 ltac:(lia)). pose proof (Z.div_pos c 10 Hc ltac:(lia)).
  destruct (IH (c / 10) (e + 1) ltac:(lia) ltac:(lia)) as (H1 & H2 & H3 & H4).
  set (d := strip_zeros _ _ _ _) in *. split_and!; try lia.
  - replace (dexp d - e) with ((dexp d - (e + 1)) + 1) by lia. rewrite pow10_add by lia.
    change (pow10 1) with 10. lia.
Qed.

Lemma as_amount_cents c : 0 <= c < pow10 28 → as_amount c = Ok (cents c).
Proof.
  intros Hc. unfold as_amount, ddiv. cbn [coef of_int dexp].
  change (100 =? 0) with false. cbn match. destruct (Z.eqb_spec c 0) as [->|Hne]; [reflexivity|].
  change (ndigits 100) with 3. change (0 - 0) with 0. change prec28 with 28.
  destruct (ndigits_spec c Hne) as [_ Hn1]. assert (Hnd : ndigits c <= 28).
  { destruct (ndigits_spec c Hne) as [H1 _]. destruct (Z.le_gt_cases (ndigits c) 28); [done|].
    pose proof (pow10_mono 28 (ndigits c - 1) ltac:(lia)). lia. }
  set (shift := 3 - ndigits c + 28 + 1) in *. rewrite !(proj2 (Z.leb_le 0 shift)) by lia. cbn match.
  rewrite !Z.abs_eq by lia. rewrite Z.mul_1_r.
  replace (pow10 shift) with (pow10 (shift - 2) * 100).
  2: { change 100 with (pow10 2). rewrite <- pow10_add by lia. f_equal. lia. }
  rewrite Z.mul_assoc, Z.mod_mul, Z.div_mul by lia. cbn [Z.eqb].
  pose proof (pow10_pos (shift - 2) ltac:(lia)) as Hpp.
  destruct (strip_zeros_spec (Z.to_nat 30) (c * pow10 (shift - 2)) (0 - 0 - shift) 0 ltac:(lia) ltac:(nia))
    as (H1 & H2 & H3 & H4).
  set (d := strip_zeros _ _ _ _) in *.
  assert (He : -2 <= dexp d).
  { destruct (Z.le_gt_cases (-2) (dexp d)) as [|Hlt]; [done|]. exfalso.
    destruct H4 as [H4|H4]; [lia|]. apply H4.
    replace (shift - 2) with ((dexp d - (0 - 0 - shift)) + (-2 - dexp d - 1) + 1) in H2 by lia.
    rewrite !pow10_add in H2 by lia. change (pow10 1) with 10 in H2.
    pose proof (pow10_pos (dexp d - (0 - 0 - shift)) ltac:(lia)) as Hq.
    assert (coef d = c * pow10 (-2 - dexp d - 1) * 10) as -> by nia. apply Z.mod_mul. lia. }
  assert (Hcoef : c = coef d * pow10 (dexp d - -2)).
  { replace (dexp d - (0 - 0 - shift)) with ((dexp d - -2) + (shift - 2)) in H2 by lia.
    rewrite pow10_add in H2 by lia. nia. }
  pose proof (pow10_pos (dexp d - -2) ltac:(lia)) as Hq.
  rewrite (Z.sgn_pos c) by lia. cbn [mbind res_bind].
  rewrite fix_prec_small by (cbn [coef]; change (Z.sgn 100) with 1; nia).
  unfold quantize, scaled. cbn [coef dexp]. rewrite (proj2 (Z.leb_le (-2) (dexp d))) by done.
  change (1 * Z.sgn 100) with 1. rewrite Z.mul_1_l, <- Hcoef. rewrite Z.abs_eq by lia.
  by rewrite (proj2 (Z.ltb_lt _ _)) by lia.
Qed.

(** ** One store *)

Section Store.
Context (casefold : string → string) (values : list (key * dec)) (target : Z) (keys : list key).
Context (Hnd : NoDup keys) (Ht : 0 <= target).

Let floor (k : key) : Z := to_int (raw_cents values k).
Let ordered : list key := sorted_by (leb_on (λ k : key, casefold k.2) String.leb) keys.
Let ranked : list key := sorted_by (cents_leb casefold (raw_cents values) floor) ordered.

Lemma ranked_keys : ranked ≡ₚ keys.
Proof. unfold ranked, ordered. by rewrite !sorted_by_perm. Qed.

Lemma floor_nonneg k : 0 <= floor k.
Proof. unfold floor, to_int, raw_cents. apply scaled_up_nonneg. Qed.

Lemma start_lookup k :
  k ∈ keys → (list_to_map ((λ k, (k, floor k)) <$> ordered) : gmap key Z) !!! k = floor k.
Proof.
  intros Hk. unfold lookup_total, map_lookup_total.
  erewrite elem_of_list_to_map_1; [done| |].
  - rewrite <- list_fmap_compose, list_fmap_id. unfold ordered. by rewrite sorted_by_perm.
  - apply list_elem_of_fmap. exists k. split; [done|]. unfold ordered. by rewrite sorted_by_perm.
Qed.

Lemma floor_sum : ksum ranked (list_to_map ((λ k, (k, floor k)) <$> ordered)) = sumZ (floor <$> keys).
Proof.
  rewrite (ksum_perm _ keys) by apply ranked_keys. unfold ksum. f_equal. apply list_fmap_ext.
  intros i k Hk%list_elem_of_lookup_2. by apply start_lookup.
Qed.

(** The cents of the agents of one store. *)
Definition store_cents (k : key) (z : Z) : Prop :=
  0 <= z ∧
  (sumZ (floor <$> keys) <= target →
     z = floor k + round_robin ranked (target - sumZ (floor <$> keys)) k) ∧
  (target < sumZ (floor <$> keys) → z <= floor k).

Lemma allocate_store_spec :
  keys ≠ [] →
  ∃ l, allocate_store casefold values target keys = Ok l ∧ l.*1 ≡ₚ keys ∧ sumZ l.*2 = target ∧
    ∀ k z, (k, z) ∈ l → store_cents k z.
Proof.
  intros Hne. unfold allocate_store. fold floor. fold ordered. fold ranked.
  replace (sumZ (floor <$> ordered)) with (sumZ (floor <$> keys))
    by (unfold ordered; by rewrite sorted_by_perm).
  set (S := sumZ (floor <$> keys)). set (c0 := list_to_map _ : gmap key Z).
  assert (Hrk : ranked ≡ₚ keys) by apply ranked_keys.
  assert (Hrn : NoDup ranked) by (by rewrite Hrk).
  assert (Hrne : ranked ≠ []).
  { intros E. rewrite E in Hrk. by apply Permutation_nil_l in Hrk. }
  assert (Hc0 : ∀ k, k ∈ ranked → c0 !!! k = floor k).
  { intros k Hk. apply start_lookup. by rewrite <- Hrk. }
  assert (Hsum0 : ksum ranked c0 = S) by apply floor_sum.
  assert (Hlist : ∀ c : gmap key Z, ((λ k, (k, c !!! k)) <$> ordered).*1 ≡ₚ keys ∧
    sumZ ((λ k, (k, c !!! k)) <$> ordered).*2 = ksum ranked c ∧
    ∀ k z, (k, z) ∈ (λ k, (k, c !!! k)) <$> ordered → k ∈ ranked ∧ z = c !!! k).
  { intros c. split_and!.
    - rewrite <- list_fmap_compose, list_fmap_id. apply sorted_by_perm.
    - rewrite <- list_fmap_compose. rewrite (ksum_perm ranked ordered); [done|apply sorted_by_perm].
    - intros k z (j & [= -> ->] & Hj)%list_elem_of_fmap. split; [|done].
      unfold ranked. by rewrite sorted_by_perm. }
  destruct (Z.le_gt_cases S target) as [Hle|Hgt].
  - destruct (up_loop_spec (Datatypes.S (Z.to_nat (Z.abs (target - S)))) ranked c0 (target - S) Hrn Hrne ltac:(lia))
      as (c & -> & Hc).
    rewrite down_loop_idle by (left; lia). destruct (Hlist c) as (H1 & H2 & H3).
    eexists. split; [done|]. split; [done|]. split.
    + rewrite H2. unfold ksum. rewrite (list_fmap_ext _ (λ k, floor k + round_robin ranked (target - S) k)).
      2: { intros i k Hk%list_elem_of_lookup_2. by rewrite Hc, Hc0. }
      rewrite sumZ_add, round_robin_total by (done || lia). rewrite Hrk. fold S. lia.
    + intros k z [Hk ->]%H3. rewrite Hc, Hc0 by done. unfold store_cents. fold S.
      pose proof (floor_nonneg k). split_and!; [|done|lia].
      assert (0 <= round_robin ranked (target - S) k); [|lia]. unfold round_robin.
      pose proof (Z_div_nonneg_nonneg (target - S) (Z.of_nat (length ranked)) ltac:(lia) ltac:(lia)).
      repeat case_decide; lia.
  - rewrite up_loop_idle by (left; lia).
    destruct (down_loop_spec (Datatypes.S (Z.to_nat (Z.abs (target - S)))) (rev ranked) c0 (target - S))
      as (c & -> & Hsum & Hc); try lia.
    + by rewrite <- Permutation_rev.
    + intros k Hk. rewrite <- Permutation_rev in Hk. rewrite Hc0 by done. apply floor_nonneg.
    + rewrite <- (ksum_perm ranked (rev ranked)) by apply Permutation_rev. lia.
    + destruct (Hlist c) as (H1 & H2 & H3). eexists. split; [done|]. split; [done|].
      rewrite <- !(ksum_perm ranked (rev ranked)) in Hsum by apply Permutation_rev.
      split; [lia|]. intros k z [Hk ->]%H3. specialize (Hc k ltac:(by rewrite <- Permutation_rev)).
      rewrite Hc0 in Hc by done. unfold store_cents. fold S. split_and!; lia.
Qed.
End Store.

(** ** All stores *)

Lemma sites_of_spec values :
  NoDup (sites_of values) ∧ ∀ site, site ∈ sites_of values ↔ ∃ k, k ∈ values.*1 ∧ k.1 = site.
Proof.
  unfold sites_of.
  assert (H : ∀ l acc, NoDup acc →
    NoDup (foldl (λ l x, if bool_decide (x.1.1 ∈ l) then l else l ++ [x.1.1]) acc l) ∧
    ∀ site, site ∈ foldl (λ l (x : key * dec), if bool_decide (x.1.1 ∈ l) then l else l ++ [x.1.1]) acc l ↔
      site ∈ acc ∨ ∃ k, k ∈ l.*1 ∧ k.1 = site).
  { intros l. induction l as [|[k d] l IH]; intros acc Hacc; cbn.
    { split; [done|]. intros site. split; [by left|]. intros [|(k & Hk & _)]; [done|]. by apply elem_of_nil in Hk. }
    case_bool_decide as Hin.
    - destruct (IH acc Hacc) as [H1 H2]. split; [done|]. intros site. rewrite H2. cbn.
      setoid_rewrite elem_of_cons. split; [naive_solver|].
      intros [|(j & [-> |Hj] & <-)]; [by left|by left|right; eauto].
    - destruct (IH (acc ++ [k.1])) as [H1 H2].
      { apply NoDup_app. split_and!; [done|by intros x Hx ->%list_elem_of_singleton|apply NoDup_singleton]. }
      split; [done|]. intros site. rewrite H2, elem_of_app, list_elem_of_singleton.
      setoid_rewrite elem_of_cons. naive_solver. }
  destruct (H values [] (NoDup_nil_2)) as [H1 H2]. split; [done|]. intros site. rewrite H2.
  split; [|by right]. by intros [?%elem_of_nil|].
Qed.

Lemma keys_of_site_in values site k : k ∈ keys_of_site values site ↔ k ∈ values.*1 ∧ k.1 = site.
Proof. unfold keys_of_site. by rewrite list_elem_of_In, filter_In, <- list_elem_of_In, bool_decide_eq_true. Qed.

Lemma keys_of_site_NoDup values site : NoDup values.*1 → NoDup (keys_of_site values site).
Proof.
  intros H. unfold keys_of_site. rewrite <- (list_fmap_id (List.filter _ _)).
  apply NoDup_fmap_filter. by rewrite list_fmap_id.
Qed.

(** Grouped by store, the keys are the keys of the values. *)
Lemma group_by_site values :
  NoDup values.*1 → concat (keys_of_site values <$> sites_of values) ≡ₚ values.*1.
Proof.
  intros Hnd. destruct (sites_of_spec values) as [Hs1 Hs2]. apply NoDup_Permutation; [|done|].
  - clear Hs2. induction Hs1 as [|s l Hs Hl IH]; cbn; [constructor|].
    apply NoDup_app. split_and!; [by apply keys_of_site_NoDup| |done].
    intros k [_ Hk]%keys_of_site_in Hin. apply elem_of_concat in Hin as (ks & Hin & Hks).
    apply list_elem_of_fmap in Hks as (s' & -> & Hs'). apply keys_of_site_in in Hin as [_ <-]. congruence.
  - intros k. rewrite elem_of_concat. split.
    + intros (ks & Hin & (s & -> & _)%list_elem_of_fmap). by apply keys_of_site_in in Hin as [? _].
    + intros Hk. exists (keys_of_site values k.1). split; [by apply keys_of_site_in|].
      apply list_elem_of_fmap_2. apply Hs2. eauto.
Qed.

(** The cents that a list of amounts gives to the agents of a store. *)
Definition site_amount (out : list (key * dec)) (site : string) : Z :=
  sumZ ((λ x, if bool_decide (x.1.1 = site) then coef x.2 else 0) <$> out).

Lemma site_amount_app a b site : site_amount (a ++ b) site = site_amount a site + site_amount b site.
Proof. unfold site_amount. by rewrite fmap_app, sumZ_app. Qed.

Lemma site_amount_own (l : list (key * dec)) site :
  (∀ x, x ∈ l → x.1.1 = site) → site_amount l site = sumZ ((coef ∘ snd) <$> l).
Proof.
  intros H. unfold site_amount. f_equal. apply list_fmap_ext. intros i x Hx%list_elem_of_lookup_2.
  by rewrite bool_decide_eq_true_2 by auto.
Qed.

Lemma site_amount_other (l : list (key * dec)) site :
  (∀ x, x ∈ l → x.1.1 ≠ site) → site_amount l site = 0.
Proof.
  intros H. unfold site_amount. rewrite (list_fmap_ext _ (λ _, 0)), sumZ_const; [lia|].
  intros i x Hx%list_elem_of_lookup_2. by rewrite bool_decide_eq_false_2 by auto.
Qed.

Section Stores.
Context (casefold : string → string) (values : list (key * dec)) (targets : list (string * dec)).
Context (Hnd : NoDup values.*1) (Hfit : ∀ site, target_cents targets site < pow10 28).

(** What one store's part of the result is. *)
Definition site_part (site : string) (part : list (key * dec)) : Prop :=
  part.*1 ≡ₚ keys_of_site values site ∧
  sumZ ((coef ∘ snd) <$> part) = target_cents targets site ∧
  ∀ k d, (k, d) ∈ part → ∃ z, d = cents z ∧
    store_cents casefold values (target_cents targets site) (keys_of_site values site) k z.

Lemma allocate_site_spec site :
  site ∈ sites_of values → ∃ part, allocate_site casefold values targets site = Ok part ∧ site_part site part.
Proof.
  intros Hs. apply sites_of_spec in Hs as (k0 & Hk0 & Hsite).
  assert (Hne : keys_of_site values site ≠ []).
  { intros E. assert (Hin : k0 ∈ keys_of_site values site) by (by apply keys_of_site_in).
    rewrite E in Hin. by apply elem_of_nil in Hin. }
  pose proof (scaled_up_nonneg HALF_EVEN (default d0 (dget site targets))) as Ht.
  fold (target_cents targets site) in Ht.
  destruct (allocate_store_spec casefold values (target_cents targets site) (keys_of_site values site)
    (keys_of_site_NoDup _ _ Hnd) Ht Hne) as (l & Hl & Hkeys & Hsum & Hz).
  unfold allocate_site. rewrite Hl. cbn [mbind res_bind].
  assert (Hpos : Forall (λ z, 0 <= z) l.*2).
  { apply Forall_fmap, Forall_forall. intros [k z] Hin. cbn. by destruct (Hz _ _ Hin). }
  destruct (mapR_total (λ x : key * Z, d ← as_amount x.2; Ok (x.1, d)) (λ x y, y = (x.1, cents x.2)) l)
    as (part & Hpart & Hf).
  { intros [k z] Hin. cbn. exists (k, cents z). split; [|done].
    assert (Hzl : z <= sumZ l.*2) by (apply sumZ_elem; [done|by apply (list_elem_of_fmap_2 snd _ (k, z))]).
    specialize (Hfit site). destruct (Hz _ _ Hin) as [? _]. by rewrite as_amount_cents by lia. }
  exists part. split; [done|].
  assert (part = (λ x, (x.1, cents x.2)) <$> l) as ->.
  { clear -Hf. induction Hf as [|x y l k -> Hf IH]; cbn; [done|]. by rewrite <- IH. }
  unfold site_part. split_and!.
  - rewrite <- list_fmap_compose. by rewrite <- Hkeys.
  - rewrite <- list_fmap_compose. by rewrite <- Hsum.
  - intros k d ([j z] & [= -> ->] & Hin)%list_elem_of_fmap. exists z. split; [done|by apply Hz].
Qed.

Lemma allocate_currency_parts :
  ∃ parts, allocate_currency_targets casefold values targets = Ok (concat parts) ∧
    Forall2 site_part (sites_of values) parts.
Proof.
  unfold allocate_currency_targets.
  destruct (mapR_total (allocate_site casefold values targets) site_part (sites_of values))
    as (parts & -> & H); [|by exists parts].
  intros site Hs. by apply allocate_site_spec.
Qed.

Lemma parts_keys sites parts :
  Forall2 site_part sites parts → (concat parts).*1 ≡ₚ concat (keys_of_site values <$> sites).
Proof. induction 1 as [|s p ss ps [Hp _] _ IH]; cbn; [done|]. by rewrite fmap_app, Hp, IH. Qed.

Lemma part_site s p x : site_part s p → x ∈ p → x.1.1 = s.
Proof.
  intros [Hp _] Hx. assert (Hk : x.1 ∈ p.*1) by (by apply list_elem_of_fmap_2).
  rewrite Hp in Hk. by apply keys_of_site_in in Hk as [_ ?].
Qed.

Lemma parts_amount sites parts site :
  NoDup sites → Forall2 site_part sites parts → site ∈ sites →
  site_amount (concat parts) site = target_cents targets site.
Proof.
  intros Hs H. induction H as [|s p ss ps Hp Hps IH]; intros Hin; [by apply elem_of_nil in Hin|].
  apply NoDup_cons in Hs as [Hn Hs]. change (concat (p :: ps)) with (p ++ concat ps).
  rewrite site_amount_app.
  apply elem_of_cons in Hin as [-> | Hin].
  - rewrite site_amount_own by (intros x Hx; by apply (part_site s p)).
    rewrite (site_amount_other (concat ps)); [destruct Hp as (_ & -> & _); lia|].
    intros x Hx <-. apply elem_of_concat in Hx as (q & Hx & Hq).
    apply list_elem_of_lookup in Hq as [i Hi].
    destruct (Forall2_lookup_r _ _ _ _ _ Hps Hi) as (s' & Hs' & Hsp).
    apply Hn. rewrite (part_site s' q x Hsp Hx). by eapply list_elem_of_lookup_2.
  - rewrite site_amount_other, IH by done || (intros x Hx; rewrite (part_site s p x Hp Hx); by intros ->). lia.
Qed.

Lemma parts_elem sites parts k d :
  Forall2 site_part sites parts → (k, d) ∈ concat parts →
  ∃ z, d = cents z ∧ store_cents casefold values (target_cents targets k.1) (keys_of_site values k.1) k z.
Proof.
  intros H Hin. apply elem_of_concat in Hin as (q & Hx & Hq).
  apply list_elem_of_lookup in Hq as [i Hi].
  destruct (Forall2_lookup_r _ _ _ _ _ H Hi) as (s' & Hs' & Hsp).
  pose proof (part_site s' q (k, d) Hsp Hx) as Hk. cbn in Hk. subst s'. destruct Hsp as (_ & _ & Hz).
  by apply Hz.
Qed.
End Stores.
End CampaignCents.
