(* ===== verification/CampaignAgents.v ===== *)
(** The incentive projection of Campaigns: the store accumulator
    ([services/campaigns/incentives.py]) and the exclusions and agent rows
    ([services/campaigns/aggregation.py]) built on the allocations of [CampaignMoney].

    Dictionaries are association lists in insertion order.  The multiplier of a store is
    the [Decimal] printed by its float; an achievement is the exact value of its float. *)

From Stdlib Require Import QArith.
From S2P Require Import Prelude Decimal Dict SalesText CampaignMoney.

Local Open Scope Z_scope.

Module CampaignAgents.
Import CampaignMoney.

(** (period start, period end, store, item), and with the agent before the item. *)
Notation item_key := (string * string * string * string)%type (only parsing).
Notation agent_item_key := (string * string * string * string * string)%type (only parsing).

Definition site_of (k : item_key) : string := k.1.2.

Record period := Period { valid_from : string; valid_to : string }.

Record store_row := StoreRow {
  s_site : string;
  s_item : string;
  s_qty : option Z;
  s_from : option string;
  s_to : option string;
  s_reward : option dec;
  s_locatie : string;
  s_firma : option string;
  s_regional : option string;
  s_category : option string;
  s_subcategory : option string;
}.

Record agent_row := AgentRow {
  a_agent : string;
  a_site : string;
  a_item : string;
  a_qty : Z;
  a_from : option string;
  a_to : option string;
  a_reward : option dec;
  a_locatie : option string;
  a_firma : option string;
}.

Record snapshot := Snapshot {
  incentive_store_rows : list store_row;
  incentive_agent_rows : list agent_row;
  store_multipliers : list (string * dec);
  store_achievements : list (string * option Q);
  reward_map : list (string * dec);
  campaign_periods : list period;
}.

(** [row.get(x) or campaign_periods[0][x]] *)
Definition bound (own : option string) (of_period : period → string) (periods : list period)
    : res error string :=
  match own, periods with
  | Some s, _ => Ok s
  | None, p :: _ => Ok (of_period p)
  | None, [] => Err IndexError
  end.

(** [row.get('reward_value') or reward_map.get(item, 0)], as money. *)
Definition reward_of (own : option dec) (rewards : list (string * dec)) (item : string) : res error dec :=
  let listed := default d0 (dget item rewards) in
  money (match own with Some r => if dbool r then r else listed | None => listed end).

Definition multiplier (s : snapshot) (site : string) : dec := default d0 (dget site (store_multipliers s)).

(** Python's [a or b] on strings. *)
Definition or_else (a : option string) (b : string) : string :=
  match a with Some s => if String.eqb s "" then b else s | None => b end.

(** ** Exclusions *)

Definition merge_excluded_units {K} `{EqDecision K} (target source : list (K * Z)) : list (K * Z) :=
  foldl (λ t x, dadd_to x.1 x.2 t) target source.

(** The agent dimension dropped from the period's exclusions. *)
Definition excluded_by_period_site_item (excluded : list (agent_item_key * Z)) : list (item_key * Z) :=
  foldl (λ t x, let '(start, stop, site, _, item) := x.1 in dadd_to (start, stop, site, item) x.2 t)
    [] excluded.

(** Receipts by store, by agent, and by store of each agent. *)
Definition promo_receipt_totals (excluded : list (string * string * string * Z))
    : list (string * Z) * list (string * Z) * list (string * list (string * Z)) :=
  foldl (λ t x,
    let '(by_store, by_agent, agent_sites) := t in
    let '(site, agent, _) := x.1 in
    let by_store := dadd_to site x.2 by_store in
    if String.eqb agent "" || String.eqb agent "-" then (by_store, by_agent, agent_sites)
    else (by_store, dadd_to agent x.2 by_agent,
          dput agent (dadd_to site x.2 (default [] (dget agent agent_sites))) agent_sites))
    ([], [], []) excluded.

(** ** Stores *)

Record store_incentive := StoreIncentive {
  location : string;
  store_value : dec;
  company : string;
  store_qty : Z;
  store_potential : dec;
}.

Record accumulator := Accumulator {
  store_incentives : list (string * store_incentive);
  store_eligible_by_item : list (item_key * Z);
  store_reward_by_item : list (item_key * dec);
  period_totals : list (string * string * (Z * dec * dec));
  category_totals : list (string * (Z * dec * dec * Z));
  tier_totals : list (string * (Z * dec));
  sold_qty : Z;
  qty : Z;
  value : dec;
  potential : dec;
  qualified_qty : Z;
}.

Definition empty_accumulator : accumulator := Accumulator [] [] [] [] [] [] 0 0 d0 d0 0.

(** The binary float [0.9]. *)
Definition nine_tenths : Q := 8106479329266893 # 9007199254740992.

(** [(store_achievements.get(site) or 0) >= 0.9] *)
Definition qualified (s : snapshot) (site : string) : bool :=
  Qle_bool nine_tenths (default 0%Q (mjoin (dget site (store_achievements s)))).

(** [f'{int(reward)} RON' if reward == int(reward) else f'{reward} RON'] of a money value. *)
Definition tier_label (reward : dec) : string :=
  (if deqb reward (of_int (to_int reward)) then SalesText.int_text (to_int reward) else SalesText.money_text (coef reward))
  +:+ " RON".

Definition add28 : dec → dec → dec := dadd prec28.

Definition row_item_key (s : snapshot) (from to : option string) (site item : string) : res error item_key :=
  start ← bound from valid_from (campaign_periods s);
  stop ← bound to valid_to (campaign_periods s);
  Ok (start, stop, site, item).

Definition _accumulate_incentive_store_row (s : snapshot) (excluded_by_site : list (item_key * Z))
    (acc : accumulator) (row : store_row) : res error accumulator :=
  key ← row_item_key s (s_from row) (s_to row) (s_site row) (s_item row);
  reward ← reward_of (s_reward row) (reward_map s) (s_item row);
  let raw_qty := default 0 (s_qty row) in
  let eligible := Z.max 0 (raw_qty - default 0 (dget key excluded_by_site)) in
  item_potential ← money (dmul prec28 (of_int eligible) reward);
  item_value ← money (dmul prec28 item_potential (multiplier s (s_site row)));
  let full := qualified s (s_site row) in
  let old := default (StoreIncentive (s_locatie row) d0 (default "" (s_firma row)) 0 d0)
               (dget (s_site row) (store_incentives acc)) in
  let store := StoreIncentive (location old) (add28 (store_value old) item_value) (company old)
                 (store_qty old + eligible) (add28 (store_potential old) item_potential) in
  let period := (key.1.1.1, key.1.1.2) in
  let '(pq, pp, pv) := default (0, d0, d0) (dget period (period_totals acc)) in
  let category := or_else (s_subcategory row) (or_else (s_category row) "Necategorizat") in
  let '(cq, cp, cv, cf) := default (0, d0, d0, 0) (dget category (category_totals acc)) in
  let tier := tier_label reward in
  let '(tq, tp) := default (0, d0) (dget tier (tier_totals acc)) in
  Ok (Accumulator
    (dput (s_site row) store (store_incentives acc))
    (dput key eligible (store_eligible_by_item acc))
    (dput key reward (store_reward_by_item acc))
    (dput period (pq + eligible, add28 pp item_potential, add28 pv item_value) (period_totals acc))
    (dput category (cq + eligible, add28 cp item_potential, add28 cv item_value,
                    if full then cf + eligible else cf) (category_totals acc))
    (dput tier (tq + eligible, add28 tp item_potential) (tier_totals acc))
    (sold_qty acc + raw_qty)
    (qty acc + eligible)
    (add28 (value acc) item_value)
    (add28 (potential acc) item_potential)
    (if full then qualified_qty acc + eligible else qualified_qty acc)).

Definition _build_incentive_accumulator (s : snapshot) (excluded_by_site : list (item_key * Z))
    : res error accumulator :=
  foldR (_accumulate_incentive_store_row s excluded_by_site) empty_accumulator (incentive_store_rows s).

(** ** Agents *)

Record agent_inputs := AgentInputs {
  agent_item_quantities : list (item_key * list (option string * Z));
  agent_item_rewards : list (item_key * dec);
  agent_store_meta : list (string * (string * string));
}.

Definition agent_quantity_step (s : snapshot) (period_excluded_agent : list (agent_item_key * Z))
    (i : agent_inputs) (row : agent_row) : res error agent_inputs :=
  key ← row_item_key s (a_from row) (a_to row) (a_site row) (a_item row);
  let excluded := default 0 (dget (key.1, a_agent row, a_item row) period_excluded_agent) in
  let eligible := Z.max 0 (a_qty row - excluded) in
  let quantities := default [] (dget key (agent_item_quantities i)) in
  reward ← reward_of (a_reward row) (reward_map s) (a_item row);
  Ok (AgentInputs
    (dput key (dadd_to (Some (a_agent row)) eligible quantities) (agent_item_quantities i))
    (dput key reward (agent_item_rewards i))
    (dput (a_site row) (or_else (a_locatie row) "", or_else (a_firma row) "") (agent_store_meta i))).

Definition _agent_quantity_inputs (s : snapshot) (period_excluded_agent : list (agent_item_key * Z))
    : res error agent_inputs :=
  foldR (agent_quantity_step s period_excluded_agent) (AgentInputs [] [] []) (incentive_agent_rows s).

Definition item_key_leb : item_key → item_key → bool :=
  lex_leb (cmp_on (λ k : item_key, k.1.1.1) String.compare)
    (lex_leb (cmp_on (λ k : item_key, k.1.1.2) String.compare)
       (lex_leb (cmp_on (λ k : item_key, k.1.2) String.compare)
          (leb_on (λ k : item_key, k.2) String.leb))).

(** Quantities, potentials and values by store and agent label. *)
Record agent_totals := AgentTotals {
  agent_quantities : list (key * Z);
  agent_potentials : list (key * dec);
  agent_values : list (key * dec);
}.

Definition credit_agent (s : snapshot) (site : string) (reward : dec) (t : agent_totals)
    (allocated : option string * Z) : res error agent_totals :=
  let agent_key := (site, or_else allocated.1 "Neatribuit") in
  agent_potential ← money (dmul prec28 (of_int allocated.2) reward);
  agent_value ← money (dmul prec28 agent_potential (multiplier s site));
  let plus d x := dput agent_key (add28 (default d0 (dget agent_key d)) x) d in
  Ok (AgentTotals (dadd_to agent_key allocated.2 (agent_quantities t))
        (plus (agent_potentials t) agent_potential) (plus (agent_values t) agent_value)).

Definition credit_item (casefold : string → string) (s : snapshot) (acc : accumulator) (i : agent_inputs)
    (t : agent_totals) (k : item_key) : res error agent_totals :=
  let allocated := allocate_integer_target casefold (default [] (dget k (agent_item_quantities i)))
                     (default 0 (dget k (store_eligible_by_item acc))) in
  fallback ← money (default d0 (dget k.2 (reward_map s)));
  let reward := default (default fallback (dget k (store_reward_by_item acc)))
                  (dget k (agent_item_rewards i)) in
  foldR (credit_agent s (site_of k) reward) t allocated.

Definition item_keys (acc : accumulator) (i : agent_inputs) : list item_key :=
  sorted_by item_key_leb
    (remove_dups ((store_eligible_by_item acc).*1 ++ (agent_item_quantities i).*1)).

Record top_agent := TopAgent {
  agent_name : string;
  site_code : string;
  regional : string;
  store_name : string;
  firma : string;
  qty_sold : Z;
  val_incentive : dec;
  incentive_potential : dec;
  achievement : option Q;
}.

Definition regionals (s : snapshot) : list (string * string) :=
  foldl (λ d row, dput (s_site row) (or_else (s_regional row) "") d) [] (incentive_store_rows s).

Definition agent_row_of (s : snapshot) (acc : accumulator) (i : agent_inputs) (t : agent_totals)
    (values potentials : list (key * dec)) (k : key) : res error top_agent :=
  let '(site, agent) := k in
  let '(location, company) :=
    default (match dget site (store_incentives acc) with
             | Some st => (location st, company st)
             | None => (""%string, ""%string)
             end) (dget site (agent_store_meta i)) in
  let store_name := if negb (String.eqb site "") && negb (String.eqb location "")
                    then site +:+ " - " +:+ location else site in
  v ← money (default d0 (dget k values));
  p ← money (default d0 (dget k potentials));
  Ok (TopAgent agent site (default ""%string (dget site (regionals s))) store_name company
        (default 0 (dget k (agent_quantities t))) v p (mjoin (dget site (store_achievements s)))).

Definition higher_value (a b : top_agent) : bool := dleb (val_incentive b) (val_incentive a).

Definition store_values (acc : accumulator) : list (string * dec) :=
  (λ x, (x.1, store_value x.2)) <$> store_incentives acc.
Definition store_potentials (acc : accumulator) : list (string * dec) :=
  (λ x, (x.1, store_potential x.2)) <$> store_incentives acc.

Definition build_incentive_agent_rows (casefold : string → string) (s : snapshot)
    (period_excluded_agent : list (agent_item_key * Z)) (acc : accumulator) : res error (list top_agent) :=
  i ← _agent_quantity_inputs s period_excluded_agent;
  t ← foldR (credit_item casefold s acc i) (AgentTotals [] [] []) (item_keys acc i);
  allocated_values ← allocate_currency_targets casefold (agent_values t) (store_values acc);
  allocated_potentials ← allocate_currency_targets casefold (agent_potentials t) (store_potentials acc);
  rows ← mapR (agent_row_of s acc i t allocated_values allocated_potentials) (agent_values t).*1;
  Ok (sorted_by higher_value rows).

(** The store and agent part of [_apply_campaign_incentive]. *)
Definition incentive_projection (casefold : string → string) (s : snapshot)
    (excluded_by_agent : list (agent_item_key * Z)) : res error (accumulator * list top_agent) :=
  acc ← _build_incentive_accumulator s (excluded_by_period_site_item excluded_by_agent);
  rows ← build_incentive_agent_rows casefold s excluded_by_agent acc;
  Ok (acc, rows).

End CampaignAgents.
