(* ===== verification/CampaignSpec.v ===== *)
(** The composition of the incentive projection: what the stores earn reaches their
    agents, to the unit and to the cent.  Then a projection of two stores with the witnesses
    of the campaign properties (Module CampaignDemo). *)

From Stdlib Require Import QArith.
From S2P Require Import Prelude Decimal Dict CampaignMoney CampaignMoneySpec CampaignCents CampaignAgents.

Local Open Scope Z_scope.

Module CampaignSpec.
Import CampaignMoney CampaignMoneySpec CampaignCents CampaignAgents.

(** ** Currency allocations *)

(** C36: [allocate_currency_targets] is total and exact.  It gives every agent key exactly
    one amount of two decimals, never negative, and the amounts of each store add up to the
    store's amount in cents (stores below 10^26 lei). *)
Theorem allocate_currency_exact casefold values targets (Hnd : NoDup values.*1)
    (Hfit : ∀ site, target_cents targets site < pow10 28) :
  ∃ out, allocate_currency_targets casefold values targets = Ok out ∧
    out.*1 ≡ₚ values.*1 ∧
    (∀ k d, (k, d) ∈ out → ∃ z, d = cents z ∧ 0 <= z) ∧
    (∀ site, site ∈ values.*1.*1 → site_amount out site = target_cents targets site).
Proof.
  destruct (allocate_currency_parts casefold values targets Hnd Hfit) as (parts & Hout & Hparts).
  destruct (sites_of_spec values) as [Hs1 Hs2]. exists (concat parts). split_and!; [done| | |].
  - rewrite (parts_keys _ _ _ _ _ Hparts). by apply group_by_site.
  - intros k d Hin. destruct (parts_elem _ _ _ _ _ _ _ Hparts Hin) as (z & -> & Hz & _). by exists z.
  - intros site Hin. eapply parts_amount; [done|done|]. apply Hs2.
    apply list_elem_of_fmap in Hin as (k & -> & Hk). eauto.
Qed.

(** The agents of a store in the order in which missing cents are handed out: the largest
    fraction of a cent first. *)
Definition cents_ranking (casefold : string → string) (values : list (key * dec)) (site : string) : list key :=
  sorted_by (cents_leb casefold (raw_cents values) (λ k, to_int (raw_cents values k)))
    (sorted_by (leb_on (λ k : key, casefold k.2) String.leb) (keys_of_site values site)).

(** C37: the two loops over the cents are equivalent to a reference formula.  When the whole
    cents of a store's agents do not exceed the store's amount, the amount of each agent is
    its own whole cents plus a round robin over the ranking; when they exceed it, no agent
    gets more than its own whole cents. *)
Theorem cents_loops_closed_form casefold values targets out k d (Hnd : NoDup values.*1)
    (Hfit : ∀ site, target_cents targets site < pow10 28)
    (Hrun : allocate_currency_targets casefold values targets = Ok out) (Hin : (k, d) ∈ out) :
  let whole j := to_int (raw_cents values j) in
  let missing := target_cents targets k.1 - sumZ (whole <$> keys_of_site values k.1) in
  (0 <= missing → d = cents (whole k + round_robin (cents_ranking casefold values k.1) missing k)) ∧
  (missing < 0 → ∃ z, d = cents z ∧ 0 <= z <= whole k).
Proof.
  cbv zeta. destruct (allocate_currency_parts casefold values targets Hnd Hfit) as (parts & Hout & Hparts).
  rewrite Hout in Hrun. injection Hrun as <-.
  destruct (parts_elem _ _ _ _ _ _ _ Hparts Hin) as (z & -> & H0 & Hup & Hdown). split; intros Hm.
  - f_equal. apply Hup. lia.
  - exists z. split; [done|]. split; [done|]. apply Hdown. lia.
Qed.

(** ** The inputs of the agents *)

Lemma agent_inputs_NoDup s excluded i :
  _agent_quantity_inputs s excluded = Ok i →
  ∀ k, NoDup (default [] (dget k (agent_item_quantities i))).*1.
Proof.
  unfold _agent_quantity_inputs.
  apply (foldR_inv (λ _ i, ∀ k, NoDup (default [] (dget k (agent_item_quantities i))).*1)).
  - intros done row t t' IH H k. unfold agent_quantity_step in H. inv_res. cbn.
    rewrite dget_dput. case_decide; [|by apply IH]. cbn. unfold dadd_to. apply dput_NoDup, IH.
  - intros k. cbn. constructor.
Qed.

(** ** Crediting the agents *)

(** The three dictionaries have the same distinct keys. *)
Definition aligned (t : agent_totals) : Prop :=
  NoDup (agent_values t).*1 ∧ (agent_quantities t).*1 = (agent_values t).*1 ∧
  (agent_potentials t).*1 = (agent_values t).*1.

Definition in_site (site : string) (k : key) : bool := bool_decide (k.1 = site).

Lemma credit_agent_spec s site reward t a t' :
  credit_agent s site reward t a = Ok t' → aligned t →
  aligned t' ∧ ∀ x, dtotal_if (in_site x) (agent_quantities t') =
    dtotal_if (in_site x) (agent_quantities t) + (if bool_decide (site = x) then a.2 else 0).
Proof.
  unfold credit_agent. intros H (Hn & Hq & Hp). inv_res. split.
  - unfold aligned; cbn. unfold dadd_to. rewrite !dput_keys, Hq, Hp. split_and!; [|done..].
    pose proof (dput_NoDup (site, or_else a.1 "Neatribuit") d0 _ Hn) as Hd. by rewrite dput_keys in Hd.
  - intros x. cbn [agent_quantities]. rewrite dadd_to_total_if. done.
Qed.

Lemma credit_agents_spec s site reward l t t' :
  foldR (credit_agent s site reward) t l = Ok t' → aligned t →
  aligned t' ∧ ∀ x, dtotal_if (in_site x) (agent_quantities t') =
    dtotal_if (in_site x) (agent_quantities t) + (if bool_decide (site = x) then dtotal l else 0).
Proof.
  revert t. induction l as [|a l IH]; intros t H Ha; cbn in H; inv_res.
  { split; [done|]. intros x. case_bool_decide; cbn; lia. }
  destruct (credit_agent_spec _ _ _ _ _ _ Hv Ha) as [Ha' Hq].
  destruct (IH _ H Ha') as [Ha2 Hq2]. split; [done|]. intros x. rewrite Hq2, Hq.
  case_bool_decide; cbn; unfold dtotal; lia.
Qed.

Lemma credit_items_spec casefold s acc i ks t t' :
  (∀ k, NoDup (default [] (dget k (agent_item_quantities i))).*1) →
  foldR (credit_item casefold s acc i) t ks = Ok t' → aligned t →
  aligned t' ∧ ∀ x, dtotal_if (in_site x) (agent_quantities t') =
    dtotal_if (in_site x) (agent_quantities t) +
    sumZ ((λ k, if bool_decide (site_of k = x)
                then Z.max 0 (default 0 (dget k (store_eligible_by_item acc))) else 0) <$> ks).
Proof.
  intros Hi. revert t. induction ks as [|k ks IH]; intros t H Ha; cbn in H; inv_res.
  { split; [done|]. intros x. cbn. lia. }
  unfold credit_item in Hv. inv_res. destruct (credit_agents_spec _ _ _ _ _ _ Hv Ha) as [Ha' Hq].
  destruct (IH _ H Ha') as [Ha2 Hq2]. split; [done|]. intros x. rewrite Hq2, Hq. cbn.
  destruct (allocate_integer_exact casefold (default [] (dget k (agent_item_quantities i)))
    (default 0 (dget k (store_eligible_by_item acc))) (Hi k)) as [-> _]. lia.
Qed.

(** ** The rows of the agents *)

(** The total of a figure over the rows of a store. *)
Definition rows_total (f : top_agent → Z) (rows : list top_agent) (site : string) : Z :=
  sumZ ((λ r, if bool_decide (site_code r = site) then f r else 0) <$> rows).

Lemma agent_row_spec s acc i t values potentials k r :
  agent_row_of s acc i t values potentials k = Ok r →
  site_code r = k.1 ∧ qty_sold r = default 0 (dget k (agent_quantities t)) ∧
  money (default d0 (dget k values)) = Ok (val_incentive r) ∧
  money (default d0 (dget k potentials)) = Ok (incentive_potential r).
Proof.
  unfold agent_row_of. destruct k as [site agent].
  destruct (default _ (dget site (agent_store_meta i))) as [location company].
  intros H. inv_res. cbn. done.
Qed.

(** Rows made from the keys of a dictionary total like the dictionary. *)
Lemma rows_total_dict {V} (f : top_agent → Z) (g : V → Z) (d : list (key * V)) ks rows site :
  NoDup d.*1 → d.*1 ≡ₚ ks →
  Forall2 (λ k r, site_code r = k.1 ∧ ∀ v, dget k d = Some v → f r = g v) ks rows →
  rows_total f rows site = sumZ ((λ x, if bool_decide (x.1.1 = site) then g x.2 else 0) <$> d).
Proof.
  intros Hnd Hp H. rewrite dict_expand by done. rewrite Hp.
  assert (Hin : ∀ k, k ∈ ks → is_Some (dget k d)) by (intros k Hk; apply dget_is_Some; by rewrite Hp).
  clear Hp. unfold rows_total. induction H as [|k r ks rows [Hs Hf] _ IH]; cbn; [done|].
  rewrite IH by (intros j Hj; apply Hin; by right). apply (f_equal2 Z.add); [|done].
  destruct (Hin k) as [v Hv]; [by left|]. rewrite Hv, Hs. cbn. case_bool_decide; [by apply Hf|done].
Qed.

Lemma rows_total_sorted f rows site :
  rows_total f (sorted_by higher_value rows) site = rows_total f rows site.
Proof. unfold rows_total. by rewrite sorted_by_perm. Qed.

(** ** The stores *)

Definition store_qty_of (acc : accumulator) (site : string) : Z :=
  default 0 (store_qty <$> dget site (store_incentives acc)).

Definition row_key (s : snapshot) (r : store_row) (k : item_key) : Prop :=
  row_item_key s (s_from r) (s_to r) (s_site r) (s_item r) = Ok k.

Lemma row_key_site s r k : row_key s r k → site_of k = s_site r.
Proof. unfold row_key, row_item_key. intros H. by inv_res. Qed.

Definition site_item (site : string) (k : item_key) : bool := bool_decide (site_of k = site).

Lemma accumulator_spec s excluded acc keys :
  _build_incentive_accumulator s excluded = Ok acc →
  Forall2 (row_key s) (incentive_store_rows s) keys → NoDup keys →
  (store_eligible_by_item acc).*1 = keys ∧
  (∀ k z, (k, z) ∈ store_eligible_by_item acc → 0 <= z) ∧
  ∀ site, store_qty_of acc site = dtotal_if (site_item site) (store_eligible_by_item acc).
Proof.
  unfold _build_incentive_accumulator. intros H. revert keys.
  refine (foldR_inv (λ rows acc, ∀ keys, Forall2 (row_key s) rows keys → NoDup keys →
    (store_eligible_by_item acc).*1 = keys ∧
    (∀ k z, (k, z) ∈ store_eligible_by_item acc → 0 <= z) ∧
    ∀ site, store_qty_of acc site = dtotal_if (site_item site) (store_eligible_by_item acc))
    _ _ _ _ _ _ H); clear H.
  - intros rows row t t' IH Hstep keys Hk Hnd. unfold _accumulate_incentive_store_row in Hstep. inv_res.
    destruct (default (0, d0, d0) _) as [[pq pp] pv], (default (0, d0, d0, 0) _) as [[[cq cp] cv] cf].
    destruct (default (0, d0) _) as [tq tp]. injection Hstep as <-. cbn [store_eligible_by_item].
    apply Forall2_app_inv_l in Hk as (keys0 & last & Hk0 & Hlast & ->).
    inversion Hlast as [|? k ? rest Hrow Hrest]; subst. inversion Hrest; subst.
    assert (Hvk : row_key s row v) by done. unfold row_key in Hrow, Hvk. rewrite Hvk in Hrow.
    injection Hrow as <-. apply NoDup_app in Hnd as (Hnd & Hout & _).
    assert (Hfresh : v ∉ keys0) by (intros Hc; apply (Hout v Hc); by left).
    destruct (IH keys0 Hk0 Hnd) as (Hkeys & Hpos & Hqty). split_and!.
    + by rewrite dput_keys, Hkeys, decide_False.
    + intros k z Hin. assert (Hd : NoDup (store_eligible_by_item t).*1) by (by rewrite Hkeys).
      apply dget_elem in Hin; [|by apply dput_NoDup]. rewrite dget_dput in Hin.
      case_decide; [injection Hin as <-; lia|]. apply (Hpos k). by apply dget_elem.
    + intros site. rewrite dput_total_if, <- Hqty. unfold store_qty_of. cbn [store_incentives]. rewrite dget_dput.
      pose proof (row_key_site s row v Hvk) as Hsite. unfold site_item.
      assert (Hnone : dget v (store_eligible_by_item t) = None) by (apply dget_None; by rewrite Hkeys).
      rewrite Hnone, Hsite. cbn. destruct (decide (site = s_site row)) as [->|Hne].
      * rewrite bool_decide_eq_true_2 by done. cbn.
        destruct (dget (s_site row) (store_incentives t)); cbn; lia.
      * rewrite bool_decide_eq_false_2 by done. lia.
  - intros keys Hk _. apply Forall2_nil_inv_l in Hk as ->. cbn. split_and!; [done| |done].
    by intros k z ?%elem_of_nil.
Qed.

(** Over any set of item keys that has those of the stores, the eligible units total alike. *)
Lemma eligible_total (d : list (item_key * Z)) ks site :
  NoDup d.*1 → NoDup ks → (∀ k, k ∈ d.*1 → k ∈ ks) → (∀ k z, (k, z) ∈ d → 0 <= z) →
  sumZ ((λ k, if bool_decide (site_of k = site) then Z.max 0 (default 0 (dget k d)) else 0) <$> ks) =
  dtotal_if (site_item site) d.
Proof.
  intros Hd Hks Hsub Hpos. unfold dtotal_if. rewrite (dict_expand d) by done.
  assert (Hsplit : ks ≡ₚ d.*1 ++ filter (λ k, k ∉ d.*1) ks).
  { apply NoDup_Permutation; [done| |].
    - apply NoDup_app. split_and!; [done| |by apply NoDup_filter].
      intros k Hk [Hno _]%list_elem_of_filter. done.
    - intros k. rewrite elem_of_app, list_elem_of_filter.
      destruct (decide (k ∈ d.*1)); naive_solver. }
  rewrite Hsplit, fmap_app, sumZ_app.
  rewrite (list_fmap_ext _ (λ _, 0) (filter _ _)).
  2: { intros i k Hk%list_elem_of_lookup_2%list_elem_of_filter. destruct Hk as [Hk _].
       apply dget_None in Hk. rewrite Hk. by case_bool_decide. }
  rewrite sumZ_const, Z.mul_0_l, Z.add_0_r. f_equal. apply list_fmap_ext.
  intros i k Hk%list_elem_of_lookup_2. apply dget_is_Some in Hk as [z Hz]. rewrite Hz. cbn.
  unfold site_item. cbn. case_bool_decide; [|done]. apply dget_elem in Hz; [|done].
  pose proof (Hpos _ _ Hz). lia.
Qed.

(** ** From the stores to the agents *)

Lemma item_keys_spec acc i :
  NoDup (item_keys acc i) ∧ ∀ k, k ∈ (store_eligible_by_item acc).*1 → k ∈ item_keys acc i.
Proof.
  unfold item_keys. split.
  - rewrite sorted_by_perm. apply NoDup_remove_dups.
  - intros k Hk. rewrite elem_of_sorted_by, elem_of_remove_dups, elem_of_app. by left.
Qed.

(** The amounts allocated to a store's agents reach their rows unchanged. *)
Lemma amounts_reach_rows casefold values targets out (f : top_agent → dec) ks rows :
  NoDup values.*1 → (∀ site, target_cents targets site < pow10 28) →
  allocate_currency_targets casefold values targets = Ok out → values.*1 = ks →
  Forall2 (λ k r, site_code r = k.1 ∧ money (default d0 (dget k out)) = Ok (f r)) ks rows →
  ∀ r, r ∈ rows → rows_total (λ r, coef (f r)) rows (site_code r) = target_cents targets (site_code r) ∧
    ∃ z, f r = cents z ∧ 0 <= z.
Proof.
  intros Hnd Hfit Hrun <- Hrows.
  destruct (allocate_currency_exact casefold values targets Hnd Hfit) as (out' & Ho & Hkeys & Hform & Hsum).
  rewrite Hrun in Ho. injection Ho as <-.
  assert (Hno : NoDup out.*1) by (by rewrite Hkeys).
  assert (Hamount : Forall2 (λ k r, site_code r = k.1 ∧ ∀ v, dget k out = Some v → f r = v) values.*1 rows).
  { eapply Forall2_impl; [exact Hrows|]. intros k r [Hs Hm]. split; [done|]. intros v Hv.
    rewrite Hv in Hm. cbn in Hm. apply dget_elem in Hv; [|done]. destruct (Hform _ _ Hv) as (z & -> & _).
    unfold money in Hm. destruct (quantize _ _ _ _) as [d|] eqn:Hq; [|done].
    injection Hm as <-. by eapply quantize_cents_inv. }
  intros r Hr. apply list_elem_of_lookup in Hr as [j Hj].
  destruct (Forall2_lookup_r _ _ _ _ _ Hamount Hj) as (k & Hk & Hs & Hf).
  apply list_elem_of_lookup_2 in Hk. split.
  - rewrite (rows_total_dict (λ r, coef (f r)) coef out values.*1); [|done|by rewrite Hkeys|].
    + apply Hsum. rewrite Hs. by apply list_elem_of_fmap_2.
    + eapply Forall2_impl; [exact Hamount|]. intros k' r' [? Hv]. split; [done|].
      intros v Hd. by rewrite (Hv v Hd).
  - assert (is_Some (dget k out)) as [d Hd] by (apply dget_is_Some; by rewrite Hkeys).
    rewrite (Hf d Hd). apply dget_elem in Hd; [|done]. by apply (Hform k).
Qed.

(** C35: what a store earns reaches its agents.  In an incentive projection whose store rows
    have distinct (period, store, item) keys, the units of the agents' rows of every store
    add up to the store's eligible units, and for every store with an agent row the values
    and the potentials of its rows add up to the store's own, to the cent, each of them a
    non-negative amount of two decimals. *)
Theorem store_totals_reach_agents casefold s excluded acc rows keys
    (Hrun : incentive_projection casefold s excluded = Ok (acc, rows))
    (Hkeys : Forall2 (row_key s) (incentive_store_rows s) keys) (Hnd : NoDup keys)
    (Hvalues : ∀ site, target_cents (store_values acc) site < pow10 28)
    (Hpotentials : ∀ site, target_cents (store_potentials acc) site < pow10 28) :
  (∀ site, rows_total qty_sold rows site = store_qty_of acc site) ∧
  (∀ r, r ∈ rows →
     rows_total (λ r, coef (val_incentive r)) rows (site_code r) = target_cents (store_values acc) (site_code r) ∧
     rows_total (λ r, coef (incentive_potential r)) rows (site_code r)
       = target_cents (store_potentials acc) (site_code r) ∧
     ∃ v p, val_incentive r = cents v ∧ incentive_potential r = cents p ∧ 0 <= v ∧ 0 <= p).
Proof.
  unfold incentive_projection in Hrun.
  apply bind_Ok in Hrun as (acc' & Hv & (rows' & Hv0 & [= -> ->])%bind_Ok).
  destruct (accumulator_spec s _ acc keys Hv Hkeys Hnd) as (Helig & Hpos & Hqty).
  unfold build_incentive_agent_rows in Hv0. apply bind_Ok in Hv0 as (i & Hv1 & Hv0).
  apply bind_Ok in Hv0 as (v0 & Hv2 & Hv0). apply bind_Ok in Hv0 as (v1 & Hv3 & Hv0).
  apply bind_Ok in Hv0 as (v2 & Hv4 & Hv0). apply bind_Ok in Hv0 as (v3 & Hv5 & [= <-]).
  destruct (credit_items_spec casefold s acc i _ _ _ (agent_inputs_NoDup _ _ _ Hv1) Hv2) as ((Hn & Hkq & Hkp) & Htot).
  { split_and!; [constructor|done|done]. }
  apply mapR_Ok in Hv5.
  assert (Hspec : Forall2 (λ k r, site_code r = k.1 ∧ qty_sold r = default 0 (dget k (agent_quantities v0)) ∧
    money (default d0 (dget k v1)) = Ok (val_incentive r) ∧
    money (default d0 (dget k v2)) = Ok (incentive_potential r)) (agent_values v0).*1 v3).
  { eapply Forall2_impl; [exact Hv5|]. intros k r Hr. apply (agent_row_spec _ _ _ _ _ _ _ _ Hr). }
  split.
  - intros site. rewrite rows_total_sorted, Hqty.
    rewrite (rows_total_dict qty_sold id (agent_quantities v0) (agent_values v0).*1); [|by rewrite Hkq|by rewrite Hkq|].
    + specialize (Htot site). unfold dtotal_if at 1 2 in Htot. unfold in_site in Htot. cbn in Htot.
      destruct (item_keys_spec acc i) as [Hi1 Hi2].
      rewrite (eligible_total (store_eligible_by_item acc)) in Htot; [exact Htot|by rewrite Helig|done|done|done].
    + eapply Forall2_impl; [exact Hspec|]. intros k r (Hs & Hq & _). split; [done|].
      intros v Hd. by rewrite Hq, Hd.
  - intros r Hr. rewrite elem_of_sorted_by in Hr. rewrite !rows_total_sorted.
    destruct (amounts_reach_rows casefold (agent_values v0) (store_values acc) v1 val_incentive _ v3
      Hn Hvalues Hv3 eq_refl) with (r := r) as [Hva (v & Hv6 & Hv7)]; [|done|].
    { eapply Forall2_impl; [exact Hspec|]. by intros k r' (? & _ & ? & _). }
    destruct (amounts_reach_rows casefold (agent_potentials v0) (store_potentials acc) v2 incentive_potential
      (agent_values v0).*1 v3) with (r := r) as [Hpa (p & Hp6 & Hp7)]; [by rewrite Hkp|done|done|done| |done|].
    { eapply Forall2_impl; [exact Hspec|]. by intros k r' (? & _ & _ & ?). }
    split_and!; [done|done|]. exists v, p. done.
Qed.

(** ** Termination *)

Lemma amount_not_fuel d : money d ≠ Err OutOfFuel.
Proof. unfold money. by destruct (quantize _ _ _ _). Qed.

Lemma bound_not_fuel own f periods : bound own f periods ≠ Err OutOfFuel.
Proof. unfold bound. by destruct own, periods. Qed.

Lemma key_not_fuel s a b c d : row_item_key s a b c d ≠ Err OutOfFuel.
Proof. unfold row_item_key. repeat (apply bind_avoids; [apply bound_not_fuel|]; intros); done. Qed.

Lemma reward_not_fuel r m i : reward_of r m i ≠ Err OutOfFuel.
Proof. apply amount_not_fuel. Qed.

Lemma as_amount_not_fuel z : as_amount z ≠ Err OutOfFuel.
Proof. unfold as_amount. by destruct (_ ≫= _). Qed.

#[export] Hint Resolve amount_not_fuel key_not_fuel reward_not_fuel as_amount_not_fuel : fuel.

Ltac not_fuel := repeat (apply bind_avoids; [by auto with fuel|intros ? _]); try done.

Lemma currency_not_fuel casefold values targets :
  NoDup values.*1 → allocate_currency_targets casefold values targets ≠ Err OutOfFuel.
Proof.
  intros Hnd. unfold allocate_currency_targets. apply bind_avoids; [|done].
  apply mapR_avoids. intros site Hs. unfold allocate_site.
  apply sites_of_spec in Hs as (k0 & Hk0 & Hsite).
  assert (Hne : keys_of_site values site ≠ []).
  { intros E. assert (Hin : k0 ∈ keys_of_site values site) by (by apply keys_of_site_in).
    rewrite E in Hin. by apply elem_of_nil in Hin. }
  pose proof (scaled_up_nonneg HALF_EVEN (default d0 (dget site targets))) as Ht.
  destruct (allocate_store_spec casefold values _ _ (keys_of_site_NoDup _ site Hnd) Ht Hne) as (l & Hl & _).
  unfold target_cents. rewrite Hl. cbn [mbind res_bind]. apply mapR_avoids. intros x _. not_fuel.
Qed.

(** The projection terminates: whatever the snapshot, the loops over the cents never
    exhaust their fuel; the only errors are a missing period and an overflowing decimal. *)
Theorem incentive_projection_terminates casefold s excluded e :
  incentive_projection casefold s excluded = Err e → e = InvalidDecimal ∨ e = IndexError.
Proof.
  cut (incentive_projection casefold s excluded ≠ Err OutOfFuel); [intros Hn H; destruct e; auto; by destruct Hn|].
  unfold incentive_projection. apply bind_avoids.
  { apply foldR_avoids. intros acc row. unfold _accumulate_incentive_store_row. not_fuel.
    destruct (default (0, d0, d0) _) as [[pq pp] pv], (default (0, d0, d0, 0) _) as [[[cq cp] cv] cf].
    by destruct (default (0, d0) _). }
  intros acc _. apply bind_avoids; [|done]. unfold build_incentive_agent_rows.
  apply bind_avoids.
  { apply foldR_avoids. intros i row. unfold agent_quantity_step. not_fuel. }
  intros i Hi. apply bind_avoids.
  { apply foldR_avoids. intros t k. unfold credit_item. not_fuel.
    apply foldR_avoids. intros t' x. unfold credit_agent. not_fuel. }
  intros t Ht. destruct (credit_items_spec casefold s acc i _ _ _ (agent_inputs_NoDup _ _ _ Hi) Ht)
    as ((Hn & _ & Hp) & _); [split_and!; [constructor|done|done]|].
  apply bind_avoids; [by apply currency_not_fuel|]. intros v _.
  apply bind_avoids; [apply currency_not_fuel; by rewrite Hp|]. intros p _.
  apply bind_avoids; [|done]. apply mapR_avoids. intros [site agent] _. unfold agent_row_of.
  destruct (default _ (dget site (agent_store_meta i))) as [location company]. not_fuel.
Qed.
End CampaignSpec.

Module CampaignDemo.
Local Open Scope string_scope.
Import CampaignMoney CampaignMoneySpec CampaignCents CampaignAgents CampaignSpec.

(** The ASCII part of [casefold]. *)
Definition lower (c : Ascii.ascii) : Ascii.ascii :=
  let n := Ascii.nat_of_ascii c in
  if (Nat.leb 65 n && Nat.leb n 90)%bool then Ascii.ascii_of_nat (n + 32) else c.
Definition ascii_fold (s : string) : string :=
  String.string_of_list_ascii (lower <$> String.list_ascii_of_string s).

Definition sold : list (option string * Z) := [(Some "Ana", 3); (Some "Bogdan", 5); (Some "Carmen", 0)].

Example scaled_down :
  allocate_integer_target ascii_fold sold 5 = [(Some "Ana", 2); (Some "Bogdan", 3); (Some "Carmen", 0)].
Proof. vm_compute. reflexivity. Qed.
Example unattributed :
  allocate_integer_target ascii_fold [(Some "Ana", 3)] 5 = [(Some "Ana", 3); (None, 2)].
Proof. vm_compute. reflexivity. Qed.

(** Two halves of a cent: the first in the ranking gets the whole cent. *)
Definition halves : list (key * dec) := [(("S1", "Ana"), Dec 5 (-3)); (("S1", "Bogdan"), Dec 5 (-3))].
Definition one_cent : list (string * dec) := [("S1", cents 1)].

Example preserves_store_total :
  allocate_currency_targets ascii_fold halves one_cent =
  Ok [(("S1", "Ana"), cents 1); (("S1", "Bogdan"), cents 0)].
Proof. vm_compute. reflexivity. Qed.

Definition snap : snapshot :=
  Snapshot
    [StoreRow "S1" "I1" (Some 4) None None (Some (cents 250)) "Mall" (Some "SRL") (Some "Sud") None None;
     StoreRow "S1" "I2" (Some 1) None None (Some (cents 333)) "Mall" (Some "SRL") (Some "Sud") None None]
    [AgentRow "Ana" "S1" "I1" 2 None None None (Some "Mall") (Some "SRL");
     AgentRow "Bogdan" "S1" "I1" 3 None None None (Some "Mall") (Some "SRL")]
    [("S1", Dec 5 (-1))] [("S1", Some 1%Q)] [("I1", cents 250)]
    [Period "2026-09-01" "2026-09-30"].

Definition excluded : list (agent_item_key * Z) := [(("2026-09-01", "2026-09-30", "S1", "Ana", "I1"), 1)].
Definition item_keys_of_rows : list item_key :=
  [("2026-09-01", "2026-09-30", "S1", "I1"); ("2026-09-01", "2026-09-30", "S1", "I2")].

Definition projection : accumulator * list top_agent :=
  Eval vm_compute in
  match incentive_projection ascii_fold snap excluded with Ok p => p | Err _ => (empty_accumulator, []) end.

Lemma projection_runs : incentive_projection ascii_fold snap excluded = Ok (projection.1, projection.2).
Proof. vm_compute. reflexivity. Qed.

Lemma targets_fit targets :
  Forall (λ x : string * dec, target_cents targets x.1 < pow10 28) targets →
  ∀ site, target_cents targets site < pow10 28.
Proof.
  intros H site. destruct (decide (site ∈ targets.*1)) as [Hs|Hs].
  - apply list_elem_of_fmap in Hs as (x & -> & Hx). rewrite List.Forall_forall in H.
    apply H. by apply list_elem_of_In.
  - apply dget_None in Hs. unfold target_cents. rewrite Hs. vm_compute. reflexivity.
Qed.

Lemma one_cent_fits site : target_cents one_cent site < pow10 28.
Proof. apply targets_fit. repeat constructor; vm_compute; reflexivity. Qed.

(** ** Witnesses *)

Lemma allocate_integer_exact_witness : dtotal (allocate_integer_target ascii_fold sold 5) = 5.
Proof.
  assert (Hnd : NoDup sold.*1) by (apply (bool_decide_eq_true_1 _); vm_compute; reflexivity).
  destruct (allocate_integer_exact ascii_fold sold 5 Hnd) as [H _]. exact H.
Defined.

Lemma allocate_integer_order_free_witness :
  dget (Some "Ana") (allocate_integer_target ascii_fold sold 5) =
  dget (Some "Ana") (allocate_integer_target ascii_fold (rev sold) 5).
Proof.
  assert (Hnd : NoDup sold.*1) by (apply (bool_decide_eq_true_1 _); vm_compute; reflexivity).
  apply (allocate_integer_order_free ascii_fold sold (rev sold) 5 Hnd (Permutation_rev sold)).
  intros a b Ha Hb. cbn in Ha, Hb.
  repeat (apply elem_of_cons in Ha as [-> | Ha]); repeat (apply elem_of_cons in Hb as [-> | Hb]);
    try (by apply elem_of_nil in Ha); try (by apply elem_of_nil in Hb);
    vm_compute; intros H; first [reflexivity|discriminate H].
Defined.

Lemma allocate_currency_exact_witness :
  ∃ out, allocate_currency_targets ascii_fold halves one_cent = Ok out ∧ site_amount out "S1" = 1.
Proof.
  assert (Hnd : NoDup halves.*1) by (apply (bool_decide_eq_true_1 _); vm_compute; reflexivity).
  destruct (allocate_currency_exact ascii_fold halves one_cent Hnd one_cent_fits) as (out & H & _ & _ & Hs).
  exists out. split; [exact H|]. rewrite Hs; [vm_compute; reflexivity|by left].
Defined.

Lemma cents_loops_closed_form_witness :
  cents 1 = cents (to_int (raw_cents halves ("S1", "Ana")) +
    round_robin (cents_ranking ascii_fold halves "S1") 1 ("S1", "Ana")).
Proof.
  assert (Hnd : NoDup halves.*1) by (apply (bool_decide_eq_true_1 _); vm_compute; reflexivity).
  destruct (cents_loops_closed_form ascii_fold halves one_cent _ ("S1", "Ana") (cents 1) Hnd one_cent_fits
    preserves_store_total ltac:(by left)) as [H _].
  rewrite H at 1; [vm_compute; reflexivity|vm_compute; discriminate].
Defined.

Lemma store_totals_reach_agents_witness :
  rows_total qty_sold projection.2 "S1" = store_qty_of projection.1 "S1" ∧
  rows_total qty_sold projection.2 "S1" = 4.
Proof.
  assert (Hkeys : Forall2 (row_key snap) (incentive_store_rows snap) item_keys_of_rows)
    by (repeat constructor).
  assert (Hnd : NoDup item_keys_of_rows) by (apply (bool_decide_eq_true_1 _); vm_compute; reflexivity).
  assert (Hv : ∀ site, target_cents (store_values projection.1) site < pow10 28)
    by (apply targets_fit; repeat constructor; vm_compute; reflexivity).
  assert (Hp : ∀ site, target_cents (store_potentials projection.1) site < pow10 28)
    by (apply targets_fit; repeat constructor; vm_compute; reflexivity).
  destruct (store_totals_reach_agents ascii_fold snap excluded projection.1 projection.2 item_keys_of_rows
    projection_runs Hkeys Hnd Hv Hp) as [H _].
  split; [apply H|vm_compute; reflexivity].
Defined.

Lemma incentive_projection_terminates_witness : IndexError = InvalidDecimal ∨ IndexError = IndexError.
Proof.
  apply (incentive_projection_terminates ascii_fold
    (Snapshot [StoreRow "S1" "I1" (Some 4) None None None "Mall" None None None None] [] [] [] [] []) [] IndexError).
  vm_compute. reflexivity.
Defined.

End CampaignDemo.
