(* ===== verification/SalaryApproval.v ===== *)
(** The approval of the official salary import: [salary_import_approval.py].

    A dry-run manifest is approved by an artifact that an independent reviewer
    signed; the approval becomes an audit envelope stored with the batch.  JSON
    values are data; their canonical text, SHA-256, base64, Ed25519, the Unicode
    tables and [datetime.fromisoformat] are arguments. *)

From Stdlib Require Import Ascii.
From S2P Require Import Prelude Text Dict Json.

Local Open Scope Z_scope.

Module SalaryApproval.

(** ** Errors *)

Inductive salary_error :=
| ApprovalError (message : string)
| ValueError (message : string)
| KeyError (key : string)
| DbViolation (constraint : string).

(** ** Constants *)

Definition APPROVAL_ARTIFACT_TYPE : string := "unihub.salary_import.approval".
Definition APPROVAL_SCHEMA_VERSION : Z := 2.
Definition AUDIT_ENVELOPE_VERSION : Z := 1.
Definition KNOWN_GROUPS_TOTAL : Z := 8.
Definition REQUIRED_COMPANIES : list string := ["Mobiup"; "Mobicell"]%string.
Definition companies_json : json := JArr (JStr <$> REQUIRED_COMPANIES).

Definition SHA256_PATTERN : string → bool := run_match is_hex 64 64.

Definition _APPROVAL_METADATA_KEYS : list string :=
  ["artifact_type"; "schema_version"; "decision"; "manifest_sha256"; "year"; "month";
   "companies"; "known_groups_total"; "resolved_groups_count"; "unresolved_groups_count";
   "reviewer"; "reviewer_key_id"; "approval_timestamp"; "approval_reference"]%string.
Definition _APPROVAL_ARTIFACT_KEYS : list string := _APPROVAL_METADATA_KEYS ++ ["signature"]%string.
Definition _ENVELOPE_KEYS : list string :=
  ["audit_envelope_version"; "dry_run_manifest"; "dry_run_manifest_sha256";
   "approval_metadata"; "approval_artifact_sha256"; "applied_by"]%string.
Definition _FORBIDDEN_IDENTITY_KEY_PARTS : list string :=
  ["cnp"; "salary_cnp"; "raw_cnp"; "person_id"; "salary_private"; "identity_key";
   "identity_source"; "normalized_name"; "full_name"]%string.

(** ** Private identity material *)

Definition is_separator (c : ascii) : bool := is_space c || one_of "-" c.

(** [(?:[\s-]?\d){n}(?!\d)] *)
Fixpoint code_tail (n : nat) (l : list ascii) : bool :=
  match n, l with
  | O, [] => true
  | O, c :: _ => negb (is_digit c)
  | S n', c :: l' =>
      if is_digit c then code_tail n' l'
      else if is_separator c then
        match l' with
        | c' :: l'' => is_digit c' && code_tail n' l''
        | [] => false
        end
      else false
  | S _, [] => false
  end.

(** [(?<!\d)\d(?:[\s-]?\d){12}(?!\d)] found anywhere. *)
Fixpoint search_code (after_digit : bool) (l : list ascii) : bool :=
  match l with
  | [] => false
  | c :: l' => (negb after_digit && is_digit c && code_tail 12 l') || search_code (is_digit c) l'
  end.
Definition private_value (s : string) : bool := search_code false (String.list_ascii_of_string s).

Section Approval.
(** [str.casefold] and NFKC normalization; [datetime.fromisoformat], where [None]
    is a ValueError and the flag tells an aware datetime; the canonical JSON
    text, SHA-256 in hexadecimal, base64 with validation, and Ed25519. *)
Context (casefold nfkc : string → string) (fromisoformat : string → option bool).
Context (canonical_json : json → string) (sha256_hex : string → string).
Context (b64decode : string → option string) (valid_key : string → bool).
Context (ed25519_verify : string → string → string → bool).

Definition canonical_json_sha256 (v : json) : string := sha256_hex (canonical_json v).

(** The runs of [a-z0-9] in the folded key: [normalized.split("_")]. *)
Definition key_parts (key : string) : list string :=
  words (λ c, is_lower c || is_digit c) (casefold key).

Definition _is_forbidden_key (key : string) : bool :=
  let parts := key_parts key in
  bool_decide (String.concat "_" parts ∈ _FORBIDDEN_IDENTITY_KEY_PARTS)
  || existsb (λ p, bool_decide (p ∈ _FORBIDDEN_IDENTITY_KEY_PARTS)) parts.

(** Does [_assert_no_private_identity_material] pass? *)
Fixpoint no_private (v : json) : bool :=
  match v with
  | JObj f =>
      (fix go f := match f with
                   | [] => true
                   | (k, c) :: f' => negb (_is_forbidden_key k) && no_private c && go f'
                   end) f
  | JArr l => (fix go l := match l with [] => true | c :: l' => no_private c && go l' end) l
  | JStr s => negb (private_value s)
  | _ => true
  end.

Definition _assert_no_private_identity_material (v : json) : res salary_error () :=
  raise_if (negb (no_private v)) (ApprovalError "Approval contains private identity material").

(** ** Required values *)

Definition _require_sha256 (v : json) (field : string) : res salary_error string :=
  match v with
  | JStr s => if SHA256_PATTERN s then Ok s
              else Err (ApprovalError (field +:+ " must be a lowercase SHA-256"))
  | _ => Err (ApprovalError (field +:+ " must be a lowercase SHA-256"))
  end.

Definition _require_nonblank (v : json) (field : string) : res salary_error string :=
  match v with
  | JStr s => if bool_decide (strip s = EmptyString)
              then Err (ApprovalError (field +:+ " is required")) else Ok (strip s)
  | _ => Err (ApprovalError (field +:+ " is required"))
  end.

Definition _require_int (v : json) (field : string) (expected : option Z) : res salary_error Z :=
  match v with
  | JInt z =>
      _ ← raise_if (match expected with Some e => negb (z =? e) | None => false end)
            (ApprovalError (field +:+ " is not approved"));
      Ok z
  | _ => Err (ApprovalError (field +:+ " must be an integer"))
  end.

Definition required_string (v : json) (s : string) (message : string) : res salary_error () :=
  raise_if (negb (json_eqb v (JStr s))) (ApprovalError message).

(** [" ".join(nfkc(value).split()).casefold()] *)
Definition _normalise_comparison (s : string) : string :=
  casefold (String.concat " " (words (negb ∘ is_space) (nfkc s))).

(** ** The dry-run manifest *)

Definition company_names (companies : list json) : list json :=
  omap (λ c, match c with JObj f => Some (jget "company_name" f) | _ => None end) companies.

Definition is_str (v : json) : bool := match v with JStr _ => true | _ => false end.

Definition validate_company (c : json) : res salary_error () :=
  match c with
  | JObj f =>
      name ← _require_nonblank (jget "company_name" f) "company_name";
      _ ← raise_if (negb (bool_decide (name ∈ REQUIRED_COMPANIES)))
            (ApprovalError "Dry-run contains an unsupported company");
      _ ← _require_sha256 (jget "source_sha256" f) "source_sha256";
      _ ← _require_int (jget "row_count" f) "company.row_count" None;
      _ ← _require_nonblank (jget "control_total" f) "company.control_total";
      match default (JArr []) (dget "unmapped_locations" f) with
      | JArr l => raise_if (negb (forallb is_str l))
                    (ApprovalError "unmapped_locations must be a string list")
      | _ => Err (ApprovalError "unmapped_locations must be a string list")
      end
  | _ => Err (ApprovalError "Dry-run company entry must be an object")
  end.

(** [validate_dry_run_manifest] without a period: JSON data is its own
    normalization. *)
Definition validate_dry_run_manifest (manifest : json) (expected_sha256 : option json)
    : res salary_error (list (string * json)) :=
  match manifest with
  | JObj f =>
      _ ← _assert_no_private_identity_material manifest;
      _ ← raise_if (negb (json_eqb (jget "manifest_version" f) (JInt 1)))
            (ApprovalError "Unsupported dry-run manifest version");
      _ ← _require_int (jget "year" f) "manifest.year" None;
      _ ← _require_int (jget "month" f) "manifest.month" None;
      companies ← match jget "companies" f with
                  | JArr l =>
                      if json_eqb (JArr (company_names l)) companies_json then Ok l
                      else Err (ApprovalError "Dry-run must contain exactly both required companies")
                  | _ => Err (ApprovalError "Dry-run must contain exactly both required companies")
                  end;
      _ ← mapR validate_company companies;
      _ ← _require_int (jget "row_count" f) "manifest.row_count" None;
      _ ← _require_nonblank (jget "control_total" f) "manifest.control_total";
      match expected_sha256 with
      | None => Ok f
      | Some e =>
          expected ← _require_sha256 e "expected manifest SHA-256";
          _ ← raise_if (negb (bool_decide (canonical_json_sha256 manifest = expected)))
                (ApprovalError "Dry-run manifest SHA-256 mismatch");
          Ok f
      end
  | _ => Err (ApprovalError "Dry-run manifest must be an object")
  end.

(** ** The approval *)

Definition keys_within (f : list (string * json)) (keys : list string) : bool :=
  forallb (λ kv, bool_decide (kv.1 ∈ keys)) f.
Definition keys_cover (f : list (string * json)) (keys : list string) : bool :=
  forallb (λ k, bool_decide (k ∈ f.*1)) keys.

Definition required_shape (f : list (string * json)) (keys : list string) : res salary_error () :=
  _ ← raise_if (negb (keys_within f keys)) (ApprovalError "Approval contains unsupported fields");
  raise_if (negb (keys_cover f keys)) (ApprovalError "Approval is missing required fields").

(** [{key: artifact[key] for key in _APPROVAL_METADATA_KEYS}] *)
Definition metadata_fields (f : list (string * json)) : list (string * json) :=
  (λ k, (k, jget k f)) <$> _APPROVAL_METADATA_KEYS.

Definition trusted_keys : Type := list (string * string).

(** The environment variable with the keys: absent or empty, not JSON, or a value. *)
Inductive key_env := Unset | NotJson | Parsed (v : json).

Definition load_trusted_reviewer_keys (env : key_env) : res salary_error trusted_keys :=
  match env with
  | Unset => Err (ApprovalError "Trusted salary reviewer keys are not configured")
  | NotJson => Err (ApprovalError "Trusted salary reviewer keys are invalid")
  | Parsed (JObj ((_ :: _) as f)) =>
      foldR (λ keys kv,
        match kv.2 with
        | JStr encoded =>
            if bool_decide (strip kv.1 = EmptyString)
            then Err (ApprovalError "Trusted salary reviewer keys are invalid")
            else Ok (dput (strip kv.1) encoded keys)
        | _ => Err (ApprovalError "Trusted salary reviewer keys are invalid")
        end) [] f
  | Parsed _ => Err (ApprovalError "Trusted salary reviewer keys are invalid")
  end.

Definition _verify_reviewer_signature (f : list (string * json)) (trusted : trusted_keys)
    : res salary_error () :=
  key_id ← _require_nonblank (jget "reviewer_key_id" f) "reviewer_key_id";
  match dget key_id trusted, jget "signature" f with
  | None, _ => Err (ApprovalError "Approval reviewer key is not trusted")
  | Some _, JStr encoded_signature =>
      match dget key_id trusted ≫= b64decode, b64decode encoded_signature with
      | Some key, Some signature =>
          raise_if (negb (valid_key key
                          && ed25519_verify key signature
                               (canonical_json (JObj (metadata_fields f)))))
            (ApprovalError "Approval signature is invalid")
      | _, _ => Err (ApprovalError "Approval signature is invalid")
      end
  | Some _, _ => Err (ApprovalError "Approval signature is missing")
  end.

(** [_validate_approval_metadata]; [manifest] is already validated. *)
Definition _validate_approval_metadata (f manifest : list (string * json))
    (manifest_sha256 : string) (applied_by : string) : res salary_error (list (string * json)) :=
  _ ← _assert_no_private_identity_material (JObj f);
  _ ← required_shape f _APPROVAL_METADATA_KEYS;
  _ ← required_string (jget "artifact_type" f) APPROVAL_ARTIFACT_TYPE
        "Approval artifact type is invalid";
  _ ← _require_int (jget "schema_version" f) "schema_version" (Some APPROVAL_SCHEMA_VERSION);
  _ ← required_string (jget "decision" f) "approved" "Approval decision is not approved";
  sha ← _require_sha256 (jget "manifest_sha256" f) "manifest_sha256";
  _ ← raise_if (negb (bool_decide (sha = manifest_sha256)))
        (ApprovalError "Approval is bound to another manifest");
  year ← _require_int (jget "year" f) "approval.year" None;
  _ ← raise_if (negb (json_eqb (JInt year) (jget "year" manifest)))
        (ApprovalError "Approval period does not match manifest");
  month ← _require_int (jget "month" f) "approval.month" None;
  _ ← raise_if (negb (json_eqb (JInt month) (jget "month" manifest)))
        (ApprovalError "Approval period does not match manifest");
  _ ← raise_if (negb (json_eqb (jget "companies" f) companies_json))
        (ApprovalError "Approval company scope is invalid");
  _ ← _require_int (jget "known_groups_total" f) "known_groups_total" (Some KNOWN_GROUPS_TOTAL);
  _ ← _require_int (jget "resolved_groups_count" f) "resolved_groups_count"
        (Some KNOWN_GROUPS_TOTAL);
  _ ← _require_int (jget "unresolved_groups_count" f) "unresolved_groups_count" (Some 0);
  reviewer ← _require_nonblank (jget "reviewer" f) "reviewer";
  key_id ← _require_nonblank (jget "reviewer_key_id" f) "reviewer_key_id";
  operator ← _require_nonblank (JStr applied_by) "applied_by";
  _ ← raise_if (bool_decide (_normalise_comparison reviewer = _normalise_comparison operator))
        (ApprovalError "Independent reviewer must differ from operator");
  timestamp ← _require_nonblank (jget "approval_timestamp" f) "approval_timestamp";
  _ ← match fromisoformat timestamp with
      | None => Err (ApprovalError "approval_timestamp must be ISO-8601")
      | Some aware => raise_if (negb aware)
                        (ApprovalError "approval_timestamp must include a timezone")
      end;
  reference ← _require_nonblank (jget "approval_reference" f) "approval_reference";
  Ok [("artifact_type"%string, JStr APPROVAL_ARTIFACT_TYPE);
      ("schema_version"%string, JInt APPROVAL_SCHEMA_VERSION);
      ("decision"%string, JStr "approved");
      ("manifest_sha256"%string, JStr manifest_sha256);
      ("year"%string, jget "year" manifest);
      ("month"%string, jget "month" manifest);
      ("companies"%string, companies_json);
      ("known_groups_total"%string, JInt KNOWN_GROUPS_TOTAL);
      ("resolved_groups_count"%string, JInt KNOWN_GROUPS_TOTAL);
      ("unresolved_groups_count"%string, JInt 0);
      ("reviewer"%string, JStr reviewer);
      ("reviewer_key_id"%string, JStr key_id);
      ("approval_timestamp"%string, JStr timestamp);
      ("approval_reference"%string, JStr reference)].

Record ValidatedApproval := Approved {
  metadata : list (string * json);
  manifest : list (string * json);
  manifest_sha256 : string;
  artifact_sha256 : string;
  applied_by : string;
  signed_artifact : list (string * json);
  proof : bool;
}.

(** [validate_approval_artifact] with the keys of the environment. *)
Definition validate_approval_artifact (artifact : list (string * json)) (manifest : json)
    (expected_manifest_sha256 : string) (applied_by : string) (env : key_env)
    : res salary_error ValidatedApproval :=
  _ ← _assert_no_private_identity_material (JObj artifact);
  _ ← required_shape artifact _APPROVAL_ARTIFACT_KEYS;
  trusted ← load_trusted_reviewer_keys env;
  _ ← _verify_reviewer_signature artifact trusted;
  normalized ← validate_dry_run_manifest manifest (Some (JStr expected_manifest_sha256));
  sha ← _require_sha256 (JStr expected_manifest_sha256) "expected manifest SHA-256";
  meta ← _validate_approval_metadata (metadata_fields artifact) normalized sha applied_by;
  operator ← _require_nonblank (JStr applied_by) "applied_by";
  Ok (Approved meta normalized sha (canonical_json_sha256 (JObj artifact)) operator artifact true).

Definition require_cryptographic_validation (a : ValidatedApproval) (env : key_env)
    : res salary_error () :=
  _ ← raise_if (negb (proof a))
        (ApprovalError "Approval was not produced by cryptographic signature validation");
  trusted ← load_trusted_reviewer_keys env;
  _ ← _verify_reviewer_signature (signed_artifact a) trusted;
  _ ← raise_if (negb (json_eqb (JObj (metadata_fields (signed_artifact a))) (JObj (metadata a))))
        (ApprovalError "Signed approval metadata changed after validation");
  raise_if (negb (bool_decide (canonical_json_sha256 (JObj (signed_artifact a)) = artifact_sha256 a)))
    (ApprovalError "Signed approval artifact changed after validation").

(** ** The audit envelope *)

Definition build_audit_envelope (manifest : json) (manifest_sha256 : string)
    (approval_metadata : json) (approval_artifact_sha256 : string) (applied_by : string)
    : res salary_error (list (string * json)) :=
  normalized ← validate_dry_run_manifest manifest (Some (JStr manifest_sha256));
  sha ← _require_sha256 (JStr approval_artifact_sha256) "approval artifact SHA-256";
  _ ← _assert_no_private_identity_material approval_metadata;
  match approval_metadata with
  | JObj f =>
      safe ← _validate_approval_metadata f normalized manifest_sha256 applied_by;
      operator ← _require_nonblank (JStr applied_by) "applied_by";
      Ok [("audit_envelope_version"%string, JInt AUDIT_ENVELOPE_VERSION);
          ("dry_run_manifest"%string, JObj normalized);
          ("dry_run_manifest_sha256"%string, JStr manifest_sha256);
          ("approval_metadata"%string, JObj safe);
          ("approval_artifact_sha256"%string, JStr sha);
          ("applied_by"%string, JStr operator)]
  | _ => Err (ApprovalError "Approval is missing required fields")
  end.

Definition envelope (a : ValidatedApproval) : res salary_error (list (string * json)) :=
  build_audit_envelope (JObj (manifest a)) (manifest_sha256 a) (JObj (metadata a))
    (artifact_sha256 a) (applied_by a).

Definition validate_audit_envelope (env : list (string * json)) (manifest : json)
    (manifest_sha256 applied_by : string) : res salary_error (list (string * json)) :=
  _ ← _assert_no_private_identity_material (JObj env);
  _ ← raise_if (negb (keys_within env _ENVELOPE_KEYS && keys_cover env _ENVELOPE_KEYS))
        (ApprovalError "Approval envelope shape is invalid");
  _ ← raise_if (negb (json_eqb (jget "audit_envelope_version" env) (JInt AUDIT_ENVELOPE_VERSION)))
        (ApprovalError "Unsupported approval envelope version");
  safe ← validate_dry_run_manifest manifest (Some (JStr manifest_sha256));
  _ ← raise_if (negb (json_eqb (jget "dry_run_manifest" env) (JObj safe)))
        (ApprovalError "Approval envelope manifest mismatch");
  _ ← required_string (jget "dry_run_manifest_sha256" env) manifest_sha256
        "Approval envelope SHA-256 mismatch";
  meta ← match jget "approval_metadata" env with
         | JObj f => _validate_approval_metadata f safe manifest_sha256 applied_by
         | _ => Err (ApprovalError "Approval is missing required fields")
         end;
  operator ← _require_nonblank (JStr applied_by) "applied_by";
  _ ← required_string (jget "applied_by" env) operator "Approval envelope operator mismatch";
  sha ← _require_sha256 (jget "approval_artifact_sha256" env) "approval artifact SHA-256";
  build_audit_envelope (JObj safe) manifest_sha256 (JObj meta) sha operator.
End Approval.

End SalaryApproval.
