(* ===== verification/SalaryImport.v ===== *)
(** The official salary import: the records and the batch insert of
    [scripts/import_salary_records.py], the transaction of
    [salary_import_persistence.py] over the tables of schema_v2.sql and migrations
    023, 024, 034 and 045, and [salary_identity.py].

    Reading the spreadsheets is outside: the import starts from the typed cells of
    their rows. *)

From Stdlib Require Import Ascii.
From stdpp Require Import pretty.
From S2P Require Import Prelude Text Dict Json Decimal SalaryApproval.

Local Open Scope Z_scope.

Module SalaryImport.
Import SalaryApproval.

(** ** Personal codes *)

Definition CNP_WEIGHTS : list Z := [2; 7; 9; 1; 4; 6; 3; 5; 8; 2; 7; 9].

Definition digit_value (c : ascii) : Z := Z.of_nat (nat_of_ascii c) - 48.

Fixpoint weighted (ds ws : list Z) : Z :=
  match ds, ws with
  | d :: ds', w :: ws' => d * w + weighted ds' ws'
  | _, _ => 0
  end.

Definition checksum_of (digits : list Z) : Z :=
  let r := weighted (take 12 digits) CNP_WEIGHTS mod 11 in if r =? 10 then 1 else r.

(** [validate_cnp] of the text [format_cnp] yields. *)
Definition validate_cnp (cnp : string) : res salary_error string :=
  _ ← raise_if (negb (run_match is_digit 13 13 cnp))
        (ValueError "CNP invalid: sunt necesare exact 13 cifre");
  let digits := digit_value <$> String.list_ascii_of_string cnp in
  _ ← raise_if (negb (default 0 (last digits) =? checksum_of digits))
        (ValueError "CNP invalid: checksum invalid");
  Ok cnp.

(** ** Records *)

Record SalaryRecord := Salary {
  year : Z;
  month : Z;
  full_name : string;
  cnp : string;
  total_salary : dec;
  company_name : string;
  site_code : option string;
  locatie : string;
  source_file : string;
  source_sheet : string;
  source_row : option Z;
  source_sha256 : string;
}.

(** [f"{d:.2f}"]: rounded half even to two places, whatever the precision. *)
Definition cents_of (d : dec) : Z :=
  if -2 <=? dexp d then scaled d (-2) else rdiv HALF_EVEN (coef d) (pow10 (-2 - dexp d)).
Definition two_digits (z : Z) : string :=
  if z <? 10 then ("0" +:+ pretty z)%string else pretty z.
Definition format2 (d : dec) : string :=
  let c := cents_of d in
  (if (c <? 0)%Z then "-" else "")%string
  +:+ pretty (Z.abs c / 100) +:+ "." +:+ two_digits (Z.abs c mod 100).

Definition total_of (records : list SalaryRecord) : dec := dsum prec28 (total_salary <$> records).
Definition of_company (name : string) (records : list SalaryRecord) : list SalaryRecord :=
  List.filter (λ r, bool_decide (company_name r = name)) records.

(** [if record.site_code]: neither [None] nor empty. *)
Definition has_site (r : SalaryRecord) : bool :=
  match site_code r with Some s => negb (bool_decide (s = EmptyString)) | None => false end.
Definition mapped_rows (records : list SalaryRecord) : Z :=
  Z.of_nat (length (List.filter has_site records)).
Definition unmapped_locations (records : list SalaryRecord) : list string :=
  sorted_by String.leb (remove_dups (locatie <$> List.filter (negb ∘ has_site) records)).

Section Import.
(** [unicodedata.normalize("NFKD", ...)] kept to ASCII, and [str.upper]. *)
Context (nfkd_ascii upper : string → string).
Context (casefold nfkc : string → string) (fromisoformat : string → option bool).
Context (canonical_json : json → string) (sha256_hex : string → string).
Context (b64decode : string → option string) (valid_key : string → bool).
Context (ed25519_verify : string → string → string → bool).

(** [normalize_text] *)
Definition normalize_text (value : string) : string :=
  String.concat " " (words is_alnum (upper (nfkd_ascii (strip value)))).

(** The two loops of [validate_records]. *)
Definition source_key (r : SalaryRecord) : option (string * Z) :=
  match source_row r with
  | Some n =>
      if bool_decide (source_file r = EmptyString) then None
      else Some (if bool_decide (source_sha256 r = EmptyString) then source_file r
                 else source_sha256 r, n)
  | None => None
  end.

Definition same_person_other_name (a b : SalaryRecord) : bool :=
  bool_decide (cnp a = cnp b)
  && negb (bool_decide (normalize_text (full_name a) = normalize_text (full_name b))).

Definition validate_records (records : list SalaryRecord) : res salary_error () :=
  _ ← foldR (λ seen r,
        _ ← validate_cnp (cnp r);
        match source_key r with
        | Some k => if bool_decide (k ∈ seen)
                    then Err (ValueError "Duplicate source row in salary batch")
                    else Ok (k :: seen)
        | None => Ok seen
        end) [] records;
  raise_if (existsb (λ a, existsb (same_person_other_name a) records) records)
    (ValueError "Conflict identitate: acelasi CNP are nume normalizate diferite").

(** [build_dry_run_manifest]; a source is its file name and digest. *)
Definition company_entry (records : list SalaryRecord) (src : string * (string * string)) : json :=
  let mine := of_company src.1 records in
  JObj [("company_name"%string, JStr src.1);
        ("source_file"%string, JStr src.2.1);
        ("source_sha256"%string, JStr src.2.2);
        ("row_count"%string, JInt (Z.of_nat (length mine)));
        ("control_total"%string, JStr (format2 (total_of mine)));
        ("mapped_site_rows"%string, JInt (mapped_rows mine));
        ("unmapped_locations"%string, JArr (JStr <$> unmapped_locations mine))].

Definition build_dry_run_manifest (records : list SalaryRecord) (y m : Z)
    (sources : list (string * (string * string))) : json :=
  JObj [("manifest_version"%string, JInt 1);
        ("year"%string, JInt y);
        ("month"%string, JInt m);
        ("companies"%string, JArr (company_entry records <$> sources));
        ("row_count"%string, JInt (Z.of_nat (length records)));
        ("control_total"%string, JStr (format2 (total_of records)))].

(** [_validate_records_match_manifest] *)
Definition required_key (key : string) (f : list (string * json)) : res salary_error json :=
  match dget key f with Some v => Ok v | None => Err (KeyError key) end.

Definition match_company (records : list SalaryRecord) (companies : list (string * list (string * json)))
    (name : string) : res salary_error () :=
  let mine := of_company name records in
  entry ← match dget name companies with Some f => Ok f | None => Err (KeyError name) end;
  count ← required_key "row_count" entry;
  _ ← raise_if (negb (json_eqb (JInt (Z.of_nat (length mine))) count))
        (ValueError "Manifestul nu corespunde numarului de randuri");
  file ← required_key "source_file" entry;
  _ ← raise_if (existsb (λ r, negb (json_eqb (JStr (source_file r)) file)) mine)
        (ValueError "Manifestul nu corespunde fisierului sursa");
  sha ← required_key "source_sha256" entry;
  _ ← raise_if (existsb (λ r, negb (json_eqb (JStr (source_sha256 r)) sha)) mine)
        (ValueError "Manifestul nu corespunde hashului sursei");
  total ← required_key "control_total" entry;
  _ ← raise_if (negb (json_eqb (JStr (format2 (total_of mine))) total))
        (ValueError "Manifestul nu corespunde totalului de control");
  _ ← raise_if (negb (json_eqb (JInt (mapped_rows mine)) (jget "mapped_site_rows" entry)))
        (ValueError "Manifestul nu corespunde maparii magazinelor");
  raise_if (negb (json_eqb (JArr (JStr <$> unmapped_locations mine))
                    (default (JArr []) (dget "unmapped_locations" entry))))
    (ValueError "Manifestul nu corespunde locatiilor nemapate").

(** [{str(company["company_name"]): company for company in manifest["companies"]}] *)
Definition companies_by_name (manifest : list (string * json))
    : list (string * list (string * json)) :=
  match jget "companies" manifest with
  | JArr l => foldl (λ d c, match c with
                            | JObj f => match jget "company_name" f with
                                        | JStr n => dput n f d
                                        | _ => d
                                        end
                            | _ => d
                            end) [] l
  | _ => []
  end.

Definition covers_companies (records : list SalaryRecord) : bool :=
  bool_decide (sorted_by String.leb (remove_dups (company_name <$> records))
               = sorted_by String.leb REQUIRED_COMPANIES).

Definition _validate_records_match_manifest (records : list SalaryRecord)
    (manifest : list (string * json)) : res salary_error () :=
  _ ← raise_if (negb (covers_companies records))
        (ValueError "Batchul salarial nu acopera exact ambele companii");
  _ ← mapR (match_company records (companies_by_name manifest)) REQUIRED_COMPANIES;
  Ok ().

(** ** Identity: the person id is an HMAC of the personal code *)

Context (hmac_hex : string → string → string) (lower : string → string).

Definition validate_salary_person_id_key (key : option string) : res salary_error string :=
  match key with
  | None | Some EmptyString => Err (ValueError "SALARY_PERSON_ID_HMAC_KEY is missing")
  | Some k =>
      _ ← raise_if (negb (Nat.leb 43 (String.length k) && Nat.leb (String.length k) 256))
            (ValueError "SALARY_PERSON_ID_HMAC_KEY has invalid length");
      _ ← raise_if (negb (all_chars (in_range "!" "~") k))
            (ValueError "SALARY_PERSON_ID_HMAC_KEY contains invalid characters");
      Ok k
  end.

Definition canonical_salary_identity (code name : string) : res salary_error string :=
  if negb (bool_decide (strip code = EmptyString)) then Ok ("cnp:" +:+ strip code)
  else if bool_decide (lower (strip name) = EmptyString)
  then Err (ValueError "salary identity is empty")
  else Ok ("name:" +:+ lower (strip name)).

Definition make_salary_person_id (code name key : string) : res salary_error string :=
  secret ← validate_salary_person_id_key (Some key);
  identity ← canonical_salary_identity code name;
  Ok ("sp1_" +:+ hmac_hex secret identity).

(** [^sp1_[0-9a-f]{64}$] *)
Definition person_id_re (s : string) : bool :=
  match take_runs [(one_of "s", 1%nat); (one_of "p", 1%nat); (one_of "1", 1%nat);
                   (one_of "_", 1%nat); (is_hex, 64%nat)] (String.list_ascii_of_string s) with
  | Some [] => true
  | _ => false
  end.

(** ** Tables *)

Record batch := Batch {
  b_year : Z;
  b_month : Z;
  b_manifest : list (string * json);
  b_manifest_sha256 : string;
  b_applied_by : string;
  b_approval_sha256 : string;
  b_reviewer_key_id : string;
}.

Record person := Person {
  p_cnp : string;
  p_normalized_name : string;
}.

(** A row of [salary_records]; a row without a batch predates the import. *)
Record salary_row := Row {
  s_year : Z;
  s_month : Z;
  s_full_name : string;
  s_cnp : string;
  s_total_cents : Z;
  s_company : string;
  s_site_code : option string;
  s_locatie : string;
  s_person : string;
  s_batch : option string;
  s_source : option (string * string * Z * string);
}.

Record db := Db {
  batches : gmap string batch;
  people : gmap string person;
  rows : list salary_row;
  store_codes : gset string;
}.

(** [BTRIM]: blanks on both sides. *)
Fixpoint ltrim (l : list ascii) : list ascii :=
  match l with
  | [] => []
  | c :: l' => if one_of " " c then ltrim l' else l
  end.
Definition btrim (s : string) : string :=
  String.string_of_list_ascii (rev (ltrim (rev (ltrim (String.list_ascii_of_string s))))).

Definition trimmed_length (s : string) (lo hi : nat) : bool :=
  Nat.leb lo (String.length (btrim s)) && Nat.leb (String.length (btrim s)) hi.

(** [INSERT INTO salary_import_batches] *)
Definition batch_check (b : batch) : bool :=
  (2020 <=? b_year b) && (b_year b <=? 2100) && (1 <=? b_month b) && (b_month b <=? 12)
  && SHA256_PATTERN (b_manifest_sha256 b) && trimmed_length (b_applied_by b) 1 256
  && SHA256_PATTERN (b_approval_sha256 b) && trimmed_length (b_reviewer_key_id b) 1 128.

Definition insert_batch (bid : string) (b : batch) (d : db) : res salary_error db :=
  _ ← raise_if (negb (batch_check b)) (DbViolation "salary_import_batches_check");
  _ ← raise_if (bool_decide (is_Some (batches d !! bid))) (DbViolation "salary_import_batches_pkey");
  _ ← raise_if (existsb (λ p, bool_decide (b_approval_sha256 p.2 = b_approval_sha256 b))
                  (map_to_list (batches d)))
        (DbViolation "uq_salary_import_batches_approval_artifact");
  Ok (Db (<[bid := b]> (batches d)) (people d) (rows d) (store_codes d)).

(** [INSERT INTO salary_private.people ... ON CONFLICT (person_id) DO NOTHING]. *)
Definition insert_person (d : db) (rp : SalaryRecord * string) : res salary_error db :=
  let '(r, pid) := rp in
  _ ← raise_if (negb (person_id_re pid)) (DbViolation "people_person_id_check");
  match people d !! pid with
  | Some _ => Ok d
  | None =>
      _ ← raise_if (negb (bool_decide (btrim (cnp r) = EmptyString))
                    && existsb (λ p, bool_decide (btrim (p_cnp p.2) = btrim (cnp r)))
                         (map_to_list (people d)))
            (DbViolation "idx_salary_private_people_cnp");
      Ok (Db (batches d) (<[pid := Person (cnp r) (lower (btrim (full_name r)))]> (people d))
             (rows d) (store_codes d))
  end.

(** The DELETE of the month for the companies of the batch. *)
Definition replaced (y m : Z) (companies : list string) (s : salary_row) : bool :=
  (s_year s =? y) && (s_month s =? m) && bool_decide (s_company s ∈ companies).
Definition delete_month (y m : Z) (companies : list string) (d : db) : db :=
  Db (batches d) (people d) (List.filter (λ s, negb (replaced y m companies s)) (rows d))
     (store_codes d).

(** A [NUMERIC(12,2)] column rounds half away from zero. *)
Definition salary_column (x : dec) : res salary_error Z :=
  let c := if -2 <=? dexp x then scaled x (-2) else rdiv HALF_UP (coef x) (pow10 (-2 - dexp x)) in
  if Z.abs c <? pow10 12 then Ok c else Err (DbViolation "numeric field overflow").

(** [INSERT INTO salary_records] of one record of a batch. *)
Definition insert_row (bid : string) (d : db) (rp : SalaryRecord * string) : res salary_error db :=
  let '(r, pid) := rp in
  c ← salary_column (total_salary r);
  n ← match source_row r with
      | Some n => Ok n
      | None => Err (DbViolation "salary_records_source_provenance_check")
      end;
  let source := (source_file r, source_sheet r, n, source_sha256 r) in
  _ ← raise_if (negb ((2020 <=? year r) && (year r <=? 2100) && (1 <=? month r) && (month r <=? 12)
                      && bool_decide (company_name r ∈ REQUIRED_COMPANIES) && (0 <? n)
                      && SHA256_PATTERN (source_sha256 r) && person_id_re pid))
        (DbViolation "salary_records_check");
  _ ← raise_if (negb match site_code r with
                     | Some s => bool_decide (s ∈ store_codes d)
                     | None => true
                     end) (DbViolation "salary_records_site_code_fkey");
  _ ← raise_if (negb (bool_decide (is_Some (people d !! pid))))
        (DbViolation "salary_records_person_id_fkey");
  _ ← raise_if (negb (bool_decide (is_Some (batches d !! bid))))
        (DbViolation "salary_records_import_batch_id_fkey");
  _ ← raise_if (existsb (λ s, bool_decide (s_batch s = Some bid)
                   && match s_source s with
                      | Some (_, sheet, k, sha) =>
                          bool_decide (sha = source_sha256 r) && bool_decide (sheet = source_sheet r)
                          && (k =? n)
                      | None => false
                      end) (rows d))
        (DbViolation "uq_salary_records_batch_source_row");
  Ok (Db (batches d) (people d)
         (rows d ++ [Row (year r) (month r) (full_name r) (cnp r) c (company_name r) (site_code r)
                       (locatie r) pid (Some bid) (Some source)]) (store_codes d)).

(** [persist_salary_records]: one transaction. *)
Definition name_conflict (d : db) (rp : SalaryRecord * string) : bool :=
  match people d !! rp.2 with
  | Some p => negb (bool_decide (normalize_text (p_normalized_name p)
                                 = normalize_text (full_name rp.1)))
  | None => false
  end.

Definition persist_salary_records (identified : list (SalaryRecord * string))
    (bid : string) (b : batch) (d : db) : res salary_error db :=
  _ ← raise_if (existsb (name_conflict d) identified)
        (ValueError "Conflict identitate cu registrul existent; zero scrieri");
  d1 ← insert_batch bid b d;
  d2 ← foldR insert_person d1 identified;
  let d3 := delete_month (b_year b) (b_month b)
              (remove_dups ((λ rp, company_name rp.1) <$> identified)) d2 in
  foldR (insert_row bid) d3 identified.

(** ** The batch insert *)

Definition incomplete_provenance (r : SalaryRecord) : bool :=
  bool_decide (source_file r = EmptyString) || bool_decide (source_sheet r = EmptyString)
  || bool_decide (source_row r = None) || negb (run_match is_hex 64 64 (source_sha256 r)).

Definition str_of (v : json) : string := match v with JStr s => s | _ => EmptyString end.

(** [insert_records] with a manifest; [hmac_key] is the environment's key and
    [bid] the drawn UUID. *)
Definition insert_records (env : key_env) (hmac_key : option string) (bid : string)
    (records : list SalaryRecord) (manifest : json) (applied_by : string)
    (approval : ValidatedApproval) (d : db) : res salary_error db :=
  first ← match records with
          | [] => Err (ValueError "Nu exista randuri valide de importat.")
          | r :: _ => Ok r
          end;
  _ ← validate_records records;
  _ ← raise_if (existsb (λ r, negb ((year r =? year first) && (month r =? month first))) records)
        (ValueError "Batchul salarial trebuie sa contina o singura perioada");
  _ ← raise_if (bool_decide (strip applied_by = EmptyString))
        (ValueError "applied_by este obligatoriu");
  _ ← raise_if (existsb incomplete_provenance records)
        (ValueError "Provenance salariala incompleta; batchul nu poate fi aplicat");
  safe_manifest ← validate_dry_run_manifest casefold canonical_json sha256_hex manifest None;
  let manifest_sha := canonical_json_sha256 canonical_json sha256_hex manifest in
  _ ← require_cryptographic_validation canonical_json sha256_hex b64decode valid_key
        ed25519_verify approval env;
  env1 ← envelope casefold nfkc fromisoformat canonical_json sha256_hex approval;
  safe_envelope ← validate_audit_envelope casefold nfkc fromisoformat canonical_json sha256_hex
                    env1 (JObj safe_manifest) manifest_sha applied_by;
  _ ← _validate_records_match_manifest records safe_manifest;
  key ← validate_salary_person_id_key hmac_key;
  identified ← mapR (λ r, pid ← make_salary_person_id (cnp r) (full_name r) key; Ok (r, pid)) records;
  let metadata := match jget "approval_metadata" safe_envelope with JObj f => f | _ => [] end in
  persist_salary_records identified bid
    (Batch (year first) (month first) safe_envelope
       (sha256_hex (canonical_json (JObj safe_envelope))) (strip applied_by)
       (str_of (jget "approval_artifact_sha256" safe_envelope))
       (str_of (jget "reviewer_key_id" metadata))) d.

(** The apply run of [main], from the parsed records of both files on. *)
Definition main_apply (env : key_env) (hmac_key : option string) (bid : string) (y m : Z)
    (mobiup mobicell : list SalaryRecord) (sources : (string * string) * (string * string))
    (expected_sha256 : string) (artifact : list (string * json)) (applied_by : string)
    (d : db) : res salary_error db :=
  _ ← raise_if (bool_decide (expected_sha256 = EmptyString))
        (ApprovalError "--apply requires both --expected-manifest-sha256 and --approval-artifact");
  _ ← _require_sha256 (JStr expected_sha256) "expected manifest SHA-256";
  let records := mobiup ++ mobicell in
  _ ← validate_records records;
  let manifest := build_dry_run_manifest records y m
                    [("Mobiup"%string, sources.1); ("Mobicell"%string, sources.2)] in
  _ ← raise_if (existsb (λ c, negb (existsb (λ r, bool_decide (company_name r = c)) records))
                  REQUIRED_COMPANIES)
        (ValueError "Batch HR incomplet: ambele firme sunt obligatorii");
  approval ← validate_approval_artifact casefold nfkc fromisoformat canonical_json sha256_hex
               b64decode valid_key ed25519_verify artifact manifest expected_sha256 applied_by env;
  insert_records env hmac_key bid records manifest applied_by approval d.

(** ** Histories: imports one after the other *)

Inductive import_step (d : db) : db → Prop :=
| import_apply env hmac_key bid records manifest applied_by approval d' :
    insert_records env hmac_key bid records manifest applied_by approval d = Ok d' →
    import_step d d'.
End Import.

End SalaryImport.
