(* ===== verification/SalarySpec.v ===== *)
(** What the salary import guarantees: nothing is written without a signature of a
    trusted, independent reviewer over exactly the batch, an approval is used once,
    and an applied batch replaces exactly one month of both companies. *)

From Stdlib Require Import Ascii.
From stdpp Require Import pretty.
From S2P Require Import Prelude Text Dict Json Decimal SalaryApproval SalaryImport.
Import SalaryApproval SalaryImport.

Local Open Scope Z_scope.

Module SalarySpec.

Lemma dget_metadata f k :
  k ∈ _APPROVAL_METADATA_KEYS → dget k (metadata_fields f) = Some (jget k f).
Proof.
  unfold metadata_fields. induction _APPROVAL_METADATA_KEYS as [|k' l IH]; cbn;
    [by intros ?%elem_of_nil|].
  destruct (decide (k = k')) as [<-|Hne]; [done|]. intros [?|?]%elem_of_cons; [done|by apply IH].
Qed.

Lemma require_sha256_Ok v field s :
  _require_sha256 v field = Ok s → v = JStr s ∧ SHA256_PATTERN s = true.
Proof.
  unfold _require_sha256. destruct v as [| | | |t| |]; try done.
  destruct (SHA256_PATTERN t) eqn:Ht; [|done]. by intros [= <-].
Qed.

Lemma require_nonblank_Ok v field s :
  _require_nonblank v field = Ok s → ∃ t, v = JStr t ∧ s = strip t ∧ s ≠ EmptyString.
Proof.
  unfold _require_nonblank. destruct v as [| | | |t| |]; try done.
  case_bool_decide; [done|]. intros [= <-]. by exists t.
Qed.

Lemma require_int_Ok v field e z :
  _require_int v field e = Ok z → v = JInt z ∧ (∀ x, e = Some x → z = x).
Proof.
  unfold _require_int. destruct v as [| |y| | | |]; try done. intros H. inv_res.
  split; [done|]. intros x ->. by apply negb_false_iff, Z.eqb_eq in Hv.
Qed.

Section Spec.
Context (nfkd_ascii upper : string → string).
Context (casefold nfkc : string → string) (fromisoformat : string → option bool).
Context (canonical_json : json → string) (sha256_hex : string → string).
Context (b64decode : string → option string) (valid_key : string → bool).
Context (ed25519_verify : string → string → string → bool).
Context (hmac_hex : string → string → string) (lower : string → string).

Notation insert_records := (insert_records nfkd_ascii upper casefold nfkc fromisoformat
  canonical_json sha256_hex b64decode valid_key ed25519_verify hmac_hex lower).
Notation persist := (persist_salary_records nfkd_ascii upper lower).
Notation sha_of := (canonical_json_sha256 canonical_json sha256_hex).
Notation validate_manifest := (validate_dry_run_manifest casefold canonical_json sha256_hex).
Notation validate_metadata := (_validate_approval_metadata casefold nfkc fromisoformat).
Notation build := (build_audit_envelope casefold nfkc fromisoformat canonical_json sha256_hex).
Notation normalised := (_normalise_comparison casefold nfkc).

Lemma validate_manifest_Ok m e f :
  validate_manifest m e = Ok f → m = JObj f ∧ no_private casefold m = true ∧
  (∀ s, e = Some (JStr s) → sha_of m = s).
Proof.
  unfold validate_dry_run_manifest. destruct m as [| | | | | |g]; try done. intros H.
  apply bind_Ok in H as (? & Hp & H). unfold _assert_no_private_identity_material in Hp.
  apply raise_if_Ok, negb_false_iff in Hp. split; [|split; [done|]].
  - inv_res. by destruct e; inv_res.
  - intros s ->. inv_res. match goal with H : negb (bool_decide _) = false |- _ =>
      apply negb_false_iff, bool_decide_eq_true in H as <- end.
    match goal with H : _require_sha256 _ _ = Ok _ |- _ => by apply require_sha256_Ok in H as [[= ->] _] end.
Qed.

(** ** The approval of a write *)

(** What the reviewer's artifact must say for the batch. *)
Record approves (artifact : list (string * json)) (manifest_sha256 operator : string) : Prop := {
  ap_type : jget "artifact_type" artifact = JStr APPROVAL_ARTIFACT_TYPE;
  ap_decision : jget "decision" artifact = JStr "approved";
  ap_manifest : jget "manifest_sha256" artifact = JStr manifest_sha256;
  ap_unresolved : json_eqb (jget "unresolved_groups_count" artifact) (JInt 0) = true;
  ap_companies : json_eqb (jget "companies" artifact) companies_json = true;
  ap_reviewer : ∃ r, jget "reviewer" artifact = JStr r ∧
    normalised (strip r) ≠ normalised (strip operator);
}.

(** A key of the environment verifies the artifact's signature of its metadata. *)
Definition signed_by_trusted (env : key_env) (artifact : list (string * json)) : Prop :=
  ∃ trusted key_id encoded key signature encoded_signature,
    load_trusted_reviewer_keys env = Ok trusted ∧
    jget "reviewer_key_id" artifact = JStr key_id ∧
    dget (strip key_id) trusted = Some encoded ∧ b64decode encoded = Some key ∧
    jget "signature" artifact = JStr encoded_signature ∧
    b64decode encoded_signature = Some signature ∧
    ed25519_verify key signature (canonical_json (JObj (metadata_fields artifact))) = true.

Lemma signature_trusted env trusted artifact u :
  load_trusted_reviewer_keys env = Ok trusted →
  _verify_reviewer_signature canonical_json b64decode valid_key ed25519_verify artifact trusted = Ok u →
  signed_by_trusted env artifact.
Proof.
  intros Ht H. unfold _verify_reviewer_signature in H. apply bind_Ok in H as (k & Hk & H).
  apply require_nonblank_Ok in Hk as (key_id & Hk & -> & _).
  destruct (dget (strip key_id) trusted) as [encoded|] eqn:He; [|done].
  destruct (jget "signature" artifact) as [| | | |es| |] eqn:Hs; try done. cbn in H.
  destruct (b64decode encoded) as [key|] eqn:Hkey; [|done].
  destruct (b64decode es) as [signature|] eqn:Hsig; [|done].
  apply raise_if_Ok, negb_false_iff, andb_true_iff in H as [_ H].
  by exists trusted, key_id, encoded, key, signature, es.
Qed.

(** The metadata that passes validation, and what is kept of it. *)
Lemma validate_metadata_Ok f m sha op safe :
  validate_metadata f m sha op = Ok safe →
  approves f sha op ∧ no_private casefold (JObj f) = true ∧
  ∃ r k, jget "reviewer" f = JStr r ∧ jget "reviewer" safe = JStr (strip r) ∧
         jget "reviewer_key_id" f = JStr k ∧ jget "reviewer_key_id" safe = JStr (strip k).
Proof.
  intros H. unfold _validate_approval_metadata, required_string in H. inv_res.
  repeat match goal with
  | H : negb _ = false |- _ => apply negb_false_iff in H
  | H : raise_if _ _ = Ok _ |- _ => apply raise_if_Ok in H
  | H : bool_decide _ = true |- _ => apply bool_decide_eq_true in H
  | H : bool_decide _ = false |- _ => apply bool_decide_eq_false in H
  | H : json_eqb _ (JStr _) = true |- _ => apply json_eqb_str in H
  | H : _require_sha256 _ _ = Ok _ |- _ => apply require_sha256_Ok in H as [? _]
  | H : _require_int _ _ _ = Ok _ |- _ => apply require_int_Ok in H as [? ?]
  | H : _require_nonblank _ _ = Ok _ |- _ => apply require_nonblank_Ok in H as (? & ? & -> & _)
  end.
  simplify_eq/=. split.
  - split; try done; [|by eexists].
    match goal with H : ∀ x, Some 0 = Some x → ?z = x, E : jget _ _ = JInt ?z |- _ =>
      by rewrite E, (H 0 eq_refl) end.
  - split; [|by eexists _, _].
    match goal with H : _assert_no_private_identity_material _ _ = Ok _ |- _ =>
      by apply raise_if_Ok, negb_false_iff in H end.
Qed.

Lemma json_eqb_companies v : json_eqb v companies_json = true → v = companies_json.
Proof.
  destruct v as [| | | | |l|]; try done. unfold companies_json. cbn.
  destruct l as [|a [|b [|c l]]]; try done; rewrite ?andb_false_r; try done.
  rewrite andb_true_r. by intros [->%json_eqb_str ->%json_eqb_str]%andb_true_iff.
Qed.

(** The artifact says what the validated metadata says. *)
Lemma approves_artifact artifact metadata sha op :
  json_eqb (JObj (metadata_fields artifact)) (JObj metadata) = true →
  approves metadata sha op → approves artifact sha op.
Proof.
  intros Heq [Ht Hd Hm Hu Hc (r & Hr & Hne)].
  assert (Hget : ∀ k, k ∈ _APPROVAL_METADATA_KEYS →
            json_eqb (jget k artifact) (jget k metadata) = true).
  { intros k Hk. destruct (json_eqb_get _ _ _ _ Heq (dget_metadata artifact k Hk)) as (w & Hw & He).
    unfold jget at 2. by rewrite Hw. }
  split.
  - apply json_eqb_str. rewrite <- Ht. apply Hget. set_solver.
  - apply json_eqb_str. rewrite <- Hd. apply Hget. set_solver.
  - apply json_eqb_str. rewrite <- Hm. apply Hget. set_solver.
  - eapply json_eqb_int_trans; [|exact Hu]. apply Hget. set_solver.
  - apply json_eqb_companies in Hc. rewrite <- Hc. apply Hget. set_solver.
  - exists r. split; [|done]. apply json_eqb_str. rewrite <- Hr. apply Hget. set_solver.
Qed.

(** ** What a successful insert went through *)

Lemma require_crypto_Ok a env u :
  require_cryptographic_validation canonical_json sha256_hex b64decode valid_key ed25519_verify a env = Ok u →
  signed_by_trusted env (signed_artifact a) ∧
  json_eqb (JObj (metadata_fields (signed_artifact a))) (JObj (metadata a)) = true ∧
  sha_of (JObj (signed_artifact a)) = artifact_sha256 a.
Proof.
  intros H. unfold require_cryptographic_validation in H. inv_res. split_and!.
  - by eapply signature_trusted.
  - by apply negb_false_iff.
  - by apply negb_false_iff, bool_decide_eq_true in H.
Qed.

Lemma build_Ok m sha meta art op env :
  build (JObj m) sha (JObj meta) art op = Ok env →
  sha_of (JObj m) = sha ∧ approves meta sha op ∧ strip op ≠ EmptyString ∧
  ∃ safe, env = [("audit_envelope_version"%string, JInt AUDIT_ENVELOPE_VERSION);
          ("dry_run_manifest"%string, JObj m);
          ("dry_run_manifest_sha256"%string, JStr sha);
          ("approval_metadata"%string, JObj safe);
          ("approval_artifact_sha256"%string, JStr art);
          ("applied_by"%string, JStr (strip op))] ∧
    ∃ r k, jget "reviewer" meta = JStr r ∧ jget "reviewer" safe = JStr (strip r) ∧
         jget "reviewer_key_id" meta = JStr k ∧ jget "reviewer_key_id" safe = JStr (strip k).
Proof.
  intros H. unfold build_audit_envelope in H. inv_res.
  apply validate_manifest_Ok in Hv as ([= <-] & _ & Hs). apply require_sha256_Ok in Hv0 as [[= <-] _].
  apply validate_metadata_Ok in Hv2 as (Hap & _ & Hrest).
  apply require_nonblank_Ok in Hv3 as (? & [= <-] & -> & Hne).
  split_and!; [by apply Hs|done|done|]. by eexists.
Qed.

(** The facts an accepted insert establishes before its transaction. *)
Record inserted (env : key_env) (bid : string) (records : list SalaryRecord) (manifest : json)
    (applied_by : string) (a : ValidatedApproval) (d d' : db) : Prop := {
  in_signed : signed_by_trusted env (signed_artifact a);
  in_approves : approves (signed_artifact a) (sha_of manifest) applied_by;
  in_artifact : sha_of (JObj (signed_artifact a)) = artifact_sha256 a;
  in_rest : ∃ first rest fields key identified b,
    records = first :: rest ∧ manifest = JObj fields ∧
    Forall (λ r, year r = year first ∧ month r = month first) records ∧
    _validate_records_match_manifest records fields = Ok tt ∧
    mapR (λ r, pid ← make_salary_person_id hmac_hex lower (cnp r) (full_name r) key; Ok (r, pid))
      records = Ok identified ∧
    persist identified bid b d = Ok d' ∧
    b_year b = year first ∧ b_month b = month first ∧ b_applied_by b = strip applied_by ∧
    b_approval_sha256 b = artifact_sha256 a ∧
    no_private casefold manifest = true ∧
    jget "dry_run_manifest" (b_manifest b) = manifest;
}.

Lemma insert_records_Ok env hk bid records manifest applied_by a d d' :
  insert_records env hk bid records manifest applied_by a d = Ok d' →
  inserted env bid records manifest applied_by a d d'.
Proof.
  intros H. unfold SalaryImport.insert_records in H.
  apply bind_Ok in H as (first & Hfirst & H).
  destruct records as [|r rest]; [done|]. injection Hfirst as <-.
  apply bind_Ok in H as (? & _ & H).
  apply bind_Ok in H as (? & Hperiod%raise_if_Ok & H).
  apply bind_Ok in H as (? & _ & H). apply bind_Ok in H as (? & _ & H).
  apply bind_Ok in H as (fields & Hman & H). apply bind_Ok in H as (? & Hcrypto & H).
  apply bind_Ok in H as (env1 & Henv & H). apply bind_Ok in H as (safe_env & Hval & H).
  apply bind_Ok in H as ([] & Hmatch & H). apply bind_Ok in H as (key & _ & H).
  apply bind_Ok in H as (identified & Hid & H).
  apply validate_manifest_Ok in Hman as (-> & Hpriv & _).
  apply require_crypto_Ok in Hcrypto as (Hsig & Heq & Hart).
  unfold envelope in Henv. apply build_Ok in Henv as (_ & Hap & _ & safe1 & -> & r0 & k0 & Hr0 & Hr1 & Hk0 & Hk1).
  unfold validate_audit_envelope, required_string in Hval. inv_res.
  unfold jget in Hv3, Hv4, Hv5, Hv7, Hv8. dget_fields. cbn [default from_option id] in Hv3, Hv4, Hv5, Hv7, Hv8.
  apply validate_manifest_Ok in Hv2 as ([= <-] & _ & _).
  apply negb_false_iff, json_eqb_str in Hv4 as [= Hsha].
  apply require_nonblank_Ok in Hv6 as (? & [= <-] & -> & _).
  apply negb_false_iff, json_eqb_str in Hv7 as [= Hop].
  apply require_sha256_Ok in Hv8 as [[= <-] _].
  apply build_Ok in Hval as (_ & _ & _ & safe2 & -> & _).
  destruct Hap as [? ? ? ? ? (r1 & Hr2 & Hne)]. rewrite Hop in Hne. rewrite Hsha in *.
  split; [done| |done|].
  - eapply approves_artifact; [exact Heq|]. split; try done. by exists r1.
  - eexists r, rest, fields, key, identified, _. split_and!; try exact H; try done.
    + apply Forall_forall. intros rec Hrec. apply list_elem_of_In in Hrec.
      pose proof (existsb_false_in _ _ _ Hperiod Hrec) as Hx'. cbn in Hx'.
      apply negb_false_iff, andb_true_iff in Hx' as [?%Z.eqb_eq ?%Z.eqb_eq]. done.
Qed.

(** ** The transaction *)

Lemma insert_batch_Ok bid b d d' :
  insert_batch bid b d = Ok d' →
  batches d !! bid = None ∧ batch_check b = true ∧
  (∀ k x, batches d !! k = Some x → b_approval_sha256 x ≠ b_approval_sha256 b) ∧
  d' = Db (<[bid := b]> (batches d)) (people d) (rows d) (store_codes d).
Proof.
  intros H. unfold insert_batch in H. inv_res. split_and!; try done.
  - by apply bool_decide_eq_false, eq_None_not_Some in Hv0.
  - by apply negb_false_iff in Hv.
  - intros k x Hx Heq. assert (Hin : (k, x) ∈ map_to_list (batches d)) by by apply elem_of_map_to_list.
    apply list_elem_of_In in Hin. pose proof (existsb_false_in _ _ _ Hv1 Hin) as Hf.
    cbn in Hf. by apply bool_decide_eq_false in Hf.
Qed.

(** Two persons never share a personal code (the unique index skips the empty one). *)
Definition unique_codes (d : db) : Prop := ∀ i j p q,
  people d !! i = Some p → people d !! j = Some q → btrim (p_cnp p) = btrim (p_cnp q) →
  btrim (p_cnp p) ≠ EmptyString → i = j.

Lemma insert_person_Ok r pid d d' :
  insert_person lower d (r, pid) = Ok d' →
  d' = d ∨
  people d !! pid = None ∧
  (∀ k x, people d !! k = Some x → btrim (p_cnp x) = btrim (cnp r) → btrim (cnp r) = EmptyString) ∧
  d' = Db (batches d) (<[pid := Person (cnp r) (lower (btrim (full_name r)))]> (people d))
          (rows d) (store_codes d).
Proof.
  intros H. unfold insert_person in H. inv_res.
  destruct (people d !! pid) as [p0|] eqn:Hpid; inv_res; [by left|]. right. split_and!; try done.
  intros k x Hx Hc. apply andb_false_iff in Hv0 as [Hv0|Hv0];
    [by apply negb_false_iff, bool_decide_eq_true in Hv0|]. exfalso.
  assert (Hin : (k, x) ∈ map_to_list (people d)) by by apply elem_of_map_to_list.
  apply list_elem_of_In in Hin. pose proof (existsb_false_in _ _ _ Hv0 Hin) as Hf.
  cbn [snd] in Hf. by apply bool_decide_eq_false in Hf.
Qed.

Lemma insert_people_Ok l d d' :
  foldR (insert_person lower) d l = Ok d' →
  batches d' = batches d ∧ rows d' = rows d ∧ store_codes d' = store_codes d ∧
  people d ⊆ people d' ∧ (unique_codes d → unique_codes d').
Proof.
  apply (foldR_inv (λ _ t, batches t = batches d ∧ rows t = rows d ∧ store_codes t = store_codes d ∧
    people d ⊆ people t ∧ (unique_codes d → unique_codes t))); [|by split_and!].
  intros _ [r pid] t t' (Hb & Hr & Hs & Hp & Hu) [->|(Hpid & Hfresh & ->)]%insert_person_Ok;
    [by split_and!|].
  split_and!; try done; cbn [people].
  - apply insert_subseteq_r; [by eapply lookup_weaken_None|done].
  - intros H0 i j p q Hi Hj Heq Hne. cbn [people] in *.
    apply lookup_insert_Some in Hi as [[<- <-]|[_ Hi]];
      apply lookup_insert_Some in Hj as [[<- <-]|[_ Hj]]; cbn [p_cnp] in *; [done|..].
    + destruct Hne. by apply (Hfresh j q).
    + destruct Hne. rewrite Heq. by apply (Hfresh i p).
    + by eapply Hu.
Qed.

(** How a record is stored. *)
Definition stored_as (bid : string) (rp : SalaryRecord * string) (s : salary_row) : Prop :=
  let '(r, pid) := rp in
  ∃ c n, salary_column (total_salary r) = Ok c ∧ source_row r = Some n ∧
    company_name r ∈ REQUIRED_COMPANIES ∧
    s = Row (year r) (month r) (full_name r) (cnp r) c (company_name r) (site_code r) (locatie r)
          pid (Some bid) (Some (source_file r, source_sheet r, n, source_sha256 r)).

(** The foreign keys of a row. *)
Record row_refs (d : db) (s : salary_row) : Prop := {
  rr_person : is_Some (people d !! s_person s);
  rr_site : ∀ site, s_site_code s = Some site → site ∈ store_codes d;
}.

Lemma insert_rows_Ok bid l d d' :
  foldR (insert_row bid) d l = Ok d' →
  ∃ new, Forall2 (stored_as bid) l new ∧ Forall (row_refs d) new ∧
    d' = Db (batches d) (people d) (rows d ++ new) (store_codes d).
Proof.
  apply (foldR_inv (λ done t, ∃ new, Forall2 (stored_as bid) done new ∧ Forall (row_refs d) new ∧
    t = Db (batches d) (people d) (rows d ++ new) (store_codes d)));
    [|exists []; rewrite app_nil_r; split_and!; [constructor..|by destruct d]].
  intros don [r pid] t t' (new & Hall & Hpp & ->) H. unfold insert_row in H. inv_res.
  cbn [batches people rows store_codes] in *. bool_prop.
  eexists (new ++ [_]). split_and!; [| |by rewrite app_assoc].
  - apply Forall2_app; [done|]. constructor; [|done].
    destruct (source_row r) as [k|] eqn:Hk; [|done]. inv_res. split_bools.
    eexists _, _. by split_and!.
  - apply Forall_app. split; [done|]. constructor; [|done]. split; cbn; [done|].
    intros site Hs. rewrite Hs in *. by bool_prop.
Qed.

Lemma persist_Ok identified bid b d d' :
  persist identified bid b d = Ok d' →
  batches d !! bid = None ∧ batch_check b = true ∧
  (∀ k x, batches d !! k = Some x → b_approval_sha256 x ≠ b_approval_sha256 b) ∧
  batches d' = <[bid := b]> (batches d) ∧ store_codes d' = store_codes d ∧
  people d ⊆ people d' ∧ (unique_codes d → unique_codes d') ∧
  ∃ new, Forall2 (stored_as bid) identified new ∧ Forall (row_refs d') new ∧
    rows d' = List.filter (λ s, negb (replaced (b_year b) (b_month b)
                (remove_dups ((λ rp, company_name rp.1) <$> identified)) s)) (rows d) ++ new.
Proof.
  intros H. unfold persist_salary_records in H. inv_res.
  apply insert_batch_Ok in Hv0 as (Hn & Hc & Hu & ->).
  apply insert_people_Ok in Hv1 as (Hb & Hr & Hs & Hp & Huq). cbn in Hb, Hr, Hs.
  apply insert_rows_Ok in H as (new & Hall & Hrefs & ->). cbn. split_and!; try done.
  exists new. split_and!; [done| |by rewrite Hr].
  eapply Forall_impl; [exact Hrefs|]. intros s [? ?]. by split.
Qed.

(** C20. Nothing is written without approval: an insert that changes the salary tables, or
    only commits, went through an artifact whose metadata a trusted reviewer's key
    signed, which approves exactly the SHA-256 of the batch's manifest with no
    unresolved identity group, and whose reviewer is not the operator; the batch
    stores that manifest, which holds no personal code under any key. *)
Theorem every_write_is_approved env hk bid records manifest applied_by a d d' :
  insert_records env hk bid records manifest applied_by a d = Ok d' →
  signed_by_trusted env (signed_artifact a) ∧
  approves (signed_artifact a) (sha_of manifest) applied_by ∧
  no_private casefold manifest = true ∧
  ∃ b, batches d' !! bid = Some b ∧ batches d !! bid = None ∧
       jget "dry_run_manifest" (b_manifest b) = manifest ∧
       b_applied_by b = strip applied_by ∧
       b_approval_sha256 b = sha_of (JObj (signed_artifact a)).
Proof.
  intros [Hs Ha Hart (first & rest & fields & key & ids & b & _ & _ & _ & _ & _ & Hp & _ & _ & Hop & Hb & Hpr & Hm)]%insert_records_Ok.
  apply persist_Ok in Hp as (Hn & _ & _ & Hbt & _).
  split_and!; try done. exists b. rewrite Hart, Hbt, lookup_insert_eq. by split_and!.
Qed.

(** ** The month an insert replaces *)

Lemma covers_companies_iff records c :
  covers_companies records = true → c ∈ company_name <$> records ↔ c ∈ REQUIRED_COMPANIES.
Proof.
  intros H%bool_decide_eq_true. rewrite <- elem_of_remove_dups.
  rewrite <- (sorted_by_perm String.leb (remove_dups _)), H. by rewrite sorted_by_perm.
Qed.

Lemma match_companies_Ok records fields :
  _validate_records_match_manifest records fields = Ok tt →
  covers_companies records = true ∧
  ∀ c, c ∈ REQUIRED_COMPANIES → match_company records (companies_by_name fields) c = Ok ().
Proof.
  intros H. unfold _validate_records_match_manifest in H. inv_res.
  split; [by apply negb_false_iff|]. intros c Hc.
  apply mapR_Ok in Hv0. apply list_elem_of_lookup in Hc as (i & Hi).
  destruct (Forall2_lookup_l _ _ _ _ _ Hv0 Hi) as ([] & _ & Hm). exact Hm.
Qed.

Lemma match_company_Ok records companies c :
  match_company records companies c = Ok () →
  ∃ entry total count, dget c companies = Some entry ∧
    dget "control_total" entry = Some total ∧ dget "row_count" entry = Some count ∧
    json_eqb (JInt (Z.of_nat (length (of_company c records)))) count = true ∧
    total = JStr (format2 (total_of (of_company c records))).
Proof.
  intros H. unfold match_company, required_key in H. inv_res.
  destruct (dget c companies) as [entry|]; [|done]. inv_res.
  destruct (dget "row_count" v) as [count|] eqn:Hc; [|done].
  destruct (dget "control_total" v) as [total|] eqn:Ht; [|done]. inv_res.
  eexists v, _, _. split_and!; try done; [by apply negb_false_iff|].
  by apply json_eqb_str_l, negb_false_iff.
Qed.

(** The rows of one month of one company. *)
Definition in_month (y m : Z) (c : string) (s : salary_row) : bool :=
  (s_year s =? y) && (s_month s =? m) && bool_decide (s_company s = c).
Definition month_rows (y m : Z) (c : string) (d : db) : list salary_row :=
  List.filter (in_month y m c) (rows d).

Lemma identified_records hmac records key identified :
  mapR (λ r, pid ← make_salary_person_id hmac lower (cnp r) (full_name r) key; Ok (r, pid))
    records = Ok identified →
  identified.*1 = records.
Proof.
  intros H%mapR_Ok. induction H as [|r [r' pid] l l' Hr _ IH]; [done|].
  cbn. rewrite IH. by inv_res.
Qed.

(** What the insert does to the table of rows. *)
Lemma insert_rows_effect env hk bid records manifest applied_by a d d' :
  insert_records env hk bid records manifest applied_by a d = Ok d' →
  ∃ first rest fields identified new, records = first :: rest ∧ manifest = JObj fields ∧
    _validate_records_match_manifest records fields = Ok tt ∧
    identified.*1 = records ∧ Forall2 (stored_as bid) identified new ∧
    Forall (row_refs d') new ∧
    Forall (λ s, s_year s = year first ∧ s_month s = month first ∧
                 s_company s ∈ REQUIRED_COMPANIES ∧ s_batch s = Some bid) new ∧
    rows d' = List.filter (λ s, negb (replaced (year first) (month first) REQUIRED_COMPANIES s))
                (rows d) ++ new.
Proof.
  intros [_ _ _ (first & rest & fields & key & ids & b & -> & -> & Hper & Hm & Hids & Hp & Hy & Hmo & _)]%insert_records_Ok.
  apply identified_records in Hids as Hfst.
  apply persist_Ok in Hp as (_ & _ & _ & _ & _ & _ & _ & new & Hnew & Hrefs & Hrows).
  eexists first, rest, fields, ids, new. split_and!; try done.
  - rewrite <- Hfst, Forall_fmap in Hper. apply Forall_forall. intros s (i & Hi)%list_elem_of_lookup.
    destruct (Forall2_lookup_r _ _ _ _ _ Hnew Hi) as ([r pid] & Hr & c & n & _ & _ & Hc & ->).
    pose proof (Forall_lookup_1 _ _ _ _ Hper Hr) as [? ?]. cbn in *. done.
  - rewrite Hrows, Hy, Hmo. f_equal. apply filter_ext. intros s. f_equal. unfold replaced.
    f_equal. apply bool_decide_ext. rewrite elem_of_remove_dups.
    apply match_companies_Ok in Hm as [Hcov _].
    rewrite <- (covers_companies_iff _ (s_company s) Hcov), <- Hfst.
    by rewrite <- list_fmap_compose.
Qed.

Lemma stored_amounts bid c ids new :
  Forall2 (stored_as bid) ids new → Forall (λ r, dexp (total_salary r) = -2) ids.*1 →
  s_total_cents <$> List.filter (λ s, bool_decide (s_company s = c)) new =
  coef ∘ total_salary <$> of_company c ids.*1.
Proof.
  induction 1 as [|[r pid] s ids new Hs _ IH]; cbn [fmap list_fmap]; [done|].
  intros [Hr Hall]%Forall_cons. destruct Hs as (x & n & Hx & _ & _ & ->).
  unfold of_company. cbn [List.filter s_company fst]. specialize (IH Hall).
  case_bool_decide; [|done]. cbn [fmap list_fmap s_total_cents]. f_equal; [|done].
  cbn [fst] in Hr. rewrite (cents_coef _ Hr) in Hx. unfold salary_column, scaled, cents in Hx.
  cbn [dexp coef] in Hx. rewrite Z.sub_diag, Z.mul_1_r in Hx. cbn in Hx.
  destruct (Z.abs _ <? _); [|done]. by injection Hx as <-.
Qed.

(** Of the batch's companies, the month holds exactly the batch's rows. *)
Lemma month_rows_new y m c old new d' :
  c ∈ REQUIRED_COMPANIES → Forall (λ s, s_year s = y ∧ s_month s = m) new →
  rows d' = List.filter (λ s, negb (replaced y m REQUIRED_COMPANIES s)) old ++ new →
  month_rows y m c d' = List.filter (λ s, bool_decide (s_company s = c)) new.
Proof.
  intros Hc Hnew Hrows. unfold month_rows. rewrite Hrows, List.filter_app, filter_none; cbn.
  - apply filter_ext_in. intros s Hs%list_elem_of_In.
    destruct (proj1 (Forall_forall _ _) Hnew s Hs) as [Hy Hm].
    unfold in_month. by rewrite Hy, Hm, !Z.eqb_refl.
  - apply Forall_forall. intros s [_ Hs%negb_true_iff]%elem_of_filterb. unfold replaced in Hs.
    unfold in_month. destruct ((s_year s =? y) && (s_month s =? m)); [|done]. cbn in *.
    apply bool_decide_eq_false in Hs. apply bool_decide_eq_false. intros <-. done.
Qed.

(** In cents, the control total is exact. *)
Lemma total_of_cents records c :
  c ∈ company_name <$> records → Forall (λ r, dexp (total_salary r) = -2) records →
  sumZ (Z.abs ∘ coef ∘ total_salary <$> records) < pow10 28 →
  total_of (of_company c records) = cents (sumZ (coef ∘ total_salary <$> of_company c records)).
Proof.
  intros Hc Hexp Hsum. set (mine := of_company c records).
  assert (E : total_salary <$> mine = cents <$> (coef ∘ total_salary <$> mine)).
  { rewrite <- list_fmap_compose. apply list_fmap_ext. intros i r Hr. apply cents_coef.
    apply list_elem_of_lookup_2, elem_of_filterb in Hr as [Hr _].
    by apply (proj1 (Forall_forall _ _) Hexp r Hr). }
  unfold total_of. rewrite E, dsum_cents; [done| |].
  - apply list_elem_of_fmap in Hc as (r & -> & Hr).
    assert (Hin : r ∈ mine) by (apply elem_of_filterb; by rewrite bool_decide_eq_true_2).
    by destruct mine; [apply elem_of_nil in Hin|].
  - eapply Z.le_lt_trans; [|exact Hsum]. rewrite <- list_fmap_compose.
    apply (sumZ_filter_le _ (λ r, bool_decide (company_name r = c))). intros; cbn; lia.
Qed.

(** C21. An applied batch is what was approved.  After an insert whose salaries are in cents
    (and whose absolute total keeps 28 digits), the rows of the month of each of the
    two companies are exactly the batch's: they carry its id, are as many as the
    approved manifest counts, and their stored amounts add up to the control total
    the manifest prints; rows of other months, and of other companies, are kept. *)
Theorem applied_month_is_approved env hk bid records manifest applied_by a d d' :
  insert_records env hk bid records manifest applied_by a d = Ok d' →
  Forall (λ r, dexp (total_salary r) = -2) records →
  sumZ (Z.abs ∘ coef ∘ total_salary <$> records) < pow10 28 →
  ∃ fields y m, manifest = JObj fields ∧ Forall (λ r, year r = y ∧ month r = m) records ∧
    (∀ c, c ∈ REQUIRED_COMPANIES →
      ∃ entry count, dget c (companies_by_name fields) = Some entry ∧
        Forall (λ s, s_batch s = Some bid) (month_rows y m c d') ∧
        jget "row_count" entry = count ∧
        json_eqb (JInt (Z.of_nat (length (month_rows y m c d')))) count = true ∧
        jget "control_total" entry =
          JStr (format2 (cents (sumZ (s_total_cents <$> month_rows y m c d'))))) ∧
    (∀ s, ¬ (s_year s = y ∧ s_month s = m ∧ s_company s ∈ REQUIRED_COMPANIES) →
      s ∈ rows d' ↔ s ∈ rows d).
Proof.
  intros H Hexp Hsum.
  pose proof (in_rest _ _ _ _ _ _ _ _ (insert_records_Ok _ _ _ _ _ _ _ _ _ H))
    as (f0 & r0 & _ & _ & _ & _ & E0 & _ & Hper & _).
  apply insert_rows_effect in H as (first & rest & fields & ids & new & E & -> & Hm & Hids & Hnew & _ & Hall & Hrows).
  assert (f0 = first) as -> by congruence. clear E0 r0.
  apply match_companies_Ok in Hm as [Hcov Hm].
  assert (Hmine := λ c Hc, month_rows_new (year first) (month first) c (rows d) new d' Hc
    ltac:(eapply Forall_impl; [exact Hall|]; cbn; tauto) Hrows).
  exists fields, (year first), (month first). split_and!; [done|done| |].
  - intros c Hc. destruct (match_company_Ok _ _ _ (Hm c Hc)) as (entry & total & count & He & Ht & Hn & Hlen & Htot).
    pose proof (stored_amounts _ c _ _ Hnew ltac:(by rewrite Hids)) as Ham. rewrite Hids in Ham.
    exists entry, count. rewrite !(Hmine c Hc). unfold jget. rewrite Ht, Hn. split_and!; try done.
    + apply Forall_forall. intros s [Hs _]%elem_of_filterb.
      by apply (proj1 (Forall_forall _ _) Hall s Hs).
    + apply (f_equal length) in Ham. rewrite !length_fmap in Ham. by rewrite Ham.
    + cbn. rewrite Htot, Ham. do 2 f_equal. apply total_of_cents; [|done..].
      by apply covers_companies_iff.
  - intros s Hs. rewrite Hrows, elem_of_app, elem_of_filterb. split.
    + intros [[? _]|Hin]; [done|]. destruct Hs.
      destruct (proj1 (Forall_forall _ _) Hall s Hin) as (? & ? & ? & _). done.
    + intros Hin. left. split; [done|]. apply negb_true_iff. apply not_true_is_false.
      intros Hr. apply Hs. unfold replaced in Hr. by split_bools.
Qed.
End Spec.
End SalarySpec.
