(* ===== verification/SalaryInv.v ===== *)
(** Histories of salary imports: the invariant of the salary tables, an approval that
    works once, and files whose digest is taken for a personal code. *)

From Stdlib Require Import Ascii.
From stdpp Require Import pretty.
From S2P Require Import Prelude Text Dict Json Decimal SalaryApproval SalaryImport SalarySpec.
Import SalaryApproval SalaryImport SalarySpec.

Local Open Scope Z_scope.

Module SalaryInv.

(** The salary tables between imports. *)
Record sound (d : db) : Prop := {
  so_codes : unique_codes d;
  so_refs : Forall (row_refs d) (rows d);
  so_check : map_Forall (λ _ b, batch_check b = true) (batches d);
  so_once : ∀ i j b c, batches d !! i = Some b → batches d !! j = Some c →
    b_approval_sha256 b = b_approval_sha256 c → i = j;
  (** a row of a batch lies in the batch's month, *)
  so_batch : ∀ s bid, s ∈ rows d → s_batch s = Some bid →
    s_company s ∈ REQUIRED_COMPANIES ∧
    ∃ b, batches d !! bid = Some b ∧ s_year s = b_year b ∧ s_month s = b_month b;
  (** and the month of both companies comes from that batch alone. *)
  so_one : ∀ s t bid, s ∈ rows d → t ∈ rows d → s_batch s = Some bid →
    s_year t = s_year s → s_month t = s_month s → s_company t ∈ REQUIRED_COMPANIES →
    s_batch t = Some bid;
}.

Lemma sound_empty codes : sound (Db ∅ ∅ [] codes).
Proof.
  split; cbn.
  - intros i j p q Hi. cbn in Hi. by rewrite lookup_empty in Hi.
  - constructor.
  - by apply map_Forall_empty.
  - intros i j b c Hi. by rewrite lookup_empty in Hi.
  - by intros ?? ?%elem_of_nil.
  - by intros ??? ?%elem_of_nil.
Qed.

Section Inv.
Context (nfkd_ascii upper : string → string).
Context (casefold nfkc : string → string) (fromisoformat : string → option bool).
Context (canonical_json : json → string) (sha256_hex : string → string).
Context (b64decode : string → option string) (valid_key : string → bool).
Context (ed25519_verify : string → string → string → bool).
Context (hmac_hex : string → string → string) (lower : string → string).

Notation insert_records := (insert_records nfkd_ascii upper casefold nfkc fromisoformat
  canonical_json sha256_hex b64decode valid_key ed25519_verify hmac_hex lower).
Notation main_apply := (main_apply nfkd_ascii upper casefold nfkc fromisoformat
  canonical_json sha256_hex b64decode valid_key ed25519_verify hmac_hex lower).
Notation import_step := (import_step nfkd_ascii upper casefold nfkc fromisoformat
  canonical_json sha256_hex b64decode valid_key ed25519_verify hmac_hex lower).
Notation sha_of := (canonical_json_sha256 canonical_json sha256_hex).

(** What an import adds: a batch of its approval, whose month it replaces. *)
Record imported (bid : string) (approval_sha : string) (d d' : db) : Prop := {
  im_batch : ∃ b, batches d !! bid = None ∧ batches d' = <[bid := b]> (batches d) ∧
    batch_check b = true ∧ b_approval_sha256 b = approval_sha ∧
    (∀ k x, batches d !! k = Some x → b_approval_sha256 x ≠ approval_sha) ∧
    ∃ new, Forall (row_refs d') new ∧
      Forall (λ s, s_year s = b_year b ∧ s_month s = b_month b ∧
                   s_company s ∈ REQUIRED_COMPANIES ∧ s_batch s = Some bid) new ∧
      rows d' = List.filter (λ s, negb (replaced (b_year b) (b_month b) REQUIRED_COMPANIES s))
                  (rows d) ++ new;
  im_codes : unique_codes d → unique_codes d';
  im_people : people d ⊆ people d';
  im_sites : store_codes d' = store_codes d;
}.

Lemma insert_imported env hk bid records manifest applied_by a d d' :
  insert_records env hk bid records manifest applied_by a d = Ok d' →
  imported bid (artifact_sha256 a) d d'.
Proof.
  intros H. apply insert_rows_effect in H as He.
  destruct He as (f & r & fields & ids & new & -> & -> & _ & _ & _ & Hrefs & Hnew & Hrows).
  apply insert_records_Ok in H as
    [_ _ _ (f' & r' & ? & ? & ids' & b & [= <- <-] & _ & _ & _ & _ & Hp & Hy & Hm & _ & Ha & _)].
  apply persist_Ok in Hp as (Hn & Hc & Hu & Hb & Hs & Hpp & Huq & _). rewrite Ha in Hu.
  rewrite <- Hy, <- Hm in Hnew, Hrows.
  split; [|done..]. exists b. split_and!; try done. by exists new.
Qed.

Lemma imported_sound bid sha d d' : imported bid sha d d' → sound d → sound d'.
Proof.
  intros [(b & Hn & Hb & Hc & Ha & Hu & new & Hrefs & Hnew & Hrows) Hcodes Hpeople Hsites]
    [Ic Ir Ik Io Ib I1].
  assert (Hfresh : ∀ s, s ∈ rows d → s_batch s ≠ Some bid).
  { intros s Hs Hsb. destruct (Ib s bid Hs Hsb) as (_ & x & Hx & _). congruence. }
  assert (Hrow : ∀ s, s ∈ rows d' ↔
     s ∈ rows d ∧ replaced (b_year b) (b_month b) REQUIRED_COMPANIES s = false ∨ s ∈ new).
  { intros s. by rewrite Hrows, elem_of_app, elem_of_filterb, negb_true_iff. }
  rewrite Forall_forall in Hnew. split.
  - by apply Hcodes.
  - rewrite Hrows. apply Forall_app. split; [|done]. apply Forall_forall.
    intros s [Hs _]%elem_of_filterb. destruct (proj1 (Forall_forall _ _) Ir s Hs) as [[p Hp] Hsite].
    split; [|by rewrite Hsites]. exists p. by eapply lookup_weaken.
  - rewrite Hb. by apply map_Forall_insert_2.
  - rewrite Hb. intros i j x y [[<- <-]|[_ Hi]]%lookup_insert_Some
      [[<- <-]|[_ Hj]]%lookup_insert_Some E; [done|..].
    + rewrite Ha in E. by destruct (Hu j y Hj).
    + rewrite Ha in E. by destruct (Hu i x Hi).
    + by eapply Io.
  - intros s k [[Hs _]|Hs]%Hrow Hk.
    + destruct (Ib s k Hs Hk) as (Hco & x & Hx & Hxy). split; [done|]. exists x. split; [|done].
      rewrite Hb, lookup_insert_ne; [done|congruence].
    + destruct (Hnew s Hs) as (Hy & Hm & Hco & Hsb). split; [done|]. exists b.
      assert (k = bid) as -> by congruence. by rewrite Hb, lookup_insert_eq.
  - assert (Hrep : ∀ s t, replaced (b_year b) (b_month b) REQUIRED_COMPANIES t = false →
       s_year s = b_year b → s_month s = b_month b → s_year t = s_year s → s_month t = s_month s →
       s_company t ∈ REQUIRED_COMPANIES → False).
    { intros s t Ht Hy Hm Hy' Hm' Hco. unfold replaced in Ht.
      by rewrite Hy', Hm', Hy, Hm, !Z.eqb_refl, bool_decide_eq_true_2 in Ht. }
    intros s t k [[Hs Hsr]|Hs]%Hrow [[Ht Htr]|Ht]%Hrow Hk Hy Hm Hco.
    + by apply (I1 s t).
    + destruct (Ib s k Hs Hk) as (Hcs & _). destruct (Hnew t Ht) as (? & ? & _).
      by destruct (Hrep t s).
    + destruct (Hnew s Hs) as (Hsy & Hsm & _). by destruct (Hrep s t).
    + destruct (Hnew s Hs) as (_ & _ & _ & Hsb), (Hnew t Ht) as (_ & _ & _ & Htb). congruence.
Qed.

(** Any sequence of imports keeps the salary tables sound: rows refer to persons,
    stores and batches that exist, personal codes and approvals are unique, a row of a
    batch lies in the batch's month, and the month of both companies is always the work
    of one single batch, never a mixture of two. *)
Theorem imports_keep_sound d d' : sound d → rtc import_step d d' → sound d'.
Proof.
  intros Hd. induction 1 as [|d d1 d' [env hk bid records manifest applied_by a d1' H] _ IH]; [done|].
  apply IH. eapply imported_sound; [by eapply insert_imported|done].
Qed.

Lemma imports_keep_batches d d' : rtc import_step d d' → batches d ⊆ batches d'.
Proof.
  induction 1 as [|d d1 d' [env hk bid records manifest applied_by a d1' H] _ IH]; [done|].
  etransitivity; [|exact IH]. apply insert_imported in H as [(b & Hn & -> & _) _ _ _].
  by apply insert_subseteq.
Qed.

(** An approval works once.  After an import, and whatever imports follow it, every
    further insert under the same signed artifact is refused: for the same records or
    others, under the same batch id or a new one, by any operator. *)
Theorem approval_used_once env hk bid records manifest applied_by a d d1 d2 :
  insert_records env hk bid records manifest applied_by a d = Ok d1 →
  rtc import_step d1 d2 →
  ∀ env' hk' bid' records' manifest' applied_by' a' d3,
    signed_artifact a' = signed_artifact a →
    insert_records env' hk' bid' records' manifest' applied_by' a' d2 ≠ Ok d3.
Proof.
  intros H Hrtc env' hk' bid' records' manifest' applied_by' a' d3 Hart H'.
  assert (Hsha : artifact_sha256 a' = artifact_sha256 a).
  { apply insert_records_Ok in H as [_ _ <- _]. apply insert_records_Ok in H' as [_ _ <- _].
    by rewrite Hart. }
  apply insert_imported in H as [(b & _ & Hb & _ & Ha & _) _ _ _].
  apply insert_imported in H' as [(b' & _ & _ & _ & _ & Hu & _) _ _ _].
  apply (Hu bid b); [|by rewrite Hsha].
  eapply lookup_weaken; [|by apply imports_keep_batches]. by rewrite Hb, lookup_insert_eq.
Qed.

(** ** A digest taken for a personal code *)

Lemma no_private_field f k s :
  (k, JStr s) ∈ f → no_private casefold (JObj f) = true → private_value s = false.
Proof.
  induction f as [|[k' v] f IH]; [by intros ?%elem_of_nil|].
  cbn [no_private]. intros [[= <- <-]|Hin]%elem_of_cons [[_ H1]%andb_true_iff H2]%andb_true_iff.
  - by apply negb_true_iff.
  - by apply IH.
Qed.

Lemma no_private_item l v : v ∈ l → no_private casefold (JArr l) = true → no_private casefold v = true.
Proof.
  induction l as [|w l IH]; [by intros ?%elem_of_nil|]. cbn [no_private].
  intros [->|Hin]%elem_of_cons [H1 H2]%andb_true_iff; [done|by apply IH].
Qed.

Lemma no_private_value f k v :
  (k, v) ∈ f → no_private casefold (JObj f) = true → no_private casefold v = true.
Proof.
  induction f as [|[k' w] f IH]; [by intros ?%elem_of_nil|]. cbn [no_private].
  intros [[= <- <-]|Hin]%elem_of_cons [[_ H1]%andb_true_iff H2]%andb_true_iff; [done|by apply IH].
Qed.

(** A file that can never be imported.  The scan for personal codes also reads the
    SHA-256 digests of the manifest: when the digest of one of the two source files has
    an isolated run of 13 decimal digits (about one digest in sixty has), no approval,
    operator or state of the tables makes the apply run of the import succeed. *)
Theorem unlucky_digest_is_refused env hk bid y m mobiup mobicell sources expected artifact
    applied_by d d' :
  private_value sources.1.2 = true ∨ private_value sources.2.2 = true →
  main_apply env hk bid y m mobiup mobicell sources expected artifact applied_by d ≠ Ok d'.
Proof.
  intros Hp H. unfold SalaryImport.main_apply in H. inv_res.
  apply insert_records_Ok in H as [_ _ _ (? & ? & ? & ? & ? & ? & _ & _ & _ & _ & _ & _ & _ & _ & _ & _ & Hn & _)].
  assert (Hc : ∀ src, src ∈ [("Mobiup"%string, sources.1); ("Mobicell"%string, sources.2)] →
            private_value src.2.2 = false).
  { intros src Hsrc. unfold build_dry_run_manifest in Hn.
    apply (no_private_value _ "companies"%string (JArr (company_entry (mobiup ++ mobicell) <$>
      [("Mobiup"%string, sources.1); ("Mobicell"%string, sources.2)]))) in Hn;
      [|do 3 apply list_elem_of_further; apply list_elem_of_here].
    eapply no_private_item in Hn; [|by apply list_elem_of_fmap_2].
    eapply (no_private_field _ "source_sha256"%string); [|exact Hn].
    do 2 apply list_elem_of_further. apply list_elem_of_here. }
  destruct Hp as [Hp|Hp].
  - pose proof (Hc _ (list_elem_of_here _ _)) as E. cbn in E. congruence.
  - pose proof (Hc _ (list_elem_of_further _ _ _ (list_elem_of_here _ _))) as E. cbn in E. congruence.
Qed.
End Inv.
End SalaryInv.
