(* ===== verification/SalaryRuns.v ===== *)
(** One salary import run from end to end, and the theorems of the salary import applied
    to it. *)

From Stdlib Require Import Ascii.
From stdpp Require Import pretty.
From S2P Require Import Prelude Text Dict Json Decimal SalaryApproval SalaryImport SalarySpec SalaryInv.
Import SalaryApproval SalaryImport SalarySpec SalaryInv.

Local Open Scope Z_scope.

Module SalaryRuns.

(** ** The outside world of the run *)

Definition to_case (lo hi : ascii) (shift : Z) (s : string) : string :=
  String.string_of_list_ascii ((λ c, if in_range lo hi c
    then ascii_of_nat (Z.to_nat (Z.of_nat (nat_of_ascii c) + shift)) else c)
      <$> String.list_ascii_of_string s).
Definition lower : string → string := to_case "A" "Z" 32.
Definition upper : string → string := to_case "a" "z" (-32).
Definition same (s : string) : string := s.
Definition iso (s : string) : option bool := Some (negb (bool_decide (s = "2026-06-01"%string))).

Definition hex64 (s : string) : string :=
  String.string_of_list_ascii (take 64 ((List.filter is_hex (rev (String.list_ascii_of_string s)))
                                        ++ replicate 64 "a"%char)).
Definition canonical (v : json) : string :=
  match v with JObj f => String.concat "" f.*1 | _ => EmptyString end.
Definition decode (s : string) : option string := Some s.
Definition verify (key signature message : string) : bool :=
  bool_decide (signature = key +:+ "-signs")%string.
Definition hmac (key message : string) : string := hex64 message.

Notation insert := (insert_records upper upper lower same iso canonical hex64 decode
  (λ _, true) verify hmac lower).
Notation step := (import_step upper upper lower same iso canonical hex64 decode
  (λ _, true) verify hmac lower).
Notation apply := (main_apply upper upper lower same iso canonical hex64 decode
  (λ _, true) verify hmac lower).

(** ** The run *)

Definition digest : string := hex64 "".
Definition digest' : string := hex64 "b".
Definition env : key_env := Parsed (JObj [("hr-lead"%string, JStr "key-1")]).
Definition hmac_key : option string := Some "0123456789012345678901234567890123456789abc"%string.

Definition ana : SalaryRecord :=
  Salary 2026 5 "Ana Pop" "1960101000013" (Dec 512345 (-2)) "Mobiup" (Some "AFIARAD"%string)
    "Arad" "mobiup.xlsx" "0" (Some 2) digest.
Definition dan : SalaryRecord :=
  Salary 2026 5 "Dan Ion" "2960202000021" (Dec 433310 (-2)) "Mobicell" None
    "Team Leader" "mobicell.xlsx" "0" (Some 2) digest'.
Definition sources : (string * string) * (string * string) :=
  (("mobiup.xlsx"%string, digest), ("mobicell.xlsx"%string, digest')).
Definition batch_manifest : json :=
  build_dry_run_manifest [ana; dan] 2026 5
    [("Mobiup"%string, sources.1); ("Mobicell"%string, sources.2)].
Definition manifest_sha : string := canonical_json_sha256 canonical hex64 batch_manifest.

Definition approval_artifact : list (string * json) :=
  [("artifact_type"%string, JStr APPROVAL_ARTIFACT_TYPE); ("schema_version"%string, JInt 2);
   ("decision"%string, JStr "approved"); ("manifest_sha256"%string, JStr manifest_sha);
   ("year"%string, JInt 2026); ("month"%string, JInt 5); ("companies"%string, companies_json);
   ("known_groups_total"%string, JInt 8); ("resolved_groups_count"%string, JInt 8);
   ("unresolved_groups_count"%string, JInt 0); ("reviewer"%string, JStr "Maria R.");
   ("reviewer_key_id"%string, JStr "hr-lead");
   ("approval_timestamp"%string, JStr "2026-06-01T10:00:00+00:00");
   ("approval_reference"%string, JStr "HR-17"); ("signature"%string, JStr "key-1-signs")].

Definition approval : ValidatedApproval :=
  match validate_approval_artifact lower same iso canonical hex64 decode (λ _, true) verify
          approval_artifact batch_manifest manifest_sha "ops" env with
  | Ok a => a
  | Err _ => Approved [] [] "" "" "" [] false
  end.

(** The month of an earlier batch-less import of Mobiup, and a month before it. *)
Definition old_row (m : Z) : salary_row :=
  Row 2026 m "Ana Pop" "1960101000013" 100 "Mobiup" None "Arad" "sp1_old" None None.
Definition start : db :=
  Db ∅ {["sp1_old"%string := Person "" "ana"]} [old_row 4; old_row 5] {["AFIARAD"%string]}.
Definition after : db :=
  match insert env hmac_key "b1" [ana; dan] batch_manifest "ops" approval start with
  | Ok d => d
  | Err _ => start
  end.

Example import_succeeds :
  apply env hmac_key "b1" 2026 5 [ana] [dan] sources manifest_sha approval_artifact "ops" start
    = Ok after ∧
  (λ s, (s_month s, s_full_name s, s_total_cents s)) <$> rows after
    = [(4, "Ana Pop"%string, 100); (5, "Ana Pop"%string, 512345); (5, "Dan Ion"%string, 433310)].
Proof. split; vm_compute; reflexivity. Qed.

(** A reviewer who is the operator, whatever the case and the blanks, is refused. *)
Example self_review_is_refused :
  validate_approval_artifact lower same iso canonical hex64 decode (λ _, true) verify
    approval_artifact batch_manifest manifest_sha " MARIA  r. " env
  = Err (ApprovalError "Independent reviewer must differ from operator").
Proof. vm_compute. reflexivity. Qed.

(** ** The theorems on this run *)

Definition inserts : Prop :=
  insert env hmac_key "b1" [ana; dan] batch_manifest "ops" approval start = Ok after.

Lemma every_write_is_approved_witness :
  inserts ∧ signed_by_trusted canonical decode verify env (signed_artifact approval).
Proof.
  assert (H : inserts) by (vm_compute; reflexivity). split; [exact H|].
  exact (proj1 (every_write_is_approved _ _ _ _ _ _ _ _ _ _ _ _ _ _ _ _ _ _ _ _ _ H)).
Defined.

Lemma applied_month_is_approved_witness :
  inserts ∧ ∃ fields y m, batch_manifest = JObj fields ∧
    ∀ c, c ∈ REQUIRED_COMPANIES → ∃ entry, dget c (companies_by_name fields) = Some entry ∧
      jget "control_total" entry =
        JStr (format2 (cents (sumZ (s_total_cents <$> month_rows y m c after)))).
Proof.
  assert (H : inserts) by (vm_compute; reflexivity). split; [exact H|].
  destruct (applied_month_is_approved _ _ _ _ _ _ _ _ _ _ _ _ _ _ _ _ _ _ _ _ _ H)
    as (fields & y & m & Hf & _ & Hc & _); [repeat constructor|reflexivity|].
  exists fields, y, m. split; [exact Hf|]. intros c Hin.
  destruct (Hc c Hin) as (entry & count & He & _ & _ & _ & Ht). exists entry. split; [exact He|exact Ht].
Defined.

Lemma start_sound : sound start.
Proof.
  assert (Hp : ∀ k p, people start !! k = Some p → k = "sp1_old"%string ∧ p = Person "" "ana").
  { intros k p H. cbn in H. by apply lookup_singleton_Some in H as [<- <-]. }
  assert (Hr : ∀ s, s ∈ rows start → s = old_row 4 ∨ s = old_row 5).
  { intros s H. cbn in H. set_solver. }
  split.
  - intros i j p q Hi Hj. apply Hp in Hi as [-> _], Hj as [-> _]. done.
  - repeat constructor; cbn; try done; by exists (Person "" "ana").
  - by apply map_Forall_empty.
  - intros i j b c H. cbn in H. by rewrite lookup_empty in H.
  - by intros s bid [->| ->]%Hr.
  - by intros s t bid [->| ->]%Hr.
Qed.

Lemma imports_keep_sound_witness : sound start ∧ sound after.
Proof.
  split; [exact start_sound|].
  apply (imports_keep_sound upper upper lower same iso canonical hex64 decode (λ _, true) verify
    hmac lower start); [exact start_sound|]. apply rtc_once.
  apply (import_apply _ _ _ _ _ _ _ _ _ _ _ _ _ env hmac_key "b1" [ana; dan] batch_manifest
    "ops" approval). vm_compute. reflexivity.
Defined.

Lemma approval_used_once_witness :
  inserts ∧ ∀ bid d3, insert env hmac_key bid [ana; dan] batch_manifest "ops" approval after ≠ Ok d3.
Proof.
  assert (H : inserts) by (vm_compute; reflexivity). split; [exact H|]. intros bid d3.
  exact (approval_used_once _ _ _ _ _ _ _ _ _ _ _ _ _ _ _ _ _ _ _ _ _ _ H (rtc_refl _ _)
    _ _ _ _ _ _ _ d3 eq_refl).
Defined.

Definition unlucky : string := hex64 "a1234567890123b".

Lemma unlucky_digest_is_refused_witness :
  private_value unlucky = true ∧
  ∀ d', apply env hmac_key "b1" 2026 5 [ana] [dan]
          (("mobiup.xlsx"%string, unlucky), ("mobicell.xlsx"%string, digest'))
          manifest_sha approval_artifact "ops" start ≠ Ok d'.
Proof.
  split; [vm_compute; reflexivity|]. intros d'. apply unlucky_digest_is_refused.
  left. vm_compute. reflexivity.
Defined.
End SalaryRuns.
