(* ===== verification/Jwks.v ===== *)
(** The verifier's cache of signing keys ([oidc_verifier.py]): requests and readiness
    probes as tasks of one event loop that share the cache, the lock around a fetch
    and the times of the last refreshes.  Times are in one unit of the monotonic
    clock; metrics are left out. *)

From Stdlib Require Import Ascii.
From S2P Require Import Prelude Text Dict Json Grile.

Local Open Scope Z_scope.

Module Jwks.

(** [OIDCVerifierSettings], and the ranges its loader enforces on the times. *)
Record settings := Settings {
  issuer : string;
  jwks_url : string;
  audience : string;
  cache_ttl_seconds : Z;
  max_stale_seconds : Z;
  fetch_timeout_seconds : Z;
  clock_skew_seconds : Z;
  unknown_kid_refresh_cooldown_seconds : Z;
  refresh_failure_retry_seconds : Z;
}.

Definition in_bounds (low high v : Z) : bool := (low <=? v) && (v <=? high).

(** [second] clock units make a second; the fetch timeout may be half a second. *)
Definition timing_values (second : Z) (s : settings) : bool :=
  in_bounds (60 * second) (86400 * second) (cache_ttl_seconds s)
  && in_bounds (60 * second) (604800 * second) (max_stale_seconds s)
  && in_bounds second (60 * second) (2 * fetch_timeout_seconds s)
  && in_bounds 0 (120 * second) (clock_skew_seconds s)
  && in_bounds second (60 * second) (unknown_kid_refresh_cooldown_seconds s)
  && in_bounds second (60 * second) (refresh_failure_retry_seconds s)
  && (cache_ttl_seconds s <=? max_stale_seconds s).

(** What the clients of the verifier see: a 401 and a 503. *)
Inductive http := Invalid | Unavailable.

Section Jwks.
Context {key : Type}.
(** [str.isprintable] of every character, and a blank among them; [json.loads] and
    [jwt.PyJWK]. *)
Context (isprintable has_space : string → bool) (loads : string → option json) (PyJWK : json → option key).
Context (cfg : settings).

(** ** The answer of the provider *)

Definition _MAX_BODY : Z := 256 * 1024.

(** [len] of a text in UTF-8: the bytes that continue no character. *)
Definition str_len (s : string) : Z :=
  Z.of_nat (length (List.filter (λ c, negb ((128 <=? Z.of_nat (nat_of_ascii c)) && (Z.of_nat (nat_of_ascii c) <? 192)))
    (String.list_ascii_of_string s))).

Definition _safe_text (v : json) : bool :=
  match v with
  | JStr s => negb (bool_decide (s = EmptyString)) && (str_len s <=? 256)
              && isprintable s && negb (has_space s)
  | _ => false
  end.

Record response := Response {
  success_status : bool;
  content_length : option string;
  chunks : list string;
}.

Definition size (s : string) : Z := Z.of_nat (String.length s).

Fixpoint read_chunks (buffer : string) (l : list string) : option string :=
  match l with
  | [] => Some buffer
  | c :: l' => if _MAX_BODY <? size buffer + size c then None else read_chunks (buffer +:+ c) l'
  end.

Definition announced_size (r : response) : option () :=
  match content_length r with
  | None => Some tt
  | Some text =>
      n ← Grile.py_int (String.list_ascii_of_string text);
      if _MAX_BODY <? n then None else Some tt
  end.

Definition body (r : response) : option string :=
  if success_status r then announced_size r ≫= λ _, read_chunks EmptyString (chunks r) else None.

(** [value.get(name, expected) != expected]. *)
Definition unlike (name expected : string) (f : list (string * json)) : bool :=
  negb (json_eqb (jget_or name (JStr expected) f) (JStr expected)).

Fixpoint collect_keys (keys : list (string * key)) (values : list json) : option (list (string * key)) :=
  match values with
  | [] => Some keys
  | JObj f :: values' =>
      match jget "kid" f with
      | JStr kid =>
          if negb (_safe_text (JStr kid)) then None
          else if negb (json_eqb (jget "kty" f) (JStr "RSA")) || unlike "use" "sig" f || unlike "alg" "RS256" f
          then None
          else match dget kid keys with
               | Some _ => None
               | None => k ← PyJWK (JObj f); collect_keys (dput kid k keys) values'
               end
      | _ => None
      end
  | _ :: _ => None
  end.

Definition parse_keys (payload : json) : option (list (string * key)) :=
  match payload with
  | JObj f => match jget "keys" f with
              | JArr [] => None
              | JArr values => collect_keys [] values
              | _ => None
              end
  | _ => None
  end.

(** The keys of an answer; [None] is an exception of the HTTP client. *)
Definition accepted (a : option response) : option (list (string * key)) :=
  r ← a; text ← body r; payload ← loads text; parse_keys payload.

(** ** The verifier *)

Record jwks_cache := JWKSCache { keys : list (string * key); fetched_at : Z; generation : Z }.

Record verifier := Verifier {
  cache : option jwks_cache;
  lock : option nat;
  refresh_attempt_serial : Z;
  (** [Some true] is "success". *)
  last_refresh_outcome : option bool;
  last_refresh_completed_at : option Z;
  last_unknown_refresh_completed_at : option Z;
}.

Definition new_verifier : verifier := Verifier None None 0 None None None.

Definition within_last (now : Z) (t : option Z) (d : Z) : bool :=
  match t with Some t => now - t <? d | None => false end.

Definition _failure_retry_active (now : Z) (v : verifier) : bool :=
  bool_decide (last_refresh_outcome v = Some false)
  && within_last now (last_refresh_completed_at v) (refresh_failure_retry_seconds cfg).

Definition set_lock (l : option nat) (v : verifier) : verifier :=
  Verifier (cache v) l (refresh_attempt_serial v) (last_refresh_outcome v)
    (last_refresh_completed_at v) (last_unknown_refresh_completed_at v).

Definition _record_refresh_failure (now : Z) (v : verifier) : verifier :=
  Verifier (cache v) (lock v) (refresh_attempt_serial v + 1) (Some false) (Some now)
    (last_unknown_refresh_completed_at v).

Definition set_unknown_refresh (unknown : bool) (now : Z) (v : verifier) : verifier :=
  if unknown then Verifier (cache v) (lock v) (refresh_attempt_serial v) (last_refresh_outcome v)
                    (last_refresh_completed_at v) (Some now)
  else v.

(** [_fetch] once the answer is in. *)
Definition _fetch (now : Z) (a : option response) (v : verifier) : verifier * res http jwks_cache :=
  match accepted a with
  | None => (_record_refresh_failure now v, Err Unavailable)
  | Some ks =>
      let c := JWKSCache ks now (match cache v with Some c => generation c + 1 | None => 1 end) in
      (Verifier (Some c) (lock v) (refresh_attempt_serial v + 1) (Some true) (Some now)
         (last_unknown_refresh_completed_at v), Ok c)
  end.

Definition is_fresh (now : Z) (c : jwks_cache) : bool := now - fetched_at c <? cache_ttl_seconds cfg.
Definition is_usable (now : Z) (c : jwks_cache) : bool := now - fetched_at c <=? max_stale_seconds cfg.

(** [cache and test and kid in cache.keys]: the key. *)
Definition cached_key (test : jwks_cache → bool) (kid : string) (v : verifier) : option key :=
  match cache v with
  | Some c => if test c then dget kid (keys c) else None
  | None => None
  end.

Definition _key_after_concurrent_refresh (now : Z) (kid : string) (observed_attempt observed_generation : Z)
    (v : verifier) : res http (option key) :=
  if negb (refresh_attempt_serial v =? observed_attempt) then
    match cached_key (is_fresh now) kid v with
    | Some k => Ok (Some k)
    | None =>
        if bool_decide (last_refresh_outcome v = Some true) then Err Invalid
        else match cached_key (is_usable now) kid v with
             | Some k => Ok (Some k)
             | None => Err Unavailable
             end
    end
  else
    match cache v with
    | Some c =>
        if negb (generation c =? observed_generation) then
          match dget kid (keys c) with Some k => Ok (Some k) | None => Err Invalid end
        else Ok None
    | None => Ok None
    end.

Definition _cached_key_before_fetch (now : Z) (kid : string) (unknown : bool) (v : verifier)
    : res http (option key) :=
  match cached_key (is_fresh now) kid v with
  | Some k => Ok (Some k)
  | None =>
      if _failure_retry_active now v then
        match cached_key (is_usable now) kid v with
        | Some k => Ok (Some k)
        | None => Err Unavailable
        end
      else if unknown && within_last now (last_unknown_refresh_completed_at v)
                           (unknown_kid_refresh_cooldown_seconds cfg)
      then Err (if bool_decide (last_refresh_outcome v = Some true) then Invalid else Unavailable)
      else Ok None
  end.

Definition _refreshed_key (now : Z) (kid : string) (unknown : bool) (a : option response) (v : verifier)
    : verifier * res http key :=
  let '(v', r) := _fetch now a v in
  (set_unknown_refresh unknown now v',
   match r with
   | Ok c => match dget kid (keys c) with Some k => Ok k | None => Err Invalid end
   | Err x => match cached_key (is_usable now) kid v' with Some k => Ok k | None => Err x end
   end).

(** ** Tasks *)

Inductive task :=
| NewKey (header : list (string * json))
| WaitKey (kid : string) (observed_attempt observed_generation : Z) (unknown : bool)
| FetchKey (kid : string) (unknown : bool)
| KeyDone (r : res http key)
| NewReady (limited : bool)
| WaitReady (limited : bool)
| FetchReady (limited : bool)
| ReadyDone (r : res http ())
| Gone.

(** [signing_key] up to its lock. *)
Definition signing_key (now : Z) (header : list (string * json)) (v : verifier) : task :=
  match jget "kid" header with
  | JStr kid =>
      if negb (json_eqb (jget "alg" header) (JStr "RS256")) || negb (_safe_text (JStr kid))
      then KeyDone (Err Invalid)
      else match cached_key (is_fresh now) kid v with
           | Some k => KeyDone (Ok k)
           | None =>
               WaitKey kid (refresh_attempt_serial v)
                 (match cache v with Some c => generation c | None => 0 end)
                 (match cache v with Some c => bool_decide (dget kid (keys c) = None) | None => false end)
           end
  | _ => KeyDone (Err Invalid)
  end.

(** [signing_key] under its lock, before a fetch. *)
Definition locked_key (now : Z) (kid : string) (att gen : Z) (unknown : bool) (v : verifier) : task :=
  match _key_after_concurrent_refresh now kid att gen v with
  | Err x => KeyDone (Err x)
  | Ok (Some k) => KeyDone (Ok k)
  | Ok None =>
      match _cached_key_before_fetch now kid unknown v with
      | Err x => KeyDone (Err x)
      | Ok (Some k) => KeyDone (Ok k)
      | Ok None => FetchKey kid unknown
      end
  end.

Definition cache_is (test : jwks_cache → bool) (v : verifier) : bool :=
  match cache v with Some c => test c | None => false end.

(** [ensure_ready] up to its lock, under it, and after a failed fetch. *)
Definition ensure_ready (now : Z) (limited : bool) (v : verifier) : task :=
  if cache_is (is_fresh now) v then ReadyDone (Ok tt) else WaitReady limited.

Definition locked_ready (now : Z) (limited : bool) (v : verifier) : task :=
  if cache_is (is_fresh now) v then ReadyDone (Ok tt)
  else if _failure_retry_active now v then
    ReadyDone (if cache_is (is_usable now) v then Ok tt else Err Unavailable)
  else FetchReady limited.

Definition stale_or_unavailable (now : Z) (v : verifier) : task :=
  ReadyDone (if cache_is (is_usable now) v then Ok tt else Err Unavailable).

(** What may happen to a task: its turn comes, its fetch is answered, the time its
    caller allows for the fetch is over, it is cancelled. *)
Inductive input := Go | Reply (a : option response) | Expire | Cancel.

Definition is_done (t : task) : bool :=
  match t with KeyDone _ | ReadyDone _ | Gone => true | _ => false end.

Definition is_fetching (t : task) : bool :=
  match t with FetchKey _ _ | FetchReady _ => true | _ => false end.

(** A task that goes on to fetch keeps the lock. *)
Definition holding (i : nat) (v : verifier) (t : task) : verifier * task :=
  (if is_fetching t then set_lock (Some i) v else v, t).

Definition act (now : Z) (i : nat) (x : input) (v : verifier) (t : task) : option (verifier * task) :=
  match t, x with
  | NewKey h, Go => Some (v, signing_key now h v)
  | WaitKey kid att gen unknown, Go =>
      if bool_decide (lock v = None) then Some (holding i v (locked_key now kid att gen unknown v)) else None
  | FetchKey kid unknown, Reply a =>
      let '(v', r) := _refreshed_key now kid unknown a v in Some (set_lock None v', KeyDone r)
  | FetchKey _ unknown, Cancel => Some (set_lock None (set_unknown_refresh unknown now v), Gone)
  | NewReady limited, Go => Some (v, ensure_ready now limited v)
  | WaitReady limited, Go =>
      if bool_decide (lock v = None) then Some (holding i v (locked_ready now limited v)) else None
  | FetchReady _, Reply a =>
      let '(v', r) := _fetch now a v in
      Some (set_lock None v', match r with Ok _ => ReadyDone (Ok tt) | Err _ => stale_or_unavailable now v' end)
  | FetchReady true, Expire =>
      let v' := _record_refresh_failure now v in Some (set_lock None v', stale_or_unavailable now v')
  | FetchReady _, Cancel => Some (set_lock None v, Gone)
  | (NewKey _ | WaitKey _ _ _ _ | NewReady _ | WaitReady _), Cancel => Some (v, Gone)
  | _, _ => None
  end.

(** ** The event loop *)

(** A fetch begins, for a key that the cache does not have or not; it ends with an
    answer ([None]: an exception or a timeout), or is abandoned. *)
Inductive mark := Begin (unknown : bool) | End (a : option response) | Abandoned.

Record world := World { clock : Z; ver : verifier; tasks : gmap nat task; fetches : list (Z * mark) }.

Definition marks (now : Z) (x : input) (before after : task) : list (Z * mark) :=
  match before, after, x with
  | (WaitKey _ _ _ _ | WaitReady _), FetchKey _ unknown, _ => [(now, Begin unknown)]
  | (WaitKey _ _ _ _ | WaitReady _), FetchReady _, _ => [(now, Begin false)]
  | (FetchKey _ _ | FetchReady _), _, Reply a => [(now, End a)]
  | (FetchKey _ _ | FetchReady _), _, Expire => [(now, End None)]
  | (FetchKey _ _ | FetchReady _), _, Cancel => [(now, Abandoned)]
  | _, _, _ => []
  end.

Definition is_new (t : task) : bool := match t with NewKey _ | NewReady _ => true | _ => false end.

Inductive step : world → world → Prop :=
| Later now' w : clock w <= now' → step w (World now' (ver w) (tasks w) (fetches w))
| Arrive i t w : tasks w !! i = None → is_new t = true →
    step w (World (clock w) (ver w) (<[i := t]> (tasks w)) (fetches w))
| Turn i x t v' t' w : tasks w !! i = Some t → act (clock w) i x (ver w) t = Some (v', t') →
    step w (World (clock w) v' (<[i := t']> (tasks w)) (marks (clock w) x t t' ++ fetches w)).

Definition start (now : Z) : world := World now new_verifier ∅ [].

Definition reachable (w : world) : Prop := ∃ now, rtc step (start now) w.
End Jwks.
End Jwks.
