(* ===== verification/JwksSpec.v ===== *)
(** Properties of the key cache: which keys are handed out, how often the provider is
    asked, and that nobody waits forever. *)

From S2P Require Import Prelude Text Dict Json Grile Jwks.
Import Jwks.

Local Open Scope Z_scope.

Module JwksSpec.
Section Jwks.
Context {key : Type}.
Context (isprintable has_space : string → bool) (loads : string → option json) (PyJWK : json → option key).
Context (cfg : settings).

Abbreviation accepted := (accepted isprintable has_space loads PyJWK).
Abbreviation act := (act isprintable has_space loads PyJWK cfg).
Abbreviation step := (step isprintable has_space loads PyJWK cfg).
Abbreviation reachable := (reachable isprintable has_space loads PyJWK cfg).
Abbreviation world := (@world key).
Abbreviation verifier := (@verifier key).
Abbreviation task := (@task key).
Implicit Types (w : world) (v : verifier).

(** ** Histories of fetches *)

(** The keys that the latest accepted answer brought, and when. *)
Fixpoint latest_keys (l : list (Z * mark)) : option (Z * list (string * key)) :=
  match l with
  | [] => None
  | (e, End a) :: l' => match accepted a with Some ks => Some (e, ks) | None => latest_keys l' end
  | _ :: l' => latest_keys l'
  end.

(** When a fetch may begin after what happened before. *)
Definition may_begin (now : Z) (unknown : bool) (l : list (Z * mark)) : Prop :=
  match l with
  | [] | (_, Abandoned) :: _ => True
  | (e, End a) :: (_, Begin unknown') :: _ =>
      match accepted a with
      | None => e + refresh_failure_retry_seconds cfg <= now
      | Some _ => e + cache_ttl_seconds cfg <= now ∨
          unknown = true ∧ (unknown' = true → e + unknown_kid_refresh_cooldown_seconds cfg <= now)
      end
  | _ => False
  end.

Fixpoint paced (l : list (Z * mark)) : Prop :=
  match l with
  | [] => True
  | (e, m) :: l' =>
      paced l' ∧ (∀ x, x ∈ l' → x.1 <= e) ∧
      match m with Begin u => may_begin e u l' | _ => ∃ s u l'', l' = (s, Begin u) :: l'' end
  end.

Definition pause : Z :=
  unknown_kid_refresh_cooldown_seconds cfg `min` refresh_failure_retry_seconds cfg `min` cache_ttl_seconds cfg.

Lemma paced_app l1 l2 : paced (l1 ++ l2) → paced l2.
Proof. induction l1 as [|[e m] l1 IH]; [done|]. cbn. intros [H _]. by apply IH. Qed.

Lemma paced_after e m l x : paced ((e, m) :: l) → x ∈ l → x.1 <= e.
Proof. cbn. intros (_ & H & _). apply H. Qed.

(** Of three fetches that begin one after the other the last begins a pause after
    the first. *)
Lemma three_begins t3 u3 l2 t1 u1 l4 :
  paced ((t3, Begin u3) :: l2 ++ (t1, Begin u1) :: l4) →
  (∃ t2 u2, (t2, Begin u2) ∈ l2) → (∀ e, (e, Abandoned) ∉ l2) → t1 + pause <= t3.
Proof.
  intros H (t2 & u2 & H2) Hno. unfold pause.
  destruct l2 as [|[e2 m2] l2]; [by apply elem_of_nil in H2|].
  pose proof H as (Hp & Hs & Hb). cbn [app] in *.
  destruct m2 as [|a2|]; [done| |by destruct (Hno e2); left].
  destruct l2 as [|[s2 m2] l2].
  { exfalso. apply list_elem_of_singleton in H2. congruence. }
  destruct m2 as [u2'| |]; [|by cbn in Hb; destruct (accepted a2)..].
  assert (t1 <= e2) as He2 by (apply (paced_after _ _ _ (t1, Begin u1) Hp); set_solver).
  cbn [app may_begin] in Hb. destruct (accepted a2) as [ks|]; [|lia].
  destruct Hb as [Hb|[_ Hu]]; [lia|]. destruct u2'; [specialize (Hu eq_refl); lia|].
  assert (s2 <= t3) as Hs2 by (apply (Hs (s2, Begin false)); set_solver).
  destruct Hp as (Hp & _ & _). cbn [app] in Hp. pose proof Hp as (Hp' & _ & Hb').
  destruct l2 as [|[e1 m1] l2]; [done|].
  destruct m1 as [|a1|]; [done| |by destruct (Hno e1); set_solver].
  assert (t1 <= e1) as He1 by (apply (paced_after _ _ _ (t1, Begin u1) Hp'); set_solver).
  cbn [app] in Hp', Hb'. destruct Hp' as (_ & _ & s1 & u1' & l1 & El). rewrite El in Hb'.
  cbn [may_begin] in Hb'. destruct (accepted a1); [destruct Hb' as [Hb'|[? _]]; [|done]|]; lia.
Qed.

(** ** The invariant *)

(** What the verifier remembers of its last fetch. *)
Definition remembers (v : verifier) (l : list (Z * mark)) : Prop :=
  match l with
  | [] => cache v = None
  | (e, End a) :: (_, Begin u) :: _ =>
      match accepted a with
      | Some _ => (∃ c, cache v = Some c ∧ fetched_at c = e) ∧
                  (u = true → last_unknown_refresh_completed_at v = Some e)
      | None => last_refresh_outcome v = Some false ∧ last_refresh_completed_at v = Some e
      end
  | (_, End _) :: _ => False
  | _ => True
  end.

Definition lacks (v : verifier) (kid : string) : bool :=
  match cache v with Some c => bool_decide (dget kid (keys c) = None) | None => false end.

Definition generation_of (v : verifier) : Z := match cache v with Some c => generation c | None => 0 end.

(** A waiting request has seen the cache as it is, unless a fetch ended meanwhile. *)
Definition waits (v : verifier) (t : task) : Prop :=
  match t with
  | WaitKey kid att gen unknown =>
      _safe_text isprintable has_space (JStr kid) = true ∧ 0 <= att <= refresh_attempt_serial v ∧
      (att = refresh_attempt_serial v → gen = generation_of v ∧ unknown = lacks v kid)
  | FetchKey kid _ => _safe_text isprintable has_space (JStr kid) = true
  | _ => True
  end.

(** The mark with which a fetching task began. *)
Definition began (t : task) : option bool :=
  match t with FetchKey _ u => Some u | FetchReady _ => Some false | _ => None end.

Record inv (w : world) : Prop := Inv {
  iv_holder : ∀ i t, tasks w !! i = Some t → is_fetching t = true → lock (ver w) = Some i;
  iv_held : ∀ i, lock (ver w) = Some i →
      ∃ t u s l, tasks w !! i = Some t ∧ began t = Some u ∧ fetches w = (s, Begin u) :: l;
  iv_closed : lock (ver w) = None → ∀ s u l, fetches w ≠ (s, Begin u) :: l;
  iv_outcome : 0 <= refresh_attempt_serial (ver w) ∧
      (last_refresh_outcome (ver w) = None → refresh_attempt_serial (ver w) = 0);
  iv_waits : ∀ i t, tasks w !! i = Some t → waits (ver w) t;
  iv_now : ∀ x, x ∈ fetches w → x.1 <= clock w;
  iv_paced : paced (fetches w);
  iv_remembers : remembers (ver w) (fetches w);
  iv_cache : (λ c, (fetched_at c, keys c)) <$> cache (ver w) = latest_keys (fetches w);
}.

Lemma began_fetching t : is_fetching t = true ↔ is_Some (began t).
Proof. destruct t; cbn; split; try done; try (intros [? H]; discriminate H); by eauto. Qed.

Lemma start_inv now : inv (start now).
Proof. split; cbn; try done; try (intros i t H; by rewrite lookup_empty in H). by intros x ?%elem_of_nil. Qed.

Lemma remembers_lock l k v : remembers (set_lock l v) k ↔ remembers v k.
Proof. done. Qed.

(** ** Steps *)

(** A turn that touches neither the verifier nor the lock. *)
Definition idle (v v' : verifier) (t t' : task) : Prop :=
  v' = v ∧ is_fetching t = false ∧ is_fetching t' = false ∧ waits v t'.

(** A turn that takes the lock and begins a fetch. *)
Definition begins (now : Z) (i : nat) (v v' : verifier) (t t' : task) (u : bool) : Prop :=
  lock v = None ∧ v' = set_lock (Some i) v ∧ is_fetching t = false ∧ began t' = Some u ∧ waits v t' ∧
  _failure_retry_active cfg now v = false ∧
  (if u then within_last now (last_unknown_refresh_completed_at v)
               (unknown_kid_refresh_cooldown_seconds cfg) = false
   else cache_is (is_fresh cfg now) v = false).

(** A turn that ends a fetch. *)
Definition finishes (now : Z) (v v' : verifier) (t t' : task) (m : mark) : Prop :=
  lock v' = None ∧ is_fetching t' = false ∧ waits v' t' ∧
  ∃ u, began t = Some u ∧
  match m with
  | Begin _ => False
  | Abandoned => cache v' = cache v ∧ refresh_attempt_serial v' = refresh_attempt_serial v ∧
      last_refresh_outcome v' = last_refresh_outcome v
  | End a =>
      refresh_attempt_serial v' = refresh_attempt_serial v + 1 ∧
      match accepted a with
      | Some ks => cache v' = Some (JWKSCache ks now (generation_of v + 1)) ∧
          last_refresh_outcome v' = Some true ∧
          (u = true → last_unknown_refresh_completed_at v' = Some now)
      | None => cache v' = cache v ∧ last_refresh_outcome v' = Some false ∧
          last_refresh_completed_at v' = Some now
      end
  end.

Definition turns (now : Z) (i : nat) (v v' : verifier) (t t' : task) (l : list (Z * mark)) : Prop :=
  idle v v' t t' ∧ l = [] ∨
  (∃ u, begins now i v v' t t' u ∧ l = [(now, Begin u)]) ∨
  (∃ m, finishes now v v' t t' m ∧ l = [(now, m)]).

Lemma signing_key_turns now h v :
  0 <= refresh_attempt_serial v →
  is_fetching (signing_key isprintable has_space cfg now h v) = false ∧
  waits v (signing_key isprintable has_space cfg now h v).
Proof.
  intros H0. unfold signing_key. destruct (jget "kid" h) as [| | | |kid| |]; try done.
  destruct (negb _ || negb _) eqn:H; [done|]. apply orb_false_iff in H as [_ H%negb_false_iff].
  destruct (cached_key _ _ _); [done|]. split; [done|]. by repeat split.
Qed.

Lemma locked_key_turns now kid att gen u v :
  waits v (WaitKey kid att gen u) →
  match locked_key cfg now kid att gen u v with
  | FetchKey kid' u' => kid' = kid ∧ u' = u ∧ _failure_retry_active cfg now v = false ∧
      if u then within_last now (last_unknown_refresh_completed_at v)
                  (unknown_kid_refresh_cooldown_seconds cfg) = false
      else cache_is (is_fresh cfg now) v = false
  | KeyDone _ => True
  | _ => False
  end.
Proof.
  intros (Hs & Hle & Hw). unfold locked_key, _key_after_concurrent_refresh, _cached_key_before_fetch.
  destruct (refresh_attempt_serial v =? att) eqn:Ha; cbn [negb].
  2: { destruct (cached_key (is_fresh cfg now) kid v); [done|]. destruct (bool_decide _); [done|].
       by destruct (cached_key (is_usable cfg now) kid v). }
  apply Z.eqb_eq in Ha. destruct Hw as [Hg Hu]; [done|].
  assert ((match cache v with
           | Some c => if negb (generation c =? gen)
               then match dget kid (keys c) with Some k => Ok (Some k) | None => Err Invalid end else Ok None
           | None => Ok None end) = (Ok None : res http (option key))) as ->.
  { destruct (cache v) as [c|] eqn:Hc; [|done]. unfold generation_of in Hg. rewrite Hc in Hg.
    by rewrite Hg, Z.eqb_refl. }
  destruct (cached_key (is_fresh cfg now) kid v) eqn:Hf; [done|].
  destruct (_failure_retry_active cfg now v) eqn:Hr; [by destruct (cached_key (is_usable cfg now) kid v)|].
  destruct u; cbn [andb].
  { destruct (within_last _ _ _) eqn:Hl; [done|]. by split_and!. }
  split_and!; [done..|]. unfold cache_is, cached_key, lacks in *. destruct (cache v) as [c|]; [|done].
  destruct (is_fresh cfg now c); [|done]. by rewrite Hf in Hu.
Qed.

Lemma fetch_finishes now a v :
  let v' := (_fetch isprintable has_space loads PyJWK now a v).1 in
  refresh_attempt_serial v' = refresh_attempt_serial v + 1 ∧
  match accepted a with
  | Some ks => cache v' = Some (JWKSCache ks now (generation_of v + 1)) ∧ last_refresh_outcome v' = Some true
  | None => cache v' = cache v ∧ last_refresh_outcome v' = Some false ∧ last_refresh_completed_at v' = Some now
  end.
Proof.
  unfold _fetch. destruct (accepted a) as [ks|]; cbn; [|done]. split_and!; [done| |done].
  unfold generation_of. by destruct (cache v).
Qed.

Lemma set_unknown_same b now v :
  cache (set_unknown_refresh b now v) = cache v ∧
  refresh_attempt_serial (set_unknown_refresh b now v) = refresh_attempt_serial v ∧
  last_refresh_outcome (set_unknown_refresh b now v) = last_refresh_outcome v ∧
  last_refresh_completed_at (set_unknown_refresh b now v) = last_refresh_completed_at v ∧
  (b = true → last_unknown_refresh_completed_at (set_unknown_refresh b now v) = Some now).
Proof. by destruct b. Qed.

Lemma refreshed_finishes now kid u a v v' r t :
  began t = Some u → _refreshed_key isprintable has_space loads PyJWK cfg now kid u a v = (v', r) →
  finishes now v (set_lock None v') t (KeyDone r) (End a).
Proof.
  intros Ht H. unfold _refreshed_key in H. pose proof (fetch_finishes now a v) as F.
  destruct (_fetch _ _ _ _ now a v) as [v1 r1]. cbn [fst] in F. injection H as <- _.
  destruct (set_unknown_same u now v1) as (E1 & E2 & E3 & E4 & E5).
  split_and!; [done..|]. exists u. split; [done|].
  cbn [refresh_attempt_serial cache last_refresh_outcome last_refresh_completed_at
       last_unknown_refresh_completed_at set_lock]. rewrite E1, E2, E3, E4. destruct F as [F1 F2]. split; [done|].
  destruct (accepted a); [by destruct F2|done].
Qed.

Lemma probe_finishes now a v b v' r t' :
  _fetch isprintable has_space loads PyJWK now a v = (v', r) →
  t' = (match r with Ok _ => ReadyDone (Ok tt) | Err _ => stale_or_unavailable cfg now v' end) →
  finishes now v (set_lock None v') (FetchReady b) t' (End a).
Proof.
  intros E ->. pose proof (fetch_finishes now a v) as [F1 F2]. rewrite E in F1, F2. cbn [fst] in F1, F2.
  split_and!; [done|by destruct r|by destruct r|]. exists false. split; [done|]. split; [done|].
  cbn [cache last_refresh_outcome set_lock last_refresh_completed_at]. destruct (accepted a); [by destruct F2|done].
Qed.

Lemma abandoned_finishes now v u t :
  began t = Some u → finishes now v (set_lock None (set_unknown_refresh u now v)) t Gone Abandoned.
Proof.
  intros Ht. destruct (set_unknown_same u now v) as (E1 & E2 & E3 & _).
  split_and!; [done..|]. exists u. by split_and!.
Qed.

Lemma act_turns now i x v t v' t' :
  0 <= refresh_attempt_serial v → waits v t → act now i x v t = Some (v', t') →
  turns now i v v' t t' (marks now x t t').
Proof.
  intros H0 Hw H.
  destruct t as [h|kid att gen u|kid u|r|b|b|[]|r|]; destruct x as [|a| |]; try discriminate H; cbn [Jwks.act] in H.
  all: try (injection H as <- <-; by left).
  - injection H as <- <-. left. destruct (signing_key_turns now h v H0). split; [|done]. by split_and!.
  - destruct (bool_decide _) eqn:Hl; [|done]. apply bool_decide_eq_true in Hl.
    unfold holding in H. pose proof (locked_key_turns now kid att gen u v Hw) as L.
    destruct (locked_key _ _ _ _ _ _ _) as [| |kid' u'|r| | | | |]; try done; injection H as <- <-.
    + destruct L as (-> & -> & L1 & L2). right. left. exists u. split; [|done]. destruct Hw.
      by split_and!.
    + by left.
  - destruct (_refreshed_key _ _ _ _ _ _ _ _ _ _) as [v1 r] eqn:E. injection H as <- <-.
    right. right. exists (End a). split; [|done]. by eapply refreshed_finishes.
  - injection H as <- <-. right. right. exists Abandoned. split; [|done]. by apply abandoned_finishes.
  - injection H as <- <-. left. unfold ensure_ready. by destruct (cache_is _ v).
  - destruct (bool_decide _) eqn:Hl; [|done]. apply bool_decide_eq_true in Hl.
    unfold holding, locked_ready in H. destruct (cache_is _ v) eqn:Hc; [by injection H as <- <-; left|].
    destruct (_failure_retry_active cfg now v) eqn:Hr; [by injection H as <- <-; left|].
    injection H as <- <-. right. left. exists false. split; [|done]. by split_and!.
  - destruct (_fetch _ _ _ _ now a v) as [v1 r] eqn:E. injection H as <- <-.
    right. right. exists (End a). split; [|done]. by eapply probe_finishes.
  - injection H as <- <-. right. right. exists (End None). split; [|done].
    split_and!; [done..|]. exists false. by split_and!.
  - injection H as <- <-. right. right. exists Abandoned. split; [|done]. by apply (abandoned_finishes now v false).
  - destruct (_fetch _ _ _ _ now a v) as [v1 r] eqn:E. injection H as <- <-.
    right. right. exists (End a). split; [|done]. by eapply probe_finishes.
  - injection H as <- <-. right. right. exists Abandoned. split; [|done]. by apply (abandoned_finishes now v false).
Qed.

(** ** The invariant is kept *)

Lemma waits_mono v v' t :
  cache v' = cache v ∧ refresh_attempt_serial v' = refresh_attempt_serial v ∨
  refresh_attempt_serial v < refresh_attempt_serial v' →
  waits v t → waits v' t.
Proof.
  intros Hv. destruct t as [|kid att gen u| | | | | | |]; cbn; try done. intros (? & ? & Hw). split_and!; [done|lia|lia|].
  destruct Hv as [[Ec Es]|Hv]; [|lia]. unfold generation_of, lacks in *. by rewrite Ec, Es.
Qed.

Lemma turn_waits w i v' t' :
  inv w → waits v' t' →
  cache v' = cache (ver w) ∧ refresh_attempt_serial v' = refresh_attempt_serial (ver w) ∨
  refresh_attempt_serial (ver w) < refresh_attempt_serial v' →
  ∀ (j : nat) (t : task), <[i := t']> (tasks w) !! j = Some t → waits v' t.
Proof.
  intros Hi Ht Hv j t [[<- <-]|[_ H]]%lookup_insert_Some; [done|].
  eapply waits_mono; [exact Hv|]. by eapply iv_waits.
Qed.

Lemma may_begin_now w (u : bool) :
  inv w → lock (ver w) = None → _failure_retry_active cfg (clock w) (ver w) = false →
  (if u then within_last (clock w) (last_unknown_refresh_completed_at (ver w))
               (unknown_kid_refresh_cooldown_seconds cfg) = false
   else cache_is (is_fresh cfg (clock w)) (ver w) = false) →
  may_begin (clock w) u (fetches w).
Proof.
  intros Hi Hl Hr Hu. pose proof (iv_closed _ Hi Hl) as Hc. pose proof (iv_remembers _ Hi) as Hm.
  pose proof (iv_paced _ Hi) as Hp.
  destruct (fetches w) as [|[e [u0|a|]] l]; [done|by destruct (Hc e u0 l)| |done].
  destruct Hp as (_ & _ & s & u' & l' & ->). cbn in Hm |- *. unfold _failure_retry_active, within_last in *.
  destruct (accepted a) as [ks|].
  - destruct Hm as [(c & Ec & <-) Hu']. destruct u.
    + right. split; [done|]. intros ->. rewrite (Hu' eq_refl) in Hu. apply Z.ltb_ge in Hu. lia.
    + left. unfold cache_is, is_fresh in Hu. rewrite Ec in Hu. apply Z.ltb_ge in Hu. lia.
  - destruct Hm as [Ho Ec]. rewrite Ho, Ec in Hr. apply Z.ltb_ge in Hr. lia.
Qed.

Lemma turn_inv w i t v' t' l :
  inv w → tasks w !! i = Some t → turns (clock w) i (ver w) v' t t' l →
  inv (World (clock w) v' (<[i := t']> (tasks w)) (l ++ fetches w)).
Proof.
  intros Hi Ht [[(-> & Hf & Hf' & Hw) ->]|[(u & (Hl & -> & Hf & Hb & Hw & Hr & Hu) & ->)|(m & Hm & ->)]].
  - destruct Hi as [I1 I2 I3 I4 I5 I6 I7 I8 I9]. split; cbn [ver tasks fetches clock app]; try done.
    + intros j t0 [[<- <-]|[_ H]]%lookup_insert_Some; [by rewrite Hf'|by apply I1].
    + intros j Hj. destruct (I2 _ Hj) as (t0 & u & s & l & H0 & Hb & E). exists t0, u, s, l.
      rewrite lookup_insert_ne; [done|]. intros ->. rewrite Ht in H0. injection H0 as <-.
      assert (is_fetching t = true) by (apply began_fetching; eauto). congruence.
    + eapply turn_waits; [by split|done|by left].
  - pose proof (may_begin_now w u Hi Hl Hr Hu) as Hmay.
    destruct Hi as [I1 I2 I3 I4 I5 I6 I7 I8 I9]. split; cbn [ver tasks fetches clock app]; try done.
    + intros j t0 [[<- <-]|[_ H]]%lookup_insert_Some; [done|]. intros Hj. specialize (I1 _ _ H Hj). congruence.
    + intros j [= <-]. exists t', u, (clock w), (fetches w). by rewrite lookup_insert_eq.
    + eapply turn_waits; [by split|done|by left].
    + intros x [->|Hx]%elem_of_cons; [done|by apply I6].
  - destruct Hm as (Hl' & Hf' & Hw & u & Hb & Hm).
    assert (is_fetching t = true) as Hf by (apply began_fetching; eauto).
    pose proof (iv_holder _ Hi _ _ Ht Hf) as Hl.
    destruct (iv_held _ Hi _ Hl) as (t0 & u0 & s & l & H0 & Hb0 & El).
    rewrite Ht in H0. injection H0 as <-. assert (u0 = u) as -> by congruence.
    assert (refresh_attempt_serial (ver w) <= refresh_attempt_serial v' ∧
            (last_refresh_outcome v' = None → last_refresh_outcome (ver w) = None ∧
               refresh_attempt_serial v' = refresh_attempt_serial (ver w)) ∧
            (cache v' = cache (ver w) ∧ refresh_attempt_serial v' = refresh_attempt_serial (ver w) ∨
             refresh_attempt_serial (ver w) < refresh_attempt_serial v')) as (S1 & S2 & S3).
    { destruct m as [|a|]; [done| |destruct Hm as (? & ? & Ho); split_and!; [lia|by rewrite Ho|by left]].
      destruct Hm as [Es Hm]. split_and!; [lia| |right; lia]. intros Hn.
      destruct (accepted a); destruct Hm as (_ & Ho & _); congruence. }
    pose proof Hi as [I1 I2 I3 I4 I5 I6 I7 I8 I9]. split; cbn [ver tasks fetches clock app].
    + intros j t0 [[<- <-]|[Hne H]]%lookup_insert_Some; [congruence|]. intros Hj.
      specialize (I1 _ _ H Hj). congruence.
    + congruence.
    + intros _ s0 u0 l0 [= _ Hm0 _]. by rewrite Hm0 in Hm.
    + destruct I4 as [I4 I4']. split; [lia|]. intros Hn. destruct (S2 Hn) as [? ->]. by apply I4'.
    + by eapply turn_waits.
    + intros x [->|Hx]%elem_of_cons; [done|by apply I6].
    + split_and!; [done|intros x Hx; by apply I6|]. destruct m; [done|by eexists _, _, _..].
    + rewrite El. destruct m as [|a|]; [done| |done]. destruct Hm as [_ Hm]. cbn.
      destruct (accepted a); [|by destruct Hm as (_ & ? & ?)].
      destruct Hm as (-> & _ & Hu). split; [by eexists|done].
    + destruct m as [|a|]; [done| |destruct Hm as (-> & _); exact I9]. destruct Hm as [_ Hm]. cbn.
      destruct (accepted a); destruct Hm as (-> & _); [done|exact I9].
Qed.

Lemma loop_inv w w' : step w w' → inv w → inv w'.
Proof.
  intros [now' w0 Hle|i t w0 Hi Hn|i x t v' t' w0 Ht Ha] I.
  - destruct I as [I1 I2 I3 I4 I5 I6 I7 I8 I9]. split; try done. cbn. intros x Hx. specialize (I6 x Hx). lia.
  - destruct I as [I1 I2 I3 I4 I5 I6 I7 I8 I9]. split; cbn [ver tasks fetches clock]; try done.
    + intros j t0 [[<- <-]|[_ H]]%lookup_insert_Some; [by destruct t|by apply I1].
    + intros j Hj. destruct (I2 _ Hj) as (t0 & u & s & l & H0 & Hb & E). exists t0, u, s, l.
      rewrite lookup_insert_ne; [done|]. intros ->. by rewrite Hi in H0.
    + intros j t0 [[<- <-]|[_ H]]%lookup_insert_Some; [by destruct t|by eapply I5].
  - eapply turn_inv; [done..|]. eapply act_turns; [apply I|by eapply iv_waits|exact Ha].
Qed.

Lemma world_inv w : reachable w → inv w.
Proof.
  intros [now H]. cut (inv (start now)); [|apply start_inv].
  induction H as [|x y z S _ IH]; [done|]. intros Hx. by eapply IH, loop_inv.
Qed.

(** ** The keys that are handed out *)

(** The key id that a task asks for. *)
Definition requested (t : task) : option string :=
  match t with
  | NewKey h => match jget "kid" h with JStr kid => Some kid | _ => None end
  | WaitKey kid _ _ _ | FetchKey kid _ => Some kid
  | _ => None
  end.

(** The key comes from the cache, which is fresh, or new, or not too old after a
    refresh that failed. *)
Definition current (now : Z) (v : verifier) (kid : string) (k : key) : Prop :=
  ∃ c, cache v = Some c ∧ dget kid (keys c) = Some k ∧
    (now - fetched_at c < cache_ttl_seconds cfg ∨ fetched_at c = now ∨
     now - fetched_at c <= max_stale_seconds cfg ∧ last_refresh_outcome v = Some false).

Lemma fresh_current now v kid k : cached_key (is_fresh cfg now) kid v = Some k → current now v kid k.
Proof.
  unfold cached_key. destruct (cache v) as [c|] eqn:Hc; [|done]. destruct (is_fresh cfg now c) eqn:Hf; [|done].
  intros Hk. exists c. split_and!; [done..|]. left. by apply Z.ltb_lt.
Qed.

Lemma usable_current now v kid k :
  last_refresh_outcome v = Some false → cached_key (is_usable cfg now) kid v = Some k → current now v kid k.
Proof.
  unfold cached_key. intros Ho. destruct (cache v) as [c|] eqn:Hc; [|done].
  destruct (is_usable cfg now c) eqn:Hf; [|done].
  intros Hk. exists c. split_and!; [done..|]. right. right. split; [by apply Z.leb_le|done].
Qed.

Lemma locked_key_current now kid att gen u v k :
  0 <= refresh_attempt_serial v → (last_refresh_outcome v = None → refresh_attempt_serial v = 0) →
  waits v (WaitKey kid att gen u) → locked_key cfg now kid att gen u v = KeyDone (Ok k) → current now v kid k.
Proof.
  intros H0 Ho (_ & Ha & Hw). unfold locked_key, _key_after_concurrent_refresh, _cached_key_before_fetch.
  destruct (refresh_attempt_serial v =? att) eqn:Ea; cbn [negb].
  - apply Z.eqb_eq in Ea. destruct Hw as [Hg _]; [done|].
    destruct (cache v) as [c|] eqn:Hc.
    + unfold generation_of in Hg. rewrite Hc in Hg. rewrite Hg, Z.eqb_refl. cbn [negb].
      destruct (cached_key (is_fresh cfg now) kid v) eqn:Hf; [intros [= ->]; by apply fresh_current|].
      destruct (_failure_retry_active cfg now v) eqn:Hr; [|by destruct (_ && _)].
      apply andb_true_iff in Hr as [Hr%bool_decide_eq_true _].
      destruct (cached_key (is_usable cfg now) kid v) eqn:Hk; [|done]. intros [= ->]. by apply usable_current.
    + unfold cached_key. rewrite Hc. destruct (_failure_retry_active cfg now v); [done|]. by destruct (_ && _).
  - apply Z.eqb_neq in Ea.
    destruct (cached_key (is_fresh cfg now) kid v) eqn:Hf; [intros [= ->]; by apply fresh_current|].
    destruct (bool_decide _) eqn:Hs; [done|]. apply bool_decide_eq_false in Hs.
    destruct (cached_key (is_usable cfg now) kid v) eqn:Hk; [|done]. intros [= ->]. apply usable_current; [|done].
    destruct (last_refresh_outcome v) as [[]|]; [done|done|]. specialize (Ho eq_refl). lia.
Qed.

Lemma refreshed_current now kid u a v v' k :
  _refreshed_key isprintable has_space loads PyJWK cfg now kid u a v = (v', Ok k) → current now v' kid k.
Proof.
  unfold _refreshed_key, _fetch. destruct (accepted a) as [ks|].
  - cbn [keys]. destruct (dget kid ks) as [k'|] eqn:Hk; intros [= <- E]. subst k'.
    eexists. cbn. rewrite (proj1 (set_unknown_same u now _)). split_and!; [reflexivity|done|]. by right; left.
  - destruct (cached_key (is_usable cfg now) kid (_record_refresh_failure now v)) as [k'|] eqn:Hk; intros [= <- E].
    subst k'. destruct (usable_current now (_record_refresh_failure now v) kid k eq_refl Hk) as (c & ? & ? & ?).
    exists c. by destruct u.
Qed.

Lemma act_current w i x t v' k :
  inv w → tasks w !! i = Some t → act (clock w) i x (ver w) t = Some (v', KeyDone (Ok k)) →
  ∃ kid, requested t = Some kid ∧ _safe_text isprintable has_space (JStr kid) = true ∧ current (clock w) v' kid k.
Proof.
  intros I Ht H. pose proof (iv_waits _ I _ _ Ht) as Hw. pose proof (iv_outcome _ I) as [O1 O2].
  destruct t as [h|kid att gen u|kid u|r|b|b|[]|r|]; destruct x as [|a| |]; try discriminate H; cbn [Jwks.act] in H.
  - injection H as <- H. unfold signing_key in H. cbn [requested].
    destruct (jget "kid" h) as [| | | |kid| |]; try discriminate H.
    destruct (negb _ || negb _) eqn:Hs; [discriminate H|]. apply orb_false_iff in Hs as [_ Hs%negb_false_iff].
    destruct (cached_key _ _ _) as [k'|] eqn:Hk; [|discriminate H]. injection H as <-.
    exists kid. split_and!; [done|done|]. by apply fresh_current.
  - destruct (bool_decide _); [|done]. unfold holding in H.
    destruct (locked_key _ _ _ _ _ _ _) as [| | |r| | | | |] eqn:L; try discriminate H.
    injection H as <- ->. exists kid. split_and!; [done|apply Hw|]. by eapply locked_key_current.
  - destruct (_refreshed_key _ _ _ _ _ _ _ _ _ _) as [v1 r] eqn:E. injection H as <- ->.
    exists kid. split_and!; [done|done|]. by eapply refreshed_current in E.
  - injection H as <- H. unfold ensure_ready in H. by destruct (cache_is _ _).
  - destruct (bool_decide _); [|done]. unfold holding, locked_ready in H.
    destruct (cache_is _ _); [done|]. by destruct (_failure_retry_active _ _ _).
  - destruct (_fetch _ _ _ _ _ a _) as [v1 [|]]; discriminate H.
  - destruct (_fetch _ _ _ _ _ a _) as [v1 [|]]; discriminate H.
Qed.

(** C23: a signing key is handed out only for a well-formed key id, and it is the key
    that the latest accepted answer of the provider gives this id; that answer came
    within the cache time, or at this moment, or, when the last refresh failed, within
    the time a stale cache may be used. *)
Theorem key_is_current w w' i t k :
  reachable w → step w w' → tasks w !! i = Some t → is_done t = false →
  tasks w' !! i = Some (KeyDone (Ok k)) →
  ∃ kid e ks, requested t = Some kid ∧ _safe_text isprintable has_space (JStr kid) = true ∧
    latest_keys (fetches w') = Some (e, ks) ∧ dget kid ks = Some k ∧
    (clock w - e < cache_ttl_seconds cfg ∨ e = clock w ∨
     clock w - e <= max_stale_seconds cfg ∧ last_refresh_outcome (ver w') = Some false).
Proof.
  intros R%world_inv S Ht Hd H. pose proof (loop_inv _ _ S R) as I'.
  destruct S as [now' w Hle|j t0 w Hj Hn|j x t0 v' t' w Ht0 Ha]; cbn [tasks] in H.
  - rewrite Ht in H. injection H as ->. done.
  - apply lookup_insert_Some in H as [[<- _]|[_ H]]; [congruence|]. rewrite Ht in H. injection H as ->. done.
  - apply lookup_insert_Some in H as [[-> ->]|[_ H]]; [|rewrite Ht in H; injection H as ->; done].
    assert (t0 = t) as -> by congruence.
    destruct (act_current _ _ _ _ _ _ R Ht Ha) as (kid & Hr & Hs & c & Hc & Hk & He).
    exists kid, (fetched_at c), (keys c). split_and!; [done|done| |done|done].
    rewrite <- (iv_cache _ I'). cbn [ver]. by rewrite Hc.
Qed.

(** C24: in every reachable world the provider is asked by one task at a time.  And
    however many requests with whatever key ids arrive: of three fetches that begin one
    after the other, none of them abandoned in between, the third begins at least a
    pause after the first, the least of the cooldown, the retry delay and the cache
    time (a second or more for any accepted configuration). *)
Theorem provider_is_spared w :
  reachable w →
  (∀ i j ti tj, tasks w !! i = Some ti → tasks w !! j = Some tj →
     is_fetching ti = true → is_fetching tj = true → i = j) ∧
  (∀ second l0 t3 u3 l2 t1 u1 l4, timing_values second cfg = true →
     fetches w = l0 ++ (t3, Begin u3) :: l2 ++ (t1, Begin u1) :: l4 →
     (∃ t2 u2, (t2, Begin u2) ∈ l2) → (∀ e, (e, Abandoned) ∉ l2) →
     t1 + pause <= t3 ∧ (0 < second → second <= pause)).
Proof.
  intros R%world_inv. split.
  - intros i j ti tj Hi Hj Fi Fj. pose proof (iv_holder _ R _ _ Hi Fi). pose proof (iv_holder _ R _ _ Hj Fj). congruence.
  - intros second l0 t3 u3 l2 t1 u1 l4 Hcfg El H2 Hno. split.
    + eapply three_begins; [|done..]. pose proof (iv_paced _ R) as Hp. rewrite El in Hp. by eapply paced_app.
    + intros Hs. unfold timing_values, in_bounds in Hcfg. rewrite !andb_true_iff, !Z.leb_le in Hcfg. unfold pause. lia.
Qed.

(** ** Progress *)

Definition rank (t : task) : nat :=
  match t with
  | NewKey _ | NewReady _ => 3
  | WaitKey _ _ _ _ | WaitReady _ => 2
  | FetchKey _ _ | FetchReady _ => 1
  | _ => 0
  end.

Lemma turn_rank now i x v t v' t' : act now i x v t = Some (v', t') → (rank t' < rank t)%nat.
Proof.
  intros H. destruct t as [h|kid att gen u|kid u|r|b|b|[]|r|]; destruct x as [|a| |]; try discriminate H;
    cbn [Jwks.act] in H; try (injection H as <- <-; cbn; lia).
  - injection H as <- <-. unfold signing_key. destruct (jget "kid" h); cbn; try lia.
    destruct (negb _ || negb _); cbn; [lia|]. destruct (cached_key _ _ _); cbn; lia.
  - destruct (bool_decide _); [|done]. unfold holding in H. injection H as <- <-. unfold locked_key.
    destruct (_key_after_concurrent_refresh _ _ _ _ _ _) as [[]|]; cbn; try lia.
    destruct (_cached_key_before_fetch _ _ _ _ _) as [[]|]; cbn; lia.
  - destruct (_refreshed_key _ _ _ _ _ _ _ _ _ _). injection H as <- <-. cbn. lia.
  - injection H as <- <-. unfold ensure_ready. destruct (cache_is _ _); cbn; lia.
  - destruct (bool_decide _); [|done]. unfold holding in H. injection H as <- <-. unfold locked_ready.
    destruct (cache_is _ _); cbn; [lia|]. destruct (_failure_retry_active _ _ _); cbn; lia.
  - destruct (_fetch _ _ _ _ _ _ _) as [v1 []]; injection H as <- <-; cbn; lia.
  - destruct (_fetch _ _ _ _ _ _ _) as [v1 []]; injection H as <- <-; cbn; lia.
Qed.

Lemma reply_frees now i a v t :
  is_fetching t = true → ∃ v' t', act now i (Reply a) v t = Some (v', t') ∧ lock v' = None ∧ is_done t' = true.
Proof.
  intros H. destruct t as [| |kid u| | | |b| |]; try discriminate H; cbn [Jwks.act].
  - destruct (_refreshed_key _ _ _ _ _ _ _ _ _ _) as [v1 r]. by eexists _, _.
  - destruct (_fetch _ _ _ _ _ _ _) as [v1 []]; destruct b; by eexists _, _.
Qed.

(** C: no request and no probe waits forever: every task is done after at most three
    turns, and in any reachable state an unfinished one can take its turn, or waits for
    a task whose fetch ends with any answer of the provider, a failure included, and
    then frees the lock. *)
Theorem tasks_are_answered w i t :
  reachable w → tasks w !! i = Some t → is_done t = false →
  (rank t <= 3)%nat ∧
  (∀ now x v v' t', act now i x v t = Some (v', t') → (rank t' < rank t)%nat) ∧
  ((∃ v' t', act (clock w) i Go (ver w) t = Some (v', t')) ∨
   ∃ j tj, tasks w !! j = Some tj ∧ is_fetching tj = true ∧ lock (ver w) = Some j ∧
     ∀ a, ∃ v' tj', act (clock w) j (Reply a) (ver w) tj = Some (v', tj') ∧ lock v' = None ∧ is_done tj' = true).
Proof.
  intros R%world_inv Ht Hd. split_and!; [destruct t; cbn; lia|intros *; apply turn_rank|].
  assert (∀ j, lock (ver w) = Some j → ∃ tj, tasks w !! j = Some tj ∧ is_fetching tj = true) as Hheld.
  { intros j Hj. destruct (iv_held _ R _ Hj) as (tj & u & _ & _ & Htj & Hb & _). exists tj. split; [done|].
    apply began_fetching. eauto. }
  destruct (is_fetching t) eqn:Hf.
  { right. exists i, t. split_and!; [done|done|by eapply iv_holder|]. intros a. by apply reply_frees. }
  destruct (lock (ver w)) as [j|] eqn:Hl.
  - destruct (Hheld j eq_refl) as (tj & Htj & Hfj). right. exists j, tj. split_and!; [done..|].
    intros a. by apply reply_frees.
  - left. destruct t; try discriminate Hd; try discriminate Hf; cbn [Jwks.act]; try rewrite Hl;
      try (rewrite bool_decide_eq_true_2 by done); by eexists _, _.
Qed.
End Jwks.
End JwksSpec.

(** Concrete runs of the key cache: a start, a rotation, a flood of unknown key ids
    and an outage of the provider. *)

Import JwksSpec.


Module JwksDemo.

(** Milliseconds, with the defaults of the loader. *)
Definition cfg : settings :=
  Settings "https://id.example" "https://id.example/jwks" "unihub" 3600000 86400000 5000 30000 5000 5000.

Definition plain (s : string) : bool := true.
Definition blank (s : string) : bool := false.

(** A body names its keys one after the other. *)
Definition key_json (kid : string) : json := JObj [("kid", JStr kid); ("kty", JStr "RSA")]%string.
Definition decode (text : string) : option json :=
  if bool_decide (text = "old"%string) then Some (JObj [("keys", JArr [key_json "k1"])]%string)
  else if bool_decide (text = "new"%string) then Some (JObj [("keys", JArr [key_json "k1"; key_json "k2"])]%string)
  else None.
Definition answer (text : string) : option response := Some (Response true (Some "3"%string) [text]).

Abbreviation act := (act plain blank decode Some cfg).
Abbreviation step := (step plain blank decode Some cfg).
Abbreviation reachable := (reachable plain blank decode Some cfg).
Abbreviation world := (@world json).

Inductive action := At (now : Z) | New (i : nat) (t : @task json) | Do (i : nat) (x : input).

Definition perform (a : action) (w : world) : option world :=
  match a with
  | At now => if clock w <=? now then Some (World now (ver w) (tasks w) (fetches w)) else None
  | New i t => match tasks w !! i with
               | Some _ => None
               | None => if is_new t then Some (World (clock w) (ver w) (<[i := t]> (tasks w)) (fetches w)) else None
               end
  | Do i x =>
      t ← tasks w !! i; '(v, t') ← act (clock w) i x (ver w) t;
      Some (World (clock w) v (<[i := t']> (tasks w)) (marks (clock w) x t t' ++ fetches w))
  end.

Fixpoint play (l : list action) (w : world) : option world :=
  match l with [] => Some w | a :: l' => perform a w ≫= play l' end.

Lemma perform_step a w w' : perform a w = Some w' → step w w'.
Proof.
  destruct a as [now|i t|i x]; cbn.
  - destruct (_ <=? _) eqn:H; [|done]. intros [= <-]. apply Later. lia.
  - destruct (tasks w !! i) eqn:H; [done|]. destruct (is_new t) eqn:Hn; [|done]. intros [= <-]. by apply Arrive.
  - destruct (tasks w !! i) as [t|] eqn:H; [|done]. cbn.
    destruct (act (clock w) i x (ver w) t) as [[v t']|] eqn:Ha; [|done]. intros [= <-]. by eapply Turn.
Qed.

Lemma play_steps l w w' : play l w = Some w' → rtc step w w'.
Proof.
  revert w. induction l as [|a l IH]; cbn; [by intros w [= <-]|]. intros w H.
  destruct (perform a w) as [w1|] eqn:Ha; [|done]. eapply rtc_l; [by eapply perform_step|by apply IH].
Qed.

Definition after (l : list action) : world := default (start 0) (play l (start 0)).

Lemma outage_reachable l : is_Some (play l (start 0)) → reachable (after l).
Proof. intros [w H]. exists 0. apply (play_steps l). unfold after. by rewrite H. Qed.

Definition token (kid : string) : @task json := NewKey [("alg", JStr "RS256"); ("kid", JStr kid)]%string.
Definition ask_for (i : nat) (kid : string) : list action := [New i (token kid); Do i Go; Do i Go].

Definition asked : list action := ask_for 1 "k1".
Definition booted : list action := asked ++ [Do 1 (Reply (answer "old"))].
(** The provider rotates: an unknown key id is fetched at once, the next ones wait
    for the cooldown. *)
Definition rotated : list action := booted ++ [At 10] ++ ask_for 2 "k2" ++ [At 50; Do 2 (Reply (answer "new"))].
Definition flooded : list action := rotated ++ [At 100] ++ ask_for 3 "x1" ++ [At 4000] ++ ask_for 4 "x2".
Definition cooled : list action := flooded ++ [At 5050] ++ ask_for 5 "x3".

(** After an hour the cache is stale; while the provider is down the known key is
    still given out. *)
Definition outage : list action :=
  rotated ++ [At 4000000] ++ ask_for 6 "k1" ++ [At 4000100; Do 6 (Reply None)] ++ [At 4000200] ++ ask_for 7 "k1".

Example rotation_found : tasks (after rotated) !! 2%nat = Some (KeyDone (Ok (key_json "k2"))).
Proof. vm_compute. reflexivity. Qed.
Example flood_refused :
  tasks (after flooded) !! 3%nat = Some (KeyDone (Err Invalid)) ∧
  tasks (after flooded) !! 4%nat = Some (KeyDone (Err Invalid)) ∧ length (fetches (after flooded)) = 4%nat.
Proof. vm_compute. by split_and!. Qed.
Example outage_survived :
  tasks (after outage) !! 6%nat = Some (KeyDone (Ok (key_json "k1"))) ∧
  tasks (after outage) !! 7%nat = Some (KeyDone (Ok (key_json "k1"))).
Proof. vm_compute. by split. Qed.

Lemma played l : is_Some (play l (start 0)) → play l (start 0) = Some (after l).
Proof. intros [w H]. unfold after. by rewrite H. Qed.

#[local] Opaque play after perform.

Lemma key_is_current_witness :
  ∃ kid e ks, latest_keys plain blank decode Some (fetches (after booted)) = Some (e, ks) ∧
    requested (FetchKey "k1" false : @task json) = Some kid ∧ dget kid ks = Some (key_json "k1").
Proof.
  assert (step (after asked) (after booted)) as S.
  { apply (perform_step (Do 1 (Reply (answer "old")))). vm_compute. reflexivity. }
  destruct (key_is_current plain blank decode Some cfg (after asked) (after booted) 1 (FetchKey "k1" false)
              (key_json "k1")) as (kid & e & ks & Hr & _ & Hl & Hk & _).
  - apply outage_reachable. vm_compute. eexists. reflexivity.
  - exact S.
  - vm_compute. reflexivity.
  - reflexivity.
  - vm_compute. reflexivity.
  - exists kid, e, ks. split; [exact Hl|]. split; [exact Hr|exact Hk].
Defined.

Lemma provider_is_spared_witness :
  ∃ t3 l2 t1, fetches (after cooled) = (t3, Begin true) :: l2 ++ [(t1, Begin false)] ∧
    t1 + pause cfg <= t3 ∧ 1000 <= pause cfg.
Proof.
  assert (∃ t3 e2 a2 t2 e1 a1 t1, fetches (after cooled) =
    [(t3, Begin true); (e2, End a2); (t2, Begin true); (e1, End a1); (t1, Begin false)]) as H.
  { vm_compute. do 7 eexists. reflexivity. }
  destruct H as (t3 & e2 & a2 & t2 & e1 & a1 & t1 & H).
  destruct (provider_is_spared plain blank decode Some cfg (after cooled)) as [_ Hq].
  { apply outage_reachable. vm_compute. eexists. reflexivity. }
  destruct (Hq 1000 [] t3 true [(e2, End a2); (t2, Begin true); (e1, End a1)] t1 false []) as (Hp & Hs).
  - vm_compute. reflexivity.
  - exact H.
  - exists t2, true. right; left.
  - intros e He. rewrite !elem_of_cons in He. destruct He as [He|[He|[He|He%elem_of_nil]]]; [discriminate He..|done].
  - exists t3, [(e2, End a2); (t2, Begin true); (e1, End a1)], t1. split; [exact H|]. split; [exact Hp|]. by apply Hs.
Defined.

Lemma tasks_are_answered_witness :
  ∃ v' t', act 0 1 Go (ver (after [New 1 (token "k1")])) (token "k1") = Some (v', t') ∧ (rank t' < 3)%nat.
Proof.
  destruct (tasks_are_answered plain blank decode Some cfg (after [New 1 (token "k1")]) 1 (token "k1"))
    as (_ & Hr & [(v' & t' & H)|(j & tj & _ & _ & Hl & _)]).
  - apply outage_reachable. vm_compute. eexists. reflexivity.
  - vm_compute. reflexivity.
  - reflexivity.
  - exists v', t'. split; [exact H|]. exact (Hr _ _ _ _ _ H).
  - exfalso. vm_compute in Hl. discriminate Hl.
Defined.
End JwksDemo.
