(* ===== verification/Oidc.v ===== *)
(** The claims of [auth.py]: what is accepted of a verified JWT, and the identity a
    session is bound to ([session_runtime_helpers.py]).

    The signature, issuer, audience and times of a token are checked by PyJWT, with the
    keys of [Jwks.v]; here begins the payload [jwt.decode] returned. *)

From Stdlib Require Import QArith Qround.
From S2P Require Import Prelude Text Dict Json.

Local Open Scope Z_scope.

Module Oidc.

Record AuthClaims := Claims {
  sub : string;
  email : string;
  preferred_username : string;
  groups : list string;
  iss : string;
  aud : string;
  iat : Z;
  exp : Z;
}.

Definition MAX_NUMERIC_DATE : Z := 2 ^ 63 - 1.

(** [_validated_numeric_date] on a decoded number. *)
Definition _validated_numeric_date (v : json) : option Z :=
  match v with
  | JInt z => if (z <? 0) || (MAX_NUMERIC_DATE <? z) then None else Some z
  | JReal q =>
      if negb (Qle_bool 0 q) || negb (Qle_bool q (inject_Z MAX_NUMERIC_DATE)) then None
      else Some (Qfloor q)
  | _ => None
  end.

Section Claims.
(** [str.isprintable] of every character, and a blank among them. *)
Context (isprintable has_space : string → bool).

Definition longer_than (n : Z) (s : string) : bool := n <? Z.of_nat (String.length s).

Definition _valid_text (v : json) (maximum : Z) : bool :=
  match v with
  | JStr s => negb (bool_decide (strip s = EmptyString)) && bool_decide (s = strip s)
              && negb (longer_than maximum s) && isprintable s
  | _ => false
  end.

Definition valid_groups (v : json) : option (list string) :=
  match v with
  | JArr l =>
      if (256 <? Z.of_nat (length l)) || existsb (λ g, negb (_valid_text g 128)) l then None
      else Some (omap (λ g, match g with JStr s => Some s | _ => None end) l)
  | _ => None
  end.

(** A claim that may be absent, and is then empty. *)
Definition valid_email (payload : list (string * json)) : option string :=
  match dget "email" payload with
  | None => Some EmptyString
  | Some (JStr s) =>
      if longer_than 320 s || has_space s || negb (isprintable s) then None else Some s
  | Some _ => None
  end.
Definition valid_username (payload : list (string * json)) : option string :=
  match dget "preferred_username" payload with
  | None => Some EmptyString
  | Some (JStr s as v) => if _valid_text v 256 then Some s else None
  | Some _ => None
  end.

(** [verify_oidc_token] from the decoded payload on; [None] answers 401. *)
Definition verify_oidc_token (payload : list (string * json)) (nonce : option string)
    (issuer audience : string) : option AuthClaims :=
  s ← match jget "sub" payload with
      | JStr s as v => if _valid_text v 256 then Some s else None
      | _ => None
      end;
  gs ← valid_groups (default (JArr []) (dget "groups" payload));
  mail ← valid_email payload;
  user ← valid_username payload;
  iat' ← _validated_numeric_date (jget "iat" payload);
  exp' ← _validated_numeric_date (jget "exp" payload);
  match nonce with
  | Some n => if json_eqb (jget "nonce" payload) (JStr n)
              then Some (Claims s mail user gs issuer audience iat' exp') else None
  | None => Some (Claims s mail user gs issuer audience iat' exp')
  end.

Definition oidc_identity_is_continuous (expected actual : AuthClaims) : bool :=
  bool_decide (sub expected = sub actual) && bool_decide (iss expected = iss actual).

(** ** What accepted claims are *)

Lemma numeric_date_range v z : _validated_numeric_date v = Some z → 0 <= z <= MAX_NUMERIC_DATE.
Proof.
  destruct v as [| |y|q| | |]; cbn; try done.
  - destruct (_ || _) eqn:E; [done|]. intros [= <-]. bool_prop. lia.
  - destruct (_ || _) eqn:E; [done|]. intros [= <-]. apply orb_false_iff in E as [H1 H2].
    apply negb_false_iff, Qle_bool_iff in H1, H2.
    split; [by apply (Qfloor_resp_le 0)|]. by apply (Qfloor_resp_le q (inject_Z MAX_NUMERIC_DATE)).
Qed.

Lemma length_omap_le {A B} (f : A → option B) l : (length (omap f l) <= length l)%nat.
Proof. induction l as [|x l IH]; cbn; [done|]. destruct (f x); cbn; lia. Qed.

Lemma verify_Some payload nonce issuer audience c :
  verify_oidc_token payload nonce issuer audience = Some c →
  iss c = issuer ∧ aud c = audience ∧ jget "sub" payload = JStr (sub c) ∧
  strip (sub c) = sub c ∧ sub c ≠ EmptyString ∧ (String.length (sub c) <= 256)%nat ∧
  (length (groups c) <= 256)%nat ∧
  0 <= iat c <= MAX_NUMERIC_DATE ∧ 0 <= exp c <= MAX_NUMERIC_DATE ∧
  (∀ n, nonce = Some n → jget "nonce" payload = JStr n).
Proof.
  unfold verify_oidc_token. intros H.
  apply bind_Some in H as (s & Hs & H). apply bind_Some in H as (gs & Hg & H).
  apply bind_Some in H as (mail & _ & H). apply bind_Some in H as (user & _ & H).
  apply bind_Some in H as (i & Hi & H). apply bind_Some in H as (e & He & H).
  assert (Hc : c = Claims s mail user gs issuer audience i e ∧
    ∀ n, nonce = Some n → jget "nonce" payload = JStr n).
  { destruct nonce as [n|]; [|by simplify_eq]. destruct (json_eqb _ _) eqn:E; [|done].
    simplify_eq. split; [done|]. intros ? [= <-]. by apply json_eqb_str. }
  destruct Hc as [-> Hn]. cbn.
  destruct (jget "sub" payload) as [| | | |t| |]; try done.
  destruct (_valid_text (JStr t) 256) eqn:Ht; [|done]. injection Hs as ->.
  unfold _valid_text, longer_than in Ht. bool_prop.
  split_and!; try done; try (by eapply numeric_date_range); try lia.
  - congruence.
  - unfold valid_groups in Hg. destruct (default _ _) as [| | | | |l|]; try done.
    destruct (_ || _) eqn:E; [done|]. injection Hg as <-. bool_prop.
    etransitivity; [apply length_omap_le|]. lia.
Qed.
End Claims.
End Oidc.
