(* ===== verification/Session.v ===== *)
(** The browser sessions of [session_auth.py]: the login flow, the encrypted sessions in
    Valkey, the single-flight refresh across processes, and the logout.

    A coroutine runs from one await to the next in one turn; the turns of all processes
    interleave.  A read of Valkey takes two turns: the server serves it in one, and the
    coroutine goes on with the value in a later one, when the store, the clock and the
    tasks of the process may have moved on.  A write takes two when what follows it looks
    at the clock or may be cancelled.  Times are in milliseconds.  The answer of a command
    may be lost: a write then runs later, or never.  When the deadline of an
    [asyncio.timeout] has passed, the timeout wins over the answer. *)

From Stdlib Require Import Ascii.
From S2P Require Import Prelude Text Dict Json Oidc.

Local Open Scope Z_scope.

Module Session.
Import Oidc.

(** ** Constants *)

Definition REFRESH_OWNER_TIMEOUT : Z := 10000.
Definition REFRESH_LOCK_TTL : Z := 15000.
Definition REFRESH_WAIT : Z := 1000.
Definition REFRESH_POLL : Z := 50.
Definition FLOW_TTL : Z := 600000.
(** The socket timeout of the Valkey client. *)
Definition SOCKET_TIMEOUT : Z := 2000.
Definition MAX_RESPONSE : Z := 256 * 1024.
Definition SAFE_METHODS : list string := ["GET"; "HEAD"; "OPTIONS"]%string.
Definition OPAQUE_RE : string → bool := run_match (λ c, is_alnum c || one_of "_-" c) 43 43.

(** ** Valkey *)

(** The record of a session: its claims, refresh token and CSRF token. *)
Record session := Sess {
  claims : AuthClaims;
  refresh_token : string;
  csrf : string;
}.

Record flow := Flow {
  flow_nonce : string;
  verifier : string;
}.

Inductive payload := PSession (r : session) | PFlow (f : flow).

Record entry := Entry {
  value : string;
  expires : Z;
}.

(** The three key spaces, under SESSION_PREFIX, FLOW_PREFIX and LOCK_PREFIX. *)
Record valkey := Valkey {
  sessions : gmap string entry;
  flows : gmap string entry;
  locks : gmap string entry;
}.

(** [GET] *)
Definition get (now : Z) (m : gmap string entry) (key : string) : option string :=
  match m !! key with
  | Some e => if now <? expires e then Some (value e) else None
  | None => None
  end.

(** The commands that change the store. *)
Inductive command :=
| SetSession (sid packed : string)
| DelSession (sid : string)
| DelSessionIf (sid packed : string)
| SetLockNx (sid token : string)
| DelLockIf (sid token : string)
| SetFlowNx (state packed : string)
| GetDelFlow (state : string).
#[global] Instance command_eq : EqDecision command.
Proof. solve_decision. Defined.

(** [SET key value EX ttl NX] *)
Definition set_nx (now ttl : Z) (key v : string) (m : gmap string entry) : gmap string entry :=
  match get now m key with Some _ => m | None => <[key := Entry v (now + ttl)]> m end.
(** The compare-and-delete script. *)
Definition del_if (now : Z) (key v : string) (m : gmap string entry) : gmap string entry :=
  if bool_decide (get now m key = Some v) then delete key m else m.

Definition exec (session_ttl now : Z) (c : command) (s : valkey) : valkey :=
  match c with
  | SetSession sid packed =>
      Valkey (<[sid := Entry packed (now + session_ttl)]> (sessions s)) (flows s) (locks s)
  | DelSession sid => Valkey (delete sid (sessions s)) (flows s) (locks s)
  | DelSessionIf sid packed => Valkey (del_if now sid packed (sessions s)) (flows s) (locks s)
  | SetLockNx sid token =>
      Valkey (sessions s) (flows s) (set_nx now REFRESH_LOCK_TTL sid token (locks s))
  | DelLockIf sid token => Valkey (sessions s) (flows s) (del_if now sid token (locks s))
  | SetFlowNx state packed => Valkey (sessions s) (set_nx now FLOW_TTL state packed (flows s)) (locks s)
  | GetDelFlow state => Valkey (sessions s) (delete state (flows s)) (locks s)
  end.

(** ** The outside world of one turn *)

Inductive http := HttpError | Response (status size : Z) (body : option json).

Record input := Input {
  (** does the answer of the Valkey command arrive, and a timer fire? *)
  answered : bool;
  timer : bool;
  (** the tokens drawn from [secrets], and the initialization vector of Fernet *)
  drawn : string;
  drawn_csrf : string;
  iv : N;
  (** the identity provider, and the payloads of the access and the ID token, or the
      status of the exception *)
  provider : http;
  access : res Z (list (string * json));
  id_token : res Z (list (string * json));
}.

(** ** Coroutines *)

(** What a refresh ends with: [None], a record, [ConcurrentSessionRefreshUnavailable],
    or another exception. *)
Inductive refreshed := GaveUp | Refreshed (r : session) | Unavailable | Raised.

Inductive task_phase :=
| Locking
| Contended
| Locked (token : string) (at_ : Z)
| Posting (token : string) (deadline : Z)
| Verifying (token : string) (deadline : Z) (new_refresh : string)
| Storing (token : string) (deadline : Z) (r : session) (packed : string)
| Stored (token : string) (deadline : Z) (r : session)
| Releasing (token : string) (result : refreshed)
| Released (result : refreshed)
| Polling (deadline not_before : Z)
| Polled (deadline : Z) (read : option string)
| PollingLock (deadline : Z)
| PolledLock (deadline : Z) (held : bool)
| Rechecking
| Rechecked (read : option string)
| TaskDone (result : refreshed).

(** The coroutine of [_refresh_distributed]. *)
Record task := Task {
  t_proc : nat;
  t_sid : string;
  t_record : session;
  t_phase : task_phase;
}.
Definition at_phase (p : task_phase) (t : task) : task := Task (t_proc t) (t_sid t) (t_record t) p.

Inductive kind := Call (method : string) | Status | Logout.
Definition method_of (k : kind) : string :=
  match k with Call m => m | Status => "GET" | Logout => "POST" end.

Inductive answer :=
| Granted (c : AuthClaims)
| Profile (c : AuthClaims) (csrf_token : string)
| LoggedOut
| Http (code : Z).

Inductive request_phase :=
| Reading
| Read (read : option string)
| Awaiting (packed : string) (task_id : nat) (deadline : option Z)
| Rereading (packed : string)
| Reread (packed : string) (read : option string)
| Deleting (packed : string)
| RereadingLast
| RereadLast (read : option string)
| Showing (c : AuthClaims)
| LoggingOut
| Answered (a : answer).

(** A request: [authenticate_session], and then the handler. *)
Record request := Request {
  q_proc : nat;
  q_cookie : string;
  q_kind : kind;
  q_supplied : string;
  q_phase : request_phase;
}.
Definition moved (p : request_phase) (q : request) : request :=
  Request (q_proc q) (q_cookie q) (q_kind q) (q_supplied q) p.

Inductive callback_phase :=
| Starting
| Exchanging (f : flow)
| Opening (sid : string) (r : session) (packed : string)
| CallbackDone (sid : res Z string).

Record callback := Callback {
  c_code : string;
  c_state : string;
  c_flow : option flow;
  c_phase : callback_phase;
}.
Definition callback_at (p : callback_phase) (c : callback) : callback :=
  Callback (c_code c) (c_state c) (c_flow c) p.

(** A process before, during and after [close_session_runtime]. *)
Inductive stage := Closing | Closed.
#[global] Instance stage_eq : EqDecision stage.
Proof. solve_decision. Defined.

Record world := World {
  now : Z;
  server : valkey;
  tasks : list task;
  local_tasks : gmap (nat * string) nat;
  stages : gmap nat stage;
  requests : list request;
  callbacks : list callback;
  (** commands whose answer was lost *)
  late : list command;
  (** every token ever drawn, and what each session was opened with *)
  used : gset string;
  opened : gmap string session;
}.

Section Session.
Context (isprintable has_space : string → bool).
(** The JSON text and Fernet. *)
Context (encrypt : N → payload → string) (decrypt : string → option payload).
(** The settings. *)
Context (issuer audience client_id : string) (session_ttl : Z).

Definition _pack (vector : N) (p : payload) : string := encrypt vector p.
Definition _unpack (p : option string) : option payload :=
  match p with
  | None | Some EmptyString => None
  | Some s => decrypt s
  end.
Definition unpack_session (p : option string) : option session :=
  match _unpack p with Some (PSession r) => Some r | _ => None end.
Definition unpack_flow (p : option string) : option flow :=
  match _unpack p with Some (PFlow f) => Some f | _ => None end.

(** [exp > int(time.time()) + 60] *)
Definition usable (t : Z) (r : session) : bool := t / 1000 + 60 <? exp (claims r).
Definition usable_packed (t : Z) (p : option string) : option session :=
  match unpack_session p with
  | Some r => if usable t r then Some r else None
  | None => None
  end.

(** A command: it runs now, or its answer is lost. *)
Definition submit (i : input) (t : Z) (c : command) (s : valkey) : valkey * list command :=
  if answered i then (exec session_ttl t c s, []) else (s, [c]).

(** The tokens of a response of the provider, checked as far as both exchanges do. *)
Definition token_response (h : http) : option (list (string * json)) :=
  match h with
  | Response status size (Some (JObj tokens)) =>
      if negb (status =? 200) || (MAX_RESPONSE <? size) then None else Some tokens
  | _ => None
  end.

(** ** The refresh *)

Definition turn : Type := valkey * task_phase * list command.

(** [_wait_for_distributed_refresh]: the loop's read of the session, its read of the lock,
    and the last read when the lock is gone; each read is served, then looked at. *)
Definition waiting (i : input) (t : Z) (s : valkey) (sid : string) (p : task_phase) : task_phase :=
  match p with
  | Polling deadline not_before =>
      if t <? not_before then Polling deadline not_before
      else if deadline <=? t then TaskDone Unavailable
      else if negb (answered i) then TaskDone Raised
      else Polled deadline (get t (sessions s) sid)
  | Polled deadline read =>
      if negb (answered i) then TaskDone Raised else
      match usable_packed t read with
      | Some r => TaskDone (Refreshed r)
      | None => PollingLock deadline
      end
  | PollingLock deadline =>
      if negb (answered i) then TaskDone Raised
      else PolledLock deadline (bool_decide (is_Some (get t (locks s) sid)))
  | PolledLock deadline held =>
      if negb (answered i) then TaskDone Raised
      else if held then Polling deadline (t + REFRESH_POLL) else Rechecking
  | Rechecking =>
      if negb (answered i) then TaskDone Raised else Rechecked (get t (sessions s) sid)
  | Rechecked read =>
      if negb (answered i) then TaskDone Raised else
      match usable_packed t read with
      | Some r => TaskDone (Refreshed r)
      | None => TaskDone Unavailable
      end
  | _ => p
  end.

Definition task_turn (i : input) (t : Z) (s : valkey) (x : task) : turn :=
  let sid := t_sid x in
  match t_phase x with
  | Locking =>
      if negb (answered i) then (s, TaskDone Raised, [SetLockNx sid (drawn i)]) else
      match get t (locks s) sid with
      | Some _ => (s, Contended, [])
      | None => (exec session_ttl t (SetLockNx sid (drawn i)) s, Locked (drawn i) t, [])
      end
  | Contended =>
      (s, if answered i then Polling (t + REFRESH_WAIT) t else TaskDone Raised, [])
  | Locked token at_ =>
      if negb (answered i) || (at_ + SOCKET_TIMEOUT <? t) then (s, TaskDone Raised, [])
      else if bool_decide (refresh_token (t_record x) = EmptyString)
      then (s, Releasing token GaveUp, [])
      else (s, Posting token (t + REFRESH_OWNER_TIMEOUT), [])
  | Posting token deadline =>
      if deadline <=? t then (s, Releasing token GaveUp, []) else
      match token_response (provider i) with
      | Some tokens =>
          match jget "access_token" tokens with
          | JStr _ =>
              (s, Verifying token deadline
                    (match jget "refresh_token" tokens with
                     | JStr new => new
                     | _ => refresh_token (t_record x)
                     end), [])
          | _ => (s, Releasing token GaveUp, [])
          end
      | None => (s, Releasing token GaveUp, [])
      end
  | Verifying token deadline new_refresh =>
      if deadline <=? t then (s, Releasing token GaveUp, []) else
      match access i with
      | Ok decoded =>
          match verify_oidc_token isprintable has_space decoded None issuer audience with
          | Some c =>
              if oidc_identity_is_continuous (claims (t_record x)) c then
                let r := Sess c new_refresh (csrf (t_record x)) in
                (s, Storing token deadline r (_pack (iv i) (PSession r)), [])
              else (s, Releasing token GaveUp, [])
          | None => (s, Releasing token GaveUp, [])
          end
      | Err _ => (s, Releasing token GaveUp, [])
      end
  | Storing token deadline r packed =>
      if deadline <=? t then (s, Releasing token GaveUp, [SetSession sid packed]) else
      let '(s', l) := submit i t (SetSession sid packed) s in
      (s', if answered i then Stored token deadline r else Releasing token Raised, l)
  | Stored token deadline r =>
      (s, Releasing token (if deadline <=? t then GaveUp
                           else if answered i then Refreshed r else Raised), [])
  | Releasing token result =>
      let '(s', l) := submit i t (DelLockIf sid token) s in (s', Released result, l)
  | Released result => (s, TaskDone result, [])
  | TaskDone _ => (s, t_phase x, [])
  | p => (s, waiting i t s sid p, [])
  end.

(** A cancelled refresh: the command on the way may still run. *)
Definition cancelled (i : input) (x : task) : task_phase * list command :=
  match t_phase x with
  | Locking => (TaskDone Raised, [SetLockNx (t_sid x) (drawn i)])
  | Posting token _ | Verifying token _ _ => (Releasing token Raised, [])
  | Storing token _ _ packed => (Releasing token Raised, [SetSession (t_sid x) packed])
  | Stored token _ _ => (Releasing token Raised, [])
  | Releasing token _ => (TaskDone Raised, [DelLockIf (t_sid x) token])
  | TaskDone result => (TaskDone result, [])
  | _ => (TaskDone Raised, [])
  end.

(** ** Requests *)

(** The CSRF check, and the next step of the handler. *)
Definition authorize (r : session) (q : request) : request_phase :=
  if bool_decide (method_of (q_kind q) ∈ SAFE_METHODS) then
    match q_kind q with
    | Status => Showing (claims r)
    | _ => Answered (Granted (claims r))
    end
  else if negb (all_chars (λ c, Nat.ltb (nat_of_ascii c) 128) (q_supplied q))
  then Answered (Http 500)
  else if negb (bool_decide (q_supplied q = csrf r)) then Answered (Http 403)
  else match q_kind q with
       | Logout => LoggingOut
       | _ => Answered (Granted (claims r))
       end.

(** [_refresh]: the task of the process for this session, or a new one. *)
Definition _refresh (q : request) (packed : string) (r : session) (w : world)
    : list task * gmap (nat * string) nat * request_phase :=
  match stages w !! q_proc q with
  | Some _ => (tasks w, local_tasks w, Answered (Http 503))
  | None =>
      match local_tasks w !! (q_proc q, q_cookie q) with
      | Some k => (tasks w, local_tasks w, Awaiting packed k (Some (now w + REFRESH_WAIT)))
      | None =>
          (tasks w ++ [Task (q_proc q) (q_cookie q) r Locking],
           <[(q_proc q, q_cookie q) := length (tasks w)]> (local_tasks w),
           Awaiting packed (length (tasks w)) None)
      end
  end.

(** [session_status] and [session_logout] after [authenticate_session]. *)
Definition session_status (i : input) (q : request) (c : AuthClaims) (w : world) : request_phase :=
  if bool_decide (stages w !! q_proc q = Some Closed) then Answered (Http 503)
  else if negb (answered i) then Answered (Http 500)
  else Answered (Profile c (match unpack_session (get (now w) (sessions (server w)) (q_cookie q)) with
                            | Some r => csrf r
                            | None => EmptyString
                            end)).
Definition session_logout (i : input) (q : request) (w : world)
    : valkey * request_phase * list command :=
  if bool_decide (stages w !! q_proc q = Some Closed) then (server w, Answered (Http 503), [])
  else let '(s', l) := submit i (now w) (DelSession (q_cookie q)) (server w) in
       (s', Answered (if answered i then LoggedOut else Http 500), l).

Definition request_turn (i : input) (q : request) (w : world)
    : valkey * list task * gmap (nat * string) nat * request_phase * list command :=
  let s := server w in
  let sid := q_cookie q in
  let stay p := (s, tasks w, local_tasks w, p, []) in
  let lost := stay (Answered (Http 500)) in
  let read := get (now w) (sessions s) sid in
  match q_phase q with
  | Reading =>
      if bool_decide (stages w !! q_proc q = Some Closed) then stay (Answered (Http 503))
      else if negb (OPAQUE_RE sid) then stay (Answered (Http 401))
      else if negb (answered i) then lost
      else stay (Read read)
  | Read read =>
      if negb (answered i) then lost
      else match read, unpack_session read with
           | Some packed, Some r =>
               if usable (now w) r then stay (authorize r q)
               else let '(ts, l, p) := _refresh q packed r w in (s, ts, l, p, [])
           | _, _ => stay (Answered (Http 401))
           end
  | Awaiting packed k deadline =>
      if timer i && match deadline with Some d => d <=? now w | None => false end
      then stay (Answered (Http 503))
      else match t_phase <$> tasks w !! k with
           | Some (TaskDone (Refreshed r)) => stay (authorize r q)
           | Some (TaskDone GaveUp) => stay (Rereading packed)
           | Some (TaskDone Unavailable) => stay (Answered (Http 503))
           | Some (TaskDone Raised) => lost
           | _ => stay (q_phase q)
           end
  | Rereading packed => if negb (answered i) then lost else stay (Reread packed read)
  | Reread packed read =>
      if negb (answered i) then lost else
      match usable_packed (now w) read with
      | Some r => stay (authorize r q)
      | None => stay (Deleting packed)
      end
  | Deleting packed =>
      let '(s', l) := submit i (now w) (DelSessionIf sid packed) s in
      (s', tasks w, local_tasks w,
       if negb (answered i) then Answered (Http 500)
       else if bool_decide (read = Some packed) then Answered (Http 401) else RereadingLast, l)
  | RereadingLast => if negb (answered i) then lost else stay (RereadLast read)
  | RereadLast read =>
      if negb (answered i) then lost else
      match usable_packed (now w) read with
      | Some r => stay (authorize r q)
      | None => stay (Answered (Http 503))
      end
  | Showing c => stay (session_status i q c w)
  | LoggingOut =>
      let '(s', p, l) := session_logout i q w in (s', tasks w, local_tasks w, p, l)
  | Answered _ => stay (q_phase q)
  end.

(** ** The login *)

Definition _bounded_text (v : string) (maximum : Z) : bool :=
  negb (bool_decide (v = EmptyString)) && bool_decide (v = strip v)
  && (Z.of_nat (String.length v) <=? maximum) && isprintable v.

(** [tokens.get(name)], a nonempty string. *)
Definition token_field (name : string) (tokens : list (string * json)) : option string :=
  match jget name tokens with
  | JStr EmptyString => None
  | JStr t => Some t
  | _ => None
  end.

(** The session of a callback, from the answer of the provider on, or a status. *)
Definition exchanged (i : input) (f : flow) : res Z session :=
  match token_response (provider i) with
  | None => Err 502
  | Some tokens =>
      match token_field "access_token" tokens, token_field "id_token" tokens,
            token_field "refresh_token" tokens with
      | Some _, Some _, Some refresh =>
          decoded ← access i;
          c ← from_option Ok (Err 401)
                (verify_oidc_token isprintable has_space decoded None issuer audience);
          id_decoded ← id_token i;
          c' ← from_option Ok (Err 401)
                 (verify_oidc_token isprintable has_space id_decoded (Some (flow_nonce f))
                    issuer client_id);
          if oidc_identity_is_continuous c c' then Ok (Sess c refresh (drawn_csrf i)) else Err 502
      | _, _, _ => Err 502
      end
  end.

Definition callback_turn (i : input) (t : Z) (s : valkey) (c : callback)
    : valkey * callback * list command :=
  match c_phase c with
  | Starting =>
      if negb (_bounded_text (c_code c) 4096) || negb (_bounded_text (c_state c) 128)
         || negb (OPAQUE_RE (c_state c))
      then (s, callback_at (CallbackDone (Err 400)) c, [])
      else
        let '(s', l) := submit i t (GetDelFlow (c_state c)) s in
        if negb (answered i) then (s', callback_at (CallbackDone (Err 500)) c, l) else
        match unpack_flow (get t (flows s) (c_state c)) with
        | Some f => (s', Callback (c_code c) (c_state c) (Some f) (Exchanging f), l)
        | None => (s', callback_at (CallbackDone (Err 400)) c, l)
        end
  | Exchanging f =>
      match exchanged i f with
      | Ok r => (s, callback_at (Opening (drawn i) r (_pack (iv i) (PSession r))) c, [])
      | Err code => (s, callback_at (CallbackDone (Err code)) c, [])
      end
  | Opening sid r packed =>
      let '(s', l) := submit i t (SetSession sid packed) s in
      (s', callback_at (CallbackDone (if answered i then Ok sid else Err 500)) c, l)
  | CallbackDone _ => (s, c, [])
  end.

(** The session a turn opens. *)
Definition opening (before after : callback_phase) (m : gmap string session) : gmap string session :=
  match before, after with
  | Exchanging _, Opening sid r _ => <[sid := r]> m
  | _, _ => m
  end.

(** ** The world *)

(** Every turn draws new tokens. *)
Definition draws (i : input) (w : world) : Prop :=
  drawn i ∉ used w ∧ drawn_csrf i ∉ used w ∧ drawn i ≠ drawn_csrf i.
Definition used' (i : input) (w : world) : gset string := {[drawn i; drawn_csrf i]} ∪ used w.

Inductive step (w : world) : world → Prop :=
| s_tick dt : 0 < dt →
    step w (World (now w + dt) (server w) (tasks w) (local_tasks w) (stages w) (requests w)
              (callbacks w) (late w) (used w) (opened w))
| s_login i nonce verifier s l : draws i w →
    submit i (now w) (SetFlowNx (drawn i) (_pack (iv i) (PFlow (Flow nonce verifier)))) (server w)
      = (s, l) →
    step w (World (now w) s (tasks w) (local_tasks w) (stages w) (requests w) (callbacks w)
              (l ++ late w) (used' i w) (opened w))
| s_callback code state :
    step w (World (now w) (server w) (tasks w) (local_tasks w) (stages w) (requests w)
              (callbacks w ++ [Callback code state None Starting]) (late w) (used w) (opened w))
| s_callback_turn i k c s c' l : draws i w →
    callbacks w !! k = Some c → callback_turn i (now w) (server w) c = (s, c', l) →
    step w (World (now w) s (tasks w) (local_tasks w) (stages w) (requests w)
              (<[k := c']> (callbacks w)) (l ++ late w) (used' i w)
              (opening (c_phase c) (c_phase c') (opened w)))
| s_request p cookie kind supplied :
    step w (World (now w) (server w) (tasks w) (local_tasks w) (stages w)
              (requests w ++ [Request p cookie kind supplied Reading]) (callbacks w)
              (late w) (used w) (opened w))
| s_request_turn i k q s ts lt p l : draws i w →
    requests w !! k = Some q → request_turn i q w = (s, ts, lt, p, l) →
    step w (World (now w) s ts lt (stages w) (<[k := moved p q]> (requests w)) (callbacks w)
              (l ++ late w) (used' i w) (opened w))
| s_task_turn i k x s p l : draws i w →
    tasks w !! k = Some x → task_turn i (now w) (server w) x = (s, p, l) →
    step w (World (now w) s (<[k := at_phase p x]> (tasks w)) (local_tasks w) (stages w)
              (requests w) (callbacks w) (l ++ late w) (used' i w) (opened w))
(** [forget], the done callback of a task. *)
| s_forget k x result :
    tasks w !! k = Some x → t_phase x = TaskDone result →
    local_tasks w !! (t_proc x, t_sid x) = Some k →
    step w (World (now w) (server w) (tasks w) (delete (t_proc x, t_sid x) (local_tasks w))
              (stages w) (requests w) (callbacks w) (late w) (used w) (opened w))
(** [close_session_runtime] *)
| s_closing p :
    step w (World (now w) (server w) (tasks w) (local_tasks w) (<[p := Closing]> (stages w))
              (requests w) (callbacks w) (late w) (used w) (opened w))
| s_cancel i k x p l : draws i w →
    tasks w !! k = Some x → is_Some (stages w !! t_proc x) → cancelled i x = (p, l) →
    step w (World (now w) (server w) (<[k := at_phase p x]> (tasks w)) (local_tasks w) (stages w)
              (requests w) (callbacks w) (l ++ late w) (used' i w) (opened w))
| s_closed p :
    is_Some (stages w !! p) →
    step w (World (now w) (server w) (tasks w)
              (filter (λ kv, kv.1.1 ≠ p) (local_tasks w)) (<[p := Closed]> (stages w))
              (requests w) (callbacks w) (late w) (used w) (opened w))
(** A lost command reaches the server. *)
| s_late c l1 l2 :
    late w = l1 ++ c :: l2 →
    step w (World (now w) (exec session_ttl (now w) c (server w)) (tasks w) (local_tasks w)
              (stages w) (requests w) (callbacks w) (l1 ++ l2) (used w) (opened w)).

Definition empty_world : world := World 0 (Valkey ∅ ∅ ∅) [] ∅ ∅ [] [] [] ∅ ∅.
Definition reachable (w : world) : Prop := rtc step empty_world w.
End Session.

End Session.
