(* ===== verification/SessionInv.v ===== *)
(** Invariants of the session machine: whose a session is, what a stale read may
    delete, and who owns the refresh lock. *)

From Stdlib Require Import Ascii.
From S2P Require Import Prelude Text Dict Json Oidc Session.
Import Oidc Session.

Local Open Scope Z_scope.

Module SessionInv.

(** The same person and the same CSRF token. *)
Definition same (r0 r : session) : Prop :=
  sub (claims r0) = sub (claims r) ∧ iss (claims r0) = iss (claims r) ∧ csrf r0 = csrf r.

Lemma same_refl r : same r r.
Proof. done. Qed.

Section Inv.
Context (isprintable has_space : string → bool).
Context (encrypt : N → payload → string) (decrypt : string → option payload).
Context (issuer audience client_id : string) (session_ttl : Z).

Notation unpack := (unpack_session decrypt).
Notation usable_packed := (usable_packed decrypt).
Notation exec := (exec session_ttl).
Notation submit := (submit session_ttl).
Notation task_turn := (task_turn isprintable has_space encrypt decrypt issuer audience session_ttl).
Notation request_turn := (request_turn decrypt session_ttl).
Notation callback_turn := (callback_turn isprintable has_space encrypt decrypt issuer audience
  client_id session_ttl).
Notation step := (step isprintable has_space encrypt decrypt issuer audience client_id session_ttl).

(** ** Identity *)

(** [m] is what each session was opened with. *)
Definition of_session (m : gmap string session) (sid : string) (r : session) : Prop :=
  ∃ r0, m !! sid = Some r0 ∧ same r0 r.
Definition packed_ok (m : gmap string session) (sid packed : string) : Prop :=
  ∃ r, unpack (Some packed) = Some r ∧ of_session m sid r.

(** A value that was read under the key of a session. *)
Definition read_ok (m : gmap string session) (sid : string) (v : option string) : Prop :=
  match v with Some packed => packed_ok m sid packed | None => True end.

Definition sessions_ok (m : gmap string session) (s : valkey) : Prop :=
  ∀ sid e, sessions s !! sid = Some e → packed_ok m sid (value e).

Definition task_ok (m : gmap string session) (x : task) : Prop :=
  of_session m (t_sid x) (t_record x) ∧
  match t_phase x with
  | Storing _ _ r packed => of_session m (t_sid x) r ∧ unpack (Some packed) = Some r
  | Stored _ _ r | Releasing _ (Refreshed r) | Released (Refreshed r) | TaskDone (Refreshed r) =>
      of_session m (t_sid x) r
  | Polled _ v | Rechecked v => read_ok m (t_sid x) v
  | _ => True
  end.

(** What an authorized request knows of its session. *)
Definition granted (m : gmap string session) (q : request) (c : AuthClaims) : Prop :=
  ∃ r0, m !! q_cookie q = Some r0 ∧ sub (claims r0) = sub c ∧ iss (claims r0) = iss c ∧
    (method_of (q_kind q) ∉ SAFE_METHODS → q_supplied q = csrf r0).
Definition csrf_ok (m : gmap string session) (q : request) : Prop :=
  ∃ r0, m !! q_cookie q = Some r0 ∧ q_supplied q = csrf r0.

Definition request_ok (m : gmap string session) (ts : list task) (q : request) : Prop :=
  match q_phase q with
  | Read v | Reread _ v | RereadLast v => read_ok m (q_cookie q) v
  | Awaiting _ k _ => ∃ x, ts !! k = Some x ∧ t_sid x = q_cookie q
  | Showing c | Answered (Granted c) => granted m q c
  | Answered (Profile c token) =>
      granted m q c ∧
      (token = EmptyString ∨ ∃ r0, m !! q_cookie q = Some r0 ∧ token = csrf r0)
  | LoggingOut | Answered LoggedOut => csrf_ok m q
  | _ => True
  end.

Definition callback_ok (m : gmap string session) (c : callback) : Prop :=
  match c_phase c with
  | Opening sid r packed => m !! sid = Some r ∧ unpack (Some packed) = Some r
  | _ => True
  end.

Definition late_ok (m : gmap string session) (c : command) : Prop :=
  match c with SetSession sid packed => packed_ok m sid packed | _ => True end.

Definition local_ok (ts : list task) (l : gmap (nat * string) nat) : Prop :=
  ∀ p sid k, l !! (p, sid) = Some k → ∃ x, ts !! k = Some x ∧ t_sid x = sid ∧ t_proc x = p.

Record identity_inv (w : world) : Prop := {
  ii_sessions : sessions_ok (opened w) (server w);
  ii_tasks : ∀ k x, tasks w !! k = Some x → task_ok (opened w) x;
  ii_requests : ∀ k q, requests w !! k = Some q → request_ok (opened w) (tasks w) q;
  ii_callbacks : ∀ k c, callbacks w !! k = Some c → callback_ok (opened w) c;
  ii_late : ∀ c, c ∈ late w → late_ok (opened w) c;
  ii_local : local_ok (tasks w) (local_tasks w);
  ii_used : ∀ sid r, opened w !! sid = Some r → sid ∈ used w;
}.

(** ** Openings only add *)

Lemma of_session_mono m m' sid r : m ⊆ m' → of_session m sid r → of_session m' sid r.
Proof. intros Hm (r0 & H & ?). exists r0. split; [by eapply lookup_weaken|done]. Qed.
Lemma packed_ok_mono m m' sid p : m ⊆ m' → packed_ok m sid p → packed_ok m' sid p.
Proof. intros Hm (r & ? & ?). exists r. split; [done|by eapply of_session_mono]. Qed.
Lemma granted_mono m m' q c : m ⊆ m' → granted m q c → granted m' q c.
Proof. intros Hm (r0 & H & ?). exists r0. split; [by eapply lookup_weaken|done]. Qed.
Lemma csrf_ok_mono m m' q : m ⊆ m' → csrf_ok m q → csrf_ok m' q.
Proof. intros Hm (r0 & H & ?). exists r0. split; [by eapply lookup_weaken|done]. Qed.

Lemma read_ok_mono m m' sid v : m ⊆ m' → read_ok m sid v → read_ok m' sid v.
Proof. intros Hm. destruct v; [by apply packed_ok_mono|done]. Qed.

Create HintDb session discriminated.
#[local] Hint Resolve of_session_mono packed_ok_mono read_ok_mono granted_mono csrf_ok_mono lookup_weaken : session.

Lemma task_ok_mono m m' x : m ⊆ m' → task_ok m x → task_ok m' x.
Proof.
  intros Hm [H1 H2]. split; [eauto with session|].
  destruct (t_phase x) as [| | | | | | |? []|[]| | | | | | |[]]; try done; try (destruct H2; split); eauto with session.
Qed.
Lemma request_ok_mono m m' ts q : m ⊆ m' → request_ok m ts q → request_ok m' ts q.
Proof.
  intros Hm. unfold request_ok.
  destruct (q_phase q) as [| | | | | | | | | |[]]; try done; eauto with session.
  intros [H1 [->|(r0 & H & ->)]]; (split; [by eapply granted_mono|]); eauto with session.
Qed.
Lemma callback_ok_mono m m' c : m ⊆ m' → callback_ok m c → callback_ok m' c.
Proof.
  intros Hm. unfold callback_ok. destruct (c_phase c); try done. intros []; split; eauto with session.
Qed.
Lemma late_ok_mono m m' c : m ⊆ m' → late_ok m c → late_ok m' c.
Proof. intros Hm. destruct c; cbn; eauto with session. Qed.

(** Tasks keep their session, whatever phase they reach. *)
Lemma request_ok_tasks m ts ts' q :
  (∀ k x, ts !! k = Some x → ∃ x', ts' !! k = Some x' ∧ t_sid x' = t_sid x) →
  request_ok m ts q → request_ok m ts' q.
Proof.
  intros Hts. unfold request_ok. destruct (q_phase q); try done.
  intros (x & Hx & <-). by apply Hts in Hx.
Qed.

(** ** The store *)

Lemma del_if_subseteq t k v m : del_if t k v m ⊆ m.
Proof. unfold del_if. case_bool_decide; [apply delete_subseteq|done]. Qed.

Lemma exec_ok m t c s : late_ok m c → sessions_ok m s → sessions_ok m (exec t c s).
Proof.
  intros Hc Hs sid e. destruct c; cbn; try (by apply Hs).
  - intros [[<- <-]|[_ H]]%lookup_insert_Some; [exact Hc|by eapply Hs].
  - intros [_ H]%lookup_delete_Some. by eapply Hs.
  - intros H. eapply Hs, lookup_weaken; [exact H|apply del_if_subseteq].
Qed.

Lemma submit_ok m i t c s s' l :
  submit i t c s = (s', l) → late_ok m c → sessions_ok m s →
  sessions_ok m s' ∧ Forall (late_ok m) l.
Proof.
  unfold Session.submit. destruct (answered i); intros [= <- <-] Hc Hs.
  - split; [by apply exec_ok|constructor].
  - split; [done|by constructor].
Qed.

Lemma get_Some t m k v : get t m k = Some v → ∃ e, m !! k = Some e ∧ value e = v ∧ t < expires e.
Proof.
  unfold get. destruct (m !! k) as [e|]; [|done]. destruct (Z.ltb_spec t (expires e)); [|done].
  intros [= <-]. by exists e.
Qed.

Lemma get_ok m t s sid : sessions_ok m s → read_ok m sid (get t (sessions s) sid).
Proof.
  intros Hs. destruct (get t (sessions s) sid) as [v|] eqn:Hg; [|done]. cbn.
  apply get_Some in Hg as (e & He & <- & _). by apply Hs.
Qed.

Lemma usable_ok m t sid v r : read_ok m sid v → usable_packed t v = Some r → of_session m sid r.
Proof.
  unfold Session.usable_packed. destruct v as [v|]; [|done]. intros (r' & -> & Hr).
  destruct (usable t r'); [|done]. by intros [= <-].
Qed.

Context (unpack_pack : ∀ n p, _unpack decrypt (Some (encrypt n p)) = Some p).

Lemma unpack_session_pack n r : unpack (Some (encrypt n (PSession r))) = Some r.
Proof. unfold unpack_session. by rewrite unpack_pack. Qed.

(** ** The turns *)

Lemma continuous_session m sid r c new :
  oidc_identity_is_continuous (claims r) c = true → of_session m sid r →
  of_session m sid (Sess c new (csrf r)).
Proof.
  intros H (r0 & H0 & Hs & Hi & Hc). unfold oidc_identity_is_continuous in H. bool_prop.
  exists r0. split; [done|]. unfold same. cbn. split_and!; congruence.
Qed.

Lemma task_turn_ok m i t s x s' p l :
  task_turn i t s x = (s', p, l) → sessions_ok m s → task_ok m x →
  sessions_ok m s' ∧ task_ok m (at_phase p x) ∧ Forall (late_ok m) l.
Proof.
  intros H Hs [Hr Hp]. unfold Session.task_turn, waiting in H.
  destruct (t_phase x) eqn:Ep.
  all: repeat case_match; simplify_eq; unfold task_ok; cbn; rewrite ?Ep.
  all: try (split_and!; [try done; by apply exec_ok|done|try done|by repeat constructor]).
  all: try (by eapply usable_ok); try (by apply get_ok).
  all: try (match goal with H : submit _ _ _ _ = _ |- _ =>
    eapply (submit_ok m) in H as [? ?]; [|try done; destruct Hp; by eexists|done] end;
    by destruct_and?; split_and!).
  - split_and!; [done|done| |by apply unpack_session_pack|constructor].
    by eapply continuous_session.
  - destruct Hp as [Hr' Hu]. split_and!; [done..|]. constructor; [|done]. by exists r.
Qed.

Lemma cancelled_ok m i x p l :
  cancelled i x = (p, l) → task_ok m x → task_ok m (at_phase p x) ∧ Forall (late_ok m) l.
Proof.
  intros H [Hr Hp]. unfold cancelled in H. unfold task_ok.
  destruct (t_phase x) eqn:Ep; simplify_eq; cbn;
    (split; [done|]); repeat constructor. destruct Hp. by eexists.
Qed.

Lemma authorize_ok m ts r q :
  of_session m (q_cookie q) r → request_ok m ts (moved (authorize r q) q).
Proof.
  intros (r0 & H0 & Hs & Hi & Hc). unfold authorize, request_ok.
  assert (Hg : (method_of (q_kind q) ∉ SAFE_METHODS → q_supplied q = csrf r) →
    granted m q (claims r)).
  { intros Hx. exists r0. split_and!; try done. intros Hm. rewrite (Hx Hm). by symmetry. }
  case_bool_decide as Hm.
  { assert (granted m q (claims r)) by (apply Hg; done). by destruct (q_kind q). }
  destruct (negb (all_chars _ _)); [done|].
  case_bool_decide as Hsup; [|done]. cbn.
  assert (granted m q (claims r)) by by apply Hg.
  destruct (q_kind q); cbn; try done. exists r0. split; [done|]. cbn. congruence.
Qed.

Lemma refresh_ok m q packed r w ts lt p :
  _refresh q packed r w = (ts, lt, p) → of_session m (q_cookie q) r →
  (∀ k x, tasks w !! k = Some x → task_ok m x) → local_ok (tasks w) (local_tasks w) →
  (∀ k x, ts !! k = Some x → task_ok m x) ∧ local_ok ts lt ∧ request_ok m ts (moved p q) ∧
  tasks w `prefix_of` ts.
Proof.
  intros H Hr Ht Hl. unfold _refresh in H.
  destruct (stages w !! q_proc q); [by simplify_eq|].
  destruct (local_tasks w !! _) as [k|] eqn:Hk; simplify_eq.
  { split_and!; [done..| |done]. destruct (Hl _ _ _ Hk) as (x & Hx & Hsid & _). by exists x. }
  split_and!.
  - intros k x [[_ Hx]|[_ <-]]%lookup_snoc_Some; [by eapply Ht|]. by split.
  - intros p' sid k [[[= <- <-] <-]|[_ Hk']]%lookup_insert_Some.
    + eexists. split; [apply lookup_snoc_Some; by right|done].
    + destruct (Hl _ _ _ Hk') as (x & Hx & ?). exists x. split; [|done]. by apply lookup_app_l_Some.
  - eexists. split; [apply lookup_snoc_Some; by right|done].
  - by eexists.
Qed.

Lemma request_turn_ok m i q w s ts lt p l :
  request_turn i q w = (s, ts, lt, p, l) →
  sessions_ok m (server w) → (∀ k x, tasks w !! k = Some x → task_ok m x) →
  local_ok (tasks w) (local_tasks w) → request_ok m (tasks w) q →
  sessions_ok m s ∧ (∀ k x, ts !! k = Some x → task_ok m x) ∧ local_ok ts lt ∧
  request_ok m ts (moved p q) ∧ Forall (late_ok m) l ∧ tasks w `prefix_of` ts.
Proof.
  intros H Hs Ht Hl Hq. unfold Session.request_turn, session_status, session_logout in H. cbv zeta in H.
  assert (Hstay : ∀ p', request_ok m (tasks w) (moved p' q) → (server w, tasks w, local_tasks w, p', []) = (s, ts, lt, p, l) →
    sessions_ok m s ∧ (∀ k x, ts !! k = Some x → task_ok m x) ∧ local_ok ts lt ∧
    request_ok m ts (moved p q) ∧ Forall (late_ok m) l ∧ tasks w `prefix_of` ts).
  { intros p' Hp' E. simplify_eq. split_and!; try done; constructor. }
  assert (Hread : ∀ v r, read_ok m (q_cookie q) v → usable_packed (now w) v = Some r →
    request_ok m (tasks w) (moved (authorize r q) q)).
  { intros v r Hv Hr. apply authorize_ok. by eapply usable_ok. }
  assert (Hget : read_ok m (q_cookie q) (get (now w) (sessions (server w)) (q_cookie q)))
    by by apply get_ok.
  unfold request_ok in Hq.
  destruct (q_phase q) as [|v|packed k dl|packed|packed v|packed| |v|c| |a] eqn:Eq.
  - case_bool_decide; [by eapply Hstay; [|exact H]|].
    destruct (negb (OPAQUE_RE _)); [by eapply Hstay; [|exact H]|].
    destruct (negb (answered i)); by eapply Hstay; [|exact H].
  - destruct (negb (answered i)); [by eapply Hstay; [|exact H]|].
    destruct v as [packed'|]; [|by eapply Hstay; [|exact H]].
    destruct Hq as (r & Hr & Hof). rewrite Hr in H.
    destruct (usable _ _); [eapply Hstay; [by eapply authorize_ok|exact H]|].
    destruct (_refresh q packed' r w) as [[ts' lt'] p'] eqn:Hf. simplify_eq.
    eapply refresh_ok in Hf as (? & ? & ? & ?); [|done..]. split_and!; try done.
  - destruct (_ && _); [by eapply Hstay; [|exact H]|].
    destruct Hq as (x & Hx & Hsid).
    rewrite Hx in H. cbn in H. destruct (Ht k x Hx) as [_ Hp].
    destruct (t_phase x) as [| | | | | | | | | | | | | | |[]]; try (by eapply Hstay; [|exact H]);
      try (eapply Hstay; [|rewrite <- Eq in H; exact H]; unfold request_ok; cbn; rewrite Eq; by exists x).
    eapply Hstay; [|exact H]. apply authorize_ok. by rewrite <- Hsid.
  - by destruct (answered i); (eapply Hstay; [|exact H]).
  - destruct (answered i); [|by eapply Hstay; [|exact H]]. cbn in H.
destruct (usable_packed _ _) eqn:Hu; (eapply Hstay; [|exact H]); [by eapply (Hread v)|done].
  - destruct (submit _ _ _ _) as [s' l'] eqn:Hsub. simplify_eq.
    eapply (submit_ok m) in Hsub as [? ?]; [|done..]. split_and!; try done.
    by repeat case_match.
  - by destruct (answered i); (eapply Hstay; [|exact H]).
  - destruct (answered i); [|by eapply Hstay; [|exact H]]. cbn in H.
    destruct (usable_packed _ _) eqn:Hu; (eapply Hstay; [|exact H]); [by eapply (Hread v)|done].
  - case_bool_decide; [by eapply Hstay; [|exact H]|].
    destruct (answered i); [|by eapply Hstay; [|exact H]]. cbn in H.
    eapply Hstay; [|exact H]. split; [done|].
    destruct (get _ _ _) as [v|] eqn:Hg; [|by left].
    apply get_Some in Hg as (e & He & <- & _). destruct (Hs _ _ He) as (r & -> & r0 & Hr0 & _ & _ & Hc).
    right. exists r0. split; [done|congruence].
  - case_bool_decide; [by eapply Hstay; [|exact H]|].
    destruct (submit _ _ _ _) as [s' l'] eqn:Hsub. simplify_eq.
    eapply (submit_ok m) in Hsub as [? ?]; [|done..]. split_and!; try done.
    by case_match.
  - eapply Hstay; [|exact H]. exact Hq.
Qed.

Lemma sessions_ok_mono m m' s : m ⊆ m' → sessions_ok m s → sessions_ok m' s.
Proof. intros Hm Hs sid e He. eapply packed_ok_mono; [done|by eapply Hs]. Qed.

Lemma callback_turn_ok m i t s c s' c' l :
  callback_turn i t s c = (s', c', l) → m !! drawn i = None →
  sessions_ok m s → callback_ok m c →
  m ⊆ opening (c_phase c) (c_phase c') m ∧
  sessions_ok (opening (c_phase c) (c_phase c') m) s' ∧
  callback_ok (opening (c_phase c) (c_phase c') m) c' ∧
  Forall (late_ok (opening (c_phase c) (c_phase c') m)) l ∧
  (∀ sid r, opening (c_phase c) (c_phase c') m !! sid = Some r → m !! sid = Some r ∨ sid = drawn i).
Proof.
  intros H Hm Hs Hc. unfold Session.callback_turn in H. destruct c as [code state cf ph]; cbn in H, Hc |- *.
  destruct ph as [|f|sid r packed|]; cbn in H, Hc |- *.
  - destruct (_ || _ || _).
    { simplify_eq. cbn. split_and!; try done; by intros; left. }
    destruct (submit _ _ _ _) as [s1 l1] eqn:Hsub. eapply (submit_ok m) in Hsub as [? ?]; [|done..].
    destruct (answered i); cbn in H; [destruct (unpack_flow _ _)|]; simplify_eq; cbn;
      (split_and!; try done; by intros; left).
  - destruct (exchanged _ _ _ _ _ _ _) as [r|code']; simplify_eq; cbn; [|split_and!; try done; by intros; left].
    assert (m ⊆ <[drawn i := r]> m) by by apply insert_subseteq.
    split_and!; [done|by eapply sessions_ok_mono| | |constructor|].
    + by rewrite lookup_insert_eq.
    + by rewrite <- unpack_session_pack with (n := iv i).
    + intros sid r' [[<- _]|[_ ?]]%lookup_insert_Some; [by right|by left].
  - unfold callback_ok in Hc. cbn in Hc. destruct Hc as [Hsid Hu].
    destruct (submit _ _ _ _) as [s1 l1] eqn:Hsub. eapply (submit_ok m) in Hsub as [? ?]; [|..|done].
    + simplify_eq. cbn. split_and!; try done. by intros; left.
    + exists r. split; [done|]. exists r. by split; [|apply same_refl].
  - simplify_eq. cbn. split_and!; try done; by intros; left.
Qed.

(** A task that moves keeps its process and session. *)
Lemma kept_tasks p x k (ts : list task) k' y :
  ts !! k = Some x → ts !! k' = Some y →
  ∃ y', <[k := at_phase p x]> ts !! k' = Some y' ∧ t_sid y' = t_sid y ∧ t_proc y' = t_proc y.
Proof.
  intros Hx Hy. destruct (decide (k = k')) as [<-|Hne].
  - simplify_eq. exists (at_phase p x). split; [|done].
    apply list_lookup_insert_eq. by eapply lookup_lt_Some.
  - exists y. by rewrite list_lookup_insert_ne.
Qed.
Lemma kept_local p x k (ts : list task) l :
  ts !! k = Some x → local_ok ts l → local_ok (<[k := at_phase p x]> ts) l.
Proof.
  intros Hx Hl p' sid k' Hk'. destruct (Hl _ _ _ Hk') as (y & Hy & <- & <-).
  destruct (kept_tasks p x k ts k' y Hx Hy) as (y' & ? & ? & ?). by exists y'.
Qed.

(** Every step keeps the identities, and the openings. *)
Lemma identity_step w w' : identity_inv w → step w w' → identity_inv w' ∧ opened w ⊆ opened w'.
Proof.
  intros [Is It Iq Ic Il Io Iu] H.
  destruct H as [dt Hdt|i n v s l Hd Hsub|code state|i k c s c' l Hd Hc Ht|p ck kd sup
    |i k q s ts lt p l Hd Hq Ht|i k x s p l Hd Hx Ht|k x res Hx Hp Hl|p|i k x p l Hd Hx Hst Hcan
    |p Hst|c l1 l2 Hlate].
  all: cbn [opened].
  - by split.
  - split; [|done]. eapply (submit_ok (opened w)) in Hsub as [? Hl]; [|done..].
    split; cbn; try done.
    + intros c [Hin|Hin]%elem_of_app; [by eapply Forall_forall|by apply Il].
    + intros sid r Hr. unfold used'. set_solver.
  - split; [|done]. split; cbn; try done.
    intros k c [[_ Hx]|[_ <-]]%lookup_snoc_Some; [by eapply Ic|done].
  - assert (Hfresh : opened w !! drawn i = None).
    { apply eq_None_not_Some. intros [r Hr]. apply (proj1 Hd). by eapply Iu. }
    apply (callback_turn_ok (opened w)) in Ht as (Hm & Hs' & Hc' & Hl & Hnew);
      [|done|done|by eapply Ic]. split; [|done]. split; cbn.
    + done.
    + intros k' x Hx. eapply task_ok_mono; [done|by eapply It].
    + intros k' q Hq. eapply request_ok_mono; [done|by eapply Iq].
    + intros k' y [(<- & <- & _)|[_ Hy]]%list_lookup_insert_Some; [done|].
      eapply callback_ok_mono; [done|by eapply Ic].
    + intros y [Hin|Hin]%elem_of_app; [by eapply Forall_forall|].
      eapply late_ok_mono; [done|by apply Il].
    + done.
    + intros sid r [Hr| ->]%Hnew; unfold used'; [apply Iu in Hr|]; set_solver.
  - split; [|done]. split; cbn; try done.
    intros k q [[_ Hx]|[_ <-]]%lookup_snoc_Some; [by eapply Iq|done].
  - apply (request_turn_ok (opened w)) in Ht as (Hs' & Hts & Hlt & Hq' & Hl & Hpre);
      [|done|done|done|by eapply Iq]. split; [|done]. split; cbn; try done.
    + intros k' y [(<- & <- & _)|[_ Hy]]%list_lookup_insert_Some; [done|].
      eapply request_ok_tasks; [|by eapply Iq]. intros k0 x Hx. exists x.
      split; [by eapply prefix_lookup_Some|done].
    + intros y [Hin|Hin]%elem_of_app; [by eapply Forall_forall|by apply Il].
    + intros sid r Hr. unfold used'. apply Iu in Hr. set_solver.
  - apply (task_turn_ok (opened w)) in Ht as (Hs' & Hx' & Hl); [|done|by eapply It].
    split; [|done]. split; cbn; try done.
    + intros k' y [(<- & <- & _)|[_ Hy]]%list_lookup_insert_Some; [done|by eapply It].
    + intros k' y Hy. eapply request_ok_tasks; [|by eapply Iq]. intros k0 y0 Hy0.
      destruct (kept_tasks p x k _ k0 y0 Hx Hy0) as (y' & ? & ? & _). by exists y'.
    + intros y [Hin|Hin]%elem_of_app; [by eapply Forall_forall|by apply Il].
    + by apply kept_local.
    + intros sid r Hr. unfold used'. apply Iu in Hr. set_solver.
  - split; [|done]. split; cbn; try done.
    intros p sid k' [_ Hk']%lookup_delete_Some. by apply Io.
  - by split.
  - apply (cancelled_ok (opened w)) in Hcan as [Hx' Hl]; [|by eapply It].
    split; [|done]. split; cbn; try done.
    + intros k' y [(<- & <- & _)|[_ Hy]]%list_lookup_insert_Some; [done|by eapply It].
    + intros k' y Hy. eapply request_ok_tasks; [|by eapply Iq]. intros k0 y0 Hy0.
      destruct (kept_tasks p x k _ k0 y0 Hx Hy0) as (y' & ? & ? & _). by exists y'.
    + intros y [Hin|Hin]%elem_of_app; [by eapply Forall_forall|by apply Il].
    + by apply kept_local.
    + intros sid r Hr. unfold used'. apply Iu in Hr. set_solver.
  - split; [|done]. split; cbn; try done.
    intros p' sid k' [Hk' _]%map_lookup_filter_Some. by apply Io.
  - assert (Hin : ∀ y, y ∈ l1 ++ l2 → y ∈ late w) by (rewrite Hlate; set_solver).
    split; [|done]. split; cbn; try done.
    + apply exec_ok; [|done]. apply Il. rewrite Hlate. set_solver.
    + intros y Hy. by apply Il, Hin.
Qed.

Lemma identity_reachable w w' :
  identity_inv w → rtc step w w' → identity_inv w' ∧ opened w ⊆ opened w'.
Proof.
  intros Hi. induction 1 as [|w w1 w' Hs _ IH]; [by split|].
  apply identity_step in Hs as [Hi1 Hm]; [|done]. apply IH in Hi1 as [? ?].
  split; [done|by etransitivity].
Qed.

Lemma identity_empty : identity_inv empty_world.
Proof.
  split; cbn; try done; try (by intros ?? ?%lookup_nil); try (by intros ?? ?%lookup_empty_Some);
    try (by intros ? ?%elem_of_nil).
Qed.

(** ** Stale reads *)

(** A read that may be deleted was not usable when it was read, and so never again. *)
Definition stale (t : Z) (packed : string) : Prop :=
  ∃ r, unpack (Some packed) = Some r ∧ usable t r = false.

Lemma stale_later t t' packed : t <= t' → stale t packed → stale t' packed.
Proof.
  intros Ht (r & Hr & Hu). exists r. split; [done|]. unfold usable in *.
  apply Z.ltb_ge in Hu. apply Z.ltb_ge. pose proof (Z.div_le_mono t t' 1000). lia.
Qed.

Definition request_stale (t : Z) (q : request) : Prop :=
  match q_phase q with
  | Awaiting packed _ _ | Rereading packed | Reread packed _ | Deleting packed => stale t packed
  | _ => True
  end.
Definition late_stale (t : Z) (c : command) : Prop :=
  match c with DelSessionIf _ packed => stale t packed | _ => True end.

Record stale_inv (w : world) : Prop := {
  si_requests : ∀ k q, requests w !! k = Some q → request_stale (now w) q;
  si_late : ∀ c, c ∈ late w → late_stale (now w) c;
}.

Lemma request_stale_later t t' q : t <= t' → request_stale t q → request_stale t' q.
Proof. intros Ht. unfold request_stale. destruct (q_phase q); try done; by apply stale_later. Qed.
Lemma late_stale_later t t' c : t <= t' → late_stale t c → late_stale t' c.
Proof. intros Ht. destruct c; try done. by apply stale_later. Qed.

Lemma authorize_stale t r q : request_stale t (moved (authorize r q) q).
Proof. unfold authorize, request_stale. by repeat case_match. Qed.

Lemma submit_late i t c s s' l : submit i t c s = (s', l) → l = [] ∨ l = [c].
Proof. unfold Session.submit. destruct (answered i); intros [= _ <-]; auto. Qed.

Lemma task_turn_late i t s x s' p l c :
  task_turn i t s x = (s', p, l) → c ∈ l → ∀ t', late_stale t' c.
Proof.
  intros H Hc t'. unfold Session.task_turn, waiting in H.
  assert (Hl : l = [] ∨ (∃ a b, l = [SetSession a b]) ∨ (∃ a b, l = [DelLockIf a b]) ∨
               ∃ a b, l = [SetLockNx a b]).
  { repeat case_match; simplify_eq; auto;
      try match goal with H : submit _ _ _ _ = _ |- _ => apply submit_late in H as [->| ->] end;
      eauto 10. }
  destruct Hl as [->|[(a & b & ->)|[(a & b & ->)|(a & b & ->)]]];
    [by apply elem_of_nil in Hc|apply list_elem_of_singleton in Hc; by subst..].
Qed.

Lemma cancelled_late i x p l c : cancelled i x = (p, l) → c ∈ l → ∀ t, late_stale t c.
Proof.
  intros H Hc t. unfold cancelled in H. destruct (t_phase x); simplify_eq;
    first [by apply elem_of_nil in Hc|apply list_elem_of_singleton in Hc; by subst].
Qed.

Lemma callback_turn_late i t s c s' c' l d :
  callback_turn i t s c = (s', c', l) → d ∈ l → ∀ t', late_stale t' d.
Proof.
  intros H Hd t'. unfold Session.callback_turn in H.
  assert (Hl : l = [] ∨ (∃ a b, l = [SetSession a b]) ∨ ∃ a, l = [GetDelFlow a]).
  { repeat case_match; simplify_eq; auto;
      try match goal with H : submit _ _ _ _ = _ |- _ => apply submit_late in H as [->| ->] end;
      eauto 10. }
  destruct Hl as [->|[(a & b & ->)|(a & ->)]];
    [by apply elem_of_nil in Hd|apply list_elem_of_singleton in Hd; by subst..].
Qed.

Lemma request_turn_stale i q w s ts lt p l :
  request_turn i q w = (s, ts, lt, p, l) → request_stale (now w) q →
  request_stale (now w) (moved p q) ∧ ∀ c, c ∈ l → late_stale (now w) c.
Proof.
  intros H Hq. unfold Session.request_turn, session_status, session_logout in H. cbv zeta in H.
  assert (Hnil : ∀ c, c ∈ @nil command → late_stale (now w) c) by by intros c ?%elem_of_nil.
  unfold request_stale in Hq.
  destruct (q_phase q) as [|v|packed k dl|packed|packed v|packed| |v|c| |a] eqn:Eq.
  - repeat (case_match; simplify_eq; try (by split)).
  - repeat (case_match; simplify_eq; try (by split)); try (split; [apply authorize_stale|done]).
    unfold _refresh in *. repeat case_match; simplify_eq; (split; [|done]); try done;
      cbn; (eexists; split; [eassumption|]; done).
  - repeat (case_match; simplify_eq; try (by split)); try (split; [apply authorize_stale|done]);
      (split; [|done]); unfold request_stale; cbn; by rewrite ?Eq.
  - repeat (case_match; simplify_eq; try (by split)).
  - repeat (case_match; simplify_eq; try (by split)); split; try done; apply authorize_stale.
  - destruct (submit _ _ _ _) as [s' l'] eqn:Hsub. simplify_eq. split.
    + unfold request_stale. by repeat case_match.
    + intros c Hc. apply submit_late in Hsub as [->| ->]; [by apply Hnil|].
      by apply list_elem_of_singleton in Hc as ->.
  - repeat (case_match; simplify_eq; try (by split)).
  - repeat (case_match; simplify_eq; try (by split)); split; try done; apply authorize_stale.
  - repeat (case_match; simplify_eq; try (by split)).
  - case_bool_decide; [by simplify_eq|].
    destruct (submit _ _ _ _) as [s' l'] eqn:Hsub. simplify_eq. split.
    + by destruct (answered i).
    + intros c Hc. apply submit_late in Hsub as [->| ->]; [by apply Hnil|].
      by apply list_elem_of_singleton in Hc as ->.
  - simplify_eq. split; [|done]. unfold request_stale. cbn. by rewrite ?Eq.
Qed.

Lemma stale_step w w' : stale_inv w → step w w' → stale_inv w'.
Proof.
  intros [Iq Il] H.
  destruct H as [dt Hdt|i n v s l Hd Hsub|code state|i k c s c' l Hd Hc Ht|p ck kd sup
    |i k q s ts lt p l Hd Hq Ht|i k x s p l Hd Hx Ht|k x res Hx Hp Hl|p|i k x p l Hd Hx Hst Hcan
    |p Hst|c l1 l2 Hlate]; split; cbn; try done.
  - intros k q Hq. eapply request_stale_later; [|by eapply Iq]. lia.
  - intros c Hc. eapply late_stale_later; [|by apply Il]. lia.
  - intros c [Hc|Hc]%elem_of_app; [|by apply Il].
    apply submit_late in Hsub as [->| ->]; [by apply elem_of_nil in Hc|].
    by apply list_elem_of_singleton in Hc as ->.
  - intros d [Hin|Hin]%elem_of_app; [by eapply callback_turn_late|by apply Il].
  - intros k q [[_ Hq]|[_ <-]]%lookup_snoc_Some; [by eapply Iq|done].
  - intros k' q' [(<- & <- & _)|[_ Hq']]%list_lookup_insert_Some; [|by eapply Iq].
    by apply request_turn_stale in Ht as [? _]; [|by eapply Iq].
  - intros c [Hc|Hc]%elem_of_app; [|by apply Il].
    apply request_turn_stale in Ht as [_ Hl]; [by apply Hl|by eapply Iq].
  - intros c [Hc|Hc]%elem_of_app; [by eapply task_turn_late|by apply Il].
  - intros c [Hc|Hc]%elem_of_app; [by eapply cancelled_late|by apply Il].
  - intros c' Hc'. apply Il. rewrite Hlate. set_solver.
Qed.

Lemma stale_reachable w w' : stale_inv w → rtc step w w' → stale_inv w'.
Proof. intros Hi. induction 1 as [|w w1 w' Hs _ IH]; [done|]. apply IH. by eapply stale_step. Qed.

Lemma stale_empty : stale_inv empty_world.
Proof. split; cbn; [done|]. by intros ? ?%elem_of_nil. Qed.
End Inv.
End SessionInv.
