(* ===== verification/SessionLock.v ===== *)
(** The refresh lock: every token has one holder, and a holder within its deadline still
    has the lock. *)

From S2P Require Import Prelude Text Dict Json Oidc Session.
Import Oidc Session.

Local Open Scope Z_scope.

Module SessionLock.

(** The lock token of a task that has not given it up yet. *)
Definition token_of (p : task_phase) : option string :=
  match p with
  | Locked token _ | Posting token _ | Verifying token _ _ | Storing token _ _ _
  | Stored token _ _ | Releasing token _ => Some token
  | _ => None
  end.

(** A refresh that exchanges the refresh token, within its deadline. *)
Definition exchanging (t : Z) (x : task) : Prop :=
  match t_phase x with
  | Posting _ deadline | Verifying _ deadline _ | Storing _ deadline _ _ | Stored _ deadline _ =>
      t < deadline
  | _ => False
  end.

(** What a task knows of the lock at time [t]. *)
Definition holds (t : Z) (locks : gmap string entry) (x : task) : Prop :=
  match t_phase x with
  | Locked token a =>
      a <= t ∧ (t < a + REFRESH_LOCK_TTL → locks !! t_sid x = Some (Entry token (a + REFRESH_LOCK_TTL)))
  | Posting token dl | Verifying token dl _ | Storing token dl _ _ | Stored token dl _ =>
      ∃ e, dl < e ∧ (t < e → locks !! t_sid x = Some (Entry token e))
  | _ => True
  end.

Section Lock.
Context (isprintable has_space : string → bool).
Context (encrypt : N → payload → string) (decrypt : string → option payload).
Context (issuer audience client_id : string) (session_ttl : Z).

Notation exec := (exec session_ttl).
Notation submit := (submit session_ttl).
Notation task_turn := (task_turn isprintable has_space encrypt decrypt issuer audience session_ttl).
Notation request_turn := (request_turn decrypt session_ttl).
Notation callback_turn := (callback_turn isprintable has_space encrypt decrypt issuer audience
  client_id session_ttl).
Notation step := (step isprintable has_space encrypt decrypt issuer audience client_id session_ttl).

Record lock_inv (w : world) : Prop := {
  li_used : ∀ k x token, tasks w !! k = Some x → token_of (t_phase x) = Some token → token ∈ used w;
  li_unique : ∀ k k' x x' token, tasks w !! k = Some x → tasks w !! k' = Some x' →
    token_of (t_phase x) = Some token → token_of (t_phase x') = Some token → k = k';
  (** a lost release carries a token its task no longer has *)
  li_late : ∀ sid token k x, DelLockIf sid token ∈ late w → tasks w !! k = Some x →
    token_of (t_phase x) ≠ Some token;
  li_late_used : ∀ sid token, DelLockIf sid token ∈ late w → token ∈ used w;
  li_holds : ∀ k x, tasks w !! k = Some x → holds (now w) (locks (server w)) x;
}.

Lemma holds_later t t' m x : t <= t' → holds t m x → holds t' m x.
Proof.
  intros Ht. unfold holds. destruct (t_phase x); try done.
  - intros [Ha Hl]. split; [lia|]. intros ?. apply Hl. lia.
  - intros (e & He & Hl). exists e. split; [done|]. intros ?. apply Hl. lia.
  - intros (e & He & Hl). exists e. split; [done|]. intros ?. apply Hl. lia.
  - intros (e & He & Hl). exists e. split; [done|]. intros ?. apply Hl. lia.
  - intros (e & He & Hl). exists e. split; [done|]. intros ?. apply Hl. lia.
Qed.

(** The locks a command may remove or replace. *)
Lemma exec_holds t c s x :
  (∀ sid token, c = DelLockIf sid token → token_of (t_phase x) ≠ Some token) →
  holds t (locks s) x → holds t (locks (exec t c s)) x.
Proof.
  intros Hc.
  assert (Hkeep : ∀ token e, token_of (t_phase x) = Some token → t < e →
    locks s !! t_sid x = Some (Entry token e) →
    locks (exec t c s) !! t_sid x = Some (Entry token e)).
  { intros token e Htok He Hl. destruct c; cbn; try done.
    - unfold set_nx. destruct (get t (locks s) sid) eqn:Hg; [done|].
      rewrite lookup_insert_ne; [done|]. intros ->. unfold get in Hg. rewrite Hl in Hg.
      cbn in Hg. destruct (Z.ltb_spec t e); [done|lia].
    - unfold del_if. case_bool_decide as Hg; [|done].
      rewrite lookup_delete_ne; [done|]. intros ->. unfold get in Hg. rewrite Hl in Hg.
      cbn in Hg. destruct (Z.ltb_spec t e); [|lia]. simplify_eq.
      by apply (Hc (t_sid x) token0). }
  unfold holds. destruct (t_phase x) eqn:Ep; try done; cbn in Hkeep.
  - intros [Ha Hl]. split; [done|]. intros Ht. apply Hkeep; [done|lia|auto].
  - intros (e & He & Hl). exists e. split; [done|]. intros Ht. apply Hkeep; auto.
  - intros (e & He & Hl). exists e. split; [done|]. intros Ht. apply Hkeep; auto.
  - intros (e & He & Hl). exists e. split; [done|]. intros Ht. apply Hkeep; auto.
  - intros (e & He & Hl). exists e. split; [done|]. intros Ht. apply Hkeep; auto.
Qed.

(** A turn of a task changes the locks only through its own token. *)
Record lock_turn (i : input) (t : Z) (s s' : valkey) (x : task) (p : task_phase)
    (l : list command) : Prop := {
  lt_store : s' = s ∨ ∃ c, s' = exec t c s ∧
    ∀ sid token, c = DelLockIf sid token → token_of (t_phase x) = Some token ∧ token_of p = None;
  lt_holds : holds t (locks s') (at_phase p x);
  lt_token : token_of p = None ∨ token_of p = token_of (t_phase x) ∨ token_of p = Some (drawn i);
  lt_late : ∀ sid token, DelLockIf sid token ∈ l →
    token_of (t_phase x) = Some token ∧ token_of p = None;
}.

Lemma submit_cases i t c s s' l :
  submit i t c s = (s', l) → s' = exec t c s ∧ l = [] ∨ s' = s ∧ l = [c].
Proof. unfold Session.submit. destruct (answered i); intros [= <- <-]; auto. Qed.

Ltac same_lock_with Hsame Ep := apply Hsame;
  [unfold holds, at_phase; cbn; try done|cbn; rewrite ?Ep; auto|set_solver|done].

Lemma task_turn_lock i t s s' x p l :
  task_turn i t s x = (s', p, l) → holds t (locks s) x → lock_turn i t s s' x p l.
Proof.
  intros H Hh. unfold Session.task_turn, waiting in H.
  assert (Hsame : holds t (locks s) (at_phase p x) →
    (token_of p = None ∨ token_of p = token_of (t_phase x)) →
    (∀ sid token, DelLockIf sid token ∉ l) → s' = s → lock_turn i t s s' x p l).
  { intros ? Ht Hl ->. split; auto; [tauto|]. intros sid token Hin. by apply Hl in Hin. }
  unfold holds in Hh.
  destruct (t_phase x) as [| |token a|token dl|token dl nr|token dl r packed|token dl r|token res|res
    |dl nb|dl v|dl|dl held| |v|res] eqn:Ep.
  - destruct (negb (answered i)); [simplify_eq; same_lock_with Hsame Ep|].
    destruct (get t (locks s) (t_sid x)) eqn:Hg; [simplify_eq; same_lock_with Hsame Ep|].
    injection H as <- <- <-. split; cbn; [|unfold holds; cbn|auto|by intros ?? ?%elem_of_nil].
    + right. by exists (SetLockNx (t_sid x) (drawn i)).
    + split; [lia|]. intros _. unfold set_nx. by rewrite Hg, lookup_insert_eq.
  - destruct (answered i); simplify_eq; same_lock_with Hsame Ep.
  - destruct (negb (answered i) || (a + SOCKET_TIMEOUT <? t)) eqn:E; [simplify_eq; same_lock_with Hsame Ep|].
    case_bool_decide; simplify_eq; same_lock_with Hsame Ep.
    apply orb_false_iff in E as [_ E]. apply Z.ltb_ge in E. destruct Hh as [Ha Hl].
    exists (a + REFRESH_LOCK_TTL). unfold SOCKET_TIMEOUT, REFRESH_LOCK_TTL, REFRESH_OWNER_TIMEOUT in *.
    split; [lia|done].
  - repeat case_match; simplify_eq; same_lock_with Hsame Ep.
  - repeat case_match; simplify_eq; same_lock_with Hsame Ep.
  - repeat case_match; simplify_eq; try same_lock_with Hsame Ep.
    all: match goal with H : submit _ _ _ _ = _ |- _ => apply submit_cases in H as [[-> ->]|[-> ->]] end;
      try same_lock_with Hsame Ep.
    all: (split; cbn; rewrite ?Ep; [right; by exists (SetSession (t_sid x) packed)|done|by auto|set_solver]).
  - simplify_eq; same_lock_with Hsame Ep.
  - destruct (submit _ _ _ _) as [s1 l1] eqn:Hsub. simplify_eq.
    apply submit_cases in Hsub as [[-> ->]|[-> ->]]; (split; cbn; rewrite ?Ep; [|done|by auto|]).
    + right. exists (DelLockIf (t_sid x) token). split; [done|]. by intros ?? [= <- <-].
    + by intros ?? ?%elem_of_nil.
    + by left.
    + by intros ?? [= -> ->]%list_elem_of_singleton.
  - simplify_eq. same_lock_with Hsame Ep.
  - repeat case_match; simplify_eq; same_lock_with Hsame Ep.
  - repeat case_match; simplify_eq; same_lock_with Hsame Ep.
  - repeat case_match; simplify_eq; same_lock_with Hsame Ep.
  - repeat case_match; simplify_eq; same_lock_with Hsame Ep.
  - repeat case_match; simplify_eq; same_lock_with Hsame Ep.
  - repeat case_match; simplify_eq; same_lock_with Hsame Ep.
  - simplify_eq. same_lock_with Hsame Ep.
Qed.

(** A cancellation: the release that was on the way goes late. *)
Lemma cancelled_lock i t s x p l :
  cancelled i x = (p, l) → lock_turn i t s s x p l.
Proof.
  intros H. unfold cancelled in H.
  destruct (t_phase x) eqn:Ep;
    simplify_eq; (split; cbn; rewrite ?Ep; [by left|done|by auto|]);
    intros ?? Hin; try (by apply elem_of_nil in Hin);
    apply list_elem_of_singleton in Hin; by simplify_eq.
Qed.

(** The world after a task's turn. *)
Lemma lock_task_step w i k x s p l :
  lock_inv w → draws i w → tasks w !! k = Some x →
  lock_turn i (now w) (server w) s x p l →
  lock_inv (World (now w) s (<[k := at_phase p x]> (tasks w)) (local_tasks w) (stages w)
              (requests w) (callbacks w) (l ++ late w) (used' i w) (opened w)).
Proof.
  intros [Iu Iq Il Ilu Ih] [Hd _] Hx [Hs Hh Ht Hl].
  (** the token of a task, before and after *)
  assert (Htok : ∀ j y token, <[k := at_phase p x]> (tasks w) !! j = Some y →
    token_of (t_phase y) = Some token →
    (∃ y', tasks w !! j = Some y' ∧ token_of (t_phase y') = Some token ∧ (j ≠ k → y' = y))
    ∨ j = k ∧ token = drawn i).
  { intros j y token [(<- & <- & _)|[Hne Hy]]%list_lookup_insert_Some Hy'; cbn in *; [|by left; exists y].
    destruct Ht as [Ht|[Ht|Ht]]; [congruence|..].
    - left. exists x. split_and!; [done|congruence|done].
    - right. split; [done|congruence]. }
  assert (Hfresh : ∀ j y, tasks w !! j = Some y → token_of (t_phase y) ≠ Some (drawn i)).
  { intros j y Hy Hy'. by apply Hd, (Iu j y). }
  split; cbn.
  - intros j y token Hy Hy'. unfold used'.
    destruct (Htok _ _ _ Hy Hy') as [(y' & Hj & Hj' & _)|[_ ->]]; [|set_solver].
    specialize (Iu _ _ _ Hj Hj'). set_solver.
  - intros j j' y y' token Hy Hy' Ej Ej'.
    destruct (Htok _ _ _ Hy Ej) as [(z & Hz & Ez & _)|[-> ->]],
      (Htok _ _ _ Hy' Ej') as [(z' & Hz' & Ez' & _)|[-> E]]; [by eapply Iq|..|done].
    + subst token. by destruct (Hfresh _ _ Hz).
    + by destruct (Hfresh _ _ Hz').
  - intros sid token j y [Hin|Hin]%elem_of_app Hy Hy'.
    + destruct (Hl _ _ Hin) as [Hxt Hpn].
      destruct (Htok _ _ _ Hy Hy') as [(z & Hz & Ez & Hne)|[-> ->]]; [|by destruct (Hfresh _ _ Hx)].
      assert (j = k) as -> by by eapply Iq.
      rewrite list_lookup_insert_eq in Hy by by eapply lookup_lt_Some. simplify_eq. cbn in Hy'. congruence.
    + destruct (Htok _ _ _ Hy Hy') as [(z & Hz & Ez & Hne)|[-> ->]]; [by eapply Il|].
      by apply Hd, (Ilu sid).
  - intros sid token [Hin|Hin]%elem_of_app; unfold used'.
    + destruct (Hl _ _ Hin) as [Hxt _]. specialize (Iu _ _ _ Hx Hxt). set_solver.
    + specialize (Ilu _ _ Hin). set_solver.
  - intros j y [(<- & <- & _)|[Hne Hy]]%list_lookup_insert_Some; [done|].
    destruct Hs as [->|(c & -> & Hc)]; [by eapply Ih|].
    apply exec_holds; [|by eapply Ih]. intros sid token E E'.
    destruct (Hc _ _ E) as [Hxt _]. apply Hne. by eapply (Iq k j).
Qed.

(** Steps that touch neither tasks nor locks. *)
Lemma lock_frame w w' :
  lock_inv w → tasks w' = tasks w → used w ⊆ used w' →
  (∀ sid token, DelLockIf sid token ∈ late w' → DelLockIf sid token ∈ late w) →
  now w <= now w' →
  (locks (server w') = locks (server w) ∨
   ∃ c, server w' = exec (now w) c (server w) ∧ ∀ sid token, c ≠ DelLockIf sid token) →
  lock_inv w'.
Proof.
  intros [Iu Iq Il Ilu Ih] Ht Hu Hl Hn Hs. split; rewrite ?Ht.
  - intros k x token Hx Hy. by apply Hu, (Iu k x).
  - done.
  - intros sid token k x Hin. by apply (Il sid), Hl.
  - intros sid token Hin. by apply Hu, (Ilu sid), Hl.
  - intros k x Hx. apply (holds_later (now w)); [done|].
    destruct Hs as [->|(c & -> & Hc)]; [by eapply Ih|].
    apply exec_holds; [|by eapply Ih]. intros sid token ->. by destruct (Hc sid token).
Qed.

Lemma request_turn_frame i q w s ts lt p l :
  request_turn i q w = (s, ts, lt, p, l) →
  (ts = tasks w ∨ ∃ r, ts = tasks w ++ [Task (q_proc q) (q_cookie q) r Locking]) ∧
  (locks s = locks (server w)) ∧ (∀ sid token, DelLockIf sid token ∉ l).
Proof.
  intros H. unfold Session.request_turn, session_status, session_logout in H. cbv zeta in H.
  assert (Hnil : ∀ sid token, DelLockIf sid token ∉ []) by by intros ?? ?%elem_of_nil.
  assert (Hc : ∀ c s' l', submit i (now w) c (server w) = (s', l') →
    (∃ sid, c = DelSession sid) ∨ (∃ sid pk, c = DelSessionIf sid pk) →
    locks s' = locks (server w) ∧ ∀ sid token, DelLockIf sid token ∉ l').
  { intros c s' l' Hsub Hcases. apply submit_cases in Hsub as [[-> ->]|[-> ->]];
      destruct Hcases as [(? & ->)|(? & ? & ->)]; split; try done; set_solver. }
  destruct (q_phase q) as [|v|packed k dl|packed|packed v|packed| |v|c| |a].
  - repeat (case_match; simplify_eq; try (by split_and!; [left|..])).
  - unfold _refresh in H. repeat (case_match; simplify_eq; try (by split_and!; [left|..])).
    all: split_and!; try done; by (left + (right; eexists)).
  - repeat (case_match; simplify_eq; try (by split_and!; [left|..])).
  - repeat (case_match; simplify_eq; try (by split_and!; [left|..])).
  - repeat (case_match; simplify_eq; try (by split_and!; [left|..])).
  - destruct (submit _ _ _ _) as [s1 l1] eqn:Hsub. simplify_eq.
    apply Hc in Hsub as [? ?]; [|by right; eexists _, _]. split_and!; auto.
  - repeat (case_match; simplify_eq; try (by split_and!; [left|..])).
  - repeat (case_match; simplify_eq; try (by split_and!; [left|..])).
  - repeat (case_match; simplify_eq; try (by split_and!; [left|..])).
  - case_bool_decide; [simplify_eq; by split_and!; [left|..]|].
    destruct (submit _ _ _ _) as [s1 l1] eqn:Hsub. simplify_eq.
    apply Hc in Hsub as [? ?]; [|by left; eexists]. split_and!; auto.
  - simplify_eq. by split_and!; [left|..].
Qed.

Lemma callback_turn_frame i t s c s' c' l :
  callback_turn i t s c = (s', c', l) →
  locks s' = locks s ∧ (∀ sid token, DelLockIf sid token ∉ l).
Proof.
  intros H. unfold Session.callback_turn in H.
  assert (Hnil : ∀ sid token, DelLockIf sid token ∉ []) by by intros ?? ?%elem_of_nil.
  repeat case_match; simplify_eq; try by split.
  all: match goal with H : submit _ _ _ _ = _ |- _ => apply submit_cases in H as [[-> ->]|[-> ->]] end;
    split; try done; set_solver.
Qed.

(** A new task holds nothing. *)
Lemma lock_new_task w x :
  lock_inv w → t_phase x = Locking →
  lock_inv (World (now w) (server w) (tasks w ++ [x]) (local_tasks w) (stages w) (requests w)
              (callbacks w) (late w) (used w) (opened w)).
Proof.
  intros [Iu Iq Il Ilu Ih] Hx.
  assert (Hnew : ∀ k y token, (tasks w ++ [x]) !! k = Some y → token_of (t_phase y) = Some token →
    tasks w !! k = Some y).
  { intros k y token [[_ Hy]|[_ <-]]%lookup_snoc_Some Ht; [done|]. by rewrite Hx in Ht. }
  split; cbn.
  - intros k y token Hy Ht. by eapply Iu; [eapply Hnew|].
  - intros k k' y y' token Hy Hy' Ht Ht'. eapply Iq; [by eapply Hnew|by eapply Hnew|done|done].
  - intros sid token k y Hin Hy Ht. eapply Il; [done|by eapply Hnew|done].
  - done.
  - intros k y [[_ Hy]|[_ <-]]%lookup_snoc_Some; [by eapply Ih|]. unfold holds. by rewrite Hx.
Qed.

Lemma lock_step w w' : lock_inv w → step w w' → lock_inv w'.
Proof.
  intros Hi H.
  destruct H as [dt Hdt|i n v s l Hd Hsub|code state|i k c s c' l Hd Hc Ht|p ck kd sup
    |i k q s ts lt p l Hd Hq Ht|i k x s p l Hd Hx Ht|k x res Hx Hp Hl|p|i k x p l Hd Hx Hst Hcan
    |p Hst|c l1 l2 Hlate].
  - eapply lock_frame; cbn; [exact Hi|done..|lia|by left].
  - apply submit_cases in Hsub as [[-> ->]|[-> ->]]; eapply lock_frame; cbn;
      [exact Hi|done|unfold used'; set_solver|set_solver|lia|by left
      |exact Hi|done|unfold used'; set_solver|set_solver|lia|by left].
  - eapply lock_frame; cbn; [exact Hi|done..|lia|by left].
  - apply callback_turn_frame in Ht as [Hs Hl].
    eapply lock_frame; cbn; [exact Hi|done|unfold used'; set_solver| |lia|by left].
    intros sid token [Hin|?]%elem_of_app; [by apply Hl in Hin|done].
  - eapply lock_frame; cbn; [exact Hi|done..|lia|by left].
  - apply request_turn_frame in Ht as (Hts & Hs & Hl).
    assert (Hf : ∀ w0, lock_inv w0 → used w0 = used w → late w0 = late w → now w0 = now w →
      locks (server w0) = locks (server w) →
      lock_inv (World (now w) s (tasks w0) lt (stages w) (<[k := moved p q]> (requests w))
                  (callbacks w) (l ++ late w) (used' i w) (opened w))).
    { intros w0 H0 Eu El En Es. eapply lock_frame; cbn; [exact H0|done|unfold used'; set_solver| |lia|].
      - rewrite El. intros sid token [Hin|?]%elem_of_app; [by apply Hl in Hin|done].
      - left. congruence. }
    destruct Hts as [->|(r & ->)]; [by apply Hf|].
    by apply (Hf _ (lock_new_task w (Task (q_proc q) (q_cookie q) r Locking) Hi eq_refl)).
  - eapply lock_task_step; [done..|]. apply task_turn_lock; [done|]. by eapply li_holds.
  - eapply lock_frame; cbn; [exact Hi|done..|lia|by left].
  - eapply lock_frame; cbn; [exact Hi|done..|lia|by left].
  - eapply lock_task_step; [done..|]. by eapply cancelled_lock.
  - eapply lock_frame; cbn; [exact Hi|done..|lia|by left].
  - destruct Hi as [Iu Iq Il Ilu Ih]. split; cbn; try done.
    + intros sid token k x Hin. apply (Il sid). rewrite Hlate. set_solver.
    + intros sid token Hin. apply (Ilu sid). rewrite Hlate. set_solver.
    + intros k x Hx. apply exec_holds; [|by eapply Ih]. intros sid token ->.
      apply (Il sid token k x); [|done]. rewrite Hlate. set_solver.
Qed.

Lemma lock_empty : lock_inv empty_world.
Proof. split; cbn; try done; set_solver. Qed.

Lemma lock_reachable w w' : lock_inv w → rtc step w w' → lock_inv w'.
Proof. intros Hi. induction 1 as [|w w1 w' Hs _ IH]; [done|]. apply IH. by eapply lock_step. Qed.
End Lock.
End SessionLock.
