(* ===== verification/SessionSpec.v ===== *)
(** What the browser sessions guarantee: whom a request acts for, how many refreshes of a
    session run, what may end a session, when a logout is final, and that a refresh
    ends. *)

From S2P Require Import Prelude Text Dict Json Oidc Session SessionInv SessionLock.
Import Oidc Session SessionInv SessionLock.

Local Open Scope Z_scope.

Module SessionSpec.

Section Spec.
Context (isprintable has_space : string → bool).
Context (encrypt : N → payload → string) (decrypt : string → option payload).
Context (issuer audience client_id : string) (session_ttl : Z).
(** Fernet gives back what it encrypted, and never the empty text. *)
Context (unpack_pack : ∀ n p, _unpack decrypt (Some (encrypt n p)) = Some p).

Notation unpack := (unpack_session decrypt).
Notation usable_packed := (usable_packed decrypt).
Notation task_turn := (task_turn isprintable has_space encrypt decrypt issuer audience session_ttl).
Notation request_turn := (request_turn decrypt session_ttl).
Notation callback_turn := (callback_turn isprintable has_space encrypt decrypt issuer audience
  client_id session_ttl).
Notation step := (step isprintable has_space encrypt decrypt issuer audience client_id session_ttl).
Notation reachable := (reachable isprintable has_space encrypt decrypt issuer audience client_id
  session_ttl).

Lemma reachable_identity w : reachable w → identity_inv decrypt w.
Proof.
  intros H. eapply identity_reachable in H as [H _]; [exact H|done|apply identity_empty].
Qed.

(** ** Whom a request acts for *)

(** C14. A request acts for the person who logged in.  In every reachable world, through
    any number of refreshes in any processes, a request that was granted claims or a
    profile, or a logout, has a cookie under which a login opened a session, and it acts
    for that login's subject and issuer; an unsafe method, a logout included, carried the
    login's CSRF token, and the profile shows that token or none. *)
Theorem requests_act_for_the_login w k q :
  reachable w → requests w !! k = Some q →
  match q_phase q with
  | Answered (Granted c) => granted (opened w) q c
  | Answered (Profile c token) =>
      granted (opened w) q c ∧
      (token = EmptyString ∨ ∃ r0, opened w !! q_cookie q = Some r0 ∧ token = csrf r0)
  | Answered LoggedOut => csrf_ok (opened w) q
  | _ => True
  end.
Proof.
  intros Hw Hq. pose proof (ii_requests _ _ (reachable_identity _ Hw) k q Hq) as H.
  unfold request_ok in H. by repeat case_match.
Qed.

(** ** The refresh *)

(** C15. Single flight.  Across all processes at most one refresh of a session is between
    its lock and its deadline, so at most one exchanges the session's refresh token: the
    lock outlives the owner's deadline, and nobody else can release it. *)
Theorem single_flight w k k' x x' :
  reachable w → tasks w !! k = Some x → tasks w !! k' = Some x' → t_sid x = t_sid x' →
  exchanging (now w) x → exchanging (now w) x' → k = k'.
Proof.
  intros Hw Hx Hx' Hsid He He'.
  assert (Hi : lock_inv w) by (eapply lock_reachable; [exact lock_empty|exact Hw]).
  assert (Hlock : ∀ j y, tasks w !! j = Some y → exchanging (now w) y →
    ∃ token e, token_of (t_phase y) = Some token ∧ locks (server w) !! t_sid y = Some (Entry token e)).
  { intros j y Hy Hey. pose proof (li_holds _ Hi j y Hy) as Hh. unfold exchanging in Hey. unfold holds in Hh.
    destruct (t_phase y); try done; destruct Hh as (e & Hle & Hl); eexists _, e; cbn;
      (split; [done|]); apply Hl; lia. }
  destruct (Hlock k x Hx He) as (token & e & Ht & Hl), (Hlock k' x' Hx' He') as (token' & e' & Ht' & Hl').
  rewrite <- Hsid in Hl'. simplify_eq. by eapply (li_unique _ Hi).
Qed.

(** ** What ends a session *)

(** What a turn does to the sessions, other than ending one. *)
Definition kept_or_set (t : Z) (s s' : valkey) : Prop :=
  sessions s' = sessions s ∨
  ∃ sid packed, sessions s' = <[sid := Entry packed (t + session_ttl)]> (sessions s).

Lemma task_turn_sessions i t s x s' p l : task_turn i t s x = (s', p, l) → kept_or_set t s s'.
Proof.
  intros H. unfold Session.task_turn, waiting in H. repeat case_match; simplify_eq; try (by left);
    match goal with H : submit _ _ _ _ _ = _ |- _ => apply submit_cases in H as [[-> _]|[-> _]] end;
    first [by left|by right; eexists _, _].
Qed.

Lemma callback_turn_sessions i t s c s' c' l :
  callback_turn i t s c = (s', c', l) → kept_or_set t s s'.
Proof.
  intros H. unfold Session.callback_turn in H. repeat case_match; simplify_eq; try (by left);
    match goal with H : submit _ _ _ _ _ = _ |- _ => apply submit_cases in H as [[-> _]|[-> _]] end;
    first [by left|by right; eexists _, _].
Qed.

Lemma request_turn_sessions i q w s ts lt p l :
  request_turn i q w = (s, ts, lt, p, l) →
  s = server w ∨
  (∃ packed, q_phase q = Deleting packed ∧
     s = exec session_ttl (now w) (DelSessionIf (q_cookie q) packed) (server w)) ∨
  q_phase q = LoggingOut ∧ s = exec session_ttl (now w) (DelSession (q_cookie q)) (server w).
Proof.
  intros H. unfold Session.request_turn, session_status, session_logout in H. cbv zeta in H.
  repeat case_match; simplify_eq; try (by left);
    match goal with H : submit _ _ _ _ _ = _ |- _ => apply submit_cases in H as [[-> _]|[-> _]] end;
    eauto.
Qed.

(** A command that no logout issued keeps a usable session. *)
Lemma exec_keeps t c s sid packed r :
  0 < session_ttl → get t (sessions s) sid = Some packed → unpack (Some packed) = Some r →
  usable t r = true → late_stale decrypt t c → c ≠ DelSession sid →
  get t (sessions (exec session_ttl t c s)) sid ≠ None.
Proof.
  intros Httl Hg Hr Hu Hc Hne. destruct c; cbn; try (by rewrite Hg).
  - unfold get. destruct (decide (sid0 = sid)) as [->|].
    + rewrite lookup_insert_eq. cbn. by rewrite (proj2 (Z.ltb_lt _ _)) by lia.
    + rewrite lookup_insert_ne by done. unfold get in Hg. by rewrite Hg.
  - unfold get. rewrite lookup_delete_ne by congruence. unfold get in Hg. by rewrite Hg.
  - unfold del_if. case_bool_decide as Hd; [|by rewrite Hg].
    destruct (decide (sid0 = sid)) as [->|].
    + destruct Hc as (r' & Hr' & Hu'). assert (packed0 = packed) as -> by congruence.
      assert (r' = r) as -> by congruence. congruence.
    + unfold get. rewrite lookup_delete_ne by done. unfold get in Hg. by rewrite Hg.
Qed.

Lemma kept_or_set_keeps t s s' sid packed :
  0 < session_ttl → kept_or_set t s s' → get t (sessions s) sid = Some packed →
  get t (sessions s') sid ≠ None.
Proof.
  intros Httl [->|(k & pk & ->)] Hg; [by rewrite Hg|]. unfold get.
  destruct (decide (k = sid)) as [->|].
  - rewrite lookup_insert_eq. cbn. by rewrite (proj2 (Z.ltb_lt _ _)) by lia.
  - rewrite lookup_insert_ne by done. unfold get in Hg. by rewrite Hg.
Qed.

(** C16. Only a logout ends a usable session.  When a step of a reachable world makes a
    session that is usable now disappear, the step runs the deletion of a logout that
    passed the CSRF check, or one such deletion whose answer was lost; a failed refresh,
    in whatever process and however late, never does. *)
Theorem only_logout_ends_a_session w w' sid r :
  0 < session_ttl → reachable w → step w w' → now w' = now w →
  usable_packed (now w) (get (now w) (sessions (server w)) sid) = Some r →
  get (now w) (sessions (server w')) sid = None →
  (∃ k q, requests w !! k = Some q ∧ q_cookie q = sid ∧ q_phase q = LoggingOut ∧
          csrf_ok (opened w) q) ∨
  DelSession sid ∈ late w.
Proof.
  intros Httl Hw H Hnow Hu Hgone. pose proof (reachable_identity _ Hw) as Hid.
  assert (Hst : stale_inv decrypt w).
  { eapply stale_reachable; [exact unpack_pack|exact (stale_empty decrypt)|exact Hw]. }
  unfold Session.usable_packed in Hu. destruct (unpack _) as [r'|] eqn:Hr; [|done].
  destruct (usable (now w) r') eqn:Hus; [|done]. simplify_eq.
  destruct (get (now w) (sessions (server w)) sid) as [packed|] eqn:Hg; [|done].
  destruct H as [dt Hdt|i n v s l Hd Hsub|code state|i k c s c' l Hd Hc Ht|p ck kd sup
    |i k q s ts lt p l Hd Hq Ht|i k x s p l Hd Hx Ht|k x res Hx Hp Hl|p|i k x p l Hd Hx Hst' Hcan
    |p Hst'|c l1 l2 Hlate]; cbn in Hgone, Hnow; try congruence.
  - apply submit_cases in Hsub as [[-> _]|[-> _]]; cbn in Hgone; congruence.
  - apply callback_turn_sessions in Ht. by eapply kept_or_set_keeps in Ht.
  - left. apply request_turn_sessions in Ht as [->|[(pk & Hph & ->)|[Hph ->]]].
    + congruence.
    + exfalso. apply (exec_keeps (now w) (DelSessionIf (q_cookie q) pk) (server w) sid packed r);
        try done.
      pose proof (si_requests _ _ Hst k q Hq) as Hq'. unfold request_stale in Hq'. by rewrite Hph in Hq'.
    + destruct (decide (q_cookie q = sid)) as [He|Hne].
      * exists k, q. split_and!; try done. pose proof (ii_requests _ _ Hid k q Hq) as Hq'.
        unfold request_ok in Hq'. by rewrite Hph in Hq'.
      * exfalso. apply (exec_keeps (now w) (DelSession (q_cookie q)) (server w) sid packed r);
          try done. congruence.
  - apply task_turn_sessions in Ht. by eapply kept_or_set_keeps in Ht.
  - right. destruct (decide (c = DelSession sid)) as [->|Hne]; [rewrite Hlate; set_solver|].
    exfalso. apply (exec_keeps (now w) c (server w) sid packed r); try done.
    apply (si_late _ _ Hst). rewrite Hlate. set_solver.
Qed.

(** ** When a logout is final *)

(** Nothing that could write the session is on its way: no refresh, no lost write, no
    login, and no request that was served the session and has not looked at it yet, which
    may start a refresh. *)
Record quiet (sid : string) (w : world) : Prop := {
  qu_tasks : ∀ k x, tasks w !! k = Some x → t_sid x = sid → ∃ res, t_phase x = TaskDone res;
  qu_late : ∀ packed, SetSession sid packed ∉ late w;
  qu_callbacks : ∀ k c r packed, callbacks w !! k = Some c → c_phase c ≠ Opening sid r packed;
  qu_reads : ∀ k q packed, requests w !! k = Some q → q_cookie q = sid →
    q_phase q ≠ Read (Some packed);
}.

(** A request that has not been given the session. *)
Definition outside (p : request_phase) : Prop :=
  p = Reading ∨ p = Read None ∨ ∃ code, p = Answered (Http code).

(** The session is over, and its token was drawn. *)
Record gone (sid : string) (n : nat) (w : world) : Prop := {
  go_quiet : quiet sid w;
  go_used : sid ∈ used w;
  go_none : get (now w) (sessions (server w)) sid = None;
  go_requests : ∀ k q, (n <= k)%nat → requests w !! k = Some q → q_cookie q = sid →
    outside (q_phase q);
}.

Lemma get_None_later t t' m k : t <= t' → get t m k = None → get t' m k = None.
Proof.
  intros Ht. unfold get. destruct (m !! k) as [e|]; [|done].
  destruct (Z.ltb_spec t (expires e)); [done|]. intros _.
  by destruct (Z.ltb_spec t' (expires e)); [lia|].
Qed.

Lemma get_del_None t m k j : get t m k = None → get t (delete j m) k = None.
Proof.
  unfold get. destruct (decide (j = k)) as [->|]; [by rewrite lookup_delete_eq|].
  by rewrite lookup_delete_ne.
Qed.

Lemma exec_None t c s sid :
  (∀ packed, c ≠ SetSession sid packed) → get t (sessions s) sid = None →
  get t (sessions (exec session_ttl t c s)) sid = None.
Proof.
  intros Hc Hg. destruct c; cbn; try done.
  - unfold get. rewrite lookup_insert_ne; [done|]. intros ->. by destruct (Hc packed).
  - by apply get_del_None.
  - unfold del_if. case_bool_decide; [by apply get_del_None|done].
Qed.

(** A turn of a task writes only its own session. *)
Lemma task_turn_writes i t s x s' p l :
  task_turn i t s x = (s', p, l) →
  (s' = s ∨ ∃ c, s' = exec session_ttl t c s ∧ ∀ sid packed, c = SetSession sid packed → sid = t_sid x) ∧
  (∀ sid packed, SetSession sid packed ∈ l → sid = t_sid x) ∧
  (∀ res, t_phase x = TaskDone res → s' = s ∧ p = t_phase x ∧ l = []).
Proof.
  intros H. unfold Session.task_turn, waiting in H.
  assert (Hnil : ∀ sid packed, SetSession sid packed ∈ [] → sid = t_sid x)
    by by intros ?? ?%elem_of_nil.
  assert (Hone : ∀ c, (∀ sid packed, c = SetSession sid packed → sid = t_sid x) →
    ∀ sid packed, SetSession sid packed ∈ [c] → sid = t_sid x).
  { intros c Hc sid packed Hin%list_elem_of_singleton. by eapply Hc. }
  repeat case_match; simplify_eq; split_and!; auto; try done;
    try (apply Hone; by intros ?? [= -> _]);
    try (right; eexists; split; [reflexivity|by intros ?? ?]);
    match goal with H : submit _ _ _ _ _ = _ |- _ => apply submit_cases in H as [[-> ->]|[-> ->]] end;
    auto; try (apply Hone; by intros ?? [= -> _]);
    right; eexists; (split; [reflexivity|by intros ?? [= -> _]]).
Qed.

Lemma callback_turn_writes i t s c s' c' l sid :
  callback_turn i t s c = (s', c', l) → drawn i ≠ sid →
  (∀ r packed, c_phase c ≠ Opening sid r packed) →
  (s' = s ∨ ∃ d, s' = exec session_ttl t d s ∧ ∀ packed, d ≠ SetSession sid packed) ∧
  (∀ packed, SetSession sid packed ∉ l) ∧
  (∀ r packed, c_phase c' ≠ Opening sid r packed).
Proof.
  intros H Hdrawn Hc. unfold Session.callback_turn in H.
  assert (Hnil : ∀ packed, SetSession sid packed ∉ []) by by intros ? ?%elem_of_nil.
  destruct (c_phase c) as [|f|sid' r' packed'|] eqn:Ep.
  - destruct (_ || _ || _); [simplify_eq; split_and!; cbn; auto; done|].
    destruct (submit _ _ _ _ _) as [s1 l1] eqn:Hsub.
    assert ((s1 = s ∨ ∃ d, s1 = exec session_ttl t d s ∧ ∀ packed, d ≠ SetSession sid packed) ∧
      ∀ packed, SetSession sid packed ∉ l1) as [Hs1 Hl1].
    { apply submit_cases in Hsub as [[-> ->]|[-> ->]]; (split; [|set_solver]); [right|by left].
      by exists (GetDelFlow (c_state c)). }
    destruct (negb (answered i)); [by simplify_eq|]. by destruct (unpack_flow _ _); simplify_eq.
  - destruct (exchanged _ _ _ _ _ _ _); simplify_eq; split_and!; cbn; auto; try done.
    intros r packed [= E]. done.
  - assert (sid' ≠ sid) by (intros ->; by destruct (Hc r' packed')).
    destruct (submit _ _ _ _ _) as [s1 l1] eqn:Hsub.
    apply submit_cases in Hsub as [[-> ->]|[-> ->]]; simplify_eq; split_and!; cbn; auto; try done.
    + right. exists (SetSession sid' packed'). split; [done|]. by intros packed [= E].
    + intros packed E%list_elem_of_singleton. by simplify_eq.
  - simplify_eq. split_and!; auto. by rewrite Ep.
Qed.

Lemma request_turn_late i q w s ts lt p l :
  request_turn i q w = (s, ts, lt, p, l) → ∀ sid packed, SetSession sid packed ∉ l.
Proof.
  intros H. unfold Session.request_turn, session_status, session_logout in H. cbv zeta in H.
  assert (Hnil : ∀ sid packed, SetSession sid packed ∉ []) by by intros ?? ?%elem_of_nil.
  repeat case_match; simplify_eq; try done;
    match goal with H : submit _ _ _ _ _ = _ |- _ => apply submit_cases in H as [[_ ->]|[_ ->]] end;
    set_solver.
Qed.

(** Without the session a request is given nothing, creates no task, and is refused. *)
Lemma request_turn_gone i q w s ts lt p l :
  request_turn i q w = (s, ts, lt, p, l) →
  get (now w) (sessions (server w)) (q_cookie q) = None →
  (∀ packed, q_phase q ≠ Read (Some packed)) →
  ts = tasks w ∧ (∀ packed, p ≠ Read (Some packed)) ∧ (outside (q_phase q) → outside p).
Proof.
  intros H Hg Hr. unfold Session.request_turn, session_status, session_logout, authorize in H.
  cbv zeta in H. rewrite Hg in H. unfold outside.
  destruct (q_phase q) as [|[packed|]|pk k dl|pk|pk v|pk| |v|c| |a] eqn:Eq; [|by destruct (Hr packed)|..].
  all: repeat case_match; simplify_eq; (split_and!; [done|done|]); eauto 6.
  all: intros [?|[?|[??]]]; simplify_eq; eauto 6.
Qed.

Lemma gone_step sid n w w' : gone sid n w → step w w' → gone sid n w'.
Proof.
  intros [[Qt Ql Qc Qr] Gu Gn Gr] H.
  assert (Hdraw : ∀ i, draws i w → drawn i ≠ sid) by (intros i [Hd _] E; apply Hd; by rewrite E).
  assert (Hused : ∀ i, sid ∈ used' i w) by (intros i; unfold used'; set_solver).
  assert (Hsub : ∀ i c s l, (∀ packed, c ≠ SetSession sid packed) →
    submit session_ttl i (now w) c (server w) = (s, l) →
    get (now w) (sessions s) sid = None ∧ ∀ packed, SetSession sid packed ∉ l ++ late w).
  { intros i c s l Hc Hs. apply submit_cases in Hs as [[-> ->]|[-> ->]]; (split; [|set_solver]);
      [by apply exec_None|done]. }
  destruct H as [dt Hdt|i nn v s l Hd Hlog|code state|i k c s c' l Hd Hc Ht|p ck kd sup
    |i k q s ts lt p l Hd Hq Ht|i k x s p l Hd Hx Ht|k x res Hx Hp Hl|p|i k x p l Hd Hx Hst Hcan
    |p Hst|c l1 l2 Hlate].
  - split; cbn; try done. eapply get_None_later; [|exact Gn]. lia.
  - apply Hsub in Hlog as [Hn Hl]; [|done]. split; cbn; try done.
  - split; cbn; try done. split; cbn; try done.
    intros k c r packed [[_ Hc]|[_ <-]]%lookup_snoc_Some; [by eapply Qc|done].
  - apply (callback_turn_writes _ _ _ _ _ _ _ sid) in Ht as (Hs & Hl & Hc');
      [|by apply Hdraw|by intros; eapply Qc]. split; cbn; try done.
    + split; cbn; try done; [set_solver|].
      intros j y r packed [(<- & <- & _)|[_ Hy]]%list_lookup_insert_Some; [done|by eapply Qc].
    + destruct Hs as [->|(d & -> & Hd')]; [done|by apply exec_None].
  - split; cbn; try done.
    + split; cbn; try done.
      intros j y packed [[_ Hy]|[_ <-]]%lookup_snoc_Some Hsid; [by eapply Qr|done].
    + intros k q Hk [[_ Hq]|[_ <-]]%lookup_snoc_Some Hsid; [by eapply Gr|by left].
  - assert (Hts : q_cookie q ≠ sid ∨
      tasks w = ts ∧ (∀ packed, p ≠ Read (Some packed)) ∧ (outside (q_phase q) → outside p)).
    { destruct (decide (q_cookie q = sid)) as [<-|]; [right|by left].
      apply request_turn_gone in Ht as (-> & ? & ?); [done..|]. intros packed. by eapply Qr. }
    split; cbn; try done.
    + split; cbn.
      * apply (request_turn_frame isprintable has_space) in Ht as ([->|(r & ->)] & _); [done|].
        intros j y [[_ Hy]|[_ <-]]%lookup_snoc_Some Hsid; [by eapply Qt|]. cbn in Hsid.
        destruct Hts as [?|[E _]]; [done|]. apply (f_equal length) in E. rewrite length_app in E. cbn in E. lia.
      * pose proof (request_turn_late _ _ _ _ _ _ _ _ Ht). set_solver.
      * done.
      * intros j y packed [(<- & <- & _)|[_ Hy]]%list_lookup_insert_Some Hsid; [|by eapply Qr].
        cbn in *. destruct Hts as [?|(_ & Hp & _)]; [done|apply Hp].
    + apply request_turn_sessions in Ht as [->|[(pk & _ & ->)|[_ ->]]];
        [done|by apply exec_None..].
    + intros j y Hj [(<- & <- & _)|[_ Hy]]%list_lookup_insert_Some Hsid; [|by eapply Gr].
      cbn in *. destruct Hts as [?|(_ & _ & Hp)]; [done|]. by eapply Hp, Gr.
  - apply task_turn_writes in Ht as (Hs & Hl & Hdone).
    assert (Hx' : t_sid x ≠ sid ∨ s = server w ∧ p = t_phase x ∧ l = []).
    { destruct (decide (t_sid x = sid)) as [E|]; [right|by left].
      destruct (Qt k x Hx E) as (res & Hres). by eapply Hdone. }
    split; cbn; try done.
    + split; cbn; try done.
      * intros j y [(<- & <- & _)|[_ Hy]]%list_lookup_insert_Some Hsid; [|by eapply Qt].
        cbn in *. destruct Hx' as [?|(_ & -> & _)]; [done|by eapply Qt].
      * intros packed [Hin|Hin]%elem_of_app; [|by apply Ql in Hin].
        destruct Hx' as [?|(_ & _ & ->)]; [by apply Hl in Hin|by apply elem_of_nil in Hin].
    + destruct Hx' as [Hne|(-> & _)]; [|done]. destruct Hs as [->|(c & -> & Hc)]; [done|].
      apply exec_None; [|done]. intros packed ->. by destruct (Hc sid packed).
  - by split.
  - by split.
  - split; cbn; try done.
    assert (Hx' : t_sid x ≠ sid ∨ p = t_phase x ∧ l = []).
    { destruct (decide (t_sid x = sid)) as [E|]; [right|by left].
      destruct (Qt k x Hx E) as (res & Hres). unfold cancelled in Hcan. rewrite Hres in Hcan.
      by simplify_eq. }
    split; cbn; try done.
    + intros j y [(<- & <- & _)|[_ Hy]]%list_lookup_insert_Some Hsid; [|by eapply Qt].
      cbn in *. destruct Hx' as [?|[-> _]]; [done|by eapply Qt].
    + intros packed [Hin|Hin]%elem_of_app; [|by apply Ql in Hin].
      destruct Hx' as [Hne|[_ ->]]; [|by apply elem_of_nil in Hin].
      unfold cancelled in Hcan. destruct (t_phase x); simplify_eq; set_solver.
  - split; cbn; try done.
  - assert (Hin : ∀ packed, c ≠ SetSession sid packed).
    { intros packed ->. apply (Ql packed). rewrite Hlate. set_solver. }
    split; cbn; try done.
    + split; cbn; try done. intros packed Hp. apply (Ql packed). rewrite Hlate. set_solver.
    + by apply exec_None.
Qed.

(** The world after a turn of a request. *)
Definition after_request (i : input) (k : nat) (q : request) (w : world) : world :=
  let '(s, ts, lt, p, l) := request_turn i q w in
  World (now w) s ts lt (stages w) (<[k := moved p q]> (requests w)) (callbacks w)
    (l ++ late w) (used' i w) (opened w).

Lemma after_request_step i k q w :
  draws i w → requests w !! k = Some q → step w (after_request i k q w).
Proof.
  intros Hd Hq. unfold after_request. destruct (request_turn i q w) as [[[[s ts] lt] p] l] eqn:Ht.
  by eapply s_request_turn.
Qed.

(** C17. A quiet logout is final.  When the deletion of a logout answers while no refresh of
    the session is under way in any process, no request was served the session and has yet
    to look at it, no write of it was lost and its login is over, then the session never
    comes back: whatever happens afterwards, its key stays empty, and every later request
    with its cookie reads nothing and is refused. *)
Theorem quiet_logout_is_final w k q i :
  reachable w → requests w !! k = Some q → q_phase q = LoggingOut → draws i w →
  answered i = true → stages w !! q_proc q ≠ Some Closed → quiet (q_cookie q) w →
  requests (after_request i k q w) !! k = Some (moved (Answered LoggedOut) q) ∧
  ∀ w', rtc step (after_request i k q w) w' →
    get (now w') (sessions (server w')) (q_cookie q) = None ∧
    ∀ k' q', (length (requests w) <= k')%nat → requests w' !! k' = Some q' →
      q_cookie q' = q_cookie q →
      outside (q_phase q').
Proof.
  intros Hw Hq Hp Hd Ha Hst Hquiet.
  pose proof (reachable_identity _ Hw) as Hid.
  assert (Hused : q_cookie q ∈ used w).
  { pose proof (ii_requests _ _ Hid k q Hq) as H. unfold request_ok in H. rewrite Hp in H.
    destruct H as (r0 & H0 & _). by eapply (ii_used _ _ Hid). }
  assert (E : after_request i k q w = World (now w)
    (exec session_ttl (now w) (DelSession (q_cookie q)) (server w)) (tasks w) (local_tasks w)
    (stages w) (<[k := moved (Answered LoggedOut) q]> (requests w)) (callbacks w) (late w)
    (used' i w) (opened w)).
  { unfold after_request, Session.request_turn, session_logout. rewrite Hp, bool_decide_eq_false_2 by done.
    unfold submit. by rewrite Ha. }
  assert (Hgone : gone (q_cookie q) (length (requests w)) (after_request i k q w)).
  { rewrite E. destruct Hquiet. split; cbn.
    - split; cbn; try done.
      intros j y packed [(<- & <- & _)|[_ Hy]]%list_lookup_insert_Some Hsid; [done|eauto].
    - unfold used'. set_solver.
    - unfold get. by rewrite lookup_delete_eq.
    - intros j y Hj Hy. apply lookup_lt_Some in Hy. rewrite length_insert in Hy. lia. }
  split.
  - rewrite E. cbn. apply list_lookup_insert_eq. by eapply lookup_lt_Some.
  - intros w' H. assert (Hg : gone (q_cookie q) (length (requests w)) w').
    { clear E. induction H as [|w1 w2 w3 Hs _ IH]; [done|]. apply IH. by eapply gone_step. }
    destruct Hg. by split.
Qed.
End Spec.
End SessionSpec.
