(* ===== verification/SessionEnds.v ===== *)
(** Termination: a refresh takes a bounded number of turns, and is never stuck. *)

From S2P Require Import Prelude Text Dict Json Oidc Session SessionInv SessionLock SessionSpec.
Import Oidc Session SessionInv.

Local Open Scope Z_scope.

Module SessionEnds.

(** How many polls fit before the deadline. *)
Definition polls (span : Z) : Z := (span + REFRESH_POLL - 1) / REFRESH_POLL.

(** A bound on the turns a task still takes from time [t] on. *)
Definition rank (t : Z) (p : task_phase) : Z :=
  match p with
  | Locking => 88
  | Contended => 87
  | Locked _ _ => 7
  | Posting _ _ => 6
  | Verifying _ _ _ => 5
  | Storing _ _ _ _ => 4
  | Stored _ _ _ => 3
  | Releasing _ _ => 2
  | Released _ => 1
  | Polling dl nb => 4 * Z.max (-1) (polls (dl - Z.max nb t)) + 6
  | Polled dl _ => 4 * Z.max 0 (polls (dl - t)) + 5
  | PollingLock dl => 4 * Z.max 0 (polls (dl - t)) + 4
  | PolledLock dl _ => 4 * Z.max 0 (polls (dl - t)) + 3
  | Rechecking => 2
  | Rechecked _ => 1
  | TaskDone _ => 0
  end.

Lemma polls_mono a b : a <= b → polls a <= polls b.
Proof. intros H. unfold polls, REFRESH_POLL. apply Z.div_le_mono; lia. Qed.
Lemma polls_one a : polls (a - REFRESH_POLL) = polls a - 1.
Proof.
  unfold polls, REFRESH_POLL. replace (a - 50 + 50 - 1) with (a + 50 - 1 + (-1) * 50) by lia.
  rewrite Z.div_add by lia. lia.
Qed.
Lemma polls_pos a : 0 < a → 1 <= polls a.
Proof. intros H. unfold polls, REFRESH_POLL. apply Z.div_le_lower_bound; lia. Qed.
Lemma polls_wait : polls REFRESH_WAIT = 20.
Proof. reflexivity. Qed.

Lemma rank_nonneg t p : 0 <= rank t p.
Proof. destruct p; cbn; lia. Qed.

Lemma rank_later t t' p : t <= t' → rank t' p <= rank t p.
Proof.
  intros Ht. destruct p; cbn; try lia;
    [pose proof (polls_mono (deadline - Z.max not_before t') (deadline - Z.max not_before t)); lia|..];
    pose proof (polls_mono (deadline - t') (deadline - t)); lia.
Qed.

Section Ends.
Context (isprintable has_space : string → bool).
Context (encrypt : N → payload → string) (decrypt : string → option payload).
Context (issuer audience client_id : string) (session_ttl : Z).

Notation task_turn := (task_turn isprintable has_space encrypt decrypt issuer audience session_ttl).
Notation step := (step isprintable has_space encrypt decrypt issuer audience client_id session_ttl).

Lemma task_turn_rank i t s x s' p l :
  task_turn i t s x = (s', p, l) → p = t_phase x ∨ rank t p < rank t (t_phase x).
Proof.
  intros H. unfold Session.task_turn, waiting in H.
  destruct (t_phase x) as [| |token a|token dl|token dl nr|token dl r packed|token dl r|token res|res
    |dl nb|dl v|dl|dl held| |v|res].
  10: { destruct (Z.ltb_spec t nb); [simplify_eq; by left|]. right.
    destruct (Z.leb_spec dl t); [simplify_eq; cbn; lia|].
    pose proof (polls_pos (dl - t)).
    repeat case_match; simplify_eq; cbn; replace (dl - Z.max nb t) with (dl - t) by lia; lia. }
  all: try (repeat case_match; simplify_eq; first [by left|right; cbn; lia]).
  - right. destruct (answered i); simplify_eq; cbn; [|lia].
    replace (t + REFRESH_WAIT - Z.max t t) with REFRESH_WAIT by lia. rewrite polls_wait. lia.
  - right. repeat case_match; simplify_eq; cbn; try lia.
    replace (dl - Z.max (t + REFRESH_POLL) t) with (dl - t - REFRESH_POLL)
      by (unfold REFRESH_POLL; lia). rewrite polls_one. lia.
Qed.

Lemma cancelled_rank i t x p l :
  cancelled i x = (p, l) → p = t_phase x ∨ rank t p < rank t (t_phase x).
Proof.
  intros H. unfold cancelled in H.
  destruct (t_phase x); simplify_eq; cbn; try (by left); right; lia.
Qed.

(** A step moves a task down, or leaves its phase. *)
Lemma step_rank w w' k x :
  step w w' → tasks w !! k = Some x →
  ∃ x', tasks w' !! k = Some x' ∧ now w <= now w' ∧
    (t_phase x' = t_phase x ∨ rank (now w') (t_phase x') < rank (now w) (t_phase x)).
Proof.
  intros H Hk.
  assert (Hown : ∀ j y p, tasks w !! j = Some y →
    (p = t_phase y ∨ rank (now w) p < rank (now w) (t_phase y)) →
    ∃ x', <[j := at_phase p y]> (tasks w) !! k = Some x' ∧ now w <= now w ∧
      (t_phase x' = t_phase x ∨ rank (now w) (t_phase x') < rank (now w) (t_phase x))).
  { intros j y p Hj Hp. destruct (decide (j = k)) as [->|Hne].
    - simplify_eq. exists (at_phase p x). split_and!; [|lia|done].
      apply list_lookup_insert_eq. by eapply lookup_lt_Some.
    - exists x. rewrite list_lookup_insert_ne by done. split_and!; [done|lia|by left]. }
  destruct H as [dt Hdt|i n v s l Hd Hsub|code state|i j c s c' l Hd Hc Ht|p ck kd sup
    |i j q s ts lt p l Hd Hq Ht|i j y s p l Hd Hy Ht|j y res Hy Hp Hl|p|i j y p l Hd Hy Hst Hcan
    |p Hst|c l1 l2 Hlate]; cbn [tasks now];
    try (exists x; split_and!; [done|lia|by left]).
  - apply (SessionLock.request_turn_frame isprintable has_space) in Ht as ([->|(r & ->)] & _);
      exists x; (split_and!; [|lia|by left]); [done|by apply lookup_app_l_Some].
  - eapply Hown; [done|]. by eapply task_turn_rank.
  - eapply Hown; [done|]. by eapply cancelled_rank.
Qed.

(** Histories in which task [k] changes its phase [n] times. *)
Inductive moves (k : nat) : Z → world → world → Prop :=
| moves_end w : moves k 0 w w
| moves_other n w w1 w2 :
    step w w1 → t_phase <$> tasks w1 !! k = t_phase <$> tasks w !! k →
    moves k n w1 w2 → moves k n w w2
| moves_own n w w1 w2 :
    step w w1 → t_phase <$> tasks w1 !! k ≠ t_phase <$> tasks w !! k →
    moves k n w1 w2 → moves k (n + 1) w w2.

Lemma moves_rank k n w w' x :
  moves k n w w' → tasks w !! k = Some x → n <= rank (now w) (t_phase x).
Proof.
  intros H. revert x. induction H as [w|n w w1 w2 Hs Hp _ IH|n w w1 w2 Hs Hp _ IH]; intros x Hx.
  - apply rank_nonneg.
  - destruct (step_rank _ _ _ _ Hs Hx) as (x' & Hx' & Hn & _). specialize (IH x' Hx').
    rewrite Hx, Hx' in Hp. injection Hp as Hp. rewrite Hp in IH.
    pose proof (rank_later (now w) (now w1) (t_phase x) Hn). lia.
  - destruct (step_rank _ _ _ _ Hs Hx) as (x' & Hx' & Hn & [E|Hlt]).
    + rewrite Hx, Hx' in Hp. cbn in Hp. congruence.
    + specialize (IH x' Hx'). lia.
Qed.

(** C18. A refresh ends.  Whatever the provider, Valkey, other requests and other processes do
    and however long each answer takes, a refresh changes its phase at most 88 times: the
    owner's exchange eight times, a waiter four times per 50 ms of its one second; and it is never
    stuck: unless it is done, its next turn (a poll waits for its time) changes its
    phase. *)
Theorem refresh_ends k n w w' x :
  tasks w !! k = Some x → t_phase x = Locking → moves k n w w' →
  n <= 88 ∧
  ∀ y, tasks w' !! k = Some y →
    (∃ res, t_phase y = TaskDone res) ∨
    ∀ i t, now w' <= t → (∀ dl nb, t_phase y = Polling dl nb → nb <= t) →
      (task_turn i t (server w') y).1.2 ≠ t_phase y.
Proof.
  intros Hx Hp Hm. split.
  - pose proof (moves_rank _ _ _ _ _ Hm Hx) as H. by rewrite Hp in H.
  - intros y Hy. destruct (t_phase y) as [| |token a|token dl|token dl nr|token dl r packed|token dl r
      |token res|res|dl nb|dl v|dl|dl held| |v|res] eqn:Ey;
      [right; intros i t Ht Hnb; unfold Session.task_turn; rewrite Ey; unfold waiting..|by left; eexists].
    all: unfold submit; repeat case_match; cbn; try done.
    all: try (rewrite (proj2 (Z.ltb_ge t nb)) in * by (by eapply Hnb); done).
    all: intros E; simplify_eq.
Qed.
End Ends.
End SessionEnds.
