(* ===== verification/SessionLogin.v ===== *)
(** The login: a flow is used once, and the session of a callback belongs to the subject of
    the ID token with the flow's nonce. *)

From S2P Require Import Prelude Text Dict Json Oidc Session SessionInv SessionLock SessionSpec.
Import Oidc Session SessionInv SessionLock.

Local Open Scope Z_scope.

Module SessionLogin.

Definition sets_flow (state : string) (c : command) : bool :=
  match c with SetFlowNx s _ => bool_decide (s = state) | _ => false end.
Definition took_flow (state : string) (c : callback) : bool :=
  bool_decide (c_state c = state) && bool_decide (is_Some (c_flow c)).
Definition stored (state : string) (m : gmap string entry) : Z :=
  match m !! state with Some _ => 1 | None => 0 end.
Definition counted {A} (f : A → bool) (l : list A) : Z := sumZ ((λ x, Z.b2z (f x)) <$> l).

#[local] Arguments counted : simpl never.

(** How often the flow of a state can still be taken, or was. *)
Definition uses (state : string) (w : world) : Z :=
  counted (sets_flow state) (late w) + stored state (flows (server w))
  + counted (took_flow state) (callbacks w).

Lemma counted_app {A} (f : A → bool) l k : counted f (l ++ k) = counted f l + counted f k.
Proof. unfold counted. by rewrite fmap_app, sumZ_app. Qed.
Lemma counted_nonneg {A} (f : A → bool) l : 0 <= counted f l.
Proof. apply sumZ_nonneg, Forall_fmap, Forall_true. intros x. cbn. by destruct (f x). Qed.
Lemma counted_insert {A} (f : A → bool) l k x y :
  l !! k = Some x → counted f (<[k := y]> l) = counted f l - Z.b2z (f x) + Z.b2z (f y).
Proof. apply (sumZ_insert (λ x, Z.b2z (f x))). Qed.
Lemma counted_two {A} (f : A → bool) l k k' x y :
  l !! k = Some x → l !! k' = Some y → f x = true → f y = true → counted f l <= 1 → k = k'.
Proof.
  unfold counted. revert k k'. induction l as [|z l IH]; intros [|k] [|k'] Hx Hy Hfx Hfy Hc;
    cbn in *; simplify_eq; try done.
  - rewrite Hfx in Hc. cbn in Hc.
    pose proof (sumZ_elem ((λ x, Z.b2z (f x)) <$> l) 1) as H.
    rewrite Forall_fmap in H. specialize (H ltac:(apply Forall_true; intros u; cbn; by destruct (f u))).
    assert (1 <= sumZ ((λ x, Z.b2z (f x)) <$> l)); [apply H|lia].
    apply list_elem_of_fmap. exists y. rewrite Hfy. split; [done|by eapply list_elem_of_lookup_2].
  - rewrite Hfy in Hc. cbn in Hc.
    pose proof (sumZ_elem ((λ x, Z.b2z (f x)) <$> l) 1) as H.
    rewrite Forall_fmap in H. specialize (H ltac:(apply Forall_true; intros u; cbn; by destruct (f u))).
    assert (1 <= sumZ ((λ x, Z.b2z (f x)) <$> l)); [apply H|lia].
    apply list_elem_of_fmap. exists x. rewrite Hfx. split; [done|by eapply list_elem_of_lookup_2].
  - f_equal. eapply IH; [done..|]. destruct (f z); cbn in Hc; lia.
Qed.

Section Login.
Context (isprintable has_space : string → bool).
Context (encrypt : N → payload → string) (decrypt : string → option payload).
Context (issuer audience client_id : string) (session_ttl : Z).

Notation callback_turn := (callback_turn isprintable has_space encrypt decrypt issuer audience
  client_id session_ttl).
Notation step := (step isprintable has_space encrypt decrypt issuer audience client_id session_ttl).
Notation reachable := (reachable isprintable has_space encrypt decrypt issuer audience client_id
  session_ttl).

Record flow_inv (w : world) : Prop := {
  fi_once : ∀ state, uses state w <= 1;
  fi_used : ∀ state, 0 < uses state w → state ∈ used w;
}.

(** Steps that create no flow. *)
Lemma flow_frame w w' :
  flow_inv w → used w ⊆ used w' → (∀ state, uses state w' <= uses state w) → flow_inv w'.
Proof.
  intros [Io Iu] Hu Hs. split.
  - intros state. specialize (Hs state). specialize (Io state). lia.
  - intros state H. apply Hu, Iu. specialize (Hs state). lia.
Qed.

(** A command leaves the flows, or moves one. *)
Lemma exec_stored t c s state :
  stored state (flows (exec session_ttl t c s)) <= stored state (flows s) + Z.b2z (sets_flow state c).
Proof.
  destruct c; cbn; try lia; unfold stored.
  - unfold set_nx. destruct (get t (flows s) state0); [case_bool_decide; cbn; lia|].
    case_bool_decide as E; [subst; rewrite lookup_insert_eq; destruct (flows s !! state); cbn; lia|].
    rewrite lookup_insert_ne by done. cbn. lia.
  - destruct (decide (state0 = state)) as [->|].
    + rewrite lookup_delete_eq. destruct (flows s !! state); lia.
    + rewrite lookup_delete_ne by done. lia.
Qed.

Lemma submit_uses i t c s s' l state :
  submit session_ttl i t c s = (s', l) →
  counted (sets_flow state) l + stored state (flows s')
    <= stored state (flows s) + Z.b2z (sets_flow state c).
Proof.
  intros H. apply submit_cases in H as [[-> ->]|[-> ->]]; unfold counted; cbn.
  - pose proof (exec_stored t c s state). lia.
  - lia.
Qed.

(** A callback takes a flow only by deleting it. *)
Lemma callback_turn_uses i t s c s' c' l state :
  callback_turn i t s c = (s', c', l) →
  counted (sets_flow state) l + stored state (flows s') + Z.b2z (took_flow state c')
    <= stored state (flows s) + Z.b2z (took_flow state c).
Proof.
  intros H. unfold Session.callback_turn in H.
  destruct c as [code st cf ph]; cbn [c_phase c_code c_state] in H.
  destruct ph as [|f|sid r packed|res].
  - destruct (_ || _ || _); [simplify_eq; unfold counted, took_flow; cbn; lia|].
    destruct (submit _ _ _ _ _) as [s1 l1] eqn:Hsub.
    apply (submit_uses _ _ _ _ _ _ state) in Hsub as Hle. cbn in Hle.
    destruct (negb (answered i)) eqn:Ha; [simplify_eq; unfold took_flow; cbn in *; lia|].
    destruct (unpack_flow _ _) as [f|] eqn:Hf; simplify_eq; [|unfold took_flow; cbn in *; lia].
    unfold submit in Hsub. apply negb_false_iff in Ha. rewrite Ha in Hsub. simplify_eq.
    unfold took_flow, counted, stored in *. cbn.
    destruct (decide (st = state)) as [->|Hne].
    + rewrite lookup_delete_eq, bool_decide_eq_true_2 by done. cbn.
      assert (is_Some (flows s !! state)) as [e He].
      { unfold get in Hf. destruct (flows s !! state); [by eexists|done]. }
      rewrite He. destruct (bool_decide _); cbn; lia.
    + rewrite lookup_delete_ne, bool_decide_eq_false_2 by done. cbn. lia.
  - destruct (exchanged _ _ _ _ _ _ _); simplify_eq; unfold took_flow, counted; cbn; lia.
  - destruct (submit _ _ _ _ _) as [s1 l1] eqn:Hsub. simplify_eq.
    apply (submit_uses _ _ _ _ _ _ state) in Hsub. unfold took_flow. cbn in *. lia.
  - simplify_eq. unfold counted. cbn. lia.
Qed.

Lemma request_turn_flows i q w s ts lt p l state :
  request_turn decrypt session_ttl i q w = (s, ts, lt, p, l) →
  flows s = flows (server w) ∧ counted (sets_flow state) l = 0.
Proof.
  intros H. unfold request_turn, session_status, session_logout in H. cbv zeta in H.
  repeat case_match; simplify_eq; try done;
    match goal with H : submit _ _ _ _ _ = _ |- _ => apply submit_cases in H as [[-> ->]|[-> ->]] end;
    done.
Qed.

Lemma task_turn_flows i t s x s' p l state :
  task_turn isprintable has_space encrypt decrypt issuer audience session_ttl i t s x = (s', p, l) →
  flows s' = flows s ∧ counted (sets_flow state) l = 0.
Proof.
  intros H. unfold task_turn, waiting in H. repeat case_match; simplify_eq; try done;
    match goal with H : submit _ _ _ _ _ = _ |- _ => apply submit_cases in H as [[-> ->]|[-> ->]] end;
    done.
Qed.

Lemma flow_step w w' : flow_inv w → step w w' → flow_inv w'.
Proof.
  intros Hi H.
  assert (Hused : ∀ i, used w ⊆ used' i w) by (intros i; unfold used'; set_solver).
  destruct H as [dt Hdt|i n v s l Hd Hsub|code state|i k c s c' l Hd Hc Ht|p ck kd sup
    |i k q s ts lt p l Hd Hq Ht|i k x s p l Hd Hx Ht|k x res Hx Hp Hl|p|i k x p l Hd Hx Hst Hcan
    |p Hst|c l1 l2 Hlate].
  - apply (flow_frame w); [done..|intros; apply Z.le_refl].
  - pose proof Hi as [Io Iu].
    assert (Hnew : uses (drawn i) w = 0).
    { pose proof (Iu (drawn i)) as H. destruct Hd as [Hd _]. unfold uses in *.
      pose proof (counted_nonneg (sets_flow (drawn i)) (late w)).
      pose proof (counted_nonneg (took_flow (drawn i)) (callbacks w)).
      assert (0 <= stored (drawn i) (flows (server w))) by (unfold stored; case_match; lia).
      destruct (decide (0 < counted (sets_flow (drawn i)) (late w)
        + stored (drawn i) (flows (server w)) + counted (took_flow (drawn i)) (callbacks w)));
        [destruct Hd; by apply H|lia]. }
    assert (Hle : ∀ state, uses state (World (now w) s (tasks w) (local_tasks w) (stages w) (requests w)
      (callbacks w) (l ++ late w) (used' i w) (opened w))
      <= uses state w + Z.b2z (bool_decide (drawn i = state))).
    { intros state. unfold uses. cbn. rewrite counted_app.
      apply (submit_uses _ _ _ _ _ _ state) in Hsub. cbn in Hsub. lia. }
    split.
    + intros state. specialize (Hle state). case_bool_decide; cbn in Hle; [subst; lia|].
      specialize (Io state). lia.
    + intros state H. specialize (Hle state). case_bool_decide; cbn in Hle.
      * subst. cbn. unfold used'. set_solver.
      * apply Hused, Iu. lia.
  - apply (flow_frame w); [done..|]. intros st. unfold uses. cbn. rewrite counted_app.
    unfold counted at 3. cbn. unfold took_flow. cbn. rewrite andb_false_r. cbn. lia.
  - apply (flow_frame w); [done|apply Hused|]. intros st. unfold uses. cbn.
    rewrite counted_app, (counted_insert _ _ _ _ _ Hc).
    apply (callback_turn_uses _ _ _ _ _ _ _ st) in Ht. lia.
  - apply (flow_frame w); [done..|intros; apply Z.le_refl].
  - apply (flow_frame w); [done|apply Hused|]. intros st. unfold uses. cbn. rewrite counted_app.
    apply (request_turn_flows _ _ _ _ _ _ _ _ st) in Ht as [-> ->]. lia.
  - apply (flow_frame w); [done|apply Hused|]. intros st. unfold uses. cbn. rewrite counted_app.
    apply (task_turn_flows _ _ _ _ _ _ _ st) in Ht as [-> ->]. lia.
  - apply (flow_frame w); [done..|intros; apply Z.le_refl].
  - apply (flow_frame w); [done..|intros; apply Z.le_refl].
  - apply (flow_frame w); [done|apply Hused|]. intros st. unfold uses. cbn. rewrite counted_app.
    assert (counted (sets_flow st) l = 0) as ->; [|lia].
    unfold cancelled in Hcan. by destruct (t_phase x); simplify_eq.
  - apply (flow_frame w); [done..|intros; apply Z.le_refl].
  - apply (flow_frame w); [done..|]. intros st. unfold uses. rewrite Hlate. cbn.
    rewrite !counted_app. change (c :: l2) with ([c] ++ l2). rewrite counted_app.
    unfold counted at 5. cbn. pose proof (exec_stored (now w) c (server w) st). lia.
Qed.

Lemma flow_reachable w : reachable w → flow_inv w.
Proof.
  intros H. assert (H0 : flow_inv empty_world).
  { assert (E : ∀ state, uses state empty_world = 0).
    { intros state. unfold uses, counted, stored. cbn. by rewrite lookup_empty. }
    split; intros state; rewrite E; lia. }
  clear - H H0. unfold Session.reachable in H.
  induction H as [|w w1 w2 Hs _ IH]; [done|]. apply IH. by eapply flow_step.
Qed.

(** What an accepted exchange establishes. *)
Lemma exchanged_Ok i f r :
  exchanged isprintable has_space issuer audience client_id i f = Ok r →
  csrf r = drawn_csrf i ∧ iss (claims r) = issuer ∧ aud (claims r) = audience ∧
  ∃ fields, id_token i = Ok fields ∧ jget "nonce" fields = JStr (flow_nonce f) ∧
    jget "sub" fields = JStr (sub (claims r)).
Proof.
  intros H. unfold exchanged in H.
  destruct (token_response (provider i)) as [tokens|]; [|done].
  destruct (token_field "access_token" tokens); [|done].
  destruct (token_field "id_token" tokens); [|done].
  destruct (token_field "refresh_token" tokens) as [refresh|]; [|done]. inv_res.
  unfold from_option in Hv0, Hv2.
  destruct (verify_oidc_token _ _ v None _ _) as [c|] eqn:H1; [|done].
  destruct (verify_oidc_token _ _ v1 _ _ _) as [c'|] eqn:H2; [|done]. simplify_eq.
  destruct (oidc_identity_is_continuous v0 v2) eqn:H3; [|done]. injection H as <-. cbn.
  apply verify_Some in H1 as (? & ? & _). apply verify_Some in H2 as (_ & _ & Hs & _ & _ & _ & _ & _ & _ & Hn).
  unfold oidc_identity_is_continuous in H3. apply andb_true_iff in H3 as [H3 _].
  apply bool_decide_eq_true in H3. split_and!; try done.
  exists v1. split_and!; [done|by apply Hn|]. congruence.
Qed.

(** C19. A login flow opens one session.  In every reachable world a state value, however
    often its callback is called and whatever answers are lost, was consumed by at most one
    callback; and the session that callback opens belongs to the subject of an ID token
    that carries the flow's nonce. *)
Theorem flow_opens_one_session w :
  reachable w →
  (∀ k k' c c', callbacks w !! k = Some c → callbacks w !! k' = Some c' →
    c_state c = c_state c' → is_Some (c_flow c) → is_Some (c_flow c') → k = k') ∧
  ∀ i t s c s' c' l f sid r packed,
    callback_turn i t s c = (s', c', l) → c_phase c = Exchanging f →
    c_phase c' = Opening sid r packed →
    sid = drawn i ∧ csrf r = drawn_csrf i ∧
    ∃ fields, id_token i = Ok fields ∧ jget "nonce" fields = JStr (flow_nonce f) ∧
      jget "sub" fields = JStr (sub (claims r)).
Proof.
  intros Hw. split.
  - intros k k' c c' Hc Hc' Hst Hf Hf'. destruct (flow_reachable _ Hw) as [Io _].
    specialize (Io (c_state c)). unfold uses in Io.
    pose proof (counted_nonneg (sets_flow (c_state c)) (late w)).
    assert (0 <= stored (c_state c) (flows (server w))) by (unfold stored; case_match; lia).
    eapply (counted_two (took_flow (c_state c)) (callbacks w)); [done..| | |lia]; unfold took_flow;
      apply andb_true_iff; by rewrite !bool_decide_eq_true.
  - intros i t s c s' c' l f sid r packed H Hp Hp'. unfold Session.callback_turn in H.
    rewrite Hp in H. destruct (exchanged _ _ _ _ _ i f) as [r'|] eqn:He; simplify_eq/=.
    apply exchanged_Ok in He as (? & _ & _ & ?). by split_and!.
Qed.
End Login.
End SessionLogin.
