(* ===== verification/SessionRuns.v ===== *)
(** Runs of the session machine: an executable semantics of its steps, a login with a
    refresh, a logout that a refresh undoes, and the theorems applied to them. *)

From Stdlib Require Import Ascii.
From stdpp Require Import strings.
From S2P Require Import Prelude Text Dict Json Oidc Session SessionInv SessionLock SessionSpec SessionEnds SessionLogin.
Import Oidc Session SessionInv SessionLock SessionSpec SessionEnds SessionLogin.

Local Open Scope Z_scope.

Module SessionRuns.

(** ** Executable steps *)

Inductive event :=
| ETick (dt : Z)
| ELogin (i : input) (nonce verifier : string)
| ECallback (code state : string)
| ECallbackTurn (i : input) (k : nat)
| ERequest (p : nat) (cookie : string) (kd : kind) (supplied : string)
| ERequestTurn (i : input) (k : nat)
| ETaskTurn (i : input) (k : nat)
| EForget (k : nat).

Section Run.
Context (isprintable has_space : string → bool).
Context (encrypt : N → payload → string) (decrypt : string → option payload).
Context (issuer audience client_id : string) (session_ttl : Z).

Notation step := (step isprintable has_space encrypt decrypt issuer audience client_id session_ttl).

#[global] Instance draws_dec i w : Decision (draws i w).
Proof. unfold draws. apply _. Defined.

Definition run_event (e : event) (w : world) : option world :=
  match e with
  | ETick dt =>
      guard (0 < dt);;
      Some (World (now w + dt) (server w) (tasks w) (local_tasks w) (stages w) (requests w)
              (callbacks w) (late w) (used w) (opened w))
  | ELogin i nonce verifier =>
      guard (draws i w);;
      let '(s, l) := submit session_ttl i (now w)
        (SetFlowNx (drawn i) (_pack encrypt (iv i) (PFlow (Flow nonce verifier)))) (server w) in
      Some (World (now w) s (tasks w) (local_tasks w) (stages w) (requests w) (callbacks w)
              (l ++ late w) (used' i w) (opened w))
  | ECallback code state =>
      Some (World (now w) (server w) (tasks w) (local_tasks w) (stages w) (requests w)
              (callbacks w ++ [Callback code state None Starting]) (late w) (used w) (opened w))
  | ECallbackTurn i k =>
      guard (draws i w);;
      c ← callbacks w !! k;
      let '(s, c', l) := callback_turn isprintable has_space encrypt decrypt issuer audience
                           client_id session_ttl i (now w) (server w) c in
      Some (World (now w) s (tasks w) (local_tasks w) (stages w) (requests w)
              (<[k := c']> (callbacks w)) (l ++ late w) (used' i w)
              (opening (c_phase c) (c_phase c') (opened w)))
  | ERequest p cookie kd supplied =>
      Some (World (now w) (server w) (tasks w) (local_tasks w) (stages w)
              (requests w ++ [Request p cookie kd supplied Reading]) (callbacks w)
              (late w) (used w) (opened w))
  | ERequestTurn i k =>
      guard (draws i w);; q ← requests w !! k; Some (after_request decrypt session_ttl i k q w)
  | ETaskTurn i k =>
      guard (draws i w);;
      x ← tasks w !! k;
      let '(s, p, l) := task_turn isprintable has_space encrypt decrypt issuer audience
                          session_ttl i (now w) (server w) x in
      Some (World (now w) s (<[k := at_phase p x]> (tasks w)) (local_tasks w) (stages w)
              (requests w) (callbacks w) (l ++ late w) (used' i w) (opened w))
  | EForget k =>
      x ← tasks w !! k;
      match t_phase x with
      | TaskDone _ =>
          guard (local_tasks w !! (t_proc x, t_sid x) = Some k);;
          Some (World (now w) (server w) (tasks w) (delete (t_proc x, t_sid x) (local_tasks w))
                  (stages w) (requests w) (callbacks w) (late w) (used w) (opened w))
      | _ => None
      end
  end.

Lemma run_event_step e w w' : run_event e w = Some w' → step w w'.
Proof.
  destruct e; cbn; intros H.
  - case_guard; simplify_eq/=. by constructor.
  - case_guard; simplify_eq/=. destruct (submit _ _ _ _ _) eqn:Hs. simplify_eq. by eapply s_login.
  - simplify_eq. constructor.
  - case_guard; simplify_eq/=. destruct (callbacks w !! k) eqn:Hk; simplify_eq/=.
    destruct (callback_turn _ _ _ _ _ _ _ _ _ _ _ _) as [[s c'] l] eqn:Hc. simplify_eq.
    by eapply s_callback_turn.
  - simplify_eq. constructor.
  - case_guard; simplify_eq/=. destruct (requests w !! k) eqn:Hk; simplify_eq/=.
    by apply after_request_step.
  - case_guard; simplify_eq/=. destruct (tasks w !! k) eqn:Hk; simplify_eq/=.
    destruct (task_turn _ _ _ _ _ _ _ _ _ _ _) as [[s p] l] eqn:Ht. simplify_eq.
    by eapply s_task_turn.
  - destruct (tasks w !! k) as [x|] eqn:Hk; simplify_eq/=.
    destruct (t_phase x) eqn:Hp; simplify_eq. case_guard; simplify_eq/=. by eapply s_forget.
Qed.

Fixpoint run_events (es : list event) (w : world) : option world :=
  match es with [] => Some w | e :: es' => run_event e w ≫= run_events es' end.

Lemma run_events_steps es w w' : run_events es w = Some w' → rtc step w w'.
Proof.
  revert w. induction es as [|e es IH]; cbn; intros w H; [by simplify_eq|].
  apply bind_Some in H as (w1 & H1 & H2). eapply rtc_l; [by eapply run_event_step|by apply IH].
Qed.

Lemma run_app es es' w : run_events (es ++ es') w = run_events es w ≫= run_events es'.
Proof.
  revert w. induction es as [|e es IH]; intros w; cbn; [done|].
  destruct (run_event e w); cbn; [apply IH|done].
Qed.
End Run.

(** ** A cipher that hides nothing *)

Definition put_text (s rest : string) : string :=
  foldr (λ c acc, String "x" (String c acc)) (String "." rest) (String.list_ascii_of_string s).
Fixpoint take_text (s : string) : option (string * string) :=
  match s with
  | String "."%char rest => Some (EmptyString, rest)
  | String "x"%char (String c rest) =>
      '(t, rest') ← take_text rest; Some (String c t, rest')
  | _ => None
  end.
Lemma take_put_text s rest : take_text (put_text s rest) = Some (s, rest).
Proof.
  unfold put_text. induction s as [|c s IH]; cbn; [done|]. by rewrite IH.
Qed.

Fixpoint put_pos (p : positive) (rest : string) : string :=
  match p with
  | xI q => String "1" (put_pos q rest)
  | xO q => String "0" (put_pos q rest)
  | xH => String "." rest
  end.
Fixpoint take_pos (s : string) : option (positive * string) :=
  match s with
  | String "1"%char s' => '(p, rest) ← take_pos s'; Some (xI p, rest)
  | String "0"%char s' => '(p, rest) ← take_pos s'; Some (xO p, rest)
  | String "."%char rest => Some (xH, rest)
  | _ => None
  end.
Lemma take_put_pos p rest : take_pos (put_pos p rest) = Some (p, rest).
Proof. induction p as [p IH|p IH|]; cbn; by rewrite ?IH. Qed.

Definition put_Z (z : Z) (rest : string) : string := put_pos (encode z) rest.
Definition take_Z (s : string) : option (Z * string) :=
  '(p, rest) ← take_pos s; z ← decode p; Some (z, rest).
Lemma take_put_Z z rest : take_Z (put_Z z rest) = Some (z, rest).
Proof. unfold take_Z, put_Z. rewrite take_put_pos. cbn. by rewrite decode_encode. Qed.

Definition put_texts (l : list string) (rest : string) : string :=
  foldr (λ s acc, String "+" (put_text s acc)) (String "." rest) l.
Fixpoint take_texts (fuel : nat) (s : string) : option (list string * string) :=
  match fuel, s with
  | S n, String "+"%char s' =>
      '(t, rest) ← take_text s'; '(l, rest') ← take_texts n rest; Some (t :: l, rest')
  | _, String "."%char rest => Some ([], rest)
  | _, _ => None
  end.
Lemma take_put_texts n l rest :
  (length l <= n)%nat → take_texts n (put_texts l rest) = Some (l, rest).
Proof.
  revert n. induction l as [|s l IH]; intros n Hn; cbn; [by destruct n|].
  destruct n as [|n]; cbn in *; [lia|]. rewrite take_put_text. cbn. by rewrite IH by lia.
Qed.

Definition put_claims (c : AuthClaims) (rest : string) : string :=
  put_text (sub c) (put_text (email c) (put_text (preferred_username c)
    (put_Z (Z.of_nat (length (groups c))) (put_texts (groups c)
      (put_text (iss c) (put_text (aud c) (put_Z (iat c) (put_Z (exp c) rest)))))))).
Definition take_claims (s : string) : option (AuthClaims * string) :=
  '(a, s) ← take_text s; '(b, s) ← take_text s; '(c, s) ← take_text s;
  '(n, s) ← take_Z s; '(gs, s) ← take_texts (Z.to_nat n) s;
  '(d, s) ← take_text s; '(e, s) ← take_text s; '(f, s) ← take_Z s; '(g, s) ← take_Z s;
  Some (Claims a b c gs d e f g, s).
Lemma take_put_claims c rest : take_claims (put_claims c rest) = Some (c, rest).
Proof.
  unfold take_claims, put_claims. destruct c; cbn [sub email preferred_username groups iss aud iat exp].
  repeat (rewrite ?take_put_text, ?take_put_Z; cbn [mbind option_bind]).
  rewrite take_put_texts by lia. cbn [mbind option_bind].
  repeat (rewrite ?take_put_text, ?take_put_Z; cbn [mbind option_bind]). done.
Qed.

Definition encrypt (n : N) (p : payload) : string :=
  put_Z (Z.of_N n)
    match p with
    | PSession r => String "S" (put_claims (claims r) (put_text (refresh_token r) (put_text (csrf r) "")))
    | PFlow f => String "F" (put_text (flow_nonce f) (put_text (verifier f) ""))
    end.
Definition decrypt (s : string) : option payload :=
  '(_, s) ← take_Z s;
  match s with
  | String "S"%char s =>
      '(c, s) ← take_claims s; '(r, s) ← take_text s; '(t, _) ← take_text s;
      Some (PSession (Sess c r t))
  | String "F"%char s => '(n, s) ← take_text s; '(v, _) ← take_text s; Some (PFlow (Flow n v))
  | _ => None
  end.

Lemma unpack_pack n p : _unpack decrypt (Some (encrypt n p)) = Some p.
Proof.
  assert (E : decrypt (encrypt n p) = Some p).
  { unfold decrypt, encrypt. rewrite take_put_Z. destruct p as [[c r t]|[a b]]; cbn [mbind option_bind];
      [rewrite take_put_claims; cbn [mbind option_bind]|];
      by repeat (rewrite ?take_put_text; cbn [mbind option_bind]). }
  unfold _unpack. destruct (encrypt n p) eqn:Hs; [|by rewrite <- Hs in *].
  unfold encrypt, put_Z in Hs. by destruct (encode (Z.of_N n)).
Qed.

(** ** A login, a refresh, and a logout *)

Definition printable (s : string) : bool := true.
Definition blank (s : string) : bool := false.
Definition ttl : Z := 2592000000.
Notation step := (step printable blank encrypt decrypt "https://id" "api" "browser" ttl).
Notation reachable := (reachable printable blank encrypt decrypt "https://id" "api" "browser" ttl).
Notation run := (run_events printable blank encrypt decrypt "https://id" "api" "browser" ttl).
Notation act := (run_event printable blank encrypt decrypt "https://id" "api" "browser" ttl).
Notation callback_turn := (callback_turn printable blank encrypt decrypt "https://id" "api"
  "browser" ttl).
Notation task_turn := (task_turn printable blank encrypt decrypt "https://id" "api" ttl).

(** The n-th token drawn. *)
Definition token (n : nat) : string :=
  (String.string_of_list_ascii (replicate (43 - n) "a"%char)
   +:+ String.string_of_list_ascii (replicate n "b"%char))%string.

Definition jwt (expiry : Z) : list (string * json) :=
  [("sub"%string, JStr "ana"); ("iat"%string, JInt 0); ("exp"%string, JInt expiry)].
Definition tokens (refresh : string) : http :=
  Response 200 100 (Some (JObj
    [("access_token"%string, JStr "a"); ("id_token"%string, JStr "i");
     ("refresh_token"%string, JStr refresh)])).
(** The world of the n-th turn: Valkey answers, and the provider issues tokens. *)
Definition turn_input (n : nat) : input :=
  Input true false (token (2 * n)) (token (2 * n + 1)) (N.of_nat n) (tokens "r")
    (Ok (jwt (if Nat.leb n 3 then 1000 else 5000)))
    (Ok (jwt 1000 ++ [("nonce"%string, JStr "n0")])).

Definition state0 : string := token 0.
Definition sid0 : string := token 4.
Definition csrf0 : string := token 5.

Definition login : list event :=
  [ELogin (turn_input 0) "n0" "v0"; ECallback "code" state0;
   ECallbackTurn (turn_input 1) 0; ECallbackTurn (turn_input 2) 0; ECallbackTurn (turn_input 3) 0].
Definition after (es : list event) : world := default empty_world (run es empty_world).

(** A page is read after the access token's last minute began. *)
Definition page_starts : list event :=
  login ++ [ETick 940000; ERequest 0 sid0 (Call "GET") ""; ERequestTurn (turn_input 4) 0;
            ERequestTurn (turn_input 14) 0].
Definition exchange : list event :=
  [ETaskTurn (turn_input 5) 0; ETaskTurn (turn_input 6) 0; ETaskTurn (turn_input 7) 0;
   ETaskTurn (turn_input 8) 0].
Definition store : list event :=
  [ETaskTurn (turn_input 9) 0; ETaskTurn (turn_input 10) 0; ETaskTurn (turn_input 15) 0;
   ETaskTurn (turn_input 16) 0].
Definition page_read : list event :=
  page_starts ++ exchange ++ store ++ [ERequestTurn (turn_input 11) 0].

Definition runs (es : list event) : bool :=
  match run es empty_world with Some _ => true | None => false end.

Lemma after_steps es es' : runs (es ++ es') = true → rtc step (after es) (after (es ++ es')).
Proof.
  unfold runs, after. rewrite run_app. destruct (run es empty_world) as [w|]; cbn; [|done].
  destruct (run es' w) as [w'|] eqn:H; [|done]. intros _. by eapply run_events_steps.
Qed.
Lemma login_reachable es : runs es = true → reachable (after es).
Proof. apply (after_steps []). Qed.

Definition phase_of (k : nat) (w : world) : option request_phase := q_phase <$> requests w !! k.

Example page_is_read :
  runs page_read = true ∧
  phase_of 0 (after page_read)
    = Some (Answered (Granted (Claims "ana" "" "" [] "https://id" "api" 0 5000))).
Proof. split; vm_compute; reflexivity. Qed.

(** A logout authorized in the last usable second deletes the session while the refresh of
    a page, in another process, is about to store it. *)
Definition logout_answered : list event :=
  login ++ [ETick 939000; ERequest 1 sid0 Logout csrf0; ERequestTurn (turn_input 4) 0;
            ERequestTurn (turn_input 14) 0; ETick 1000; ERequest 0 sid0 (Call "GET") "";
            ERequestTurn (turn_input 11) 1; ERequestTurn (turn_input 17) 1]
  ++ exchange ++ [ERequestTurn (turn_input 12) 0].
Definition next_page : list event :=
  store ++ [ERequest 1 sid0 (Call "GET") ""; ERequestTurn (turn_input 13) 2;
            ERequestTurn (turn_input 18) 2].

(** A logout can be undone.  There is a run in which the logout of a session has been
    answered, and afterwards a new request with its cookie is granted the claims: the
    refresh that was under way stored the session again, without looking whether it is
    still there. *)
Theorem logout_can_be_undone :
  ∃ w1 w2 k q k' q' c,
    reachable w1 ∧ requests w1 !! k = Some q ∧ q_phase q = Answered LoggedOut ∧
    rtc step w1 w2 ∧ requests w1 !! k' = None ∧
    requests w2 !! k' = Some q' ∧ q_cookie q' = q_cookie q ∧ q_phase q' = Answered (Granted c).
Proof.
  exists (after logout_answered), (after (logout_answered ++ next_page)), 0%nat,
    (Request 1 sid0 Logout csrf0 (Answered LoggedOut)), 2%nat.
  eexists _, _. split_and!; [|vm_compute; reflexivity|reflexivity| |vm_compute; reflexivity
    |vm_compute; reflexivity|reflexivity|reflexivity].
  - apply login_reachable. vm_compute. reflexivity.
  - apply after_steps. vm_compute. reflexivity.
Qed.

(** Not even a refresh has to be under way: a page that was served the session before the
    logout deleted it, and looks at it after, starts one. *)
Definition logout_between : list event :=
  login ++ [ETick 939000; ERequest 1 sid0 Logout csrf0; ERequestTurn (turn_input 4) 0;
            ERequestTurn (turn_input 14) 0; ETick 1000; ERequest 0 sid0 (Call "GET") "";
            ERequestTurn (turn_input 11) 1; ERequestTurn (turn_input 12) 0].
Example served_read_undoes_logout :
  let w1 := after logout_between in
  let w2 := after (logout_between ++ [ERequestTurn (turn_input 17) 1] ++ exchange ++ next_page) in
  phase_of 0 w1 = Some (Answered LoggedOut) ∧ tasks w1 = [] ∧ late w1 = [] ∧
  get (now w1) (sessions (server w1)) sid0 = None ∧
  phase_of 2 w2 = Some (Answered (Granted (Claims "ana" "" "" [] "https://id" "api" 0 5000))).
Proof. vm_compute. split_and!; reflexivity. Qed.

(** ** The theorems on these runs *)

Definition page_request : request := Request 0 sid0 (Call "GET") "" 
  (Answered (Granted (Claims "ana" "" "" [] "https://id" "api" 0 5000))).

Lemma requests_act_for_the_login_witness :
  requests (after page_read) !! 0%nat = Some page_request ∧
  granted (opened (after page_read)) page_request (Claims "ana" "" "" [] "https://id" "api" 0 5000).
Proof.
  assert (Hq : requests (after page_read) !! 0%nat = Some page_request) by (vm_compute; reflexivity).
  split; [exact Hq|].
  exact (requests_act_for_the_login printable blank encrypt decrypt "https://id" "api" "browser" ttl
    unpack_pack _ _ _ (login_reachable page_read ltac:(vm_compute; reflexivity)) Hq).
Defined.

(** The exchange of the page's refresh. *)
Definition page_posts : list event := page_starts ++ take 2 exchange.
Definition page_task : task :=
  default (Task 0 "" (Sess (Claims "" "" "" [] "" "" 0 0) "" "") Locking) (tasks (after page_posts) !! 0%nat).

Lemma single_flight_witness :
  exchanging (now (after page_posts)) page_task ∧
  ∀ k x, tasks (after page_posts) !! k = Some x → t_sid x = sid0 →
    exchanging (now (after page_posts)) x → k = 0%nat.
Proof.
  assert (He : exchanging (now (after page_posts)) page_task) by (vm_compute; reflexivity).
  split; [exact He|]. intros k x Hx Hs Hex.
  refine (single_flight printable blank encrypt decrypt "https://id" "api" "browser" ttl _ k 0 x
    page_task (login_reachable page_posts ltac:(vm_compute; reflexivity)) Hx _ _ Hex He).
  - vm_compute. reflexivity.
  - rewrite Hs. vm_compute. reflexivity.
Defined.

(** A logout while the session is usable and nothing else runs. *)
Definition plain_logout : list event :=
  login ++ [ERequest 0 sid0 Logout csrf0; ERequestTurn (turn_input 4) 0;
            ERequestTurn (turn_input 14) 0].
Definition logout_request : request := Request 0 sid0 Logout csrf0 LoggingOut.
Definition logged_out : world := after_request decrypt ttl (turn_input 5) 0 logout_request (after plain_logout).

Lemma logout_draws : draws (turn_input 5) (after plain_logout).
Proof. apply (bool_decide_unpack (draws _ _)). vm_compute. exact I. Qed.

Lemma only_logout_ends_a_session_witness :
  get (now logged_out) (sessions (server logged_out)) sid0 = None ∧
  ((∃ k q, requests (after plain_logout) !! k = Some q ∧ q_cookie q = sid0 ∧
     q_phase q = LoggingOut ∧ csrf_ok (opened (after plain_logout)) q) ∨
   DelSession sid0 ∈ late (after plain_logout)).
Proof.
  assert (Hn : get (now logged_out) (sessions (server logged_out)) sid0 = None)
    by (vm_compute; reflexivity).
  split; [exact Hn|].
  refine (only_logout_ends_a_session printable blank encrypt decrypt "https://id" "api" "browser" ttl
    unpack_pack (after plain_logout) logged_out sid0
    (Sess (Claims "ana" "" "" [] "https://id" "api" 0 1000) "r" csrf0) _
    (login_reachable plain_logout ltac:(vm_compute; reflexivity))
    (after_request_step _ _ _ _ _ _ _ _ _ _ _ _ logout_draws _) eq_refl _ Hn).
  - reflexivity.
  - vm_compute. reflexivity.
  - vm_compute. reflexivity.
Defined.

Lemma quiet_plain_logout : quiet sid0 (after plain_logout).
Proof.
  split.
  - intros k x Hx. assert (E : tasks (after plain_logout) = []) by (vm_compute; reflexivity).
    rewrite E, lookup_nil in Hx. discriminate Hx.
  - intros packed Hin. assert (E : late (after plain_logout) = []) by (vm_compute; reflexivity).
    rewrite E in Hin. exact (proj1 (elem_of_nil _) Hin).
  - intros k c r packed Hc.
    assert (E : c_phase <$> callbacks (after plain_logout) = [CallbackDone (Ok sid0)])
      by (vm_compute; reflexivity).
    apply (f_equal (fmap c_phase)) in Hc. rewrite <- list_lookup_fmap, E in Hc.
    destruct k as [|k]; [|discriminate Hc]. injection Hc as <-. discriminate.
  - intros k q packed Hq _.
    assert (E : q_phase <$> requests (after plain_logout) = [LoggingOut]) by (vm_compute; reflexivity).
    apply (f_equal (fmap q_phase)) in Hq. rewrite <- list_lookup_fmap, E in Hq.
    destruct k as [|k]; [|discriminate Hq]. injection Hq as <-. discriminate.
Qed.

Lemma quiet_logout_is_final_witness :
  quiet sid0 (after plain_logout) ∧
  ∀ w', rtc step logged_out w' → get (now w') (sessions (server w')) sid0 = None.
Proof.
  split; [exact quiet_plain_logout|]. intros w' H.
  refine (proj1 (proj2 (quiet_logout_is_final printable blank encrypt decrypt "https://id" "api"
    "browser" ttl unpack_pack (after plain_logout) 0 logout_request (turn_input 5)
    (login_reachable plain_logout ltac:(vm_compute; reflexivity)) _ eq_refl logout_draws eq_refl _
    quiet_plain_logout) w' H)).
  - vm_compute. reflexivity.
  - vm_compute. discriminate.
Defined.

Definition new_task : task :=
  default page_task (tasks (after page_starts) !! 0%nat).

Lemma refresh_ends_witness :
  t_phase new_task = Locking ∧
  ∀ n w', moves printable blank encrypt decrypt "https://id" "api" "browser" ttl 0 n
            (after page_starts) w' → n <= 88.
Proof.
  assert (Hp : t_phase new_task = Locking) by (vm_compute; reflexivity). split; [exact Hp|].
  intros n w' Hm.
  refine (proj1 (refresh_ends printable blank encrypt decrypt "https://id" "api" "browser" ttl
    0 n _ w' new_task _ Hp Hm)).
  vm_compute. reflexivity.
Defined.

Lemma flow_opens_one_session_witness :
  uses state0 (after login) = 1 ∧
  ∀ k c, callbacks (after login) !! k = Some c → c_state c = state0 → is_Some (c_flow c) →
    k = 0%nat.
Proof.
  split; [vm_compute; reflexivity|]. intros k c Hc Hs Hf.
  refine (proj1 (flow_opens_one_session printable blank encrypt decrypt "https://id" "api" "browser"
    ttl (after login) (login_reachable login ltac:(vm_compute; reflexivity))) k 0%nat c
    (Callback "code" state0 (Some (Flow "n0" "v0")) (CallbackDone (Ok sid0))) Hc _ _ Hf _).
  - vm_compute. reflexivity.
  - exact Hs.
  - eexists. reflexivity.
Defined.
End SessionRuns.
